(* ===== verification/_CoqProject ===== *)
-Q . S2P
Prelude.v
Fletcher.v
Lzjb.v
ZioCompress.v
Gf256.v
Raidz.v
RaidzSpec.v
RaidzPQ.v
RaidzMap.v
RaidzIO.v
Avl.v
AvlTree.v
AvlProof.v
AvlOps.v
AvlRemove.v
AvlDestroy.v
AvlSpec.v
SpaceMap.v
SpaceMapProof.v
SpaceMapSync.v
SpaceMapLog.v
SpaceMapSpec.v
TxgList.v
Namecheck.v
Blkptr.v
Sha256.v
ZioChecksum.v
Refcount.v
Rrwlock.v
MetaslabFF.v
Metaslab.v
MetaslabProof.v
MetaslabInv.v
MetaslabCount.v
MetaslabSync.v
MetaslabGroup.v
MetaslabAlloc.v
MetaslabLife.v
MetaslabPool.v
MetaslabSpec.v
VdevSync.v
MetaslabClass.v
MetaslabRing.v
MetaslabDva.v
MetaslabDvaSpec.v
AvlHeap.v
Rlock.v
RlockCover.v
RlockTree.v
RlockProof.v
RlockReader.v
RlockOps.v
RlockUnlock.v
RlockSpec.v
VdevState.v
VdevStateTree.v
VdevStateProof.v
VdevStateSpec.v
