(* ===== verification/Prelude.v ===== *)
(** * ZFS on FUSE: a verification of its core data structures

    The program is the user-space port of ZFS: [src/src/lib/libzpool] holds
    the storage pool code, [src/src/lib/libavl] the balanced trees it is built
    on, [src/src/lib/libzfscommon] the headers and rules shared with the
    commands, [src/src/zfs-fuse] the file system server.  A write goes down
    from the DMU through compression ([zio_compress.c], [lzjb.c], [gzip.c]),
    checksums ([zio_checksum.c], [fletcher.c], [sha256.c]) and the allocator
    (the metaslabs of [metaslab.c] over the space maps of [space_map.c], which
    are AVL trees of [avl.c]) to the virtual devices, of which RAID-Z ([vdev_raidz.c]) is the
    intricate one; the result is a block pointer ([spa.h]).  A read verifies
    the checksum, reconstructs from parity when it must, and decompresses.

    ** Parts, files and sources

    - Fletcher: [fletcher.c], the six checksum routines on byte buffers.
    - Lzjb: [lzjb.c], compressor and decompressor on buffers with bounds.
    - ZioCompress: [zio_compress.c], [gzip.c], [zmod.c]; the functions of zlib
      are the class [Zlib] with their documented contract.
    - Gf256: the field arithmetic of [vdev_raidz.c] (tables, word tricks).
    - Raidz, RaidzSpec, RaidzPQ: parity generation and reconstruction, the
      reference parity, and their agreement.
    - RaidzMap: the column layout ([vdev_raidz_map_alloc], [vdev_raidz_asize]).
    - RaidzIO: [vdev_raidz_io_start] and all phases of [vdev_raidz_io_done];
      the checksum of the whole block is a parameter.
    - Avl: [avl.c] on a heap of nodes with the packed parent, child index and
      balance word of [avl_impl.h]; AvlTree: functional trees as the
      specification; AvlProof (rotations, insertion), AvlOps (search, walking),
      AvlRemove, AvlDestroy: the refinement.  AvlSpec: the interface
      [AvlIface] that clients use, its laws [AvlLaws], and [avl.c] as an
      instance.
    - SpaceMap, SpaceMapSync: [space_map.c] over any [AvlIface] and any object
      store ([ObjectStore], what it uses of the DMU); SpaceMapProof,
      SpaceMapLog: invariants, the meaning of the on-disk log; SpaceMapSpec:
      theorems and a run on the trees of [avl.c].
    - Namecheck: [zfs_namecheck.c].
    - Blkptr: the bit fields of DVAs and block pointers ([spa.h]).
    - Sha256: [sha256.c] against FIPS 180-3.
    - ZioChecksum: [zio_checksum.c], over Fletcher, Sha256 and Blkptr.
    - TxgList: the lists of dirty objects per transaction group of [txg.c].
    - MetaslabFF: the first-fit block picker of [metaslab.c].  Metaslab:
      metaslabs, their groups, weights, syncing and allocation, with what they
      use of [vdev.c] and of the DMU (the class [MosStore]).  MetaslabProof
      (sets of offsets), MetaslabInv (the invariant and the laws [MosLaws] of
      the DMU), MetaslabCount (the space a log counts), MetaslabSync,
      MetaslabGroup, MetaslabAlloc: what each operation does; MetaslabLife: the specification of a metaslab as a set of blocks
      and its refinement; MetaslabPool: allocation from a group; MetaslabSpec:
      theorems and a run on the trees of [avl.c] and a store in memory.
    - VdevSync: [vdev_sync] (its metaslabs) and [vdev_sync_done] of [vdev.c],
      and the operations of a whole vdev against a specification by blocks.
    - MetaslabClass: the classes of [metaslab.c], rings of groups with a rotor,
      and allocation, freeing and claiming of the copies of a block pointer,
      with what they use of [vdev.c], [spa_misc.c] and [spa.h].  MetaslabRing:
      the rings; MetaslabDva: the invariant of a pool and what each step of an
      allocation does to its blocks; MetaslabDvaSpec: theorems and a run on the
      trees of [avl.c].
    - Refcount: [refcount.c], the tracked reference counts of user space.
    - Rrwlock: [rrwlock.c], re-entrant reader/writer locks, and the system of
      threads around one lock as a step relation.
    - AvlHeap: the contract of the trees for clients that keep objects outside
      of them ([AvlHeapLaws]), and [avl.c] as an instance.  Rlock: the range
      locks of [zfs_rlock.c] over that interface.  RlockCover: the elementary
      edits of the entries and what they keep; RlockTree, RlockProof: what the
      helpers do to the tree and the invariant; RlockReader, RlockOps,
      RlockUnlock: the operations; RlockSpec: the threads around a file as a
      step relation, theorems and a run on the trees of [avl.c].

    ** Conventions

    C integers are [Z] with the wrap-around of their width written out ([u8],
    [u32], [u64]); buffers are lists of bytes; stores and loads outside a
    buffer, failed assertions and panics give [None] of [option], so a theorem
    that a function returns [Some] is also a theorem that it stays in its
    buffers and passes its assertions.  Shared mutable structures (AVL nodes,
    segments) live in heaps ([gmap Z]) and are updated in place.  Loops that
    are not structural take fuel; every theorem about them says that the fuel
    the definition passes is enough: a buffer's length for the buffer loops,
    the number of objects for the tree loops ([nodes_fuel]), the number of
    blocks of a log ([load_fuel]), twice the number of metaslabs for the
    retries of an allocation ([group_alloc_fuel]), one more than the objects for
    the lists of a vdev ([list_fuel]), one more than the entries of the
    tree for the searches of the range locks ([range_fuel]), the number of
    groups for the destruction of a class, and 61 rounds over all groups for an allocation
    ([alloc_dva_fuel]: a round halves the distance asked for, at most [2 ^ 61]
    in the first).  The build has assertions active and the
    host is little-endian.

    ** Theorems

    - C1 to C9: metaslabs.  Any history of loading, allocating, claiming,
      freeing and syncing refines a specification by blocks: space is never
      given to two blocks, nor reused before the group that freed it is
      synced; the log on disk stands for the blocks on disk, condensed or not,
      and a metaslab opened from it has them; allocation from a group
      terminates, passes its assertions and lists what it changed for syncing.
      The same of a whole vdev (C2): allocation, claims, frees, and the sync of
      one group after the other by the lists of what each has changed.  Of the
      whole pool: allocation of all copies of a block is all or nothing (C3),
      freeing and claiming find the space of each copy (C4, C8), classes are
      rings (C9).
    - C10 to C15: RAID-Z: no wrong data from a read that reports success, the
      reconstruction of two columns, parity, the layout and its disjointness,
      the success of writes.  Also proved, in RaidzPQ: the reconstruction of one.
    - C16 to C18: range locks: exclusion, counts and assertions in every state
      of any interleaving; when a lock is granted; no lost wake-up.
    - C19 to C23: space maps as sets, the log round trip, double use, and the
      first-fit picker.
    - C24 to C27: AVL insertion, removal, search and destruction, with the
      memory they touch.  Also proved, in AvlSpec: traversal and the logarithmic
      depth of a search.
    - C28 to C30: LZJB round trip and bounds; the compression vectors.
    - C31 to C33: SHA-256 against the standard; checksum generation and
      verification.
    - C34 to C37: the re-entrant lock excludes, counts right, loses no wake-up
      and lets readers re-enter, in every reachable state of any interleaving;
      reference counts as multisets of holds; the lists of dirty objects as
      stacks.
    - C38 to C39: dataset names against their grammar; block pointer fields.
      Also proved, in Namecheck: pool names.
    - C40: Fletcher-4 as weighted sums.  Also proved: its detection of small
      errors (Fletcher) and the field arithmetic of RAID-Z (Gf256).

    ** Not modelled

    The ARC, DMU, DSL, ZAP, ZIL and the threads of the pool: concurrent caches
    whose state is spread over the whole system; device and socket I/O, FUSE
    and VFS glue, the commands; zlib and libumem (third-party).  The mutexes around
    the modelled structures are the callers': an operation is one step.  In
    [vdev_raidz.c] the open, close and state-change callbacks and the frees of
    [vdev_raidz_map_free] are left out. *)
From Stdlib Require Import ZArith Lia.
From stdpp Require Import base numbers list option gmap.

#[global] Open Scope Z_scope.

(** ** Machine integers *)

Definition u8 (x : Z) : Z := x mod 2 ^ 8.
Definition u16 (x : Z) : Z := x mod 2 ^ 16.
Definition u32 (x : Z) : Z := x mod 2 ^ 32.
Definition u64 (x : Z) : Z := x mod 2 ^ 64.

(** Range predicates of the unsigned types. *)
Definition is_u8 (x : Z) : Prop := 0 <= x < 2 ^ 8.
Definition is_u32 (x : Z) : Prop := 0 <= x < 2 ^ 32.
Definition is_u64 (x : Z) : Prop := 0 <= x < 2 ^ 64.

(** ** Abnormal termination

    A computation of the program that may stop has type [option A]: [None] is
    an [abort()] (a failed [VERIFY] or [ASSERT], both active in the default
    [debug=1] build of SConstruct, or [panic]) or an access outside the
    memory the caller handed over. *)

Declare Scope c_scope.
Delimit Scope c_scope with c.
Notation "'VERIFY' b 'in' k" := (if (b : bool) then k else None)
  (at level 10, b at level 100, k at level 200) : c_scope.
Notation "'let*' p := e 'in' k" := (mbind (fun p => k) (e : option _))
  (at level 10, p pattern, e at level 200, k at level 200) : c_scope.
#[global] Open Scope c_scope.

Lemma u64_add_l x y : u64 (u64 x + y) = u64 (x + y).
Proof. unfold u64. apply Zplus_mod_idemp_l. Qed.
Lemma u64_add_r x y : u64 (x + u64 y) = u64 (x + y).
Proof. unfold u64. apply Zplus_mod_idemp_r. Qed.
Lemma u64_idem x : u64 (u64 x) = u64 x.
Proof. apply Zmod_mod. Qed.
Lemma u64_small x : is_u64 x -> u64 x = x.
Proof. apply Z.mod_small. Qed.
Lemma u64_range x : is_u64 (u64 x).
Proof. by apply Z.mod_pos_bound. Qed.

(** ** Block sizes *)

Definition SPA_MINBLOCKSHIFT : Z := 9.
Definition SPA_MAXBLOCKSHIFT : Z := 17.
Definition SPA_MINBLOCKSIZE : Z := Z.shiftl 1 SPA_MINBLOCKSHIFT.
Definition SPA_MAXBLOCKSIZE : Z := Z.shiftl 1 SPA_MAXBLOCKSHIFT.
Definition SPA_GANGBLOCKSIZE : Z := SPA_MINBLOCKSIZE.

(** ** Error numbers *)

Definition EIO : Z := 5.
Definition ENXIO : Z := 6.
Definition EINVAL : Z := 22.
Definition ENOSPC : Z := 28.
(** [EBADE] *)
Definition ECKSUM : Z := 52.

(** ** Tactics *)

(** Turn boolean comparisons in the context and goal into propositions. *)
Ltac bprop :=
  repeat match goal with
  | H : (_ && _)%bool = true |- _ => apply andb_true_iff in H as [? ?]
  | H : (_ || _)%bool = false |- _ => apply orb_false_iff in H as [? ?]
  | H : negb _ = true |- _ => apply negb_true_iff in H
  | H : negb _ = false |- _ => apply negb_false_iff in H
  | H : (_ =? _) = true |- _ => apply Z.eqb_eq in H
  | H : (_ =? _) = false |- _ => apply Z.eqb_neq in H
  | H : (_ <? _) = true |- _ => apply Z.ltb_lt in H
  | H : (_ <? _) = false |- _ => apply Z.ltb_ge in H
  | H : (_ <=? _) = true |- _ => apply Z.leb_le in H
  | H : (_ <=? _) = false |- _ => apply Z.leb_gt in H
  end.

(** Split on the scrutinee of the first [match] of the goal, keeping an
    equation. *)
Ltac case_goal :=
  match goal with
  | |- context [match ?x with _ => _ end] => destruct x eqn:?
  end.

(** Take apart [Forall] over explicit lists. *)
Ltac forall_inv :=
  repeat match goal with
  | H : Forall _ (_ :: _) |- _ => apply Forall_cons_1 in H as [? H]
  end.

(** [lia] after exposing the widths and the division equations. *)
Ltac uint :=
  unfold u8, u16, u32, u64, is_u8, is_u32, is_u64 in *;
  Z.div_mod_to_equations; lia.

(** ** Shifts and masks as arithmetic *)

Lemma lor_shiftl_add a b n :
  0 <= n -> 0 <= b < 2 ^ n -> Z.lor (Z.shiftl a n) b = a * 2 ^ n + b.
Proof.
  intros Hn Hb. rewrite <-Z.shiftl_mul_pow2 by done.
  assert (Z.land (Z.shiftl a n) b = 0) as Hl.
  { apply Z.bits_inj'; intros i Hi. rewrite Z.land_spec, Z.bits_0.
    destruct (Z.lt_ge_cases i n); [by rewrite Z.shiftl_spec_low by lia|].
    rewrite <-(Z.mod_small b (2 ^ n)), Z.mod_pow2_bits_high, andb_false_r by lia. done. }
  by rewrite <-Z.lxor_lor, Z.add_nocarry_lxor by done.
Qed.

Lemma land_ones_mod x n : 0 <= n -> Z.land x (2 ^ n - 1) = x mod 2 ^ n.
Proof. intros. rewrite <-Z.land_ones by done. f_equal. rewrite Z.ones_equiv. lia. Qed.

(** ** sys/sysmacros.h and sys/spa.h, on 64-bit operands *)

Definition P2PHASE (x align : Z) : Z := Z.land x (u64 (align - 1)).
Definition P2ALIGN (x align : Z) : Z := Z.land x (u64 (- align)).
Definition P2ROUNDUP (x align : Z) : Z := u64 (- Z.land (u64 (- x)) (u64 (- align))).

Definition BF64_DECODE (x low len : Z) : Z := P2PHASE (Z.shiftr x low) (u64 (Z.shiftl 1 len)).
Definition BF64_ENCODE (x low len : Z) : Z := u64 (Z.shiftl (P2PHASE x (u64 (Z.shiftl 1 len))) low).

Lemma u64_pow2 k : 0 <= k < 64 -> u64 (2 ^ k) = 2 ^ k.
Proof.
  intros. apply Z.mod_small. split; [apply Z.pow_nonneg; lia|]. apply Z.pow_lt_mono_r; lia.
Qed.

Lemma P2PHASE_mod x k : 0 <= k < 64 -> P2PHASE x (2 ^ k) = x mod 2 ^ k.
Proof.
  intros. unfold P2PHASE. rewrite <-land_ones_mod by lia. f_equal.
  pose proof (Z.pow_pos_nonneg 2 k). pose proof (Z.pow_lt_mono_r 2 k 64).
  apply Z.mod_small. lia.
Qed.

Lemma bf64_decode x low len : 0 <= low -> 0 <= len < 64 -> BF64_DECODE x low len = (x / 2 ^ low) mod 2 ^ len.
Proof. intros. unfold BF64_DECODE. rewrite Z.shiftl_1_l, u64_pow2, P2PHASE_mod, Z.shiftr_div_pow2 by lia. done. Qed.

Lemma bf64_encode x low len : 0 <= low -> 0 <= len < 64 -> low + len <= 64 -> BF64_ENCODE x low len = (x mod 2 ^ len) * 2 ^ low.
Proof.
  intros. unfold BF64_ENCODE. rewrite Z.shiftl_1_l, u64_pow2, P2PHASE_mod, Z.shiftl_mul_pow2 by lia.
  apply u64_small. assert (0 < 2 ^ len /\ 0 < 2 ^ low) as [? ?] by (split; apply Z.pow_pos_nonneg; lia).
  pose proof (Z.mod_pos_bound x (2 ^ len)). unfold is_u64. split; [nia|].
  apply (Z.lt_le_trans _ (2 ^ len * 2 ^ low)); [nia|]. rewrite <-Z.pow_add_r by lia. apply Z.pow_le_mono_r; lia.
Qed.

Lemma land_high_mask x k :
  is_u64 x -> 0 <= k < 64 -> Z.land x (2 ^ 64 - 2 ^ k) = x - x mod 2 ^ k.
Proof.
  intros Hx Hk. assert (2 ^ 64 - 2 ^ k = Z.ldiff (Z.ones 64) (Z.ones k)) as ->.
  { apply Z.bits_inj'. intros i Hi. rewrite Z.ldiff_spec.
    replace (2 ^ 64 - 2 ^ k) with ((2 ^ (64 - k) - 1) * 2 ^ k)
      by (rewrite Z.mul_sub_distr_r, <-Z.pow_add_r by lia; replace (64 - k + k) with 64 by lia; lia).
    rewrite <-Z.shiftl_mul_pow2 by lia. replace (2 ^ (64 - k) - 1) with (Z.ones (64 - k))
      by (rewrite Z.ones_equiv; lia).
    rewrite Z.shiftl_spec by lia.
    rewrite (Z.testbit_ones_nonneg 64), (Z.testbit_ones_nonneg k) by lia.
    destruct (Z.lt_ge_cases i k).
    - rewrite Z.testbit_neg_r by lia. rewrite (proj2 (Z.ltb_lt i k)) by lia. by rewrite andb_false_r.
    - rewrite Z.testbit_ones_nonneg by lia. rewrite (proj2 (Z.ltb_ge i k)) by lia.
      rewrite andb_true_r. destruct (Z.ltb_spec (i - k) (64 - k)), (Z.ltb_spec i 64); done || lia. }
  rewrite <-(Z.mod_small x (2 ^ 64)) at 1 by apply Hx. rewrite <-Z.land_ones by lia.
  rewrite <-Z.land_assoc. rewrite (Z.ldiff_land (Z.ones 64)), (Z.land_assoc (Z.ones 64)), Z.land_diag.
  rewrite Z.land_assoc, Z.land_ones by lia. rewrite (Z.mod_small x) by apply Hx.
  rewrite <-Z.ldiff_land, Z.ldiff_ones_r, Z.shiftr_div_pow2, Z.shiftl_mul_pow2 by lia.
  rewrite Z.mod_eq by (apply Z.pow_nonzero; lia). lia.
Qed.

Lemma u64_opp_pow2 k : 0 <= k < 64 -> u64 (- 2 ^ k) = 2 ^ 64 - 2 ^ k.
Proof.
  intros Hk. unfold u64. pose proof (Z.pow_pos_nonneg 2 k). pose proof (Z.pow_lt_mono_r 2 k 64).
  rewrite <-(Z.mod_small (2 ^ 64 - 2 ^ k) (2 ^ 64)) by lia.
  rewrite <-(Z_mod_plus_full (- 2 ^ k) 1). f_equal. lia.
Qed.

Lemma P2ALIGN_mod x k : is_u64 x -> 0 <= k < 64 -> P2ALIGN x (2 ^ k) = x - x mod 2 ^ k.
Proof. intros. unfold P2ALIGN. by rewrite u64_opp_pow2, land_high_mask. Qed.

Lemma P2ROUNDUP_spec x k :
  0 <= k < 64 -> 0 <= x <= 2 ^ 64 - 2 ^ k ->
  P2ROUNDUP x (2 ^ k) = x + (- x) mod 2 ^ k.
Proof.
  intros Hk Hx. unfold P2ROUNDUP. rewrite u64_opp_pow2, land_high_mask by (done || apply u64_range).
  pose proof (Z.pow_pos_nonneg 2 k).
  assert (u64 (- x) mod 2 ^ k = (- x) mod 2 ^ k) as ->.
  { unfold u64. replace (2 ^ 64) with (2 ^ k * 2 ^ (64 - k))
      by (rewrite <-Z.pow_add_r by lia; f_equal; lia).
    rewrite Z.rem_mul_r by (try apply Z.pow_nonzero; try apply Z.pow_pos_nonneg; lia).
    rewrite Z.mul_comm, Z_mod_plus_full. apply Zmod_mod. }
  pose proof (Z.mod_pos_bound (- x) (2 ^ k)).
  unfold u64. rewrite Z.opp_sub_distr.
  replace (- ((- x) mod 2 ^ 64)) with (x + (- x / 2 ^ 64) * 2 ^ 64)
    by (rewrite Z.mod_eq by done; lia).
  rewrite <-Z.add_assoc, (Z.add_comm (_ * _)), Z.add_assoc, Z_mod_plus_full.
  apply Z.mod_small.
  destruct (Z.eq_dec x (2 ^ 64 - 2 ^ k)) as [->|].
  { replace ((- (2 ^ 64 - 2 ^ k)) mod 2 ^ k) with 0; [lia|]. symmetry. apply Z.mod_divide; [lia|].
    exists (1 - 2 ^ (64 - k)). rewrite Z.mul_sub_distr_r, <-Z.pow_add_r by lia.
    replace (64 - k + k) with 64 by lia. lia. }
  assert (x + (- x) mod 2 ^ k <= 2 ^ 64 - 2 ^ k) as Hle; [|lia].
  (* the round-up of [x] is the least multiple of [2 ^ k] above it *)
  assert (exists q, 2 ^ 64 - 2 ^ k = q * 2 ^ k) as [q Hq].
  { exists (2 ^ (64 - k) - 1). rewrite Z.mul_sub_distr_r, <-Z.pow_add_r by lia.
    replace (64 - k + k) with 64 by lia. lia. }
  rewrite Hq in *. rewrite Z.mod_eq by lia.
  assert (- q <= - x / 2 ^ k); [|nia]. apply Z.div_le_lower_bound; lia.
Qed.

(** ** Memory as bytes

    A buffer is the list of its bytes; a wider load is little-endian, as on
    the i386 and amd64 hosts of the build (isa_defs.h, [_LITTLE_ENDIAN]). *)

Fixpoint le_combine (bs : list Z) : Z :=
  match bs with
  | [] => 0
  | b :: t => b + 2 ^ 8 * le_combine t
  end.

Definition load (n : nat) (buf : list Z) (off : nat) : option Z :=
  if decide (off + n <= length buf)%nat
  then Some (le_combine (take n (drop off buf)))
  else None.

Definition bytes (l : list Z) : Prop := Forall is_u8 l.

Lemma bytes_repeat b n : is_u8 b -> bytes (repeat b n).
Proof. intros Hb. induction n; simpl; by constructor. Qed.

Lemma le_combine_range l : bytes l -> 0 <= le_combine l < 2 ^ (8 * Z.of_nat (length l)).
Proof.
  induction 1 as [|b t Hb _ IH]; simpl; [lia|].
  replace (8 * Z.of_nat (S (length t))) with (8 + 8 * Z.of_nat (length t)) by lia.
  rewrite Z.pow_add_r by lia. unfold is_u8 in Hb. nia.
Qed.

Lemma le_combine_0 l : bytes l -> le_combine l = 0 -> forall x, x ∈ l -> x = 0.
Proof.
  intros Hb. induction Hb as [|b t Hb Ht IH]; cbn [le_combine]; intros E x Hx; [by inversion Hx|].
  apply le_combine_range in Ht. unfold is_u8 in Hb.
  apply elem_of_cons in Hx as [->|Hx]; [lia|]. apply IH; [lia|done].
Qed.

Lemma le_combine_app l1 l2 :
  le_combine (l1 ++ l2) = le_combine l1 + 2 ^ (8 * Z.of_nat (length l1)) * le_combine l2.
Proof.
  induction l1 as [|b t IH]; [simpl; lia|].
  cbn [app le_combine length]. rewrite IH.
  replace (8 * Z.of_nat (S (length t))) with (8 + 8 * Z.of_nat (length t)) by lia.
  rewrite Z.pow_add_r by lia. ring.
Qed.

Lemma load_app n l1 l2 off :
  (off + n <= length l1)%nat -> load n (l1 ++ l2) off = load n l1 off.
Proof.
  intros. unfold load. rewrite length_app, !decide_True by lia.
  rewrite drop_app_le, take_app_le by (rewrite ?length_drop; lia). done.
Qed.

Lemma load_app_r n l1 l2 off :
  load n (l1 ++ l2) (length l1 + off) = load n l2 off.
Proof.
  unfold load. rewrite length_app, drop_app_add.
  repeat case_decide; try done; lia.
Qed.

Lemma load_is_Some n buf off :
  (off + n <= length buf)%nat -> load n buf off = Some (le_combine (take n (drop off buf))).
Proof. intros. unfold load. by rewrite decide_True. Qed.

Lemma load_range n buf off w :
  bytes buf -> load n buf off = Some w -> 0 <= w < 2 ^ (8 * Z.of_nat n).
Proof.
  unfold load. intros Hb. case_decide; [|done]. intros [= <-].
  assert (bytes (take n (drop off buf))) as Hb' by (by apply Forall_take, Forall_drop).
  apply le_combine_range in Hb'.
  rewrite length_take, length_drop in Hb'.
  replace (n `min` (length buf - off))%nat with n in Hb' by lia. done.
Qed.

(** The bytes of a word, least significant first. *)
Fixpoint le_split (n : nat) (w : Z) : list Z :=
  match n with
  | O => []
  | S n => w mod 2 ^ 8 :: le_split n (w / 2 ^ 8)
  end.

Lemma length_le_split n w : length (le_split n w) = n.
Proof. revert w. induction n as [|n IH]; intros w; [done|]. simpl. by rewrite IH. Qed.

Lemma bytes_le_split n w : bytes (le_split n w).
Proof.
  revert w. induction n as [|n IH]; intros w; constructor; [|apply IH].
  unfold is_u8. by apply Z.mod_pos_bound.
Qed.

Lemma le_combine_split n w : 0 <= w < 2 ^ (8 * Z.of_nat n) -> le_combine (le_split n w) = w.
Proof.
  revert w. induction n as [|n IH]; intros w Hw; cbn [le_split le_combine].
  { change (8 * Z.of_nat 0) with 0 in Hw. lia. }
  rewrite IH.
  - rewrite (Z.div_mod w (2 ^ 8)) at 3 by lia. lia.
  - replace (8 * Z.of_nat (S n)) with (8 + 8 * Z.of_nat n) in Hw by lia.
    rewrite Z.pow_add_r in Hw by lia. split; [apply Z.div_pos; lia|].
    apply Z.div_lt_upper_bound; lia.
Qed.

Lemma le_split_combine l : bytes l -> le_split (length l) (le_combine l) = l.
Proof.
  induction 1 as [|b t Hb _ IH]; [done|]. cbn [le_combine length le_split].
  unfold is_u8 in Hb. rewrite Z.mul_comm, Z_mod_plus_full, Z.div_add, Z.div_small, Z.mod_small by lia.
  by rewrite Z.add_0_l, IH.
Qed.

Lemma testbit_cons a x i :
  is_u8 a -> 0 <= i ->
  Z.testbit (a + 2 ^ 8 * x) i = if i <? 8 then Z.testbit a i else Z.testbit x (i - 8).
Proof.
  intros Ha Hi. rewrite Z.add_comm, (Z.mul_comm (2 ^ 8)), <-lor_shiftl_add by (lia || apply Ha).
  rewrite Z.lor_spec, Z.shiftl_spec by done. destruct (Z.ltb_spec i 8).
  - rewrite (Z.testbit_neg_r x) by lia. done.
  - rewrite <-(Z.mod_small a (2 ^ 8)) by apply Ha. rewrite Z.mod_pow2_bits_high by lia.
    apply orb_false_r.
Qed.

(** Bitwise operations act byte by byte. *)
Lemma le_combine_bitwise (op : Z -> Z -> Z) (bop : bool -> bool -> bool) l1 l2 :
  (forall a b i, Z.testbit (op a b) i = bop (Z.testbit a i) (Z.testbit b i)) ->
  op 0 0 = 0 -> (forall a b, is_u8 a -> is_u8 b -> is_u8 (op a b)) ->
  bytes l1 -> bytes l2 -> length l1 = length l2 ->
  op (le_combine l1) (le_combine l2) = le_combine (zip_with op l1 l2).
Proof.
  intros Hop H0 Hu. revert l2. induction l1 as [|a l1 IH]; intros [|b l2] H1 H2 Hl; try done.
  unfold bytes in *. forall_inv. cbn [le_combine zip_with]. rewrite <-IH; [|done..|by injection Hl].
  apply Z.bits_inj'. intros i Hi. rewrite Hop, !testbit_cons by auto.
  destruct (i <? 8); by rewrite Hop.
Qed.

Lemma le_combine_scale k l : le_combine (Z.mul k <$> l) = k * le_combine l.
Proof.
  induction l as [|b t IH]; [simpl; lia|]. rewrite fmap_cons. cbn [le_combine]. rewrite IH. lia.
Qed.

Lemma land_u8 a b : is_u8 a -> is_u8 (Z.land a b).
Proof.
  unfold is_u8. intros Ha. rewrite <-(Z.mod_small a (2 ^ 8)) by done.
  rewrite <-Z.land_ones, <-Z.land_assoc, (Z.land_comm (Z.ones 8)), Z.land_assoc, Z.land_ones by done.
  by apply Z.mod_pos_bound.
Qed.

(** ** Loops *)

(** A loop over a list of indices that may stop. *)
Fixpoint foldM {A B} (f : B -> A -> option B) (b : B) (l : list A) : option B :=
  match l with
  | [] => Some b
  | a :: l => let* b := f b a in foldM f b l
  end.

Lemma foldM_app {A B} (f : B -> A -> option B) b l1 l2 :
  foldM f b (l1 ++ l2) = let* b := foldM f b l1 in foldM f b l2.
Proof.
  revert b. induction l1 as [|a l1 IH]; intros b; [done|].
  cbn [app foldM]. destruct (f b a); [|done]. apply IH.
Qed.

(** ** Filtering *)

Lemma filter_all {A} (P : A -> Prop) `{forall x, Decision (P x)} (l : list A) :
  (forall x, x ∈ l -> P x) -> filter P l = l.
Proof.
  induction l as [|x l IH]; intros Hl; [done|]. rewrite filter_cons_True by (apply Hl; by left).
  f_equal. apply IH. intros y Hy. apply Hl. by right.
Qed.

Lemma filter_none {A} (P : A -> Prop) `{forall x, Decision (P x)} (l : list A) :
  (forall x, x ∈ l -> ~ P x) -> filter P l = [].
Proof.
  induction l as [|x l IH]; intros Hl; [done|]. rewrite filter_cons_False by (apply Hl; by left).
  apply IH. intros y Hy. apply Hl. by right.
Qed.
