(* ===== verification/Fletcher.v ===== *)
(** * Fletcher checksums (src/src/lib/libzpool/fletcher.c)

    The six checksum routines over a byte buffer, the byte-order macros of
    sys/byteorder.h they use, and what the checksums promise: the closed
    form of Fletcher-4, that the incremental entry points continue a
    checksum, that the [_byteswap] entry points agree with the native ones on
    the byte-swapped buffer, and which corruptions are always detected. *)
From Stdlib Require Import ZArith Lia.
From stdpp Require Import base numbers list option.
From S2P Require Import Prelude.

(** ** sys/byteorder.h *)

Definition BSWAP_8 (x : Z) : Z := Z.land x 0xff.
Definition BSWAP_16 (x : Z) : Z := Z.lor (Z.shiftl (BSWAP_8 x) 8) (BSWAP_8 (Z.shiftr x 8)).
Definition BSWAP_32 (x : Z) : Z := Z.lor (Z.shiftl (BSWAP_16 x) 16) (BSWAP_16 (Z.shiftr x 16)).
Definition BSWAP_64 (x : Z) : Z := Z.lor (Z.shiftl (BSWAP_32 x) 32) (BSWAP_32 (Z.shiftr x 32)).

(** ** The checksum routines *)

(** [zio_cksum_t]: [zc_word[0..3]]. *)
Record zio_cksum := mk_cksum { zc_word0 : Z; zc_word1 : Z; zc_word2 : Z; zc_word3 : Z }.

(** The loop shared by [fletcher_2_native] and [fletcher_2_byteswap]; [sw] is
    applied to each loaded word, [ip] is an index in 8-byte words and [rem]
    is [ipend - ip].  With an odd [rem] the last round reads [ip[1]] past
    [ipend]. *)
Fixpoint fletcher_2_loop (sw : Z -> Z) (buf : list Z) (ip rem : nat)
    (a0 a1 b0 b1 : Z) : option zio_cksum :=
  match rem with
  | O => Some (mk_cksum a0 a1 b0 b1)
  | S rem1 =>
      let* w0 := load 8 buf (8 * ip) in
      let* w1 := load 8 buf (8 * (ip + 1)) in
      let a0 := u64 (a0 + sw w0) in
      let a1 := u64 (a1 + sw w1) in
      let b0 := u64 (b0 + a0) in
      let b1 := u64 (b1 + a1) in
      match rem1 with
      | O => Some (mk_cksum a0 a1 b0 b1)
      | S rem2 => fletcher_2_loop sw buf (ip + 2) rem2 a0 a1 b0 b1
      end
  end.

Definition fletcher_2_native (buf : list Z) (size : nat) : option zio_cksum :=
  fletcher_2_loop (fun w => w) buf 0 (size / 8) 0 0 0 0.

Definition fletcher_2_byteswap (buf : list Z) (size : nat) : option zio_cksum :=
  fletcher_2_loop BSWAP_64 buf 0 (size / 8) 0 0 0 0.

(** The loop shared by the four Fletcher-4 routines. *)
Fixpoint fletcher_4_loop (sw : Z -> Z) (buf : list Z) (ip rem : nat)
    (a b c d : Z) : option zio_cksum :=
  match rem with
  | O => Some (mk_cksum a b c d)
  | S rem =>
      let* w := load 4 buf (4 * ip) in
      let a := u64 (a + sw w) in
      let b := u64 (b + a) in
      let c := u64 (c + b) in
      let d := u64 (d + c) in
      fletcher_4_loop sw buf (ip + 1) rem a b c d
  end.

Definition fletcher_4_native (buf : list Z) (size : nat) : option zio_cksum :=
  fletcher_4_loop (fun w => w) buf 0 (size / 4) 0 0 0 0.

Definition fletcher_4_byteswap (buf : list Z) (size : nat) : option zio_cksum :=
  fletcher_4_loop BSWAP_32 buf 0 (size / 4) 0 0 0 0.

Definition fletcher_4_incremental_native (buf : list Z) (size : nat)
    (zcp : zio_cksum) : option zio_cksum :=
  fletcher_4_loop (fun w => w) buf 0 (size / 4)
    (zc_word0 zcp) (zc_word1 zcp) (zc_word2 zcp) (zc_word3 zcp).

Definition fletcher_4_incremental_byteswap (buf : list Z) (size : nat)
    (zcp : zio_cksum) : option zio_cksum :=
  fletcher_4_loop BSWAP_32 buf 0 (size / 4)
    (zc_word0 zcp) (zc_word1 zcp) (zc_word2 zcp) (zc_word3 zcp).

(** ** Words of a buffer *)

(** The [rem] [w]-byte words of a buffer from word [ip] on. *)
Definition words (w : nat) (buf : list Z) (ip rem : nat) : list Z :=
  (fun i => le_combine (take w (drop (w * i) buf))) <$> seq ip rem.

(** The buffer with the bytes of each of its first [n] [w]-byte groups
    reversed: what the same words look like to a host of the other byte
    order. *)
Fixpoint swap_groups (w n : nat) (buf : list Z) : list Z :=
  match n with
  | O => buf
  | S n => reverse (take w buf) ++ swap_groups w n (drop w buf)
  end.

(** ** The closed form of Fletcher-4

    [wsum f [w_0 .. w_{n-1}]] is the sum of [f (n - i) * w_i]. *)
Fixpoint wsum (f : Z -> Z) (ws : list Z) : Z :=
  match ws with
  | [] => 0
  | w :: t => f (Z.of_nat (length ws)) * w + wsum f t
  end.

Definition tri (k : Z) : Z := k * (k + 1) / 2.
Definition tet (k : Z) : Z := k * (k + 1) * (k + 2) / 6.

(** The checksum of a word list by its weighted sums. *)
Definition fletcher_4_closed (ws : list Z) : zio_cksum :=
  mk_cksum (u64 (wsum (fun _ => 1) ws)) (u64 (wsum (fun k => k) ws))
           (u64 (wsum tri ws)) (u64 (wsum tet ws)).

(** The loop on word lists, with unbounded accumulators. *)
Fixpoint f4 (ws : list Z) (a b c d : Z) : zio_cksum :=
  match ws with
  | [] => mk_cksum a b c d
  | w :: t => f4 t (a + w) (b + (a + w)) (c + (b + (a + w))) (d + (c + (b + (a + w))))
  end.

Fixpoint f2 (ws : list Z) (a0 a1 b0 b1 : Z) : zio_cksum :=
  match ws with
  | w0 :: w1 :: t => f2 t (a0 + w0) (a1 + w1) (b0 + (a0 + w0)) (b1 + (a1 + w1))
  | _ => mk_cksum a0 a1 b0 b1
  end.

Definition ck64 (z : zio_cksum) : zio_cksum :=
  mk_cksum (u64 (zc_word0 z)) (u64 (zc_word1 z)) (u64 (zc_word2 z)) (u64 (zc_word3 z)).

Lemma words_cons w buf ip rem :
  words w buf ip (S rem) = le_combine (take w (drop (w * ip) buf)) :: words w buf (ip + 1) rem.
Proof. unfold words. cbn [seq]. rewrite Nat.add_1_r. done. Qed.

Lemma fletcher_4_loop_f4 sw buf rem : forall ip a b c d,
  (4 * (ip + rem) <= length buf)%nat ->
  fletcher_4_loop sw buf ip rem (u64 a) (u64 b) (u64 c) (u64 d) =
  Some (ck64 (f4 (sw <$> words 4 buf ip rem) a b c d)).
Proof.
  induction rem as [|rem IH]; intros ip a b c d Hlen; [done|].
  rewrite words_cons. cbn [fletcher_4_loop fmap list_fmap f4].
  rewrite load_is_Some by lia. cbn [mbind option_bind].
  rewrite !u64_add_l, (u64_add_r b), (u64_add_r c), (u64_add_r d). apply IH. lia.
Qed.

Lemma fletcher_2_loop_f2 sw buf n : forall ip a0 a1 b0 b1,
  (8 * (ip + (n + n)) <= length buf)%nat ->
  fletcher_2_loop sw buf ip (n + n) (u64 a0) (u64 a1) (u64 b0) (u64 b1) =
  Some (ck64 (f2 (sw <$> words 8 buf ip (n + n)) a0 a1 b0 b1)).
Proof.
  induction n as [|n IH]; intros ip a0 a1 b0 b1 Hlen; [done|].
  rewrite Nat.add_succ_r. cbn [Nat.add]. rewrite !words_cons.
  cbn [fletcher_2_loop fmap list_fmap f2].
  rewrite !load_is_Some by lia. cbn [mbind option_bind].
  rewrite !u64_add_l, !u64_add_r.
  replace (ip + 1 + 1)%nat with (ip + 2)%nat by lia. apply IH. lia.
Qed.

Lemma tri_succ k : 0 <= k -> tri (k + 1) = tri k + (k + 1).
Proof.
  intros. unfold tri. replace ((k + 1) * (k + 1 + 1)) with (k * (k + 1) + (k + 1) * 2) by ring.
  by rewrite Z.div_add by lia.
Qed.

Lemma tri_even k : exists q, k * (k + 1) = 2 * q.
Proof. destruct (Zeven_odd_dec k) as [H|H]; [apply Zeven_ex in H|apply Zodd_ex in H]; destruct H as [m ->]; eexists; [instantiate (1 := m * (2 * m + 1))|instantiate (1 := (2 * m + 1) * (m + 1))]; ring. Qed.

Lemma tet_succ k : 0 <= k -> tet (k + 1) = tet k + tri (k + 1).
Proof.
  intros. unfold tet, tri. destruct (tri_even (k + 1)) as [q Hq].
  replace ((k + 1) * (k + 1 + 1) * (k + 1 + 2)) with
    (k * (k + 1) * (k + 2) + (3 * ((k + 1) * (k + 1 + 1)))) by ring.
  rewrite Hq. replace (3 * (2 * q)) with (q * 6) by ring.
  rewrite Z.div_add by lia. rewrite (Z.mul_comm 2 q), Z.div_mul by lia. done.
Qed.

Lemma f4_closed ws : forall a b c d,
  let n := Z.of_nat (length ws) in
  f4 ws a b c d =
  mk_cksum (a + wsum (fun _ => 1) ws)
           (b + n * a + wsum (fun k => k) ws)
           (c + n * b + tri n * a + wsum tri ws)
           (d + n * c + tri n * b + tet n * a + wsum tet ws).
Proof.
  induction ws as [|w t IH]; intros a b c d n; cbn [f4 wsum length] in *.
  { subst n. cbn [length]. change (Z.of_nat 0) with 0.
    change (tri 0) with 0. change (tet 0) with 0. f_equal; ring. }
  rewrite IH. subst n. cbn [length].
  replace (Z.of_nat (S (length t))) with (Z.of_nat (length t) + 1) by lia.
  rewrite tet_succ, tri_succ by lia. f_equal; ring.
Qed.

Lemma u64_0 : 0 = u64 0.
Proof. done. Qed.

Lemma fletcher_4_native_words buf n :
  (4 * n <= length buf)%nat ->
  fletcher_4_native buf (4 * n) = Some (fletcher_4_closed (words 4 buf 0 n)).
Proof.
  intros. unfold fletcher_4_native.
  rewrite Nat.mul_comm, Nat.div_mul by lia.
  rewrite u64_0, fletcher_4_loop_f4 by lia.
  rewrite list_fmap_id, f4_closed. unfold ck64, fletcher_4_closed. simpl.
  repeat f_equal; lia.
Qed.

(** ** Byte order *)

Lemma BSWAP_16_spec x : BSWAP_16 x = (x mod 2 ^ 8) * 2 ^ 8 + (x / 2 ^ 8) mod 2 ^ 8.
Proof.
  unfold BSWAP_16, BSWAP_8. change 0xff with (2 ^ 8 - 1).
  rewrite !land_ones_mod, Z.shiftr_div_pow2, lor_shiftl_add by (try done; by apply Z.mod_pos_bound).
  done.
Qed.

Lemma BSWAP_16_range x : 0 <= BSWAP_16 x < 2 ^ 16.
Proof. rewrite BSWAP_16_spec. Z.div_mod_to_equations; lia. Qed.

Lemma BSWAP_32_spec x : BSWAP_32 x = BSWAP_16 x * 2 ^ 16 + BSWAP_16 (x / 2 ^ 16).
Proof.
  unfold BSWAP_32. rewrite Z.shiftr_div_pow2, lor_shiftl_add by (try done; apply BSWAP_16_range).
  done.
Qed.

Lemma BSWAP_32_range x : 0 <= BSWAP_32 x < 2 ^ 32.
Proof.
  rewrite BSWAP_32_spec.
  pose proof (BSWAP_16_range x). pose proof (BSWAP_16_range (x / 2 ^ 16)). lia.
Qed.

Lemma BSWAP_64_spec x : BSWAP_64 x = BSWAP_32 x * 2 ^ 32 + BSWAP_32 (x / 2 ^ 32).
Proof.
  unfold BSWAP_64. rewrite Z.shiftr_div_pow2, lor_shiftl_add by (try done; apply BSWAP_32_range).
  done.
Qed.

(** [BSWAP_16] of the two low bytes of a word; the rest is cut off. *)
Lemma BSWAP_16_bytes a b r :
  is_u8 a -> is_u8 b -> BSWAP_16 (a + 2 ^ 8 * (b + 2 ^ 8 * r)) = b + 2 ^ 8 * a.
Proof. intros. rewrite BSWAP_16_spec. uint. Qed.

Lemma BSWAP_32_bytes a b c d r :
  is_u8 a -> is_u8 b -> is_u8 c -> is_u8 d ->
  BSWAP_32 (a + 2 ^ 8 * (b + 2 ^ 8 * (c + 2 ^ 8 * (d + 2 ^ 8 * r)))) =
  d + 2 ^ 8 * (c + 2 ^ 8 * (b + 2 ^ 8 * a)).
Proof.
  intros. rewrite BSWAP_32_spec, BSWAP_16_bytes by done.
  replace (_ / 2 ^ 16) with (c + 2 ^ 8 * (d + 2 ^ 8 * r)) by uint.
  rewrite BSWAP_16_bytes by done. lia.
Qed.

(** [BSWAP_32] and [BSWAP_64] reverse the bytes of the word they are given. *)
Lemma BSWAP_32_reverse l :
  bytes l -> length l = 4%nat -> BSWAP_32 (le_combine l) = le_combine (reverse l).
Proof.
  intros Hb Hl. destruct l as [|a [|b [|c [|d [|]]]]]; try discriminate.
  unfold bytes in Hb. forall_inv.
  cbn [le_combine reverse rev_append]. rewrite BSWAP_32_bytes by done. lia.
Qed.

Lemma BSWAP_64_reverse l :
  bytes l -> length l = 8%nat -> BSWAP_64 (le_combine l) = le_combine (reverse l).
Proof.
  intros Hb Hl.
  destruct l as [|a [|b [|c [|d [|e [|f [|g [|h [|]]]]]]]]]; try discriminate.
  unfold bytes in Hb. forall_inv.
  cbn [le_combine reverse rev_append]. rewrite BSWAP_64_spec, BSWAP_32_bytes by done.
  replace (_ / 2 ^ 32) with (e + 2 ^ 8 * (f + 2 ^ 8 * (g + 2 ^ 8 * (h + 2 ^ 8 * 0)))) by uint.
  rewrite BSWAP_32_bytes by done. lia.
Qed.

(** Reversing each group of a buffer reverses each of its words. *)
Lemma words_shift w buf ip rem : words w (drop w buf) ip rem = words w buf (ip + 1) rem.
Proof.
  unfold words. revert ip. induction rem as [|rem IH]; intros ip; [done|].
  cbn [seq fmap list_fmap]. rewrite drop_drop. f_equal; [do 3 f_equal; lia|].
  replace (S (ip + 1)) with (S ip + 1)%nat by lia. apply IH.
Qed.

Lemma words_app_l w l buf rem :
  length l = w -> words w (l ++ buf) 0 (S rem) = le_combine l :: words w buf 0 rem.
Proof.
  intros Hl. rewrite words_cons, Nat.mul_0_r, drop_0, take_app_length' by done.
  f_equal. rewrite <-words_shift. by rewrite drop_app_length'.
Qed.

Lemma swap_groups_words sw w n : forall buf,
  (forall l, bytes l -> length l = w -> sw (le_combine l) = le_combine (reverse l)) ->
  bytes buf -> (w * n <= length buf)%nat ->
  words w (swap_groups w n buf) 0 n = sw <$> words w buf 0 n.
Proof.
  induction n as [|n IH]; intros buf Hsw Hb Hl; [done|].
  cbn [swap_groups]. rewrite words_app_l by (rewrite length_reverse, length_take; lia).
  rewrite words_cons, Nat.mul_0_r, drop_0, fmap_cons, <-words_shift.
  rewrite IH; [|done|by apply Forall_drop|rewrite length_drop; lia].
  rewrite Hsw; [done|by apply Forall_take|rewrite length_take; lia].
Qed.

Lemma length_swap_groups w n : forall buf,
  length (swap_groups w n buf) = length buf.
Proof.
  induction n as [|n IH]; intros buf; [done|].
  cbn [swap_groups]. rewrite length_app, length_reverse, length_take, IH, length_drop. lia.
Qed.

(** ** What the checksums promise *)

(** C40: [fletcher_4_native] on a buffer of [n] 32-bit words [w_0 .. w_{n-1}]
    returns, modulo 2^64, the sums of the words weighted by 1, by [n - i], by
    the triangular and by the tetrahedral number of [n - i]; it reads nothing
    outside the buffer. *)
Theorem fletcher_4_native_closed_form (buf : list Z) (n : nat)
    (Hlen : length buf = (4 * n)%nat) :
  fletcher_4_native buf (length buf) = Some (fletcher_4_closed (words 4 buf 0 n)).
Proof. rewrite Hlen. apply fletcher_4_native_words. lia. Qed.

Lemma fletcher_4_native_closed_form_witness :
  fletcher_4_native [1; 0; 0; 0; 2; 0; 0; 1] 8 =
  Some (mk_cksum 16777219 16777220 16777221 16777222).
Proof.
  exact (fletcher_4_native_closed_form [1; 0; 0; 0; 2; 0; 0; 1] 2 eq_refl).
Defined.

Lemma fletcher_4_loop_app sw l1 l2 m : forall n ip a b c d,
  length l1 = (4 * (ip + n))%nat ->
  fletcher_4_loop sw (l1 ++ l2) ip (n + m) a b c d =
  let* z := fletcher_4_loop sw l1 ip n a b c d in
  fletcher_4_loop sw l2 0 m (zc_word0 z) (zc_word1 z) (zc_word2 z) (zc_word3 z).
Proof.
  induction n as [|n IH]; intros ip a b c d Hl.
  - cbn [Nat.add fletcher_4_loop mbind option_bind zc_word0 zc_word1 zc_word2 zc_word3].
    revert ip a b c d Hl. assert (forall k ip a b c d, length l1 = (4 * ip)%nat ->
      fletcher_4_loop sw (l1 ++ l2) (ip + k) m a b c d = fletcher_4_loop sw l2 k m a b c d) as G.
    { induction m as [|m' IHm]; intros k ip a b c d Hl; [done|]. cbn [fletcher_4_loop].
      replace (4 * (ip + k))%nat with (length l1 + 4 * k)%nat by lia. rewrite load_app_r.
      destruct (load 4 l2 (4 * k)); [|done]. cbn [mbind option_bind].
      rewrite <-Nat.add_assoc. by apply IHm. }
    intros ip a b c d Hl. rewrite <-(G 0%nat ip) by lia. f_equal. lia.
  - cbn [Nat.add fletcher_4_loop]. rewrite load_app by lia.
    destruct (load 4 l1 (4 * ip)); [|done]. cbn [mbind option_bind].
    apply IH. lia.
Qed.

(** The incremental entry points continue a checksum: checksumming a
    buffer piecewise gives the checksum of the whole, for both byte orders. *)
Theorem fletcher_4_incremental_continues (l1 l2 : list Z) (n m : nat)
    (H1 : length l1 = (4 * n)%nat) (H2 : length l2 = (4 * m)%nat) :
  fletcher_4_native (l1 ++ l2) (length (l1 ++ l2)) =
    (let* z := fletcher_4_native l1 (length l1) in
     fletcher_4_incremental_native l2 (length l2) z) /\
  fletcher_4_byteswap (l1 ++ l2) (length (l1 ++ l2)) =
    (let* z := fletcher_4_byteswap l1 (length l1) in
     fletcher_4_incremental_byteswap l2 (length l2) z).
Proof.
  unfold fletcher_4_native, fletcher_4_byteswap.
  unfold fletcher_4_incremental_native, fletcher_4_incremental_byteswap.
  rewrite length_app, H1, H2, <-Nat.mul_add_distr_l.
  rewrite !(Nat.mul_comm 4), !Nat.div_mul by lia.
  split; apply fletcher_4_loop_app; lia.
Qed.

Lemma fletcher_4_incremental_continues_witness :
  fletcher_4_native [1; 0; 0; 0; 2; 0; 0; 1] 8 =
  fletcher_4_incremental_native [2; 0; 0; 1] 4 (mk_cksum 1 1 1 1).
Proof.
  exact (proj1 (fletcher_4_incremental_continues [1; 0; 0; 0] [2; 0; 0; 1] 1 1 eq_refl eq_refl)).
Defined.

(** The [_byteswap] entry points compute on a buffer what the native ones
    compute on the buffer with the bytes of every word reversed, so a block
    written by a host of the other byte order verifies. *)
Theorem fletcher_byteswap_native (buf : list Z) (n : nat)
    (Hb : bytes buf) (Hlen : length buf = (16 * n)%nat) :
  fletcher_4_byteswap buf (length buf) =
    fletcher_4_native (swap_groups 4 (4 * n) buf) (length buf) /\
  fletcher_2_byteswap buf (length buf) =
    fletcher_2_native (swap_groups 8 (2 * n) buf) (length buf).
Proof.
  unfold fletcher_4_byteswap, fletcher_4_native, fletcher_2_byteswap, fletcher_2_native.
  replace (length buf / 4)%nat with (4 * n)%nat by (apply Nat.div_unique with 0%nat; lia).
  replace (length buf / 8)%nat with (n + n)%nat by (apply Nat.div_unique with 0%nat; lia).
  rewrite u64_0. split.
  - rewrite !fletcher_4_loop_f4 by (rewrite ?length_swap_groups; lia).
    rewrite list_fmap_id, (swap_groups_words BSWAP_32); [done|apply BSWAP_32_reverse|done|lia].
  - replace (2 * n)%nat with (n + n)%nat by lia.
    rewrite !fletcher_2_loop_f2 by (rewrite ?length_swap_groups; lia).
    rewrite list_fmap_id, (swap_groups_words BSWAP_64); [done|apply BSWAP_64_reverse|done|lia].
Qed.

Lemma fletcher_byteswap_native_witness :
  fletcher_2_byteswap [1; 2; 3; 4; 5; 6; 7; 8; 9; 10; 11; 12; 13; 14; 15; 16] 16 =
  fletcher_2_native [8; 7; 6; 5; 4; 3; 2; 1; 16; 15; 14; 13; 12; 11; 10; 9] 16.
Proof.
  refine (proj2 (fletcher_byteswap_native
    [1; 2; 3; 4; 5; 6; 7; 8; 9; 10; 11; 12; 13; 14; 15; 16] 1 _ eq_refl)).
  repeat constructor; easy.
Defined.

Lemma wsum_app f (l1 l2 : list Z) :
  exists c, forall l2', length l2' = length l2 ->
    wsum f (l1 ++ l2') = c + wsum f l2'.
Proof.
  induction l1 as [|w t [c IH]]; [by exists 0|].
  exists (f (Z.of_nat (length (w :: t ++ l2))) * w + c). intros l2' Hl.
  cbn [wsum app]. rewrite IH by done. cbn [length]. rewrite !length_app, Hl. lia.
Qed.

Lemma words_length w buf ip rem : length (words w buf ip rem) = rem.
Proof. unfold words. by rewrite length_fmap, length_seq. Qed.

(** Words of a buffer of bytes are in range, so two different ones differ
    modulo 2^64. *)
Lemma words_range buf ip rem :
  bytes buf -> Forall is_u32 (words 4 buf ip rem).
Proof.
  intros Hb. apply Forall_fmap, Forall_forall. intros i _. unfold compose.
  assert (bytes (take 4 (drop (4 * i) buf))) as Hb' by (by apply Forall_take, Forall_drop).
  apply le_combine_range in Hb'. rewrite length_take in Hb'.
  pose proof (Z.pow_le_mono_r 2 (8 * Z.of_nat (4 `min` length (drop (4 * i) buf))) 32).
  unfold is_u32. lia.
Qed.

(** Fletcher-4 detects every change confined to one 32-bit word and every
    exchange of two different neighbouring words. *)
Theorem fletcher_4_detects (buf buf' : list Z) (n : nat) (l r : list Z) (x y : Z)
    (Hb : bytes buf) (Hb' : bytes buf')
    (Hlen : length buf = (4 * n)%nat) (Hlen' : length buf' = (4 * n)%nat)
    (Hxy : x <> y)
    (Hdiff : (words 4 buf 0 n = l ++ x :: r /\ words 4 buf' 0 n = l ++ y :: r) \/
             (words 4 buf 0 n = l ++ x :: y :: r /\ words 4 buf' 0 n = l ++ y :: x :: r)) :
  fletcher_4_native buf (length buf) <> fletcher_4_native buf' (length buf').
Proof.
  rewrite Hlen, Hlen', !fletcher_4_native_words by lia.
  pose proof (words_range buf 0 n Hb) as Hr. pose proof (words_range buf' 0 n Hb') as Hr'.
  destruct Hdiff as [[E E']|[E E']]; rewrite E, E' in *.
  all: apply Forall_app in Hr as [_ Hr]; apply Forall_app in Hr' as [_ Hr']; forall_inv.
  all: intros [= Ha Hs _ _].
  - destruct (wsum_app (fun _ => 1) l (x :: r)) as [c Hc].
    rewrite !Hc in Ha by done. cbn [wsum] in Ha. uint.
  - destruct (wsum_app (fun k => k) l (x :: y :: r)) as [c Hc].
    rewrite !Hc in Hs by done. cbn [wsum length] in Hs.
    replace (Z.of_nat (S (S (length r)))) with (Z.of_nat (S (length r)) + 1) in Hs by lia.
    set (k := Z.of_nat (S (length r))) in Hs. set (t := wsum _ r) in Hs.
    replace (c + ((k + 1) * x + (k * y + t))) with ((c + k * x + k * y + t) + x) in Hs by ring.
    replace (c + ((k + 1) * y + (k * x + t))) with ((c + k * x + k * y + t) + y) in Hs by ring.
    generalize dependent (c + k * x + k * y + t). intros. uint.
Qed.

Lemma fletcher_4_detects_witness :
  fletcher_4_native [1; 0; 0; 0; 2; 0; 0; 0] 8 <> fletcher_4_native [2; 0; 0; 0; 1; 0; 0; 0] 8.
Proof.
  refine (fletcher_4_detects [1; 0; 0; 0; 2; 0; 0; 0] [2; 0; 0; 0; 1; 0; 0; 0] 2 [] [] 1 2
    _ _ eq_refl eq_refl _ (or_intror (conj eq_refl eq_refl))).
  all: first [repeat constructor; easy | discriminate].
Defined.
