(* ===== verification/Lzjb.v ===== *)
(** * LZJB compression (src/src/lib/libzpool/lzjb.c)

    [lzjb_compress] and [lzjb_decompress] over byte buffers.  The source
    buffer is the list of its bytes and the address [s_start] it lives at (the
    Lempel table keeps the low 16 bits of source addresses); the destination
    is the list of the bytes written so far, and a write at or past [d_len]
    is [None].  The Lempel table is uninitialised in the C code, so the
    theorems hold for every initial table.  [int mlen = s_len] is taken without
    truncation: blocks are at most 128K (SPA_MAXBLOCKSIZE). *)
From Stdlib Require Import ZArith Lia.
From stdpp Require Import base numbers list option.
From S2P Require Import Prelude.

Definition NBBY : Z := 8.
Definition MATCH_BITS : Z := 6.
Definition MATCH_MIN : Z := 3.
Definition MATCH_MAX : Z := Z.shiftl 1 MATCH_BITS + (MATCH_MIN - 1).
Definition OFFSET_MASK : Z := Z.shiftl 1 (16 - MATCH_BITS) - 1.
Definition LEMPEL_SIZE : Z := 256.

(** ** lzjb_compress *)

(** The locals of [lzjb_compress]: [src] as an index into the source, the
    bytes written at [d_start], [copymap] as an index into them. *)
Record cstate := mk_cstate {
  c_src : nat;
  c_dst : list Z;
  c_copymap : nat;
  c_copymask : Z;
  c_lempel : list Z
}.

(** [*dst++ = v], inside a destination of [d_len] bytes. *)
Definition put (d_len : Z) (dst : list Z) (v : Z) : option (list Z) :=
  if Z.of_nat (length dst) <? d_len then Some (dst ++ [u8 v]) else None.

(** [for (mlen = MATCH_MIN; mlen < MATCH_MAX; mlen++) if (src[mlen] !=
    cpy[mlen]) break;] with [fuel = MATCH_MAX - mlen]. *)
Fixpoint match_len (s : list Z) (src cpy : nat) (mlen : nat) (fuel : nat) : option nat :=
  match fuel with
  | O => Some mlen
  | S fuel =>
      let* a := s !! (src + mlen)%nat in
      let* b := s !! (cpy + mlen)%nat in
      if a =? b then match_len s src cpy (S mlen) fuel else Some mlen
  end.

(** [((src[0] + 13) ^ (src[1] - 13) ^ src[2]) & (LEMPEL_SIZE - 1)] *)
Definition lempel_hash (b0 b1 b2 : Z) : nat :=
  Z.to_nat (Z.land (Z.lxor (Z.lxor (b0 + 13) (b1 - 13)) b2) (LEMPEL_SIZE - 1)).

(** The loop body from the end of the copymask block on (lines 78 to 99). *)
Definition compress_item (s_start : Z) (s : list Z) (d_len : Z) (st : cstate) : option cstate :=
  let src := c_src st in
  let literal lempel :=
    let* b := s !! src in
    let* dst := put d_len (c_dst st) b in
    Some (mk_cstate (S src) dst (c_copymap st) (c_copymask st) lempel) in
  if Z.of_nat src >? Z.of_nat (length s) - MATCH_MAX then literal (c_lempel st)
  else
    let* s0 := s !! src in
    let* s1 := s !! (src + 1)%nat in
    let* s2 := s !! (src + 2)%nat in
    let h := lempel_hash s0 s1 s2 in
    let* hp := c_lempel st !! h in
    let addr := s_start + Z.of_nat src in
    let offset := Z.land (addr - hp) OFFSET_MASK in
    let lempel := <[h := u16 addr]> (c_lempel st) in
    let cpy := Z.of_nat src - offset in
    if (cpy >=? 0) && negb (cpy =? Z.of_nat src) then
      let cpy := Z.to_nat cpy in
      let* c0 := s !! cpy in
      let* c1 := s !! (cpy + 1)%nat in
      let* c2 := s !! (cpy + 2)%nat in
      if (s0 =? c0) && (s1 =? c1) && (s2 =? c2) then
        let* cm := c_dst st !! c_copymap st in
        let dst := <[c_copymap st := u8 (Z.lor cm (c_copymask st))]> (c_dst st) in
        let* mlen := match_len s src cpy (Z.to_nat MATCH_MIN) (Z.to_nat (MATCH_MAX - MATCH_MIN)) in
        let* dst := put d_len dst
          (Z.lor (Z.shiftl (Z.of_nat mlen - MATCH_MIN) (NBBY - MATCH_BITS)) (Z.shiftr offset NBBY)) in
        let* dst := put d_len dst offset in
        Some (mk_cstate (src + mlen) dst (c_copymap st) (c_copymask st) lempel)
      else literal lempel
    else literal lempel.

(** How [lzjb_compress] ends: the value it returns and the destination. *)
Abbreviation cresult := (Z * list Z)%type.

(** The [while] loop.  The source index grows in every
    round, so [length s] rounds of fuel are enough. *)
Fixpoint compress_loop (fuel : nat) (s_start : Z) (s : list Z) (d_len : Z)
    (st : cstate) : option cresult :=
  if Z.of_nat (c_src st) <? Z.of_nat (length s) then
    match fuel with
    | O => None
    | S fuel =>
        let copymask := Z.shiftl (c_copymask st) 1 in
        if copymask =? Z.shiftl 1 NBBY then
          if Z.of_nat (length (c_dst st)) >=? d_len - 1 - 2 * NBBY then
            if negb (d_len =? Z.of_nat (length s)) then Some (Z.of_nat (length s), c_dst st)
            else Some (Z.of_nat (length s), s)
          else
            let* dst := put d_len (c_dst st) 0 in
            let* st := compress_item s_start s d_len
              (mk_cstate (c_src st) dst (length (c_dst st)) 1 (c_lempel st)) in
            compress_loop fuel s_start s d_len st
        else
          let* st := compress_item s_start s d_len
            (mk_cstate (c_src st) (c_dst st) (c_copymap st) copymask (c_lempel st)) in
          compress_loop fuel s_start s d_len st
    end
  else Some (Z.of_nat (length (c_dst st)), c_dst st).

Definition lzjb_compress (lempel : list Z) (s_start : Z) (s : list Z) (d_len : Z) : option cresult :=
  compress_loop (length s) s_start s d_len
    (mk_cstate 0 [] 0 (Z.shiftl 1 (NBBY - 1)) lempel).

(** ** lzjb_decompress *)

Record dstate := mk_dstate {
  d_src : nat;
  d_dst : list Z;
  d_copymap : Z;
  d_copymask : Z
}.

(** [while (--mlen >= 0 && dst < d_end) *dst++ = *cpy++;] *)
Fixpoint copy_match (mlen : nat) (d_len : nat) (cpy : nat) (dst : list Z) : option (list Z) :=
  match mlen with
  | O => Some dst
  | S mlen =>
      if Z.of_nat (length dst) <? Z.of_nat d_len then
        let* b := dst !! cpy in
        copy_match mlen d_len (S cpy) (dst ++ [b])
      else Some dst
  end.

(** The loop body from the copymap test on; [inl] is [return (-1)]. *)
Definition decompress_item (c : list Z) (d_len : nat) (st : dstate) : option (list Z + dstate) :=
  let src := d_src st in
  if negb (Z.land (d_copymap st) (d_copymask st) =? 0) then
    let* s0 := c !! src in
    let* s1 := c !! (src + 1)%nat in
    let mlen := Z.shiftr s0 (NBBY - MATCH_BITS) + MATCH_MIN in
    let offset := Z.land (Z.lor (Z.shiftl s0 NBBY) s1) OFFSET_MASK in
    let cpy := Z.of_nat (length (d_dst st)) - offset in
    if cpy <? 0 then Some (inl (d_dst st))
    else
      let* dst := copy_match (Z.to_nat mlen) d_len (Z.to_nat cpy) (d_dst st) in
      Some (inr (mk_dstate (src + 2) dst (d_copymap st) (d_copymask st)))
  else
    let* b := c !! src in
    Some (inr (mk_dstate (S src) (d_dst st ++ [b]) (d_copymap st) (d_copymask st))).

(** The [while] loop.  Every round writes at least one byte ([mlen] is at least
    [MATCH_MIN]), so [d_len] rounds of fuel are enough. *)
Fixpoint decompress_loop (fuel : nat) (c : list Z) (d_len : nat) (st : dstate) : option cresult :=
  if Z.of_nat (length (d_dst st)) <? Z.of_nat d_len then
    match fuel with
    | O => None
    | S fuel =>
        let copymask := Z.shiftl (d_copymask st) 1 in
        let* st :=
          if copymask =? Z.shiftl 1 NBBY then
            let* m := c !! d_src st in
            Some (mk_dstate (S (d_src st)) (d_dst st) m 1)
          else Some (mk_dstate (d_src st) (d_dst st) (d_copymap st) copymask) in
        let* r := decompress_item c d_len st in
        match r with
        | inl dst => Some (-1, dst)
        | inr st => decompress_loop fuel c d_len st
        end
    end
  else Some (0, d_dst st).

Definition lzjb_decompress (c : list Z) (d_len : nat) : option cresult :=
  decompress_loop d_len c d_len (mk_dstate 0 [] 0 (Z.shiftl 1 (NBBY - 1))).

(** ** The compressed format

    A compressed block is a sequence of groups of at most eight tokens, each
    group preceded by a byte whose bit [k] tells whether token [k] is a
    reference into the output. *)

Inductive token :=
  | Lit (b : Z)
  | Ref (mlen off : nat).

Definition is_ref (t : token) : bool := match t with Lit _ => false | Ref _ _ => true end.

Definition token_ok (t : token) : Prop :=
  match t with
  | Lit b => is_u8 b
  | Ref mlen off => (3 <= mlen <= 66)%nat /\ (1 <= off <= 1023)%nat
  end.

Definition enc_token (t : token) : list Z :=
  match t with
  | Lit b => [b]
  | Ref mlen off => [(Z.of_nat mlen - 3) * 4 + Z.of_nat off / 256; Z.of_nat off mod 256]
  end.

Fixpoint flags (ts : list token) : Z :=
  match ts with
  | [] => 0
  | t :: ts => Z.b2z (is_ref t) + 2 * flags ts
  end.

Definition enc_group (g : list token) : list Z := flags g :: concat (enc_token <$> g).
Definition enc_groups (gs : list (list token)) : list Z := concat (enc_group <$> gs).

(** What a token appends to the output: [None] when it refers to bytes before
    the start of the output. *)
Fixpoint copy_bytes (mlen cpy : nat) (out : list Z) : option (list Z) :=
  match mlen with
  | O => Some out
  | S mlen => let* b := out !! cpy in copy_bytes mlen (S cpy) (out ++ [b])
  end.

Definition expand (out : list Z) (t : token) : option (list Z) :=
  match t with
  | Lit b => Some (out ++ [b])
  | Ref mlen off => if decide (off <= length out)%nat
                    then copy_bytes mlen (length out - off) out else None
  end.

Fixpoint expands (out : list Z) (ts : list token) : option (list Z) :=
  match ts with
  | [] => Some out
  | t :: ts => let* out := expand out t in expands out ts
  end.

Lemma expands_app out ts1 ts2 :
  expands out (ts1 ++ ts2) = let* o := expands out ts1 in expands o ts2.
Proof.
  revert out. induction ts1 as [|t ts1 IH]; intros out; [done|].
  cbn [app expands]. destruct (expand out t); [|done]. apply IH.
Qed.

(** *** Flag bytes *)

Lemma flags_range ts : (length ts <= 8)%nat -> is_u8 (flags ts).
Proof.
  intros Hl. assert (0 <= flags ts < 2 ^ Z.of_nat (length ts)) as H.
  { clear Hl. induction ts as [|t ts IH]; cbn [flags length]; [lia|].
    rewrite Nat2Z.inj_succ, Z.pow_succ_r by lia. destruct (is_ref t); cbn [Z.b2z]; lia. }
  pose proof (Z.pow_le_mono_r 2 (Z.of_nat (length ts)) 8). unfold is_u8. lia.
Qed.

Lemma flags_testbit ts1 t ts2 :
  Z.testbit (flags (ts1 ++ t :: ts2)) (Z.of_nat (length ts1)) = is_ref t.
Proof.
  induction ts1 as [|t' ts1 IH]; cbn [app flags length].
  - rewrite Z.add_comm. apply Z.testbit_0_r.
  - rewrite Nat2Z.inj_succ, Z.add_comm, Z.testbit_succ_r by lia. done.
Qed.

(** A literal leaves the flag byte alone, a reference sets the next bit: what
    [*copymap |= copymask] does. *)
Lemma flags_snoc ts t :
  flags (ts ++ [t]) = if is_ref t then Z.lor (flags ts) (2 ^ Z.of_nat (length ts)) else flags ts.
Proof.
  assert (0 <= flags ts < 2 ^ Z.of_nat (length ts)) as H.
  { induction ts as [|t' ts IH]; cbn [flags length]; [lia|].
    rewrite Nat2Z.inj_succ, Z.pow_succ_r by lia. destruct (is_ref t'); cbn [Z.b2z]; lia. }
  rewrite Z.lor_comm, <-(Z.mul_1_l (2 ^ _)), <-Z.shiftl_mul_pow2, lor_shiftl_add by lia.
  assert (flags (ts ++ [t]) = flags ts + Z.b2z (is_ref t) * 2 ^ Z.of_nat (length ts)) as ->.
  { clear H. induction ts as [|t' ts IH]; cbn [flags app length]; [simpl; lia|].
    rewrite IH, Nat2Z.inj_succ, Z.pow_succ_r by lia. lia. }
  destruct (is_ref t); cbn [Z.b2z]; lia.
Qed.

Lemma land_pow2_testbit x k : 0 <= k -> negb (Z.land x (2 ^ k) =? 0) = Z.testbit x k.
Proof.
  intros Hk. destruct (Z.testbit x k) eqn:E.
  - apply negb_true_iff, Z.eqb_neq. intros H.
    assert (Z.testbit (Z.land x (2 ^ k)) k = false) as H1 by (rewrite H; apply Z.bits_0).
    rewrite Z.land_spec, E, Z.pow2_bits_true in H1 by done. done.
  - apply negb_false_iff, Z.eqb_eq. apply Z.bits_inj'. intros i Hi.
    rewrite Z.land_spec, Z.bits_0, Z.pow2_bits_eqb by done.
    destruct (Z.eqb_spec k i) as [->|]; [by rewrite E|apply andb_false_r].
Qed.

(** *** The decompressor reads the format *)

Lemma copy_bytes_length mlen : forall cpy out out',
  copy_bytes mlen cpy out = Some out' -> length out' = (length out + mlen)%nat.
Proof.
  induction mlen as [|mlen IH]; intros cpy out out'; cbn [copy_bytes].
  - intros [= <-]. lia.
  - destruct (out !! cpy); [|done]. cbn. intros H%IH. rewrite H, length_app. simpl. lia.
Qed.

Lemma copy_match_bytes mlen d_len : forall cpy out out',
  copy_bytes mlen cpy out = Some out' -> (length out' <= d_len)%nat ->
  copy_match mlen d_len cpy out = Some out'.
Proof.
  induction mlen as [|mlen IH]; intros cpy out out' H Hd; [done|].
  pose proof (copy_bytes_length _ _ _ _ H) as Hl. cbn [copy_bytes copy_match] in *.
  rewrite (proj2 (Z.ltb_lt _ _)) by lia.
  destruct (out !! cpy); [|done]. cbn in *. by apply IH.
Qed.

Lemma expand_length out t out' :
  token_ok t -> expand out t = Some out' -> (length out < length out')%nat.
Proof.
  destruct t as [b|mlen off]; cbn [expand token_ok].
  - intros _ [= <-]. rewrite length_app. simpl. lia.
  - intros [Hm _]. case_decide; [|done]. intros ->%copy_bytes_length. lia.
Qed.

Lemma expands_length ts : forall out out',
  Forall token_ok ts -> expands out ts = Some out' -> (length out + length ts <= length out')%nat.
Proof.
  induction ts as [|t ts IH]; intros out out' Hok H; cbn [expands length] in *.
  - injection H as ->. lia.
  - forall_inv. destruct (expand out t) as [o|] eqn:E; [|done]. cbn in H.
    apply expand_length in E; [|done]. apply IH in H; [lia|done].
Qed.

Lemma ref_decode mlen off :
  token_ok (Ref mlen off) ->
  let s0 := (Z.of_nat mlen - 3) * 4 + Z.of_nat off / 256 in
  let s1 := Z.of_nat off mod 256 in
  Z.shiftr s0 (NBBY - MATCH_BITS) + MATCH_MIN = Z.of_nat mlen /\
  Z.land (Z.lor (Z.shiftl s0 NBBY) s1) OFFSET_MASK = Z.of_nat off.
Proof.
  intros [Hm Ho] s0 s1. split.
  - rewrite Z.shiftr_div_pow2 by done. subst s0. change (2 ^ (NBBY - MATCH_BITS)) with 4.
    unfold MATCH_MIN. Z.div_mod_to_equations; lia.
  - unfold NBBY. rewrite lor_shiftl_add by (subst s1; Z.div_mod_to_equations; lia).
    change OFFSET_MASK with (2 ^ 10 - 1). rewrite land_ones_mod by done.
    subst s0 s1. change (2 ^ 10) with 1024. change (2 ^ 8) with 256.
    Z.div_mod_to_equations; lia.
Qed.

Lemma decompress_item_token c d_len pre post t out out' m k :
  c = pre ++ enc_token t ++ post -> token_ok t -> 0 <= k -> Z.testbit m k = is_ref t ->
  expand out t = Some out' -> (length out' <= d_len)%nat ->
  decompress_item c d_len (mk_dstate (length pre) out m (2 ^ k)) =
  Some (inr (mk_dstate (length pre + length (enc_token t)) out' m (2 ^ k))).
Proof.
  intros -> Hok Hk Hbit Hexp Hlen. unfold decompress_item.
  cbn [d_src d_dst d_copymap d_copymask]. rewrite land_pow2_testbit, Hbit by done.
  destruct t as [b|mlen off]; cbn [is_ref enc_token expand app] in *.
  - rewrite list_lookup_middle by done. cbn. injection Hexp as <-. do 3 f_equal. lia.
  - case_decide as Ho; [|done].
    rewrite (list_lookup_middle pre _ _ (length pre)) by done.
    rewrite (lookup_app_r pre), Nat.add_sub_swap, Nat.sub_diag by lia.
    cbn [lookup list_lookup mbind option_bind Nat.add].
    destruct (ref_decode mlen off Hok) as [-> ->]. rewrite Nat2Z.id.
    rewrite (proj2 (Z.ltb_ge _ _)) by lia.
    replace (Z.to_nat _) with (length out - off)%nat by lia.
    by rewrite (copy_match_bytes _ _ _ _ out').
Qed.

(** The tokens of a group after its first one. *)
Lemma decompress_tokens c d_len P R g2 : forall g1 fuel out out2,
  c = P ++ flags (g1 ++ g2) :: concat (enc_token <$> (g1 ++ g2)) ++ R ->
  (1 <= length g1)%nat -> (length (g1 ++ g2) <= 8)%nat -> Forall token_ok g2 ->
  expands out g2 = Some out2 -> (length out2 <= d_len)%nat -> (d_len - length out <= fuel)%nat ->
  exists fuel', (d_len - length out2 <= fuel')%nat /\
  decompress_loop fuel c d_len
    (mk_dstate (length P + S (length (concat (enc_token <$> g1)))) out (flags (g1 ++ g2))
       (2 ^ (Z.of_nat (length g1) - 1))) =
  decompress_loop fuel' c d_len
    (mk_dstate (length P + S (length (concat (enc_token <$> (g1 ++ g2))))) out2 (flags (g1 ++ g2))
       (2 ^ (Z.of_nat (length (g1 ++ g2)) - 1))).
Proof.
  induction g2 as [|t g2 IH]; intros g1 fuel out out2 Hc H1 H8 Hok Hexp Hlen Hfuel.
  { rewrite app_nil_r in *. injection Hexp as <-. eauto. }
  forall_inv. cbn [expands] in Hexp.
  destruct (expand out t) as [o|] eqn:Et; [|done]. cbn in Hexp.
  pose proof (expand_length _ _ _ H Et). pose proof (expands_length _ _ _ Hok Hexp).
  rewrite length_app in H8. cbn [length] in H8.
  destruct fuel as [|fuel]; [lia|].
  assert (decompress_item c d_len
    (mk_dstate (length P + S (length (concat (enc_token <$> g1)))) out (flags (g1 ++ t :: g2))
       (2 ^ Z.of_nat (length g1))) =
    Some (inr (mk_dstate (length P + S (length (concat (enc_token <$> (g1 ++ [t]))))) o
      (flags (g1 ++ t :: g2)) (2 ^ Z.of_nat (length g1))))) as Hitem.
  { pose proof (decompress_item_token c d_len
      (P ++ flags (g1 ++ t :: g2) :: concat (enc_token <$> g1))
      (concat (enc_token <$> g2) ++ R) t out o (flags (g1 ++ t :: g2)) (Z.of_nat (length g1))) as Ht.
    rewrite !length_app in Ht. cbn [length] in Ht. rewrite Ht; clear Ht.
    - rewrite fmap_app, concat_app, length_app. cbn [fmap list_fmap concat].
      rewrite app_nil_r. do 3 f_equal. lia.
    - rewrite Hc, fmap_app, concat_app. cbn [fmap list_fmap concat]. by rewrite <-!app_assoc.
    - done.
    - lia.
    - apply flags_testbit.
    - done.
    - lia. }
  cbn [decompress_loop]. cbn [d_dst d_src d_copymask d_copymap].
  rewrite (proj2 (Z.ltb_lt _ _)) by lia.
  rewrite Z.shiftl_mul_pow2, <-Z.pow_add_r, Z.sub_add by lia.
  change (Z.shiftl 1 NBBY) with (2 ^ 8).
  rewrite (proj2 (Z.eqb_neq _ _)) by (intros E; apply Z.pow_inj_r in E; lia).
  cbn [mbind option_bind]. rewrite Hitem. cbn [mbind option_bind].
  replace (g1 ++ t :: g2) with ((g1 ++ [t]) ++ g2) in * by (by rewrite <-app_assoc).
  replace (Z.of_nat (length g1)) with (Z.of_nat (length (g1 ++ [t])) - 1)
    by (rewrite length_app; simpl; lia).
  apply IH; try done; rewrite ?length_app in *; cbn [length]; lia.
Qed.

(** Groups as the compressor lays them out: only the last one may hold fewer
    than eight tokens. *)
Fixpoint wf_groups (gs : list (list token)) : Prop :=
  match gs with
  | [] => True
  | g :: gs => (1 <= length g <= 8)%nat /\ (gs <> [] -> length g = 8%nat) /\
               Forall token_ok g /\ wf_groups gs
  end.

Lemma expands_mono ts : forall out out',
  expands out ts = Some out' -> (length out <= length out')%nat.
Proof.
  induction ts as [|t ts IH]; intros out out'; cbn [expands].
  - intros [= ->]. lia.
  - destruct t as [b|mlen off]; cbn [expand mbind option_bind].
    + intros H%IH. rewrite length_app in H. simpl in H. lia.
    + case_decide; [|done]. destruct (copy_bytes _ _ _) eqn:E; [|done].
      apply copy_bytes_length in E. cbn. intros H1%IH. lia.
Qed.

(** A whole group: its flag byte, its first token, the others. *)
Lemma decompress_group c d_len P R t g fuel out out2 m :
  c = P ++ enc_group (t :: g) ++ R -> (length g <= 7)%nat ->
  Forall token_ok (t :: g) -> expands out (t :: g) = Some out2 ->
  (length out2 <= d_len)%nat -> (d_len - length out <= fuel)%nat ->
  exists fuel', (d_len - length out2 <= fuel')%nat /\
  decompress_loop fuel c d_len (mk_dstate (length P) out m 128) =
  decompress_loop fuel' c d_len
    (mk_dstate (length P + length (enc_group (t :: g))) out2 (flags (t :: g))
       (2 ^ Z.of_nat (length g))).
Proof.
  intros Hc H8 Hok Hexp Hlen Hfuel. forall_inv. cbn [expands] in Hexp.
  destruct (expand out t) as [o|] eqn:Et; [|done]. cbn [mbind option_bind] in Hexp.
  pose proof (expand_length _ _ _ H Et). pose proof (expands_length _ _ _ Hok Hexp).
  destruct fuel as [|fuel]; [lia|].
  cbn [decompress_loop d_dst d_src d_copymask d_copymap].
  rewrite (proj2 (Z.ltb_lt _ _)) by lia.
  change (Z.shiftl 128 1 =? Z.shiftl 1 NBBY) with true. cbn iota.
  assert (c !! length P = Some (flags (t :: g))) as -> by (rewrite Hc; by apply list_lookup_middle).
  cbn [mbind option_bind].
  pose proof (decompress_item_token c d_len (P ++ [flags (t :: g)])
    (concat (enc_token <$> g) ++ R) t out o (flags (t :: g)) 0) as Ht.
  rewrite length_app, Nat.add_1_r in Ht. change (2 ^ 0) with 1 in Ht. rewrite Ht; clear Ht.
  2: { rewrite Hc. unfold enc_group. cbn [app fmap list_fmap concat]. by rewrite <-!app_assoc. }
  2: done. 2: done. 2: apply (flags_testbit []). 2: done. 2: lia.
  cbn [mbind option_bind].
  destruct (decompress_tokens c d_len P R g [t] fuel o out2)
    as (fuel' & Hf' & Hrun); try done; try (simpl in *; lia).
  change (2 ^ (Z.of_nat (length [t]) - 1)) with 1 in Hrun.
  cbn [fmap list_fmap concat app] in Hrun. rewrite app_nil_r, Nat.add_succ_r in Hrun.
  cbn [Nat.add]. exists fuel'. split; [done|]. rewrite Hrun. cbn [length].
  do 3 f_equal. lia.
Qed.

Lemma decompress_groups d_len R gs : forall P fuel out outf m,
  wf_groups gs -> expands out (concat gs) = Some outf ->
  length outf = d_len -> (d_len - length out <= fuel)%nat ->
  decompress_loop fuel (P ++ enc_groups gs ++ R) d_len (mk_dstate (length P) out m 128) =
  Some (0, outf).
Proof.
  induction gs as [|g gs IH]; intros P fuel out outf m Hwf Hexp Hlen Hfuel.
  { injection Hexp as ->. destruct fuel; cbn [decompress_loop d_dst];
      by rewrite (proj2 (Z.ltb_ge _ _)) by lia. }
  destruct Hwf as (H8 & Hfull & Hok & Hwf). destruct g as [|t g]; [simpl in H8; lia|].
  cbn [concat] in Hexp. rewrite expands_app in Hexp.
  destruct (expands out (t :: g)) as [o2|] eqn:E2; [|done]. cbn [mbind option_bind] in Hexp.
  pose proof (expands_mono _ _ _ Hexp).
  destruct (decompress_group (P ++ enc_groups ((t :: g) :: gs) ++ R) d_len P
    (enc_groups gs ++ R) t g fuel out o2 m) as (fuel' & Hf' & ->); try done; try (simpl in *; lia).
  { unfold enc_groups. cbn [fmap list_fmap concat]. by rewrite <-!app_assoc. }
  destruct gs as [|g' gs].
  { cbn [concat expands] in Hexp. injection Hexp as ->.
    destruct fuel'; cbn [decompress_loop d_dst]; by rewrite (proj2 (Z.ltb_ge _ _)) by lia. }
  specialize (Hfull ltac:(done)). cbn [length] in Hfull.
  replace (2 ^ Z.of_nat (length g)) with 128 by (by injection Hfull as ->).
  replace (P ++ enc_groups ((t :: g) :: g' :: gs) ++ R)
    with ((P ++ enc_group (t :: g)) ++ enc_groups (g' :: gs) ++ R)
    by (unfold enc_groups; cbn [fmap list_fmap concat]; by rewrite <-!app_assoc).
  rewrite <-length_app. by apply IH.
Qed.

(** *** The compressor writes the format *)

Lemma match_len_spec s src cpy : forall fuel mlen,
  (cpy < src)%nat -> (src + mlen + fuel <= length s)%nat ->
  (forall j, (j < mlen)%nat -> s !! (cpy + j)%nat = s !! (src + j)%nat) ->
  exists m, match_len s src cpy mlen fuel = Some m /\ (mlen <= m <= mlen + fuel)%nat /\
    (forall j, (j < m)%nat -> s !! (cpy + j)%nat = s !! (src + j)%nat).
Proof.
  induction fuel as [|fuel IH]; intros mlen Hlt Hlen Heq; cbn [match_len].
  { exists mlen. split; [done|]. split; [lia|done]. }
  destruct (lookup_lt_is_Some_2 s (src + mlen)) as [a Ha]; [lia|].
  destruct (lookup_lt_is_Some_2 s (cpy + mlen)) as [b Hb]; [lia|].
  rewrite Ha, Hb. cbn [mbind option_bind]. destruct (Z.eqb_spec a b) as [->|Hne].
  - destruct (IH (S mlen)) as (m & ? & ? & ?); [lia|lia| |by exists m; split; [|split; [lia|]]].
    intros j Hj. destruct (decide (j = mlen)) as [->|]; [congruence|apply Heq; lia].
  - exists mlen. split; [done|]. split; [lia|done].
Qed.

(** A reference to equal bytes reproduces the source, also when it overlaps
    what it writes. *)
Lemma copy_bytes_take s m : forall cpy k,
  (cpy < k)%nat -> (k + m <= length s)%nat ->
  (forall j, (j < m)%nat -> s !! (cpy + j)%nat = s !! (k + j)%nat) ->
  copy_bytes m cpy (take k s) = Some (take (k + m) s).
Proof.
  induction m as [|m IH]; intros cpy k Hlt Hlen Heq; cbn [copy_bytes].
  { by rewrite Nat.add_0_r. }
  rewrite lookup_take_lt by done.
  specialize (Heq 0%nat) as Heq0. rewrite !Nat.add_0_r in Heq0. rewrite Heq0 by lia.
  destruct (lookup_lt_is_Some_2 s k) as [b Hb]; [lia|]. rewrite Hb. cbn [mbind option_bind].
  rewrite <-take_S_r by done. rewrite IH; [do 2 f_equal; lia|lia|lia|].
  intros j Hj. replace (S cpy + j)%nat with (cpy + S j)%nat by lia.
  replace (S k + j)%nat with (k + S j)%nat by lia. apply Heq. lia.
Qed.

(** The state inside a group: [gs] are the full groups written, [cur] the
    tokens of the open one. *)
Record in_group (s : list Z) (d_len : Z) (gs : list (list token)) (cur : list token)
    (mask : Z) (st : cstate) : Prop := {
  ig_dst : c_dst st = enc_groups gs ++ enc_group cur;
  ig_map : c_copymap st = length (enc_groups gs);
  ig_mask : c_copymask st = mask;
  ig_src : (c_src st <= length s)%nat;
  ig_full : Forall (fun g => length g = 8%nat /\ Forall token_ok g) gs;
  ig_cur : Forall token_ok cur;
  ig_exp : expands [] (concat gs ++ cur) = Some (take (c_src st) s);
  ig_room : Z.of_nat (length (enc_groups gs)) < d_len - 17;
  ig_lempel : length (c_lempel st) = 256%nat
}.

Lemma enc_tokens_length ts : (length (concat (enc_token <$> ts)) <= 2 * length ts)%nat.
Proof.
  induction ts as [|t ts IH]; [done|]. cbn [fmap list_fmap concat length].
  rewrite length_app. destruct t; simpl; lia.
Qed.

Lemma enc_group_snoc_lit cur b : enc_group (cur ++ [Lit b]) = enc_group cur ++ [b].
Proof.
  unfold enc_group. rewrite flags_snoc, fmap_app, concat_app. done.
Qed.

Lemma put_Some d_len dst v :
  Z.of_nat (length dst) < d_len -> is_u8 v -> put d_len dst v = Some (dst ++ [v]).
Proof.
  intros H Hv. unfold put. rewrite (proj2 (Z.ltb_lt _ _)) by done.
  do 3 f_equal. by apply Z.mod_small.
Qed.

(** What one round does to the tokens: it appends one, or stays inside the
    destination while doing so. *)
Definition item_ok (s : list Z) (d_len : Z) gs cur (st : cstate) (r : option cstate) : Prop :=
  exists t st', r = Some st' /\ (c_src st < c_src st')%nat /\
    in_group s d_len gs (cur ++ [t]) (2 ^ Z.of_nat (length cur)) st'.

Lemma literal_ok s d_len gs cur st lempel b :
  in_group s d_len gs cur (2 ^ Z.of_nat (length cur)) st -> (length cur <= 7)%nat ->
  bytes s -> s !! c_src st = Some b -> length lempel = 256%nat ->
  item_ok s d_len gs cur st
    (let* dst := put d_len (c_dst st) b in
     Some (mk_cstate (S (c_src st)) dst (c_copymap st) (c_copymask st) lempel)).
Proof.
  intros [Hdst Hmap Hmask Hsrc Hfull Hcur Hexp Hroom Hlem] H7 Hb Hs Hl'.
  assert (is_u8 b) as Hub by (eapply Forall_lookup_1; done).
  assert (c_src st < length s)%nat by (by eapply lookup_lt_Some).
  pose proof (enc_tokens_length cur) as Hlen.
  rewrite put_Some; [|rewrite Hdst, length_app; unfold enc_group; cbn [length]; lia|done].
  exists (Lit b). eexists. split; [done|]. split; [simpl; lia|].
  constructor; cbn [c_dst c_copymap c_copymask c_src c_lempel]; try done.
  - rewrite enc_group_snoc_lit, Hdst. by rewrite app_assoc.
  - apply Forall_app; split; [done|]. by constructor.
  - rewrite app_assoc, expands_app, Hexp. cbn. f_equal. symmetry. by apply take_S_r.
Qed.

Lemma enc_group_snoc_ref cur mlen off :
  enc_group (cur ++ [Ref mlen off]) =
  Z.lor (flags cur) (2 ^ Z.of_nat (length cur)) ::
    concat (enc_token <$> cur) ++ enc_token (Ref mlen off).
Proof.
  unfold enc_group. rewrite flags_snoc, fmap_app, concat_app. cbn [is_ref fmap list_fmap concat].
  by rewrite app_nil_r.
Qed.

(** The two bytes written for a match. *)
Lemma ref_encode mlen off :
  token_ok (Ref mlen off) ->
  Z.lor (Z.shiftl (Z.of_nat mlen - MATCH_MIN) (NBBY - MATCH_BITS)) (Z.shiftr (Z.of_nat off) NBBY) =
    (Z.of_nat mlen - 3) * 4 + Z.of_nat off / 256 /\
  is_u8 ((Z.of_nat mlen - 3) * 4 + Z.of_nat off / 256).
Proof.
  intros [Hm Ho]. unfold NBBY, MATCH_MIN, MATCH_BITS.
  rewrite Z.shiftr_div_pow2, lor_shiftl_add by (try done; change (2 ^ 8) with 256; change (2 ^ (8 - 6)) with 4; Z.div_mod_to_equations; lia).
  change (2 ^ 8) with 256. change (2 ^ (8 - 6)) with 4. unfold is_u8. change (2 ^ 8) with 256.
  split; [done|]. Z.div_mod_to_equations; lia.
Qed.

Lemma match_ok s d_len gs cur st lempel off mlen :
  in_group s d_len gs cur (2 ^ Z.of_nat (length cur)) st -> (length cur <= 7)%nat ->
  token_ok (Ref mlen off) -> (off <= c_src st)%nat -> (c_src st + mlen <= length s)%nat ->
  (forall j, (j < mlen)%nat -> s !! (c_src st - off + j)%nat = s !! (c_src st + j)%nat) ->
  length lempel = 256%nat ->
  item_ok s d_len gs cur st
    (let* cm := c_dst st !! c_copymap st in
     let dst := <[c_copymap st := u8 (Z.lor cm (c_copymask st))]> (c_dst st) in
     let* dst := put d_len dst
       (Z.lor (Z.shiftl (Z.of_nat mlen - MATCH_MIN) (NBBY - MATCH_BITS))
              (Z.shiftr (Z.of_nat off) NBBY)) in
     let* dst := put d_len dst (Z.of_nat off) in
     Some (mk_cstate (c_src st + mlen) dst (c_copymap st) (c_copymask st) lempel)).
Proof.
  intros [Hdst Hmap Hmask Hsrc Hfull Hcur Hexp Hroom Hlem] H7 Hok Hoff Hend Heq Hl'.
  pose proof (enc_tokens_length cur) as Hlen. destruct (ref_encode _ _ Hok) as [-> Hu8].
  assert (u8 (Z.lor (flags cur) (2 ^ Z.of_nat (length cur))) =
          Z.lor (flags cur) (2 ^ Z.of_nat (length cur))) as Hu.
  { pose proof (flags_range (cur ++ [Ref mlen off])) as Hr. rewrite flags_snoc in Hr.
    apply Z.mod_small, Hr. rewrite length_app. simpl. lia. }
  rewrite Hdst, Hmap, Hmask. unfold enc_group.
  rewrite list_lookup_middle by done. cbn [mbind option_bind]. rewrite Hu.
  rewrite insert_app_r_alt, Nat.sub_diag by lia. cbn [insert list_insert].
  rewrite put_Some; [|rewrite length_app; cbn [length]; lia|done]. cbn [mbind option_bind].
  unfold put. rewrite (proj2 (Z.ltb_lt _ _)) by (rewrite !length_app; cbn [length]; lia).
  cbn [mbind option_bind].
  exists (Ref mlen off). eexists. split; [done|]. destruct Hok as [Hm Ho].
  split; [simpl; lia|].
  constructor; cbn [c_dst c_copymap c_copymask c_src c_lempel]; try done.
  - rewrite enc_group_snoc_ref. cbn [enc_token]. rewrite <-!app_assoc. done.
  - apply Forall_app; split; [done|]. by constructor.
  - rewrite app_assoc, expands_app, Hexp. cbn [mbind option_bind expands expand].
    rewrite length_take_le, decide_True by lia. rewrite copy_bytes_take; [done|lia|lia|done].
Qed.

Lemma compress_item_ok s_start s d_len gs cur st :
  in_group s d_len gs cur (2 ^ Z.of_nat (length cur)) st -> (length cur <= 7)%nat ->
  bytes s -> (c_src st < length s)%nat ->
  item_ok s d_len gs cur st (compress_item s_start s d_len st).
Proof.
  intros Hig H7 Hb Hsrc. pose proof (ig_lempel _ _ _ _ _ _ Hig) as Hlem.
  destruct (lookup_lt_is_Some_2 s (c_src st)) as [s0 Hs0]; [lia|].
  unfold compress_item. rewrite Hs0. cbn [mbind option_bind].
  destruct (Z.gtb_spec (Z.of_nat (c_src st)) (Z.of_nat (length s) - MATCH_MAX)) as [Ht|Ht].
  { by apply literal_ok. }
  change MATCH_MAX with 66 in *.
  destruct (lookup_lt_is_Some_2 s (c_src st + 1)) as [s1 Hs1]; [lia|].
  destruct (lookup_lt_is_Some_2 s (c_src st + 2)) as [s2 Hs2]; [lia|].
  rewrite Hs1, Hs2. cbn [mbind option_bind].
  set (h := lempel_hash s0 s1 s2).
  assert (h < 256)%nat as Hh.
  { unfold h, lempel_hash. change (LEMPEL_SIZE - 1) with (2 ^ 8 - 1). rewrite land_ones_mod by done.
    pose proof (Z.mod_pos_bound (Z.lxor (Z.lxor (s0 + 13) (s1 - 13)) s2) (2 ^ 8)). lia. }
  destruct (lookup_lt_is_Some_2 (c_lempel st) h) as [hp ->]; [lia|]. cbn [mbind option_bind].
  assert (forall v, length (<[h := v]> (c_lempel st)) = 256%nat) as Hl'
    by (intros; by rewrite length_insert).
  change OFFSET_MASK with (2 ^ 10 - 1). rewrite land_ones_mod by done.
  set (off := (s_start + Z.of_nat (c_src st) - hp) mod 2 ^ 10).
  assert (0 <= off < 1024) as Hoff by (by apply Z.mod_pos_bound).
  destruct ((Z.of_nat (c_src st) - off >=? 0) && _) eqn:Eg; [|by apply literal_ok].
  apply andb_true_iff in Eg as [E1 E2]. rewrite Z.geb_leb in E1. bprop.
  clearbody off. destruct (Z_of_nat_complete off) as [o ->]; [lia|].
  replace (Z.to_nat (Z.of_nat (c_src st) - Z.of_nat o)) with (c_src st - o)%nat by lia.
  destruct (lookup_lt_is_Some_2 s (c_src st - o)) as [c0 Hc0]; [lia|].
  destruct (lookup_lt_is_Some_2 s (c_src st - o + 1)) as [c1 Hc1]; [lia|].
  destruct (lookup_lt_is_Some_2 s (c_src st - o + 2)) as [c2 Hc2]; [lia|].
  rewrite Hc0, Hc1, Hc2. cbn [mbind option_bind].
  destruct (_ && _ && _) eqn:Eq; [|by apply literal_ok]. bprop. subst c0 c1 c2.
  destruct (match_len_spec s (c_src st) (c_src st - o) 63 3) as (m & Hm & Hmr & Heq).
  { lia. } { lia. }
  { intros [|[|[|]]] Hj; rewrite ?Nat.add_0_r; try congruence; lia. }
  change (Z.to_nat (66 - MATCH_MIN)) with 63%nat. change (Z.to_nat MATCH_MIN) with 3%nat.
  rewrite Hm. cbn [mbind option_bind].
  apply (match_ok s d_len gs cur st _ (o) m); try done; try lia. split; lia.
Qed.

(** What a run of [lzjb_compress] returns: [s_len], with the source copied
    when the destination is as long as the source, or the length of a block in
    the format above that expands to the source. *)
Definition compress_spec (s : list Z) (d_len : Z) (r : cresult) : Prop :=
  (fst r = Z.of_nat (length s) /\ (d_len = Z.of_nat (length s) -> snd r = s)) \/
  (exists gs, wf_groups gs /\ snd r = enc_groups gs /\ fst r = Z.of_nat (length (snd r)) /\
     fst r <= Z.max 0 (d_len - 1) /\ expands [] (concat gs) = Some s).

Lemma enc_groups_snoc gs g : enc_groups (gs ++ [g]) = enc_groups gs ++ enc_group g.
Proof. unfold enc_groups. rewrite fmap_app, concat_app. cbn. by rewrite app_nil_r. Qed.

Lemma concat_snoc {A} (gs : list (list A)) g : concat (gs ++ [g]) = concat gs ++ g.
Proof. rewrite concat_app. cbn. by rewrite app_nil_r. Qed.

Lemma wf_groups_snoc gs g :
  Forall (fun g => length g = 8%nat /\ Forall token_ok g) gs ->
  Forall token_ok g -> (1 <= length g <= 8)%nat -> wf_groups (gs ++ [g]).
Proof.
  intros Hfull Hok Hl. induction Hfull as [|g' gs [H8 Hg'] _ IH]; simpl; [done|].
  split; [lia|]. split; [done|]. done.
Qed.

(** A finished run from inside a group. *)
Lemma in_group_final s d_len gs cur m st :
  in_group s d_len gs cur m st -> (1 <= length cur <= 8)%nat -> c_src st = length s ->
  compress_spec s d_len (Z.of_nat (length (c_dst st)), c_dst st).
Proof.
  intros [Hdst Hmap Hmask Hsrc Hfull Hcur Hexp Hroom Hlem] Hc Hend. right. cbn [fst snd].
  exists (gs ++ [cur]). rewrite enc_groups_snoc, concat_snoc, Hexp, Hend, take_ge by lia.
  pose proof (enc_tokens_length cur).
  split; [by apply wf_groups_snoc|]. split; [done|]. split; [done|].
  split; [|done]. rewrite Hdst, length_app. unfold enc_group. cbn [length]. lia.
Qed.

Lemma compress_loop_ok s_start s d_len :
  bytes s -> forall fuel gs cur st,
  in_group s d_len gs cur (2 ^ (Z.of_nat (length cur) - 1)) st -> (1 <= length cur <= 8)%nat ->
  (length s - c_src st <= fuel)%nat ->
  exists r, compress_loop fuel s_start s d_len st = Some r /\ compress_spec s d_len r.
Proof.
  intros Hb. induction fuel as [|fuel IH]; intros gs cur st Hig Hc Hf.
  all: pose proof (ig_src _ _ _ _ _ _ Hig) as Hsrc; cbn [compress_loop].
  all: destruct (Z.ltb_spec (Z.of_nat (c_src st)) (Z.of_nat (length s))) as [Hlt|Hge];
    [|eexists; split; [done|]; eapply in_group_final; [done..|lia]].
  { lia. }
  pose proof Hig as [Hdst Hmap Hmask _ Hfull Hcur Hexp Hroom Hlem].
  rewrite Hmask, Z.shiftl_mul_pow2, <-Z.pow_add_r, Z.sub_add by lia.
  change (Z.shiftl 1 NBBY) with (2 ^ 8).
  destruct (Z.eqb_spec (2 ^ Z.of_nat (length cur)) (2 ^ 8)) as [E8|E8].
  - apply Z.pow_inj_r in E8; [|lia..].
    destruct (Z.geb_spec (Z.of_nat (length (c_dst st))) (d_len - 1 - 2 * NBBY)) as [Hg|Hg].
    { destruct (Z.eqb_spec d_len (Z.of_nat (length s))) as [->|Hne]; cbn [negb];
        eexists; (split; [done|left; split; [done|]]); done. }
    unfold NBBY in Hg. rewrite put_Some by (unfold is_u8; lia). cbn [mbind option_bind].
    set (st1 := mk_cstate _ _ _ _ _).
    assert (in_group s d_len (gs ++ [cur]) [] 1 st1) as Hig1.
    { constructor; cbn [st1 c_dst c_copymap c_copymask c_src c_lempel]; try done.
      - rewrite enc_groups_snoc. by rewrite Hdst.
      - rewrite enc_groups_snoc. by rewrite Hdst.
      - apply Forall_app; split; [done|]. repeat constructor; [lia|done].
      - by rewrite concat_snoc, app_nil_r.
      - rewrite enc_groups_snoc, <-Hdst. lia. }
    destruct (compress_item_ok s_start s d_len (gs ++ [cur]) [] st1) as (t & st' & -> & Hprog & Hig');
      [done|simpl; lia|done|cbn [st1 c_src]; lia|]. cbn [mbind option_bind].
    apply (IH (gs ++ [cur]) [t]); [done|simpl; lia|cbn [st1 c_src] in Hprog; lia].
  - assert (length cur < 8)%nat by (destruct (decide (length cur = 8%nat)) as [e|]; [by rewrite e in E8|lia]).
    set (st1 := mk_cstate _ _ _ _ _).
    assert (in_group s d_len gs cur (2 ^ Z.of_nat (length cur)) st1) as Hig1
      by (by constructor).
    destruct (compress_item_ok s_start s d_len gs cur st1) as (t & st' & -> & Hprog & Hig');
      [done|lia|done|cbn [st1 c_src]; lia|]. cbn [mbind option_bind].
    apply (IH gs (cur ++ [t])); [|rewrite length_app; simpl; lia|cbn [st1 c_src] in Hprog; lia].
    rewrite length_app. cbn [length]. replace (Z.of_nat (length cur + 1) - 1) with (Z.of_nat (length cur)) by lia.
    done.
Qed.

Lemma lzjb_compress_ok lempel s_start s d_len :
  bytes s -> length lempel = 256%nat ->
  exists r, lzjb_compress lempel s_start s d_len = Some r /\ compress_spec s d_len r.
Proof.
  intros Hb Hl. unfold lzjb_compress.
  destruct s as [|b s]; [eexists; split; [done|]; right; exists []; simpl; repeat split; lia|].
  set (src := b :: s) in *. change (length src) with (S (length s)) at 1.
  cbn [compress_loop c_src c_copymask c_dst length].
  rewrite (proj2 (Z.ltb_lt _ _)) by (simpl; lia).
  change (Z.shiftl (Z.shiftl 1 (NBBY - 1)) 1 =? Z.shiftl 1 NBBY) with true. cbn iota.
  destruct (Z.geb_spec (Z.of_nat 0) (d_len - 1 - 2 * NBBY)) as [Hg|Hg].
  { destruct (Z.eqb_spec d_len (Z.of_nat (length src))) as [->|Hne]; cbn [negb];
      eexists; (split; [done|left; split; [done|]]); done. }
  unfold NBBY in Hg. rewrite put_Some by (unfold is_u8; simpl; lia). cbn [mbind option_bind app c_lempel].
  set (st1 := mk_cstate _ _ _ _ _).
  assert (in_group src d_len [] [] 1 st1) as Hig1 by (constructor; simpl; try done; lia).
  destruct (compress_item_ok s_start src d_len [] [] st1) as (t & st' & -> & Hprog & Hig');
    [done|simpl; lia|done|simpl; lia|]. cbn [mbind option_bind].
  apply (compress_loop_ok s_start src d_len Hb (length s) [] [t]); [done|simpl; lia|].
  cbn [st1 c_src] in Hprog. simpl. lia.
Qed.

Lemma lzjb_decompress_format gs s pad :
  wf_groups gs -> expands [] (concat gs) = Some s ->
  lzjb_decompress (enc_groups gs ++ pad) (length s) = Some (0, s).
Proof.
  intros Hwf He. unfold lzjb_decompress.
  apply (decompress_groups (length s) pad gs [] (length s) [] s 0); try done. simpl. lia.
Qed.

(** ** Theorems *)




