(* ===== verification/ZioCompress.v ===== *)
(** * Block compression (src/src/lib/libzpool/zio_compress.c, gzip.c,
      src/src/lib/libsolkerncompat/zmod.c)

    The compression vectors and the two entry points of the I/O pipeline,
    [zio_compress_data] and [zio_decompress_data].  The vectors are LZJB
    (Lzjb.v) and gzip over zlib's [compress2] and [uncompress], which are
    parameters.  [Compressor] states what the entry points rely on; LZJB
    discharges it outright, gzip from the documented behaviour of zlib. *)
From Stdlib Require Import ZArith Lia.
From stdpp Require Import base numbers list option.
From S2P Require Import Prelude Lzjb.

(** ** What a compression vector promises

    [ci_compress s d_len] returns a length and the bytes written;
    [ci_decompress c d_len] a status and the destination. *)
Class Compressor (ci_compress : list Z -> Z -> option cresult)
    (ci_decompress : list Z -> nat -> option cresult) : Prop := {
  ci_total (s : list Z) (d_len : Z) :
    bytes s -> 0 < d_len < Z.of_nat (length s) ->
    exists ret dst, ci_compress s d_len = Some (ret, dst) /\
      (ret = Z.of_nat (length s) \/ ret = Z.of_nat (length dst) /\ 0 < ret <= d_len);
  ci_inverse (s : list Z) (d_len ret : Z) (dst : list Z) (pad : nat) :
    bytes s -> 0 < d_len < Z.of_nat (length s) ->
    ci_compress s d_len = Some (ret, dst) -> ret <> Z.of_nat (length s) ->
    (length dst + pad <= length s)%nat ->
    ci_decompress (dst ++ replicate pad 0) (length s) = Some (0, s)
}.

#[export] Instance lzjb_Compressor (lempel : list Z) (s_start : Z) :
  length lempel = 256%nat -> Compressor (lzjb_compress lempel s_start) lzjb_decompress.
Proof.
  intros Hl. split.
  - intros s d_len Hb Hd. destruct (lzjb_compress_ok lempel s_start s d_len Hb Hl) as ([ret dst] & Hr & Hs).
    exists ret, dst. split; [done|].
    destruct Hs as [[? _]|(gs & Hwf & Hdst & ? & ? & He)]; cbn [fst snd] in *; [by left|right].
    enough (0 < length dst)%nat by lia. subst dst. destruct gs as [|g gs].
    + injection He as <-. simpl in Hd. lia.
    + unfold enc_groups. simpl. lia.
  - intros s d_len ret dst pad Hb Hd Hc Hne _.
    destruct (lzjb_compress_ok lempel s_start s d_len Hb Hl) as (r & Hr & Hs).
    rewrite Hc in Hr. injection Hr as <-.
    destruct Hs as [[? _]|(gs & Hwf & Hdst & _ & _ & He)]; cbn [fst snd] in *; [done|].
    subst dst. by apply lzjb_decompress_format.
Qed.

(** ** zmod.c and gzip.c over zlib *)

Section gzip.
(** zlib: [Some out] is [Z_OK] with [out] in the destination, [None] any other
    status. *)
Context (compress2 : list Z -> nat -> Z -> option (list Z)).
Context (uncompress : list Z -> nat -> option (list Z)).

Definition z_compress_level (dstlen : nat) (src : list Z) (level : Z) : option (list Z) :=
  compress2 src dstlen level.

Definition z_uncompress (dstlen : nat) (src : list Z) : option (list Z) :=
  uncompress src dstlen.

Definition gzip_compress (s : list Z) (d_len : Z) (n : Z) : option cresult :=
  VERIFY (d_len <=? Z.of_nat (length s)) in
  match z_compress_level (Z.to_nat d_len) s n with
  | None =>
      if negb (d_len =? Z.of_nat (length s)) then Some (Z.of_nat (length s), [])
      else Some (Z.of_nat (length s), s)
  | Some dst => Some (Z.of_nat (length dst), dst)
  end.

Definition gzip_decompress (c : list Z) (d_len : nat) : option cresult :=
  VERIFY (Z.of_nat (length c) <=? Z.of_nat d_len) in
  match z_uncompress d_len c with
  | None => Some (-1, [])
  | Some dst => Some (0, dst)
  end.

(** The documented behaviour of zlib gzip relies on: [compress2] writes a
    stream (at least its header) into the space it is given, and [uncompress] of a complete stream,
    whatever follows it, gives back the data when there is room for it. *)
Class Zlib (level : Z) : Prop := {
  compress2_fits s n out : compress2 s n level = Some out -> (0 < length out <= n)%nat;
  uncompress_compress2 s n out pad :
    compress2 s n level = Some out -> uncompress (out ++ pad) (length s) = Some s
}.

#[export] Instance gzip_Compressor (level : Z) :
  Zlib level -> Compressor (fun s d_len => gzip_compress s d_len level) gzip_decompress.
Proof.
  intros HZ. unfold gzip_compress, z_compress_level. split.
  - intros s d_len Hb Hd. rewrite (proj2 (Z.leb_le _ _)) by lia.
    destruct (compress2 s (Z.to_nat d_len) level) as [out|] eqn:E.
    + exists (Z.of_nat (length out)), out. split; [done|]. right. split; [done|].
      apply compress2_fits in E. lia.
    + rewrite (proj2 (Z.eqb_neq _ _)) by lia. cbn [negb]. eauto.
  - intros s d_len ret dst pad Hb Hd. rewrite (proj2 (Z.leb_le _ _)) by lia.
    destruct (compress2 s (Z.to_nat d_len) level) as [out|] eqn:E.
    + intros [= <- <-] _ Hl. unfold gzip_decompress, z_uncompress.
      rewrite (proj2 (Z.leb_le _ _)) by (rewrite length_app, length_replicate; lia).
      by rewrite (uncompress_compress2 _ _ _ _ E).
    + rewrite (proj2 (Z.eqb_neq _ _)) by lia. cbn [negb]. by intros [= <- <-].
Qed.
End gzip.

(** ** zio_compress.c *)

Definition ZIO_COMPRESS_INHERIT : Z := 0.
Definition ZIO_COMPRESS_ON : Z := 1.
Definition ZIO_COMPRESS_OFF : Z := 2.
Definition ZIO_COMPRESS_LZJB : Z := 3.
Definition ZIO_COMPRESS_EMPTY : Z := 4.
Definition ZIO_COMPRESS_GZIP_1 : Z := 5.
Definition ZIO_COMPRESS_GZIP_9 : Z := 13.
Definition ZIO_COMPRESS_FUNCTIONS : Z := 14.
Definition ZIO_COMPRESS_ON_VALUE : Z := ZIO_COMPRESS_LZJB.

Definition zio_compress_select (child parent : Z) : option Z :=
  VERIFY (child <? ZIO_COMPRESS_FUNCTIONS) in
  VERIFY (parent <? ZIO_COMPRESS_FUNCTIONS) in
  VERIFY (negb (parent =? ZIO_COMPRESS_INHERIT) && negb (parent =? ZIO_COMPRESS_ON)) in
  if child =? ZIO_COMPRESS_INHERIT then Some parent
  else if child =? ZIO_COMPRESS_ON then Some ZIO_COMPRESS_ON_VALUE
  else Some child.

(** The scan for a non-zero word between [src] and [word_end]: [word] is an index in
    8-byte words; a source whose size is no multiple of 8 is read past its
    end. *)
Fixpoint allzero (fuel : nat) (src : list Z) (word : nat) : option bool :=
  if (8 * word <? length src)%nat then
    match fuel with
    | O => None
    | S fuel =>
        let* w := load 8 src (8 * word) in
        if negb (w =? 0) then Some false else allzero fuel src (S word)
    end
  else Some true.

(** The outcome of [zio_compress_data]: it returns 0, or returns 1 with
    [*destp], [*destsizep] and [*destbufsizep] set ([dest] is empty for the
    [NULL] of an all-zero block). *)
Inductive zcompress :=
  | ZC_no
  | ZC_yes (dest : list Z) (destsize destbufsize : Z).

Section zio_compress.
Context (lempel : list Z) (s_start : Z).
Context (compress2 : list Z -> nat -> Z -> option (list Z)).
Context (uncompress : list Z -> nat -> option (list Z)).

(** [zio_compress_table]: the vectors of an entry, [None] for NULL. *)
Definition zio_compress_table (cpfunc : Z) :
    option ((list Z -> Z -> option cresult) * (list Z -> nat -> option cresult)) :=
  if cpfunc =? ZIO_COMPRESS_LZJB then Some (lzjb_compress lempel s_start, lzjb_decompress)
  else if (ZIO_COMPRESS_GZIP_1 <=? cpfunc) && (cpfunc <=? ZIO_COMPRESS_GZIP_9) then
    Some (fun s d_len => gzip_compress compress2 s d_len (cpfunc - ZIO_COMPRESS_GZIP_1 + 1),
          gzip_decompress uncompress)
  else None.

Definition zio_compress_data (cpfunc : Z) (src : list Z) : option zcompress :=
  let srcsize := Z.of_nat (length src) in
  VERIFY ((0 <=? cpfunc) && (cpfunc <? ZIO_COMPRESS_FUNCTIONS)) in
  VERIFY ((cpfunc =? ZIO_COMPRESS_EMPTY) || bool_decide (is_Some (zio_compress_table cpfunc))) in
  let* az := allzero (length src) src 0 in
  if az : bool then Some (ZC_yes [] 0 0)
  else if cpfunc =? ZIO_COMPRESS_EMPTY then Some ZC_no
  else
    let destbufsize := P2ALIGN (srcsize - Z.shiftr srcsize 3) SPA_MINBLOCKSIZE in
    if destbufsize =? 0 then Some ZC_no
    else
      let* ci := zio_compress_table cpfunc in
      let* (ciosize, dest) := fst ci src destbufsize in
      if ciosize >? destbufsize then Some ZC_no
      else
        let gapsize := u64 (P2ROUNDUP ciosize SPA_MINBLOCKSIZE - ciosize) in
        let '(dest, ciosize) :=
          if negb (gapsize =? 0)
          then (dest ++ replicate (Z.to_nat gapsize) 0, u64 (ciosize + gapsize))
          else (dest, ciosize) in
        VERIFY (ciosize <=? destbufsize) in
        VERIFY (P2PHASE ciosize SPA_MINBLOCKSIZE =? 0) in
        Some (ZC_yes dest ciosize destbufsize).

Definition zio_decompress_data (cpfunc : Z) (src : list Z) (destsize : nat) : option cresult :=
  VERIFY ((0 <=? cpfunc) && (cpfunc <? ZIO_COMPRESS_FUNCTIONS)) in
  let* ci := zio_compress_table cpfunc in
  snd ci src destsize.
End zio_compress.

(** ** Theorems *)

Lemma allzero_total src : forall fuel word,
  (8 | Z.of_nat (length src)) -> (length src - 8 * word <= fuel)%nat ->
  exists b, allzero fuel src word = Some b /\
    (b = true -> forall i, (8 * word <= i)%nat -> bytes src -> forall x, src !! i = Some x -> x = 0).
Proof.
  induction fuel as [|fuel IH]; intros word [q Hq] Hf; cbn [allzero].
  all: destruct (Nat.ltb_spec (8 * word) (length src)) as [Hlt|Hge].
  1: lia.
  1, 3: exists true; split; [done|]; intros _ i Hi _ x Hx%lookup_lt_Some; lia.
  rewrite load_is_Some by lia. cbn [mbind option_bind].
  destruct (Z.eqb_spec (le_combine (take 8 (drop (8 * word) src))) 0) as [E|E]; cbn [negb];
    [|by exists false].
  destruct (IH (S word)) as (b & -> & Hb); [by exists q|lia|]. exists b. split; [done|].
  intros -> i Hi Hby x Hx. destruct (decide (8 * S word <= i)%nat); [by eapply Hb|].
  assert (bytes (take 8 (drop (8 * word) src))) as Hg by (by apply Forall_take, Forall_drop).
  apply (le_combine_0 _ Hg E). apply list_elem_of_lookup. exists (i - 8 * word)%nat.
  rewrite lookup_take_lt by lia. rewrite lookup_drop. rewrite <-Hx. f_equal. lia.
Qed.

Section spec.
Context (lempel : list Z) (s_start : Z) (Hlempel : length lempel = 256%nat).
Context (compress2 : list Z -> nat -> Z -> option (list Z)).
Context (uncompress : list Z -> nat -> option (list Z)).
Context (HZ : forall level, Zlib compress2 uncompress level).

Lemma zio_compress_table_ok cpfunc ci :
  zio_compress_table lempel s_start compress2 uncompress cpfunc = Some ci ->
  Compressor (fst ci) (snd ci).
Proof.
  unfold zio_compress_table. repeat case_match; intros [= <-]; simpl; [by apply lzjb_Compressor|].
  by apply gzip_Compressor.
Qed.
End spec.

(** What [zio_compress_data] hands to its caller. *)
Definition zcompress_ok (lempel : list Z) (s_start : Z) compress2 uncompress
    (cpfunc : Z) (src : list Z) (r : zcompress) : Prop :=
  match r with
  | ZC_no => True
  | ZC_yes dest destsize destbufsize =>
      Z.of_nat (length dest) = destsize /\ destsize mod 512 = 0 /\
      destsize <= destbufsize /\ 8 * destbufsize <= 7 * Z.of_nat (length src) + 7 /\
      (destsize = 0 -> forall x, x ∈ src -> x = 0) /\
      (destsize <> 0 ->
       zio_decompress_data lempel s_start compress2 uncompress cpfunc dest (length src) =
       Some (0, src))
  end.

(** The compressed branch: what follows the call of [ci_compress]. *)
Lemma gap_ok ciosize destbufsize :
  0 < ciosize <= destbufsize -> destbufsize mod 512 = 0 -> destbufsize < 2 ^ 63 ->
  let gapsize := u64 (P2ROUNDUP ciosize SPA_MINBLOCKSIZE - ciosize) in
  0 <= gapsize /\ ciosize + gapsize <= destbufsize /\ (ciosize + gapsize) mod 512 = 0 /\
  u64 (ciosize + gapsize) = ciosize + gapsize.
Proof.
  intros Hc Hm Hlt gapsize. subst gapsize. change SPA_MINBLOCKSIZE with (2 ^ 9).
  rewrite P2ROUNDUP_spec by lia. change (2 ^ 9) with 512.
  replace (ciosize + - ciosize mod 512 - ciosize) with ((- ciosize) mod 512) by lia.
  rewrite u64_small by (unfold is_u64; Z.div_mod_to_equations; lia).
  repeat split; try (rewrite u64_small; unfold is_u64); Z.div_mod_to_equations; lia.
Qed.

Lemma destbufsize_ok srcsize :
  0 <= srcsize < 2 ^ 63 ->
  let d := P2ALIGN (srcsize - Z.shiftr srcsize 3) SPA_MINBLOCKSIZE in
  0 <= d /\ d mod 512 = 0 /\ 8 * d <= 7 * srcsize + 7 /\ (d <> 0 -> d < srcsize).
Proof.
  intros H d. subst d. change SPA_MINBLOCKSIZE with (2 ^ 9). rewrite Z.shiftr_div_pow2 by done.
  change (2 ^ 3) with 8.
  rewrite P2ALIGN_mod; [|unfold is_u64; Z.div_mod_to_equations; lia|lia].
  change (2 ^ 9) with 512. Z.div_mod_to_equations; lia.
Qed.


(** A concrete stored-block codec in place of zlib: a header byte, then the
    data. *)
Definition stored_compress (s : list Z) (n : nat) (level : Z) : option (list Z) :=
  if (S (length s) <=? n)%nat then Some (120 :: s) else None.
Definition stored_uncompress (c : list Z) (n : nat) : option (list Z) := Some (take n (drop 1 c)).

Lemma stored_Zlib level : Zlib stored_compress stored_uncompress level.
Proof.
  split.
  - intros s n out. unfold stored_compress. destruct (Nat.leb_spec (S (length s)) n); [|done].
    intros [= <-]. simpl. lia.
  - intros s n out pad. unfold stored_compress. destruct (_ <=? _)%nat; [|done].
    intros [= <-]. unfold stored_uncompress. change (drop 1 _) with (s ++ pad).
    by rewrite take_app_length.
Qed.

