(* ===== verification/Gf256.v ===== *)
(** * The field GF(2^8) of RAID-Z (src/src/lib/libzpool/vdev_raidz.c, lines 37 to 195)

    Multiplication by two, the tables of powers and logarithms, [vdev_raidz_exp2],
    and the eight-bytes-at-once multiplication by two the parity loops use.
    The theorems: the tables and [vdev_raidz_exp2] compute iterated
    multiplication by two, that operation is linear and of order 255, and the
    64-bit word trick multiplies every byte of the word. *)
From Stdlib Require Import ZArith Lia.
From stdpp Require Import base numbers list option.
From S2P Require Import Prelude.

(** [VDEV_RAIDZ_MUL_2], stored into a [uint8_t]. *)
Definition VDEV_RAIDZ_MUL_2 (a : Z) : Z :=
  u8 (Z.lxor (Z.shiftl a 1) (if negb (Z.land a 0x80 =? 0) then 0x1d else 0)).

Definition vdev_raidz_pow2 : list Z := [
  0x01; 0x02; 0x04; 0x08; 0x10; 0x20; 0x40; 0x80; 0x1d; 0x3a; 0x74; 0xe8; 0xcd; 0x87; 0x13; 0x26;
  0x4c; 0x98; 0x2d; 0x5a; 0xb4; 0x75; 0xea; 0xc9; 0x8f; 0x03; 0x06; 0x0c; 0x18; 0x30; 0x60; 0xc0;
  0x9d; 0x27; 0x4e; 0x9c; 0x25; 0x4a; 0x94; 0x35; 0x6a; 0xd4; 0xb5; 0x77; 0xee; 0xc1; 0x9f; 0x23;
  0x46; 0x8c; 0x05; 0x0a; 0x14; 0x28; 0x50; 0xa0; 0x5d; 0xba; 0x69; 0xd2; 0xb9; 0x6f; 0xde; 0xa1;
  0x5f; 0xbe; 0x61; 0xc2; 0x99; 0x2f; 0x5e; 0xbc; 0x65; 0xca; 0x89; 0x0f; 0x1e; 0x3c; 0x78; 0xf0;
  0xfd; 0xe7; 0xd3; 0xbb; 0x6b; 0xd6; 0xb1; 0x7f; 0xfe; 0xe1; 0xdf; 0xa3; 0x5b; 0xb6; 0x71; 0xe2;
  0xd9; 0xaf; 0x43; 0x86; 0x11; 0x22; 0x44; 0x88; 0x0d; 0x1a; 0x34; 0x68; 0xd0; 0xbd; 0x67; 0xce;
  0x81; 0x1f; 0x3e; 0x7c; 0xf8; 0xed; 0xc7; 0x93; 0x3b; 0x76; 0xec; 0xc5; 0x97; 0x33; 0x66; 0xcc;
  0x85; 0x17; 0x2e; 0x5c; 0xb8; 0x6d; 0xda; 0xa9; 0x4f; 0x9e; 0x21; 0x42; 0x84; 0x15; 0x2a; 0x54;
  0xa8; 0x4d; 0x9a; 0x29; 0x52; 0xa4; 0x55; 0xaa; 0x49; 0x92; 0x39; 0x72; 0xe4; 0xd5; 0xb7; 0x73;
  0xe6; 0xd1; 0xbf; 0x63; 0xc6; 0x91; 0x3f; 0x7e; 0xfc; 0xe5; 0xd7; 0xb3; 0x7b; 0xf6; 0xf1; 0xff;
  0xe3; 0xdb; 0xab; 0x4b; 0x96; 0x31; 0x62; 0xc4; 0x95; 0x37; 0x6e; 0xdc; 0xa5; 0x57; 0xae; 0x41;
  0x82; 0x19; 0x32; 0x64; 0xc8; 0x8d; 0x07; 0x0e; 0x1c; 0x38; 0x70; 0xe0; 0xdd; 0xa7; 0x53; 0xa6;
  0x51; 0xa2; 0x59; 0xb2; 0x79; 0xf2; 0xf9; 0xef; 0xc3; 0x9b; 0x2b; 0x56; 0xac; 0x45; 0x8a; 0x09;
  0x12; 0x24; 0x48; 0x90; 0x3d; 0x7a; 0xf4; 0xf5; 0xf7; 0xf3; 0xfb; 0xeb; 0xcb; 0x8b; 0x0b; 0x16;
  0x2c; 0x58; 0xb0; 0x7d; 0xfa; 0xe9; 0xcf; 0x83; 0x1b; 0x36; 0x6c; 0xd8; 0xad; 0x47; 0x8e; 0x01].

Definition vdev_raidz_log2 : list Z := [
  0x00; 0x00; 0x01; 0x19; 0x02; 0x32; 0x1a; 0xc6; 0x03; 0xdf; 0x33; 0xee; 0x1b; 0x68; 0xc7; 0x4b;
  0x04; 0x64; 0xe0; 0x0e; 0x34; 0x8d; 0xef; 0x81; 0x1c; 0xc1; 0x69; 0xf8; 0xc8; 0x08; 0x4c; 0x71;
  0x05; 0x8a; 0x65; 0x2f; 0xe1; 0x24; 0x0f; 0x21; 0x35; 0x93; 0x8e; 0xda; 0xf0; 0x12; 0x82; 0x45;
  0x1d; 0xb5; 0xc2; 0x7d; 0x6a; 0x27; 0xf9; 0xb9; 0xc9; 0x9a; 0x09; 0x78; 0x4d; 0xe4; 0x72; 0xa6;
  0x06; 0xbf; 0x8b; 0x62; 0x66; 0xdd; 0x30; 0xfd; 0xe2; 0x98; 0x25; 0xb3; 0x10; 0x91; 0x22; 0x88;
  0x36; 0xd0; 0x94; 0xce; 0x8f; 0x96; 0xdb; 0xbd; 0xf1; 0xd2; 0x13; 0x5c; 0x83; 0x38; 0x46; 0x40;
  0x1e; 0x42; 0xb6; 0xa3; 0xc3; 0x48; 0x7e; 0x6e; 0x6b; 0x3a; 0x28; 0x54; 0xfa; 0x85; 0xba; 0x3d;
  0xca; 0x5e; 0x9b; 0x9f; 0x0a; 0x15; 0x79; 0x2b; 0x4e; 0xd4; 0xe5; 0xac; 0x73; 0xf3; 0xa7; 0x57;
  0x07; 0x70; 0xc0; 0xf7; 0x8c; 0x80; 0x63; 0x0d; 0x67; 0x4a; 0xde; 0xed; 0x31; 0xc5; 0xfe; 0x18;
  0xe3; 0xa5; 0x99; 0x77; 0x26; 0xb8; 0xb4; 0x7c; 0x11; 0x44; 0x92; 0xd9; 0x23; 0x20; 0x89; 0x2e;
  0x37; 0x3f; 0xd1; 0x5b; 0x95; 0xbc; 0xcf; 0xcd; 0x90; 0x87; 0x97; 0xb2; 0xdc; 0xfc; 0xbe; 0x61;
  0xf2; 0x56; 0xd3; 0xab; 0x14; 0x2a; 0x5d; 0x9e; 0x84; 0x3c; 0x39; 0x53; 0x47; 0x6d; 0x41; 0xa2;
  0x1f; 0x2d; 0x43; 0xd8; 0xb7; 0x7b; 0xa4; 0x76; 0xc4; 0x17; 0x49; 0xec; 0x7f; 0x0c; 0x6f; 0xf6;
  0x6c; 0xa1; 0x3b; 0x52; 0x29; 0x9d; 0x55; 0xaa; 0xfb; 0x60; 0x86; 0xb1; 0xbb; 0xcc; 0x3e; 0x5a;
  0xcb; 0x59; 0x5f; 0xb0; 0x9c; 0xa9; 0xa0; 0x51; 0x0b; 0xf5; 0x16; 0xeb; 0x7a; 0x75; 0x2c; 0xd7;
  0x4f; 0xae; 0xd5; 0xe9; 0xe6; 0xe7; 0xad; 0xe8; 0x74; 0xd6; 0xf4; 0xea; 0xa8; 0x50; 0x58; 0xaf].

(** [vdev_raidz_exp2]: [a] times two to the power [exp]. *)
Definition vdev_raidz_exp2 (a exp : Z) : option Z :=
  if a =? 0 then Some 0
  else
    VERIFY (exp >=? 0) in
    let* l := vdev_raidz_log2 !! Z.to_nat a in
    VERIFY ((l >? 0) || (a =? 1)) in
    let exp := exp + l in
    let exp := if exp >? 255 then exp - 255 else exp in
    vdev_raidz_pow2 !! Z.to_nat exp.

(** The word-wide multiplication by two of the parity loops (lines 358 to
    361, and again in every other loop over Q): a mask from the high bit of
    each byte selects where 0x1d is added. *)
Definition raidz_mul2_64 (q : Z) : Z :=
  let mask := Z.land q 0x8080808080808080 in
  let mask := u64 (u64 (Z.shiftl mask 1) - Z.shiftr mask 7) in
  Z.lxor (Z.land (u64 (Z.shiftl q 1)) 0xfefefefefefefefe) (Z.land mask 0x1d1d1d1d1d1d1d1d).

(** ** Bytes by exhaustion *)

Lemma byte_forall (f : Z -> bool) :
  forallb f (seqZ 0 256) = true -> forall a, is_u8 a -> f a = true.
Proof.
  intros H a Ha. rewrite forallb_forall in H. apply H.
  apply list_elem_of_In, elem_of_seqZ. unfold is_u8 in Ha. lia.
Qed.

Lemma byte_forall2 (f : Z -> Z -> bool) :
  forallb (fun a => forallb (f a) (seqZ 0 256)) (seqZ 0 256) = true ->
  forall a b, is_u8 a -> is_u8 b -> f a b = true.
Proof.
  intros H a b Ha Hb. apply byte_forall; [|done].
  by apply (byte_forall (fun a => forallb (f a) (seqZ 0 256))).
Qed.

Lemma lxor_u8 a b : is_u8 a -> is_u8 b -> is_u8 (Z.lxor a b).
Proof.
  intros Ha Hb. pose proof (byte_forall2 (fun a b => (0 <=? Z.lxor a b) && (Z.lxor a b <? 256))) as H.
  specialize (H ltac:(vm_compute; reflexivity) a b Ha Hb). cbn beta in H. bprop. unfold is_u8. lia.
Qed.

Lemma mul2_u8 a : is_u8 (VDEV_RAIDZ_MUL_2 a).
Proof. unfold VDEV_RAIDZ_MUL_2, u8, is_u8. by apply Z.mod_pos_bound. Qed.

(** Multiplication by two distributes over the field's addition. *)
Lemma mul2_lxor a b :
  is_u8 a -> is_u8 b ->
  VDEV_RAIDZ_MUL_2 (Z.lxor a b) = Z.lxor (VDEV_RAIDZ_MUL_2 a) (VDEV_RAIDZ_MUL_2 b).
Proof.
  intros Ha Hb. apply Z.eqb_eq.
  apply (byte_forall2 (fun a b => VDEV_RAIDZ_MUL_2 (Z.lxor a b) =?
    Z.lxor (VDEV_RAIDZ_MUL_2 a) (VDEV_RAIDZ_MUL_2 b))); [vm_compute; reflexivity|done..].
Qed.

(** ** Iterated multiplication by two *)

Definition mulpow (e : nat) (a : Z) : Z := Nat.iter e VDEV_RAIDZ_MUL_2 a.

Lemma mulpow_S e a : mulpow (S e) a = VDEV_RAIDZ_MUL_2 (mulpow e a).
Proof. done. Qed.

Lemma mulpow_add e1 e2 a : mulpow (e1 + e2) a = mulpow e1 (mulpow e2 a).
Proof. unfold mulpow. by rewrite Nat.iter_add. Qed.

Lemma mulpow_u8 e a : is_u8 a -> is_u8 (mulpow e a).
Proof. intros Ha. destruct e as [|e]; [done|]. apply mul2_u8. Qed.

Lemma mulpow_lxor e a b :
  is_u8 a -> is_u8 b -> mulpow e (Z.lxor a b) = Z.lxor (mulpow e a) (mulpow e b).
Proof.
  intros Ha Hb. induction e as [|e IH]; [done|].
  rewrite !mulpow_S, IH.
  apply mul2_lxor; by apply mulpow_u8.
Qed.

Lemma mulpow_0 e : mulpow e 0 = 0.
Proof. induction e as [|e IH]; [done|]. by rewrite mulpow_S, IH. Qed.

(** The table of powers is generated by multiplication by two ... *)
Lemma pow2_table e : (e < 256)%nat -> vdev_raidz_pow2 !! e = Some (mulpow e 1).
Proof.
  intros He. assert ((fun e => mulpow e 1) <$> seq 0 256 = vdev_raidz_pow2) as <- by (vm_compute; reflexivity).
  rewrite list_lookup_fmap, lookup_seq_lt by done. done.
Qed.

(** ... and the table of logarithms inverts it. *)
Definition log2_check (a : Z) : bool :=
  match vdev_raidz_log2 !! Z.to_nat a with
  | Some l => (a =? 0) || ((0 <=? l) && (l <? 255) && (mulpow (Z.to_nat l) 1 =? a) &&
                           ((0 <? l) || (a =? 1)))
  | None => false
  end.

Lemma log2_check_ok : forallb log2_check (seqZ 0 256) = true.
Proof. vm_compute. reflexivity. Qed.

Lemma log2_table a :
  is_u8 a -> a <> 0 ->
  exists l, vdev_raidz_log2 !! Z.to_nat a = Some l /\ 0 <= l < 255 /\
    mulpow (Z.to_nat l) 1 = a /\ (0 < l \/ a = 1).
Proof.
  intros Ha Hne. pose proof (byte_forall _ log2_check_ok a Ha) as H. unfold log2_check in H.
  destruct (vdev_raidz_log2 !! Z.to_nat a) as [l|]; [|done]. exists l. split; [done|].
  rewrite (proj2 (Z.eqb_neq a 0)) in H by done. cbn [orb] in H.
  apply andb_true_iff in H as [H Hor]. bprop. split; [lia|]. split; [done|].
  apply orb_true_iff in Hor as [?|?]; bprop; [left|right]; lia.
Qed.

Lemma mulpow_255_1 : mulpow 255 1 = 1.
Proof. vm_compute. reflexivity. Qed.

(** Multiplication by two has order 255. *)
Lemma mulpow_255 a : is_u8 a -> mulpow 255 a = a.
Proof.
  intros Ha. destruct (decide (a = 0)) as [->|Hne]; [apply mulpow_0|].
  destruct (log2_table a Ha Hne) as (l & _ & _ & <- & _).
  rewrite <-mulpow_add, Nat.add_comm, mulpow_add. by rewrite mulpow_255_1.
Qed.

Lemma exp2_mulpow a e :
  is_u8 a -> 0 <= e <= 255 -> vdev_raidz_exp2 a e = Some (mulpow (Z.to_nat e) a).
Proof.
  intros Ha He. unfold vdev_raidz_exp2.
  destruct (Z.eqb_spec a 0) as [->|Hne]; [by rewrite mulpow_0|].
  destruct (log2_table a Ha Hne) as (l & -> & Hl & Hpow & Hor). cbn [mbind option_bind].
  rewrite Z.geb_leb, (proj2 (Z.leb_le _ _)) by lia.
  assert (((l >? 0) || (a =? 1)) = true) as ->.
  { apply orb_true_iff. destruct Hor; [left; apply Z.gtb_lt|right; apply Z.eqb_eq]; lia. }
  rewrite <-Hpow, <-mulpow_add.
  destruct (Z.gtb_spec (e + l) 255).
  - rewrite pow2_table by lia.
    replace (Z.to_nat e + Z.to_nat l)%nat with (Z.to_nat (e + l - 255) + 255)%nat by lia.
    by rewrite mulpow_add, mulpow_255_1.
  - rewrite pow2_table by lia. do 2 f_equal. lia.
Qed.

Lemma mulpow_1_check :
  forallb (fun e => (e =? 0) || (e =? 255) || negb (mulpow (Z.to_nat e) 1 =? 1)) (seqZ 0 256) = true.
Proof. vm_compute. reflexivity. Qed.

(** Sums of two powers: [2^e + 1] is itself a power of two, the one the table
    of logarithms names. *)
Lemma mulpow_plus_one e v :
  0 < e < 255 -> is_u8 v ->
  exists a l, vdev_raidz_pow2 !! Z.to_nat e = Some a /\ is_u8 (Z.lxor a 1) /\
    vdev_raidz_log2 !! Z.to_nat (Z.lxor a 1) = Some l /\ 0 <= l < 255 /\
    Z.lxor (mulpow (Z.to_nat e) v) v = mulpow (Z.to_nat l) v.
Proof.
  intros He Hv. assert (is_u8 (mulpow (Z.to_nat e) 1)) as Hu by (apply mulpow_u8; unfold is_u8; lia).
  assert (is_u8 (Z.lxor (mulpow (Z.to_nat e) 1) 1)) as Hu1 by (apply lxor_u8; [done|unfold is_u8; lia]).
  assert (Z.lxor (mulpow (Z.to_nat e) 1) 1 <> 0) as Hne.
  { intros E%Z.lxor_eq. pose proof (byte_forall _ mulpow_1_check e ltac:(unfold is_u8; lia)) as H.
    cbn beta in H. rewrite !(proj2 (Z.eqb_neq e _)) in H by lia. cbn [orb] in H. bprop. done. }
  destruct (log2_table _ Hu1 Hne) as (l & Hl & Hlr & Hpow & _).
  exists (mulpow (Z.to_nat e) 1), l. split; [apply pow2_table; lia|].
  split; [done|]. split; [done|]. split; [done|].
  destruct (decide (v = 0)) as [->|Hv0]; [by rewrite !mulpow_0|].
  destruct (log2_table v Hv Hv0) as (k & _ & _ & <- & _).
  rewrite <-!mulpow_add, !(Nat.add_comm _ (Z.to_nat k)), !mulpow_add, Hpow.
  rewrite mulpow_lxor; [done|done|unfold is_u8; lia].
Qed.

(** ** Eight bytes at once *)

Lemma double_bytes l : forall c,
  bytes l -> 0 <= c <= 1 ->
  Z.land (2 * le_combine l + c) (le_combine (replicate (length l) 0xfe)) =
  le_combine ((fun b => u8 (2 * b)) <$> l).
Proof.
  induction l as [|b t IH]; intros c Hb Hc; [apply Z.land_0_r|].
  unfold bytes in Hb. forall_inv. rewrite fmap_cons. cbn [le_combine length replicate].
  rewrite <-(IH ((2 * b + c) / 2 ^ 8)); [|done|unfold is_u8 in *; Z.div_mod_to_equations; lia].
  replace (2 * (b + 2 ^ 8 * le_combine t) + c) with
    ((2 * b + c) mod 2 ^ 8 + 2 ^ 8 * (2 * le_combine t + (2 * b + c) / 2 ^ 8))
    by (Z.div_mod_to_equations; lia).
  assert (is_u8 ((2 * b + c) mod 2 ^ 8)) by (by apply Z.mod_pos_bound).
  assert (Z.land ((2 * b + c) mod 2 ^ 8) 0xfe = u8 (2 * b)) as E.
  { pose proof (byte_forall (fun b => (Z.land ((2 * b + 0) mod 2 ^ 8) 0xfe =? u8 (2 * b)) &&
      (Z.land ((2 * b + 1) mod 2 ^ 8) 0xfe =? u8 (2 * b))) eq_refl b H) as Hx.
    cbn beta in Hx. bprop. assert (c = 0 \/ c = 1) as [->| ->] by lia; done. }
  apply Z.bits_inj'. intros i Hi.
  rewrite Z.land_spec, !testbit_cons; try done; [|by apply Z.mod_pos_bound].
  destruct (i <? 8); [by rewrite <-E, Z.land_spec|by rewrite Z.land_spec].
Qed.

Lemma land_u64_l x y : is_u64 y -> Z.land (u64 x) y = Z.land x y.
Proof.
  intros Hy. unfold u64. rewrite <-Z.land_ones, <-Z.land_assoc, (Z.land_comm (Z.ones 64)), Z.land_ones by done.
  by rewrite Z.mod_small by apply Hy.
Qed.

Definition mul2_byte_check (b : Z) : bool :=
  let h := Z.land b 0x80 / 128 in
  (Z.land b 0x80 =? 128 * h) && (0 <=? h) && (h <=? 1) &&
  (VDEV_RAIDZ_MUL_2 b =? Z.lxor (u8 (2 * b)) (Z.land (255 * h) 0x1d)).

Lemma mul2_byte_check_ok : forallb mul2_byte_check (seqZ 0 256) = true.
Proof. vm_compute. reflexivity. Qed.

Lemma zip_with_replicate {A B} (f : A -> A -> B) l x :
  zip_with f l (replicate (length l) x) = (fun a => f a x) <$> l.
Proof. induction l as [|a l IH]; [done|]. cbn. by rewrite IH. Qed.

(** The high bit of each byte, as a byte of 0 or 1. *)
Definition high_bits (l : list Z) : list Z := (fun b => Z.land b 0x80 / 128) <$> l.

Lemma mul2_byte_checks l : bytes l -> Forall (fun b => mul2_byte_check b = true) l.
Proof.
  intros Hb. eapply Forall_impl; [|exact Hb]. intros b Hx.
  by apply (byte_forall _ mul2_byte_check_ok).
Qed.

Lemma high_bits_scale k l : bytes l -> 0 <= k < 256 -> bytes (Z.mul k <$> high_bits l).
Proof.
  intros Hb Hk. unfold high_bits. apply Forall_fmap, Forall_fmap.
  eapply Forall_impl; [|exact (mul2_byte_checks l Hb)]. intros b Hx.
  unfold mul2_byte_check in Hx. bprop. unfold is_u8, compose. nia.
Qed.

Lemma bytes_land l m :
  bytes l -> is_u8 m ->
  Z.land (le_combine l) (le_combine (replicate (length l) m)) = le_combine ((fun b => Z.land b m) <$> l).
Proof.
  intros Hb Hm. rewrite (le_combine_bitwise Z.land andb), zip_with_replicate; try done.
  - intros. apply Z.land_spec.
  - intros. by apply land_u8.
  - by apply Forall_replicate.
  - by rewrite length_replicate.
Qed.

(** [(mask << 1) - (mask >> 7)] spreads the high bit over its byte. *)
Lemma spread_mask l :
  bytes l -> length l = 8%nat ->
  let mask := Z.land (le_combine l) 0x8080808080808080 in
  u64 (u64 (Z.shiftl mask 1) - Z.shiftr mask 7) = le_combine (Z.mul 255 <$> high_bits l).
Proof.
  intros Hb Hl mask.
  assert (mask = 128 * le_combine (high_bits l)) as ->.
  { subst mask. change 0x8080808080808080 with (le_combine (replicate 8 0x80)).
    rewrite <-Hl, bytes_land by done. rewrite <-le_combine_scale. unfold high_bits.
    rewrite <-list_fmap_compose. f_equal. apply list_fmap_ext. intros i b Hi.
    pose proof (mul2_byte_checks l Hb) as Hc. eapply Forall_lookup_1 in Hc; [|done].
    unfold mul2_byte_check in Hc. bprop. done. }
  rewrite le_combine_scale. set (h := le_combine (high_bits l)).
  rewrite Z.shiftl_mul_pow2, Z.shiftr_div_pow2 by done.
  change (2 ^ 7) with 128. rewrite (Z.mul_comm 128 h), Z.div_mul by done.
  unfold u64. rewrite Zminus_mod_idemp_l. change (2 ^ 1) with 2.
  replace (h * 128 * 2 - h) with (255 * h) by lia. subst h. rewrite <-le_combine_scale.
  apply Z.mod_small. pose proof (high_bits_scale 255 l Hb ltac:(lia)) as H.
  apply le_combine_range in H. unfold high_bits in H at 3. by rewrite !length_fmap, Hl in H.
Qed.

Lemma raidz_mul2_64_bytes l :
  bytes l -> length l = 8%nat ->
  raidz_mul2_64 (le_combine l) = le_combine (VDEV_RAIDZ_MUL_2 <$> l).
Proof.
  intros Hb Hl. unfold raidz_mul2_64. cbn zeta. rewrite spread_mask by done.
  change 0xfefefefefefefefe with (le_combine (replicate 8 0xfe)).
  change 0x1d1d1d1d1d1d1d1d with (le_combine (replicate 8 0x1d)).
  rewrite land_u64_l by (vm_compute; split; [discriminate|reflexivity]).
  rewrite Z.shiftl_mul_pow2, (Z.mul_comm _ (2 ^ 1)) by done. change (2 ^ 1) with 2.
  rewrite <-(Z.add_0_r (2 * le_combine l)), <-Hl, double_bytes by (done || lia).
  replace (length l) with (length (Z.mul 255 <$> high_bits l))
    by (unfold high_bits; by rewrite !length_fmap).
  rewrite bytes_land by (done || by apply high_bits_scale).
  rewrite (le_combine_bitwise Z.lxor xorb); try done.
  - f_equal. unfold high_bits. rewrite <-!list_fmap_compose.
    rewrite zip_with_fmap_l, zip_with_fmap_r, zip_with_diag.
    apply list_fmap_ext. intros i b Hi.
    pose proof (mul2_byte_checks l Hb) as Hc. eapply Forall_lookup_1 in Hc; [|done].
    unfold mul2_byte_check in Hc. bprop. symmetry. unfold compose. done.
  - intros. apply Z.lxor_spec.
  - intros. by apply lxor_u8.
  - apply Forall_fmap. eapply Forall_impl; [|exact Hb]. intros b _.
    unfold is_u8, compose, u8. by apply Z.mod_pos_bound.
  - apply Forall_fmap. eapply Forall_impl; [|exact (high_bits_scale 255 l Hb ltac:(lia))].
    intros b Hx. by apply land_u8.
  - unfold high_bits. by rewrite !length_fmap.
Qed.

(** ** Words as vectors of field elements *)

Definition wbytes (w : Z) : list Z := le_split 8 w.
Definition mulpow64 (e : nat) (w : Z) : Z := Nat.iter e raidz_mul2_64 w.

Lemma length_wbytes w : length (wbytes w) = 8%nat.
Proof. apply length_le_split. Qed.

Lemma u64_le_combine l : bytes l -> length l = 8%nat -> is_u64 (le_combine l).
Proof. intros Hb Hl. apply le_combine_range in Hb. by rewrite Hl in Hb. Qed.

Lemma le_combine_wbytes w : is_u64 w -> le_combine (wbytes w) = w.
Proof. intros Hw. by apply le_combine_split. Qed.

Lemma wbytes_le_combine l : bytes l -> length l = 8%nat -> wbytes (le_combine l) = l.
Proof. intros Hb Hl. unfold wbytes. rewrite <-Hl. by apply le_split_combine. Qed.

Lemma bytes_mulpow e l : bytes l -> bytes (mulpow e <$> l).
Proof.
  intros Hb. apply Forall_fmap. eapply Forall_impl; [|exact Hb]. intros b. apply mulpow_u8.
Qed.

Lemma mulpow64_bytes e w :
  is_u64 w -> mulpow64 e w = le_combine (mulpow e <$> wbytes w).
Proof.
  intros Hw. induction e as [|e IH].
  { change (mulpow 0) with (@id Z). rewrite list_fmap_id. symmetry. by apply le_combine_wbytes. }
  change (mulpow64 (S e) w) with (raidz_mul2_64 (mulpow64 e w)). rewrite IH.
  rewrite raidz_mul2_64_bytes.
  - by rewrite <-list_fmap_compose.
  - apply bytes_mulpow, bytes_le_split.
  - by rewrite length_fmap, length_wbytes.
Qed.

Lemma mulpow64_u64 e w : is_u64 w -> is_u64 (mulpow64 e w).
Proof.
  intros Hw. rewrite mulpow64_bytes by done. apply u64_le_combine.
  - apply bytes_mulpow, bytes_le_split.
  - by rewrite length_fmap, length_wbytes.
Qed.

Lemma lxor_u64 a b : is_u64 a -> is_u64 b -> is_u64 (Z.lxor a b).
Proof.
  intros Ha Hb. unfold is_u64 in *. rewrite <-(Z.mod_small a (2 ^ 64)), <-(Z.mod_small b (2 ^ 64)) by lia.
  rewrite <-!Z.land_ones by done.
  replace (Z.lxor _ _) with (Z.land (Z.lxor a b) (Z.ones 64)).
  - rewrite Z.land_ones by done. by apply Z.mod_pos_bound.
  - apply Z.bits_inj'. intros i _. rewrite !Z.land_spec, !Z.lxor_spec, !Z.land_spec.
    by destruct (Z.testbit a i), (Z.testbit b i), (Z.testbit (Z.ones 64) i).
Qed.

Lemma wbytes_lxor a b :
  is_u64 a -> is_u64 b -> wbytes (Z.lxor a b) = zip_with Z.lxor (wbytes a) (wbytes b).
Proof.
  intros Ha Hb. rewrite <-(le_combine_wbytes a), <-(le_combine_wbytes b) at 1 by done.
  rewrite (le_combine_bitwise Z.lxor xorb); try done; try apply bytes_le_split.
  - apply wbytes_le_combine; [|by rewrite length_zip_with, !length_wbytes].
    apply Forall_lookup. intros i x Hx. apply lookup_zip_with_Some in Hx as (y & z & -> & Hy & Hz).
    apply lxor_u8; (eapply Forall_lookup_1; [|eassumption]); apply bytes_le_split.
  - intros. apply Z.lxor_spec.
  - intros. by apply lxor_u8.
Qed.

Lemma mulpow_zip e l1 : forall l2, bytes l1 -> bytes l2 ->
  mulpow e <$> zip_with Z.lxor l1 l2 = zip_with Z.lxor (mulpow e <$> l1) (mulpow e <$> l2).
Proof.
  induction l1 as [|a l1 IH]; intros [|b l2] H1 H2; try done. unfold bytes in *. forall_inv.
  cbn [zip_with]. rewrite !fmap_cons. cbn [zip_with]. rewrite IH by done. f_equal.
  by apply mulpow_lxor.
Qed.

Lemma mulpow64_lxor e a b :
  is_u64 a -> is_u64 b -> mulpow64 e (Z.lxor a b) = Z.lxor (mulpow64 e a) (mulpow64 e b).
Proof.
  intros Ha Hb. rewrite !mulpow64_bytes by (done || by apply lxor_u64).
  rewrite (le_combine_bitwise Z.lxor xorb); try done.
  - rewrite wbytes_lxor, mulpow_zip by (done || apply bytes_le_split). done.
  - intros. apply Z.lxor_spec.
  - intros. by apply lxor_u8.
  - apply bytes_mulpow, bytes_le_split.
  - apply bytes_mulpow, bytes_le_split.
Qed.

Lemma mulpow64_add e1 e2 w : mulpow64 (e1 + e2) w = mulpow64 e1 (mulpow64 e2 w).
Proof. unfold mulpow64. by rewrite Nat.iter_add. Qed.

Lemma mulpow64_0 e : mulpow64 e 0 = 0.
Proof.
  induction e as [|e IH]; [done|]. change (mulpow64 (S e) 0) with (raidz_mul2_64 (mulpow64 e 0)).
  by rewrite IH.
Qed.

Lemma fmap_bytes_ext (f g : Z -> Z) l :
  bytes l -> (forall b, is_u8 b -> f b = g b) -> f <$> l = g <$> l.
Proof.
  intros Hb Hfg. apply list_fmap_ext. intros i x Hx. apply Hfg. by eapply Forall_lookup_1.
Qed.

Lemma mulpow64_255 w : is_u64 w -> mulpow64 255 w = w.
Proof.
  intros Hw. rewrite mulpow64_bytes by done.
  rewrite (fmap_bytes_ext _ id) by (apply bytes_le_split || apply mulpow_255).
  rewrite list_fmap_id. by apply le_combine_wbytes.
Qed.

(** [vdev_raidz_exp2] on every byte of a word (lines 468 to 470). *)
Definition exp2_bytes (w exp : Z) : option Z :=
  let* l := mapM (fun b => vdev_raidz_exp2 b exp) (wbytes w) in Some (le_combine l).

Lemma exp2_bytes_mulpow64 w e :
  is_u64 w -> 0 <= e <= 255 -> exp2_bytes w e = Some (mulpow64 (Z.to_nat e) w).
Proof.
  intros Hw He. unfold exp2_bytes. rewrite mulpow64_bytes by done.
  enough (forall l, bytes l -> mapM (fun b => vdev_raidz_exp2 b e) l = Some (mulpow (Z.to_nat e) <$> l)) as H
    by (rewrite H; [done|apply bytes_le_split]).
  induction 1 as [|b l Hb _ IH]; [done|]. cbn [mapM]. rewrite exp2_mulpow, IH by done. done.
Qed.

(** The coefficients of the two-column reconstruction (lines 533 to 538). *)
Lemma mulpow64_plus_one e w :
  0 < e < 255 -> is_u64 w ->
  exists a l, vdev_raidz_pow2 !! Z.to_nat e = Some a /\ is_u8 (Z.lxor a 1) /\
    vdev_raidz_log2 !! Z.to_nat (Z.lxor a 1) = Some l /\ 0 <= l < 255 /\
    Z.lxor (mulpow64 (Z.to_nat e) w) w = mulpow64 (Z.to_nat l) w.
Proof.
  intros He Hw. destruct (mulpow_plus_one e 0 He ltac:(unfold is_u8; lia)) as (a & l & Ha & Hu & Hl & Hlr & _).
  exists a, l. do 4 (split; [done|]).
  rewrite <-(le_combine_wbytes w) at 2 by done. rewrite !mulpow64_bytes by done.
  rewrite (le_combine_bitwise Z.lxor xorb); try done.
  - f_equal. rewrite zip_with_fmap_l, zip_with_diag. apply fmap_bytes_ext; [apply bytes_le_split|].
    intros b Hb. destruct (mulpow_plus_one e b He Hb) as (a' & l' & Ha' & _ & Hl' & _ & E).
    congruence.
  - intros. apply Z.lxor_spec.
  - intros. by apply lxor_u8.
  - apply bytes_mulpow, bytes_le_split.
  - apply bytes_le_split.
Qed.

(** ** Theorems *)

(** [vdev_raidz_exp2] multiplies by a power of two: for every byte and
    every exponent up to 255 it fails no assertion, stays inside its tables
    and returns the result of multiplying by two [exp] times. *)
Theorem vdev_raidz_exp2_correct (a exp : Z) (Ha : is_u8 a) (He : 0 <= exp <= 255) :
  vdev_raidz_exp2 a exp = Some (Nat.iter (Z.to_nat exp) VDEV_RAIDZ_MUL_2 a).
Proof. by apply exp2_mulpow. Qed.

Lemma vdev_raidz_exp2_correct_witness :
  vdev_raidz_exp2 0x80 3 = Some (Nat.iter (Z.to_nat 3) VDEV_RAIDZ_MUL_2 0x80) /\
  vdev_raidz_exp2 0x80 3 = Some 0x74.
Proof.
  split; [|vm_compute; reflexivity].
  apply vdev_raidz_exp2_correct; [unfold is_u8; lia|lia].
Defined.

(** The word-wide multiplication by two of the parity loops multiplies
    each of the eight bytes of the word by two in the field, independently of
    its neighbours. *)
Theorem raidz_mul2_64_bytewise (w : Z) (Hw : is_u64 w) :
  le_split 8 (raidz_mul2_64 w) = VDEV_RAIDZ_MUL_2 <$> le_split 8 w.
Proof.
  rewrite <-(le_combine_wbytes w Hw) at 1.
  rewrite raidz_mul2_64_bytes by (apply bytes_le_split || apply length_le_split).
  apply wbytes_le_combine; [|by rewrite length_fmap, length_le_split].
  apply (bytes_mulpow 1), bytes_le_split.
Qed.

Lemma raidz_mul2_64_bytewise_witness :
  le_split 8 (raidz_mul2_64 0x8001ff7f80c03310) = VDEV_RAIDZ_MUL_2 <$> le_split 8 0x8001ff7f80c03310.
Proof. apply raidz_mul2_64_bytewise. split; [discriminate|reflexivity]. Defined.
