(* ===== verification/Raidz.v ===== *)
(** * RAID-Z parity and reconstruction (src/src/lib/libzpool/vdev_raidz.c)

    The raidz map of an I/O, parity generation, and the reconstruction of one
    column from P, one column from Q, and two columns from P and Q.  A
    column's buffer [rc_data] is the list of its 64-bit words (little-endian);
    the code's [uint8_t] loops go through [to_bytes].  The buffers of the
    columns are disjoint pieces of [io_data] and of freshly allocated parity
    buffers, so each is kept in its column. *)
From Stdlib Require Import ZArith Lia.
From stdpp Require Import base numbers list option.
From S2P Require Import Prelude Gf256.

Record raidz_col := mk_col {
  rc_devidx : Z;
  rc_offset : Z;
  rc_size : Z;
  rc_data : list Z;
  rc_error : Z;
  rc_tried : bool;
  rc_skipped : bool
}.

Record raidz_map := mk_map {
  rm_cols : Z;
  rm_bigcols : Z;
  rm_asize : Z;
  rm_missingdata : Z;
  rm_missingparity : Z;
  rm_firstdatacol : Z;
  rm_col : list raidz_col
}.

Definition VDEV_RAIDZ_P : nat := 0.
Definition VDEV_RAIDZ_Q : nat := 1.
Definition VDEV_RAIDZ_MAXPARITY : Z := 2.

Definition with_data (d : list Z) (c : raidz_col) : raidz_col :=
  mk_col (rc_devidx c) (rc_offset c) (rc_size c) d (rc_error c) (rc_tried c) (rc_skipped c).
Definition with_size (s : Z) (c : raidz_col) : raidz_col :=
  mk_col (rc_devidx c) (rc_offset c) s (rc_data c) (rc_error c) (rc_tried c) (rc_skipped c).
Definition with_cols (rm : raidz_map) (l : list raidz_col) : raidz_map :=
  mk_map (rm_cols rm) (rm_bigcols rm) (rm_asize rm) (rm_missingdata rm) (rm_missingparity rm)
    (rm_firstdatacol rm) l.

(** [rm->rm_col[c].rc_data] as an lvalue. *)
Definition set_data (rm : raidz_map) (c : nat) (d : list Z) : raidz_map :=
  with_cols rm (alter (with_data d) c (rm_col rm)).
Definition set_size (rm : raidz_map) (c : nat) (s : Z) : raidz_map :=
  with_cols rm (alter (with_size s) c (rm_col rm)).

(** [rc_size / sizeof (uint64_t)] *)
Definition wcount (c : raidz_col) : nat := Z.to_nat (rc_size c / 8).

(** The data columns [rm_firstdatacol .. rm_cols - 1] in the order the loops
    visit them. *)
Definition data_cols (rm : raidz_map) : list nat :=
  seq (Z.to_nat (rm_firstdatacol rm)) (Z.to_nat (rm_cols rm) - Z.to_nat (rm_firstdatacol rm)).

(** ** Word loops *)

(** [for (i = 0; i < n; i++, dst++, src++)] with a body that stores [f] of the
    words at [dst] and [src] at [dst]. *)
Fixpoint for_words (f : Z -> Z -> Z) (n : nat) (dst src : list Z) : option (list Z) :=
  match n with
  | O => Some dst
  | S n =>
      match dst, src with
      | a :: dst, b :: src => let* r := for_words f n dst src in Some (f a b :: r)
      | _, _ => None
      end
  end.

(** [for (; i < n; i++, dst++)] entered with [i = skip], storing [g] of the
    word at [dst]. *)
Fixpoint for_rest (g : Z -> Z) (skip n : nat) (dst : list Z) : option (list Z) :=
  match n with
  | O => Some dst
  | S n =>
      match dst with
      | a :: dst =>
          match skip with
          | O => let* r := for_rest g O n dst in Some (g a :: r)
          | S skip => let* r := for_rest g skip n dst in Some (a :: r)
          end
      | [] => None
      end
  end.

Definition raidz_store (d s : Z) : Z := s.
Definition raidz_mul2_xor (d s : Z) : Z := Z.lxor (raidz_mul2_64 d) s.

(** ** Parity generation *)

(** One round of the column loop of [vdev_raidz_generate_parity_p]. *)
Definition parity_p_col (rm : raidz_map) (pcount : nat) (p : list Z) (c : nat) : option (list Z) :=
  let* col := rm_col rm !! c in
  let ccount := wcount col in
  if Z.of_nat c =? rm_firstdatacol rm then
    VERIFY (ccount =? pcount)%nat in for_words raidz_store ccount p (rc_data col)
  else
    VERIFY (ccount <=? pcount)%nat in for_words Z.lxor ccount p (rc_data col).

Definition vdev_raidz_generate_parity_p (rm : raidz_map) : option raidz_map :=
  let* pc := rm_col rm !! VDEV_RAIDZ_P in
  let* p := foldM (parity_p_col rm (wcount pc)) (rc_data pc) (data_cols rm) in
  Some (set_data rm VDEV_RAIDZ_P p).

(** One round of the column loop of [vdev_raidz_generate_parity_pq]; the loops
    over P and Q share their index and touch different buffers. *)
Definition parity_pq_col (rm : raidz_map) (pcount : nat) (pq : list Z * list Z) (c : nat) :
    option (list Z * list Z) :=
  let '(p, q) := pq in
  let* col := rm_col rm !! c in
  let ccount := wcount col in
  let src := rc_data col in
  if Z.of_nat c =? rm_firstdatacol rm then
    VERIFY ((ccount =? pcount) || (ccount =? 0))%nat in
    let* q := for_words raidz_store ccount q src in
    let* p := for_words raidz_store ccount p src in
    let* q := for_rest (fun _ => 0) ccount pcount q in
    let* p := for_rest (fun _ => 0) ccount pcount p in
    Some (p, q)
  else
    VERIFY (ccount <=? pcount)%nat in
    let* q := for_words raidz_mul2_xor ccount q src in
    let* p := for_words Z.lxor ccount p src in
    let* q := for_rest raidz_mul2_64 ccount pcount q in
    Some (p, q).

Definition vdev_raidz_generate_parity_pq (rm : raidz_map) : option raidz_map :=
  let* pc := rm_col rm !! VDEV_RAIDZ_P in
  let* qc := rm_col rm !! VDEV_RAIDZ_Q in
  VERIFY (rc_size pc =? rc_size qc) in
  let* (p, q) := foldM (parity_pq_col rm (wcount pc)) (rc_data pc, rc_data qc) (data_cols rm) in
  Some (set_data (set_data rm VDEV_RAIDZ_P p) VDEV_RAIDZ_Q q).

(** ** Reconstruction *)

Definition reconstruct_p_col (rm : raidz_map) (x xcount : nat) (dst : list Z) (c : nat) :
    option (list Z) :=
  let* col := rm_col rm !! c in
  if (c =? x)%nat then Some dst
  else for_words Z.lxor (wcount col `min` xcount) dst (rc_data col).

Definition vdev_raidz_reconstruct_p (rm : raidz_map) (x : nat) : option raidz_map :=
  let* xc := rm_col rm !! x in
  let* pc := rm_col rm !! VDEV_RAIDZ_P in
  let xcount := wcount xc in
  VERIFY (xcount <=? wcount pc)%nat in
  VERIFY (0 <? xcount)%nat in
  let* dst := for_words raidz_store xcount (rc_data xc) (rc_data pc) in
  let* dst := foldM (reconstruct_p_col rm x xcount) dst (data_cols rm) in
  Some (set_data rm x dst).

Definition reconstruct_q_col (rm : raidz_map) (x xcount : nat) (dst : list Z) (c : nat) :
    option (list Z) :=
  let* col := rm_col rm !! c in
  let ccount := if (c =? x)%nat then O else wcount col in
  let count := (ccount `min` xcount)%nat in
  if Z.of_nat c =? rm_firstdatacol rm then
    let* dst := for_words raidz_store count dst (rc_data col) in
    for_rest (fun _ => 0) count xcount dst
  else
    let* dst := for_words raidz_mul2_xor count dst (rc_data col) in
    for_rest raidz_mul2_64 count xcount dst.

(** The last loop: [*dst ^= *src], then [vdev_raidz_exp2] on its bytes. *)
Fixpoint for_words_exp2 (exp : Z) (n : nat) (dst src : list Z) : option (list Z) :=
  match n with
  | O => Some dst
  | S n =>
      match dst, src with
      | a :: dst, b :: src =>
          let* w := exp2_bytes (Z.lxor a b) exp in
          let* r := for_words_exp2 exp n dst src in
          Some (w :: r)
      | _, _ => None
      end
  end.

Definition vdev_raidz_reconstruct_q (rm : raidz_map) (x : nat) : option raidz_map :=
  let* xc := rm_col rm !! x in
  let* qc := rm_col rm !! VDEV_RAIDZ_Q in
  let xcount := wcount xc in
  VERIFY (xcount <=? wcount qc)%nat in
  let* dst := foldM (reconstruct_q_col rm x xcount) (rc_data xc) (data_cols rm) in
  let exp := 255 - (rm_cols rm - 1 - Z.of_nat x) in
  let* dst := for_words_exp2 exp xcount dst (rc_data qc) in
  Some (set_data rm x dst).

(** [uint8_t] views of word buffers. *)
Definition to_bytes (ws : list Z) : list Z := concat (wbytes <$> ws).
Fixpoint of_bytes (n : nat) (bs : list Z) : list Z :=
  match n with
  | O => []
  | S n => le_combine (take 8 bs) :: of_bytes n (drop 8 bs)
  end.

(** The byte loop of [vdev_raidz_reconstruct_pq] (lines 540 to 546); [ysize]
    counts down with [i]. *)
Fixpoint pq_loop (aexp bexp : Z) (xsize ysize : nat) (p q pxy qxy xd yd : list Z) :
    option (list Z * list Z) :=
  match xsize with
  | O => Some (xd, yd)
  | S xsize =>
      match p, q, pxy, qxy, xd with
      | p0 :: p, q0 :: q, pxy0 :: pxy, qxy0 :: qxy, _ :: xd =>
          let* ea := vdev_raidz_exp2 (Z.lxor p0 pxy0) aexp in
          let* eb := vdev_raidz_exp2 (Z.lxor q0 qxy0) bexp in
          let x := Z.lxor ea eb in
          match ysize with
          | O =>
              let* (xd, yd) := pq_loop aexp bexp xsize O p q pxy qxy xd yd in
              Some (x :: xd, yd)
          | S ysize =>
              match yd with
              | _ :: yd =>
                  let* (xd, yd) := pq_loop aexp bexp xsize ysize p q pxy qxy xd yd in
                  Some (x :: xd, Z.lxor (Z.lxor p0 pxy0) x :: yd)
              | [] => None
              end
          end
      | _, _, _, _, _ => None
      end
  end.

(** [pbuf] and [qbuf] are the buffers [zio_buf_alloc] returns, with whatever
    they hold. *)
Definition vdev_raidz_reconstruct_pq (pbuf qbuf : list Z) (rm : raidz_map) (x y : nat) :
    option raidz_map :=
  VERIFY (x <? y)%nat in
  VERIFY (rm_firstdatacol rm <=? Z.of_nat x) in
  VERIFY (Z.of_nat y <? rm_cols rm) in
  let* xc := rm_col rm !! x in
  let* yc := rm_col rm !! y in
  VERIFY (rc_size yc <=? rc_size xc) in
  let* pc := rm_col rm !! VDEV_RAIDZ_P in
  let* qc := rm_col rm !! VDEV_RAIDZ_Q in
  let pdata := rc_data pc in
  let qdata := rc_data qc in
  let xsize := rc_size xc in
  let ysize := rc_size yc in
  let rm1 := set_data (set_data rm VDEV_RAIDZ_P pbuf) VDEV_RAIDZ_Q qbuf in
  let rm1 := set_size (set_size rm1 x 0) y 0 in
  let* rm2 := vdev_raidz_generate_parity_pq rm1 in
  let rm2 := set_size (set_size rm2 x xsize) y ysize in
  let* pxyc := rm_col rm2 !! VDEV_RAIDZ_P in
  let* qxyc := rm_col rm2 !! VDEV_RAIDZ_Q in
  let* a := vdev_raidz_pow2 !! Z.to_nat (255 + Z.of_nat x - Z.of_nat y) in
  let* b := vdev_raidz_pow2 !! Z.to_nat (255 - (rm_cols rm - 1 - Z.of_nat x)) in
  let* la := vdev_raidz_log2 !! Z.to_nat (Z.lxor a 1) in
  let tmp := u8 (255 - la) in
  let* ea := vdev_raidz_exp2 a tmp in
  let* eb := vdev_raidz_exp2 b tmp in
  let* aexp := vdev_raidz_log2 !! Z.to_nat ea in
  let* bexp := vdev_raidz_log2 !! Z.to_nat eb in
  let* (xd, yd) := pq_loop aexp bexp (Z.to_nat xsize) (Z.to_nat ysize)
    (to_bytes pdata) (to_bytes qdata) (to_bytes (rc_data pxyc)) (to_bytes (rc_data qxyc))
    (to_bytes (rc_data xc)) (to_bytes (rc_data yc)) in
  let rm3 := set_data (set_data rm2 x (of_bytes (length (rc_data xc)) xd))
                      y (of_bytes (length (rc_data yc)) yd) in
  Some (set_data (set_data rm3 VDEV_RAIDZ_P pdata) VDEV_RAIDZ_Q qdata).

(** The choice [vdev_raidz_io_start] and [raidz_parity_verify] make. *)
Definition vdev_raidz_generate_parity (rm : raidz_map) : option raidz_map :=
  if rm_firstdatacol rm =? 1 then vdev_raidz_generate_parity_p rm
  else vdev_raidz_generate_parity_pq rm.
