(* ===== verification/RaidzSpec.v ===== *)
(** * RAID-Z: parity and reconstruction are inverse

    The reference definition of P and Q over the words of the data columns,
    that [vdev_raidz_generate_parity_p] and [_pq] compute it, and that each
    reconstruction restores the map whatever the lost columns hold. *)
From Stdlib Require Import ZArith Lia.
From stdpp Require Import base numbers list option.
From S2P Require Import Prelude Gf256 Raidz.

(** ** Reference parity *)

(** Word [i] of a column; short columns are full of zeroes. *)
Definition colw (c : raidz_col) (i : nat) : Z :=
  if (i <? wcount c)%nat then nth i (rc_data c) 0 else 0.
Definition colws (cols : list raidz_col) (i : nat) : list Z := (fun c => colw c i) <$> cols.

(** P = D_0 + ... + D_n-1 and Q = (...(D_0 * 2 + D_1) * 2 + ...) * 2 + D_n-1. *)
Definition pword (ws : list Z) : Z := foldl Z.lxor 0 ws.
Definition qword (ws : list Z) : Z := foldl (fun acc w => Z.lxor (raidz_mul2_64 acc) w) 0 ws.

Definition nparity (rm : raidz_map) : nat := Z.to_nat (rm_firstdatacol rm).
Definition data_columns (rm : raidz_map) : list raidz_col := drop (nparity rm) (rm_col rm).

(** ** Well-formed maps *)

Record col_wf (c : raidz_col) : Prop := {
  cw_size : 0 <= rc_size c;
  cw_mod : rc_size c mod 8 = 0;
  cw_len : length (rc_data c) = wcount c;
  cw_u64 : Forall is_u64 (rc_data c)
}.

Record map_wf (rm : raidz_map) : Prop := {
  mw_np : 1 <= rm_firstdatacol rm <= 2;
  mw_cols : rm_cols rm = Z.of_nat (length (rm_col rm));
  mw_data : rm_firstdatacol rm < rm_cols rm <= 255;
  mw_col : Forall col_wf (rm_col rm);
  mw_sizes : forall i j ci cj, (i <= j)%nat ->
    rm_col rm !! i = Some ci -> rm_col rm !! j = Some cj -> rc_size cj <= rc_size ci;
  mw_first : forall c0 c1, rm_col rm !! 0%nat = Some c0 ->
    rm_col rm !! nparity rm = Some c1 -> rc_size c0 = rc_size c1
}.

(** ** Loops, word by word *)

Lemma for_words_nth f n : forall dst src,
  (n <= length dst)%nat -> (n <= length src)%nat ->
  exists r, for_words f n dst src = Some r /\ length r = length dst /\
    forall i, nth i r 0 = if (i <? n)%nat then f (nth i dst 0) (nth i src 0) else nth i dst 0.
Proof.
  induction n as [|n IH]; intros dst src Hd Hs; [by exists dst|].
  destruct dst as [|a dst], src as [|b src]; simpl in Hd, Hs; try lia.
  destruct (IH dst src) as (r & Hr & Hl & Hn); [lia..|]. cbn [for_words]. rewrite Hr.
  eexists. split; [done|]. split; [simpl; lia|]. intros [|i]; [done|]. apply Hn.
Qed.

Lemma for_rest_nth g n : forall skip dst,
  (n <= length dst)%nat ->
  exists r, for_rest g skip n dst = Some r /\ length r = length dst /\
    forall i, nth i r 0 = if (skip <=? i)%nat && (i <? n)%nat then g (nth i dst 0) else nth i dst 0.
Proof.
  induction n as [|n IH]; intros skip dst Hd.
  { exists dst. split; [by destruct skip|]. split; [done|]. intros i.
    by rewrite andb_comm. }
  destruct dst as [|a dst]; simpl in Hd; [lia|]. cbn [for_rest].
  destruct skip as [|skip]; destruct (IH 0%nat dst) as (r & Hr & Hl & Hn); try lia.
  - rewrite Hr. eexists. split; [done|]. split; [simpl; lia|]. intros [|i]; [done|]. apply Hn.
  - clear r Hr Hl Hn. destruct (IH skip dst) as (r & Hr & Hl & Hn); [lia|].
    rewrite Hr. eexists. split; [done|]. split; [simpl; lia|]. intros [|i]; [done|]. apply Hn.
Qed.

Lemma nth_eq_list (l1 l2 : list Z) :
  length l1 = length l2 -> (forall i, (i < length l1)%nat -> nth i l1 0 = nth i l2 0) -> l1 = l2.
Proof. intros Hl Hn. apply (nth_ext _ _ 0 0); done. Qed.

(** ** Parity algebra *)

Lemma foldl_lxor_acc ws : forall a, foldl Z.lxor a ws = Z.lxor a (foldl Z.lxor 0 ws).
Proof.
  induction ws as [|w ws IH]; intros a; cbn [foldl]; [by rewrite Z.lxor_0_r|].
  rewrite IH, (IH (Z.lxor 0 w)), Z.lxor_0_l. by rewrite Z.lxor_assoc.
Qed.

Lemma pword_snoc ws w : pword (ws ++ [w]) = Z.lxor (pword ws) w.
Proof. unfold pword. by rewrite foldl_app. Qed.

Lemma qword_snoc ws w : qword (ws ++ [w]) = Z.lxor (raidz_mul2_64 (qword ws)) w.
Proof. unfold qword. by rewrite foldl_app. Qed.

(** What a column contributes to P and to Q. *)
Lemma pword_middle ws1 w ws2 : pword (ws1 ++ w :: ws2) = Z.lxor (pword (ws1 ++ 0 :: ws2)) w.
Proof.
  induction ws2 as [|v ws2 IH] using rev_ind.
  - by rewrite !pword_snoc, Z.lxor_0_r.
  - rewrite (app_comm_cons ws2 _ w), (app_comm_cons ws2 _ 0), !app_assoc, !pword_snoc, IH.
    rewrite !Z.lxor_assoc. f_equal. apply Z.lxor_comm.
Qed.

Lemma mul2_64_u64 w : is_u64 w -> is_u64 (raidz_mul2_64 w).
Proof. apply (mulpow64_u64 1). Qed.

Lemma qword_u64 ws : Forall is_u64 ws -> is_u64 (qword ws).
Proof.
  induction ws as [|w ws IH] using rev_ind; intros H; [done|].
  apply Forall_app in H as [H1 H2]. forall_inv. rewrite qword_snoc.
  apply lxor_u64; [|done]. by apply mul2_64_u64, IH.
Qed.

Lemma pword_u64 ws : Forall is_u64 ws -> is_u64 (pword ws).
Proof.
  induction ws as [|w ws IH] using rev_ind; intros H; [done|].
  apply Forall_app in H as [H1 H2]. forall_inv. rewrite pword_snoc. apply lxor_u64; auto.
Qed.

Lemma qword_middle ws1 w ws2 :
  Forall is_u64 ws1 -> is_u64 w -> Forall is_u64 ws2 ->
  qword (ws1 ++ w :: ws2) = Z.lxor (qword (ws1 ++ 0 :: ws2)) (mulpow64 (length ws2) w).
Proof.
  intros H1 Hw. induction ws2 as [|v ws2 IH] using rev_ind; intros H2.
  - rewrite !qword_snoc, Z.lxor_0_r. done.
  - apply Forall_app in H2 as [H2 _].
    rewrite (app_comm_cons ws2 _ w), (app_comm_cons ws2 _ 0), !app_assoc, !qword_snoc, IH by done.
    assert (Forall is_u64 (ws1 ++ 0 :: ws2)) as H0
      by (apply Forall_app; split; [done|]; constructor; [unfold is_u64; lia|done]).
    pose proof (mulpow64_lxor 1 (qword (ws1 ++ 0 :: ws2)) (mulpow64 (length ws2) w)
      (qword_u64 _ H0) (mulpow64_u64 _ _ Hw)) as Hlin.
    change (mulpow64 1) with raidz_mul2_64 in Hlin. rewrite Hlin.
    rewrite length_app, Nat.add_1_r.
    change (mulpow64 (S (length ws2)) w) with (raidz_mul2_64 (mulpow64 (length ws2) w)).
    rewrite !Z.lxor_assoc. f_equal. apply Z.lxor_comm.
Qed.

(** ** Generation computes the reference *)

Lemma data_cols_seq rm :
  map_wf rm -> data_cols rm = seq (nparity rm) (length (data_columns rm)).
Proof.
  intros [_ Hc _ _ _ _]. unfold data_cols, data_columns, nparity. rewrite length_drop, Hc.
  by rewrite Nat2Z.id.
Qed.

Lemma nparity_Z rm : map_wf rm -> rm_firstdatacol rm = Z.of_nat (nparity rm).
Proof. intros [H _ _ _ _ _]. unfold nparity. lia. Qed.

Lemma map_wf_col rm i c : map_wf rm -> rm_col rm !! i = Some c -> col_wf c.
Proof. intros Hwf Hi. eapply Forall_lookup_1; [exact (mw_col _ Hwf)|done]. Qed.

Lemma nth_u64 l i : Forall is_u64 l -> is_u64 (nth i l 0).
Proof.
  intros H. destruct (decide (i < length l)%nat).
  - by apply Forall_nth.
  - rewrite nth_overflow by lia. unfold is_u64; lia.
Qed.

Lemma colw_u64 c i : col_wf c -> is_u64 (colw c i).
Proof.
  intros [_ _ _ H]. unfold colw. destruct (_ <? _)%nat; [by apply nth_u64|unfold is_u64; lia].
Qed.

(** Columns whose words are 64-bit; a lost column is one whatever its buffer
    holds. *)
Definition col_u64 (c : raidz_col) : Prop := forall i, is_u64 (colw c i).

Lemma Forall_col_u64 cols : Forall col_wf cols -> Forall col_u64 cols.
Proof. intros H. eapply Forall_impl; [|exact H]. intros c Hc i. by apply colw_u64. Qed.

Lemma colws_u64 cols i : Forall col_u64 cols -> Forall is_u64 (colws cols i).
Proof. intros H. apply Forall_fmap. eapply Forall_impl; [|exact H]. intros c Hc. apply Hc. Qed.

(** A column that counts for at most [n] words: [wcount] is the length of the
    part of its buffer the loops read. *)
Definition col_fits (n : nat) (c : raidz_col) : Prop :=
  (wcount c <= length (rc_data c))%nat /\ (wcount c <= n)%nat.

Lemma take_snoc_lookup {A} (l : list A) n k x :
  l !! (n + k)%nat = Some x -> take (S k) (drop n l) = take k (drop n l) ++ [x].
Proof. intros H. apply take_S_r. by rewrite lookup_drop. Qed.

(** Running a column loop that maintains a relation between its state and the
    columns seen so far; the first column has a case of its own. *)
Lemma column_loop {S : Type} (f : S -> nat -> option S) (cols : list raidz_col) (np : nat)
    (I : list raidz_col -> S -> Prop) (s0 : S) :
  (forall c0, cols !! np = Some c0 -> exists s, f s0 np = Some s /\ I [c0] s) ->
  (forall k c s, (0 < k)%nat -> cols !! (np + k)%nat = Some c -> I (take k (drop np cols)) s ->
     exists s', f s (np + k)%nat = Some s' /\ I (take k (drop np cols) ++ [c]) s') ->
  (np < length cols)%nat ->
  exists s, foldM f s0 (seq np (length (drop np cols))) = Some s /\ I (drop np cols) s.
Proof.
  intros Hfirst Hnext Hlt.
  assert (forall k, (k < length cols - np)%nat ->
    exists s, foldM f s0 (seq np (Datatypes.S k)) = Some s /\ I (take (Datatypes.S k) (drop np cols)) s) as H.
  { induction k as [|k IH]; intros Hk.
    - destruct (lookup_lt_is_Some_2 cols np) as [c0 Hc0]; [lia|].
      destruct (Hfirst c0 Hc0) as (s & Hs & HI). cbn [seq foldM]. rewrite Hs. exists s.
      split; [done|]. by rewrite (take_snoc_lookup cols np 0 c0) by (by rewrite Nat.add_0_r).
    - destruct IH as (s & Hs & HI); [lia|].
      destruct (lookup_lt_is_Some_2 cols (np + Datatypes.S k)) as [c Hc]; [lia|].
      destruct (Hnext (Datatypes.S k) c s) as (s' & Hs' & HI'); [lia|done..|].
      exists s'. rewrite seq_S, foldM_app, Hs. cbn [mbind option_bind foldM]. rewrite Hs'.
      split; [done|]. by rewrite (take_snoc_lookup cols np (Datatypes.S k) c). }
  rewrite length_drop. destruct (length cols - np)%nat as [|k] eqn:E; [lia|].
  destruct (H k) as (s & Hs & HI); [lia|]. exists s. split; [done|].
  by rewrite take_ge in HI by (rewrite length_drop; lia).
Qed.

Lemma colws_snoc cols c i : colws (cols ++ [c]) i = colws cols i ++ [colw c i].
Proof. unfold colws. by rewrite fmap_app. Qed.

(** A buffer of [n] words whose words are given by [f]. *)
Definition is_words (n : nat) (f : nat -> Z) (l : list Z) : Prop :=
  length l = n /\ forall i, (i < n)%nat -> nth i l 0 = f i.

Lemma is_words_eq n f l1 l2 : is_words n f l1 -> is_words n f l2 -> l1 = l2.
Proof.
  intros [L1 H1] [L2 H2]. apply nth_eq_list; [congruence|]. intros i Hi.
  rewrite L1 in Hi. by rewrite H1, H2.
Qed.

(** The loop steps on buffers described that way: XOR with a column, the
    first column, and the Horner step of Q. *)
Lemma xor_words_step n f l c :
  is_words n f l -> (wcount c <= length (rc_data c))%nat ->
  exists r, for_words Z.lxor (wcount c `min` n) l (rc_data c) = Some r /\
    is_words n (fun i => Z.lxor (f i) (colw c i)) r.
Proof.
  intros [L H] Hw.
  destruct (for_words_nth Z.lxor (wcount c `min` n) l (rc_data c)) as (r & Hr & Hl & Hnth); [lia..|].
  exists r. split; [done|]. split; [lia|]. intros i Hi. rewrite Hnth, H by done. unfold colw.
  destruct (Nat.ltb_spec i (wcount c `min` n)), (Nat.ltb_spec i (wcount c)); try done; try lia.
  by rewrite Z.lxor_0_r.
Qed.

Lemma first_words_step n l c :
  length l = n -> (wcount c <= length (rc_data c))%nat ->
  exists l1 r, for_words raidz_store (wcount c `min` n) l (rc_data c) = Some l1 /\
    for_rest (fun _ => 0) (wcount c `min` n) n l1 = Some r /\ is_words n (colw c) r.
Proof.
  intros L Hw.
  destruct (for_words_nth raidz_store (wcount c `min` n) l (rc_data c)) as (l1 & H1 & Hl1 & Hn1); [lia..|].
  destruct (for_rest_nth (fun _ => 0) n (wcount c `min` n) l1) as (r & Hr & Hl & Hnth); [lia|].
  exists l1, r. split; [done|]. split; [done|]. split; [lia|]. intros i Hi.
  rewrite Hnth, Hn1. unfold colw, raidz_store.
  destruct (Nat.ltb_spec i (wcount c `min` n)), (Nat.leb_spec (wcount c `min` n) i),
    (Nat.ltb_spec i (wcount c)), (Nat.ltb_spec i n); simpl; done || lia.
Qed.

Lemma horner_words_step n f l c :
  is_words n f l -> (wcount c <= length (rc_data c))%nat ->
  exists l1 r, for_words raidz_mul2_xor (wcount c `min` n) l (rc_data c) = Some l1 /\
    for_rest raidz_mul2_64 (wcount c `min` n) n l1 = Some r /\
    is_words n (fun i => Z.lxor (raidz_mul2_64 (f i)) (colw c i)) r.
Proof.
  intros [L H] Hw.
  destruct (for_words_nth raidz_mul2_xor (wcount c `min` n) l (rc_data c)) as (l1 & H1 & Hl1 & Hn1); [lia..|].
  destruct (for_rest_nth raidz_mul2_64 n (wcount c `min` n) l1) as (r & Hr & Hl & Hnth); [lia|].
  exists l1, r. split; [done|]. split; [done|]. split; [lia|]. intros i Hi.
  rewrite Hnth, Hn1, H by done. unfold colw, raidz_mul2_xor.
  destruct (Nat.ltb_spec i (wcount c `min` n)), (Nat.leb_spec (wcount c `min` n) i),
    (Nat.ltb_spec i (wcount c)), (Nat.ltb_spec i n); simpl; try done; try lia.
  by rewrite Z.lxor_0_r.
Qed.

Lemma is_words_ext n f g l : (forall i, (i < n)%nat -> f i = g i) -> is_words n f l -> is_words n g l.
Proof. intros Hfg [L H]. split; [done|]. intros i Hi. by rewrite H, Hfg. Qed.

Definition p_words (cols : list raidz_col) (i : nat) : Z := pword (colws cols i).
Definition q_words (cols : list raidz_col) (i : nat) : Z := qword (colws cols i).

Lemma p_words_snoc cols c i : Z.lxor (p_words cols i) (colw c i) = p_words (cols ++ [c]) i.
Proof. unfold p_words. by rewrite colws_snoc, pword_snoc. Qed.
Lemma q_words_snoc cols c i :
  Z.lxor (raidz_mul2_64 (q_words cols i)) (colw c i) = q_words (cols ++ [c]) i.
Proof. unfold q_words. by rewrite colws_snoc, qword_snoc. Qed.
Lemma p_words_one c i : colw c i = p_words [c] i.
Proof. unfold p_words, pword, colws. simpl. by rewrite Z.lxor_0_l. Qed.
Lemma q_words_one c i : colw c i = q_words [c] i.
Proof. unfold q_words, qword, colws. simpl. done. Qed.

(** What the parity loops need to know of a map. *)
Record loop_wf (rm : raidz_map) (n : nat) : Prop := {
  lw_np : rm_firstdatacol rm = Z.of_nat (nparity rm);
  lw_cols : data_cols rm = seq (nparity rm) (length (data_columns rm));
  lw_some : (nparity rm < length (rm_col rm))%nat;
  lw_fits : forall k c, rm_col rm !! (nparity rm + k)%nat = Some c -> col_fits n c
}.

Lemma map_wf_loop rm pc :
  map_wf rm -> rm_col rm !! 0%nat = Some pc -> loop_wf rm (wcount pc).
Proof.
  intros Hwf Hpc. pose proof (mw_data _ Hwf). pose proof (mw_cols _ Hwf). pose proof (mw_np _ Hwf).
  split; [by apply nparity_Z|by apply data_cols_seq|unfold nparity; lia|].
  intros k c Hc. pose proof (map_wf_col _ _ _ Hwf Hc) as [_ _ Hl _]. split; [lia|].
  unfold wcount. apply Z2Nat.inj_le; [apply Z.div_pos; [eapply cw_size, map_wf_col|]; done..|].
  apply Z.div_le_mono; [lia|]. eapply (mw_sizes _ Hwf 0 (nparity rm + k)); [lia|done..].
Qed.

(** *** P *)

Lemma parity_p_loop rm n p0 :
  loop_wf rm n -> length p0 = n ->
  (forall c, rm_col rm !! nparity rm = Some c -> wcount c = n) ->
  exists p, foldM (parity_p_col rm n) p0 (data_cols rm) = Some p /\
    is_words n (p_words (data_columns rm)) p.
Proof.
  intros [Hnp Hcols Hsome Hfit] Hp0 Hfirst. rewrite Hcols. unfold data_columns.
  apply (column_loop _ _ _ (fun cols p => is_words n (p_words cols) p)); [| |done].
  - intros c0 Hc0. unfold parity_p_col. rewrite Hc0. cbn [mbind option_bind].
    rewrite Hnp, Z.eqb_refl. pose proof (Hfirst c0 Hc0) as Hn. rewrite Hn, Nat.eqb_refl.
    destruct (Hfit 0%nat c0) as [Hw Hwn]; [by rewrite Nat.add_0_r|].
    destruct (first_words_step n p0 c0) as (l1 & r & H1 & Hr & Hi); [done|done|].
    rewrite Hn, Nat.min_id in H1, Hr. exists l1. split; [done|].
    assert (for_rest (fun _ => 0) n n l1 = Some l1) as E.
    { destruct (for_words_nth raidz_store n p0 (rc_data c0)) as (l1' & H1' & Hl1' & _); [lia..|].
      replace l1' with l1 in * by congruence. clear -Hl1' Hp0. rewrite Hp0 in Hl1'. clear Hp0.
      revert l1 Hl1'. induction n as [|n IH]; intros [|a l]; try done. intros [= Hl].
      cbn [for_rest]. by rewrite IH. }
    rewrite E in Hr. injection Hr as ->. eapply is_words_ext; [|exact Hi]. intros. apply p_words_one.
  - intros k c p Hk Hc Hi. unfold parity_p_col. rewrite Hc. cbn [mbind option_bind].
    rewrite Hnp, (proj2 (Z.eqb_neq _ _)) by lia. destruct (Hfit k c Hc) as [Hw Hwn].
    rewrite (proj2 (Nat.leb_le _ _)) by lia.
    destruct (xor_words_step n _ p c Hi) as (r & Hr & Hri); [done|]. rewrite Nat.min_l in Hr by done.
    exists r. split; [done|]. eapply is_words_ext; [|exact Hri]. intros. apply p_words_snoc.
Qed.

(** *** P and Q *)

Lemma parity_pq_loop rm n p0 q0 :
  loop_wf rm n -> length p0 = n -> length q0 = n ->
  (forall c, rm_col rm !! nparity rm = Some c -> wcount c = n \/ wcount c = 0%nat) ->
  exists p q, foldM (parity_pq_col rm n) (p0, q0) (data_cols rm) = Some (p, q) /\
    is_words n (p_words (data_columns rm)) p /\ is_words n (q_words (data_columns rm)) q.
Proof.
  intros [Hnp Hcols Hsome Hfit] Hp0 Hq0 Hfirst. rewrite Hcols. unfold data_columns.
  destruct (column_loop (parity_pq_col rm n) (rm_col rm) (nparity rm)
    (fun cols pq => is_words n (p_words cols) (fst pq) /\ is_words n (q_words cols) (snd pq))
    (p0, q0)) as ([p q] & Hf & Hp & Hq); [| |done|by exists p, q].
  - intros c0 Hc0. unfold parity_pq_col. rewrite Hc0. cbn [mbind option_bind].
    rewrite Hnp, Z.eqb_refl.
    assert (((wcount c0 =? n) || (wcount c0 =? 0))%nat = true) as ->.
    { apply orb_true_iff. rewrite !Nat.eqb_eq. auto. }
    pose proof (Hfit 0%nat c0 ltac:(by rewrite Nat.add_0_r)) as Hf0.
    destruct Hf0 as [Hw0 Hwn0].
    destruct (first_words_step n q0 c0) as (q1 & q & H1 & Hq & Hqi); [done..|].
    destruct (first_words_step n p0 c0) as (p1 & p & H2 & Hp & Hpi); [done..|].
    rewrite Nat.min_l in H1, Hq, H2, Hp by done.
    rewrite H1. cbn [mbind option_bind]. rewrite H2. cbn [mbind option_bind].
    rewrite Hq. cbn [mbind option_bind]. rewrite Hp. cbn [mbind option_bind].
    eexists. split; [done|]. split; cbn [fst snd].
    + eapply is_words_ext; [|exact Hpi]. intros. apply p_words_one.
    + eapply is_words_ext; [|exact Hqi]. intros. apply q_words_one.
  - intros k c [p q] Hk Hc [Hpi Hqi]. cbn [fst snd] in *. unfold parity_pq_col. rewrite Hc.
    cbn [mbind option_bind]. rewrite Hnp, (proj2 (Z.eqb_neq _ _)) by lia.
    pose proof (Hfit k c Hc) as [Hfc Hfn]. rewrite (proj2 (Nat.leb_le _ _)) by done.
    destruct (horner_words_step n _ q c Hqi Hfc) as (q1 & q' & H1 & Hq' & Hqi').
    destruct (xor_words_step n _ p c Hpi Hfc) as (p' & H2 & Hpi').
    rewrite Nat.min_l in H1, Hq', H2 by done.
    rewrite H1. cbn [mbind option_bind]. rewrite H2. cbn [mbind option_bind].
    rewrite Hq'. cbn [mbind option_bind]. eexists. split; [done|]. split; cbn [fst snd].
    + eapply is_words_ext; [|exact Hpi']. intros. apply p_words_snoc.
    + eapply is_words_ext; [|exact Hqi']. intros. apply q_words_snoc.
Qed.

(** ** Replacing a column *)

Lemma rm_col_set_data rm c d : rm_col (set_data rm c d) = alter (with_data d) c (rm_col rm).
Proof. done. Qed.
Lemma rm_col_set_size rm c z : rm_col (set_size rm c z) = alter (with_size z) c (rm_col rm).
Proof. done. Qed.
Lemma nparity_set_data rm c d : nparity (set_data rm c d) = nparity rm.
Proof. done. Qed.
Lemma nparity_set_size rm c z : nparity (set_size rm c z) = nparity rm.
Proof. done. Qed.
Lemma data_cols_set_data rm c d : data_cols (set_data rm c d) = data_cols rm.
Proof. done. Qed.
Lemma data_cols_set_size rm c z : data_cols (set_size rm c z) = data_cols rm.
Proof. done. Qed.
Lemma wcount_with_data d c : wcount (with_data d c) = wcount c.
Proof. done. Qed.

Lemma alter_id {A} (f : A -> A) (l : list A) i x : l !! i = Some x -> f x = x -> alter f i l = l.
Proof.
  intros Hx Hf. apply list_eq. intros j. destruct (decide (i = j)) as [<-|Hne].
  - by rewrite list_lookup_alter_eq, Hx; simpl; rewrite Hf.
  - by rewrite list_lookup_alter_ne.
Qed.

Lemma set_data_id rm c col : rm_col rm !! c = Some col -> set_data rm c (rc_data col) = rm.
Proof.
  intros H. unfold set_data, with_cols. destruct rm as [? ? ? ? ? ? l]. cbn in *. f_equal.
  eapply alter_id; [done|]. by destruct col.
Qed.

Lemma set_data_twice rm c d1 d2 : set_data (set_data rm c d1) c d2 = set_data rm c d2.
Proof.
  unfold set_data, with_cols. cbn. f_equal. by rewrite list_alter_alter_eq.
Qed.

Lemma set_data_comm rm c1 c2 d1 d2 :
  c1 <> c2 -> set_data (set_data rm c1 d1) c2 d2 = set_data (set_data rm c2 d2) c1 d1.
Proof.
  intros H. unfold set_data, with_cols. cbn. f_equal. by apply list_alter_alter_ne, not_eq_sym.
Qed.

(** The columns from [np] on, around column [x]. *)
Lemma drop_alter_split {A} (f : A -> A) (l : list A) np x c :
  (np <= x)%nat -> l !! x = Some c ->
  drop np (alter f x l) = take (x - np) (drop np l) ++ f c :: drop (S x) l.
Proof.
  intros Hle Hx. rewrite <-(take_drop_middle l x c Hx) at 1.
  assert (length (take x l) = x) as Hl
    by (apply length_take_le, Nat.lt_le_incl; by eapply lookup_lt_Some).
  rewrite alter_app_r_alt, Hl, Nat.sub_diag by lia. cbn [alter list_alter].
  rewrite drop_app_le by lia. f_equal. symmetry. rewrite take_drop_commute. do 2 f_equal. lia.
Qed.

Lemma drop_split {A} (l : list A) np x c :
  (np <= x)%nat -> l !! x = Some c ->
  drop np l = take (x - np) (drop np l) ++ c :: drop (S x) l.
Proof.
  intros Hle Hx. pose proof (drop_alter_split id l np x c Hle Hx) as H.
  by rewrite (alter_id id l x c) in H.
Qed.

(** ** Maps whose parity columns hold the reference parity *)

Definition parity_p_ok (rm : raidz_map) : Prop :=
  exists pc, rm_col rm !! VDEV_RAIDZ_P = Some pc /\
    is_words (wcount pc) (p_words (data_columns rm)) (rc_data pc).
Definition parity_q_ok (rm : raidz_map) : Prop :=
  exists qc, rm_col rm !! VDEV_RAIDZ_Q = Some qc /\
    is_words (wcount qc) (q_words (data_columns rm)) (rc_data qc).

Lemma is_words_u64 n f l : is_words n f l -> (forall i, is_u64 (f i)) -> Forall is_u64 l.
Proof.
  intros [L H] Hf. apply Forall_lookup_2. intros i x Hi.
  pose proof (lookup_lt_Some _ _ _ Hi). rewrite <-(nth_lookup_Some l i 0 x Hi), H by lia. done.
Qed.

Lemma col_wf_with_data c d :
  col_wf c -> length d = wcount c -> Forall is_u64 d -> col_wf (with_data d c).
Proof. intros [H1 H2 H3 H4] Hl Hu. by split. Qed.

Lemma map_wf_set_data rm x c d :
  map_wf rm -> rm_col rm !! x = Some c -> length d = wcount c -> Forall is_u64 d ->
  map_wf (set_data rm x d).
Proof.
  intros Hwf Hx Hl Hu.
  assert (forall i ci, rm_col (set_data rm x d) !! i = Some ci ->
    exists ci', rm_col rm !! i = Some ci' /\ rc_size ci = rc_size ci') as Hsz.
  { intros i ci. rewrite rm_col_set_data, list_lookup_alter. case_decide as E; [|eauto].
    subst i. destruct (rm_col rm !! x) as [ci'|] eqn:E2; [|done]. intros [= <-]. by exists ci'. }
  destruct Hwf as [H1 H2 H3 H4 H5 H6]. split; try done.
  - rewrite rm_col_set_data, length_alter. done.
  - rewrite rm_col_set_data. apply Forall_alter; [done|]. intros c' Hc' Hw.
    replace c' with c in * by congruence. by apply col_wf_with_data.
  - intros i j ci cj Hij Hi Hj. destruct (Hsz _ _ Hi) as (ci' & Hi' & ->).
    destruct (Hsz _ _ Hj) as (cj' & Hj' & ->). eauto.
  - intros c0 c1 Hc0 Hc1. destruct (Hsz _ _ Hc0) as (c0' & Hc0' & ->).
    destruct (Hsz _ _ Hc1) as (c1' & Hc1' & ->). eauto.
Qed.

Lemma data_columns_set_parity rm c d :
  (c < nparity rm)%nat -> data_columns (set_data rm c d) = data_columns rm.
Proof.
  intros H. unfold data_columns. rewrite nparity_set_data, rm_col_set_data. by apply drop_alter_lt.
Qed.

Lemma data_columns_u64 rm : map_wf rm -> Forall col_u64 (data_columns rm).
Proof. intros H. apply Forall_drop, Forall_col_u64, mw_col, H. Qed.

Lemma p_words_u64 cols i : Forall col_u64 cols -> is_u64 (p_words cols i).
Proof. intros H. by apply pword_u64, colws_u64. Qed.
Lemma q_words_u64 cols i : Forall col_u64 cols -> is_u64 (q_words cols i).
Proof. intros H. by apply qword_u64, colws_u64. Qed.

Lemma map_wf_lookup rm x : map_wf rm -> Z.of_nat x < rm_cols rm -> exists c, rm_col rm !! x = Some c.
Proof. intros Hwf H. apply lookup_lt_is_Some. rewrite (mw_cols _ Hwf) in H. lia. Qed.

Lemma lookup_set_data_eq rm x d c :
  rm_col rm !! x = Some c -> rm_col (set_data rm x d) !! x = Some (with_data d c).
Proof. intros H. by rewrite rm_col_set_data, list_lookup_alter_eq, H. Qed.
Lemma lookup_set_data_ne rm x y d :
  x <> y -> rm_col (set_data rm x d) !! y = rm_col rm !! y.
Proof. intros H. by rewrite rm_col_set_data, list_lookup_alter_ne. Qed.

Lemma generate_p_ok rm :
  map_wf rm -> exists p, vdev_raidz_generate_parity_p rm = Some (set_data rm VDEV_RAIDZ_P p) /\
    map_wf (set_data rm VDEV_RAIDZ_P p) /\ parity_p_ok (set_data rm VDEV_RAIDZ_P p).
Proof.
  intros Hwf. pose proof (mw_data _ Hwf). pose proof (mw_np _ Hwf).
  destruct (map_wf_lookup rm 0 Hwf) as [pc Hpc]; [lia|].
  pose proof (map_wf_col _ _ _ Hwf Hpc) as Hpw.
  destruct (parity_p_loop rm (wcount pc) (rc_data pc)) as (p & Hp & Hi).
  { by apply map_wf_loop. } { apply Hpw. }
  { intros c Hc. unfold wcount. by rewrite (mw_first _ Hwf _ _ Hpc Hc). }
  exists p. unfold vdev_raidz_generate_parity_p, VDEV_RAIDZ_P. rewrite Hpc. cbn [mbind option_bind].
  rewrite Hp. split; [done|].
  pose proof (is_words_u64 _ _ _ Hi (fun i => p_words_u64 _ i (data_columns_u64 _ Hwf))) as Hu.
  split; [eapply map_wf_set_data; [done..|apply Hi|done]|].
  exists (with_data p pc). split; [by apply lookup_set_data_eq|].
  rewrite data_columns_set_parity by (unfold nparity; lia). done.
Qed.

Lemma generate_pq_ok rm :
  map_wf rm -> rm_firstdatacol rm = 2 ->
  exists p q, let rm' := set_data (set_data rm VDEV_RAIDZ_P p) VDEV_RAIDZ_Q q in
    vdev_raidz_generate_parity_pq rm = Some rm' /\
    map_wf rm' /\ parity_p_ok rm' /\ parity_q_ok rm'.
Proof.
  intros Hwf Hnp. pose proof (mw_data _ Hwf).
  destruct (map_wf_lookup rm 0 Hwf) as [pc Hpc]; [lia|].
  destruct (map_wf_lookup rm 1 Hwf) as [qc Hqc]; [lia|].
  destruct (map_wf_lookup rm 2 Hwf) as [dc Hdc]; [lia|].
  pose proof (map_wf_col _ _ _ Hwf Hpc) as Hpw. pose proof (map_wf_col _ _ _ Hwf Hqc) as Hqw.
  assert (nparity rm = 2%nat) as Hnp2 by (unfold nparity; lia).
  assert (rc_size pc = rc_size dc) as Hs1 by (eapply mw_first; [done..|by rewrite Hnp2]).
  assert (rc_size pc = rc_size qc) as Hs.
  { pose proof (mw_sizes _ Hwf 0 1 _ _ ltac:(lia) Hpc Hqc).
    pose proof (mw_sizes _ Hwf 1 2 _ _ ltac:(lia) Hqc Hdc). lia. }
  assert (wcount pc = wcount qc) as Hwc by (unfold wcount; by rewrite Hs).
  destruct (parity_pq_loop rm (wcount pc) (rc_data pc) (rc_data qc)) as (p & q & Hpq & Hp & Hq).
  { by apply map_wf_loop. } { apply Hpw. } { rewrite Hwc. apply Hqw. }
  { intros c Hc. left. unfold wcount. by rewrite (mw_first _ Hwf _ _ Hpc Hc). }
  exists p, q. cbn zeta. unfold vdev_raidz_generate_parity_pq, VDEV_RAIDZ_P, VDEV_RAIDZ_Q.
  rewrite Hpc, Hqc. cbn [mbind option_bind]. rewrite Hs, Z.eqb_refl, Hpq. cbn [mbind option_bind].
  split; [done|].
  pose proof (is_words_u64 _ _ _ Hp (fun i => p_words_u64 _ i (data_columns_u64 _ Hwf))) as Hpu.
  pose proof (is_words_u64 _ _ _ Hq (fun i => q_words_u64 _ i (data_columns_u64 _ Hwf))) as Hqu.
  assert (map_wf (set_data rm 0 p)) as Hw1 by (eapply map_wf_set_data; [done..|apply Hp|done]).
  assert (rm_col (set_data rm 0 p) !! 1%nat = Some qc) as Hqc' by (by rewrite lookup_set_data_ne).
  split; [eapply map_wf_set_data; [done|done|rewrite <-Hwc; apply Hq|done]|].
  assert (data_columns (set_data (set_data rm 0 p) 1 q) = data_columns rm) as Hd
    by (rewrite !data_columns_set_parity by (rewrite ?nparity_set_data; lia); done).
  split.
  - exists (with_data p pc). rewrite Hd. split; [|done].
    rewrite lookup_set_data_ne by done. by apply lookup_set_data_eq.
  - exists (with_data q qc). rewrite Hd. split; [by apply lookup_set_data_eq|].
    rewrite wcount_with_data, <-Hwc. done.
Qed.

(** ** One lost column *)

(** The columns with column [x] lost: its buffer holds [junk] and it counts
    for nothing. *)
Definition lost (junk : list Z) (c : raidz_col) : raidz_col := with_size 0 (with_data junk c).
Definition lost_col (x : nat) (junk : list Z) (l : list raidz_col) : list raidz_col :=
  alter (lost junk) x l.

Lemma wcount_lost junk c : wcount (lost junk c) = 0%nat.
Proof. done. Qed.
Lemma colw_lost junk c i : colw (lost junk c) i = 0.
Proof. unfold colw. by rewrite wcount_lost. Qed.

Lemma lost_u64 x junk l : Forall col_u64 l -> Forall col_u64 (lost_col x junk l).
Proof.
  intros H. apply Forall_alter; [done|]. intros c _ _ i. rewrite colw_lost. unfold is_u64. lia.
Qed.

Lemma lost_lookup x junk l c col :
  lost_col x junk l !! c = Some col ->
  (c = x /\ exists xc, l !! x = Some xc /\ col = lost junk xc) \/ (c <> x /\ l !! c = Some col).
Proof.
  unfold lost_col. rewrite list_lookup_alter. case_decide as E; [|eauto].
  subst c. destruct (l !! x) as [xc|] eqn:Hx; [|done]. intros [= <-]. left. eauto.
Qed.

Lemma colws_app l1 l2 i : colws (l1 ++ l2) i = colws l1 i ++ colws l2 i.
Proof. unfold colws. apply fmap_app. Qed.
Lemma colws_cons c l i : colws (c :: l) i = colw c i :: colws l i.
Proof. done. Qed.

Lemma p_words_lost np x junk l xc i :
  (np <= x)%nat -> l !! x = Some xc ->
  p_words (drop np l) i = Z.lxor (p_words (drop np (lost_col x junk l)) i) (colw xc i).
Proof.
  intros Hle Hx. unfold p_words, lost_col. rewrite (drop_alter_split _ l np x xc) by done.
  rewrite (drop_split l np x xc) at 1 by done. rewrite !colws_app, !colws_cons, colw_lost.
  apply pword_middle.
Qed.

Lemma q_words_lost np x junk l xc i :
  (np <= x)%nat -> l !! x = Some xc -> Forall col_u64 l ->
  q_words (drop np l) i =
  Z.lxor (q_words (drop np (lost_col x junk l)) i) (mulpow64 (length l - 1 - x) (colw xc i)).
Proof.
  intros Hle Hx Hwf. unfold q_words, lost_col. rewrite (drop_alter_split _ l np x xc) by done.
  rewrite (drop_split l np x xc) at 1 by done. rewrite !colws_app, !colws_cons, colw_lost.
  rewrite qword_middle.
  - do 2 f_equal. unfold colws. rewrite length_fmap, length_drop. lia.
  - by apply colws_u64, Forall_take, Forall_drop.
  - by eapply (Forall_lookup_1 col_u64).
  - by apply colws_u64, Forall_drop.
Qed.

(** A data column of a well-formed map is no longer than P. *)
Lemma wcount_le rm i j ci cj :
  map_wf rm -> (i <= j)%nat -> rm_col rm !! i = Some ci -> rm_col rm !! j = Some cj ->
  (wcount cj <= wcount ci)%nat.
Proof.
  intros Hwf Hij Hi Hj. unfold wcount. apply Z2Nat.inj_le.
  1,2: apply Z.div_pos; [eapply cw_size, map_wf_col; done|done].
  apply Z.div_le_mono; [lia|]. eapply (mw_sizes _ Hwf i j); done.
Qed.

Lemma is_words_col xc : col_wf xc -> is_words (wcount xc) (colw xc) (rc_data xc).
Proof.
  intros [_ _ Hl _]. split; [done|]. intros i Hi. unfold colw.
  by rewrite (proj2 (Nat.ltb_lt _ _)).
Qed.

Lemma is_words_for_words f n g l c :
  length l = n -> is_words (wcount c) g (rc_data c) -> (n <= wcount c)%nat ->
  exists r, for_words f n l (rc_data c) = Some r /\ is_words n (fun i => f (nth i l 0) (g i)) r.
Proof.
  intros L [Lc H] Hle.
  destruct (for_words_nth f n l (rc_data c)) as (r & Hr & Hl & Hnth); [lia..|].
  exists r. split; [done|]. split; [lia|]. intros i Hi. rewrite Hnth, (proj2 (Nat.ltb_lt _ _)) by done.
  by rewrite H by lia.
Qed.

Lemma for_words_exp2_nth e n : forall dst src,
  (n <= length dst)%nat -> (n <= length src)%nat -> Forall is_u64 dst -> Forall is_u64 src ->
  0 <= e <= 255 ->
  exists r, for_words_exp2 e n dst src = Some r /\ length r = length dst /\
    forall i, (i < n)%nat -> nth i r 0 = mulpow64 (Z.to_nat e) (Z.lxor (nth i dst 0) (nth i src 0)).
Proof.
  induction n as [|n IH]; intros dst src Hd Hs Fd Fs He; [exists dst; repeat split; intros; lia|].
  destruct dst as [|a dst], src as [|b src]; simpl in Hd, Hs; try lia. forall_inv.
  destruct (IH dst src) as (r & Hr & Hl & Hn); [lia..|done|done|done|]. cbn [for_words_exp2].
  rewrite exp2_bytes_mulpow64 by (done || by apply lxor_u64). cbn [mbind option_bind]. rewrite Hr.
  eexists. split; [done|]. split; [simpl; lia|]. intros [|i] Hi; [done|]. apply Hn. lia.
Qed.

Section one_column.
Context (rm : raidz_map) (x : nat) (xc : raidz_col) (junk : list Z).
Context (Hwf : map_wf rm) (Hx : (nparity rm <= x)%nat) (Hxc : rm_col rm !! x = Some xc).
Context (Hjunk : length junk = wcount xc).

#[local] Abbreviation rm' := (set_data rm x junk).
#[local] Abbreviation cols0 := (lost_col x junk (rm_col rm)).

Lemma lost_data_cols : data_cols rm' = seq (nparity rm) (length (drop (nparity rm) cols0)).
Proof using Hwf Hx Hxc Hjunk.
  rewrite data_cols_set_data, data_cols_seq by done. unfold data_columns, lost_col.
  by rewrite !length_drop, length_alter.
Qed.

Lemma lost_loop_lookup c col :
  cols0 !! c = Some col ->
  exists col', rm_col rm' !! c = Some col' /\ rc_data col' = rc_data col /\
    (wcount col <= length (rc_data col))%nat /\
    wcount col = (if (c =? x)%nat then 0 else wcount col')%nat.
Proof using Hwf Hx Hxc Hjunk.
  intros [[-> (xc' & Hxc' & ->)]|[Hne Hc]]%lost_lookup.
  - replace xc' with xc in * by congruence. exists (with_data junk xc).
    rewrite (lookup_set_data_eq _ _ _ _ Hxc), Nat.eqb_refl.
    split; [done|]. split; [done|]. rewrite wcount_lost. split; [lia|done].
  - exists col. rewrite lookup_set_data_ne, (proj2 (Nat.eqb_neq _ _)) by done.
    pose proof (map_wf_col _ _ _ Hwf Hc) as [_ _ Hl _].
    split; [done|]. split; [done|]. split; [lia|done].
Qed.

Lemma lost_some : (nparity rm < length cols0)%nat.
Proof using Hwf Hx Hxc Hjunk.
  unfold lost_col. rewrite length_alter. apply lookup_lt_Some in Hxc. lia.
Qed.

Lemma reconstruct_p_loop n f dst :
  is_words n f dst ->
  exists r, foldM (reconstruct_p_col rm' x n) dst (data_cols rm') = Some r /\
    is_words n (fun i => Z.lxor (f i) (p_words (drop (nparity rm) cols0) i)) r.
Proof using Hwf Hx Hxc Hjunk.
  intros Hdst. rewrite lost_data_cols.
  assert (forall c col d cols, cols0 !! c = Some col ->
    is_words n (fun i => Z.lxor (f i) (p_words cols i)) d ->
    exists d', reconstruct_p_col rm' x n d c = Some d' /\
      is_words n (fun i => Z.lxor (f i) (p_words (cols ++ [col]) i)) d') as Hstep.
  { intros c col d cols Hc Hd. destruct (lost_loop_lookup c col Hc) as (col' & Hc' & Hdat & Hlen & Hw).
    unfold reconstruct_p_col. rewrite Hc'. cbn [mbind option_bind].
    destruct (xor_words_step n _ d col Hd Hlen) as (r & Hr & Hi).
    exists r. split.
    - destruct (c =? x)%nat; rewrite Hw in Hr; [by destruct n|by rewrite Hdat].
    - eapply is_words_ext; [|exact Hi]. intros i _. cbn beta.
      by rewrite Z.lxor_assoc, p_words_snoc. }
  apply (column_loop (reconstruct_p_col rm' x n) cols0 (nparity rm)
    (fun cols d => is_words n (fun i => Z.lxor (f i) (p_words cols i)) d)).
  - intros c0 Hc0. apply (Hstep _ _ _ [] Hc0). eapply is_words_ext; [|exact Hdst].
    intros i _. unfold p_words, pword. cbn. by rewrite Z.lxor_0_r.
  - intros k c s _ Hc Hs. by apply Hstep.
  - apply lost_some.
Qed.

Lemma reconstruct_p_ok :
  parity_p_ok rm -> (0 < wcount xc)%nat -> vdev_raidz_reconstruct_p rm' x = Some rm.
Proof using Hwf Hx Hxc Hjunk.
  intros (pc & Hpc & Hp) Hpos. unfold vdev_raidz_reconstruct_p, VDEV_RAIDZ_P in *.
  pose proof (mw_np _ Hwf). assert (x <> 0%nat) as Hx0 by (unfold nparity in Hx; lia).
  rewrite (lookup_set_data_eq _ _ _ _ Hxc). cbn [mbind option_bind].
  rewrite lookup_set_data_ne, Hpc by done. cbn [mbind option_bind].
  rewrite wcount_with_data. pose proof (wcount_le rm 0 x pc xc Hwf ltac:(lia) Hpc Hxc) as Hle.
  rewrite (proj2 (Nat.leb_le _ _)), (proj2 (Nat.ltb_lt _ _)) by done.
  destruct (is_words_for_words raidz_store (wcount xc) _ junk pc Hjunk Hp Hle) as (d & Hd & Hi).
  cbn [rc_data with_data]. rewrite Hd. cbn [mbind option_bind].
  destruct (reconstruct_p_loop _ _ d Hi) as (r & -> & Hri). cbn [mbind option_bind].
  assert (r = rc_data xc) as ->.
  { eapply is_words_eq; [exact Hri|]. eapply is_words_ext; [|by apply is_words_col, (map_wf_col rm x)].
    intros i _. unfold raidz_store, data_columns.
    rewrite (p_words_lost _ x junk _ xc) by done.
    by rewrite (Z.lxor_comm (p_words _ _)), Z.lxor_assoc, Z.lxor_nilpotent, Z.lxor_0_r. }
  rewrite set_data_twice. f_equal. by apply set_data_id.
Qed.
Lemma reconstruct_q_loop n dst :
  length dst = n ->
  exists r, foldM (reconstruct_q_col rm' x n) dst (data_cols rm') = Some r /\
    is_words n (q_words (drop (nparity rm) cols0)) r.
Proof using Hwf Hx Hxc Hjunk.
  intros Hdst. rewrite lost_data_cols.
  assert (rm_firstdatacol rm' = Z.of_nat (nparity rm)) as Hnp by exact (nparity_Z _ Hwf).
  apply (column_loop (reconstruct_q_col rm' x n) cols0 (nparity rm)
    (fun cols d => is_words n (q_words cols) d)); [| |apply lost_some].
  - intros c0 Hc0. destruct (lost_loop_lookup _ _ Hc0) as (col' & Hc' & Hdat & Hlen & Hw).
    unfold reconstruct_q_col. rewrite Hc'. cbn [mbind option_bind].
    rewrite Hnp, Z.eqb_refl, <-Hw, Hdat.
    destruct (first_words_step n dst c0 Hdst Hlen) as (l1 & r & -> & Hr & Hi).
    exists r. split; [done|]. eapply is_words_ext; [|exact Hi]. intros. apply q_words_one.
  - intros k c d Hk Hc Hd. destruct (lost_loop_lookup _ _ Hc) as (col' & Hc' & Hdat & Hlen & Hw).
    unfold reconstruct_q_col. rewrite Hc'. cbn [mbind option_bind].
    rewrite Hnp, (proj2 (Z.eqb_neq _ _)), <-Hw, Hdat by lia.
    destruct (horner_words_step n _ d c Hd Hlen) as (l1 & r & -> & Hr & Hi).
    exists r. split; [done|]. eapply is_words_ext; [|exact Hi]. intros. apply q_words_snoc.
Qed.

Lemma reconstruct_q_ok :
  parity_q_ok rm -> rm_firstdatacol rm = 2 -> vdev_raidz_reconstruct_q rm' x = Some rm.
Proof using Hwf Hx Hxc Hjunk.
  intros (qc & Hqc & Hq) Hnp2. unfold vdev_raidz_reconstruct_q, VDEV_RAIDZ_Q in *.
  assert (1 < x)%nat as Hx1 by (unfold nparity in Hx; lia).
  rewrite (lookup_set_data_eq _ _ _ _ Hxc). cbn [mbind option_bind].
  rewrite lookup_set_data_ne, Hqc by lia. cbn [mbind option_bind].
  rewrite wcount_with_data. pose proof (wcount_le rm 1 x qc xc Hwf ltac:(lia) Hqc Hxc) as Hle.
  rewrite (proj2 (Nat.leb_le _ _)) by done. cbn [rc_data with_data].
  destruct (reconstruct_q_loop _ junk Hjunk) as (r & -> & Hri). cbn [mbind option_bind].
  pose proof (mw_data _ Hwf). pose proof (mw_cols _ Hwf) as Hcols.
  pose proof (lookup_lt_Some _ _ _ Hxc) as Hlt.
  destruct Hri as [Hlr Hnr]. destruct Hq as [Hlq Hnq]. pose proof (map_wf_col _ _ _ Hwf Hxc) as Hxw.
  set (e := 255 - _). change (rm_cols (set_data rm x junk)) with (rm_cols rm) in e.
  destruct (for_words_exp2_nth e (wcount xc) r (rc_data qc)) as (d & -> & Hld & Hnd); try lia.
  { eapply is_words_u64; [split; [exact Hlr|exact Hnr]|]. intros i.
    apply q_words_u64, Forall_drop, lost_u64, Forall_col_u64, Hwf. }
  { by apply (map_wf_col _ _ _ Hwf) in Hqc as []. }
  cbn [mbind option_bind]. rewrite set_data_twice. f_equal.
  assert (d = rc_data xc) as ->; [|by apply set_data_id].
  apply (is_words_eq (wcount xc) (colw xc)); [|by apply is_words_col].
  split; [congruence|]. intros i Hi.
  rewrite Hnd, Hnr, Hnq by lia. unfold data_columns.
  rewrite (q_words_lost _ x junk (rm_col rm) xc i) by (done || apply Forall_col_u64, Hwf).
  rewrite <-Z.lxor_assoc, Z.lxor_nilpotent, Z.lxor_0_l, <-mulpow64_add.
  replace (Z.to_nat e + _)%nat with 255%nat by (unfold e; rewrite Hcols; lia).
  by rewrite mulpow64_255 by (by apply colw_u64).
Qed.
End one_column.
