(* ===== verification/RaidzPQ.v ===== *)
(** * RAID-Z: two lost columns

    The coefficients [vdev_raidz_reconstruct_pq] takes from the tables solve
    the two parity equations, its byte loop computes the solution on every
    word, and so it restores any two data columns. *)
From Stdlib Require Import ZArith Lia.
From stdpp Require Import base numbers list option.
From S2P Require Import Prelude Gf256 Raidz RaidzSpec.

(** ** The coefficients *)

Lemma mul2_nonzero_check : forallb (fun a => (a =? 0) || negb (VDEV_RAIDZ_MUL_2 a =? 0)) (seqZ 0 256) = true.
Proof. vm_compute. reflexivity. Qed.

Lemma mulpow_nonzero e a : is_u8 a -> a <> 0 -> mulpow e a <> 0.
Proof.
  intros Ha Hne. induction e as [|e IH]; [done|]. rewrite mulpow_S.
  pose proof (byte_forall _ mul2_nonzero_check _ (mulpow_u8 e a Ha)) as H. cbn beta in H.
  rewrite (proj2 (Z.eqb_neq _ _) IH) in H. cbn [orb] in H. by apply negb_true_iff, Z.eqb_neq in H.
Qed.

(** Exponents that agree on 1 agree everywhere. *)
Lemma mulpow_agree e1 e2 v : mulpow e1 1 = mulpow e2 1 -> is_u8 v -> mulpow e1 v = mulpow e2 v.
Proof.
  intros H Hv. destruct (decide (v = 0)) as [->|Hne]; [by rewrite !mulpow_0|].
  destruct (log2_table v Hv Hne) as (l & _ & _ & <- & _).
  by rewrite <-!mulpow_add, !(Nat.add_comm _ (Z.to_nat l)), !mulpow_add, H.
Qed.

Lemma mulpow64_agree e1 e2 w : mulpow e1 1 = mulpow e2 1 -> is_u64 w -> mulpow64 e1 w = mulpow64 e2 w.
Proof.
  intros H Hw. rewrite !mulpow64_bytes by done. f_equal. apply fmap_bytes_ext; [apply bytes_le_split|].
  intros b Hb. by apply mulpow_agree.
Qed.

Lemma is_u8_1 : is_u8 1.
Proof. unfold is_u8. lia. Qed.

(** [vdev_raidz_log2[vdev_raidz_exp2(2^e, t)]] is an exponent for [e + t]. *)
Lemma log2_exp2 e t :
  (e <= 255)%nat -> 0 <= t <= 255 ->
  exists a ea l, vdev_raidz_pow2 !! e = Some a /\ vdev_raidz_exp2 a t = Some ea /\
    vdev_raidz_log2 !! Z.to_nat ea = Some l /\ 0 <= l < 255 /\
    forall w, is_u64 w -> mulpow64 (Z.to_nat l) w = mulpow64 (Z.to_nat t) (mulpow64 e w).
Proof.
  intros He Ht. pose proof (mulpow_u8 e 1 is_u8_1) as Ha.
  pose proof (mulpow_u8 (Z.to_nat t) _ Ha) as Hea.
  destruct (log2_table (mulpow (Z.to_nat t) (mulpow e 1)) Hea) as (l & Hl & Hlr & Hpow & _).
  { apply mulpow_nonzero; [done|]. apply mulpow_nonzero; [apply is_u8_1|done]. }
  exists (mulpow e 1), (mulpow (Z.to_nat t) (mulpow e 1)), l.
  split; [apply pow2_table; lia|]. split; [by apply exp2_mulpow|]. split; [done|]. split; [done|].
  intros w Hw. rewrite <-mulpow64_add. apply mulpow64_agree; [|done]. by rewrite Hpow, mulpow_add.
Qed.

(** The solution of the two equations. *)
Lemma pq_solve (t e kx ky l X Y : Z) :
  is_u64 X -> is_u64 Y -> 0 <= l -> 0 <= t -> t + l = 255 -> 0 <= ky < kx -> kx <= 255 ->
  e = 255 - kx + ky ->
  Z.lxor (mulpow64 (Z.to_nat e) X) X = mulpow64 (Z.to_nat l) X ->
  Z.lxor (mulpow64 (Z.to_nat t) (mulpow64 (Z.to_nat e) (Z.lxor X Y)))
    (mulpow64 (Z.to_nat t) (mulpow64 (Z.to_nat (255 - kx))
      (Z.lxor (mulpow64 (Z.to_nat kx) X) (mulpow64 (Z.to_nat ky) Y)))) = X.
Proof.
  intros HX HY Hl Ht Htl Hk Hkx He Hone.
  pose proof (mulpow64_u64 (Z.to_nat kx) X HX). pose proof (mulpow64_u64 (Z.to_nat ky) Y HY).
  rewrite <-mulpow64_lxor by (apply mulpow64_u64; by apply lxor_u64).
  rewrite (mulpow64_lxor (Z.to_nat e)), (mulpow64_lxor (Z.to_nat (255 - kx))) by done. rewrite <-!mulpow64_add.
  replace (Z.to_nat (255 - kx) + Z.to_nat kx)%nat with 255%nat by lia.
  replace (Z.to_nat (255 - kx) + Z.to_nat ky)%nat with (Z.to_nat e) by lia.
  rewrite mulpow64_255 by done.
  rewrite (Z.lxor_comm X), Z.lxor_assoc, <-(Z.lxor_assoc (mulpow64 _ Y)).
  rewrite Z.lxor_nilpotent, Z.lxor_0_l, Hone, <-mulpow64_add.
  replace (Z.to_nat t + Z.to_nat l)%nat with 255%nat by lia. by apply mulpow64_255.
Qed.

(** The table lookups of lines 533 to 538 succeed and give exponents that
    recover [X] from [X + Y] and [2^kx X + 2^ky Y]. *)
Lemma pq_coefficients (x y cols : Z) :
  0 <= x -> x < y -> y < cols <= 255 ->
  exists a b la ea eb aexp bexp,
    vdev_raidz_pow2 !! Z.to_nat (255 + x - y) = Some a /\
    vdev_raidz_pow2 !! Z.to_nat (255 - (cols - 1 - x)) = Some b /\
    vdev_raidz_log2 !! Z.to_nat (Z.lxor a 1) = Some la /\
    vdev_raidz_exp2 a (u8 (255 - la)) = Some ea /\
    vdev_raidz_exp2 b (u8 (255 - la)) = Some eb /\
    vdev_raidz_log2 !! Z.to_nat ea = Some aexp /\
    vdev_raidz_log2 !! Z.to_nat eb = Some bexp /\
    0 <= aexp < 255 /\ 0 <= bexp < 255 /\
    forall X Y, is_u64 X -> is_u64 Y ->
      Z.lxor (mulpow64 (Z.to_nat aexp) (Z.lxor X Y))
        (mulpow64 (Z.to_nat bexp)
          (Z.lxor (mulpow64 (Z.to_nat (cols - 1 - x)) X) (mulpow64 (Z.to_nat (cols - 1 - y)) Y))) = X.
Proof.
  intros Hx Hxy Hy.
  destruct (mulpow64_plus_one (255 + x - y) 0 ltac:(lia) ltac:(split; lia))
    as (a & la & Ha & _ & Hla & Hlar & _).
  assert (u8 (255 - la) = 255 - la) as Htmp by (unfold u8; apply Z.mod_small; lia).
  destruct (log2_exp2 (Z.to_nat (255 + x - y)) (255 - la)) as (a' & ea & aexp & Ha' & Hea & Haexp & Har & Hamul);
    [lia..|]. replace a' with a in * by congruence.
  destruct (log2_exp2 (Z.to_nat (255 - (cols - 1 - x))) (255 - la)) as (b & eb & bexp & Hb & Heb & Hbexp & Hbr & Hbmul);
    [lia..|].
  exists a, b, la, ea, eb, aexp, bexp. rewrite Htmp. do 9 (split; [done|]).
  intros X Y HX HY.
  assert (is_u64 (mulpow64 (Z.to_nat (cols - 1 - x)) X)) by (by apply mulpow64_u64).
  assert (is_u64 (mulpow64 (Z.to_nat (cols - 1 - y)) Y)) by (by apply mulpow64_u64).
  rewrite Hamul, Hbmul by (by apply lxor_u64).
  apply (pq_solve _ _ _ _ la); try lia; [done|done|].
  destruct (mulpow64_plus_one (255 + x - y) X ltac:(lia) HX) as (a2 & l2 & Ha2 & _ & Hl2 & _ & Heq).
  replace a2 with a in * by congruence. by replace l2 with la in * by congruence.
Qed.

(** ** Words and bytes *)

Lemma bytes_wbytes w : bytes (wbytes w).
Proof. apply bytes_le_split. Qed.

Lemma to_bytes_cons w ws : to_bytes (w :: ws) = wbytes w ++ to_bytes ws.
Proof. done. Qed.

Lemma length_to_bytes ws : length (to_bytes ws) = (8 * length ws)%nat.
Proof.
  induction ws as [|w ws IH]; [done|]. rewrite to_bytes_cons, length_app, length_wbytes, IH. simpl. lia.
Qed.

Lemma bytes_to_bytes ws : bytes (to_bytes ws).
Proof.
  induction ws as [|w ws IH]; [constructor|]. rewrite to_bytes_cons. apply Forall_app.
  split; [apply bytes_wbytes|done].
Qed.

Lemma take_to_bytes n : forall ws, take (8 * n) (to_bytes ws) = to_bytes (take n ws).
Proof.
  induction n as [|n IH]; intros [|w ws]; rewrite ?Nat.mul_0_r; try done.
  cbn [take]. rewrite !to_bytes_cons, take_app, length_wbytes.
  rewrite take_ge by (rewrite length_wbytes; lia). f_equal.
  replace (8 * S n - 8)%nat with (8 * n)%nat by lia. apply IH.
Qed.

Lemma of_to_bytes ws : Forall is_u64 ws -> of_bytes (length ws) (to_bytes ws) = ws.
Proof.
  induction ws as [|w ws IH]; intros H; [done|]. forall_inv. cbn [length of_bytes].
  rewrite to_bytes_cons, take_app_length', drop_app_length' by (by rewrite length_wbytes).
  by rewrite le_combine_wbytes, IH.
Qed.

Lemma zip_with_app_eq {A B C} (f : A -> B -> C) l1 l2 k1 k2 :
  length l1 = length k1 -> zip_with f (l1 ++ l2) (k1 ++ k2) = zip_with f l1 k1 ++ zip_with f l2 k2.
Proof. apply zip_with_app. Qed.

Lemma to_bytes_lxor l1 : forall l2, Forall is_u64 l1 -> Forall is_u64 l2 ->
  zip_with Z.lxor (to_bytes l1) (to_bytes l2) = to_bytes (zip_with Z.lxor l1 l2).
Proof.
  induction l1 as [|a l1 IH]; intros [|b l2] H1 H2; try done.
  forall_inv. cbn [zip_with]. rewrite !to_bytes_cons, zip_with_app_eq by (by rewrite !length_wbytes).
  by rewrite wbytes_lxor, IH.
Qed.

Lemma to_bytes_mulpow e l :
  Forall is_u64 l -> mulpow e <$> to_bytes l = to_bytes (mulpow64 e <$> l).
Proof.
  induction l as [|a l IH]; intros H; [done|]. forall_inv. rewrite fmap_cons, !to_bytes_cons, fmap_app, IH by done.
  f_equal. rewrite mulpow64_bytes, wbytes_le_combine by
    (done || apply bytes_mulpow, bytes_wbytes || by rewrite length_fmap, length_wbytes). done.
Qed.

(** ** The byte loop *)

Definition pq_xbytes (aexp bexp : Z) (p q pxy qxy : list Z) : list Z :=
  zip_with Z.lxor (mulpow (Z.to_nat aexp) <$> zip_with Z.lxor p pxy)
                  (mulpow (Z.to_nat bexp) <$> zip_with Z.lxor q qxy).

Lemma pq_loop_zip aexp bexp : 0 <= aexp < 255 -> 0 <= bexp < 255 ->
  forall xs ys p q pxy qxy xd yd,
  bytes p -> bytes q -> bytes pxy -> bytes qxy ->
  (xs <= length p)%nat -> (xs <= length q)%nat -> (xs <= length pxy)%nat -> (xs <= length qxy)%nat ->
  length xd = xs -> length yd = ys -> (ys <= xs)%nat ->
  let X := pq_xbytes aexp bexp p q pxy qxy in
  pq_loop aexp bexp xs ys p q pxy qxy xd yd =
  Some (take xs X, take ys (zip_with Z.lxor (zip_with Z.lxor p pxy) X)).
Proof.
  intros Ha Hb. induction xs as [|xs IH]; intros ys p q pxy qxy xd yd Bp Bq Bpx Bqx Lp Lq Lpx Lqx Lx Ly Hys X.
  { destruct xd; [|done]. destruct ys; [|lia]. by destruct yd. }
  destruct p as [|p0 p], q as [|q0 q], pxy as [|px pxy], qxy as [|qx qxy], xd as [|x0 xd];
    simpl in Lp, Lq, Lpx, Lqx, Lx; try lia. unfold bytes in *. forall_inv. cbn [pq_loop].
  rewrite !exp2_mulpow by (lia || by apply lxor_u8). cbn [mbind option_bind].
  subst X. unfold pq_xbytes. cbn [zip_with]. rewrite !fmap_cons. cbn [zip_with].
  destruct ys as [|ys]; [|destruct yd as [|y0 yd]; simpl in Ly; [lia|]].
  - rewrite IH by (done || lia). done.
  - rewrite IH by (done || lia). done.
Qed.

Definition pq_xwords (aexp bexp : Z) (p q pxy qxy : list Z) : list Z :=
  zip_with Z.lxor (mulpow64 (Z.to_nat aexp) <$> zip_with Z.lxor p pxy)
                  (mulpow64 (Z.to_nat bexp) <$> zip_with Z.lxor q qxy).

Lemma zip_lxor_u64 l1 : forall l2, Forall is_u64 l1 -> Forall is_u64 l2 -> Forall is_u64 (zip_with Z.lxor l1 l2).
Proof.
  induction l1 as [|a l1 IH]; intros [|b l2] H1 H2; try constructor; forall_inv; [by apply lxor_u64|auto].
Qed.

Lemma fmap_mulpow_u64 e l : Forall is_u64 l -> Forall is_u64 (mulpow64 e <$> l).
Proof. intros H. apply Forall_fmap. eapply Forall_impl; [|exact H]. intros w. apply mulpow64_u64. Qed.

Lemma pq_loop_words aexp bexp xs ys p q pxy qxy xd yd :
  0 <= aexp < 255 -> 0 <= bexp < 255 ->
  Forall is_u64 p -> Forall is_u64 q -> Forall is_u64 pxy -> Forall is_u64 qxy ->
  (xs <= length p)%nat -> (xs <= length q)%nat -> (xs <= length pxy)%nat -> (xs <= length qxy)%nat ->
  length xd = xs -> length yd = ys -> (ys <= xs)%nat ->
  let X := pq_xwords aexp bexp p q pxy qxy in
  pq_loop aexp bexp (8 * xs) (8 * ys) (to_bytes p) (to_bytes q) (to_bytes pxy) (to_bytes qxy)
    (to_bytes xd) (to_bytes yd) =
  Some (to_bytes (take xs X), to_bytes (take ys (zip_with Z.lxor (zip_with Z.lxor p pxy) X))).
Proof.
  intros Ha Hb Up Uq Upx Uqx Lp Lq Lpx Lqx Lx Ly Hys X.
  rewrite pq_loop_zip; try done; try apply bytes_to_bytes; try (rewrite length_to_bytes; lia); [|lia].
  unfold pq_xbytes. pose proof (zip_lxor_u64 _ _ Up Upx). pose proof (zip_lxor_u64 _ _ Uq Uqx).
  rewrite !to_bytes_lxor, !to_bytes_mulpow, !to_bytes_lxor by (done || by apply fmap_mulpow_u64).
  rewrite to_bytes_lxor by (done || (apply zip_lxor_u64; by apply fmap_mulpow_u64)).
  by rewrite !take_to_bytes.
Qed.

(** ** Two lost columns *)

Section two_columns.
Context (rm : raidz_map) (x y : nat) (pc qc xc yc : raidz_col) (jx jy pbuf qbuf : list Z).
Context (Hwf : map_wf rm) (Hnp : rm_firstdatacol rm = 2) (Hx : (2 <= x)%nat) (Hxy : (x < y)%nat).
Context (Hpc : rm_col rm !! 0%nat = Some pc) (Hqc : rm_col rm !! 1%nat = Some qc).
Context (Hxc : rm_col rm !! x = Some xc) (Hyc : rm_col rm !! y = Some yc).
Context (Hjx : length jx = wcount xc) (Hjy : length jy = wcount yc).
Context (Hpb : length pbuf = wcount pc) (Hqb : length qbuf = wcount pc).

#[local] Abbreviation rmj := (set_data (set_data rm x jx) y jy).
#[local] Abbreviation rm1 :=
  (set_size (set_size (set_data (set_data rmj VDEV_RAIDZ_P pbuf) VDEV_RAIDZ_Q qbuf) x 0) y 0).
#[local] Abbreviation cols0 := (lost_col y jy (lost_col x jx (rm_col rm))).

Lemma nparity_2 : nparity rm = 2%nat.
Proof using Hnp. unfold nparity. by rewrite Hnp. Qed.

Lemma lookup_rm1 i : (2 <= i)%nat -> rm_col rm1 !! i = cols0 !! i.
Proof using All.
  intros Hi. cbn [rm_col set_size set_data with_cols]. unfold lost_col, VDEV_RAIDZ_P, VDEV_RAIDZ_Q.
  rewrite !list_lookup_alter. repeat case_decide; try lia; subst; rewrite ?Hxc, ?Hyc; done.
Qed.

Lemma lookup_rm1_p : rm_col rm1 !! VDEV_RAIDZ_P = Some (with_data pbuf pc).
Proof using All.
  cbn [rm_col set_size set_data with_cols]. unfold VDEV_RAIDZ_P, VDEV_RAIDZ_Q.
  repeat rewrite list_lookup_alter_ne by lia. by rewrite list_lookup_alter_eq, !list_lookup_alter_ne, Hpc by lia.
Qed.

Lemma lookup_rm1_q : rm_col rm1 !! VDEV_RAIDZ_Q = Some (with_data qbuf qc).
Proof using All.
  cbn [rm_col set_size set_data with_cols]. unfold VDEV_RAIDZ_P, VDEV_RAIDZ_Q.
  rewrite !list_lookup_alter. repeat case_decide; try lia. by rewrite Hqc.
Qed.

Lemma data_columns_rm1 : data_columns rm1 = drop 2 cols0.
Proof using All.
  unfold data_columns. change (nparity rm1) with (nparity rm). rewrite nparity_2.
  apply list_eq. intros i. rewrite !lookup_drop. apply lookup_rm1. lia.
Qed.

Lemma pq_size : rc_size pc = rc_size qc.
Proof using All.
  destruct (map_wf_lookup rm 2 Hwf) as [dc Hdc].
  { pose proof (mw_data _ Hwf). lia. }
  pose proof (mw_sizes _ Hwf 0 1 _ _ ltac:(lia) Hpc Hqc).
  pose proof (mw_sizes _ Hwf 1 2 _ _ ltac:(lia) Hqc Hdc).
  pose proof (mw_first _ Hwf _ dc Hpc ltac:(by rewrite nparity_2)). lia.
Qed.

Lemma loop_wf_rm1 : loop_wf rm1 (wcount pc).
Proof using All.
  pose proof (mw_data _ Hwf). pose proof (mw_cols _ Hwf) as Hcols.
  assert (length (rm_col rm1) = length (rm_col rm)) as Hlen
    by (cbn [rm_col set_size set_data with_cols]; by rewrite !length_alter).
  split.
  - exact (nparity_Z _ Hwf).
  - change (data_cols rm1) with (data_cols rm). rewrite data_cols_seq by done.
    unfold data_columns. by rewrite !length_drop, Hlen.
  - rewrite Hlen. change (nparity rm1) with (nparity rm). rewrite nparity_2. lia.
  - intros k c. change (nparity rm1) with (nparity rm). rewrite nparity_2, lookup_rm1 by lia.
    intros [[_ (yc' & _ & ->)]|[_ H1]]%lost_lookup; [split; rewrite wcount_lost; lia|].
    apply lost_lookup in H1 as [[_ (xc' & _ & ->)]|[_ H1]]; [split; rewrite wcount_lost; lia|].
    split; [rewrite (cw_len c) by (by eapply map_wf_col); lia|].
    eapply (wcount_le rm 0); [done| |done..]; lia.
Qed.

Lemma generate_rm1 :
  exists pxy qxy, vdev_raidz_generate_parity_pq rm1 =
      Some (set_data (set_data rm1 VDEV_RAIDZ_P pxy) VDEV_RAIDZ_Q qxy) /\
    is_words (wcount pc) (p_words (drop 2 cols0)) pxy /\
    is_words (wcount pc) (q_words (drop 2 cols0)) qxy.
Proof using All.
  destruct (parity_pq_loop rm1 (wcount pc) pbuf qbuf loop_wf_rm1 Hpb Hqb) as (pxy & qxy & Hf & Hp & Hq).
  { intros c. change (nparity rm1) with (nparity rm). rewrite nparity_2, lookup_rm1 by lia.
    intros [[_ (yc' & _ & ->)]|[_ H1]]%lost_lookup; [right; apply wcount_lost|].
    apply lost_lookup in H1 as [[_ (xc' & _ & ->)]|[_ H1]]; [right; apply wcount_lost|].
    left. unfold wcount. rewrite (mw_first _ Hwf pc c); [done..|]. by rewrite nparity_2. }
  rewrite data_columns_rm1 in Hp, Hq. exists pxy, qxy. split; [|done].
  unfold vdev_raidz_generate_parity_pq.
  rewrite lookup_rm1_p, lookup_rm1_q. cbn [mbind option_bind rc_size with_data rc_data].
  rewrite pq_size, Z.eqb_refl, wcount_with_data, Hf. done.
Qed.

(** What the parity columns say about the lost words. *)
Lemma lost_pq (Hp : parity_p_ok rm) (Hq : parity_q_ok rm) i : (i < wcount pc)%nat ->
  Z.lxor (nth i (rc_data pc) 0) (p_words (drop 2 cols0) i) = Z.lxor (colw xc i) (colw yc i) /\
  Z.lxor (nth i (rc_data qc) 0) (q_words (drop 2 cols0) i) =
    Z.lxor (mulpow64 (length (rm_col rm) - 1 - x) (colw xc i))
           (mulpow64 (length (rm_col rm) - 1 - y) (colw yc i)).
Proof using All.
  intros Hi. destruct Hp as (pc' & Hpc' & _ & Hpn). destruct Hq as (qc' & Hqc' & _ & Hqn).
  unfold VDEV_RAIDZ_P, VDEV_RAIDZ_Q in *. replace pc' with pc in * by congruence.
  replace qc' with qc in * by congruence.
  assert (wcount qc = wcount pc) as Hw by (unfold wcount; by rewrite pq_size).
  rewrite Hpn, Hqn by lia. unfold data_columns. rewrite nparity_2.
  assert (lost_col x jx (rm_col rm) !! y = Some yc) as Hy0
    by (unfold lost_col; rewrite list_lookup_alter_ne by lia; done).
  assert (Forall col_u64 (rm_col rm)) as Hu by apply Forall_col_u64, Hwf.
  rewrite (p_words_lost 2 x jx (rm_col rm) xc), (p_words_lost 2 y jy (lost_col x jx (rm_col rm)) yc)
    by (done || lia).
  rewrite (q_words_lost 2 x jx (rm_col rm) xc), (q_words_lost 2 y jy (lost_col x jx (rm_col rm)) yc)
    by (done || lia || by apply lost_u64).
  assert (length (lost_col x jx (rm_col rm)) = length (rm_col rm)) as -> by apply length_alter.
  split.
  - apply Z.bits_inj'. intros k _. rewrite !Z.lxor_spec. by repeat destruct (Z.testbit _ _).
  - apply Z.bits_inj'. intros k _. rewrite !Z.lxor_spec. by repeat destruct (Z.testbit _ _).
Qed.

Lemma rc_size_wcount c : col_wf c -> Z.to_nat (rc_size c) = (8 * wcount c)%nat.
Proof. intros [H1 H2 _ _]. unfold wcount. pose proof (Z.div_mod (rc_size c) 8). lia. Qed.

Lemma nth_zip_lxor l1 : forall l2 i, (i < length l1)%nat -> (i < length l2)%nat ->
  nth i (zip_with Z.lxor l1 l2) 0 = Z.lxor (nth i l1 0) (nth i l2 0).
Proof.
  induction l1 as [|a l1 IH]; intros [|b l2] [|i] H1 H2; simpl in *; try lia; try done.
  apply IH; lia.
Qed.

Lemma nth_fmap (f : Z -> Z) l i : (i < length l)%nat -> nth i (f <$> l) 0 = f (nth i l 0).
Proof.
  revert i. induction l as [|a l IH]; intros [|i] H; simpl in *; try lia; try done. apply IH. lia.
Qed.

Lemma nth_take l n i : (i < n)%nat -> nth i (take n l) 0 = nth i l 0.
Proof.
  revert n i. induction l as [|a l IH]; intros [|n] [|i] H; simpl in *; try lia; try done. apply IH. lia.
Qed.

(** The columns the byte loop stores are the lost ones. *)
Lemma pq_columns aexp bexp pxy qxy (Hp : parity_p_ok rm) (Hq : parity_q_ok rm) :
  (forall X Y, is_u64 X -> is_u64 Y ->
      Z.lxor (mulpow64 (Z.to_nat aexp) (Z.lxor X Y))
        (mulpow64 (Z.to_nat bexp)
          (Z.lxor (mulpow64 (length (rm_col rm) - 1 - x) X)
                  (mulpow64 (length (rm_col rm) - 1 - y) Y))) = X) ->
  is_words (wcount pc) (p_words (drop 2 cols0)) pxy ->
  is_words (wcount pc) (q_words (drop 2 cols0)) qxy ->
  let X := pq_xwords aexp bexp (rc_data pc) (rc_data qc) pxy qxy in
  take (wcount xc) X = rc_data xc /\
  take (wcount yc) (zip_with Z.lxor (zip_with Z.lxor (rc_data pc) pxy) X) = rc_data yc.
Proof using All.
  intros Hsolve [Lp Np] [Lq Nq] X.
  assert (wcount qc = wcount pc) as Hw by (unfold wcount; by rewrite pq_size).
  pose proof (map_wf_col _ _ _ Hwf Hpc) as [_ _ Lpc _]. pose proof (map_wf_col _ _ _ Hwf Hqc) as [_ _ Lqc _].
  pose proof (map_wf_col _ _ _ Hwf Hxc) as Wx. pose proof (map_wf_col _ _ _ Hwf Hyc) as Wy.
  pose proof (wcount_le rm 0 x _ _ Hwf ltac:(lia) Hpc Hxc).
  pose proof (wcount_le rm 0 y _ _ Hwf ltac:(lia) Hpc Hyc).
  assert (length X = wcount pc) as LX
    by (unfold X, pq_xwords; rewrite !length_zip_with, !length_fmap, !length_zip_with; lia).
  assert (forall i, (i < wcount pc)%nat -> nth i X 0 = colw xc i) as NX.
  { intros i Hi. destruct (lost_pq Hp Hq i Hi) as [E1 E2]. unfold X, pq_xwords.
    rewrite nth_zip_lxor, !nth_fmap, !nth_zip_lxor, Np, Nq, E1, E2
      by (rewrite ?length_fmap, ?length_zip_with; lia).
    apply Hsolve; by apply colw_u64. }
  split.
  - apply (is_words_eq (wcount xc) (colw xc)); [|by apply is_words_col]. split.
    + rewrite length_take. lia.
    + intros i Hi. rewrite nth_take by done. apply NX. lia.
  - apply (is_words_eq (wcount yc) (colw yc)); [|by apply is_words_col]. split.
    + rewrite length_take, !length_zip_with. lia.
    + intros i Hi. destruct (lost_pq Hp Hq i ltac:(lia)) as [E1 _].
      rewrite nth_take, !nth_zip_lxor, NX, Np, E1 by (rewrite ?length_zip_with; lia).
      by rewrite (Z.lxor_comm (colw xc i)), Z.lxor_assoc, Z.lxor_nilpotent, Z.lxor_0_r.
Qed.

Lemma with_cols_id m : with_cols m (rm_col m) = m.
Proof. by destruct m. Qed.
Lemma set_data_with m l c d : set_data (with_cols m l) c d = with_cols m (alter (with_data d) c l).
Proof. done. Qed.
Lemma set_size_with m l c z : set_size (with_cols m l) c z = with_cols m (alter (with_size z) c l).
Proof. done. Qed.

Lemma restore_map pxy qxy :
  set_data (set_data (set_data (set_data
    (set_size (set_size (set_data (set_data rm1 VDEV_RAIDZ_P pxy) VDEV_RAIDZ_Q qxy) x (rc_size xc)) y (rc_size yc))
    x (rc_data xc)) y (rc_data yc)) VDEV_RAIDZ_P (rc_data pc)) VDEV_RAIDZ_Q (rc_data qc) = rm.
Proof using All.
  rewrite <-(with_cols_id rm) at 1. rewrite !set_data_with, !set_size_with, !set_data_with, !set_size_with, !set_data_with.
  transitivity (with_cols rm (rm_col rm)); [|apply with_cols_id].
  f_equal. apply list_eq. intros i. unfold VDEV_RAIDZ_P, VDEV_RAIDZ_Q.
  destruct (decide (i = 0%nat)) as [->|?]; [|destruct (decide (i = 1%nat)) as [->|?];
    [|destruct (decide (i = x)) as [->|?]; [|destruct (decide (i = y)) as [->|?]]]].
  all: repeat first [rewrite list_lookup_alter_eq | rewrite list_lookup_alter_ne by lia].
  all: rewrite ?Hxc, ?Hyc, ?Hpc, ?Hqc; try done; cbn.
  all: f_equal; match goal with |- _ = ?c => by destruct c end.
Qed.

#[local] Abbreviation rm2 pxy qxy :=
  (set_size (set_size (set_data (set_data rm1 VDEV_RAIDZ_P pxy) VDEV_RAIDZ_Q qxy) x (rc_size xc)) y (rc_size yc)).

Lemma lookup_set_size_ne m c i z : c <> i -> rm_col (set_size m c z) !! i = rm_col m !! i.
Proof. intros H. by rewrite rm_col_set_size, list_lookup_alter_ne. Qed.

Lemma parity_p_rm2 pxy qxy : rm_col (rm2 pxy qxy) !! VDEV_RAIDZ_P = Some (with_data pxy pc).
Proof using All.
  unfold VDEV_RAIDZ_P, VDEV_RAIDZ_Q. rewrite !lookup_set_size_ne, lookup_set_data_ne by lia.
  rewrite (lookup_set_data_eq _ _ _ (with_data pbuf pc)); [done|]. apply lookup_rm1_p.
Qed.

Lemma parity_q_rm2 pxy qxy : rm_col (rm2 pxy qxy) !! VDEV_RAIDZ_Q = Some (with_data qxy qc).
Proof using All.
  unfold VDEV_RAIDZ_P, VDEV_RAIDZ_Q. rewrite !lookup_set_size_ne by lia.
  rewrite (lookup_set_data_eq _ _ _ (with_data qbuf qc)); [done|].
  rewrite lookup_set_data_ne by lia. apply lookup_rm1_q.
Qed.

Lemma pq_loop_rm2 aexp bexp pxy qxy (Hp : parity_p_ok rm) (Hq : parity_q_ok rm) :
  0 <= aexp < 255 -> 0 <= bexp < 255 ->
  (forall X Y, is_u64 X -> is_u64 Y ->
      Z.lxor (mulpow64 (Z.to_nat aexp) (Z.lxor X Y))
        (mulpow64 (Z.to_nat bexp)
          (Z.lxor (mulpow64 (length (rm_col rm) - 1 - x) X)
                  (mulpow64 (length (rm_col rm) - 1 - y) Y))) = X) ->
  is_words (wcount pc) (p_words (drop 2 cols0)) pxy ->
  is_words (wcount pc) (q_words (drop 2 cols0)) qxy ->
  pq_loop aexp bexp (Z.to_nat (rc_size xc)) (Z.to_nat (rc_size yc)) (to_bytes (rc_data pc))
    (to_bytes (rc_data qc)) (to_bytes pxy) (to_bytes qxy) (to_bytes jx) (to_bytes jy) =
  Some (to_bytes (rc_data xc), to_bytes (rc_data yc)).
Proof using All.
  intros Har Hbr Hsolve Wpxy Wqxy.
  pose proof (map_wf_col _ _ _ Hwf Hpc) as [_ _ Lpc Up]. pose proof (map_wf_col _ _ _ Hwf Hqc) as [_ _ Lqc Uq].
  assert (wcount qc = wcount pc) as Hw by (unfold wcount; by rewrite pq_size).
  pose proof (wcount_le rm 0 x _ _ Hwf ltac:(lia) Hpc Hxc).
  pose proof (wcount_le rm x y _ _ Hwf ltac:(lia) Hxc Hyc).
  destruct (pq_columns aexp bexp pxy qxy Hp Hq Hsolve Wpxy Wqxy) as [EX EY].
  assert (Forall col_u64 (drop 2 cols0)) as Hu by (by apply Forall_drop, lost_u64, lost_u64, Forall_col_u64, Hwf).
  rewrite !rc_size_wcount by (by eapply map_wf_col).
  pose proof (is_words_u64 _ _ _ Wpxy (fun i => p_words_u64 _ i Hu)).
  pose proof (is_words_u64 _ _ _ Wqxy (fun i => q_words_u64 _ i Hu)).
  destruct Wpxy as [Lpxy _], Wqxy as [Lqxy _].
  rewrite pq_loop_words by (done || lia). by rewrite EX, EY.
Qed.

Lemma reconstruct_pq_ok (Hp : parity_p_ok rm) (Hq : parity_q_ok rm) :
  vdev_raidz_reconstruct_pq pbuf qbuf rmj x y = Some rm.
Proof using All.
  pose proof (mw_data _ Hwf) as Hd. pose proof (mw_cols _ Hwf) as Hcols.
  pose proof (lookup_lt_Some _ _ _ Hyc) as Hlt.
  pose proof (map_wf_col _ _ _ Hwf Hpc) as Wp. pose proof (map_wf_col _ _ _ Hwf Hqc) as Wq.
  pose proof (map_wf_col _ _ _ Hwf Hxc) as Wx. pose proof (map_wf_col _ _ _ Hwf Hyc) as Wy.
  unfold vdev_raidz_reconstruct_pq.
  change (rm_firstdatacol rmj) with (rm_firstdatacol rm). change (rm_cols rmj) with (rm_cols rm).
  rewrite (proj2 (Nat.ltb_lt x y)), (proj2 (Z.leb_le _ _)), (proj2 (Z.ltb_lt _ _)) by lia.
  assert (rm_col rmj !! x = Some (with_data jx xc)) as -> by
    (rewrite lookup_set_data_ne by lia; by apply lookup_set_data_eq).
  assert (rm_col rmj !! y = Some (with_data jy yc)) as -> by
    (apply lookup_set_data_eq; rewrite lookup_set_data_ne by lia; done).
  assert (rm_col rmj !! VDEV_RAIDZ_P = Some pc) as -> by
    (unfold VDEV_RAIDZ_P; rewrite !lookup_set_data_ne by lia; done).
  assert (rm_col rmj !! VDEV_RAIDZ_Q = Some qc) as -> by
    (unfold VDEV_RAIDZ_Q; rewrite !lookup_set_data_ne by lia; done).
  cbn [mbind option_bind rc_size with_data rc_data].
  rewrite (proj2 (Z.leb_le _ _)) by (eapply (mw_sizes _ Hwf x y); [lia|done..]).
  destruct generate_rm1 as (pxy & qxy & Hgen & Wpxy & Wqxy). rewrite Hgen. cbn [mbind option_bind].
  destruct (pq_coefficients (Z.of_nat x) (Z.of_nat y) (rm_cols rm))
    as (a & b & la & ea & eb & aexp & bexp & Ha & Hb & Hla & Hea & Heb & Haexp & Hbexp & Har & Hbr & Hsolve); [lia..|].
  rewrite Ha, Hb. cbn [mbind option_bind]. rewrite Hla. cbn [mbind option_bind]. cbn zeta.
  rewrite Hea, Heb. cbn [mbind option_bind]. rewrite Haexp, Hbexp. cbn [mbind option_bind].
  rewrite parity_p_rm2, parity_q_rm2. cbn [mbind option_bind rc_data with_data].
  replace (Z.to_nat (rm_cols rm - 1 - Z.of_nat x)) with (length (rm_col rm) - 1 - x)%nat in Hsolve by lia.
  replace (Z.to_nat (rm_cols rm - 1 - Z.of_nat y)) with (length (rm_col rm) - 1 - y)%nat in Hsolve by lia.
  rewrite (pq_loop_rm2 aexp bexp pxy qxy Hp Hq Har Hbr Hsolve Wpxy Wqxy).
  cbn [mbind option_bind]. rewrite Hjx, Hjy, <-(cw_len xc), <-(cw_len yc) by done.
  rewrite !of_to_bytes by (by apply Wx || by apply Wy). f_equal. apply restore_map.
Qed.
End two_columns.

(** ** Generation followed by loss and reconstruction *)

Definition parity_ok (rm : raidz_map) : Prop :=
  parity_p_ok rm /\ (rm_firstdatacol rm = 2 -> parity_q_ok rm).

Lemma generate_parity_ok rm :
  map_wf rm -> exists rm', vdev_raidz_generate_parity rm = Some rm' /\ map_wf rm' /\ parity_ok rm' /\
    data_columns rm' = data_columns rm /\ rm_firstdatacol rm' = rm_firstdatacol rm /\
    rm_cols rm' = rm_cols rm.
Proof.
  intros Hwf. unfold vdev_raidz_generate_parity. pose proof (mw_np _ Hwf).
  destruct (Z.eqb_spec (rm_firstdatacol rm) 1) as [H1|H1].
  - destruct (generate_p_ok rm Hwf) as (p & Hg & Hw & Hp).
    exists (set_data rm VDEV_RAIDZ_P p). split; [done|]. split; [done|]. split; [split; [done|]|split; [|done]].
    + intros H2. replace (rm_firstdatacol _) with (rm_firstdatacol rm) in H2 by done. lia.
    + apply data_columns_set_parity. unfold nparity, VDEV_RAIDZ_P. lia.
  - destruct (generate_pq_ok rm Hwf) as (p & q & Hg & Hw & Hp & Hq); [lia|].
    eexists. split; [done|]. split; [done|]. split; [done|]. split; [|done].
    rewrite !data_columns_set_parity by (rewrite ?nparity_set_data; unfold nparity, VDEV_RAIDZ_P, VDEV_RAIDZ_Q; lia).
    done.
Qed.

Lemma generated rm0 rm : map_wf rm0 -> vdev_raidz_generate_parity rm0 = Some rm -> map_wf rm /\ parity_ok rm.
Proof.
  intros Hwf H. destruct (generate_parity_ok rm0 Hwf) as (rm' & H' & ? & ? & _).
  by replace rm with rm' by congruence.
Qed.

Lemma data_column_index rm x :
  map_wf rm -> rm_firstdatacol rm <= Z.of_nat x -> (nparity rm <= x)%nat.
Proof. intros Hwf Hx. pose proof (mw_np _ Hwf). unfold nparity. lia. Qed.

(** A map with three data columns (the last one short) and double parity. *)
Definition example_map : raidz_map :=
  mk_map 5 4 0 0 0 2
    [mk_col 0 0 16 [0; 0] 0 false false; mk_col 1 0 16 [7; 7] 0 false false;
     mk_col 2 0 16 [0x1122334455667788; 0x80ff00000000007f] 0 false false;
     mk_col 3 0 16 [0xffffffffffffffff; 1] 0 false false;
     mk_col 4 0 8 [0xdeadbeefcafebabe] 0 false false].

Lemma example_map_wf : map_wf example_map.
Proof.
  split; try (cbn; lia).
  - repeat constructor; cbn; try lia; repeat constructor; unfold is_u64; lia.
  - intros [|[|[|[|[|i]]]]] [|[|[|[|[|j]]]]] ci cj Hij Hi Hj; cbn in *; simplify_eq; cbn; lia.
  - intros c0 c1 H0 H1. injection H0 as <-. injection H1 as <-. done.
Qed.



(** Reconstruction of one data column.  Whatever a lost data column of a
    map with generated parity holds, [vdev_raidz_reconstruct_p] (of a column
    with data) and, for double parity, [vdev_raidz_reconstruct_q] pass their
    assertions and give back the map. *)
Theorem vdev_raidz_reconstruct_one_restores (rm0 rm : raidz_map) (x : nat) (xc : raidz_col) (junk : list Z)
    (Hwf : map_wf rm0) (Hgen : vdev_raidz_generate_parity rm0 = Some rm)
    (Hx : rm_firstdatacol rm <= Z.of_nat x) (Hxc : rm_col rm !! x = Some xc) (Hjunk : length junk = length (rc_data xc)) :
  (8 <= rc_size xc -> vdev_raidz_reconstruct_p (set_data rm x junk) x = Some rm) /\
  (rm_firstdatacol rm = 2 -> vdev_raidz_reconstruct_q (set_data rm x junk) x = Some rm).
Proof.
  destruct (generated rm0 rm Hwf Hgen) as [Hw [Hp Hq]]. pose proof (map_wf_col _ _ _ Hw Hxc) as [_ _ Hl _]. split.
  - intros Hsize. eapply (reconstruct_p_ok rm x xc junk); [done|by apply data_column_index|done|congruence|done|].
    unfold wcount. apply (Z2Nat.inj_lt 0); [lia|apply Z.div_pos; lia|]. apply Z.div_str_pos. lia.
  - intros H2. eapply (reconstruct_q_ok rm x xc junk); [done|apply data_column_index; [done|lia]|done|congruence|auto|done].
Qed.

(** C11: reconstruction of two data columns from P and Q.  Whatever the two
    lost columns and the freshly allocated parity buffers hold,
    [vdev_raidz_reconstruct_pq] gives back the map. *)
Theorem vdev_raidz_reconstruct_pq_restores (rm0 rm : raidz_map) (x y : nat) (pc xc yc : raidz_col)
    (jx jy pbuf qbuf : list Z)
    (Hwf : map_wf rm0) (Hgen : vdev_raidz_generate_parity rm0 = Some rm)
    (H2 : rm_firstdatacol rm = 2) (Hx : 2 <= Z.of_nat x) (Hxy : (x < y)%nat)
    (Hpc : rm_col rm !! VDEV_RAIDZ_P = Some pc)
    (Hxc : rm_col rm !! x = Some xc) (Hyc : rm_col rm !! y = Some yc)
    (Hjx : length jx = length (rc_data xc)) (Hjy : length jy = length (rc_data yc))
    (Hpb : length pbuf = length (rc_data pc)) (Hqb : length qbuf = length (rc_data pc)) :
  vdev_raidz_reconstruct_pq pbuf qbuf (set_data (set_data rm x jx) y jy) x y = Some rm.
Proof.
  destruct (generated rm0 rm Hwf Hgen) as [Hw [Hp Hq]]. specialize (Hq H2).
  destruct (map_wf_lookup rm 1 Hw) as [qc Hqc]; [pose proof (mw_data _ Hw); lia|].
  pose proof (map_wf_col _ _ _ Hw Hpc) as [_ _ Lp _]. pose proof (map_wf_col _ _ _ Hw Hxc) as [_ _ Lx _].
  pose proof (map_wf_col _ _ _ Hw Hyc) as [_ _ Ly _].
  eapply (reconstruct_pq_ok rm x y pc qc xc yc); try done; try congruence. lia.
Qed.

Definition example_generated : raidz_map := default example_map (vdev_raidz_generate_parity example_map).

Lemma vdev_raidz_reconstruct_one_restores_witness :
  vdev_raidz_reconstruct_p (set_data example_generated 3 [0; 12345]) 3 = Some example_generated /\
  vdev_raidz_reconstruct_q (set_data example_generated 3 [0; 12345]) 3 = Some example_generated.
Proof.
  destruct (vdev_raidz_reconstruct_one_restores example_map example_generated 3 (default (mk_col 0 0 0 [] 0 false false) (rm_col example_generated !! 3%nat)) [0; 12345]) as [H1 H2];
    [apply example_map_wf|reflexivity|vm_compute; discriminate|reflexivity|reflexivity|].
  split; [apply H1; vm_compute; discriminate|apply H2; reflexivity].
Defined.

Lemma vdev_raidz_reconstruct_pq_restores_witness :
  vdev_raidz_reconstruct_pq [1; 2] [3; 4] (set_data (set_data example_generated 2 [0; 5]) 4 [9]) 2 4 =
  Some example_generated.
Proof.
  eapply (vdev_raidz_reconstruct_pq_restores example_map);
    [apply example_map_wf|reflexivity|reflexivity|vm_compute; discriminate|lia|reflexivity..].
Defined.
