(* ===== verification/RaidzMap.v ===== *)
(** * RAID-Z geometry (src/src/lib/libzpool/vdev_raidz.c)

    [vdev_raidz_map_alloc] lays a block out over the children of a RAID-Z
    vdev, and [vdev_raidz_asize] says how much space that takes.  Proved here:
    the map is well-formed (what parity generation and reconstruction assume),
    its data columns are the block, it takes exactly [vdev_raidz_asize], its
    columns are on distinct children, and blocks allocated in disjoint ranges
    of the vdev never share a sector of a child. *)
From Stdlib Require Import ZArith Lia.
From stdpp Require Import base numbers list option.
From S2P Require Import Prelude Gf256 Raidz RaidzSpec.

(** [roundup] of <sys/param.h> on [uint64_t]. *)
Definition roundup (x y : Z) : Z := u64 (u64 (x + (y - 1)) / y * y).

Definition vdev_raidz_asize (ashift cols nparity psize : Z) : Z :=
  let asize := u64 (Z.shiftr (u64 (psize - 1)) ashift + 1) in
  let asize := u64 (asize + u64 (nparity * (u64 (asize + cols - nparity - 1) / u64 (cols - nparity)))) in
  u64 (Z.shiftl (roundup asize (nparity + 1)) ashift).

(** One round of the first loop of [vdev_raidz_map_alloc]. *)
Definition map_alloc_col (unit_shift dcols f o q bc c : Z) : raidz_col :=
  let col := u64 (f + c) in
  let '(col, coff) :=
    if dcols <=? col then (u64 (col - dcols), u64 (o + u64 (Z.shiftl 1 unit_shift))) else (col, o) in
  mk_col col coff (u64 (Z.shiftl (u64 (q + Z.b2z (c <? bc))) unit_shift)) [] 0 false false.

(** The pointers of the data columns: the first is [io_data], each next one is
    the end of its predecessor. *)
Fixpoint assign_data (data : list Z) (cols : list raidz_col) : list raidz_col :=
  match cols with
  | [] => []
  | c :: cols => with_data (take (wcount c) data) c :: assign_data (drop (wcount c) data) cols
  end.

Definition swap_dev (a b : raidz_col) : raidz_col :=
  mk_col (rc_devidx b) (rc_offset b) (rc_size a) (rc_data a) (rc_error a) (rc_tried a) (rc_skipped a).

(** [zio_buf_alloc c size] is the buffer allocated for parity column [c]. *)
Definition vdev_raidz_map_alloc (zio_buf_alloc : nat -> Z -> list Z)
    (io_offset io_size : Z) (io_data : list Z) (unit_shift dcols nparity : Z) : option raidz_map :=
  let b := Z.shiftr io_offset unit_shift in
  let s := Z.shiftr io_size unit_shift in
  let f := b mod dcols in
  let o := u64 (Z.shiftl (b / dcols) unit_shift) in
  let q := s / u64 (dcols - nparity) in
  let r := u64 (s - u64 (q * u64 (dcols - nparity))) in
  let bc := if r =? 0 then 0 else u64 (r + nparity) in
  let acols := if q =? 0 then bc else dcols in
  let cols := map_alloc_col unit_shift dcols f o q bc <$> seqZ 0 acols in
  let asize := foldl (fun a c => u64 (a + rc_size c)) 0 cols in
  let asize := roundup asize (u64 (Z.shiftl (nparity + 1) unit_shift)) in
  let np := Z.to_nat nparity in
  VERIFY (nparity <? acols) in
  let parity := imap (fun c col => with_data (zio_buf_alloc c (rc_size col)) col) (take np cols) in
  let cols := parity ++ assign_data io_data (drop np cols) in
  VERIFY (2 <=? acols) in
  match cols with
  | c0 :: c1 :: cols =>
      VERIFY (rc_size c0 =? rc_size c1) in
      let '(c0, c1) :=
        if (nparity =? 1) && negb (Z.land io_offset (Z.shiftl 1 20) =? 0)
        then (swap_dev c0 c1, swap_dev c1 c0) else (c0, c1) in
      Some (mk_map acols bc asize 0 0 nparity (c0 :: c1 :: cols))
  | _ => None
  end.

(** ** Assigning the data pointers *)

Definition csum (l : list raidz_col) : nat := sum_list (wcount <$> l).

Lemma assign_data_proj {A} (g : raidz_col -> A) l :
  (forall d c, g (with_data d c) = g c) -> forall d, g <$> assign_data d l = g <$> l.
Proof. intros Hg. induction l as [|c l IH]; intros d; [done|]. cbn [assign_data]. by rewrite !fmap_cons, Hg, IH. Qed.

Lemma assign_data_concat l : forall d, concat (rc_data <$> assign_data d l) = take (csum l) d.
Proof.
  induction l as [|c l IH]; intros d; [done|]. cbn [assign_data]. rewrite fmap_cons. cbn [concat].
  rewrite IH. unfold csum. rewrite fmap_cons. cbn [sum_list_with id rc_data with_data].
  by rewrite take_take_drop.
Qed.

Definition size_wf (c : raidz_col) : Prop := 0 <= rc_size c /\ rc_size c mod 8 = 0.

Lemma assign_data_wf l : forall d,
  Forall size_wf l -> (csum l <= length d)%nat -> Forall is_u64 d -> Forall col_wf (assign_data d l).
Proof.
  induction l as [|c l IH]; intros d Hs Hl Hu; [constructor|]. forall_inv. destruct H.
  unfold csum in Hl. rewrite fmap_cons in Hl. cbn [sum_list_with id] in Hl. constructor.
  - split; try done; cbn [rc_data with_data]; [|by apply Forall_take].
    rewrite length_take, wcount_with_data. lia.
  - apply IH; [done|rewrite length_drop; unfold csum; lia|by apply Forall_drop].
Qed.

Definition maybe_swap (sw : bool) (l : list raidz_col) : list raidz_col :=
  match l with
  | c0 :: c1 :: l => if sw then swap_dev c0 c1 :: swap_dev c1 c0 :: l else c0 :: c1 :: l
  | l => l
  end.

Lemma maybe_swap_proj {A} (g : raidz_col -> A) sw l :
  (forall a b, g (swap_dev a b) = g a) -> g <$> maybe_swap sw l = g <$> l.
Proof. intros Hg. destruct l as [|c0 [|c1 l]], sw; try done. simpl. by rewrite !Hg. Qed.

Lemma maybe_swap_dev {A} (g : raidz_col -> A) sw l :
  (forall a b, g (swap_dev a b) = g b) -> (g <$> maybe_swap sw l) ≡ₚ (g <$> l).
Proof. intros Hg. destruct l as [|c0 [|c1 l]], sw; try done. simpl. rewrite !Hg. apply perm_swap. Qed.

(** ** The layout without wrap-around *)

(** Number of rows, big columns and columns of a block of [s] sectors. *)
Definition lay_q (s dcols nparity : Z) : Z := s / (dcols - nparity).
Definition lay_r (s dcols nparity : Z) : Z := s mod (dcols - nparity).
Definition lay_bc (s dcols nparity : Z) : Z :=
  if lay_r s dcols nparity =? 0 then 0 else lay_r s dcols nparity + nparity.
Definition lay_cols (s dcols nparity : Z) : Z :=
  if lay_q s dcols nparity =? 0 then lay_bc s dcols nparity else dcols.
Definition lay_rows (s dcols nparity c : Z) : Z :=
  lay_q s dcols nparity + Z.b2z (c <? lay_bc s dcols nparity).
(** Sectors a block takes before rounding. *)
Definition lay_total (s dcols nparity : Z) : Z :=
  lay_q s dcols nparity * dcols + lay_bc s dcols nparity.

(** What the callers guarantee: 1 or 2 parity columns of at most 255, a block
    of whole sectors, and sizes far from the ends of [uint64_t]
    (SPA_MAXBLOCKSIZE is 2^17). *)
Record alloc_pre (io_offset io_size unit_shift dcols nparity : Z) : Prop := {
  ap_shift : 3 <= unit_shift <= 32;
  ap_np : 1 <= nparity <= 2;
  ap_dcols : nparity < dcols <= 255;
  ap_off : 0 <= io_offset < 2 ^ 62;
  ap_size : 0 < io_size <= 2 ^ 32;
  ap_whole : io_size mod 2 ^ unit_shift = 0
}.

Section layout.
Context (io_offset io_size unit_shift dcols nparity : Z).
Context (Hpre : alloc_pre io_offset io_size unit_shift dcols nparity).

#[local] Abbreviation s := (io_size / 2 ^ unit_shift).
#[local] Abbreviation b := (io_offset / 2 ^ unit_shift).
#[local] Abbreviation q := (lay_q s dcols nparity).
#[local] Abbreviation r := (lay_r s dcols nparity).
#[local] Abbreviation bc := (lay_bc s dcols nparity).
#[local] Abbreviation acols := (lay_cols s dcols nparity).

Lemma shift_pos : 0 < 2 ^ unit_shift <= 2 ^ 32.
Proof using Hpre.
  destruct Hpre. split; [apply Z.pow_pos_nonneg; lia|]. apply Z.pow_le_mono_r; lia.
Qed.

Lemma io_size_s : io_size = s * 2 ^ unit_shift.
Proof using Hpre.
  destruct Hpre as [_ _ _ _ _ Hw]. pose proof shift_pos.
  rewrite Z.mul_comm. apply Z_div_exact_full_2; [lia|done].
Qed.

Lemma s_pos : 0 < s <= 2 ^ 32.
Proof using Hpre.
  pose proof shift_pos. pose proof io_size_s. destruct Hpre. nia.
Qed.

Lemma lay_div : s = q * (dcols - nparity) + r /\ 0 <= r < dcols - nparity /\ 0 <= q.
Proof using Hpre.
  pose proof s_pos. destruct Hpre. unfold lay_q, lay_r.
  pose proof (Z.div_mod s (dcols - nparity)). pose proof (Z.mod_pos_bound s (dcols - nparity)).
  pose proof (Z.div_pos s (dcols - nparity)). lia.
Qed.

Lemma lay_bc_range : 0 <= bc <= dcols - 1 /\ (0 < bc -> nparity < bc) /\ (bc = 0 <-> r = 0).
Proof using Hpre.
  pose proof lay_div. destruct Hpre. unfold lay_bc. destruct (Z.eqb_spec r 0); lia.
Qed.

Lemma lay_acols_range : nparity < acols <= dcols.
Proof using Hpre.
  pose proof lay_div. pose proof lay_bc_range. pose proof s_pos. destruct Hpre. unfold lay_cols.
  destruct (Z.eqb_spec q 0); lia.
Qed.

Lemma lay_q_le : q <= 2 ^ 32.
Proof using Hpre. pose proof lay_div. pose proof s_pos. destruct Hpre. nia. Qed.

(** Column [c] is every [dcols]-th sector from sector [b + c] of the vdev. *)
Definition lay_col (c : Z) : raidz_col :=
  mk_col ((b + c) mod dcols) ((b + c) / dcols * 2 ^ unit_shift)
    (lay_rows s dcols nparity c * 2 ^ unit_shift) [] 0 false false.

Lemma b_range : 0 <= b < 2 ^ 62 /\ 0 <= b / dcols /\ b / dcols * 2 ^ unit_shift < 2 ^ 62.
Proof using Hpre.
  destruct Hpre. pose proof shift_pos.
  assert (0 <= b) by (apply Z.div_pos; lia).
  assert (b * 2 ^ unit_shift <= io_offset) by (rewrite Z.mul_comm; apply Z.mul_div_le; lia).
  assert (0 <= b / dcols) by (apply Z.div_pos; lia).
  assert (b / dcols <= b) by (apply Z.div_le_upper_bound; nia). nia.
Qed.

Lemma lay_rows_range c : 0 <= lay_rows s dcols nparity c <= 2 ^ 32 + 1.
Proof using Hpre.
  pose proof lay_q_le. pose proof lay_div. unfold lay_rows. destruct (c <? bc); cbn; lia.
Qed.

Lemma lay_q_size : 0 <= q * 2 ^ unit_shift <= 2 ^ 32.
Proof using Hpre.
  pose proof lay_div. pose proof io_size_s. pose proof shift_pos. pose proof s_pos.
  assert (q <= s) by (destruct Hpre; nia). assert (io_size <= 2 ^ 32) by apply Hpre.
  assert (q * 2 ^ unit_shift <= s * 2 ^ unit_shift) by (apply Z.mul_le_mono_nonneg_r; lia). lia.
Qed.

Lemma lay_size_u64 c : is_u64 (lay_rows s dcols nparity c * 2 ^ unit_shift).
Proof using Hpre.
  pose proof lay_q_size. pose proof shift_pos. unfold lay_rows, is_u64.
  rewrite Z.mul_add_distr_r. destruct (c <? bc); cbn [Z.b2z]; lia.
Qed.

Lemma map_alloc_col_eq c :
  0 <= c < dcols ->
  map_alloc_col unit_shift dcols (b mod dcols) (b / dcols * 2 ^ unit_shift) q bc c = lay_col c.
Proof using Hpre.
  intros Hc. pose proof shift_pos. pose proof b_range. pose proof (lay_rows_range c) as Hr.
  assert (3 <= unit_shift <= 32) by apply Hpre. assert (0 < dcols <= 255) by (destruct Hpre; lia).
  pose proof (Z.mod_pos_bound b dcols ltac:(lia)).
  pose proof (Z.div_mod b dcols ltac:(lia)) as Hdm.
  unfold map_alloc_col, lay_col, lay_rows in *. rewrite (u64_small (_ + c)) by (split; lia).
  rewrite !Z.shiftl_mul_pow2, (u64_small (_ + Z.b2z _)) by (lia || split; lia).
  rewrite Z.mul_1_l, (u64_small (2 ^ unit_shift)) by (split; lia).
  rewrite (u64_small (_ * 2 ^ unit_shift)) by apply (lay_size_u64 c).
  destruct (Z.leb_spec dcols (b mod dcols + c)).
  - rewrite !u64_small by (split; lia).
    assert ((b + c) / dcols = b / dcols + 1) as ->
      by (symmetry; apply Z.div_unique with (b mod dcols + c - dcols); lia).
    assert ((b + c) mod dcols = b mod dcols + c - dcols) as ->
      by (symmetry; apply Z.mod_unique with (b / dcols + 1); lia).
    f_equal. lia.
  - assert ((b + c) / dcols = b / dcols) as ->
      by (symmetry; apply Z.div_unique with (b mod dcols + c); lia).
    assert ((b + c) mod dcols = b mod dcols + c) as ->
      by (symmetry; apply Z.mod_unique with (b / dcols); lia).
    done.
Qed.

Definition lay_columns : list raidz_col := lay_col <$> seqZ 0 acols.

Lemma lay_columns_eq :
  map_alloc_col unit_shift dcols (b mod dcols) (b / dcols * 2 ^ unit_shift) q bc <$> seqZ 0 acols =
  lay_columns.
Proof using Hpre.
  apply list_fmap_ext. intros i c Hc. apply lookup_seqZ in Hc as [-> Hi].
  apply map_alloc_col_eq. pose proof lay_acols_range. lia.
Qed.

(** The sum of the first [n] column sizes. *)
Lemma lay_sum n : 0 <= n <= acols ->
  foldl (fun a c => u64 (a + rc_size c)) 0 (lay_col <$> seqZ 0 n) =
  (q * n + Z.min n bc) * 2 ^ unit_shift.
Proof using Hpre.
  pose proof shift_pos. pose proof lay_q_le. pose proof lay_div. pose proof lay_bc_range.
  pose proof lay_acols_range. assert (dcols <= 255) by apply Hpre.
  intros [Hn Hna]. revert n Hn Hna. apply (natlike_ind (fun n => n <= acols -> _)).
  { intros _. rewrite Z.mul_0_r. replace (Z.min 0 bc) with 0 by lia. done. }
  intros n Hn IH Hna. replace (Z.succ n) with (n + 1) in * by lia.
  rewrite seqZ_app, fmap_app, foldl_app, IH by lia.
  assert (seqZ (0 + n) 1 = [n]) as -> by (unfold seqZ; cbn; f_equal; lia).
  cbn [foldl fmap list_fmap lay_col rc_size]. unfold lay_rows.
  assert (Z.min (n + 1) bc = Z.min n bc + Z.b2z (n <? bc)) as ->
    by (destruct (Z.ltb_spec n bc); cbn; lia).
  rewrite u64_small; [lia|].
  pose proof lay_q_size. set (e := Z.b2z _). assert (0 <= e <= 1) by (subst e; destruct (n <? bc); cbn; lia).
  replace (_ + _) with (q * 2 ^ unit_shift * (n + 1) + (Z.min n bc + e) * 2 ^ unit_shift) by lia.
  split; nia.
Qed.

(** *** The space a block takes *)

Definition lay_asize : Z :=
  (lay_total s dcols nparity + nparity) / (nparity + 1) * (nparity + 1) * 2 ^ unit_shift.

Lemma lay_total_eq : q * acols + Z.min acols bc = lay_total s dcols nparity.
Proof using Hpre.
  pose proof lay_bc_range. unfold lay_total, lay_cols. destruct (Z.eqb_spec q 0); lia.
Qed.

Lemma lay_total_range : 0 <= lay_total s dcols nparity <= 2 ^ 32 * 4 /\
  0 <= lay_total s dcols nparity * 2 ^ unit_shift <= 2 ^ 32 * 512.
Proof using Hpre.
  pose proof lay_bc_range. pose proof lay_q_size. pose proof shift_pos. pose proof lay_div.
  pose proof s_pos. assert (1 <= nparity <= 2 /\ nparity < dcols <= 255) by (destruct Hpre; lia).
  unfold lay_total. split; [nia|]. rewrite Z.mul_add_distr_r. nia.
Qed.

Lemma roundup_scaled t : 0 <= t <= 2 ^ 40 -> 0 <= t * 2 ^ unit_shift <= 2 ^ 50 ->
  roundup (t * 2 ^ unit_shift) ((nparity + 1) * 2 ^ unit_shift) =
  (t + nparity) / (nparity + 1) * (nparity + 1) * 2 ^ unit_shift.
Proof using Hpre.
  intros Ht HtS. pose proof shift_pos. assert (1 <= nparity <= 2) by apply Hpre. unfold roundup.
  rewrite (u64_small (_ + _)) by (split; nia).
  replace (t * 2 ^ unit_shift + ((nparity + 1) * 2 ^ unit_shift - 1))
    with ((t + nparity) * 2 ^ unit_shift + (2 ^ unit_shift - 1)) by lia.
  rewrite (Z.mul_comm (nparity + 1) (2 ^ unit_shift)), <-Z.div_div by lia.
  rewrite Z.div_add_l, (Z.div_small (_ - 1)), Z.add_0_r by lia.
  pose proof (Z.mul_div_le (t + nparity) (nparity + 1)). pose proof (Z.div_pos (t + nparity) (nparity + 1)).
  rewrite u64_small; [lia|]. split; nia.
Qed.

Lemma vdev_raidz_asize_eq : vdev_raidz_asize unit_shift dcols nparity io_size = lay_asize.
Proof using Hpre.
  pose proof shift_pos. pose proof s_pos. pose proof io_size_s as Hio. pose proof lay_div as (Hs & Hr & Hq).
  pose proof lay_total_range as [Ht HtS]. pose proof Hpre as [? ? ? ? ? ?]. unfold vdev_raidz_asize.
  rewrite Z.shiftr_div_pow2, (u64_small (io_size - 1)) by (lia || split; lia).
  assert ((io_size - 1) / 2 ^ unit_shift = s - 1) as -> by
    (symmetry; apply Z.div_unique with (2 ^ unit_shift - 1); lia).
  rewrite (u64_small (s - 1 + 1)) by (split; lia). replace (s - 1 + 1) with s by lia.
  rewrite (u64_small (s + dcols - nparity - 1)), (u64_small (dcols - nparity)) by (split; lia).
  assert (s + nparity * ((s + dcols - nparity - 1) / (dcols - nparity)) = lay_total s dcols nparity) as E.
  { unfold lay_total, lay_bc. destruct (Z.eqb_spec r 0).
    - replace ((s + dcols - nparity - 1) / (dcols - nparity)) with q; [lia|].
      apply Z.div_unique with (dcols - nparity - 1); lia.
    - replace ((s + dcols - nparity - 1) / (dcols - nparity)) with (q + 1); [lia|].
      apply Z.div_unique with (r - 1); lia. }
  assert (0 <= nparity * ((s + dcols - nparity - 1) / (dcols - nparity)))
    by (apply Z.mul_nonneg_nonneg; [lia|apply Z.div_pos; lia]).
  rewrite (u64_small (nparity * _)) by (split; lia). rewrite E, (u64_small (lay_total _ _ _)) by (split; lia).
  unfold roundup, lay_asize. rewrite (u64_small (_ + (nparity + 1 - 1))) by (split; lia).
  replace (nparity + 1 - 1) with nparity by lia.
  pose proof (Z.mul_div_le (lay_total s dcols nparity + nparity) (nparity + 1) ltac:(lia)).
  pose proof (Z.div_pos (lay_total s dcols nparity + nparity) (nparity + 1) ltac:(lia) ltac:(lia)).
  generalize dependent ((lay_total s dcols nparity + nparity) / (nparity + 1)). intros a Ha Ha0.
  assert (0 <= a * (nparity + 1) <= lay_total s dcols nparity + nparity) as Hb by lia.
  generalize dependent (a * (nparity + 1)). intros t Ht'.
  rewrite (u64_small t), Z.shiftl_mul_pow2, u64_small by (lia || split; nia). done.
Qed.

(** *** The map *)

Context (zio_buf_alloc : nat -> Z -> list Z) (io_data : list Z).

#[local] Abbreviation np := (Z.to_nat nparity).
#[local] Abbreviation sw := ((nparity =? 1) && negb (Z.land io_offset (Z.shiftl 1 20) =? 0)).

Definition lay_parity : list raidz_col :=
  imap (fun c col => with_data (zio_buf_alloc c (rc_size col)) col) (take np lay_columns).
Definition lay_base : list raidz_col := lay_parity ++ assign_data io_data (drop np lay_columns).

Lemma length_lay_columns : length lay_columns = Z.to_nat acols.
Proof. unfold lay_columns. by rewrite length_fmap, length_seqZ. Qed.

Lemma lay_columns_lookup c col :
  lay_columns !! c = Some col <-> col = lay_col (Z.of_nat c) /\ Z.of_nat c < acols.
Proof.
  unfold lay_columns. rewrite list_lookup_fmap, fmap_Some. split.
  - intros (z & [-> Hz]%lookup_seqZ & ->). rewrite Z.add_0_l. by split.
  - intros [-> H]. exists (Z.of_nat c). split; [|done]. apply lookup_seqZ. lia.
Qed.

Lemma lay_base_proj {A} (g : raidz_col -> A) :
  (forall d c, g (with_data d c) = g c) -> g <$> lay_base = g <$> lay_columns.
Proof.
  intros Hg. transitivity (g <$> (take np lay_columns ++ drop np lay_columns)); [|by rewrite take_drop].
  unfold lay_base, lay_parity. rewrite !fmap_app, assign_data_proj, fmap_imap by done. f_equal.
  apply list_eq. intros i. rewrite list_lookup_imap, list_lookup_fmap.
  destruct (take np lay_columns !! i); [|done]. simpl. by rewrite Hg.
Qed.

Lemma length_lay_base : length lay_base = Z.to_nat acols.
Proof.
  rewrite <-length_lay_columns. rewrite <-(length_fmap rc_size lay_base), <-(length_fmap rc_size lay_columns).
  by rewrite lay_base_proj.
Qed.

Lemma lay_first_sizes : rc_size (lay_col 0) = rc_size (lay_col 1).
Proof using Hpre.
  pose proof lay_bc_range as (? & ? & _). assert (1 <= nparity <= 2) by apply Hpre. cbn [lay_col rc_size].
  unfold lay_rows. destruct (Z.ltb_spec 0 bc), (Z.ltb_spec 1 bc); done || lia.
Qed.

Lemma map_alloc_eq :
  vdev_raidz_map_alloc zio_buf_alloc io_offset io_size io_data unit_shift dcols nparity =
  Some (mk_map acols bc lay_asize 0 0 nparity (maybe_swap sw lay_base)).
Proof using Hpre.
  pose proof shift_pos. pose proof lay_div as (Hs & Hr & Hq). pose proof b_range as (Hb & Hb1 & Hb2).
  pose proof lay_acols_range as Hac. pose proof s_pos. pose proof lay_q_le.
  assert (3 <= unit_shift <= 32) by apply Hpre. assert (1 <= nparity <= 2 /\ nparity < dcols <= 255) by (destruct Hpre; lia).
  unfold vdev_raidz_map_alloc. rewrite !Z.shiftr_div_pow2, !(Z.shiftl_mul_pow2 _ unit_shift) by lia.
  rewrite (u64_small (b / dcols * _)), (u64_small (dcols - nparity)) by (split; lia).
  change (s / (dcols - nparity)) with q.
  assert (0 <= q * (dcols - nparity)) by (apply Z.mul_nonneg_nonneg; lia).
  assert (u64 (s - u64 (q * (dcols - nparity))) = r) as -> 
    by (rewrite (u64_small (q * _)), u64_small by (split; lia); lia).
  assert ((if r =? 0 then 0 else u64 (r + nparity)) = bc) as ->.
  { unfold lay_bc. destruct (r =? 0); [done|]. apply u64_small. split; lia. }
  fold (lay_cols s dcols nparity). rewrite lay_columns_eq.
  pose proof lay_total_range.
  rewrite (u64_small ((nparity + 1) * 2 ^ unit_shift)) by (split; nia).
  pose proof (lay_sum acols ltac:(lia)) as Hsum. fold lay_columns in Hsum.
  rewrite Hsum, lay_total_eq, roundup_scaled by lia. clear Hsum.
  rewrite (proj2 (Z.ltb_lt _ _)), (proj2 (Z.leb_le _ _)) by lia.
  fold lay_parity. fold lay_base. fold lay_asize.
  pose proof length_lay_base as Hlen. pose proof lay_first_sizes as Hsz.
  assert (rc_size <$> lay_base = rc_size <$> lay_columns) as Hp by (by apply lay_base_proj).
  destruct lay_base as [|c0 [|c1 l]]; cbn [length] in Hlen; try lia.
  assert (rc_size c0 = rc_size (lay_col 0)) as E0.
  { apply (f_equal (.!! 0%nat)) in Hp. rewrite !list_lookup_fmap in Hp.
    rewrite (proj2 (lay_columns_lookup 0 (lay_col 0))) in Hp by (split; [done|lia]). by injection Hp. }
  assert (rc_size c1 = rc_size (lay_col 1)) as E1.
  { apply (f_equal (.!! 1%nat)) in Hp. rewrite !list_lookup_fmap in Hp.
    rewrite (proj2 (lay_columns_lookup 1 (lay_col 1))) in Hp by (split; [done|lia]). by injection Hp. }
  rewrite E0, E1, Hsz, Z.eqb_refl. unfold maybe_swap. by destruct sw.
Qed.


#[local] Abbreviation the_map := (mk_map acols bc lay_asize 0 0 nparity (maybe_swap sw lay_base)).

Lemma pow_shift : 2 ^ unit_shift = 8 * 2 ^ (unit_shift - 3) /\ 0 < 2 ^ (unit_shift - 3).
Proof using Hpre.
  assert (3 <= unit_shift) by apply Hpre. split; [|apply Z.pow_pos_nonneg; lia].
  change 8 with (2 ^ 3). rewrite <-Z.pow_add_r by lia. f_equal. lia.
Qed.

Lemma wcount_lay_col c : Z.of_nat (wcount (lay_col c)) = lay_rows s dcols nparity c * 2 ^ (unit_shift - 3).
Proof using Hpre.
  pose proof pow_shift as [E ?]. pose proof (lay_rows_range c).
  unfold wcount. cbn [lay_col rc_size]. generalize dependent (lay_rows s dcols nparity c). intros n Hn.
  replace (n * 2 ^ unit_shift) with (n * 2 ^ (unit_shift - 3) * 8) by lia.
  rewrite Z.div_mul by lia. nia.
Qed.

Lemma size_wf_lay_columns : Forall size_wf lay_columns.
Proof using Hpre.
  apply Forall_fmap, Forall_true. intros c. pose proof (lay_size_u64 c) as [? _]. pose proof pow_shift as [E ?].
  split; cbn [lay_col rc_size]; [done|].
  replace (lay_rows _ _ _ _ * 2 ^ unit_shift) with (lay_rows s dcols nparity c * 2 ^ (unit_shift - 3) * 8) by lia.
  apply Z.mod_mul. lia.
Qed.

Lemma csum_cols a n : 0 <= a -> 0 <= n -> a + n <= acols ->
  Z.of_nat (csum (lay_col <$> seqZ a n)) =
  (q * n + Z.min (a + n) bc - Z.min a bc) * 2 ^ (unit_shift - 3).
Proof using Hpre.
  intros Ha Hn. revert n Hn. apply (natlike_ind (fun n => a + n <= acols -> _)).
  { intros _. rewrite Z.mul_0_r, Z.add_0_r, Z.add_0_l, Z.sub_diag. done. }
  intros n Hn IH Hna. replace (Z.succ n) with (n + 1) in * by lia.
  rewrite seqZ_app, fmap_app by lia.
  assert (seqZ (a + n) 1 = [a + n]) as -> by (unfold seqZ; cbn; f_equal; lia).
  unfold csum in *. rewrite fmap_app, sum_list_with_app, Nat2Z.inj_add, IH by lia.
  cbn [fmap list_fmap sum_list_with id]. rewrite Nat.add_0_r, wcount_lay_col. unfold lay_rows.
  replace (Z.min (a + (n + 1)) bc) with (Z.min (a + n) bc + Z.b2z (a + n <? bc))
    by (destruct (Z.ltb_spec (a + n) bc); cbn; lia). lia.
Qed.

Lemma maybe_swap_wf b l : Forall col_wf l -> Forall col_wf (maybe_swap b l).
Proof.
  intros H. destruct l as [|c0 [|c1 l]], b; try done. cbn. forall_inv.
  constructor; [by destruct H0; split|]. constructor; [by destruct H1; split|done].
Qed.

Lemma the_map_size c col :
  rm_col the_map !! c = Some col -> rc_size col = rc_size (lay_col (Z.of_nat c)) /\ Z.of_nat c < acols.
Proof.
  cbn [rm_col]. intros Hc. assert (rc_size <$> maybe_swap sw lay_base = rc_size <$> lay_columns) as E
    by (rewrite maybe_swap_proj, lay_base_proj; done).
  apply (f_equal (.!! c)) in E. rewrite !list_lookup_fmap, Hc in E.
  destruct (lay_columns !! c) as [col'|] eqn:Hl; [|done].
  apply lay_columns_lookup in Hl as [-> Hl]. by injection E as ->.
Qed.

(** *** Where the columns are *)

Definition place (c : raidz_col) : Z * Z * Z := (rc_devidx c, rc_offset c, rc_size c).

Lemma lay_base_place i col :
  lay_base !! i = Some col -> place col = place (lay_col (Z.of_nat i)) /\ Z.of_nat i < acols.
Proof.
  intros Hi. assert (place <$> lay_base = place <$> lay_columns) as E by (by apply lay_base_proj).
  apply (f_equal (.!! i)) in E. rewrite !list_lookup_fmap, Hi in E.
  destruct (lay_columns !! i) as [c'|] eqn:Hl; [|done].
  apply lay_columns_lookup in Hl as [-> Hl]. split; [|done].
  change (Some (place col) = Some (place (lay_col (Z.of_nat i)))) in E. congruence.
Qed.

Lemma the_map_place i col :
  rm_col the_map !! i = Some col ->
  exists c, 0 <= c < acols /\ place col = place (lay_col c).
Proof using Hpre.
  cbn [rm_col]. intros Hi. pose proof length_lay_base as Hlen.
  assert (forall j col', lay_base !! j = Some col' ->
    exists c, 0 <= c < acols /\ place col' = place (lay_col c)) as Hb.
  { intros j col' Hj. apply lay_base_place in Hj as [-> Hj]. exists (Z.of_nat j). split; [lia|done]. }
  unfold maybe_swap in Hi. destruct lay_base as [|c0 [|c1 l]] eqn:El; [by eauto..|].
  destruct sw; [|by eauto].
  assert (Z.of_nat 1 < acols) as H1 by (eapply (lay_base_place 1 c1); by rewrite El).
  destruct (lay_base_place 0 c0) as [E0 _]; [by rewrite El|].
  destruct (lay_base_place 1 c1) as [E1 _]; [by rewrite El|].
  pose proof lay_first_sizes as Hs. change (Z.of_nat 0) with 0 in *. change (Z.of_nat 1) with 1 in *.
  unfold place in *. injection E0 as D0 O0 S0. injection E1 as D1 O1 S1.
  destruct i as [|[|i]].
  - injection Hi as <-. exists 1. split; [lia|]. cbn [swap_dev lay_col rc_devidx rc_offset rc_size] in *. congruence.
  - injection Hi as <-. exists 0. split; [lia|]. cbn [swap_dev lay_col rc_devidx rc_offset rc_size] in *. congruence.
  - apply (Hb (S (S i))). done.
Qed.

(** Sector [k] of column [c] is sector [n = b + c + k * dcols] of the vdev,
    which is on child [n mod dcols] at [n / dcols], and inside the space the
    block was allocated. *)
Lemma lay_sector c k :
  0 <= c < acols -> 0 <= k < lay_rows s dcols nparity c ->
  let n := b + c + k * dcols in
  b <= n < b + lay_asize / 2 ^ unit_shift /\ rc_devidx (lay_col c) = n mod dcols /\
  rc_offset (lay_col c) + k * 2 ^ unit_shift = n / dcols * 2 ^ unit_shift.
Proof using Hpre.
  intros Hc Hk n. pose proof lay_acols_range. pose proof lay_bc_range. pose proof lay_div as (_ & _ & Hq).
  assert (1 <= nparity <= 2 /\ 0 < dcols) by (destruct Hpre; lia). pose proof shift_pos.
  cbn [lay_col rc_devidx rc_offset]. unfold n. split; [|split].
  - assert (c + k * dcols < lay_total s dcols nparity) as Ht.
    { unfold lay_total, lay_rows, lay_cols in *.
      destruct (Z.ltb_spec c bc), (Z.eqb_spec q 0); cbn [Z.b2z] in Hk; nia. }
    unfold lay_asize. rewrite Z.div_mul by lia.
    pose proof (Z.mod_pos_bound (lay_total s dcols nparity + nparity) (nparity + 1) ltac:(lia)).
    pose proof (Z.div_mod (lay_total s dcols nparity + nparity) (nparity + 1) ltac:(lia)). nia.
  - by rewrite Z.mod_add by lia.
  - rewrite Z.div_add by lia. lia.
Qed.

Lemma lay_devices_distinct : NoDup (rc_devidx <$> rm_col the_map).
Proof using Hpre.
  pose proof lay_acols_range. assert (0 < dcols) by (destruct Hpre; lia). cbn [rm_col].
  rewrite (maybe_swap_dev rc_devidx), (lay_base_proj rc_devidx) by done. apply NoDup_alt.
  intros i j d. rewrite !list_lookup_fmap. intros Hi Hj.
  destruct (lay_columns !! i) as [ci|] eqn:Ei; [|done]. destruct (lay_columns !! j) as [cj|] eqn:Ej; [|done].
  apply lay_columns_lookup in Ei as [-> Hi']. apply lay_columns_lookup in Ej as [-> Hj'].
  injection Hi as Hi. injection Hj as Hj. rewrite <-Hj in Hi. cbn [lay_col rc_devidx] in Hi.
  pose proof (Z.div_mod (b + Z.of_nat i) dcols ltac:(lia)) as Di.
  pose proof (Z.div_mod (b + Z.of_nat j) dcols ltac:(lia)) as Dj.
  rewrite Hi in Di. set (x := (b + Z.of_nat i) / dcols) in *. set (y := (b + Z.of_nat j) / dcols) in *.
  assert (dcols * (x - y) = Z.of_nat i - Z.of_nat j) as Hd by lia.
  assert (x - y = 0) by nia. nia.
Qed.

Context (Halloc : forall c size, length (zio_buf_alloc c size) = Z.to_nat (size / 8)).
Context (Halloc64 : forall c size, Forall is_u64 (zio_buf_alloc c size)).
Context (Hdata : Z.of_nat (length io_data) = io_size / 8) (Hdata64 : Forall is_u64 io_data).

Lemma csum_data : csum (drop np lay_columns) = length io_data.
Proof using Hpre Hdata Halloc.
  pose proof lay_acols_range. pose proof lay_bc_range. pose proof lay_div. pose proof pow_shift as [E ?].
  assert (1 <= nparity <= 2) by apply Hpre. pose proof io_size_s as Hio.
  apply Nat2Z.inj. rewrite Hdata. unfold lay_columns. rewrite <-fmap_drop.
  assert (drop np (seqZ 0 acols) = seqZ nparity (acols - nparity)) as ->.
  { replace acols with (nparity + (acols - nparity)) at 1 by lia. rewrite seqZ_app by lia.
    apply drop_app_length'. by rewrite length_seqZ. }
  rewrite csum_cols by lia.
  replace (io_size / 8) with (s * 2 ^ (unit_shift - 3))
    by (apply Z.div_unique with 0; lia). f_equal. replace (nparity + (acols - nparity)) with acols by lia.
  unfold lay_cols, lay_bc in *. destruct (Z.eqb_spec q 0), (Z.eqb_spec r 0); nia.
Qed.

Lemma lay_base_wf : Forall col_wf lay_base.
Proof using All.
  pose proof size_wf_lay_columns as Hs. apply Forall_app. split.
  - apply Forall_lookup. intros i c. unfold lay_parity. rewrite list_lookup_imap.
    destruct (take np lay_columns !! i) as [c'|] eqn:Hc; [|done]. intros [= <-].
    assert (size_wf c') as [? ?] by (eapply Forall_lookup_1; [exact (Forall_take size_wf np _ Hs)|done]).
    split; [done|done|apply Halloc|apply Halloc64].
  - apply assign_data_wf; [by apply Forall_drop|by rewrite csum_data|done].
Qed.

Lemma the_map_wf : map_wf the_map.
Proof using All.
  pose proof lay_acols_range. pose proof lay_bc_range as (? & Hbc & _).
  assert (1 <= nparity <= 2 /\ dcols <= 255) by (destruct Hpre; lia). pose proof shift_pos.
  split; cbn [rm_firstdatacol rm_cols rm_col]; try lia.
  - rewrite <-(length_fmap rc_size), maybe_swap_proj, length_fmap, length_lay_base by done. lia.
  - apply maybe_swap_wf, lay_base_wf.
  - intros i j ci cj Hij [-> _]%the_map_size [-> _]%the_map_size. cbn [lay_col rc_size].
    apply Z.mul_le_mono_nonneg_r; [lia|]. unfold lay_rows.
    destruct (Z.ltb_spec (Z.of_nat i) bc), (Z.ltb_spec (Z.of_nat j) bc); cbn; lia.
  - intros c0 c1 [-> _]%the_map_size [-> _]%the_map_size. cbn [lay_col rc_size]. f_equal.
    unfold lay_rows, RaidzSpec.nparity. cbn [rm_firstdatacol].
    destruct (Z.ltb_spec (Z.of_nat 0) bc), (Z.ltb_spec (Z.of_nat np) bc); cbn; lia.
Qed.

Lemma the_map_data : concat (rc_data <$> data_columns the_map) = io_data.
Proof using Hpre Hdata Halloc.
  pose proof lay_acols_range. assert (1 <= nparity <= 2) by apply Hpre.
  unfold data_columns, RaidzSpec.nparity. cbn [rm_firstdatacol rm_col].
  rewrite fmap_drop, maybe_swap_proj by done. rewrite <-fmap_drop. unfold lay_base.
  rewrite drop_app_length'.
  - rewrite assign_data_concat, csum_data. by rewrite take_ge.
  - unfold lay_parity. rewrite length_imap, length_take, length_lay_columns. lia.
Qed.
End layout.

(** The buffers of [zio_buf_alloc] in the examples: words of ones. *)
Definition example_alloc (c : nat) (size : Z) : list Z := replicate (Z.to_nat (size / 8)) (2 ^ 64 - 1).

Lemma example_alloc_length c size : length (example_alloc c size) = Z.to_nat (size / 8).
Proof. apply length_replicate. Qed.

Lemma example_alloc_u64 c size : Forall is_u64 (example_alloc c size).
Proof. apply Forall_replicate. unfold is_u64. lia. Qed.

Lemma alloc_some alloc io_offset io_size io_data unit_shift dcols nparity rm :
  alloc_pre io_offset io_size unit_shift dcols nparity ->
  vdev_raidz_map_alloc alloc io_offset io_size io_data unit_shift dcols nparity = Some rm ->
  rm = mk_map (lay_cols (io_size / 2 ^ unit_shift) dcols nparity)
         (lay_bc (io_size / 2 ^ unit_shift) dcols nparity)
         (lay_asize io_size unit_shift dcols nparity) 0 0 nparity
         (maybe_swap ((nparity =? 1) && negb (Z.land io_offset (Z.shiftl 1 20) =? 0))
            (lay_base io_offset io_size unit_shift dcols nparity alloc io_data)).
Proof. intros Hpre H. rewrite map_alloc_eq in H by done. by injection H as <-. Qed.

(** C13: the layout of a block.  For a block of whole sectors on a RAID-Z vdev
    with 1 or 2 parity columns, [vdev_raidz_map_alloc] passes its assertions;
    the map is well-formed (so parity generation and reconstruction apply to
    it), its data columns are the block's buffer in order, its [rm_asize] is
    the space [vdev_raidz_asize] charges, and its columns are on distinct
    children. *)
Theorem vdev_raidz_map_alloc_layout (zio_buf_alloc : nat -> Z -> list Z)
    (io_offset io_size : Z) (io_data : list Z) (unit_shift dcols nparity : Z)
    (Hpre : alloc_pre io_offset io_size unit_shift dcols nparity)
    (Halloc : forall c size, length (zio_buf_alloc c size) = Z.to_nat (size / 8))
    (Halloc64 : forall c size, Forall is_u64 (zio_buf_alloc c size))
    (Hdata : Z.of_nat (length io_data) = io_size / 8) (Hdata64 : Forall is_u64 io_data) :
  exists rm,
    vdev_raidz_map_alloc zio_buf_alloc io_offset io_size io_data unit_shift dcols nparity = Some rm /\
    map_wf rm /\
    concat (rc_data <$> drop (Z.to_nat nparity) (rm_col rm)) = io_data /\
    rm_asize rm = vdev_raidz_asize unit_shift dcols nparity io_size /\
    NoDup (rc_devidx <$> rm_col rm) /\
    Forall (fun c => 0 <= rc_devidx c < dcols) (rm_col rm).
Proof.
  eexists. split; [by apply map_alloc_eq|]. split; [by apply the_map_wf|].
  split; [by apply the_map_data|]. split; [symmetry; by eapply vdev_raidz_asize_eq|].
  split; [by eapply lay_devices_distinct|]. apply Forall_lookup. intros i col Hi.
  apply the_map_place in Hi as (c & _ & E); [|done]. injection E as -> _ _.
  apply Z.mod_pos_bound. destruct Hpre. lia.
Qed.

Lemma vdev_raidz_map_alloc_layout_witness :
  exists rm,
    vdev_raidz_map_alloc example_alloc 0x100a00 2048 (replicate 256 7) 9 4 1 = Some rm /\
    map_wf rm /\ rm_asize rm = 3072.
Proof.
  destruct (vdev_raidz_map_alloc_layout example_alloc 0x100a00 2048 (replicate 256 7) 9 4 1)
    as (rm & H & Hwf & _ & Ha & _).
  - split; lia || done.
  - apply example_alloc_length.
  - apply example_alloc_u64.
  - reflexivity.
  - apply Forall_replicate. unfold is_u64. lia.
  - exists rm. split; [exact H|]. split; [exact Hwf|]. rewrite Ha. vm_compute. reflexivity.
Defined.

Lemma place_sector alloc io_offset io_size io_data unit_shift dcols nparity rm i col a :
  alloc_pre io_offset io_size unit_shift dcols nparity ->
  vdev_raidz_map_alloc alloc io_offset io_size io_data unit_shift dcols nparity = Some rm ->
  rm_col rm !! i = Some col -> rc_offset col <= a < rc_offset col + rc_size col ->
  exists n, io_offset / 2 ^ unit_shift <= n <
      io_offset / 2 ^ unit_shift + vdev_raidz_asize unit_shift dcols nparity io_size / 2 ^ unit_shift /\
    rc_devidx col = n mod dcols /\ a / 2 ^ unit_shift = n / dcols.
Proof.
  intros Hpre -> %alloc_some Hi Ha; [|done]. apply the_map_place in Hi as (c & Hc & E); [|done].
  injection E as Hd Ho Hs. pose proof (shift_pos _ _ _ _ _ Hpre) as Hpos.
  set (S := 2 ^ unit_shift) in *.
  assert (rc_offset col mod S = 0) as Hm by (rewrite Ho; apply Z.mod_mul; lia).
  set (k := (a - rc_offset col) / S).
  assert (0 <= k < lay_rows (io_size / S) dcols nparity c) as Hk.
  { unfold k. split; [apply Z.div_pos; lia|]. apply Z.div_lt_upper_bound; [lia|]. lia. }
  pose proof (lay_sector _ _ _ _ _ Hpre c k Hc Hk) as Hsec. cbn [lay_col rc_devidx rc_offset] in Hsec.
  fold S in Hsec. rewrite <-Hd, <-Ho in Hsec. revert Hsec. cbn zeta.
  generalize (io_offset / S + c + k * dcols). intros n (Hr & Hdev & Hoff).
  rewrite (vdev_raidz_asize_eq _ _ _ _ _ Hpre). exists n. split; [exact Hr|]. split; [done|].
  pose proof (Z.div_mod (a - rc_offset col) S ltac:(lia)) as Hdm. fold k in Hdm.
  pose proof (Z.mod_pos_bound (a - rc_offset col) S ltac:(lia)).
  symmetry. apply Z.div_unique with ((a - rc_offset col) mod S); lia.
Qed.

(** C14: blocks do not overlap.  When the second block starts at or after the
    end of the space allocated for the first ([vdev_raidz_asize] from its
    offset), no byte of any child belongs to a column of both. *)
Theorem vdev_raidz_blocks_disjoint (alloc : nat -> Z -> list Z) (unit_shift dcols nparity : Z)
    (off1 size1 off2 size2 : Z) (data1 data2 : list Z) (rm1 rm2 : raidz_map)
    (i1 i2 : nat) (c1 c2 : raidz_col) (addr : Z)
    (Hpre1 : alloc_pre off1 size1 unit_shift dcols nparity)
    (Hpre2 : alloc_pre off2 size2 unit_shift dcols nparity)
    (Halloc1 : vdev_raidz_map_alloc alloc off1 size1 data1 unit_shift dcols nparity = Some rm1)
    (Halloc2 : vdev_raidz_map_alloc alloc off2 size2 data2 unit_shift dcols nparity = Some rm2)
    (Hafter : off1 + vdev_raidz_asize unit_shift dcols nparity size1 <= off2)
    (Hc1 : rm_col rm1 !! i1 = Some c1) (Hc2 : rm_col rm2 !! i2 = Some c2)
    (Hdev : rc_devidx c1 = rc_devidx c2)
    (Ha1 : rc_offset c1 <= addr < rc_offset c1 + rc_size c1) :
  ~ (rc_offset c2 <= addr < rc_offset c2 + rc_size c2).
Proof.
  intros Ha2. pose proof (shift_pos _ _ _ _ _ Hpre1) as Hpos.
  destruct (place_sector _ _ _ _ _ _ _ _ _ _ _ Hpre1 Halloc1 Hc1 Ha1) as (n1 & Hn1 & Hd1 & Ho1).
  destruct (place_sector _ _ _ _ _ _ _ _ _ _ _ Hpre2 Halloc2 Hc2 Ha2) as (n2 & Hn2 & Hd2 & Ho2).
  assert (0 < dcols) by (destruct Hpre1; lia).
  assert (n1 = n2) as <-.
  { rewrite (Z.div_mod n1 dcols), (Z.div_mod n2 dcols), <-Ho1, <-Ho2, <-Hd1, <-Hd2, Hdev by lia. done. }
  assert (off1 / 2 ^ unit_shift + vdev_raidz_asize unit_shift dcols nparity size1 / 2 ^ unit_shift
          <= off2 / 2 ^ unit_shift); [|lia].
  rewrite (vdev_raidz_asize_eq _ _ _ _ _ Hpre1) in *. unfold lay_asize in *.
  rewrite Z.div_mul by lia. rewrite <-Z.div_add by lia. apply Z.div_le_mono; lia.
Qed.

Definition example_block1 : option raidz_map :=
  vdev_raidz_map_alloc example_alloc 0 1024 (replicate 128 1) 9 3 1.
Definition example_block2 : option raidz_map :=
  vdev_raidz_map_alloc example_alloc 2048 512 (replicate 64 2) 9 3 1.

Lemma vdev_raidz_blocks_disjoint_witness :
  match example_block1, example_block2 with
  | Some rm1, Some rm2 =>
      match rm_col rm1 !! 1%nat, rm_col rm2 !! 0%nat with
      | Some c1, Some c2 => rc_devidx c1 = rc_devidx c2 /\ ~ (rc_offset c2 <= 100 < rc_offset c2 + rc_size c2)
      | _, _ => False
      end
  | _, _ => False
  end.
Proof.
  destruct example_block1 as [rm1|] eqn:E1; [|vm_compute in E1; discriminate].
  destruct example_block2 as [rm2|] eqn:E2; [|vm_compute in E2; discriminate].
  destruct (rm_col rm1 !! 1%nat) as [c1|] eqn:C1; [|vm_compute in E1; injection E1 as <-; discriminate].
  destruct (rm_col rm2 !! 0%nat) as [c2|] eqn:C2; [|vm_compute in E2; injection E2 as <-; discriminate].
  assert (rc_devidx c1 = 1 /\ rc_offset c1 = 0 /\ rc_size c1 = 512) as (D1 & O1 & S1)
    by (vm_compute in E1; injection E1 as <-; injection C1 as <-; done).
  assert (rc_devidx c2 = 1) as D2 by (vm_compute in E2; injection E2 as <-; injection C2 as <-; done).
  split; [congruence|].
  apply (vdev_raidz_blocks_disjoint example_alloc 9 3 1 0 1024 2048 512 (replicate 128 1) (replicate 64 2)
    rm1 rm2 1 0 c1 c2 100); try done; try (split; lia || done); try congruence.
Defined.
