(* ===== verification/RaidzIO.v ===== *)
(** * RAID-Z I/O (src/src/lib/libzpool/vdev_raidz.c)

    [vdev_raidz_io_start], the completion of its children
    ([vdev_raidz_child_done]), [raidz_parity_verify] and the phases of
    [vdev_raidz_io_done].  Child I/Os, ereports and error counters are events
    of a log; [zio_checksum_error] and the buffers of [zio_buf_alloc] are
    arguments.  The data columns are the pieces of [io_data], so the buffer a
    checksum is computed over is their concatenation. *)
From Stdlib Require Import ZArith Lia.
From stdpp Require Import base numbers list option.
From S2P Require Import Prelude Gf256 Raidz RaidzSpec RaidzPQ RaidzMap.

Definition ESTALE : Z := 116.

Definition ZIO_FLAG_FAILFAST : Z := 0x00002.
Definition ZIO_FLAG_SPECULATIVE : Z := 0x00800.
Definition ZIO_FLAG_RESILVER : Z := 0x01000.
Definition ZIO_FLAG_SCRUB : Z := 0x02000.

Definition has_flag (flags f : Z) : bool := negb (Z.land flags f =? 0).

Inductive zio_type := ZIO_TYPE_READ | ZIO_TYPE_WRITE.

(** What a RAID-Z vdev does to the outside; a column stands for its child,
    offset and size. *)
Inductive io_event :=
  | ev_child_io (t : zio_type) (c : nat) (data : list Z)
  | ev_repair (c : nat) (data : list Z)
  | ev_checksum_error (c : nat)
  | ev_ereport (c : nat)
  | ev_corrected_p | ev_corrected_q | ev_corrected_pq.

(** What the vdev layer knows of a child: [vdev_readable], and whether the
    block's birth is in [vdev_dtl_map]. *)
Record vdev_child := mk_child { cv_readable : bool; cv_stale : bool }.

Definition set_io (e : Z) (tried skipped : bool) (c : raidz_col) : raidz_col :=
  mk_col (rc_devidx c) (rc_offset c) (rc_size c) (rc_data c) e tried skipped.
Definition set_error (rm : raidz_map) (c : nat) (e : Z) : raidz_map :=
  with_cols rm (alter (fun col => set_io e (rc_tried col) (rc_skipped col) col) c (rm_col rm)).
Definition with_missing (rm : raidz_map) (data parity : Z) : raidz_map :=
  mk_map (rm_cols rm) (rm_bigcols rm) (rm_asize rm) data parity (rm_firstdatacol rm) (rm_col rm).

(** [zio->io_data]. *)
Definition io_data (rm : raidz_map) : list Z := concat (rc_data <$> data_columns rm).

Definition all_cols (rm : raidz_map) : list nat := seq 0 (Z.to_nat (rm_cols rm)).

(** ** Starting *)

Definition vdev_raidz_child_done (rm : raidz_map) (c : nat) (io_error : Z) : raidz_map :=
  with_cols rm (alter (set_io io_error true false) c (rm_col rm)).

Definition count_missing (rm : raidz_map) (c : nat) : raidz_map :=
  if rm_firstdatacol rm <=? Z.of_nat c
  then with_missing rm (rm_missingdata rm + 1) (rm_missingparity rm)
  else with_missing rm (rm_missingdata rm) (rm_missingparity rm + 1).

(** One round of the read loop of [vdev_raidz_io_start]. *)
Definition io_start_col (flags : Z) (children : list vdev_child) (st : raidz_map * list io_event) (c : nat) :
    option (raidz_map * list io_event) :=
  let '(rm, log) := st in
  let* rc := rm_col rm !! c in
  let* cvd := children !! Z.to_nat (rc_devidx rc) in
  if negb (cv_readable cvd) then
    let rm := count_missing rm c in
    Some (with_cols rm (alter (set_io ENXIO true true) c (rm_col rm)), log)
  else if cv_stale cvd then
    let rm := count_missing rm c in
    Some (with_cols rm (alter (fun col => set_io ESTALE (rc_tried col) true col) c (rm_col rm)), log)
  else if (rm_firstdatacol rm <=? Z.of_nat c) || (0 <? rm_missingdata rm) || has_flag flags ZIO_FLAG_SCRUB then
    Some (rm, log ++ [ev_child_io ZIO_TYPE_READ c []])
  else Some (rm, log).

Definition vdev_raidz_io_start (zio_buf_alloc : nat -> Z -> list Z) (vdev_ashift vdev_nparity : Z)
    (children : list vdev_child) (t : zio_type) (flags io_offset io_size : Z) (data : list Z) :
    option (raidz_map * list io_event) :=
  let n := Z.of_nat (length children) in
  let* rm := vdev_raidz_map_alloc zio_buf_alloc io_offset io_size data vdev_ashift n vdev_nparity in
  VERIFY (rm_asize rm =? vdev_raidz_asize vdev_ashift n vdev_nparity io_size) in
  match t with
  | ZIO_TYPE_WRITE =>
      let* rm := vdev_raidz_generate_parity rm in
      Some (rm, imap (fun c rc => ev_child_io ZIO_TYPE_WRITE c (rc_data rc)) (rm_col rm))
  | ZIO_TYPE_READ =>
      foldM (io_start_col flags children) (rm, []) (rev (all_cols rm))
  end.

(** ** Verifying parity *)

Definition raidz_checksum_error (flags : Z) (c : nat) : list io_event :=
  if has_flag flags ZIO_FLAG_SPECULATIVE then [] else [ev_checksum_error c].

(** Parity columns that were read without error. *)
Definition parity_read (rc : raidz_col) : bool := rc_tried rc && (rc_error rc =? 0).

(** One round of the comparison loop; [orig] holds the saved buffers. *)
Definition parity_verify_col (flags : Z) (orig : list (list Z)) (st : raidz_map * Z * list io_event) (c : nat) :
    option (raidz_map * Z * list io_event) :=
  let '(rm, ret, log) := st in
  let* rc := rm_col rm !! c in
  if negb (parity_read rc) then Some (rm, ret, log)
  else
    let* o := orig !! c in
    if bool_decide (o = rc_data rc) then Some (rm, ret, log)
    else Some (set_error rm c ECKSUM, ret + 1, log ++ raidz_checksum_error flags c).

Definition raidz_parity_verify (flags : Z) (rm : raidz_map) : option (raidz_map * Z * list io_event) :=
  let np := Z.to_nat (rm_firstdatacol rm) in
  let orig := rc_data <$> take np (rm_col rm) in
  let* rm := vdev_raidz_generate_parity rm in
  foldM (parity_verify_col flags orig) (rm, 0, []) (seq 0 np).

(** ** Completing *)

(** The counters of the first loop of [vdev_raidz_io_done]. *)
Record io_counts := mk_counts {
  ct_io_error : Z;
  ct_numerrors : Z;
  ct_parity_errors : Z;
  ct_data_errors : Z;
  ct_unexpected : Z;
  ct_parity_untried : Z
}.

Definition count_col (firstdatacol : Z) (ct : io_counts) (c : Z) (rc : raidz_col) : io_counts :=
  let '(mk_counts err num pe de un pu) := ct in
  if negb (rc_error rc =? 0) then
    mk_counts (if negb (err =? EIO) then rc_error rc else err) (num + 1)
      (if c <? firstdatacol then pe + 1 else pe) (if c <? firstdatacol then de else de + 1)
      (if negb (rc_skipped rc) then un + 1 else un) pu
  else if (c <? firstdatacol) && negb (rc_tried rc) then mk_counts err num pe de un (pu + 1)
  else ct.

Fixpoint count_cols (firstdatacol : Z) (ct : io_counts) (c : Z) (cols : list raidz_col) : io_counts :=
  match cols with
  | [] => ct
  | rc :: cols => count_cols firstdatacol (count_col firstdatacol ct c rc) (c + 1) cols
  end.

Definition io_counts_of (rm : raidz_map) : io_counts :=
  count_cols (rm_firstdatacol rm) (mk_counts 0 0 0 0 0 0) 0 (rm_col rm).

(** [for (; c < rm_cols; c++) if (rc_error != 0) break;] *)
Fixpoint find_error_from (c : nat) (cols : list raidz_col) : option nat :=
  match cols with
  | [] => None
  | rc :: cols => if negb (rc_error rc =? 0) then Some c else find_error_from (S c) cols
  end.
Definition find_error (rm : raidz_map) (c : nat) : option nat := find_error_from c (drop c (rm_col rm)).

(** [ASSERT(!rc->rc_skipped || rc->rc_error == ENXIO || rc->rc_error == ESTALE)] *)
Definition skipped_ok (rc : raidz_col) : bool :=
  negb (rc_skipped rc) || (rc_error rc =? ENXIO) || (rc_error rc =? ESTALE).

(** Where a phase leaves: to the label [done] with the map, [io_error] and
    [unexpected_errors], or on to the next phase. *)
Inductive phase :=
  | ph_done (rm : raidz_map) (io_error unexpected : Z) (log : list io_event)
  | ph_next (rm : raidz_map) (log : list io_event).

Inductive io_result :=
  | io_reread (rm : raidz_map) (cols : list nat)
  | io_finished (rm : raidz_map) (io_error : Z) (log : list io_event)
  | io_write_done (io_error : Z).

Section io_done.
Context (zio_checksum_error : list Z -> Z) (zio_buf_alloc : nat -> Z -> list Z).
Context (flags : Z) (spa_writeable : bool).

Definition checksum_ok (rm : raidz_map) : bool := zio_checksum_error (io_data rm) =? 0.

(** [vdev_raidz_reconstruct_pq] with the buffers it allocates. *)
Definition reconstruct_pq_alloc (rm : raidz_map) (x y : nat) : option raidz_map :=
  let* pc := rm_col rm !! VDEV_RAIDZ_P in
  let* qc := rm_col rm !! VDEV_RAIDZ_Q in
  vdev_raidz_reconstruct_pq (zio_buf_alloc 0 (rc_size pc)) (zio_buf_alloc 1 (rc_size qc)) rm x y.

(** Regenerating and verifying the parity that was read (lines 880 to 888 and
    949 to 955). *)
Definition verify_parity (rm : raidz_map) (parity_errors unexpected : Z) (needed : bool) (log : list io_event) :
    option phase :=
  if needed || has_flag flags ZIO_FLAG_RESILVER then
    let* (st, ev) := raidz_parity_verify flags rm in
    let '(rm, n) := st in
    VERIFY (parity_errors + n <=? rm_firstdatacol rm) in
    Some (ph_done rm 0 (unexpected + n) (log ++ ev))
  else Some (ph_done rm 0 unexpected log).

(** The first phase: correctable errors. *)
Definition io_done_correctable (rm : raidz_map) (ct : io_counts) : option phase :=
  if rm_firstdatacol rm - ct_parity_untried ct <? ct_numerrors ct then Some (ph_next rm [])
  else if ct_data_errors ct =? 0 then
    if checksum_ok rm then
      verify_parity rm (ct_parity_errors ct) (ct_unexpected ct)
        (ct_parity_errors ct + ct_parity_untried ct <? rm_firstdatacol rm) []
    else Some (ph_next rm [])
  else if ct_data_errors ct =? 1 then
    VERIFY (ct_parity_untried ct =? 0) in
    VERIFY (ct_parity_errors ct <? rm_firstdatacol rm) in
    let* c := find_error rm (Z.to_nat (rm_firstdatacol rm)) in
    let* rc := rm_col rm !! c in
    VERIFY (skipped_ok rc) in
    let* pc := rm_col rm !! VDEV_RAIDZ_P in
    let* rm :=
      if rc_error pc =? 0 then vdev_raidz_reconstruct_p rm c
      else VERIFY (1 <? rm_firstdatacol rm) in vdev_raidz_reconstruct_q rm c in
    if checksum_ok rm then
      verify_parity rm (ct_parity_errors ct) (ct_unexpected ct)
        (ct_parity_errors ct <? rm_firstdatacol rm - 1)
        [if rc_error pc =? 0 then ev_corrected_p else ev_corrected_q]
    else Some (ph_next rm [])
  else if ct_data_errors ct =? 2 then
    VERIFY (rm_firstdatacol rm =? 2) in
    let* c1 := find_error rm (Z.to_nat (rm_firstdatacol rm)) in
    let* rc1 := rm_col rm !! c1 in
    VERIFY (skipped_ok rc1) in
    let* c := find_error rm (S c1) in
    let* rc := rm_col rm !! c in
    VERIFY (skipped_ok rc) in
    let* rm := reconstruct_pq_alloc rm c1 c in
    if checksum_ok rm then Some (ph_done rm 0 (ct_unexpected ct) [ev_corrected_pq])
    else Some (ph_next rm [])
  else None.

(** Columns the second phase reads: from the first untried one on, those not
    tried. *)
Definition untried (rm : raidz_map) (c : nat) : bool :=
  match rm_col rm !! c with Some rc => negb (rc_tried rc) | None => false end.
Definition untried_cols (rm : raidz_map) : list nat :=
  filter (fun c => untried rm c = true) (all_cols rm).

(** Telling a child that it returned bad data. *)
Definition blame (rm : raidz_map) (c : nat) : list io_event :=
  match rm_col rm !! c with
  | Some rc => if rc_tried rc && (rc_error rc =? 0) then raidz_checksum_error flags c else []
  | None => []
  end.

(** One attempt of combinatorial reconstruction with one column: the buffer
    is saved, and restored when the checksum still fails. *)
Definition try_one (recon : raidz_map -> nat -> option raidz_map) (corrected : io_event)
    (rm : raidz_map) (c : nat) : option phase :=
  let* rc := rm_col rm !! c in
  let* rm' := recon rm c in
  if checksum_ok rm' then
    Some (ph_done (set_error rm' c ECKSUM) 0 1 (corrected :: blame rm' c))
  else Some (ph_next (set_data rm' c (rc_data rc)) []).

(** A loop over columns that leaves on success. *)
Fixpoint try_cols (try : raidz_map -> nat -> option phase) (rm : raidz_map) (cs : list nat) : option phase :=
  match cs with
  | [] => Some (ph_next rm [])
  | c :: cs =>
      let* r := try rm c in
      match r with
      | ph_done rm e u log => Some (ph_done rm e u log)
      | ph_next rm _ => try_cols try rm cs
      end
  end.

Definition try_two (c : nat) (rm : raidz_map) (c1 : nat) : option phase :=
  let* rc1 := rm_col rm !! c1 in
  let* rm' := reconstruct_pq_alloc rm c c1 in
  if checksum_ok rm' then
    Some (ph_done (set_error (set_error rm' c ECKSUM) c1 ECKSUM) 0 1
            (ev_corrected_pq :: blame rm' c ++ blame rm' c1))
  else Some (ph_next (set_data rm' c1 (rc_data rc1)) []).

Definition try_two_cols (rm : raidz_map) (c : nat) : option phase :=
  let* rc := rm_col rm !! c in
  let* r := try_cols (try_two c) rm (seq (S c) (Z.to_nat (rm_cols rm) - S c)) in
  match r with
  | ph_done rm e u log => Some (ph_done rm e u log)
  | ph_next rm _ => Some (ph_next (set_data rm c (rc_data rc)) [])
  end.

Definition parity_good (rm : raidz_map) (c : nat) : bool :=
  match rm_col rm !! c with Some rc => rc_error rc =? 0 | None => false end.

(** Running a phase after one that did not succeed. *)
Definition and_then (r : option phase) (k : raidz_map -> option phase) : option phase :=
  let* ph := r in
  match ph with
  | ph_done rm e u log => Some (ph_done rm e u log)
  | ph_next rm _ => k rm
  end.

(** The third phase: combinatorial reconstruction, with [io_error] and
    [io_numerrors] as the first loop left them. *)
Definition io_done_combinatorial (rm : raidz_map) (ct : io_counts) : option phase :=
  if rm_firstdatacol rm <=? ct_numerrors ct then
    VERIFY (negb (ct_io_error ct =? 0)) in Some (ph_done rm (ct_io_error ct) 1 [])
  else
    and_then
      (if parity_good rm VDEV_RAIDZ_P
       then try_cols (try_one vdev_raidz_reconstruct_p ev_corrected_p) rm (data_cols rm)
       else Some (ph_next rm [])) (fun rm =>
    and_then
      (if (1 <? rm_firstdatacol rm) && parity_good rm VDEV_RAIDZ_Q
       then try_cols (try_one vdev_raidz_reconstruct_q ev_corrected_q) rm (data_cols rm)
       else Some (ph_next rm [])) (fun rm =>
    and_then
      (if (1 <? rm_firstdatacol rm) && parity_good rm VDEV_RAIDZ_P && parity_good rm VDEV_RAIDZ_Q
       then try_cols try_two_cols rm
              (seq (Z.to_nat (rm_firstdatacol rm)) (Z.to_nat (rm_cols rm) - 1 - Z.to_nat (rm_firstdatacol rm)))
       else Some (ph_next rm [])) (fun rm =>
    Some (ph_done rm ECKSUM 1
            (if has_flag flags ZIO_FLAG_SPECULATIVE then [] else ev_ereport <$> all_cols rm))))).

(** From the label [done]: repair I/Os for the columns in error. *)
Definition repairs (rm : raidz_map) : list io_event :=
  omap (fun c => rc ← rm_col rm !! c; if rc_error rc =? 0 then None else Some (ev_repair c (rc_data rc)))
    (all_cols rm).

Definition io_done_finish (rm : raidz_map) (io_error unexpected : Z) (log : list io_event) : io_result :=
  if (io_error =? 0) && spa_writeable && (negb (unexpected =? 0) || has_flag flags ZIO_FLAG_RESILVER)
  then io_finished rm io_error (log ++ repairs rm)
  else io_finished rm io_error log.

Definition vdev_raidz_io_done (t : zio_type) (rm : raidz_map) : option io_result :=
  VERIFY (rm_missingparity rm <=? rm_firstdatacol rm) in
  VERIFY (rm_missingdata rm <=? rm_cols rm - rm_firstdatacol rm) in
  let ct := io_counts_of rm in
  match t with
  | ZIO_TYPE_WRITE =>
      Some (io_write_done
        (if (ct_numerrors ct <=? rm_firstdatacol rm) && negb (has_flag flags ZIO_FLAG_FAILFAST)
         then 0 else ct_io_error ct))
  | ZIO_TYPE_READ =>
      let* ph := io_done_correctable rm ct in
      match ph with
      | ph_done rm e u log => Some (io_done_finish rm e u log)
      | ph_next rm log =>
          let rm := with_missing rm 0 0 in
          match untried_cols rm with
          | c :: cs => Some (io_reread rm (c :: cs))
          | [] =>
              let* ph := io_done_combinatorial rm ct in
              match ph with
              | ph_done rm e u log' => Some (io_done_finish rm e u log')
              | ph_next _ _ => None
              end
          end
      end
  end.
End io_done.

(** ** What the checksum guarantees *)

Lemma fmap_alter_same {A B} (f : A -> B) (g : A -> A) (l : list A) (i : nat) :
  (forall x, f (g x) = f x) -> f <$> alter g i l = f <$> l.
Proof.
  intros H. rewrite (list_fmap_alter f g id) by (apply Forall_true; intros; apply H). by apply list_alter_id.
Qed.

Lemma io_data_set_error rm c e : io_data (set_error rm c e) = io_data rm.
Proof.
  unfold io_data, data_columns, set_error. cbn [rm_col with_cols]. change (nparity (with_cols _ _)) with (nparity rm).
  f_equal. by rewrite !fmap_drop, fmap_alter_same.
Qed.

Lemma generate_parity_io_data rm rm' :
  1 <= rm_firstdatacol rm -> vdev_raidz_generate_parity rm = Some rm' ->
  io_data rm' = io_data rm /\ rm_firstdatacol rm' = rm_firstdatacol rm.
Proof.
  intros Hnp. unfold vdev_raidz_generate_parity, io_data. case_goal; bprop.
  - unfold vdev_raidz_generate_parity_p. intros (pc & _ & (p & _ & [= <-])%bind_Some)%bind_Some.
    rewrite data_columns_set_parity by (unfold nparity, VDEV_RAIDZ_P; lia). done.
  - unfold vdev_raidz_generate_parity_pq. intros (pc & _ & (qc & _ & H)%bind_Some)%bind_Some.
    case_match; [|done]. apply bind_Some in H as ([p q] & _ & [= <-]).
    rewrite !data_columns_set_parity
      by (rewrite ?nparity_set_data; unfold nparity, VDEV_RAIDZ_P, VDEV_RAIDZ_Q; lia). done.
Qed.

Lemma foldM_invariant {S A} (P : S -> Prop) (f : S -> A -> option S) l : forall s s',
  (forall s a s', P s -> f s a = Some s' -> P s') -> P s -> foldM f s l = Some s' -> P s'.
Proof.
  induction l as [|a l IH]; intros s s' Hf Hs; cbn [foldM]; [by intros [= <-]|].
  intros (s1 & H1 & H2)%bind_Some. eauto.
Qed.

Lemma parity_verify_io_data flags rm rm' n log :
  1 <= rm_firstdatacol rm -> raidz_parity_verify flags rm = Some (rm', n, log) -> io_data rm' = io_data rm.
Proof.
  intros Hnp. unfold raidz_parity_verify. intros (rm1 & Hg & Hf)%bind_Some.
  apply generate_parity_io_data in Hg as [Hg _]; [|done].
  apply (foldM_invariant (fun st => io_data st.1.1 = io_data rm)) in Hf; [done| |done].
  intros [[m r] l] c [[m' r'] l'] Hm. cbn [fst] in *. unfold parity_verify_col.
  intros (rc & _ & H)%bind_Some. case_match; [by injection H as <- <- <-|].
  apply bind_Some in H as (o & _ & H). case_match; injection H as <- <- <-; [done|].
  by rewrite io_data_set_error.
Qed.

Section integrity.
Context (zio_checksum_error : list Z -> Z) (zio_buf_alloc : nat -> Z -> list Z) (flags : Z).

#[local] Abbreviation ok rm := (zio_checksum_error (io_data rm) = 0).

(** A phase that ends without an error has data the checksum accepts. *)
Definition phase_ok (ph : phase) : Prop :=
  match ph with ph_done rm e _ _ => e = 0 -> ok rm | ph_next _ _ => True end.

Lemma verify_parity_ok rm pe u needed log ph :
  1 <= rm_firstdatacol rm -> ok rm -> verify_parity flags rm pe u needed log = Some ph -> phase_ok ph.
Proof.
  intros Hnp Hok. unfold verify_parity. case_goal; [|by intros [= <-] _].
  intros ([[rm' n] ev] & Hv & H)%bind_Some. cbn beta zeta in H. case_match; [|done].
  injection H as <-. intros _. by erewrite parity_verify_io_data.
Qed.

Lemma reconstruct_p_np rm x rm' : vdev_raidz_reconstruct_p rm x = Some rm' -> rm_firstdatacol rm' = rm_firstdatacol rm.
Proof.
  unfold vdev_raidz_reconstruct_p. intros (? & _ & (? & _ & H)%bind_Some)%bind_Some.
  repeat case_match; try done. by apply bind_Some in H as (? & _ & (? & _ & [= <-])%bind_Some).
Qed.

Lemma reconstruct_q_np rm x rm' : vdev_raidz_reconstruct_q rm x = Some rm' -> rm_firstdatacol rm' = rm_firstdatacol rm.
Proof.
  unfold vdev_raidz_reconstruct_q. intros (? & _ & (? & _ & H)%bind_Some)%bind_Some.
  repeat case_match; try done. by apply bind_Some in H as (? & _ & (? & _ & [= <-])%bind_Some).
Qed.

Lemma io_done_correctable_ok rm ct ph :
  1 <= rm_firstdatacol rm ->
  io_done_correctable zio_checksum_error zio_buf_alloc flags rm ct = Some ph -> phase_ok ph.
Proof.
  intros Hnp. unfold io_done_correctable, checksum_ok.
  case_goal; [by intros [= <-]|]. case_goal; [|case_goal; [|case_goal; [|done]]].
  - case_goal; [|by intros [= <-]]. bprop. by apply verify_parity_ok.
  - case_goal; [|done]. case_goal; [|done]. intros (c & _ & (rc & _ & H)%bind_Some)%bind_Some.
    case_match; [|done]. apply bind_Some in H as (pc & _ & (rm' & Hr & H)%bind_Some).
    assert (rm_firstdatacol rm' = rm_firstdatacol rm) as Hnp'.
    { destruct (rc_error pc =? 0); [by eapply reconstruct_p_np|].
      destruct (1 <? rm_firstdatacol rm); [|done]. by eapply reconstruct_q_np. }
    case_match; [|by injection H as <-]. bprop. eapply verify_parity_ok; [|done|exact H]. lia.
  - case_goal; [|done]. intros (c1 & _ & (rc1 & _ & H)%bind_Some)%bind_Some.
    case_match; [|done]. apply bind_Some in H as (c & _ & (rc & _ & H)%bind_Some).
    case_match; [|done]. apply bind_Some in H as (rm' & _ & H).
    case_match; injection H as <-; [|done]. bprop. by intros _.
Qed.

Lemma try_cols_ok try cs : forall rm ph,
  (forall rm c ph, try rm c = Some ph -> phase_ok ph) -> try_cols try rm cs = Some ph -> phase_ok ph.
Proof.
  induction cs as [|c cs IH]; intros rm ph Htry; cbn [try_cols]; [by intros [= <-]|].
  intros (r & Hr & H)%bind_Some. specialize (Htry rm c r Hr) as Hok. destruct r; [by injection H as <-|eauto].
Qed.

Lemma try_one_ok recon ev rm c ph :
  try_one zio_checksum_error flags recon ev rm c = Some ph -> phase_ok ph.
Proof.
  unfold try_one, checksum_ok. intros (rc & _ & (rm' & _ & H)%bind_Some)%bind_Some.
  case_match; injection H as <-; [|done]. bprop. intros _. by rewrite io_data_set_error.
Qed.

Lemma try_two_ok c rm c1 ph :
  try_two zio_checksum_error zio_buf_alloc flags c rm c1 = Some ph -> phase_ok ph.
Proof.
  unfold try_two, checksum_ok. intros (rc & _ & (rm' & _ & H)%bind_Some)%bind_Some.
  case_match; injection H as <-; [|done]. bprop. intros _. by rewrite !io_data_set_error.
Qed.

Lemma try_two_cols_ok rm c ph :
  try_two_cols zio_checksum_error zio_buf_alloc flags rm c = Some ph -> phase_ok ph.
Proof.
  unfold try_two_cols. intros (rc & _ & (r & Hr & H)%bind_Some)%bind_Some.
  apply try_cols_ok in Hr; [|intros; by eapply try_two_ok]. by destruct r; injection H as <-.
Qed.

Lemma and_then_ok r k ph :
  (forall ph, r = Some ph -> phase_ok ph) -> (forall rm ph, k rm = Some ph -> phase_ok ph) ->
  and_then r k = Some ph -> phase_ok ph.
Proof.
  intros Hr Hk. unfold and_then. intros (p & Hp & H)%bind_Some. specialize (Hr p Hp).
  destruct p; [by injection H as <-|eauto].
Qed.

Lemma io_done_combinatorial_ok rm ct ph :
  io_done_combinatorial zio_checksum_error zio_buf_alloc flags rm ct = Some ph -> phase_ok ph.
Proof.
  unfold io_done_combinatorial. case_goal.
  { case_goal; [|done]. intros [= <-]. bprop. intros ?. congruence. }
  apply and_then_ok; [|intros rm1 ph1; apply and_then_ok; [|intros rm2 ph2; apply and_then_ok]].
  - intros ph'. case_goal; [|by intros [= <-]]. apply try_cols_ok, try_one_ok.
  - intros ph'. case_goal; [|by intros [= <-]]. apply try_cols_ok, try_one_ok.
  - intros ph'. case_goal; [|by intros [= <-]]. apply try_cols_ok, try_two_cols_ok.
  - intros rm3 ph3 [= <-]. done.
Qed.
End integrity.

(** ** The counters *)

Definition errs (l : list raidz_col) : Z := Z.of_nat (length (filter (fun c => rc_error c <> 0) l)).
Definition untrieds (l : list raidz_col) : Z :=
  Z.of_nat (length (filter (fun c => rc_error c = 0 /\ rc_tried c = false) l)).

Lemma errs_cons c l : errs (c :: l) = (if rc_error c =? 0 then 0 else 1) + errs l.
Proof.
  unfold errs. rewrite filter_cons. destruct (decide _) as [H|H], (Z.eqb_spec (rc_error c) 0); cbn [length]; lia || done.
Qed.
Lemma untrieds_cons c l :
  untrieds (c :: l) = (if (rc_error c =? 0) && negb (rc_tried c) then 1 else 0) + untrieds l.
Proof.
  unfold untrieds. rewrite filter_cons.
  destruct (decide _) as [[H1 H2]|H], (Z.eqb_spec (rc_error c) 0), (rc_tried c); cbn [length andb negb];
    lia || done || (exfalso; auto).
Qed.
Lemma errs_nonneg l : 0 <= errs l.
Proof. unfold errs. lia. Qed.

Lemma count_cols_spec np cols : forall ct c, 0 <= c ->
  let ct' := count_cols np ct c cols in
  let k := Z.to_nat (np - c) in
  ct_numerrors ct' = ct_numerrors ct + errs cols /\
  ct_parity_errors ct' = ct_parity_errors ct + errs (take k cols) /\
  ct_data_errors ct' = ct_data_errors ct + errs (drop k cols) /\
  ct_parity_untried ct' = ct_parity_untried ct + untrieds (take k cols) /\
  (ct_io_error ct' = 0 <-> ct_io_error ct = 0 /\ errs cols = 0).
Proof.
  induction cols as [|rc cols IH]; intros ct c Hc; cbn zeta.
  { rewrite take_nil, drop_nil. cbn [count_cols]. change (errs []) with 0. change (untrieds []) with 0. lia. }
  cbn [count_cols]. specialize (IH (count_col np ct c rc) (c + 1) ltac:(lia)). cbn zeta in IH.
  destruct IH as (-> & -> & -> & -> & IHe). pose proof (errs_nonneg cols).
  unfold count_col in *. destruct ct as [err num pe de un pu].
  destruct (Z.ltb_spec c np) as [Hlt|Hge].
  - replace (Z.to_nat (np - c)) with (S (Z.to_nat (np - (c + 1)))) by lia. cbn [take drop].
    rewrite !errs_cons, untrieds_cons.
    destruct (Z.eqb_spec (rc_error rc) 0) as [He|He], (rc_tried rc);
      cbn [negb andb ct_io_error ct_numerrors ct_parity_errors ct_data_errors ct_parity_untried] in *;
      rewrite IHe; destruct (Z.eqb_spec err EIO); cbn [negb]; unfold EIO in *; lia.
  - replace (Z.to_nat (np - c)) with 0%nat by lia. replace (Z.to_nat (np - (c + 1))) with 0%nat in * by lia.
    cbn [take drop]. rewrite !errs_cons, ?take_0, ?drop_0. change (errs []) with 0. change (untrieds []) with 0.
    destruct (Z.eqb_spec (rc_error rc) 0) as [He|He];
      cbn [negb andb ct_io_error ct_numerrors ct_parity_errors ct_data_errors ct_parity_untried] in *;
      rewrite IHe; destruct (Z.eqb_spec err EIO); cbn [negb]; unfold EIO in *; lia.
Qed.

Lemma io_counts_spec rm :
  let ct := io_counts_of rm in
  ct_numerrors ct = errs (rm_col rm) /\
  ct_parity_errors ct = errs (take (nparity rm) (rm_col rm)) /\
  ct_data_errors ct = errs (data_columns rm) /\
  ct_parity_untried ct = untrieds (take (nparity rm) (rm_col rm)) /\
  (ct_io_error ct = 0 <-> errs (rm_col rm) = 0).
Proof.
  cbn zeta. unfold io_counts_of, data_columns, nparity.
  destruct (count_cols_spec (rm_firstdatacol rm) (rm_col rm) (mk_counts 0 0 0 0 0 0) 0) as (H1 & H2 & H3 & H4 & H5);
    [lia|]. rewrite Z.sub_0_r in *. cbn [ct_io_error ct_numerrors ct_parity_errors ct_data_errors ct_parity_untried] in *.
  repeat split; try lia; apply H5; lia || done.
Qed.

(** C10: a read never succeeds with bad data.  Whatever the columns hold and
    whatever errors the children reported, when [vdev_raidz_io_done] finishes
    a read with [io_error == 0], through any of its phases, the buffer passes
    [zio_checksum_error]. *)
Theorem vdev_raidz_io_done_integrity (zio_checksum_error : list Z -> Z) (zio_buf_alloc : nat -> Z -> list Z)
    (flags : Z) (spa_writeable : bool) (rm rm' : raidz_map) (log : list io_event)
    (Hnp : 1 <= rm_firstdatacol rm)
    (Hdone : vdev_raidz_io_done zio_checksum_error zio_buf_alloc flags spa_writeable ZIO_TYPE_READ rm =
             Some (io_finished rm' 0 log)) :
  zio_checksum_error (io_data rm') = 0.
Proof.
  unfold vdev_raidz_io_done in Hdone. case_match; [|done]. case_match; [|done].
  apply bind_Some in Hdone as (ph & Hph & Hrest). apply io_done_correctable_ok in Hph; [|done].
  assert (forall m e u l, io_done_finish flags spa_writeable m e u l = io_finished rm' 0 log -> m = rm' /\ e = 0) as Hfin.
  { intros m e u l. unfold io_done_finish.
    destruct (_ && _); intros E; by injection E as -> -> _. }
  destruct ph as [m e u l|m l].
  - injection Hrest as Hrest. apply Hfin in Hrest as [-> ->]. by apply Hph.
  - cbn zeta in Hrest. destruct (untried_cols _); [|done]. apply bind_Some in Hrest as (ph & Hc & Hrest).
    apply io_done_combinatorial_ok in Hc. destruct ph as [m' e u l'|]; [|done].
    injection Hrest as Hrest. apply Hfin in Hrest as [-> ->]. by apply Hc.
Qed.

(** C15: a write succeeds exactly when enough columns were written.  Without
    [ZIO_FLAG_FAILFAST], [vdev_raidz_io_done] reports success for a write iff
    at most as many columns failed as there are parity columns. *)
Theorem vdev_raidz_io_done_write (zio_checksum_error : list Z -> Z) (zio_buf_alloc : nat -> Z -> list Z)
    (flags : Z) (spa_writeable : bool) (rm : raidz_map)
    (Hnp : 0 <= rm_firstdatacol rm) (Hflags : has_flag flags ZIO_FLAG_FAILFAST = false)
    (Hmp : rm_missingparity rm <= rm_firstdatacol rm)
    (Hmd : rm_missingdata rm <= rm_cols rm - rm_firstdatacol rm) :
  exists e, vdev_raidz_io_done zio_checksum_error zio_buf_alloc flags spa_writeable ZIO_TYPE_WRITE rm =
      Some (io_write_done e) /\
    (e = 0 <-> Z.of_nat (length (filter (fun c => rc_error c <> 0) (rm_col rm))) <= rm_firstdatacol rm).
Proof.
  destruct (io_counts_spec rm) as (Hn & _ & _ & _ & He). unfold vdev_raidz_io_done.
  rewrite !(proj2 (Z.leb_le _ _)) by done. eexists. split; [done|]. rewrite Hflags, Hn.
  fold (errs (rm_col rm)). cbn [negb]. rewrite andb_true_r.
  destruct (Z.leb_spec (errs (rm_col rm)) (rm_firstdatacol rm)); [done|].
  split; [|lia]. intros E. apply He in E. lia.
Qed.

(** *** Examples *)

(** A checksum that accepts one block. *)
Definition exact_checksum (good d : list Z) : Z := if bool_decide (d = good) then 0 else ECKSUM.

(** The double-parity example read back with every column tried: Q failed with
    [EIO] and left [7; 7] in its buffer, and a child silently returned bad
    data for column 3. *)
Definition example_read : raidz_map :=
  let rm := with_cols example_generated (set_io 0 true false <$> rm_col example_generated) in
  set_data (set_error (set_data rm VDEV_RAIDZ_Q [7; 7]) VDEV_RAIDZ_Q EIO) 3 [0; 0].

Definition example_done : option io_result :=
  vdev_raidz_io_done (exact_checksum (io_data example_generated)) example_alloc 0 true ZIO_TYPE_READ example_read.

Lemma vdev_raidz_io_done_integrity_witness :
  match example_done with
  | Some (io_finished rm e log) => e = 0 /\ exact_checksum (io_data example_generated) (io_data rm) = 0
  | _ => False
  end.
Proof.
  destruct example_done as [[|rm e log|]|] eqn:E; try (vm_compute in E; discriminate).
  assert (e = 0) as -> by (vm_compute in E; congruence).
  split; [done|]. apply (vdev_raidz_io_done_integrity _ example_alloc 0 true example_read rm log); [|exact E].
  vm_compute. discriminate.
Defined.

Lemma vdev_raidz_io_done_write_witness :
  exists e, vdev_raidz_io_done (fun _ => 0) example_alloc 0 true ZIO_TYPE_WRITE
      (set_error (set_error example_generated 2 EIO) 4 ENXIO) = Some (io_write_done e) /\ e = 0.
Proof.
  destruct (vdev_raidz_io_done_write (fun _ => 0) example_alloc 0 true
    (set_error (set_error example_generated 2 EIO) 4 ENXIO)) as (e & H & He);
    [vm_compute; discriminate|reflexivity|vm_compute; discriminate|vm_compute; discriminate|].
  exists e. split; [exact H|]. apply He. vm_compute. discriminate.
Defined.

(** The data comes back right, but the repair of Q writes the buffer of the
    failed read instead of the parity of the block: after combinatorial
    reconstruction [vdev_raidz_io_done] repairs every column in error without
    regenerating the parity columns among them. *)
Lemma repair_writes_bad_parity :
  exists rm log qc, example_done = Some (io_finished rm 0 log) /\
    io_data rm = io_data example_generated /\
    rm_col example_generated !! VDEV_RAIDZ_Q = Some qc /\ rc_data qc <> [7; 7] /\
    ev_repair VDEV_RAIDZ_Q [7; 7] ∈ log.
Proof.
  destruct example_done as [[|rm e log|]|] eqn:E; try (vm_compute in E; discriminate).
  destruct (rm_col example_generated !! VDEV_RAIDZ_Q) as [qc|] eqn:Q; [|vm_compute in Q; discriminate].
  exists rm, log, qc. vm_compute in E. injection E as <- <- <-. vm_compute in Q. injection Q as <-.
  split; [done|]. split; [vm_compute; done|]. split; [done|]. split; [done|].
  repeat (apply elem_of_cons; (by left) || right).
Qed.
