(* ===== verification/Avl.v ===== *)
(** * AVL trees: the code (src/src/lib/libavl/avl.c, include/sys/avl_impl.h)

    The nodes live in a heap that maps the address of each [avl_node_t] to its
    three words; NULL is 0.  The parent pointer, child index and balance are
    packed into [avl_pcb] as on LP64.  [int] child indices are [bool]s (0 is
    [false]); a dereference of an address outside the heap, and a failed
    ASSERT, give [None].  Loops take fuel: the number of nodes in the heap is
    always enough (see AvlProof.v and AvlRemove.v). *)
From Stdlib Require Import ZArith Lia.
From stdpp Require Import base numbers list option gmap.
From S2P Require Import Prelude.

Record avl_node := mk_node { avl_child0 : Z; avl_child1 : Z; avl_pcb : Z }.

Definition avl_child (n : avl_node) (i : bool) : Z := if i then avl_child1 n else avl_child0 n.

(** ** The packed word *)

Definition AVL_XPARENT (n : avl_node) : Z := Z.land (avl_pcb n) (2 ^ 64 - 8).
Definition AVL_XCHILD (n : avl_node) : bool := negb (Z.land (Z.shiftr (avl_pcb n) 2) 1 =? 0).
Definition AVL_XBALANCE (n : avl_node) : Z := Z.land (avl_pcb n) 3 - 1.

Definition with_pcb (n : avl_node) (pcb : Z) : avl_node := mk_node (avl_child0 n) (avl_child1 n) pcb.
Definition AVL_SETPARENT (p : Z) (n : avl_node) : avl_node :=
  with_pcb n (Z.lor (Z.land (avl_pcb n) 7) p).
Definition AVL_SETCHILD (c : bool) (n : avl_node) : avl_node :=
  with_pcb n (Z.lor (Z.land (avl_pcb n) (2 ^ 64 - 1 - 4)) (Z.shiftl (Z.b2z c) 2)).
Definition AVL_SETBALANCE (b : Z) (n : avl_node) : avl_node :=
  with_pcb n (Z.lor (Z.land (avl_pcb n) (2 ^ 64 - 1 - 3)) (b + 1)).
Definition set_link (i : bool) (p : Z) (n : avl_node) : avl_node :=
  if i then mk_node (avl_child0 n) p (avl_pcb n) else mk_node p (avl_child1 n) (avl_pcb n).

(** ** The tree *)

Record avl_tree := mk_avl {
  avl_root : Z;
  avl_numnodes : Z;
  heap : gmap Z avl_node
}.

Definition with_heap (t : avl_tree) (h : gmap Z avl_node) : avl_tree :=
  mk_avl (avl_root t) (avl_numnodes t) h.
Definition with_root (t : avl_tree) (r : Z) : avl_tree := mk_avl r (avl_numnodes t) (heap t).
Definition with_num (t : avl_tree) (n : Z) : avl_tree := mk_avl (avl_root t) n (heap t).

(** [*a] as a value and [a->...] as an lvalue. *)
Definition get (t : avl_tree) (a : Z) : option avl_node := heap t !! a.
Definition put (t : avl_tree) (a : Z) (f : avl_node -> avl_node) : option avl_tree :=
  let* n := heap t !! a in Some (with_heap t (<[a := f n]> (heap t))).

Definition fuel (t : avl_tree) : nat := S (size (heap t)).

Definition avl_child2balance (i : bool) : Z := if i then 1 else -1.
(** Index 0, 1, 2 of the array is [false], [false], [true]. *)
Definition avl_balance2child (b : Z) : bool := b =? 1.

(** ** Walking *)

(** [for (; node->avl_child[i] != NULL; node = node->avl_child[i]) ;] *)
Fixpoint descend (k : nat) (t : avl_tree) (i : bool) (node : Z) : option Z :=
  match k with
  | O => None
  | S k =>
      let* n := get t node in
      if avl_child n i =? 0 then Some node else descend k t i (avl_child n i)
  end.

(** The loop of [avl_walk] that goes up; 0 is NULL. *)
Fixpoint ascend (k : nat) (t : avl_tree) (right : bool) (node : Z) : option Z :=
  match k with
  | O => None
  | S k =>
      let* n := get t node in
      let was_child := AVL_XCHILD n in
      let node := AVL_XPARENT n in
      if node =? 0 then Some 0
      else if bool_decide (was_child = right) then Some node
      else ascend k t right node
  end.

(** Node to node: the code's [AVL_DATA2NODE] and [AVL_NODE2DATA] add and
    subtract [avl_offset]. *)
Definition avl_walk (t : avl_tree) (node : Z) (left : bool) : option Z :=
  if node =? 0 then Some 0
  else
    let right := negb left in
    let* n := get t node in
    if negb (avl_child n left =? 0) then descend (fuel t) t right (avl_child n left)
    else ascend (fuel t) t right node.

Definition avl_first (t : avl_tree) : option Z :=
  if avl_root t =? 0 then Some 0 else descend (fuel t) t false (avl_root t).
Definition avl_last (t : avl_tree) : option Z :=
  if avl_root t =? 0 then Some 0 else descend (fuel t) t true (avl_root t).

(** ** Searching *)

(** An [avl_index_t]. *)
Definition AVL_MKINDEX (n : Z) (c : bool) : Z := Z.lor n (Z.b2z c).
Definition AVL_INDEX2NODE (x : Z) : Z := Z.land x (2 ^ 64 - 1 - 1).
Definition AVL_INDEX2CHILD (x : Z) : bool := negb (Z.land x 1 =? 0).

Definition avl_nearest (t : avl_tree) (w : Z) (direction : bool) : option Z :=
  let child := AVL_INDEX2CHILD w in
  let node := AVL_INDEX2NODE w in
  if node =? 0 then VERIFY (avl_root t =? 0) in Some 0
  else if negb (bool_decide (child = direction)) then Some node
  else avl_walk t node direction.

(** The node found and the index of where it would go; [compar] is
    [tree->avl_compar(value, _)] on the data of a node. *)
Fixpoint find_loop (k : nat) (t : avl_tree) (compar : Z -> Z) (node prev : Z) (child : bool) :
    option (Z * Z) :=
  match k with
  | O => None
  | S k =>
      if node =? 0 then Some (0, AVL_MKINDEX prev child)
      else
        let* n := get t node in
        let diff := compar node in
        VERIFY (-1 <=? diff) && (diff <=? 1) in
        if diff =? 0 then Some (node, 0)
        else
          let child := avl_balance2child diff in
          find_loop k t compar (avl_child n child) node child
  end.

Definition avl_find (t : avl_tree) (compar : Z -> Z) : option (Z * Z) :=
  find_loop (fuel t) t compar (avl_root t) 0 false.

(** ** Rotation *)

(** [if (p != NULL) { AVL_SETPARENT(p, parent); AVL_SETCHILD(p, c); }] *)
Definition relink (t : avl_tree) (p parent : Z) (c : bool) : option avl_tree :=
  if p =? 0 then Some t
  else let* t := put t p (AVL_SETPARENT parent) in put t p (AVL_SETCHILD c).

(** [if (parent != NULL) parent->avl_child[c] = p; else tree->avl_root = p;] *)
Definition hang (t : avl_tree) (parent : Z) (c : bool) (p : Z) : option avl_tree :=
  if parent =? 0 then Some (with_root t p) else put t parent (set_link c p).

Definition avl_rotation (t : avl_tree) (node balance : Z) : option (avl_tree * bool) :=
  let left := negb (balance <? 0) in
  let right := negb left in
  let left_heavy := Z.shiftr balance 1 in
  let right_heavy := - left_heavy in
  let* n := get t node in
  let parent := AVL_XPARENT n in
  let child := avl_child n left in
  let which_child := AVL_XCHILD n in
  let* c := get t child in
  let child_bal := AVL_XBALANCE c in
  if negb (child_bal =? right_heavy) then
    let child_bal := child_bal + right_heavy in
    let cright := avl_child c right in
    let* t := put t node (set_link left cright) in
    let* t := relink t cright node left in
    let* t := put t child (set_link right node) in
    let* t := put t node (AVL_SETBALANCE (- child_bal)) in
    let* t := put t node (AVL_SETCHILD right) in
    let* t := put t node (AVL_SETPARENT child) in
    let* t := put t child (AVL_SETBALANCE child_bal) in
    let* t := put t child (AVL_SETCHILD which_child) in
    let* t := put t child (AVL_SETPARENT parent) in
    let* t := hang t parent which_child child in
    Some (t, child_bal =? 0)
  else
    let gchild := avl_child c right in
    let* g := get t gchild in
    let gleft := avl_child g left in
    let gright := avl_child g right in
    let* t := put t node (set_link left gright) in
    let* t := relink t gright node left in
    let* t := put t child (set_link right gleft) in
    let* t := relink t gleft child right in
    let* g := get t gchild in
    let balance := AVL_XBALANCE g in
    let* t := put t gchild (set_link left child) in
    let* t := put t child (AVL_SETBALANCE (if balance =? right_heavy then left_heavy else 0)) in
    let* t := put t child (AVL_SETPARENT gchild) in
    let* t := put t child (AVL_SETCHILD left) in
    let* t := put t gchild (set_link right node) in
    let* t := put t node (AVL_SETBALANCE (if balance =? left_heavy then right_heavy else 0)) in
    let* t := put t node (AVL_SETPARENT gchild) in
    let* t := put t node (AVL_SETCHILD right) in
    let* t := put t gchild (AVL_SETBALANCE 0) in
    let* t := put t gchild (AVL_SETPARENT parent) in
    let* t := put t gchild (AVL_SETCHILD which_child) in
    let* t := hang t parent which_child gchild in
    Some (t, true).

(** ** Insertion *)

(** The loop of [avl_insert] with [parent] and [which_child] on entry. *)
Fixpoint insert_loop (k : nat) (t : avl_tree) (parent : Z) (which_child : bool) : option avl_tree :=
  match k with
  | O => None
  | S k =>
      let node := parent in
      if node =? 0 then Some t
      else
        let* n := get t node in
        let old_balance := AVL_XBALANCE n in
        let new_balance := old_balance + avl_child2balance which_child in
        if new_balance =? 0 then put t node (AVL_SETBALANCE 0)
        else if negb (old_balance =? 0) then
          let* (t, _) := avl_rotation t node new_balance in Some t
        else
          let* t := put t node (AVL_SETBALANCE new_balance) in
          let* n := get t node in
          insert_loop k t (AVL_XPARENT n) (AVL_XCHILD n)
  end.

Definition avl_insert (t : avl_tree) (node : Z) (w : Z) : option avl_tree :=
  let parent := AVL_INDEX2NODE w in
  let which_child := AVL_INDEX2CHILD w in
  VERIFY (Z.land node 7 =? 0) in
  let t := with_num t (u64 (avl_numnodes t + 1)) in
  let* t := put t node (set_link false 0) in
  let* t := put t node (set_link true 0) in
  let* t := put t node (AVL_SETCHILD which_child) in
  let* t := put t node (AVL_SETBALANCE 0) in
  let* t := put t node (AVL_SETPARENT parent) in
  let* t :=
    if negb (parent =? 0) then
      let* p := get t parent in
      VERIFY (avl_child p which_child =? 0) in put t parent (set_link which_child node)
    else VERIFY (avl_root t =? 0) in Some (with_root t node) in
  insert_loop (fuel t) t parent which_child.

(** [avl_insert_here]; the comparisons are of DEBUG builds only. *)
Definition avl_insert_here (t : avl_tree) (new here : Z) (direction : bool) : option avl_tree :=
  let* n := get t here in
  let child := direction in
  let* (node, child) :=
    if negb (avl_child n child =? 0) then
      let* node := descend (fuel t) t (negb child) (avl_child n child) in Some (node, negb child)
    else Some (here, child) in
  let* n := get t node in
  VERIFY (avl_child n child =? 0) in
  avl_insert t new (AVL_MKINDEX node child).

Definition avl_add (t : avl_tree) (compar : Z -> Z) (node : Z) : option avl_tree :=
  let* (found, w) := avl_find t compar in
  VERIFY (found =? 0) in avl_insert t node w.

(** ** Removal *)

(** The [do ... while (parent != NULL)] loop of [avl_remove]. *)
Fixpoint remove_loop (k : nat) (t : avl_tree) (parent : Z) (which_child : bool) : option avl_tree :=
  match k with
  | O => None
  | S k =>
      let node := parent in
      let* n := get t node in
      let old_balance := AVL_XBALANCE n in
      let new_balance := old_balance - avl_child2balance which_child in
      let parent := AVL_XPARENT n in
      let which_child := AVL_XCHILD n in
      if old_balance =? 0 then put t node (AVL_SETBALANCE new_balance)
      else
        let* (t, go) :=
          if new_balance =? 0 then let* t := put t node (AVL_SETBALANCE new_balance) in Some (t, true)
          else avl_rotation t node new_balance in
        if go && negb (parent =? 0) then remove_loop k t parent which_child else Some t
  end.

(** Moving the neighbour [node] of an interior [delete] into its place (lines
    706 to 725): [tmp] is the address of the local variable of that name. *)
Definition swap_in (t : avl_tree) (delete tmp : Z) (d : avl_node) (left : bool) : option (Z * avl_tree) :=
  let* node := descend (fuel t) t (negb left) (avl_child d left) in
  let* n := get t node in
  let t := with_heap t (<[tmp := n]> (heap t)) in
  let* d := get t delete in
  let* t := put t node (fun _ => d) in
  let* n := get t node in
  let* t := if avl_child n left =? node then put t node (set_link left tmp) else Some t in
  let* n := get t node in
  let* t := hang t (AVL_XPARENT n) (AVL_XCHILD n) node in
  Some (node, t).

(** Exchanging an interior [delete] with its neighbour (lines 694 to 739). *)
Definition swap_neighbor (t : avl_tree) (delete tmp : Z) (d : avl_node) : option avl_tree :=
  let left := avl_balance2child (AVL_XBALANCE d) in
  let right := negb left in
  let* (node, t) := swap_in t delete tmp d left in
  let* n := get t node in
  let* t := put t (avl_child n left) (AVL_SETPARENT node) in
  let* n := get t node in
  let* t := put t (avl_child n right) (AVL_SETPARENT node) in
  let* d := get t tmp in
  let* t := put t (AVL_XPARENT d) (set_link (AVL_XCHILD d) tmp) in
  let* d := get t tmp in
  let which_child := negb (avl_child1 d =? 0) in
  if negb (avl_child d which_child =? 0) then put t (avl_child d which_child) (AVL_SETPARENT tmp)
  else Some t.

(** Unlinking a [delete] with at most one child, and rebalancing. *)
Definition unlink (t : avl_tree) (delete : Z) : option avl_tree :=
  VERIFY (0 <? avl_numnodes t) in
  let t := with_num t (avl_numnodes t - 1) in
  let* d := get t delete in
  let parent := AVL_XPARENT d in
  let which_child := AVL_XCHILD d in
  let node := if negb (avl_child0 d =? 0) then avl_child0 d else avl_child1 d in
  let* t := relink t node parent which_child in
  if parent =? 0 then Some (with_root t node)
  else
    let* t := put t parent (set_link which_child node) in
    remove_loop (fuel t) t parent which_child.

Definition avl_remove (tmp : Z) (t : avl_tree) (delete : Z) : option avl_tree :=
  let* d := get t delete in
  if negb (avl_child0 d =? 0) && negb (avl_child1 d =? 0) then
    let* t := swap_neighbor t delete tmp d in
    let* t := unlink t tmp in
    Some (with_heap t (base.delete tmp (heap t)))
  else unlink t delete.

(** ** Updates of a node's key *)

Definition AVL_REINSERT (tmp : Z) (t : avl_tree) (compar : Z -> Z) (obj : Z) : option avl_tree :=
  let* t := avl_remove tmp t obj in avl_add t compar obj.

(** [compar] is [t->avl_compar(obj, _)]; [AVL_PREV] and [AVL_NEXT] are walks. *)
Definition avl_update_lt (tmp : Z) (t : avl_tree) (compar : Z -> Z) (obj : Z) : option (avl_tree * bool) :=
  let* next := avl_walk t obj true in
  VERIFY (next =? 0) || (compar next <=? 0) in
  let* neighbor := avl_walk t obj false in
  if negb (neighbor =? 0) && (compar neighbor <? 0) then
    let* t := AVL_REINSERT tmp t compar obj in Some (t, true)
  else Some (t, false).

Definition avl_update_gt (tmp : Z) (t : avl_tree) (compar : Z -> Z) (obj : Z) : option (avl_tree * bool) :=
  let* prev := avl_walk t obj false in
  VERIFY (prev =? 0) || (0 <=? compar prev) in
  let* neighbor := avl_walk t obj true in
  if negb (neighbor =? 0) && (0 <? compar neighbor) then
    let* t := AVL_REINSERT tmp t compar obj in Some (t, true)
  else Some (t, false).

Definition avl_update (tmp : Z) (t : avl_tree) (compar : Z -> Z) (obj : Z) : option (avl_tree * bool) :=
  let* neighbor := avl_walk t obj false in
  if negb (neighbor =? 0) && (compar neighbor <? 0) then
    let* t := AVL_REINSERT tmp t compar obj in Some (t, true)
  else
    let* neighbor := avl_walk t obj true in
    if negb (neighbor =? 0) && (0 <? compar neighbor) then
      let* t := AVL_REINSERT tmp t compar obj in Some (t, true)
    else Some (t, false).

(** ** Creation and destruction *)

Definition avl_create (h : gmap Z avl_node) : avl_tree := mk_avl 0 0 h.
Definition avl_destroy (t : avl_tree) : option unit :=
  VERIFY (avl_numnodes t =? 0) in VERIFY (avl_root t =? 0) in Some tt.
Definition avl_is_empty (t : avl_tree) : bool := avl_numnodes t =? 0.

Definition CHILDBIT : Z := 1.

(** From the label [check_right_side], with [node] and [parent]. *)
Definition check_right_side (t : avl_tree) (node parent : Z) : option (Z * Z) :=
  let* n := get t node in
  if negb (avl_child1 n =? 0) then
    VERIFY (AVL_XBALANCE n =? 1) in
    let* c := get t (avl_child1 n) in
    VERIFY (avl_child0 c =? 0) && (avl_child1 c =? 0) in
    Some (avl_child1 n, node)
  else VERIFY (AVL_XBALANCE n <=? 0) in Some (node, parent).

(** From the label [done]: the node returned and the new cookie. *)
Definition destroy_done (t : avl_tree) (node parent : Z) : option (avl_tree * Z * Z) :=
  if parent =? 0 then VERIFY (node =? avl_root t) in Some (t, node, CHILDBIT)
  else let* n := get t node in Some (t, node, Z.lor parent (Z.b2z (AVL_XCHILD n))).

(** [while (node->avl_child[0] != NULL) { parent = node; node = ...; }] *)
Fixpoint descend_left (k : nat) (t : avl_tree) (node parent : Z) : option (Z * Z) :=
  match k with
  | O => None
  | S k =>
      let* n := get t node in
      if avl_child0 n =? 0 then Some (node, parent) else descend_left k t (avl_child0 n) node
  end.

(** Returns the tree, the node (0 at the end) and the cookie. *)
Definition avl_destroy_nodes (t : avl_tree) (cookie : Z) : option (avl_tree * Z * Z) :=
  if cookie =? 0 then
    let* first := avl_first t in
    if first =? 0 then Some (t, 0, CHILDBIT)
    else
      let* n := get t first in
      let* (node, parent) := check_right_side t first (AVL_XPARENT n) in
      destroy_done t node parent
  else
    let parent := Z.land cookie (2 ^ 64 - 1 - CHILDBIT) in
    if parent =? 0 then
      if negb (avl_root t =? 0) then
        VERIFY (avl_numnodes t =? 1) in Some (mk_avl 0 0 (heap t), 0, cookie)
      else Some (t, 0, cookie)
    else
      let child := negb (Z.land cookie CHILDBIT =? 0) in
      let* t := put t parent (set_link child 0) in
      VERIFY (1 <? avl_numnodes t) in
      let t := with_num t (avl_numnodes t - 1) in
      let* p := get t parent in
      if child || (avl_child1 p =? 0) then destroy_done t parent (AVL_XPARENT p)
      else
        let* (node, parent) := descend_left (fuel t) t (avl_child1 p) parent in
        let* (node, parent) := check_right_side t node parent in
        destroy_done t node parent.
