(* ===== verification/AvlTree.v ===== *)
(** * AVL trees: the mathematics

    Functional trees whose nodes carry the address and the balance of an
    [avl_node_t], their in-order sequence and balance invariant, the effect of
    a rotation, and the two ways back up to the root: after an insertion and
    after a removal.  [avl.c] treats its two mirror images at once with
    variables [left] and [right]; so do [mkn] and the lemmas here. *)
From Stdlib Require Import ZArith Lia.
From stdpp Require Import base numbers list option.
From S2P Require Import Prelude Avl.

Inductive tree :=
  | Leaf
  | Node (l : tree) (a b : Z) (r : tree).

(** The node with subtree [x] at index [d] and [y] at the other. *)
Definition mkn (d : bool) (a b : Z) (x y : tree) : tree :=
  if d then Node y a b x else Node x a b y.

Lemma mkn_negb d a b x y : mkn (negb d) a b x y = mkn d a b y x.
Proof. by destruct d. Qed.

(** The subtrees of a node by index. *)
Definition at_ (d : bool) (l r : tree) : tree := if d then r else l.

Lemma node_mkn d l a b r : Node l a b r = mkn d a b (at_ d l r) (at_ (negb d) l r).
Proof. by destruct d. Qed.

Fixpoint flat (t : tree) : list Z :=
  match t with Leaf => [] | Node l a b r => flat l ++ a :: flat r end.

Fixpoint height (t : tree) : Z :=
  match t with Leaf => 0 | Node l _ _ r => 1 + Z.max (height l) (height r) end.

(** Stored balances are right, and within one. *)
Fixpoint balanced (t : tree) : Prop :=
  match t with
  | Leaf => True
  | Node l _ b r => b = height r - height l /\ -1 <= b <= 1 /\ balanced l /\ balanced r
  end.

Definition sgn (d : bool) : Z := avl_child2balance d.

Lemma sgn_negb d : sgn (negb d) = - sgn d.
Proof. by destruct d. Qed.
Lemma sgn_cases d : sgn d = 1 \/ sgn d = -1.
Proof. destruct d; [by left|by right]. Qed.

Lemma height_nonneg t : 0 <= height t.
Proof. induction t; cbn; lia. Qed.

Lemma height_mkn d a b x y : height (mkn d a b x y) = 1 + Z.max (height x) (height y).
Proof. destruct d; cbn; lia. Qed.

Lemma balanced_mkn d a b x y :
  balanced (mkn d a b x y) <->
  b = sgn d * (height x - height y) /\ -1 <= b <= 1 /\ balanced x /\ balanced y.
Proof. destruct d; cbn [mkn balanced sgn avl_child2balance]; intuition lia. Qed.

Definition flat_mk (d : bool) (a : Z) (fx fy : list Z) : list Z :=
  if d then fy ++ a :: fx else fx ++ a :: fy.

Lemma flat_mkn d a b x y : flat (mkn d a b x y) = flat_mk d a (flat x) (flat y).
Proof. by destruct d. Qed.

(** ** Rotation *)

Definition rot1 (d : bool) (a c cb : Z) (u v x : tree) : tree :=
  mkn d c (cb - sgn d) u (mkn d a (- (cb - sgn d)) v x).
Definition rot2 (d : bool) (a c g gb : Z) (u gl gr x : tree) : tree :=
  mkn d g 0 (mkn d c (if gb =? - sgn d then sgn d else 0) u gl)
            (mkn d a (if gb =? sgn d then - sgn d else 0) gr x).

(** The rotation of the node [a] with subtrees [ch] at [d] (two levels too
    high) and [x], and whether the result is lower than it was. *)
Definition rotate (d : bool) (a : Z) (ch x : tree) : tree * bool :=
  match ch with
  | Leaf => (Leaf, false)
  | Node cl c cb cr =>
      let u := at_ d cl cr in
      let v := at_ (negb d) cl cr in
      if cb =? - sgn d then
        match v with
        | Leaf => (Leaf, false)
        | Node gl g gb gr => (rot2 d a c g gb u (at_ d gl gr) (at_ (negb d) gl gr) x, true)
        end
      else (rot1 d a c cb u v x, cb - sgn d =? 0)
  end.

Lemma rot1_flat d a b c cb u v x :
  flat (rot1 d a c cb u v x) = flat (mkn d a b (mkn d c cb u v) x).
Proof. destruct d; cbn; by rewrite <-app_assoc. Qed.

Lemma rot2_flat d a b c cb g gb u gl gr x :
  flat (rot2 d a c g gb u gl gr x) = flat (mkn d a b (mkn d c cb u (mkn (negb d) g gb gr gl)) x).
Proof. destruct d; cbn; repeat (rewrite <-app_assoc; cbn [app]); done. Qed.

Lemma rotate_spec d a b ch x :
  balanced ch -> balanced x -> height ch = height x + 2 ->
  let '(s, shorter) := rotate d a ch x in
  balanced s /\ flat s = flat (mkn d a b ch x) /\
  height s = height x + 3 - Z.b2z shorter /\
  (shorter = false -> exists l c r, ch = Node l c 0 r).
Proof.
  intros Hch Hx Hh. pose proof (height_nonneg x). destruct ch as [|cl c cb cr]; [cbn in Hh; lia|].
  unfold rotate. rewrite (node_mkn d) in Hch, Hh |- *.
  revert Hch Hh. generalize (at_ d cl cr) (at_ (negb d) cl cr). intros u v Hch Hh.
  apply balanced_mkn in Hch as (Hcb & Hcb1 & Hu & Hv). rewrite height_mkn in Hh.
  pose proof (sgn_cases d) as Hs. destruct (Z.eqb_spec cb (- sgn d)) as [E|E].
  - destruct v as [|gl g gb gr].
    { cbn [height] in *. pose proof (height_nonneg u). nia. }
    rewrite (node_mkn d gl) in Hcb, Hh, Hv |- *.
    revert Hcb Hh Hv. generalize (at_ d gl gr) (at_ (negb d) gl gr). intros p q Hcb Hh Hv. apply balanced_mkn in Hv as (Hgb & Hgb1 & Hp & Hq). rewrite height_mkn in *.
    split; [|split; [|split; [|done]]].
    + unfold rot2. rewrite !balanced_mkn, !height_mkn.
      destruct (Z.eqb_spec gb (- sgn d)), (Z.eqb_spec gb (sgn d)); destruct Hs as [Hs|Hs]; rewrite Hs in *;
        repeat split; try done; lia.
    + rewrite (rot2_flat d a b c cb). by rewrite mkn_negb.
    + unfold rot2. rewrite !height_mkn. cbn [Z.b2z]. destruct Hs as [Hs|Hs]; rewrite Hs in *; lia.
  - split; [|split; [|split]].
    + unfold rot1. rewrite !balanced_mkn, !height_mkn.
      destruct Hs as [Hs|Hs]; rewrite Hs in *; repeat split; try done; lia.
    + apply rot1_flat.
    + unfold rot1. rewrite !height_mkn. destruct (Z.eqb_spec (cb - sgn d) 0); cbn [Z.b2z];
        destruct Hs as [Hs|Hs]; rewrite Hs in *; lia.
    + intros Hne%Z.eqb_neq. assert (cb = 0) as -> by (destruct Hs as [Hs|Hs]; rewrite Hs in *; lia).
      destruct d; cbn; eauto.
Qed.

(** ** The way from a subtree up to the root *)

(** A node on the way: the subtree is at index [f_dir], the rest is
    [f_other]. *)
Record frame := mk_frame { f_dir : bool; f_addr : Z; f_bal : Z; f_other : tree }.

(** Innermost first. *)
Fixpoint plug (ctx : list frame) (s : tree) : tree :=
  match ctx with
  | [] => s
  | f :: ctx => plug ctx (mkn (f_dir f) (f_addr f) (f_bal f) s (f_other f))
  end.

Fixpoint before (ctx : list frame) : list Z :=
  match ctx with
  | [] => []
  | f :: ctx => before ctx ++ if f_dir f then flat (f_other f) ++ [f_addr f] else []
  end.
Fixpoint after (ctx : list frame) : list Z :=
  match ctx with
  | [] => []
  | f :: ctx => (if f_dir f then [] else f_addr f :: flat (f_other f)) ++ after ctx
  end.

Lemma flat_plug ctx : forall s, flat (plug ctx s) = before ctx ++ flat s ++ after ctx.
Proof.
  induction ctx as [|[d a b o] ctx IH]; intros s; cbn [plug before after f_dir f_addr f_bal f_other].
  { by rewrite app_nil_r. }
  rewrite IH, flat_mkn. destruct d; cbn [flat_mk]; rewrite <-?app_assoc; cbn [app]; by rewrite ?app_nil_r.
Qed.

(** The context is balanced around a subtree of height [h]. *)
Fixpoint ctx_balanced (ctx : list frame) (h : Z) : Prop :=
  match ctx with
  | [] => True
  | f :: ctx =>
      f_bal f = sgn (f_dir f) * (h - height (f_other f)) /\ -1 <= f_bal f <= 1 /\
      balanced (f_other f) /\ ctx_balanced ctx (1 + Z.max h (height (f_other f)))
  end.

Lemma balanced_plug ctx : forall s, balanced (plug ctx s) <-> balanced s /\ ctx_balanced ctx (height s).
Proof.
  induction ctx as [|[d a b o] ctx IH]; intros s; cbn [plug ctx_balanced f_dir f_addr f_bal f_other]; [tauto|].
  rewrite IH, balanced_mkn, height_mkn. tauto.
Qed.

(** [avl_insert]'s loop: the subtree [s] has just grown by one level. *)
Fixpoint ins_fix (ctx : list frame) (s : tree) : tree :=
  match ctx with
  | [] => s
  | f :: ctx =>
      let d := f_dir f in
      let nb := f_bal f + sgn d in
      if nb =? 0 then plug ctx (mkn d (f_addr f) 0 s (f_other f))
      else if negb (f_bal f =? 0) then plug ctx (rotate d (f_addr f) s (f_other f)).1
      else ins_fix ctx (mkn d (f_addr f) nb s (f_other f))
  end.

(** [avl_remove]'s loop: the subtree [s] has just lost a level. *)
Fixpoint del_fix (ctx : list frame) (s : tree) : tree :=
  match ctx with
  | [] => s
  | f :: ctx =>
      let d := f_dir f in
      let nb := f_bal f - sgn d in
      if f_bal f =? 0 then plug ctx (mkn d (f_addr f) nb s (f_other f))
      else if nb =? 0 then del_fix ctx (mkn d (f_addr f) 0 s (f_other f))
      else
        let '(s', shorter) := rotate (negb d) (f_addr f) (f_other f) s in
        if shorter then del_fix ctx s' else plug ctx s'
  end.

(** A subtree that can be higher on one side only because of its last
    insertion: the new leaf itself, or not balanced. *)
Definition grown (s : tree) (h0 : Z) : Prop :=
  height s = h0 + 1 /\ (h0 = 0 \/ forall l a r, s <> Node l a 0 r).

Lemma ins_fix_spec ctx : forall s h0,
  balanced s -> ctx_balanced ctx h0 -> grown s h0 -> 0 <= h0 ->
  balanced (ins_fix ctx s) /\ flat (ins_fix ctx s) = before ctx ++ flat s ++ after ctx.
Proof.
  induction ctx as [|[d a b o] ctx IH]; intros s h0 Hs Hc [Hh Hg] Hh0; cbn [ins_fix before after].
  { split; [done|]. by rewrite app_nil_r. }
  cbn [f_dir f_addr f_bal f_other]. destruct Hc as (Hb & Hb1 & Ho & Hc). cbn [f_dir f_bal f_other] in *.
  pose proof (sgn_cases d) as Hsg. pose proof (height_nonneg o).
  assert (forall s', flat s' = flat (mkn d a b s o) -> before ctx ++ flat s' ++ after ctx =
    (before ctx ++ (if d then flat o ++ [a] else [])) ++ flat s ++ (if d then [] else a :: flat o) ++ after ctx) as Hflat.
  { intros s' ->. rewrite flat_mkn. destruct d; cbn [flat_mk]; rewrite <-?app_assoc; cbn [app]; by rewrite ?app_nil_r. }
  destruct (Z.eqb_spec (b + sgn d) 0) as [E|E]; [|destruct (Z.eqb_spec b 0) as [E2|E2]; cbn [negb]].
  - split.
    + apply balanced_plug. rewrite balanced_mkn, height_mkn.
      replace (1 + _) with (1 + Z.max h0 (height o)) by (destruct Hsg as [Hsg|Hsg]; rewrite Hsg in *; lia).
      split; [|done]. destruct Hsg as [Hsg|Hsg]; rewrite Hsg in *; repeat split; try done; lia.
    + rewrite flat_plug. apply Hflat. by rewrite !flat_mkn.
  - destruct (IH (mkn d a (b + sgn d) s o) (1 + Z.max h0 (height o))) as [IH1 IH2].
    + rewrite balanced_mkn. destruct Hsg as [Hsg|Hsg]; rewrite Hsg in *; repeat split; try done; lia.
    + done.
    + split; [rewrite height_mkn; destruct Hsg as [Hsg|Hsg]; rewrite Hsg in *; lia|].
      right. intros l a' r. destruct d; cbn; injection 1; lia.
    + lia.
    + split; [done|]. rewrite IH2. apply Hflat. by rewrite !flat_mkn.
  - assert (height s = height o + 2) as Hho by (destruct Hsg as [Hsg|Hsg]; rewrite Hsg in *; lia).
    pose proof (rotate_spec d a b s o Hs Ho Hho) as Hr. destruct (rotate d a s o) as [s' sh]. cbn [fst].
    destruct Hr as (Hb' & Hf' & Hh' & Hsh). destruct sh.
    + cbn [Z.b2z] in Hh'. split; [|rewrite flat_plug; by apply Hflat].
      apply balanced_plug. split; [done|]. rewrite Hh'.
      replace (height o + 3 - 1) with (1 + Z.max h0 (height o)) by lia. done.
    + destruct (Hsh eq_refl) as (l & c & r & ->). destruct Hg as [->|Hg]; [lia|]. by destruct (Hg l c r).
Qed.

Lemma del_fix_spec ctx : forall s,
  balanced s -> ctx_balanced ctx (height s + 1) ->
  balanced (del_fix ctx s) /\ flat (del_fix ctx s) = before ctx ++ flat s ++ after ctx.
Proof.
  induction ctx as [|[d a b o] ctx IH]; intros s Hs Hc; cbn [del_fix before after].
  { split; [done|]. by rewrite app_nil_r. }
  cbn [f_dir f_addr f_bal f_other]. destruct Hc as (Hb & Hb1 & Ho & Hc). cbn [f_dir f_bal f_other] in *.
  pose proof (sgn_cases d) as Hsg. pose proof (height_nonneg o). pose proof (height_nonneg s).
  assert (forall s', flat s' = flat (mkn d a b s o) -> before ctx ++ flat s' ++ after ctx =
    (before ctx ++ (if d then flat o ++ [a] else [])) ++ flat s ++ (if d then [] else a :: flat o) ++ after ctx) as Hflat.
  { intros s' ->. rewrite flat_mkn. destruct d; cbn [flat_mk]; rewrite <-?app_assoc; cbn [app]; by rewrite ?app_nil_r. }
  destruct (Z.eqb_spec b 0) as [E|E]; [|destruct (Z.eqb_spec (b - sgn d) 0) as [E2|E2]].
  - split; [|rewrite flat_plug; apply Hflat; by rewrite !flat_mkn].
    apply balanced_plug. rewrite balanced_mkn, height_mkn.
    replace (1 + Z.max (height s) (height o)) with (1 + Z.max (height s + 1) (height o))
      by (destruct Hsg as [Hsg|Hsg]; rewrite Hsg in *; lia).
    split; [|done]. destruct Hsg as [Hsg|Hsg]; rewrite Hsg in *; repeat split; try done; lia.
  - destruct (IH (mkn d a 0 s o)) as [IH1 IH2].
    + rewrite balanced_mkn. destruct Hsg as [Hsg|Hsg]; rewrite Hsg in *; repeat split; try done; lia.
    + rewrite height_mkn. replace (_ + 1) with (1 + Z.max (height s + 1) (height o))
        by (destruct Hsg as [Hsg|Hsg]; rewrite Hsg in *; lia). done.
    + split; [done|]. rewrite IH2. apply Hflat. by rewrite !flat_mkn.
  - assert (height o = height s + 2) as Hho by (destruct Hsg as [Hsg|Hsg]; rewrite Hsg in *; lia).
    pose proof (rotate_spec (negb d) a b o s Ho Hs Hho) as Hr.
    destruct (rotate (negb d) a o s) as [s' sh]. destruct Hr as (Hb' & Hf' & Hh' & _).
    rewrite mkn_negb in Hf'. destruct sh; cbn [Z.b2z] in Hh'.
    + destruct (IH s' Hb') as [IH1 IH2].
      * rewrite Hh'. replace (height s + 3 - 1 + 1) with (1 + Z.max (height s + 1) (height o)) by lia. done.
      * split; [done|]. rewrite IH2. by apply Hflat.
    + split; [|rewrite flat_plug; by apply Hflat]. apply balanced_plug. split; [done|].
      rewrite Hh'. replace (height s + 3 - 0) with (1 + Z.max (height s + 1) (height o)) by lia. done.
Qed.
