(* ===== verification/AvlProof.v ===== *)
(** * AVL trees: the heap represents a functional tree

    The packed word of a node, the representation of functional trees and of
    contexts in the heap, and that [avl_rotation], [avl_find], [avl_insert]
    and the walks do to the heap what the functional operations of AvlTree.v
    do to the tree. *)
From Stdlib Require Import ZArith Lia.
From stdpp Require Import base numbers list option gmap.
From S2P Require Import Prelude Avl AvlTree.

(** ** The packed word *)

Definition pack (p : Z) (c : bool) (b : Z) : Z := p + (4 * Z.b2z c + (b + 1)).

Definition is_ptr (a : Z) : Prop := a mod 8 = 0 /\ 0 < a < 2 ^ 64.
(** A pointer or NULL. *)
Definition is_ptr0 (a : Z) : Prop := a = 0 \/ is_ptr a.

Lemma testbit_8 k lo i :
  0 <= i -> 0 <= lo < 8 -> Z.testbit (8 * k + lo) i = if i <? 3 then Z.testbit lo i else Z.testbit k (i - 3).
Proof.
  intros Hi Hlo. replace (8 * k + lo) with (Z.lor (Z.shiftl k 3) lo)
    by (rewrite lor_shiftl_add by lia; lia).
  rewrite Z.lor_spec. destruct (Z.ltb_spec i 3).
  - by rewrite Z.shiftl_spec_low.
  - rewrite Z.shiftl_spec by lia. rewrite <-(Z.mod_small lo (2 ^ 3)), Z.mod_pow2_bits_high, orb_false_r by lia. done.
Qed.

Lemma op_split (op : Z -> Z -> Z) (f : bool -> bool -> bool) k1 k2 lo1 lo2 :
  (forall a b i, 0 <= i -> Z.testbit (op a b) i = f (Z.testbit a i) (Z.testbit b i)) ->
  0 <= lo1 < 8 -> 0 <= lo2 < 8 -> 0 <= op lo1 lo2 < 8 ->
  op (8 * k1 + lo1) (8 * k2 + lo2) = 8 * op k1 k2 + op lo1 lo2.
Proof.
  intros Hop H1 H2 H3. apply Z.bits_inj'. intros i Hi. rewrite Hop, !testbit_8 by done.
  destruct (Z.ltb_spec i 3); rewrite Hop by lia; done.
Qed.

Definition low8 : list Z := seqZ 0 8.
Lemma low8_forall (f : Z -> Z -> bool) :
  forallb (fun a => forallb (f a) low8) low8 = true ->
  forall a b, 0 <= a < 8 -> 0 <= b < 8 -> f a b = true.
Proof.
  intros H a b Ha Hb. rewrite forallb_forall in H. specialize (H a). rewrite forallb_forall in H.
  apply H; apply list_elem_of_In, elem_of_seqZ; lia.
Qed.

Lemma land_8 k1 k2 lo1 lo2 : 0 <= lo1 < 8 -> 0 <= lo2 < 8 ->
  Z.land (8 * k1 + lo1) (8 * k2 + lo2) = 8 * Z.land k1 k2 + Z.land lo1 lo2.
Proof.
  intros H1 H2. apply (op_split Z.land andb); [intros; apply Z.land_spec|done|done|].
  pose proof (low8_forall (fun a b => (0 <=? Z.land a b) && (Z.land a b <? 8)) ltac:(vm_compute; reflexivity)
    lo1 lo2 H1 H2) as H. cbn beta in H. bprop. lia.
Qed.

Lemma lor_8 k1 k2 lo1 lo2 : 0 <= lo1 < 8 -> 0 <= lo2 < 8 ->
  Z.lor (8 * k1 + lo1) (8 * k2 + lo2) = 8 * Z.lor k1 k2 + Z.lor lo1 lo2.
Proof.
  intros H1 H2. apply (op_split Z.lor orb); [intros; apply Z.lor_spec|done|done|].
  pose proof (low8_forall (fun a b => (0 <=? Z.lor a b) && (Z.lor a b <? 8)) ltac:(vm_compute; reflexivity)
    lo1 lo2 H1 H2) as H. cbn beta in H. bprop. lia.
Qed.

(** Masking keeps the high part and acts on the low three bits. *)
Lemma land_mask k lo m : 0 <= k < 2 ^ 61 -> 0 <= lo < 8 -> 0 <= m < 8 ->
  Z.land (8 * k + lo) (8 * (2 ^ 61 - 1) + m) = 8 * k + Z.land lo m.
Proof.
  intros Hk Hlo Hm. rewrite land_8 by done. f_equal. f_equal.
  rewrite land_ones_mod by lia. by apply Z.mod_small.
Qed.

Lemma land_low k lo m : 0 <= lo < 8 -> 0 <= m < 8 -> Z.land (8 * k + lo) m = Z.land lo m.
Proof.
  intros Hlo Hm. replace m with (8 * 0 + m) at 1 by lia. rewrite land_8, Z.land_0_r by done. lia.
Qed.

Lemma lor_low k lo m : 0 <= lo < 8 -> 0 <= m < 8 -> Z.lor (8 * k + lo) m = 8 * k + Z.lor lo m.
Proof.
  intros Hlo Hm. replace m with (8 * 0 + m) at 1 by lia. by rewrite lor_8, Z.lor_0_r.
Qed.

Lemma lor_high k lo : 0 <= lo < 8 -> Z.lor lo (8 * k) = 8 * k + lo.
Proof.
  intros Hlo. replace (8 * k) with (8 * k + 0) at 1 by lia. replace lo with (8 * 0 + lo) at 1 by lia.
  by rewrite lor_8, Z.lor_0_l, Z.lor_0_r by lia.
Qed.

Definition packed (n : avl_node) (p : Z) (c : bool) (b : Z) : Prop := avl_pcb n = pack p c b.
Definition is_bal (b : Z) : Prop := -1 <= b <= 1.

Lemma is_bal_cases b : is_bal b -> b = -1 \/ b = 0 \/ b = 1.
Proof. unfold is_bal. lia. Qed.

Lemma ptr0_8 p : is_ptr0 p -> exists k, p = 8 * k /\ 0 <= k < 2 ^ 61.
Proof.
  intros [->|[Hm Hr]]; [exists 0; lia|]. exists (p / 8). pose proof (Z.div_mod p 8). lia.
Qed.

Lemma pack_8 p c b : is_ptr0 p -> is_bal b ->
  exists k lo, pack p c b = 8 * k + lo /\ p = 8 * k /\ 0 <= k < 2 ^ 61 /\ lo = 4 * Z.b2z c + (b + 1) /\ 0 <= lo < 8.
Proof.
  intros (k & -> & Hk)%ptr0_8 Hb. exists k, (4 * Z.b2z c + (b + 1)). unfold pack, is_bal in *.
  destruct c; cbn [Z.b2z]; lia.
Qed.

Lemma xparent_pack n p c b : packed n p c b -> is_ptr0 p -> is_bal b -> AVL_XPARENT n = p.
Proof.
  intros Hn Hp Hb. destruct (pack_8 p c b Hp Hb) as (k & lo & E & -> & Hk & _ & Hlo).
  unfold AVL_XPARENT. rewrite Hn, E. change (2 ^ 64 - 8) with (8 * (2 ^ 61 - 1) + 0).
  rewrite land_mask, Z.land_0_r by lia. lia.
Qed.

Lemma xbalance_pack n p c b : packed n p c b -> is_ptr0 p -> is_bal b -> AVL_XBALANCE n = b.
Proof.
  intros Hn Hp Hb. destruct (pack_8 p c b Hp Hb) as (k & lo & E & -> & Hk & Hlo' & Hlo).
  unfold AVL_XBALANCE. rewrite Hn, E, land_low by lia. rewrite Hlo'.
  destruct (is_bal_cases b Hb) as [->|[->| ->]], c; reflexivity.
Qed.

Lemma xchild_pack n p c b : packed n p c b -> is_ptr0 p -> is_bal b -> AVL_XCHILD n = c.
Proof.
  intros Hn Hp Hb. destruct (pack_8 p c b Hp Hb) as (k & lo & E & -> & Hk & Hlo' & Hlo).
  unfold AVL_XCHILD. rewrite Hn, E. replace (Z.shiftr (8 * k + lo) 2) with (2 * k + lo / 4)
    by (rewrite Z.shiftr_div_pow2 by lia; change (2 ^ 2) with 4; Z.div_mod_to_equations; lia).
  pose proof (land_ones_mod (2 * k + lo / 4) 1 ltac:(lia)) as Hm. change (2 ^ 1 - 1) with 1 in Hm.
  rewrite Hm, Hlo'. change (2 ^ 1) with 2. rewrite (Z.add_comm (2 * k)), (Z.mul_comm 2), Z.mod_add by lia.
  destruct (is_bal_cases b Hb) as [->|[->| ->]], c; reflexivity.
Qed.

Lemma setparent_pack n p c b q :
  packed n p c b -> is_ptr0 p -> is_bal b -> is_ptr0 q -> packed (AVL_SETPARENT q n) q c b.
Proof.
  intros Hn Hp Hb Hq. destruct (pack_8 p c b Hp Hb) as (k & lo & E & -> & Hk & Hlo' & Hlo).
  destruct (pack_8 q c b Hq Hb) as (j & lo2 & E2 & -> & Hj & Hlo2' & Hlo2).
  unfold packed, AVL_SETPARENT. cbn [with_pcb avl_pcb]. rewrite Hn, E, E2, land_low by lia.
  replace (Z.land lo 7) with lo by (change 7 with (2 ^ 3 - 1); rewrite land_ones_mod, Z.mod_small; lia).
  rewrite lor_high; lia.
Qed.

Lemma setchild_pack n p c b c' :
  packed n p c b -> is_ptr0 p -> is_bal b -> packed (AVL_SETCHILD c' n) p c' b.
Proof.
  intros Hn Hp Hb. destruct (pack_8 p c b Hp Hb) as (k & lo & E & -> & Hk & Hlo' & Hlo).
  unfold packed, AVL_SETCHILD. cbn [with_pcb avl_pcb]. rewrite Hn, E.
  change (2 ^ 64 - 1 - 4) with (8 * (2 ^ 61 - 1) + 3). rewrite land_mask by lia.
  rewrite Hlo'. unfold pack.
  destruct (is_bal_cases b Hb) as [->|[->| ->]], c, c'; (rewrite lor_low; [reflexivity|by vm_compute..]).
Qed.

Lemma setbalance_pack n p c b b' :
  packed n p c b -> is_ptr0 p -> is_bal b -> is_bal b' -> packed (AVL_SETBALANCE b' n) p c b'.
Proof.
  intros Hn Hp Hb Hb'. destruct (pack_8 p c b Hp Hb) as (k & lo & E & -> & Hk & Hlo' & Hlo).
  unfold packed, AVL_SETBALANCE. cbn [with_pcb avl_pcb]. rewrite Hn, E.
  change (2 ^ 64 - 1 - 3) with (8 * (2 ^ 61 - 1) + 4). rewrite land_mask by lia.
  rewrite Hlo'. unfold pack.
  destruct (is_bal_cases b Hb) as [->|[->| ->]], (is_bal_cases b' Hb') as [->|[->| ->]], c;
    (rewrite lor_low; [reflexivity|by vm_compute..]).
Qed.

(** ** Nodes by index *)

Definition node_of (d : bool) (x y w : Z) : avl_node := if d then mk_node y x w else mk_node x y w.

Lemma node_of_negb d x y w : node_of (negb d) x y w = node_of d y x w.
Proof. by destruct d. Qed.
Lemma child_same d x y w : avl_child (node_of d x y w) d = x.
Proof. by destruct d. Qed.
Lemma child_other d x y w : avl_child (node_of d x y w) (negb d) = y.
Proof. by destruct d. Qed.
Lemma set_link_same d x y w z : set_link d z (node_of d x y w) = node_of d z y w.
Proof. by destruct d. Qed.
Lemma set_link_other d x y w z : set_link (negb d) z (node_of d x y w) = node_of d x z w.
Proof. by destruct d. Qed.

Lemma node_of_eq d x y w n :
  avl_child n d = x -> avl_child n (negb d) = y -> avl_pcb n = w -> n = node_of d x y w.
Proof. destruct n, d; cbn; by intros -> -> ->. Qed.

Lemma xparent_node d x y p c b : is_ptr0 p -> is_bal b -> AVL_XPARENT (node_of d x y (pack p c b)) = p.
Proof. intros Hp Hb. eapply xparent_pack; [|done..]. by destruct d. Qed.
Lemma xchild_node d x y p c b : is_ptr0 p -> is_bal b -> AVL_XCHILD (node_of d x y (pack p c b)) = c.
Proof. intros Hp Hb. eapply xchild_pack; [|done..]. by destruct d. Qed.
Lemma xbalance_node d x y p c b : is_ptr0 p -> is_bal b -> AVL_XBALANCE (node_of d x y (pack p c b)) = b.
Proof. intros Hp Hb. eapply xbalance_pack; [|done..]. by destruct d. Qed.

Lemma setparent_node d x y p c b q : is_ptr0 p -> is_bal b -> is_ptr0 q ->
  AVL_SETPARENT q (node_of d x y (pack p c b)) = node_of d x y (pack q c b).
Proof.
  intros Hp Hb Hq. apply node_of_eq; [by destruct d..|]. apply (setparent_pack _ p c b); [|done..]. by destruct d.
Qed.
Lemma setchild_node d x y p c b c' : is_ptr0 p -> is_bal b ->
  AVL_SETCHILD c' (node_of d x y (pack p c b)) = node_of d x y (pack p c' b).
Proof.
  intros Hp Hb. apply node_of_eq; [by destruct d..|]. apply (setchild_pack _ p c b); [|done..]. by destruct d.
Qed.
Lemma setbalance_node d x y p c b b' : is_ptr0 p -> is_bal b -> is_bal b' ->
  AVL_SETBALANCE b' (node_of d x y (pack p c b)) = node_of d x y (pack p c b').
Proof.
  intros Hp Hb Hb'. apply node_of_eq; [by destruct d..|]. apply (setbalance_pack _ p c b); [|done..]. by destruct d.
Qed.

Lemma is_ptr_ptr0 a : is_ptr a -> is_ptr0 a.
Proof. by right. Qed.
Lemma is_ptr_nonzero a : is_ptr a -> a <> 0.
Proof. intros [_ ?]. lia. Qed.
Lemma is_bal_0 : is_bal 0.
Proof. unfold is_bal. lia. Qed.
Lemma is_bal_sgn d : is_bal (sgn d).
Proof. unfold is_bal. destruct (sgn_cases d); lia. Qed.
Lemma is_bal_opp b : is_bal b -> is_bal (- b).
Proof. unfold is_bal. lia. Qed.

Create HintDb avl.
#[export] Hint Resolve is_ptr_ptr0 is_ptr_nonzero is_bal_0 is_bal_sgn is_bal_opp : avl.

(** Evaluate accesses to nodes written with [node_of] and [pack]. *)
Ltac node_simpl :=
  repeat first
    [ rewrite child_same | rewrite child_other | rewrite set_link_same | rewrite set_link_other
    | rewrite xparent_node by auto with avl | rewrite xchild_node by auto with avl
    | rewrite xbalance_node by auto with avl
    | rewrite setparent_node by auto with avl | rewrite setchild_node by auto with avl
    | rewrite setbalance_node by auto with avl ].

(** ** Representation *)

Definition ptr (t : tree) : Z := match t with Leaf => 0 | Node _ a _ _ => a end.

Fixpoint rep (h : gmap Z avl_node) (t : tree) (p : Z) (c : bool) : Prop :=
  match t with
  | Leaf => True
  | Node l a b r =>
      is_ptr a /\ is_bal b /\ h !! a = Some (mk_node (ptr l) (ptr r) (pack p c b)) /\
      rep h l a false /\ rep h r a true
  end.

Lemma ptr_mkn d a b x y : ptr (mkn d a b x y) = a.
Proof. by destruct d. Qed.

Lemma rep_mkn h d a b x y p c :
  rep h (mkn d a b x y) p c <->
  is_ptr a /\ is_bal b /\ h !! a = Some (node_of d (ptr x) (ptr y) (pack p c b)) /\
  rep h x a d /\ rep h y a (negb d).
Proof. destruct d; cbn; tauto. Qed.

Lemma elem_of_flat_mkn a' d a b x y : a' ∈ flat (mkn d a b x y) <-> a' = a \/ a' ∈ flat x \/ a' ∈ flat y.
Proof. destruct d; cbn; rewrite elem_of_app, elem_of_cons; tauto. Qed.

Lemma NoDup_flat_mkn d a b x y :
  NoDup (flat (mkn d a b x y)) <->
  (a ∉ flat x) /\ (a ∉ flat y) /\ (forall z, z ∈ flat x -> z ∈ flat y -> False) /\ NoDup (flat x) /\ NoDup (flat y).
Proof.
  destruct d; cbn; rewrite NoDup_app, NoDup_cons; setoid_rewrite elem_of_cons; naive_solver.
Qed.

Lemma rep_ptr0 h t p c : rep h t p c -> is_ptr0 (ptr t).
Proof. destruct t; cbn; [by left|]. intros [? _]. by right. Qed.

Lemma rep_ptr_in h t p c : rep h t p c -> ptr t = 0 \/ ptr t ∈ flat t.
Proof. destruct t; cbn; [by left|]. intros _. right. rewrite elem_of_app, elem_of_cons. tauto. Qed.

Lemma rep_elem h t p c a : rep h t p c -> a ∈ flat t -> is_ptr a /\ is_Some (h !! a).
Proof.
  revert p c. induction t as [|l IHl x b r IHr]; intros p c; cbn; [by rewrite elem_of_nil|].
  intros (Hp & _ & Ha & Hl & Hr). rewrite elem_of_app, elem_of_cons. intros [?|[->|?]]; eauto.
Qed.

Lemma rep_frame h h' t p c :
  rep h t p c -> (forall a, a ∈ flat t -> h' !! a = h !! a) -> rep h' t p c.
Proof.
  revert p c. induction t as [|l IHl x b r IHr]; intros p c; cbn; [done|].
  setoid_rewrite elem_of_app. setoid_rewrite elem_of_cons. intros (Hp & Hb & Ha & Hl & Hr) Hf.
  split; [done|]. split; [done|]. split; [rewrite Hf by tauto; done|]. split.
  - apply IHl; [done|]. intros z Hz. apply Hf. tauto.
  - apply IHr; [done|]. intros z Hz. apply Hf. tauto.
Qed.

(** *** Contexts *)

Definition cparent (ctx : list frame) : Z := match ctx with [] => 0 | f :: _ => f_addr f end.
(** The child index of the hole; at the root it is [rc], which nobody reads. *)
Definition cindex (ctx : list frame) (rc : bool) : bool := match ctx with [] => rc | f :: _ => f_dir f end.
Fixpoint ctx_root (ctx : list frame) (hole : Z) : Z :=
  match ctx with [] => hole | f :: ctx => ctx_root ctx (f_addr f) end.
Definition ctx_addrs (ctx : list frame) : list Z := before ctx ++ after ctx.

Fixpoint rep_ctx (h : gmap Z avl_node) (ctx : list frame) (hole : Z) (rc : bool) : Prop :=
  match ctx with
  | [] => True
  | f :: ctx =>
      is_ptr (f_addr f) /\ is_bal (f_bal f) /\
      h !! f_addr f = Some (node_of (f_dir f) hole (ptr (f_other f)) (pack (cparent ctx) (cindex ctx rc) (f_bal f))) /\
      rep h (f_other f) (f_addr f) (negb (f_dir f)) /\ rep_ctx h ctx (f_addr f) rc
  end.

Lemma ptr_plug ctx : forall s, ptr (plug ctx s) = ctx_root ctx (ptr s).
Proof. induction ctx as [|f ctx IH]; intros s; [done|]. cbn. rewrite IH. by rewrite ptr_mkn. Qed.

Lemma rep_plug h ctx rc : forall s,
  rep h (plug ctx s) 0 rc <-> rep h s (cparent ctx) (cindex ctx rc) /\ rep_ctx h ctx (ptr s) rc.
Proof.
  induction ctx as [|[d a b o] ctx IH]; intros s; cbn [plug rep_ctx cparent cindex f_dir f_addr f_bal f_other];
    [tauto|]. rewrite IH, rep_mkn, ptr_mkn. tauto.
Qed.

Lemma elem_of_ctx_cons z f ctx :
  z ∈ ctx_addrs (f :: ctx) <-> z = f_addr f \/ z ∈ flat (f_other f) \/ z ∈ ctx_addrs ctx.
Proof.
  unfold ctx_addrs. destruct f as [d a b o]. destruct d; cbn; rewrite !elem_of_app, ?elem_of_cons;
    cbn; rewrite ?elem_of_app, ?elem_of_cons, ?elem_of_nil; tauto.
Qed.

Lemma elem_of_plug z ctx s : z ∈ flat (plug ctx s) <-> z ∈ flat s \/ z ∈ ctx_addrs ctx.
Proof. rewrite flat_plug. unfold ctx_addrs. rewrite !elem_of_app. tauto. Qed.

Lemma NoDup_plug ctx s :
  NoDup (flat (plug ctx s)) <->
  NoDup (flat s) /\ NoDup (ctx_addrs ctx) /\ (forall z, z ∈ flat s -> z ∈ ctx_addrs ctx -> False).
Proof.
  rewrite flat_plug. unfold ctx_addrs.
  rewrite (Permutation_app_comm (flat s)), app_assoc, NoDup_app. naive_solver.
Qed.

Lemma NoDup_ctx_cons f ctx :
  NoDup (ctx_addrs (f :: ctx)) <->
  (f_addr f ∉ flat (f_other f)) /\ (f_addr f ∉ ctx_addrs ctx) /\ NoDup (flat (f_other f)) /\
  NoDup (ctx_addrs ctx) /\ (forall z, z ∈ flat (f_other f) -> z ∈ ctx_addrs ctx -> False).
Proof.
  pose proof (NoDup_plug (f :: ctx) Leaf) as H1. cbn [plug flat] in H1.
  pose proof (NoDup_plug ctx (mkn (f_dir f) (f_addr f) (f_bal f) Leaf (f_other f))) as H2.
  rewrite NoDup_flat_mkn in H2. setoid_rewrite elem_of_flat_mkn in H2. cbn [flat] in *.
  setoid_rewrite elem_of_nil in H1. setoid_rewrite elem_of_nil in H2.
  split.
  - intros H. destruct H2 as [H2 _]. destruct H2; [apply H1; split; [constructor|tauto]|]. naive_solver.
  - intros (Ha & Hb & Hc & Hd & He). apply H1, H2. split; [|naive_solver]. repeat split; try tauto. constructor.
Qed.

Lemma rep_ctx_frame h h' ctx rc : forall hole,
  rep_ctx h ctx hole rc -> (forall a, a ∈ ctx_addrs ctx -> h' !! a = h !! a) -> rep_ctx h' ctx hole rc.
Proof.
  induction ctx as [|f ctx IH]; intros hole; [done|]. cbn [rep_ctx]. setoid_rewrite elem_of_ctx_cons.
  intros (H1 & H2 & H3 & H4 & H5) Hf. split; [done|]. split; [done|].
  split; [rewrite Hf by tauto; done|]. split; [eapply rep_frame; [done|naive_solver]|].
  apply IH; [done|naive_solver].
Qed.

Lemma rep_ctx_ptr0 h ctx hole rc : rep_ctx h ctx hole rc -> is_ptr0 (cparent ctx).
Proof. destruct ctx; cbn; [by left|]. intros [? _]. by right. Qed.

Lemma cparent_in ctx : ctx = [] \/ cparent ctx ∈ ctx_addrs ctx.
Proof. destruct ctx as [|f ctx]; [by left|right]. apply elem_of_ctx_cons. by left. Qed.

(** ** Primitive updates *)

(** Heaps with the same nodes, equal outside [S]. *)
Definition same_off (S : list Z) (h h' : gmap Z avl_node) : Prop :=
  size h' = size h /\ forall a, a ∉ S -> h' !! a = h !! a.

Lemma same_off_refl S h : same_off S h h.
Proof. done. Qed.
Lemma same_off_trans S h1 h2 h3 : same_off S h1 h2 -> same_off S h2 h3 -> same_off S h1 h3.
Proof. intros [S1 H1] [S2 H2]. split; [congruence|]. intros a Ha. by rewrite H2, H1. Qed.
Lemma same_off_weaken S S' h h' : same_off S h h' -> (forall a, a ∈ S -> a ∈ S') -> same_off S' h h'.
Proof. intros [Hs H] HS. split; [done|]. intros a Ha. apply H. naive_solver. Qed.
Lemma same_off_insert S h a n m : h !! a = Some m -> a ∈ S -> same_off S h (<[a := n]> h).
Proof.
  intros Ha HS. split; [by rewrite map_size_insert_Some|]. intros z Hz. apply lookup_insert_ne. naive_solver.
Qed.

Lemma put_some t a n f : heap t !! a = Some n -> put t a f = Some (with_heap t (<[a := f n]> (heap t))).
Proof. intros H. unfold put. by rewrite H. Qed.

Lemma relink_spec t x p c q c' :
  rep (heap t) x p c -> is_ptr0 p -> is_ptr0 q -> NoDup (flat x) ->
  exists h', relink t (ptr x) q c' = Some (with_heap t h') /\ rep h' x q c' /\
    same_off (flat x) (heap t) h'.
Proof.
  intros Hx Hp Hq Hnd. destruct x as [|l a b r]; [by exists (heap t); destruct t|].
  cbn [rep ptr flat] in *. destruct Hx as (Ha & Hb & Hn & Hl & Hr).
  assert (a <> 0) as Ha0 by auto with avl. unfold relink. rewrite (proj2 (Z.eqb_neq _ _)) by done.
  rewrite (put_some _ _ _ _ Hn). cbn [mbind option_bind].
  rewrite (put_some _ _ (AVL_SETPARENT q (mk_node (ptr l) (ptr r) (pack p c b))))
    by (cbn [heap with_heap]; apply lookup_insert_eq). cbn [heap with_heap]. rewrite insert_insert_eq.
  change (mk_node (ptr l) (ptr r)) with (node_of false (ptr l) (ptr r)). node_simpl.
  apply NoDup_app in Hnd as (N1 & N2 & [N3 N4]%NoDup_cons).
  eexists. split; [by destruct t|]. split.
  - split; [done|]. split; [done|]. split; [by rewrite lookup_insert_eq|].
    split; (eapply rep_frame; [done|]; intros z Hz; apply lookup_insert_ne; intros ->); [|done].
    eapply N2; [done|]. apply elem_of_cons. by left.
  - eapply same_off_insert; [done|]. rewrite elem_of_app, elem_of_cons. tauto.
Qed.

Lemma hang_spec t ctx hole rc p :
  rep_ctx (heap t) ctx hole rc -> NoDup (ctx_addrs ctx) ->
  avl_root t = ctx_root ctx hole ->
  exists t', hang t (cparent ctx) (cindex ctx rc) p = Some t' /\
    rep_ctx (heap t') ctx p rc /\ avl_root t' = ctx_root ctx p /\ avl_numnodes t' = avl_numnodes t /\
    same_off (ctx_addrs ctx) (heap t) (heap t').
Proof.
  intros Hc Hnd Hroot. unfold hang. destruct ctx as [|f ctx]; cbn [cparent cindex rep_ctx] in *.
  - rewrite Z.eqb_refl. eexists. split; [done|]. done.
  - destruct Hc as (H1 & H2 & H3 & H4 & H5). apply NoDup_ctx_cons in Hnd as (N1 & N2 & N3 & N4 & N5).
    rewrite (proj2 (Z.eqb_neq _ _)) by auto with avl. rewrite (put_some _ _ _ _ H3).
    eexists. split; [done|]. cbn [heap with_heap avl_root avl_numnodes]. split; [|split; [done|split; [done|]]].
    + split; [done|]. split; [done|]. split; [rewrite lookup_insert_eq; by node_simpl|]. split.
      * eapply rep_frame; [done|]. intros z Hz. apply lookup_insert_ne. by intros <-.
      * eapply rep_ctx_frame; [done|]. intros z Hz. apply lookup_insert_ne. by intros <-.
    + eapply same_off_insert; [done|]. apply elem_of_ctx_cons. by left.
Qed.

(** ** Rotation *)

(** What a rotation needs of the high subtree. *)
Definition rotatable (d : bool) (ch : tree) : Prop :=
  match ch with
  | Leaf => False
  | Node cl c cb cr => cb = - sgn d -> at_ (negb d) cl cr <> Leaf
  end.

Lemma rot_left d : negb (2 * sgn d <? 0) = d.
Proof. by destruct d. Qed.
Lemma rot_heavy d : Z.shiftr (2 * sgn d) 1 = sgn d.
Proof. by destruct d. Qed.

(** Find a lookup through updates at other addresses. *)
Ltac look :=
  cbn [heap with_heap]; repeat first [rewrite lookup_insert_eq | rewrite lookup_insert_ne by congruence];
  first [reflexivity | eassumption].
(** Execute one [put]. *)
Ltac run := erewrite put_some by look; cbn [mbind option_bind heap with_heap]; node_simpl.

Section rotation.
Context (t : avl_tree) (ctx : list frame) (rc d : bool) (a b : Z) (x : tree).
Context (c cb : Z) (u v : tree).
#[local] Abbreviation P := (cparent ctx).
#[local] Abbreviation C := (cindex ctx rc).
#[local] Abbreviation ch := (mkn d c cb u v).
#[local] Abbreviation s := (mkn d a b ch x).
Context (Hrep : rep (heap t) s P C) (Hctx : rep_ctx (heap t) ctx a rc).
Context (Hroot : avl_root t = ctx_root ctx a) (Hnd : NoDup (flat (plug ctx s))).

(** The result of a rotation to [s']. *)
Definition rotated (s' : tree) (shorter : bool) : Prop :=
  exists t', avl_rotation t a (2 * sgn d) = Some (t', shorter) /\
    rep (heap t') s' P C /\ rep_ctx (heap t') ctx (ptr s') rc /\
    avl_root t' = ctx_root ctx (ptr s') /\ avl_numnodes t' = avl_numnodes t /\
    same_off (flat (plug ctx s)) (heap t) (heap t').

(** Addresses are distinct. *)
Lemma rot_distinct :
  a <> c /\ (a ∉ flat u) /\ (a ∉ flat v) /\ (a ∉ flat x) /\ (c ∉ flat u) /\ (c ∉ flat v) /\ (c ∉ flat x) /\
  (forall z, z ∈ flat v -> (z ∉ flat u) /\ (z ∉ flat x)) /\ NoDup (flat v) /\
  (a ∉ ctx_addrs ctx) /\ (c ∉ ctx_addrs ctx) /\ NoDup (ctx_addrs ctx) /\
  (forall z, z ∈ flat u \/ z ∈ flat v \/ z ∈ flat x -> z ∉ ctx_addrs ctx).
Proof using Hrep Hctx Hroot Hnd.
  apply NoDup_plug in Hnd as (N & Nc & Nd). setoid_rewrite elem_of_flat_mkn in Nd.
  setoid_rewrite elem_of_flat_mkn in Nd. apply NoDup_flat_mkn in N as (N1 & N2 & N3 & N4 & N5).
  apply NoDup_flat_mkn in N4 as (M1 & M2 & M3 & M4 & M5). rewrite elem_of_flat_mkn in N1.
  setoid_rewrite elem_of_flat_mkn in N3. naive_solver.
Qed.

Lemma rotation_finish t3 s' :
  (forall z, z ∈ flat s' <-> z ∈ flat s) -> rep (heap t3) s' P C ->
  (forall z, z ∉ flat s -> heap t3 !! z = heap t !! z) ->
  size (heap t3) = size (heap t) -> avl_root t3 = avl_root t -> avl_numnodes t3 = avl_numnodes t ->
  exists t', hang t3 P C (ptr s') = Some t' /\
    rep (heap t') s' P C /\ rep_ctx (heap t') ctx (ptr s') rc /\
    avl_root t' = ctx_root ctx (ptr s') /\ avl_numnodes t' = avl_numnodes t /\
    same_off (flat (plug ctx s)) (heap t) (heap t').
Proof using Hrep Hctx Hroot Hnd.
  intros Hs' Hr Hf Hsz Hro Hnu. apply NoDup_plug in Hnd as (_ & Nc & Nd).
  destruct (hang_spec t3 ctx a rc (ptr s')) as (t' & Hh & Hc' & Hr' & Hn' & [Hs4 Hf4]); [|done|congruence|].
  { eapply rep_ctx_frame; [exact Hctx|]. intros z Hz. apply Hf. naive_solver. }
  exists t'. split; [done|]. split; [|split; [done|split; [done|split; [congruence|]]]].
  - eapply rep_frame; [exact Hr|]. intros z Hz. apply Hf4. intros ?. eapply Nd; [by apply Hs'|done].
  - split; [congruence|]. intros z Hz. rewrite elem_of_plug in Hz. rewrite Hf4, Hf by tauto. done.
Qed.

Lemma rotation_single : cb <> - sgn d -> rotated (rot1 d a c cb u v x) (cb - sgn d =? 0).
Proof using Hrep Hctx Hroot Hnd.
  intros Hcb. destruct rot_distinct as (Dac & Dau & Dav & Dax & Dcu & Dcv & Dcx & Dv & Nv & Da & Dc & Nc & Dctx).
  pose proof Hrep as Hrep'. apply rep_mkn in Hrep' as (Ha & Hb & Hna & Hch & Hx). apply rep_mkn in Hch as (Hc & Hbc & Hnc & Hu & Hv).
  rewrite ptr_mkn in Hna. pose proof (rep_ctx_ptr0 _ _ _ _ Hctx) as HP.
  pose proof (rep_ptr0 _ _ _ _ Hv) as Hpv.
  unfold rotated, avl_rotation. rewrite rot_left, rot_heavy. unfold get. rewrite Hna. cbn [mbind option_bind].
  node_simpl. rewrite Hnc. cbn [mbind option_bind]. node_simpl.
  rewrite (proj2 (Z.eqb_neq _ _)) by done. cbn [negb]. replace (cb + - sgn d) with (cb - sgn d) by lia.
  assert (is_bal (cb - sgn d)) as Hcb' by (unfold is_bal in *; destruct (sgn_cases d) as [E|E]; rewrite E in *; lia).
  run. set (t1 := with_heap t _).
  destruct (relink_spec t1 v c (negb d) a d) as (h2 & -> & Hv2 & [Hs2 Hf2]); [|auto with avl..|done|].
  { eapply rep_frame; [exact Hv|]. intros z Hz. apply lookup_insert_ne. by intros <-. }
  cbn [mbind option_bind].
  assert (h2 !! a = Some (node_of d (ptr v) (ptr x) (pack P C b))) as Hna2
    by (rewrite Hf2 by done; apply lookup_insert_eq).
  assert (h2 !! c = Some (node_of d (ptr u) (ptr v) (pack a d cb))) as Hnc2
    by (rewrite Hf2 by done; cbn; by rewrite lookup_insert_ne).
  do 7 run.
  set (t3 := with_heap _ _).
  assert (forall z, z <> a -> z <> c -> z ∉ flat v -> heap t3 !! z = heap t !! z) as Hf3.
  { intros z H1 H2 H3. cbn [heap t3 with_heap]. rewrite !lookup_insert_ne by congruence.
    rewrite Hf2 by done. cbn [heap t1 with_heap]. by rewrite lookup_insert_ne by congruence. }
  assert (size (heap t3) = size (heap t)) as Hs3.
  { cbn [heap t3 with_heap]. rewrite !map_size_insert_Some by (eexists; look). rewrite Hs2.
    cbn [heap t1 with_heap]. by rewrite map_size_insert_Some by (eexists; look). }
  destruct (rotation_finish t3 (rot1 d a c cb u v x)) as (t' & Hh & Ht'); try done.
  - intros z. unfold rot1. rewrite !elem_of_flat_mkn. tauto.
  - unfold rot1. apply rep_mkn. split; [done|]. split; [done|]. rewrite ptr_mkn.
    split; [unfold t3; look|]. split; [eapply rep_frame; [exact Hu|]; intros z Hz; apply Hf3; naive_solver|].
    apply rep_mkn. split; [done|]. split; [auto with avl|]. split; [unfold t3; look|].
    split; [|eapply rep_frame; [exact Hx|]; intros z Hz; apply Hf3; naive_solver].
    eapply rep_frame; [exact Hv2|]. intros z Hz. cbn [heap t3 with_heap].
    by rewrite !lookup_insert_ne by (intros <-; done).
  - intros z Hz. rewrite !elem_of_flat_mkn in Hz. apply Hf3; naive_solver.
  - unfold rot1 in Hh. rewrite ptr_mkn in Hh. rewrite Hh. exists t'. by split.
Qed.

Lemma rot2_distinct g gb gl gr : v = mkn d g gb gl gr ->
  a <> g /\ c <> g /\ (a ∉ flat gl) /\ (a ∉ flat gr) /\ (c ∉ flat gl) /\ (c ∉ flat gr) /\ (g ∉ flat gl) /\ (g ∉ flat gr) /\
  (g ∉ flat u) /\ (g ∉ flat x) /\ NoDup (flat gl) /\ NoDup (flat gr) /\
  (forall z, z ∈ flat gl -> (z ∉ flat gr) /\ (z ∉ flat u) /\ (z ∉ flat x)) /\
  (forall z, z ∈ flat gr -> (z ∉ flat gl) /\ (z ∉ flat u) /\ (z ∉ flat x)).
Proof using Hrep Hctx Hroot Hnd.
  intros Ev. destruct rot_distinct as (Dac & Dau & Dav & Dax & Dcu & Dcv & Dcx & Dv & Nv & _).
  rewrite Ev in Dav, Dcv, Dv, Nv.
  apply NoDup_flat_mkn in Nv as (N1 & N2 & N3 & N4 & N5).
  rewrite elem_of_flat_mkn in Dav, Dcv. setoid_rewrite elem_of_flat_mkn in Dv.
  repeat split; try tauto; try (intros ?; naive_solver).
Qed.

Lemma rotation_double g gb gl gr : v = mkn d g gb gl gr -> cb = - sgn d -> rotated (rot2 d a c g gb u gl gr x) true.
Proof using Hrep Hctx Hroot Hnd.
  intros Ev Hcb. destruct rot_distinct as (Dac & Dau & _ & Dax & Dcu & _ & Dcx & _ & _ & Da & Dc & Nc & Dctx).
  destruct (rot2_distinct g gb gl gr Ev)
    as (Dag & Dcg & Dagl & Dagr & Dcgl & Dcgr & Dggl & Dggr & Dgu & Dgx & Ngl & Ngr & Dgl & Dgr).
  pose proof Hrep as Hrep'. apply rep_mkn in Hrep' as (Ha & Hb & Hna & Hch & Hx).
  apply rep_mkn in Hch as (Hc & Hbc & Hnc & Hu & Hv). rewrite Ev in Hv.
  apply rep_mkn in Hv as (Hg & Hbg & Hng & Hgl & Hgr). rewrite Ev, ptr_mkn in Hnc.
  rewrite ptr_mkn in Hna. pose proof (rep_ctx_ptr0 _ _ _ _ Hctx) as HP.
  assert (is_bal (if gb =? - sgn d then sgn d else 0)) as Hb1 by (destruct (gb =? - sgn d); auto with avl).
  assert (is_bal (if gb =? sgn d then - sgn d else 0)) as Hb2 by (destruct (gb =? sgn d); auto with avl).
  unfold rotated, avl_rotation. rewrite rot_left, rot_heavy. unfold get. rewrite Hna. cbn [mbind option_bind].
  node_simpl. rewrite Hnc. cbn [mbind option_bind]. node_simpl.
  rewrite Hcb, Z.eqb_refl. cbn [negb]. rewrite Hng. cbn [mbind option_bind]. node_simpl.
  rewrite Hcb in Hnc. run. set (t1 := with_heap t _).
  destruct (relink_spec t1 gr g (negb d) a d) as (h2 & -> & Hgr2 & [Hs2 Hf2]); [|auto with avl..|done|].
  { eapply rep_frame; [exact Hgr|]. intros z Hz. apply lookup_insert_ne. by intros <-. }
  cbn [mbind option_bind].
  assert (h2 !! a = Some (node_of d (ptr gr) (ptr x) (pack P C b))) as Hna2
    by (rewrite Hf2 by done; apply lookup_insert_eq).
  assert (h2 !! c = Some (node_of d (ptr u) g (pack a d (- sgn d)))) as Hnc2
    by (rewrite Hf2 by done; cbn; by rewrite lookup_insert_ne).
  assert (h2 !! g = Some (node_of d (ptr gl) (ptr gr) (pack c (negb d) gb))) as Hng2
    by (rewrite Hf2 by done; cbn; by rewrite lookup_insert_ne).
  run. set (t3 := with_heap (with_heap t1 h2) _).
  destruct (relink_spec t3 gl g d c (negb d)) as (h4 & -> & Hgl4 & [Hs4 Hf4]); [|auto with avl..|done|].
  { eapply rep_frame; [exact Hgl|]. intros z Hz. cbn [heap t3 with_heap].
    rewrite lookup_insert_ne by (intros <-; done). rewrite Hf2 by naive_solver.
    apply lookup_insert_ne. by intros <-. }
  cbn [mbind option_bind heap with_heap].
  assert (h4 !! a = Some (node_of d (ptr gr) (ptr x) (pack P C b))) as Hna4
    by (rewrite Hf4 by done; unfold t3; look).
  assert (h4 !! c = Some (node_of d (ptr u) (ptr gl) (pack a d (- sgn d)))) as Hnc4
    by (rewrite Hf4 by done; unfold t3; look).
  assert (h4 !! g = Some (node_of d (ptr gl) (ptr gr) (pack c (negb d) gb))) as Hng4
    by (rewrite Hf4 by done; unfold t3; look).
  rewrite Hng4. cbn [mbind option_bind]. node_simpl.
  assert (is_bal (- sgn d)) as Hbd by auto with avl.
  do 11 run.
  set (t5 := with_heap _ _).
  assert (forall z, z <> a -> z <> c -> z <> g -> z ∉ flat gl -> heap t5 !! z = h2 !! z) as Hf5.
  { intros z H1 H2 H3 H4. cbn [heap t5 with_heap]. rewrite !lookup_insert_ne by congruence.
    rewrite Hf4 by done. cbn [heap t3 with_heap]. by rewrite lookup_insert_ne by congruence. }
  assert (forall z, z <> a -> z <> c -> z <> g -> z ∉ flat gl -> z ∉ flat gr -> heap t5 !! z = heap t !! z) as Hf6.
  { intros z H1 H2 H3 H4 H5. rewrite Hf5, Hf2 by done. cbn [heap t1 with_heap]. by rewrite lookup_insert_ne by congruence. }
  assert (size (heap t5) = size (heap t)) as Hs5.
  { cbn [heap t5 with_heap]. rewrite !map_size_insert_Some by (eexists; look). rewrite Hs4.
    cbn [heap t3 with_heap]. rewrite map_size_insert_Some by (eexists; look). rewrite Hs2.
    cbn [heap t1 with_heap]. by rewrite map_size_insert_Some by (eexists; look). }
  destruct (rotation_finish t5 (rot2 d a c g gb u gl gr x)) as (t' & Hh & Ht'); try done.
  - intros z. unfold rot2. rewrite Ev, !elem_of_flat_mkn. tauto.
  - unfold rot2. rewrite !rep_mkn, !ptr_mkn.
    split; [done|]. split; [auto with avl|]. split; [unfold t5; look|]. split.
    + split; [done|]. split; [done|]. split; [unfold t5; look|].
      split; [eapply rep_frame; [exact Hu|]; intros z Hz; apply Hf6; naive_solver|].
      eapply rep_frame; [exact Hgl4|]. intros z Hz. cbn [heap t5 with_heap].
      by rewrite !lookup_insert_ne by (intros <-; done).
    + split; [done|]. split; [done|]. split; [unfold t5; look|].
      split; [|eapply rep_frame; [exact Hx|]; intros z Hz; apply Hf6; naive_solver].
      eapply rep_frame; [exact Hgr2|]. intros z Hz. apply Hf5; naive_solver.
  - intros z Hz. rewrite Ev, !elem_of_flat_mkn in Hz. apply Hf6; naive_solver.
  - unfold rot2 in Hh. rewrite ptr_mkn in Hh. rewrite Hh. exists t'. split; [done|]. rewrite <-Hcb. exact Ht'.
Qed.
End rotation.

(** The heap holds subtree [s] in context [ctx]. *)
Record held (t : avl_tree) (ctx : list frame) (s : tree) (rc : bool) : Prop := {
  he_rep : rep (heap t) s (cparent ctx) (cindex ctx rc);
  he_ctx : rep_ctx (heap t) ctx (ptr s) rc;
  he_root : avl_root t = ctx_root ctx (ptr s);
  he_nodup : NoDup (flat (plug ctx s))
}.

(** [t'] holds the tree [T'] instead of [T], and nothing else changed. *)
Record updated (t t' : avl_tree) (T T' : tree) (rc : bool) : Prop := {
  up_rep : rep (heap t') T' 0 rc;
  up_root : avl_root t' = ptr T';
  up_num : avl_numnodes t' = avl_numnodes t;
  up_off : same_off (flat T) (heap t) (heap t')
}.

Lemma rotatable_balanced d ch x : balanced ch -> height ch = height x + 2 -> rotatable d ch.
Proof.
  intros Hb Hh. pose proof (height_nonneg x). destruct ch as [|cl c cb cr]; [cbn in Hh; lia|].
  intros -> Hv. rewrite (node_mkn d) in Hb. apply balanced_mkn in Hb as (Hcb & _). rewrite Hv in Hcb.
  pose proof (height_nonneg (at_ d cl cr)). cbn [height] in Hcb.
  assert (sgn d * (height (at_ d cl cr) + 1) = 0) by lia. destruct (sgn_cases d) as [E|E]; rewrite E in *; lia.
Qed.

Lemma rotation_spec t ctx rc d a b ch x :
  held t ctx (mkn d a b ch x) rc -> rotatable d ch ->
  exists t', avl_rotation t a (2 * sgn d) = Some (t', (rotate d a ch x).2) /\
    rep (heap t') (rotate d a ch x).1 (cparent ctx) (cindex ctx rc) /\
    rep_ctx (heap t') ctx (ptr (rotate d a ch x).1) rc /\
    avl_root t' = ctx_root ctx (ptr (rotate d a ch x).1) /\ avl_numnodes t' = avl_numnodes t /\
    same_off (flat (plug ctx (mkn d a b ch x))) (heap t) (heap t').
Proof.
  intros [Hr Hc Hro Hnd] Hch. rewrite ptr_mkn in *. destruct ch as [|cl c cb cr]; [done|].
  cbn [rotatable] in Hch. unfold rotate. rewrite (node_mkn d) in Hr, Hnd |- *.
  destruct (Z.eqb_spec cb (- sgn d)) as [E|E]; cbn [fst snd].
  - specialize (Hch E). destruct (at_ (negb d) cl cr) as [|gl g gb gr] eqn:Ev; [done|]. cbn [fst snd].
    eapply (rotation_double t ctx rc d a b x c cb (at_ d cl cr) (Node gl g gb gr)); try done. apply node_mkn.
  - by apply (rotation_single t ctx rc d a b x c cb (at_ d cl cr) (at_ (negb d) cl cr)).
Qed.

Lemma held_plug t ctx s rc : held t ctx s rc -> rep (heap t) (plug ctx s) 0 rc /\ avl_root t = ptr (plug ctx s).
Proof. intros [H1 H2 H3 _]. rewrite rep_plug, ptr_plug. tauto. Qed.

Lemma held_frame t f ctx s rc :
  held t (f :: ctx) s rc <-> held t ctx (mkn (f_dir f) (f_addr f) (f_bal f) s (f_other f)) rc.
Proof.
  split; intros [H1 H2 H3 H4]; cbn [rep_ctx cparent cindex ctx_root plug] in *.
  - split; rewrite ?ptr_mkn, ?rep_mkn; tauto.
  - rewrite ptr_mkn in *. apply rep_mkn in H1. split; cbn [rep_ctx cparent cindex ctx_root plug]; tauto.
Qed.

(** Changing the balance of the node at the root of the held subtree. *)
Lemma held_set_balance t ctx d a b b' x y rc :
  held t ctx (mkn d a b x y) rc -> is_bal b' ->
  exists t', put t a (AVL_SETBALANCE b') = Some t' /\ held t' ctx (mkn d a b' x y) rc /\
    avl_numnodes t' = avl_numnodes t /\ same_off (flat (plug ctx (mkn d a b x y))) (heap t) (heap t').
Proof.
  intros [H1 H2 H3 H4] Hb'. rewrite ptr_mkn in *. apply rep_mkn in H1 as (Ha & Hb & Hn & Hx & Hy).
  pose proof (rep_ctx_ptr0 _ _ _ _ H2) as HP. rewrite (put_some _ _ _ _ Hn). node_simpl.
  eexists. split; [done|]. cbn [heap with_heap avl_numnodes].
  pose proof H4 as H4'. apply NoDup_plug in H4' as (N & Nc & Nd). apply NoDup_flat_mkn in N as (N1 & N2 & N3 & N4 & N5).
  split; [split|split; [done|]]; cbn [heap with_heap avl_root]; rewrite ?ptr_mkn; try done.
  - apply rep_mkn. split; [done|]. split; [done|]. split; [by rewrite lookup_insert_eq|].
    split; (eapply rep_frame; [done|]; intros z Hz; apply lookup_insert_ne; by intros <-).
  - eapply rep_ctx_frame; [done|]. intros z Hz. apply lookup_insert_ne. intros <-. eapply Nd; [|exact Hz].
    apply elem_of_flat_mkn. by left.
  - rewrite flat_plug, flat_mkn in *. done.
  - eapply same_off_insert; [done|]. apply elem_of_plug. left. apply elem_of_flat_mkn. by left.
Qed.

Lemma held_updated t0 t ctx s rc T :
  held t ctx s rc -> avl_numnodes t = avl_numnodes t0 -> same_off (flat T) (heap t0) (heap t) ->
  updated t0 t T (plug ctx s) rc.
Proof. intros H Hn Hs. apply held_plug in H as [H1 H2]. by split. Qed.

Lemma insert_loop_spec ctx : forall t s rc k h0,
  held t ctx s rc -> (length ctx < k)%nat ->
  balanced s -> ctx_balanced ctx h0 -> grown s h0 -> 0 <= h0 ->
  exists t', insert_loop k t (cparent ctx) (cindex ctx rc) = Some t' /\
    updated t t' (plug ctx s) (ins_fix ctx s) rc.
Proof.
  induction ctx as [|[d a b o] ctx IH]; intros t s rc k h0 Hheld Hk Hs Hc [Hh Hg] Hh0;
    (destruct k as [|k]; [cbn in Hk; lia|]); cbn [insert_loop cparent cindex f_addr f_dir].
  { exists t. split; [done|]. by apply (held_updated t t [] s). }
  destruct Hc as (Hb & Hb1 & Ho & Hc). cbn [f_dir f_bal f_other ins_fix plug] in *.
  pose proof Hheld as Hf. apply held_frame in Hf. cbn [f_dir f_addr f_bal f_other] in Hf.
  pose proof (he_rep _ _ _ _ Hf) as Hrep. apply rep_mkn in Hrep as (Ha & Hbb & Hn & _).
  pose proof (rep_ctx_ptr0 _ _ _ _ (he_ctx _ _ _ _ Hf)) as HP.
  rewrite (proj2 (Z.eqb_neq _ _)) by auto with avl. unfold get. rewrite Hn. cbn [mbind option_bind]. node_simpl.
  change (avl_child2balance d) with (sgn d). pose proof (sgn_cases d) as Hsg. pose proof (height_nonneg o).
  destruct (Z.eqb_spec (b + sgn d) 0) as [E|E]; [|destruct (Z.eqb_spec b 0) as [E2|E2]; cbn [negb]].
  - destruct (held_set_balance t ctx d a b 0 s o rc Hf) as (t' & -> & Hheld' & Hnum & Hoff); [auto with avl|].
    exists t'. split; [done|]. by apply held_updated.
  - assert (is_bal (b + sgn d)) as Hb' by (unfold is_bal; destruct Hsg as [Hsg|Hsg]; rewrite Hsg in *; lia).
    destruct (held_set_balance t ctx d a b (b + sgn d) s o rc Hf Hb') as (t1 & -> & Hheld1 & Hnum & Hoff).
    cbn [mbind option_bind]. pose proof (he_rep _ _ _ _ Hheld1) as Hrep1.
    apply rep_mkn in Hrep1 as (_ & _ & Hn1 & _). rewrite Hn1. cbn [mbind option_bind]. node_simpl.
    destruct (IH t1 (mkn d a (b + sgn d) s o) rc k (1 + Z.max h0 (height o))) as (t' & Ht' & [U1 U2 U3 U4]).
    + done. + cbn in Hk. lia.
    + rewrite balanced_mkn. destruct Hsg as [Hsg|Hsg]; rewrite Hsg in *; repeat split; try done; lia.
    + done.
    + split; [rewrite height_mkn; destruct Hsg as [Hsg|Hsg]; rewrite Hsg in *; lia|].
      right. intros l a' r. destruct d; cbn; injection 1; lia.
    + lia.
    + exists t'. split; [done|]. split; [done..|congruence|].
      eapply same_off_trans; [exact Hoff|]. rewrite flat_plug, flat_mkn in *. done.
  - assert (b = sgn d) as -> by (destruct Hsg as [Hsg|Hsg]; rewrite Hsg in *; lia).
    replace (sgn d + sgn d) with (2 * sgn d) by lia.
    assert (height s = height o + 2) as Hho by (destruct Hsg as [Hsg|Hsg]; rewrite Hsg in *; lia).
    destruct (rotation_spec t ctx rc d a (sgn d) s o Hf) as (t' & -> & R1 & R2 & R3 & R4 & R5);
      [by eapply rotatable_balanced|].
    cbn [mbind option_bind]. exists t'. split; [done|]. split; [by apply rep_plug|by rewrite ptr_plug|done|done].
Qed.
