(* ===== verification/AvlOps.v ===== *)
(** * AVL trees: searching, inserting and walking

    The operations of [avl.c] on a heap that represents a balanced tree,
    against the in-order sequence of its nodes: [avl_find] finds the node or
    the insertion point, [avl_insert] inserts there and keeps the tree
    balanced, [avl_walk] and [avl_nearest] step along the sequence. *)
From Stdlib Require Import ZArith Lia Sorted.
From stdpp Require Import base numbers list option gmap.
From S2P Require Import Prelude Avl AvlTree AvlProof.

(** The tree [t] represents [T]: what every operation keeps. *)
Record is_tree (t : avl_tree) (T : tree) : Prop := {
  it_root : avl_root t = ptr T;
  it_rep : exists rc, rep (heap t) T 0 rc;
  it_nodup : NoDup (flat T);
  it_num : avl_numnodes t = Z.of_nat (length (flat T));
  it_balanced : balanced T
}.

Lemma is_tree_held t T : is_tree t T -> exists rc, held t [] T rc.
Proof. intros [H1 [rc H2] H3 _ _]. exists rc. by split. Qed.

(** ** Fuel *)

Lemma length_le_size (l : list Z) (h : gmap Z avl_node) :
  NoDup l -> (forall a, a ∈ l -> is_Some (h !! a)) -> (length l <= size h)%nat.
Proof.
  intros Hnd Hl. rewrite <-(size_list_to_set (C := gset Z) l) by done. rewrite <-size_dom.
  apply subseteq_size. intros a Ha. apply elem_of_dom, Hl. by apply elem_of_list_to_set in Ha.
Qed.

Lemma length_ctx_le ctx s : (length ctx + length (flat s) <= length (flat (plug ctx s)))%nat.
Proof.
  revert s. induction ctx as [|[d a b o] ctx IH]; intros s; cbn [plug length f_dir f_addr f_bal f_other]; [lia|].
  specialize (IH (mkn d a b s o)). assert (S (length (flat s)) <= length (flat (mkn d a b s o)))%nat; [|lia].
  destruct d; cbn [mkn flat]; rewrite length_app; cbn [length]; lia.
Qed.

Lemma rep_all h T p c a : rep h T p c -> a ∈ flat T -> is_Some (h !! a).
Proof. intros H Ha. by eapply rep_elem. Qed.

Lemma held_fuel t ctx s rc : held t ctx s rc -> (length ctx + length (flat s) < fuel t)%nat.
Proof.
  intros H. pose proof (held_plug _ _ _ _ H) as [Hr _]. pose proof (length_ctx_le ctx s).
  pose proof (length_le_size (flat (plug ctx s)) (heap t) (he_nodup _ _ _ _ H)) as Hle.
  unfold fuel. specialize (Hle (fun a => rep_all _ _ _ _ a Hr)). lia.
Qed.

Lemma height_length s : height s <= Z.of_nat (length (flat s)).
Proof.
  induction s as [|l IHl a b r IHr]; [done|]. cbn [height flat]. rewrite length_app. cbn [length]. lia.
Qed.

(** ** Index cookies *)

Lemma index_node p c : is_ptr0 p -> AVL_INDEX2NODE (AVL_MKINDEX p c) = p.
Proof.
  intros (k & -> & Hk)%ptr0_8. unfold AVL_INDEX2NODE, AVL_MKINDEX.
  replace (8 * k) with (8 * k + 0) at 1 by lia. rewrite lor_low by (lia || by destruct c).
  change (2 ^ 64 - 1 - 1) with (8 * (2 ^ 61 - 1) + 6). rewrite land_mask by (lia || by destruct c).
  destruct c; [change (Z.land (Z.lor 0 (Z.b2z true)) 6) with 0|change (Z.land (Z.lor 0 (Z.b2z false)) 6) with 0]; lia.
Qed.

Lemma index_child p c : is_ptr0 p -> AVL_INDEX2CHILD (AVL_MKINDEX p c) = c.
Proof.
  intros (k & -> & Hk)%ptr0_8. unfold AVL_INDEX2CHILD, AVL_MKINDEX.
  replace (8 * k) with (8 * k + 0) at 1 by lia. rewrite lor_low by (lia || by destruct c).
  rewrite land_low by (lia || by destruct c). by destruct c.
Qed.

(** ** Searching *)

(** [f a] is the comparison of a value with node [a]; along the sequence it
    goes from 1 through at most one 0 to -1. *)
Record compares (f : Z -> Z) (l : list Z) : Prop := {
  cp_range : forall a, a ∈ l -> -1 <= f a <= 1;
  cp_sorted : StronglySorted (fun a b => f b <= f a) l
}.

Lemma compares_split f l1 a l2 :
  compares f (l1 ++ a :: l2) -> (forall z, z ∈ l1 -> f a <= f z) /\ (forall z, z ∈ l2 -> f z <= f a).
Proof.
  intros [_ Hs]. induction l1 as [|y l1 IH]; cbn [app] in Hs.
  - apply StronglySorted_inv in Hs as [_ Hs]. rewrite Forall_forall in Hs.
    split; [intros z Hz; by apply elem_of_nil in Hz|]. intros z Hz. by apply Hs.
  - apply StronglySorted_inv in Hs as [Hs Hy]. rewrite Forall_forall in Hy. destruct (IH Hs) as [H1 H2].
    split; [|done]. intros z [->|Hz]%elem_of_cons; [|auto]. apply Hy. rewrite elem_of_app, elem_of_cons. tauto.
Qed.

(** The hole a search ends in. *)
Definition hole_index (ctx : list frame) : Z := AVL_MKINDEX (cparent ctx) (cindex ctx false).

Lemma find_loop_spec f s : forall t ctx rc k,
  held t ctx s rc -> compares f (before ctx ++ flat s ++ after ctx) ->
  (forall z, z ∈ before ctx -> f z = 1) -> (forall z, z ∈ after ctx -> f z = -1) ->
  height s < Z.of_nat k ->
  (exists a, a ∈ flat s /\ f a = 0 /\ find_loop k t f (ptr s) (cparent ctx) (cindex ctx false) = Some (a, 0)) \/
  (exists ctx', held t ctx' Leaf rc /\ plug ctx' Leaf = plug ctx s /\
     (forall z, z ∈ before ctx' -> f z = 1) /\ (forall z, z ∈ after ctx' -> f z = -1) /\
     find_loop k t f (ptr s) (cparent ctx) (cindex ctx false) = Some (0, hole_index ctx')).
Proof.
  induction s as [|l IHl a b r IHr]; intros t ctx rc k Hheld Hcmp Hbef Haft Hk;
    (destruct k as [|k]; [cbn [height] in *; try pose proof (height_nonneg l); lia|]); cbn [find_loop ptr].
  { right. exists ctx. by rewrite Z.eqb_refl. }
  pose proof (he_rep _ _ _ _ Hheld) as (Ha & Hb & Hn & Hl & Hr).
  rewrite (proj2 (Z.eqb_neq _ _)) by auto with avl. unfold get. rewrite Hn. cbn [mbind option_bind].
  cbn [flat] in *. rewrite <-app_assoc in Hcmp. cbn [app] in Hcmp. cbn [height] in Hk.
  assert (-1 <= f a <= 1) as Hfa.
  { apply (cp_range _ _ Hcmp). rewrite !elem_of_app, elem_of_cons. tauto. }
  rewrite !(proj2 (Z.leb_le _ _)) by lia. cbn [andb].
  rewrite app_assoc in Hcmp. destruct (compares_split _ _ _ _ Hcmp) as [Hlt Hgt].
  destruct (Z.eqb_spec (f a) 0) as [E|E].
  { left. exists a. split; [rewrite elem_of_app, elem_of_cons; tauto|]. done. }
  unfold avl_balance2child. destruct (Z.eqb_spec (f a) 1) as [E1|E1]; cbn [avl_child avl_child0 avl_child1].
  - destruct (IHr t (mk_frame true a b l :: ctx) rc k) as [(a' & Ha' & Hf' & Hfd)|(ctx' & H1 & H2 & H3 & H4 & H5)].
    + by apply held_frame.
    + cbn [before after f_dir f_addr f_other app]. clear -Hcmp. rewrite <-!app_assoc in *. done.
    + cbn [before f_dir f_addr f_other]. intros z. rewrite !elem_of_app, list_elem_of_singleton.
      intros [Hz|[Hz| ->]]; [auto| |done]. assert (f a <= f z) by (apply Hlt; rewrite elem_of_app; tauto).
      assert (-1 <= f z <= 1); [|lia]. apply (cp_range _ _ Hcmp). rewrite !elem_of_app. tauto.
    + done.
    + lia.
    + left. exists a'. split; [rewrite elem_of_app, elem_of_cons; tauto|]. done.
    + right. exists ctx'. done.
  - assert (f a = -1) as Em by lia.
    destruct (IHl t (mk_frame false a b r :: ctx) rc k) as [(a' & Ha' & Hf' & Hfd)|(ctx' & H1 & H2 & H3 & H4 & H5)].
    + by apply held_frame.
    + cbn [before after f_dir f_addr f_other app]. rewrite app_nil_r. clear -Hcmp. rewrite <-!app_assoc in *. done.
    + cbn [before f_dir]. intros z. rewrite app_nil_r. apply Hbef.
    + cbn [after f_dir f_addr f_other app]. intros z. rewrite elem_of_cons, elem_of_app.
      intros [->|[Hz|Hz]]; [done| |auto]. assert (f z <= f a) by (apply Hgt; rewrite elem_of_app; tauto).
      assert (-1 <= f z <= 1); [|lia]. apply (cp_range _ _ Hcmp). rewrite !elem_of_app, elem_of_cons, elem_of_app. tauto.
    + lia.
    + left. exists a'. split; [rewrite elem_of_app, elem_of_cons; tauto|]. done.
    + right. exists ctx'. done.
Qed.

Lemma avl_find_spec t T f :
  is_tree t T -> compares f (flat T) ->
  (exists a, a ∈ flat T /\ f a = 0 /\ avl_find t f = Some (a, 0)) \/
  (exists ctx rc, held t ctx Leaf rc /\ plug ctx Leaf = T /\
     (forall z, z ∈ before ctx -> f z = 1) /\ (forall z, z ∈ after ctx -> f z = -1) /\
     avl_find t f = Some (0, hole_index ctx)).
Proof.
  intros Ht Hc. destruct (is_tree_held t T Ht) as [rc Hh]. unfold avl_find. rewrite (it_root _ _ Ht).
  destruct (find_loop_spec f T t [] rc (fuel t) Hh) as [H|(ctx & H1 & H2 & H3 & H4 & H5)].
  - cbn [before after app]. by rewrite app_nil_r.
  - intros z Hz. by apply elem_of_nil in Hz.
  - intros z Hz. by apply elem_of_nil in Hz.
  - pose proof (held_fuel _ _ _ _ Hh). pose proof (height_length T). cbn [length] in *. lia.
  - by left.
  - right. exists ctx, rc. done.
Qed.

(** ** Inserting *)

Lemma fresh_node_u64 w p c :
  is_u64 w -> is_ptr0 p ->
  AVL_SETPARENT p (AVL_SETBALANCE 0 (AVL_SETCHILD c (mk_node 0 0 w))) = node_of false 0 0 (pack p c 0).
Proof.
  intros Hw (j & -> & Hj)%ptr0_8. pose proof (Z.div_mod w 8 ltac:(lia)) as Hdm.
  pose proof (Z.mod_pos_bound w 8 ltac:(lia)) as Hlo. assert (0 <= w / 8 < 2 ^ 61) as Hk.
  { split; [apply Z.div_pos; unfold is_u64 in Hw; lia|]. apply Z.div_lt_upper_bound; unfold is_u64 in *; lia. }
  unfold AVL_SETPARENT, AVL_SETBALANCE, AVL_SETCHILD, with_pcb, node_of. cbn [avl_child0 avl_child1 avl_pcb]. f_equal.
  rewrite Hdm. generalize dependent (w / 8). generalize dependent (w mod 8). intros lo Hlo k _ Hk.
  change (2 ^ 64 - 1 - 4) with (8 * (2 ^ 61 - 1) + 3). change (2 ^ 64 - 1 - 3) with (8 * (2 ^ 61 - 1) + 4).
  assert (lo = 0 \/ lo = 1 \/ lo = 2 \/ lo = 3 \/ lo = 4 \/ lo = 5 \/ lo = 6 \/ lo = 7) as Hc by lia.
  rewrite land_mask by lia.
  rewrite lor_low by (destruct Hc as [->|[->|[->|[->|[->|[->|[->| ->]]]]]]], c; by vm_compute).
  rewrite land_mask by (first [lia | destruct Hc as [->|[->|[->|[->|[->|[->|[->| ->]]]]]]], c; by vm_compute]).
  rewrite lor_low by (destruct Hc as [->|[->|[->|[->|[->|[->|[->| ->]]]]]]], c; by vm_compute).
  rewrite land_low by (destruct Hc as [->|[->|[->|[->|[->|[->|[->| ->]]]]]]], c; by vm_compute).
  rewrite lor_high by (destruct Hc as [->|[->|[->|[->|[->|[->|[->| ->]]]]]]], c; by vm_compute).
  unfold pack. f_equal. destruct Hc as [->|[->|[->|[->|[->|[->|[->| ->]]]]]]], c; reflexivity.
Qed.

(** Initialising the packed word of a node that held anything. *)
Lemma fresh_node w p c : is_ptr0 p ->
  AVL_SETPARENT p (AVL_SETBALANCE 0 (AVL_SETCHILD c (mk_node 0 0 w))) = node_of false 0 0 (pack p c 0).
Proof.
  intros Hp. rewrite <-(fresh_node_u64 (Z.land w 7)); [|split; [apply Z.land_nonneg; lia|]|done].
  - unfold AVL_SETPARENT, AVL_SETBALANCE, AVL_SETCHILD, with_pcb. cbn [avl_child0 avl_child1 avl_pcb]. f_equal. f_equal.
    apply Z.bits_inj'. intros i Hi. rewrite !Z.land_spec, !Z.lor_spec, !Z.land_spec, !Z.lor_spec, !Z.land_spec.
    destruct (Z.testbit 7 i); [by rewrite !andb_true_r|by rewrite !andb_false_r].
  - change 7 with (2 ^ 3 - 1). rewrite land_ones_mod by lia. pose proof (Z.mod_pos_bound w (2 ^ 3)). lia.
Qed.

Lemma land_7_ptr a : is_ptr a -> Z.land a 7 = 0.
Proof. intros [H _]. change 7 with (2 ^ 3 - 1). by rewrite land_ones_mod by lia. Qed.

(** Linking a new leaf into a hole. *)
Lemma link_leaf t ctx rc a n :
  held t ctx Leaf rc -> is_ptr a -> heap t !! a = Some n -> (a ∉ flat (plug ctx Leaf)) ->
  n = node_of false 0 0 (pack (cparent ctx) (cindex ctx false) 0) ->
  exists t', (if negb (cparent ctx =? 0) then
                let* p := get t (cparent ctx) in
                VERIFY (avl_child p (cindex ctx false) =? 0) in put t (cparent ctx) (set_link (cindex ctx false) a)
              else VERIFY (avl_root t =? 0) in Some (with_root t a)) = Some t' /\
    (exists rc', held t' ctx (Node Leaf a 0 Leaf) rc') /\ avl_numnodes t' = avl_numnodes t /\
    same_off (flat (plug ctx Leaf)) (heap t) (heap t').
Proof.
  intros [H1 H2 H3 H4] Ha Hn Hfr ->. assert (NoDup (flat (plug ctx (Node Leaf a 0 Leaf)))) as Hnd.
  { apply NoDup_plug in H4 as (_ & Nc & _). apply NoDup_plug. cbn [flat app].
    split; [apply NoDup_singleton|]. split; [done|]. intros z ->%list_elem_of_singleton Hz.
    apply Hfr, elem_of_plug. by right. }
  destruct ctx as [|f ctx]; cbn [cparent cindex ctx_root ptr] in *.
  - rewrite H3, Z.eqb_refl. cbn [negb]. eexists. split; [done|]. split; [|done].
    exists false. by split.
  - destruct H2 as (Hp & Hb & Hnp & Ho & Hc). rewrite (proj2 (Z.eqb_neq _ _)) by auto with avl. cbn [negb].
    unfold get. rewrite Hnp. cbn [mbind option_bind]. node_simpl. rewrite Z.eqb_refl.
    rewrite (put_some _ _ _ _ Hnp). node_simpl. eexists. split; [done|].
    apply NoDup_plug in H4 as (_ & Nc & _). apply NoDup_ctx_cons in Nc as (N1 & N2 & N3 & N4 & N5).
    assert (a <> f_addr f) as Hne. { intros ->. apply Hfr, elem_of_plug. right. apply elem_of_ctx_cons. by left. }
    split; [|split; [done|]].
    + exists rc. split; cbn [heap with_heap avl_root cparent cindex]; [| |done|done].
      * cbn [rep]. split; [done|]. split; [apply is_bal_0|]. split; [|done].
        by rewrite lookup_insert_ne by congruence.
      * cbn [rep_ctx]. split; [done|]. split; [done|]. split; [by rewrite lookup_insert_eq|]. split.
        -- eapply rep_frame; [done|]. intros z Hz. apply lookup_insert_ne. by intros <-.
        -- eapply rep_ctx_frame; [done|]. intros z Hz. apply lookup_insert_ne. by intros <-.
    + eapply same_off_insert; [done|]. apply elem_of_plug. right. apply elem_of_ctx_cons. by left.
Qed.

(** A node not in the tree can be overwritten. *)
Lemma held_insert t ctx s rc a n m num :
  held t ctx s rc -> (a ∉ flat (plug ctx s)) -> heap t !! a = Some m ->
  held (mk_avl (avl_root t) num (<[a := n]> (heap t))) ctx s rc.
Proof.
  intros [H1 H2 H3 H4] Ha Hm. rewrite elem_of_plug in Ha. split; cbn [heap avl_root]; try done.
  - eapply rep_frame; [done|]. intros z Hz. apply lookup_insert_ne. intros <-. tauto.
  - eapply rep_ctx_frame; [done|]. intros z Hz. apply lookup_insert_ne. intros <-. tauto.
Qed.

Lemma avl_insert_spec t T ctx rc a n :
  is_tree t T -> T = plug ctx Leaf -> held t ctx Leaf rc ->
  is_ptr a -> heap t !! a = Some n -> (a ∉ flat T) ->
  Z.of_nat (S (length (flat T))) < 2 ^ 64 ->
  exists t' T', avl_insert t a (hole_index ctx) = Some t' /\ is_tree t' T' /\
    flat T' = before ctx ++ a :: after ctx /\ same_off (a :: flat T) (heap t) (heap t').
Proof.
  intros Ht HT Hh Ha Hn Hfr Hnum. unfold avl_insert, hole_index.
  pose proof (rep_ctx_ptr0 _ _ _ _ (he_ctx _ _ _ _ Hh)) as HP.
  rewrite index_node, index_child by done. rewrite land_7_ptr by done. cbn [Z.eqb].
  set (t0 := with_num t _). assert (avl_numnodes t0 = Z.of_nat (S (length (flat T)))) as Hn0.
  { cbn. rewrite (it_num _ _ Ht), u64_small; [lia|]. split; lia. }
  rewrite (put_some t0 a n) by done. cbn [mbind option_bind].
  do 4 (erewrite put_some by (cbn [heap with_heap]; apply lookup_insert_eq); cbn [mbind option_bind heap with_heap]).
  rewrite !insert_insert_eq. cbn [with_heap heap avl_root avl_numnodes].
  assert (set_link true 0 (set_link false 0 n) = mk_node 0 0 (avl_pcb n)) as -> by done.
  rewrite fresh_node by done.
  set (t1 := mk_avl (avl_root t) (avl_numnodes t0)
    (<[a := node_of false 0 0 (pack (cparent ctx) (cindex ctx false) 0)]> (heap t))).
  subst T. destruct (link_leaf t1 ctx rc a (node_of false 0 0 (pack (cparent ctx) (cindex ctx false) 0)))
    as (t2 & E2 & [rc' Hh2] & Hn2 & Hoff2).
  - by eapply held_insert.
  - done.
  - apply lookup_insert_eq.
  - done.
  - done.
  - match goal with |- context [get ?u _] => change u with t1 end.
    change (avl_root t0) with (avl_root t1). rewrite E2. cbn [mbind option_bind].
    pose proof (it_balanced _ _ Ht) as Hbal. apply balanced_plug in Hbal as [_ Hcb].
    destruct (insert_loop_spec ctx t2 (Node Leaf a 0 Leaf) rc' (fuel t2) 0 Hh2) as (t' & Ht' & [U1 U2 U3 U4]).
    + pose proof (held_fuel _ _ _ _ Hh2). lia.
    + cbn. lia.
    + done.
    + split; [done|by left].
    + lia.
    + assert (cindex ctx rc' = cindex ctx false \/ ctx = []) as Hci by (destruct ctx; auto).
      destruct (ins_fix_spec ctx (Node Leaf a 0 Leaf) 0) as [Hb' Hf']; [cbn; lia|done|split; [done|by left]|lia|].
      cbn [flat app] in Hf'.
      exists t', (ins_fix ctx (Node Leaf a 0 Leaf)). split; [|split; [|split; [done|]]].
      * destruct Hci as [<-|E]; [done|]. subst ctx. cbn [cparent cindex] in *.
        destruct (fuel t2); [done|]. cbn in Ht' |- *. done.
      * pose proof (he_nodup _ _ _ _ Hh2) as Hnd2. rewrite flat_plug in Hnd2. cbn [flat app] in Hnd2.
        split; [done|by exists rc'|by rewrite Hf'| |done].
        rewrite U3, Hn2, Hf'. cbn [avl_numnodes t1]. change (avl_numnodes t0 = Z.of_nat (length (before ctx ++ a :: after ctx))).
        rewrite Hn0, flat_plug. cbn [flat app]. rewrite !length_app. cbn [length]. lia.
      * eapply same_off_trans; [eapply (same_off_insert _ _ a); [exact Hn|by left]|].
        eapply same_off_trans; [eapply same_off_weaken; [exact Hoff2|intros z Hz; by right]|].
        eapply same_off_weaken; [exact U4|]. intros z. rewrite elem_of_cons, !flat_plug. cbn [flat app].
        rewrite !elem_of_app, ?elem_of_cons. tauto.
Qed.

(** ** Walking *)

(** The nodes on side [d] of a subtree, nearest first. *)
Definition from_dir (d : bool) (l : list Z) : list Z := if d then l else rev l.
Definition side (d : bool) (ctx : list frame) : list Z := if d then after ctx else rev (before ctx).

Lemma side_cons d f ctx :
  side d (f :: ctx) = if bool_decide (f_dir f = d) then side d ctx
                      else f_addr f :: from_dir d (flat (f_other f)) ++ side d ctx.
Proof.
  destruct f as [i a b o]. unfold side, from_dir. destruct d, i; cbn; rewrite ?rev_app_distr, ?app_nil_r; try done.
Qed.

Lemma locate t s : forall ctx rc a,
  held t ctx s rc -> a ∈ flat s ->
  exists ctx' l b r, held t ctx' (Node l a b r) rc /\ plug ctx' (Node l a b r) = plug ctx s.
Proof.
  induction s as [|l IHl x b r IHr]; intros ctx rc a Hh Ha; cbn [flat] in Ha; [by apply elem_of_nil in Ha|].
  rewrite elem_of_app, elem_of_cons in Ha. destruct Ha as [Ha|[->|Ha]].
  - by apply (IHl (mk_frame false x b r :: ctx)); [apply held_frame|].
  - by exists ctx, l, b, r.
  - by apply (IHr (mk_frame true x b l :: ctx)); [apply held_frame|].
Qed.

Lemma rev_cons_app {A} (x : A) l k : rev (l ++ x :: k) = rev k ++ x :: rev l.
Proof. rewrite rev_app_distr. cbn. by rewrite <-app_assoc. Qed.

Lemma from_dir_mkn i a b x y :
  from_dir (negb i) (flat (mkn i a b x y)) = from_dir (negb i) (flat x) ++ a :: from_dir (negb i) (flat y).
Proof. destruct i; cbn; [apply rev_cons_app|done]. Qed.

Lemma descend_spec t i s : forall ctx rc k,
  held t ctx s rc -> s <> Leaf -> (length (flat s) <= k)%nat ->
  descend k t i (ptr s) = Some (hd 0 (from_dir (negb i) (flat s))).
Proof.
  enough (forall n s ctx rc k, (length (flat s) <= n)%nat -> held t ctx s rc -> s <> Leaf -> (length (flat s) <= k)%nat ->
    descend k t i (ptr s) = Some (hd 0 (from_dir (negb i) (flat s)))) as H by eauto.
  clear s. induction n as [|n IH]; intros s ctx rc k Hn Hh Hs Hk; (destruct s as [|l a b r]; [done|]).
  { cbn [flat] in Hn. rewrite length_app in Hn. cbn in Hn. lia. }
  rewrite (node_mkn i l a b r) in *. revert Hn Hh Hk. generalize (at_ i l r) (at_ (negb i) l r).
  clear Hs. intros x y Hn Hh Hk. rewrite ptr_mkn, from_dir_mkn.
  assert (length (flat (mkn i a b x y)) = length (flat x) + S (length (flat y)))%nat as Hl
    by (destruct i; cbn; rewrite length_app; cbn; lia). rewrite Hl in Hn, Hk.
  destruct k as [|k]; [lia|]. cbn [descend].
  pose proof (he_rep _ _ _ _ Hh) as Hrep. apply rep_mkn in Hrep as (Ha & Hb & Hna & Hx & Hy).
  unfold get. rewrite Hna. cbn [mbind option_bind]. node_simpl. destruct x as [|xl xa xb xr].
  - cbn [ptr]. rewrite Z.eqb_refl. by destruct i.
  - assert (ptr (Node xl xa xb xr) <> 0) as Hne by (cbn; destruct Hx as [? _]; auto with avl).
    rewrite (proj2 (Z.eqb_neq _ _)) by done.
    assert (held t (mk_frame i a b y :: ctx) (Node xl xa xb xr) rc) as Hh' by (by apply held_frame).
    erewrite (IH (Node xl xa xb xr) _ rc k); [|lia|exact Hh'|done|lia]. f_equal.
    cbn [flat]. destruct i; cbn [negb from_dir].
    + rewrite rev_cons_app. by destruct (rev (flat xr)).
    + by destruct (flat xl).
Qed.

Lemma ascend_spec t d ctx : forall s rc k,
  held t ctx s rc -> s <> Leaf -> (length ctx < k)%nat ->
  ascend k t (negb d) (ptr s) = Some (hd 0 (side d ctx)).
Proof.
  induction ctx as [|[i a b o] ctx IH]; intros s rc k Hh Hs Hk; (destruct k as [|k]; [cbn in Hk; lia|]);
    cbn [ascend]; (destruct s as [|l x bx r]; [done|]);
    pose proof (he_rep _ _ _ _ Hh) as (Hx & Hbx & Hn & _); unfold get; cbn [ptr]; rewrite Hn; cbn [mbind option_bind];
    change (mk_node (ptr l) (ptr r)) with (node_of false (ptr l) (ptr r));
    pose proof (rep_ctx_ptr0 _ _ _ _ (he_ctx _ _ _ _ Hh)) as HP; node_simpl; cbn [cparent cindex f_addr f_dir].
  { rewrite Z.eqb_refl. by destruct d. }
  pose proof (he_ctx _ _ _ _ Hh) as (Ha & _). cbn [f_addr] in Ha.
  rewrite (proj2 (Z.eqb_neq _ _)) by auto with avl. rewrite side_cons. cbn [f_dir f_addr f_other].
  assert (bool_decide (i = negb d) = negb (bool_decide (i = d))) as -> by (by destruct i, d).
  destruct (bool_decide_reflect (i = d)) as [->|Hne]; cbn [negb]; [|done].
  apply held_frame in Hh. cbn [f_dir f_addr f_bal f_other] in Hh.
  pose proof (IH (mkn d a b (Node l x bx r) o) rc k Hh) as IH'. rewrite ptr_mkn in IH'.
  apply IH'; [by destruct d|cbn in Hk; lia].
Qed.

Lemma avl_walk_spec t ctx l a b r rc d :
  held t ctx (Node l a b r) rc ->
  avl_walk t a d = Some (hd 0 (from_dir d (flat (at_ d l r)) ++ side d ctx)).
Proof.
  intros Hh. pose proof (he_rep _ _ _ _ Hh) as Hrep. cbn [rep] in Hrep. destruct Hrep as (Ha & Hb & Hn & Hl & Hr).
  pose proof (held_fuel _ _ _ _ Hh) as Hf. cbn [flat] in Hf. rewrite length_app in Hf. cbn [length] in Hf.
  unfold avl_walk. rewrite (proj2 (Z.eqb_neq _ _)) by auto with avl. unfold get. rewrite Hn. cbn [mbind option_bind].
  assert (avl_child (mk_node (ptr l) (ptr r) (pack (cparent ctx) (cindex ctx rc) b)) d = ptr (at_ d l r)) as ->
    by (by destruct d).
  destruct (at_ d l r) as [|xl xa xb xr] eqn:E.
  - cbn [ptr]. rewrite Z.eqb_refl. cbn [negb flat].
    rewrite (ascend_spec t d ctx (Node l a b r) rc) by (done || lia). by destruct d.
  - assert (held t (mk_frame d a b (at_ (negb d) l r) :: ctx) (Node xl xa xb xr) rc) as Hh'.
    { apply held_frame. cbn [f_dir f_addr f_bal f_other]. rewrite <-E, <-node_mkn. done. }
    assert (xa <> 0) as Hne by (pose proof (he_rep _ _ _ _ Hh') as [? _]; auto with avl).
    cbn [ptr]. rewrite (proj2 (Z.eqb_neq _ _)) by done. cbn [negb].
    change xa with (ptr (Node xl xa xb xr)). rewrite (descend_spec t (negb d) _ _ _ _ Hh').
    + rewrite negb_involutive. f_equal. cbn [flat]. destruct d; cbn [from_dir].
      * by destruct (flat xl).
      * cbn [ptr]. rewrite !rev_cons_app. by destruct (rev (flat xr)).
    + done.
    + pose proof (held_fuel _ _ _ _ Hh'). lia.
Qed.

Lemma sequence_split l1 l2 k1 k2 (a : Z) :
  NoDup (l1 ++ a :: l2) -> l1 ++ a :: l2 = k1 ++ a :: k2 -> l1 = k1 /\ l2 = k2.
Proof.
  revert k1. induction l1 as [|x l1 IH]; intros [|y k1] Hnd E; cbn [app] in *; simplify_eq; try done.
  - apply NoDup_cons in Hnd as [Hn _]. destruct Hn. rewrite elem_of_app, elem_of_cons. tauto.
  - apply NoDup_cons in Hnd as [Hn _]. destruct Hn. rewrite elem_of_app, elem_of_cons. tauto.
  - apply NoDup_cons in Hnd as [_ Hnd]. destruct (IH k1 Hnd) as [-> ->]; [congruence|done].
Qed.

(** [AVL_NEXT] and [AVL_PREV] along the sequence; NULL at its ends. *)
Lemma avl_walk_sequence t T l1 a l2 :
  is_tree t T -> flat T = l1 ++ a :: l2 ->
  avl_walk t a true = Some (hd 0 l2) /\ avl_walk t a false = Some (hd 0 (rev l1)).
Proof.
  intros Ht Hf. destruct (is_tree_held t T Ht) as [rc Hh].
  destruct (locate t T [] rc a Hh) as (ctx & l & b & r & Hh' & Hp).
  { rewrite Hf, elem_of_app, elem_of_cons. tauto. }
  cbn [plug] in Hp. pose proof (it_nodup _ _ Ht) as Hnd. rewrite Hf in Hnd.
  assert (l1 ++ a :: l2 = (before ctx ++ flat l) ++ a :: (flat r ++ after ctx)) as E.
  { rewrite <-Hf, <-Hp, flat_plug. cbn [flat]. by rewrite <-!app_assoc. }
  destruct (sequence_split _ _ _ _ _ Hnd E) as [-> ->].
  rewrite !(avl_walk_spec t ctx l a b r rc) by done. cbn [at_ from_dir side negb]. by rewrite rev_app_distr.
Qed.

Lemma avl_first_spec t T : is_tree t T -> avl_first t = Some (hd 0 (flat T)) /\ avl_last t = Some (hd 0 (rev (flat T))).
Proof.
  intros Ht. destruct (is_tree_held t T Ht) as [rc Hh]. unfold avl_first, avl_last. rewrite (it_root _ _ Ht).
  destruct T as [|l a b r]; [done|]. pose proof (he_rep _ _ _ _ Hh) as [Ha _].
  cbn [ptr]. rewrite (proj2 (Z.eqb_neq _ _)) by auto with avl. change a with (ptr (Node l a b r)).
  pose proof (held_fuel _ _ _ _ Hh). rewrite !(descend_spec t _ _ _ _ _ Hh) by (done || (cbn [length] in *; lia)). done.
Qed.

(** The node next to a hole. *)
Lemma avl_nearest_spec t ctx rc d :
  held t ctx Leaf rc -> avl_nearest t (hole_index ctx) d = Some (hd 0 (side d ctx)).
Proof.
  intros Hh. pose proof (rep_ctx_ptr0 _ _ _ _ (he_ctx _ _ _ _ Hh)) as HP. unfold avl_nearest, hole_index.
  rewrite index_node, index_child by done. destruct ctx as [|[i a b o] ctx].
  - cbn [cparent]. rewrite Z.eqb_refl. pose proof (he_root _ _ _ _ Hh) as Hr. cbn in Hr. rewrite Hr, Z.eqb_refl. by destruct d.
  - cbn [cparent cindex f_addr f_dir]. pose proof (he_ctx _ _ _ _ Hh) as (Ha & _). cbn [f_addr] in Ha.
    rewrite (proj2 (Z.eqb_neq _ _)) by auto with avl. rewrite side_cons. cbn [f_dir f_addr f_other].
    destruct (bool_decide_reflect (i = d)) as [->|Hne]; cbn [negb]; [|done].
    apply held_frame in Hh. cbn [f_dir f_addr f_bal f_other] in Hh.
    assert (held t ctx (Node (if d then o else Leaf) a b (if d then Leaf else o)) rc) as Hh' by (by destruct d).
    rewrite (avl_walk_spec _ _ _ _ _ _ _ d Hh'). by destruct d.
Qed.
