(* ===== verification/AvlRemove.v ===== *)
(** * AVL trees: removal

    [avl_remove] on the heap: unlinking a node with at most one child and
    rebalancing up to the root, and exchanging an interior node with its
    neighbour through the stack variable [tmp].  The removed node disappears
    from the in-order sequence and the tree stays balanced. *)
From Stdlib Require Import ZArith Lia.
From stdpp Require Import base numbers list option gmap.
From S2P Require Import Prelude Avl AvlTree AvlProof AvlOps.

(** ** Rebalancing *)

Lemma remove_loop_spec ctx : forall t s rc k,
  held t ctx s rc -> ctx <> [] -> (length ctx <= k)%nat ->
  balanced s -> ctx_balanced ctx (height s + 1) ->
  exists t', remove_loop k t (cparent ctx) (cindex ctx rc) = Some t' /\
    updated t t' (plug ctx s) (del_fix ctx s) rc.
Proof.
  induction ctx as [|[d a b o] ctx IH]; intros t s rc k Hheld Hne Hk Hs Hc; [done|]. clear Hne.
  destruct k as [|k]; [cbn in Hk; lia|]. cbn [remove_loop cparent cindex f_addr f_dir].
  destruct Hc as (Hb & Hb1 & Ho & Hc). cbn [f_dir f_bal f_other f_addr del_fix plug] in *.
  pose proof Hheld as Hf. apply held_frame in Hf. cbn [f_dir f_addr f_bal f_other] in Hf.
  pose proof (he_rep _ _ _ _ Hf) as Hrep. apply rep_mkn in Hrep as (Ha & Hbb & Hn & _).
  pose proof (rep_ctx_ptr0 _ _ _ _ (he_ctx _ _ _ _ Hf)) as HP.
  unfold get. rewrite Hn. cbn [mbind option_bind]. node_simpl.
  change (avl_child2balance d) with (sgn d). pose proof (sgn_cases d) as Hsg.
  pose proof (height_nonneg o). pose proof (height_nonneg s).
  (* what the loop does with a subtree that lost a level *)
  assert (forall t1 s1, held t1 ctx s1 rc -> balanced s1 -> avl_numnodes t1 = avl_numnodes t ->
    ctx_balanced ctx (height s1 + 1) -> flat s1 = flat (mkn d a b s o) ->
    same_off (flat (plug ctx (mkn d a b s o))) (heap t) (heap t1) ->
    exists t', (if true && negb (cparent ctx =? 0) then remove_loop k t1 (cparent ctx) (cindex ctx rc) else Some t1) = Some t' /\
      updated t t' (plug ctx (mkn d a b s o)) (del_fix ctx s1) rc) as Hgo.
  { intros t1 s1 Hh1 Hbs1 Hnum1 Hc1 Hfl Hoff. cbn [andb]. destruct ctx as [|f ctx].
    - cbn [cparent]. rewrite Z.eqb_refl. cbn [negb]. exists t1. split; [done|].
      by apply (held_updated t t1 [] s1).
    - pose proof (he_ctx _ _ _ _ Hh1) as (Hfa & _). cbn [cparent]. rewrite (proj2 (Z.eqb_neq _ _)) by auto with avl.
      cbn [negb]. destruct (IH t1 s1 rc k Hh1) as (t' & Ht' & [U1 U2 U3 U4]); [done|cbn in *; lia|done|done|].
      exists t'. split; [done|]. split; [done|done|congruence|]. eapply same_off_trans; [done|].
      rewrite flat_plug, Hfl, <-flat_plug in U4. done. }
  destruct (Z.eqb_spec b 0) as [E|E]; [|destruct (Z.eqb_spec (b - sgn d) 0) as [E2|E2]].
  - assert (is_bal (b - sgn d)) as Hb' by (unfold is_bal; destruct Hsg as [Hsg|Hsg]; rewrite Hsg in *; lia).
    destruct (held_set_balance t ctx d a b (b - sgn d) s o rc Hf Hb') as (t' & -> & Hheld' & Hnum & Hoff).
    exists t'. split; [done|]. by apply held_updated.
  - rewrite E2. destruct (held_set_balance t ctx d a b 0 s o rc Hf) as (t1 & -> & Hheld1 & Hnum & Hoff); [auto with avl|].
    cbn [mbind option_bind]. apply Hgo; try done.
    + rewrite balanced_mkn. destruct Hsg as [Hsg|Hsg]; rewrite Hsg in *; repeat split; try done; lia.
    + rewrite height_mkn. replace (_ + 1) with (1 + Z.max (height s + 1) (height o))
        by (destruct Hsg as [Hsg|Hsg]; rewrite Hsg in *; lia). done.
    + by rewrite !flat_mkn.
  - assert (b - sgn d = 2 * sgn (negb d)) as -> by (rewrite sgn_negb; destruct Hsg as [Hsg|Hsg]; rewrite Hsg in *; lia).
    assert (height o = height s + 2) as Hho by (destruct Hsg as [Hsg|Hsg]; rewrite Hsg in *; lia).
    rewrite <-mkn_negb in Hf. pose proof (rotate_spec (negb d) a b o s Ho Hs Hho) as Hrot.
    destruct (rotation_spec t ctx rc (negb d) a b o s Hf) as (t1 & -> & R1 & R2 & R3 & R4 & R5);
      [by eapply rotatable_balanced|].
    cbn [mbind option_bind]. destruct (rotate (negb d) a o s) as [s' sh]. cbn [fst snd] in *.
    rewrite mkn_negb in Hrot, R5. destruct Hrot as (Hb' & Hf' & Hh' & _).
    assert (held t1 ctx s' rc) as Hh1.
    { split; try done. rewrite flat_plug, Hf', <-flat_plug. rewrite <-mkn_negb. apply Hf. }
    destruct sh; cbn [Z.b2z] in Hh'.
    + apply Hgo; try done. rewrite Hh'.
      replace (height s + 3 - 1 + 1) with (1 + Z.max (height s + 1) (height o)) by lia. done.
    + cbn [andb]. exists t1. split; [done|]. by apply held_updated.
Qed.

(** ** Unlinking a node with at most one child *)

Lemma held_with_num t ctx s rc n : held t ctx s rc -> held (with_num t n) ctx s rc.
Proof. intros [H1 H2 H3 H4]. by split. Qed.

(** [a] has the subtree [s] at index [i] and nothing at the other. *)
Lemma unlink_spec t ctx rc i a b s :
  held t ctx (mkn i a b s Leaf) rc -> 0 < avl_numnodes t ->
  balanced (plug ctx (mkn i a b s Leaf)) ->
  exists t', unlink t a = Some t' /\ rep (heap t') (del_fix ctx s) 0 rc /\
    avl_root t' = ptr (del_fix ctx s) /\ avl_numnodes t' = avl_numnodes t - 1 /\
    balanced (del_fix ctx s) /\ flat (del_fix ctx s) = before ctx ++ flat s ++ after ctx /\
    same_off (flat (plug ctx s)) (heap t) (heap t').
Proof.
  intros Hh Hnum Hbal. unfold unlink. rewrite (proj2 (Z.ltb_lt _ _)) by done.
  apply (held_with_num _ _ _ _ (avl_numnodes t - 1)) in Hh. set (t0 := with_num t _) in *.
  pose proof (he_rep _ _ _ _ Hh) as Hrep. apply rep_mkn in Hrep as (Ha & Hb & Hn & Hs & _).
  pose proof (rep_ctx_ptr0 _ _ _ _ (he_ctx _ _ _ _ Hh)) as HP. cbn [ptr] in Hn.
  pose proof (he_nodup _ _ _ _ Hh) as Hnd. apply NoDup_plug in Hnd as (N & Nc & Nd).
  setoid_rewrite elem_of_flat_mkn in Nd. apply NoDup_flat_mkn in N as (N1 & _ & _ & N4 & _).
  assert (NoDup (flat (plug ctx s))) as Hnd' by (apply NoDup_plug; naive_solver).
  apply balanced_plug in Hbal as [Hbs Hbc]. rewrite height_mkn in Hbc. apply balanced_mkn in Hbs as (_ & _ & Hbs & _).
  pose proof (height_nonneg s). cbn [height] in Hbc. rewrite Z.max_l in Hbc by lia.
  replace (1 + height s) with (height s + 1) in Hbc by lia. destruct (del_fix_spec ctx s Hbs Hbc) as [Hdb Hdf].
  unfold get. rewrite Hn. cbn [mbind option_bind]. node_simpl.
  assert ((if negb (avl_child0 (node_of i (ptr s) 0 (pack (cparent ctx) (cindex ctx rc) b)) =? 0)
           then avl_child0 (node_of i (ptr s) 0 (pack (cparent ctx) (cindex ctx rc) b))
           else avl_child1 (node_of i (ptr s) 0 (pack (cparent ctx) (cindex ctx rc) b))) = ptr s) as ->.
  { destruct i; cbn; [done|]. destruct (Z.eqb_spec (ptr s) 0); cbn; congruence. }
  destruct (relink_spec t0 s a i (cparent ctx) (cindex ctx rc) Hs) as (h1 & -> & Hs1 & Hoff1); [auto with avl|done|done|].
  cbn [mbind option_bind]. pose proof (he_ctx _ _ _ _ Hh) as Hctx. pose proof (he_root _ _ _ _ Hh) as Hroot.
  rewrite ptr_mkn in Hctx, Hroot.
  assert (rep_ctx h1 ctx a rc) as Hctx1.
  { eapply rep_ctx_frame; [exact Hctx|]. intros z Hz. apply Hoff1. intros ?. eapply Nd; [right; by left|done]. }
  destruct (hang_spec (with_heap t0 h1) ctx a rc (ptr s) Hctx1 Nc Hroot) as (t2 & Hhang & Hc2 & Hr2 & Hn2 & Hoff2).
  assert (held t2 ctx s rc) as Hh2.
  { split; try done. eapply rep_frame; [exact Hs1|]. intros z Hz. apply Hoff2. intros ?. eapply Nd; [right; by left|done]. }
  assert (same_off (flat (plug ctx s)) (heap t) (heap t2)) as Hoff.
  { eapply same_off_trans.
    - eapply same_off_weaken; [exact Hoff1|]. intros z Hz. apply elem_of_plug. by left.
    - eapply same_off_weaken; [exact Hoff2|]. intros z Hz. apply elem_of_plug. by right. }
  unfold hang in Hhang. destruct ctx as [|f ctx]; cbn [cparent cindex] in Hhang |- *.
  - rewrite Z.eqb_refl in Hhang |- *. injection Hhang as <-. eexists. split; [done|]. cbn [del_fix] in *.
    split; [apply Hh2|]. split; [done|]. done.
  - pose proof Hctx as (Hfa & _). rewrite (proj2 (Z.eqb_neq _ _)) in Hhang |- * by auto with avl.
    rewrite Hhang. cbn [mbind option_bind].
    destruct (remove_loop_spec (f :: ctx) t2 s rc (fuel t2) Hh2) as (t' & Ht' & [U1 U2 U3 U4]); try done.
    { pose proof (held_fuel _ _ _ _ Hh2). lia. }
    exists t'. split; [exact Ht'|]. split; [done|]. split; [done|]. split; [rewrite U3, Hn2; done|].
    split; [done|]. split; [done|]. by eapply same_off_trans.
Qed.

(** ** Part of the way up *)

(** A context below a node [P] that holds it at index [I]. *)
Definition pparent (ctx : list frame) (P : Z) : Z := match ctx with [] => P | f :: _ => f_addr f end.
Definition pindex (ctx : list frame) (I : bool) : bool := match ctx with [] => I | f :: _ => f_dir f end.
Fixpoint rep_pctx (h : gmap Z avl_node) (ctx : list frame) (hole P : Z) (I : bool) : Prop :=
  match ctx with
  | [] => True
  | f :: ctx =>
      is_ptr (f_addr f) /\ is_bal (f_bal f) /\
      h !! f_addr f = Some (node_of (f_dir f) hole (ptr (f_other f)) (pack (pparent ctx P) (pindex ctx I) (f_bal f))) /\
      rep h (f_other f) (f_addr f) (negb (f_dir f)) /\ rep_pctx h ctx (f_addr f) P I
  end.

Lemma rep_pplug h P I ctx : forall s,
  rep h (plug ctx s) P I <-> rep h s (pparent ctx P) (pindex ctx I) /\ rep_pctx h ctx (ptr s) P I.
Proof.
  induction ctx as [|[d a b o] ctx IH]; intros s; cbn [plug rep_pctx pparent pindex f_dir f_addr f_bal f_other];
    [tauto|]. rewrite IH, rep_mkn, ptr_mkn. tauto.
Qed.

Lemma plug_app c1 c2 : forall s, plug (c1 ++ c2) s = plug c2 (plug c1 s).
Proof. induction c1 as [|f c1 IH]; intros s; [done|]. cbn. apply IH. Qed.

Lemma rep_pctx_frame h h' ctx P I : forall hole,
  rep_pctx h ctx hole P I -> (forall a, a ∈ ctx_addrs ctx -> h' !! a = h !! a) -> rep_pctx h' ctx hole P I.
Proof.
  induction ctx as [|f ctx IH]; intros hole; [done|]. cbn [rep_pctx]. setoid_rewrite elem_of_ctx_cons.
  intros (H1 & H2 & H3 & H4 & H5) Hf. split; [done|]. split; [done|].
  split; [rewrite Hf by tauto; done|]. split; [eapply rep_frame; [done|naive_solver]|].
  apply IH; [done|naive_solver].
Qed.

(** [AVL_SETPARENT] on the root of a subtree. *)
Lemma reparent_spec t x p c q :
  rep (heap t) x p c -> x <> Leaf -> is_ptr0 p -> is_ptr0 q -> NoDup (flat x) ->
  exists h', put t (ptr x) (AVL_SETPARENT q) = Some (with_heap t h') /\ rep h' x q c /\ same_off (flat x) (heap t) h'.
Proof.
  intros Hx Hne Hp Hq Hnd. destruct x as [|l a b r]; [done|]. cbn [ptr].
  rewrite (node_mkn false) in Hx, Hnd |- *. cbn [at_ negb] in *.
  apply rep_mkn in Hx as (Ha & Hb & Hn & Hl & Hr). apply NoDup_flat_mkn in Hnd as (N1 & N2 & _).
  rewrite (put_some _ _ _ _ Hn). node_simpl. eexists. split; [done|]. split.
  - apply rep_mkn. split; [done|]. split; [done|]. split; [by rewrite lookup_insert_eq|].
    split; (eapply rep_frame; [done|]; intros z Hz; apply lookup_insert_ne; by intros <-).
  - eapply same_off_insert; [done|]. apply elem_of_flat_mkn. by left.
Qed.

(** [AVL_SETPARENT] on the topmost node of a context. *)
Lemma reparent_ctx_spec ctx : forall t hole p q I,
  ctx <> [] -> rep_pctx (heap t) ctx hole p I -> is_ptr0 p -> is_ptr0 q -> NoDup (ctx_addrs ctx) ->
  exists h', put t (ctx_root ctx hole) (AVL_SETPARENT q) = Some (with_heap t h') /\ rep_pctx h' ctx hole q I /\
    same_off (ctx_addrs ctx) (heap t) h'.
Proof.
  induction ctx as [|f ctx IH]; intros t hole p q I Hne Hr Hp Hq Hnd; [done|]. cbn [rep_pctx ctx_root] in *.
  destruct Hr as (H1 & H2 & H3 & H4 & H5). apply NoDup_ctx_cons in Hnd as (N1 & N2 & N3 & N4 & N5).
  destruct ctx as [|g ctx].
  - cbn [pparent pindex ctx_root rep_pctx] in *. rewrite (put_some _ _ _ _ H3). node_simpl.
    eexists. split; [done|]. split.
    + split; [done|]. split; [done|]. split; [by rewrite lookup_insert_eq|]. split; [|done].
      eapply rep_frame; [done|]. intros z Hz. apply lookup_insert_ne. by intros <-.
    + eapply same_off_insert; [done|]. apply elem_of_ctx_cons. by left.
  - destruct (IH t (f_addr f) p q I) as (h' & E & Hr' & Hoff); try done.
    exists h'. split; [done|]. split.
    + split; [done|]. split; [done|]. split; [rewrite (proj2 Hoff) by done; done|]. split; [|done].
      eapply rep_frame; [done|]. intros z Hz. apply Hoff. intros ?. by eapply N5.
    + eapply same_off_weaken; [done|]. intros z Hz. apply elem_of_ctx_cons. tauto.
Qed.

(** Changing the link to the hole of a context. *)
Lemma rehole_spec t ctx hole P I new :
  ctx <> [] -> rep_pctx (heap t) ctx hole P I -> NoDup (ctx_addrs ctx) ->
  exists h', put t (pparent ctx P) (set_link (pindex ctx I) new) = Some (with_heap t h') /\
    rep_pctx h' ctx new P I /\ same_off (ctx_addrs ctx) (heap t) h'.
Proof.
  intros Hne Hr Hnd. destruct ctx as [|f ctx]; [done|]. cbn [rep_pctx pparent pindex] in *.
  destruct Hr as (H1 & H2 & H3 & H4 & H5). apply NoDup_ctx_cons in Hnd as (N1 & N2 & N3 & N4 & N5).
  rewrite (put_some _ _ _ _ H3). node_simpl. eexists. split; [done|]. split.
  - split; [done|]. split; [done|]. split; [by rewrite lookup_insert_eq|]. split.
    + eapply rep_frame; [done|]. intros z Hz. apply lookup_insert_ne. by intros <-.
    + eapply rep_pctx_frame; [done|]. intros z Hz. apply lookup_insert_ne. by intros <-.
  - eapply same_off_insert; [done|]. apply elem_of_ctx_cons. by left.
Qed.

(** The neighbour of a node in its subtree at index [i]. *)
Lemma neighbor_split i X : X <> Leaf ->
  exists ctx n nb y, X = plug ctx (mkn i n nb y Leaf) /\ Forall (fun f => f_dir f = negb i) ctx.
Proof.
  induction X as [|l IHl a b r IHr]; [done|]. intros _. rewrite (node_mkn i).
  assert (at_ (negb i) l r <> Leaf -> exists ctx n nb y, at_ (negb i) l r = plug ctx (mkn i n nb y Leaf) /\
    Forall (fun f => f_dir f = negb i) ctx) as IH by (destruct i; done).
  destruct (at_ (negb i) l r) as [|l' a' b' r'] eqn:E.
  - exists [], a, b, (at_ i l r). done.
  - destruct IH as (ctx & n & nb & y & -> & Hd); [done|].
    exists (ctx ++ [mk_frame (negb i) a b (at_ i l r)]), n, nb, y. split.
    + rewrite plug_app. cbn [plug f_dir f_addr f_bal f_other]. by rewrite mkn_negb.
    + apply Forall_app. split; [done|]. by constructor.
Qed.

Lemma side_nil i ctx : Forall (fun f => f_dir f = negb i) ctx -> side (negb i) ctx = [].
Proof.
  induction 1 as [|f ctx Hf _ IH]; [by destruct i|]. rewrite side_cons, Hf.
  by rewrite bool_decide_eq_true_2.
Qed.

Lemma neighbor_first i ctx n nb y : Forall (fun f => f_dir f = negb i) ctx ->
  hd 0 (from_dir i (flat (plug ctx (mkn i n nb y Leaf)))) = n.
Proof.
  intros H%side_nil. rewrite flat_plug, flat_mkn. destruct i; cbn [side negb flat_mk flat from_dir app] in *.
  - by rewrite <-(rev_involutive (before ctx)), H.
  - rewrite H, app_nil_r, rev_app_distr, rev_app_distr. done.
Qed.

Lemma flat_plug_perm ctx s : flat (plug ctx s) ≡ₚ ctx_addrs ctx ++ flat s.
Proof. rewrite flat_plug. unfold ctx_addrs. by rewrite <-app_assoc, (Permutation_app_comm (flat s)). Qed.
Lemma flat_mkn_perm i a b x y : flat (mkn i a b x y) ≡ₚ a :: flat x ++ flat y.
Proof.
  destruct i; cbn; rewrite <-Permutation_middle; [|done]. by rewrite (Permutation_app_comm (flat y)).
Qed.

Lemma swap_perm i a b n nb y Y ctx ctx2 :
  flat (plug ctx (mkn i a b (plug ctx2 (mkn i n nb y Leaf)) Y)) ≡ₚ
  n :: a :: ctx_addrs ctx ++ ctx_addrs ctx2 ++ flat Y ++ flat y.
Proof.
  rewrite flat_plug_perm, flat_mkn_perm, flat_plug_perm, flat_mkn_perm. cbn [flat].
  rewrite app_nil_r, <-!app_assoc, <-Permutation_middle. cbn [app].
  by rewrite <-!Permutation_middle, (Permutation_swap n a), (Permutation_app_comm (flat y)).
Qed.

(** ** Exchanging an interior node with its neighbour *)

Section swap.
Context (t : avl_tree) (ctx : list frame) (rc : bool) (i : bool) (a b : Z) (Y : tree)
        (ctx2 : list frame) (n nb : Z) (y : tree) (tmp : Z).
Let X := plug ctx2 (mkn i n nb y Leaf).
Context (Hh : held t ctx (mkn i a b X Y) rc) (HY : Y <> Leaf)
        (Hdir : Forall (fun f => f_dir f = negb i) ctx2)
        (Htmp : is_ptr tmp) (Hfresh : heap t !! tmp = None).

(** Where things are while [node] moves to the place of [delete] and [tmp] to
    the place of [node]: the link below [ctx2], the parents of [ctx2], [Y]
    and [y]. *)
Record pieces (t1 : avl_tree) (hole p2 pY py : Z) : Prop := {
  pc_ctx : rep_ctx (heap t1) ctx n rc;
  pc_n : heap t1 !! n = Some (node_of i (ctx_root ctx2 tmp) (ptr Y) (pack (cparent ctx) (cindex ctx rc) b));
  pc_tmp : heap t1 !! tmp = Some (node_of i (ptr y) 0 (pack (pparent ctx2 p2) (pindex ctx2 i) nb));
  pc_ctx2 : rep_pctx (heap t1) ctx2 hole p2 i;
  pc_Y : rep (heap t1) Y pY (negb i);
  pc_y : rep (heap t1) y py i
}.

(** The addresses are all different. *)
Lemma swap_distinct :
  NoDup (tmp :: n :: a :: ctx_addrs ctx ++ ctx_addrs ctx2 ++ flat Y ++ flat y).
Proof using All.
  pose proof (he_nodup _ _ _ _ Hh) as Hnd. pose proof (held_plug _ _ _ _ Hh) as [Hr _].
  assert (tmp ∉ flat (plug ctx (mkn i a b X Y))) as Ht.
  { intros Hin. destruct (rep_all _ _ _ _ _ Hr Hin) as [? ?]. congruence. }
  unfold X in Hnd, Ht. rewrite swap_perm in Hnd, Ht. by apply NoDup_cons.
Qed.

Lemma swap_facts :
  n <> tmp /\
  (forall z, z ∈ ctx_addrs ctx -> z <> n /\ z <> tmp /\ (z ∉ ctx_addrs ctx2) /\ (z ∉ flat Y) /\ (z ∉ flat y)) /\
  (forall z, z ∈ ctx_addrs ctx2 -> z <> n /\ z <> tmp /\ (z ∉ flat Y) /\ (z ∉ flat y)) /\
  (forall z, z ∈ flat Y -> z <> n /\ z <> tmp /\ (z ∉ ctx_addrs ctx2) /\ (z ∉ ctx_addrs ctx) /\ (z ∉ flat y)) /\
  (forall z, z ∈ flat y -> z <> n /\ z <> tmp /\ (z ∉ ctx_addrs ctx2) /\ (z ∉ ctx_addrs ctx) /\ (z ∉ flat Y)) /\
  NoDup (ctx_addrs ctx) /\ NoDup (ctx_addrs ctx2) /\ NoDup (flat Y) /\ NoDup (flat y).
Proof using All.
  pose proof swap_distinct as D. apply NoDup_cons in D as [D1 D]. apply NoDup_cons in D as [D2 D].
  apply NoDup_cons in D as [_ D]. apply NoDup_app in D as (N1 & D4 & D). apply NoDup_app in D as (N2 & D6 & D).
  apply NoDup_app in D as (N3 & D8 & N4).
  rewrite !not_elem_of_cons, !not_elem_of_app in D1. rewrite !not_elem_of_cons, !not_elem_of_app in D2.
  assert (forall (z : Z) (S1 S2 : list Z), (z ∉ S1 ++ S2) <-> (z ∉ S1) /\ (z ∉ S2)) as Ha by (intros; apply not_elem_of_app).
  split; [intros ->; tauto|].
  split; [intros z Hz; specialize (D4 z Hz); rewrite !Ha in D4; repeat split; try tauto; intros ->; tauto|].
  split; [intros z Hz; specialize (D6 z Hz); rewrite !Ha in D6; repeat split; try tauto; intros ->; tauto|].
  split; [|split; [|tauto]]; intros z Hz; specialize (D4 z); specialize (D6 z); specialize (D8 z);
    rewrite !Ha in D4; rewrite !Ha in D6; repeat split; try tauto; intros ->; tauto.
Qed.

(** The places that stay as they are outside the addresses [S]. *)
Lemma pieces_off S t1 t2 hole p2 pY py : pieces t1 hole p2 pY py -> same_off S (heap t1) (heap t2) ->
  ((forall z, z ∈ ctx_addrs ctx -> z ∉ S) -> rep_ctx (heap t2) ctx n rc) /\
  ((n ∉ S) -> heap t2 !! n = heap t1 !! n) /\ ((tmp ∉ S) -> heap t2 !! tmp = heap t1 !! tmp) /\
  ((forall z, z ∈ ctx_addrs ctx2 -> z ∉ S) -> rep_pctx (heap t2) ctx2 hole p2 i) /\
  ((forall z, z ∈ flat Y -> z ∉ S) -> rep (heap t2) Y pY (negb i)) /\
  ((forall z, z ∈ flat y -> z ∉ S) -> rep (heap t2) y py i).
Proof.
  intros [H1 H2 H3 H4 H5 H6] [_ Ho].
  split; [intros; eapply rep_ctx_frame; eauto|]. split; [auto|]. split; [auto|].
  split; [intros; eapply rep_pctx_frame; eauto|]. split; intros; eapply rep_frame; eauto.
Qed.

Lemma move_Y t1 p2 py q : pieces t1 n p2 a py -> is_ptr q -> is_ptr a ->
  exists h, put t1 (ptr Y) (AVL_SETPARENT q) = Some (with_heap t1 h) /\
    pieces (with_heap t1 h) n p2 q py /\ same_off (flat Y) (heap t1) h.
Proof using All.
  intros Hp Hq Ha. destruct swap_facts as (F1 & F2 & F3 & F4 & F5 & N1 & N2 & N3 & N4).
  destruct (reparent_spec t1 Y a (negb i) q (pc_Y _ _ _ _ _ Hp)) as (h & E & Hr & Hoff); try (done || auto with avl).
  exists h. split; [done|]. split; [|done].
  destruct (pieces_off (flat Y) t1 (with_heap t1 h) _ _ _ _ Hp Hoff) as (O1 & O2 & O3 & O4 & _ & O6).
  destruct Hp as [P1 P2 P3 P4 P5 P6]. split; cbn [heap with_heap] in *.
  - naive_solver. - rewrite O2; naive_solver. - rewrite O3; naive_solver. - naive_solver. - done. - naive_solver.
Qed.

(** What the tree says about the moving nodes. *)
Lemma swap_nodes :
  is_ptr a /\ is_bal b /\ is_ptr n /\ is_bal nb /\ is_ptr0 (cparent ctx) /\
  is_ptr0 (pparent ctx2 a) /\ is_ptr0 (pparent ctx2 n) /\
  heap t !! a = Some (node_of i (ctx_root ctx2 n) (ptr Y) (pack (cparent ctx) (cindex ctx rc) b)) /\
  heap t !! n = Some (node_of i (ptr y) 0 (pack (pparent ctx2 a) (pindex ctx2 i) nb)) /\
  rep_pctx (heap t) ctx2 n a i /\ rep (heap t) y n i /\ rep (heap t) Y a (negb i).
Proof using All.
  pose proof (he_rep _ _ _ _ Hh) as Hr. apply rep_mkn in Hr as (Ha & Hb & Hna & HX & HYr).
  unfold X in HX, Hna. apply rep_pplug in HX as [Hn Hc2]. rewrite ptr_plug, ptr_mkn in Hna. rewrite ptr_mkn in Hc2.
  apply rep_mkn in Hn as (Hn & Hnb & Hnn & Hy & _). pose proof (rep_ctx_ptr0 _ _ _ _ (he_ctx _ _ _ _ Hh)) as HP.
  assert (is_ptr0 (pparent ctx2 a) /\ is_ptr0 (pparent ctx2 n)) as [? ?].
  { destruct ctx2 as [|f c2]; cbn [pparent]; [by split; right|]. destruct Hc2 as [? _]. by split; right. }
  repeat (split; [done|]). done.
Qed.

Lemma ctx_root_hole c h1 h2 : c <> [] -> ctx_root c h1 = ctx_root c h2.
Proof. by destruct c. Qed.

Lemma ctx_root_in c : forall h, c <> [] -> ctx_root c h ∈ ctx_addrs c.
Proof.
  induction c as [|g c IH]; [done|]. intros h _. apply elem_of_ctx_cons. destruct c as [|g' c]; [by left|].
  right. right. by apply (IH (f_addr g)).
Qed.

Lemma move_ctx2 t1 : pieces t1 n a a n ->
  exists h, put t1 (ctx_root ctx2 tmp) (AVL_SETPARENT n) = Some (with_heap t1 h) /\
    pieces (with_heap t1 h) n n a n /\ same_off (tmp :: ctx_addrs ctx2) (heap t1) h.
Proof using All.
  intros Hp. destruct swap_facts as (F1 & F2 & F3 & F4 & F5 & N1 & N2 & N3 & N4).
  destruct swap_nodes as (Ha & Hb & Hn & Hnb & HP & HPa & HPn & _).
  destruct (decide (ctx2 = [])) as [E|Hne].
  - pose proof (pc_tmp _ _ _ _ _ Hp) as Ht. rewrite E in Ht |- *. cbn [ctx_root pparent pindex] in Ht |- *.
    rewrite (put_some _ _ _ _ Ht). node_simpl. eexists. split; [done|].
    assert (same_off [tmp] (heap t1) (<[tmp := node_of i (ptr y) 0 (pack n i nb)]> (heap t1))) as Hoff
      by (eapply same_off_insert; [done|by left]).
    split; [|done]. destruct (pieces_off [tmp] t1 (with_heap t1 _) _ _ _ _ Hp Hoff) as (O1 & O2 & _ & _ & O5 & O6).
    destruct Hp as [P1 P2 P3 P4 P5 P6]. setoid_rewrite list_elem_of_singleton in O1.
    setoid_rewrite list_elem_of_singleton in O5. setoid_rewrite list_elem_of_singleton in O6.
    rewrite list_elem_of_singleton in O2. split; cbn [heap with_heap] in *.
    + naive_solver. + rewrite O2; naive_solver. + rewrite E. apply lookup_insert_eq. + by rewrite E.
    + naive_solver. + naive_solver.
  - rewrite (ctx_root_hole ctx2 tmp n) by done.
    destruct (reparent_ctx_spec ctx2 t1 n a n i Hne (pc_ctx2 _ _ _ _ _ Hp)) as (h & E & Hr & Hoff); try (done || auto with avl).
    exists h. split; [done|]. split; [|eapply same_off_weaken; [done|]; intros z Hz; by right].
    destruct (pieces_off _ t1 (with_heap t1 h) _ _ _ _ Hp Hoff) as (O1 & O2 & O3 & _ & O5 & O6).
    assert (pparent ctx2 n = pparent ctx2 a) as EP by (by destruct ctx2).
    destruct Hp as [P1 P2 P3 P4 P5 P6]. split; cbn [heap with_heap] in *.
    + naive_solver. + rewrite O2; naive_solver. + rewrite EP, O3; naive_solver. + done. + naive_solver. + naive_solver.
Qed.

Lemma rehole_ctx2 t1 : pieces t1 n n n n ->
  exists h, put t1 (pparent ctx2 n) (set_link (pindex ctx2 i) tmp) = Some (with_heap t1 h) /\
    pieces (with_heap t1 h) tmp n n n /\ same_off (n :: ctx_addrs ctx2) (heap t1) h.
Proof using All.
  intros Hp. destruct swap_facts as (F1 & F2 & F3 & F4 & F5 & N1 & N2 & N3 & N4).
  destruct (decide (ctx2 = [])) as [E|Hne].
  - pose proof (pc_n _ _ _ _ _ Hp) as Hn. rewrite E in Hn |- *. cbn [ctx_root pparent pindex] in Hn |- *.
    rewrite (put_some _ _ _ _ Hn). node_simpl. rewrite insert_id by done. exists (heap t1). split; [done|].
    split; [|done]. destruct Hp as [P1 P2 P3 P4 P5 P6]. split; try done. by rewrite E.
  - destruct (rehole_spec t1 ctx2 n n i tmp Hne (pc_ctx2 _ _ _ _ _ Hp) N2) as (h & E & Hr & Hoff).
    exists h. split; [done|]. split; [|eapply same_off_weaken; [done|]; intros z Hz; by right].
    destruct (pieces_off _ t1 (with_heap t1 h) _ _ _ _ Hp Hoff) as (O1 & O2 & O3 & _ & O5 & O6).
    destruct Hp as [P1 P2 P3 P4 P5 P6]. split; cbn [heap with_heap] in *.
    + naive_solver. + rewrite O2; naive_solver. + rewrite O3; naive_solver. + done. + naive_solver. + naive_solver.
Qed.

Lemma move_y t1 : pieces t1 tmp n n n ->
  exists h, (if negb (ptr y =? 0) then put t1 (ptr y) (AVL_SETPARENT tmp) else Some t1) = Some (with_heap t1 h) /\
    pieces (with_heap t1 h) tmp n n tmp /\ same_off (flat y) (heap t1) h.
Proof using All.
  intros Hp. destruct swap_facts as (F1 & F2 & F3 & F4 & F5 & N1 & N2 & N3 & N4).
  destruct swap_nodes as (Ha & Hb & Hn & Hnb & HP & HPa & HPn & _).
  pose proof (pc_y _ _ _ _ _ Hp) as Hy. assert (y = Leaf \/ y <> Leaf) as [E|Hne] by (destruct y; auto).
  - exists (heap t1). split; [by rewrite E; destruct t1|]. split; [|done].
    destruct Hp as [P1 P2 P3 P4 P5 P6]. split; try done. by rewrite E.
  - assert (ptr y <> 0) as Hy0. { destruct y; [done|]. destruct Hy as [? _]. cbn. auto with avl. }
    rewrite (proj2 (Z.eqb_neq _ _)) by done. cbn [negb].
    destruct (reparent_spec t1 y n i tmp Hy) as (h & E & Hr & Hoff); try (done || auto with avl).
    exists h. split; [done|]. split; [|done].
    destruct (pieces_off _ t1 (with_heap t1 h) _ _ _ _ Hp Hoff) as (O1 & O2 & O3 & O4 & O5 & _).
    destruct Hp as [P1 P2 P3 P4 P5 P6]. split; cbn [heap with_heap] in *.
    + naive_solver. + rewrite O2; naive_solver. + rewrite O3; naive_solver. + naive_solver. + naive_solver. + done.
Qed.

(** [tmp = *node; *node = *delete;] and the links into [node]. *)
Lemma move_node d : (b =? 1) = i -> heap t !! a = Some d -> exists t1,
  swap_in t a tmp d i = Some (n, t1) /\
  pieces t1 n a a n /\ avl_root t1 = ctx_root ctx n /\ avl_numnodes t1 = avl_numnodes t /\
  same_off (n :: ctx_addrs ctx) (<[tmp := node_of i (ptr y) 0 (pack (pparent ctx2 a) (pindex ctx2 i) nb)]> (heap t)) (heap t1).
Proof using All.
  intros Hi Hd. destruct swap_facts as (F1 & F2 & F3 & F4 & F5 & N1 & N2 & N3 & N4).
  destruct swap_nodes as (Ha & Hb & Hn & Hnb & HP & HPa & HPn & Hna & Hnn & Hc2 & Hy & HYr).
  rewrite Hna in Hd. injection Hd as <-. unfold swap_in. node_simpl.
  assert (a <> tmp) as Hat by congruence.
  assert (held t (mk_frame i a b Y :: ctx) X rc) as HhX by (by apply held_frame).
  pose proof (held_fuel _ _ _ _ HhX) as Hfuel.
  assert (ctx_root ctx2 n = ptr X) as Eroot by (unfold X; by rewrite ptr_plug, ptr_mkn).
  rewrite Eroot, (descend_spec t (negb i) X _ rc _ HhX); [|unfold X|lia].
  2:{ intros E. pose proof (elem_of_plug n ctx2 (mkn i n nb y Leaf)) as He. rewrite E, elem_of_flat_mkn in He. cbn in He.
      rewrite elem_of_nil in He. tauto. }
  rewrite negb_involutive. unfold X at 1. rewrite neighbor_first by done. cbn [mbind option_bind].
  unfold get. rewrite Hnn. cbn [mbind option_bind heap with_heap]. rewrite lookup_insert_ne by done. rewrite Hna.
  cbn [mbind option_bind]. set (h1 := <[tmp := _]> (heap t)).
  assert (h1 !! n = Some (node_of i (ptr y) 0 (pack (pparent ctx2 a) (pindex ctx2 i) nb))) as Hn1
    by (unfold h1; rewrite lookup_insert_ne by done; done).
  rewrite (put_some (with_heap t h1) n _ _ Hn1). cbn [mbind option_bind heap with_heap]. rewrite lookup_insert_eq. cbn [mbind option_bind].
  node_simpl. set (dn := fun c => node_of i c (ptr Y) (pack (cparent ctx) (cindex ctx rc) b)).
  assert ((if ctx_root ctx2 n =? n
           then put (with_heap (with_heap t h1) (<[n := dn (ctx_root ctx2 n)]> h1)) n (set_link i tmp)
           else Some (with_heap (with_heap t h1) (<[n := dn (ctx_root ctx2 n)]> h1))) =
          Some (with_heap t (<[n := dn (ctx_root ctx2 tmp)]> h1))) as Elink.
  { destruct (decide (ctx2 = [])) as [E|Hne].
    - rewrite E. cbn [ctx_root]. rewrite Z.eqb_refl. erewrite put_some by (cbn [heap with_heap]; apply lookup_insert_eq).
      unfold dn. node_simpl. cbn [heap with_heap]. by rewrite insert_insert_eq.
    - rewrite (ctx_root_hole ctx2 tmp n) by done. rewrite (proj2 (Z.eqb_neq _ _)); [done|].
      pose proof (ctx_root_in ctx2 n Hne) as Hin. intros E. rewrite E in Hin. naive_solver. }
  unfold dn in Elink. rewrite Elink. cbn [mbind option_bind heap with_heap]. rewrite lookup_insert_eq. cbn [mbind option_bind].
  node_simpl. set (h3 := <[n := node_of i (ctx_root ctx2 tmp) (ptr Y) (pack (cparent ctx) (cindex ctx rc) b)]> h1).
  assert (forall z, z <> n -> z <> tmp -> h3 !! z = heap t !! z) as H3.
  { intros z H1 H2. unfold h3, h1. by rewrite !lookup_insert_ne by done. }
  destruct (hang_spec (with_heap t h3) ctx a rc n) as (t1 & E1 & G1 & G2 & G3 & G4); cbn [heap with_heap avl_root].
  - eapply rep_ctx_frame; [pose proof (he_ctx _ _ _ _ Hh) as Hc; by rewrite ptr_mkn in Hc|].
    intros z Hz. apply H3; naive_solver.
  - done.
  - pose proof (he_root _ _ _ _ Hh) as Hr. by rewrite ptr_mkn in Hr.
  - exists t1. rewrite E1. cbn [mbind option_bind]. split; [done|]. split; [|split; [done|split; [done|]]].
    + destruct G4 as [_ G4]. cbn [heap with_heap] in G4. split.
      * done.
      * rewrite G4 by (intros ?; naive_solver). by unfold h3; rewrite lookup_insert_eq.
      * rewrite G4 by (intros ?; naive_solver). unfold h3, h1. by rewrite lookup_insert_ne, lookup_insert_eq.
      * eapply rep_pctx_frame; [done|]. intros z Hz. rewrite G4 by (intros ?; naive_solver). apply H3; naive_solver.
      * eapply rep_frame; [done|]. intros z Hz. rewrite G4 by (intros ?; naive_solver). apply H3; naive_solver.
      * eapply rep_frame; [done|]. intros z Hz. rewrite G4 by (intros ?; naive_solver). apply H3; naive_solver.
    + eapply same_off_trans; [|eapply same_off_weaken; [exact G4|intros z Hz; by right]].
      eapply same_off_insert; [exact Hn1|by left].
Qed.

(** The tree after the exchange. *)
Let T' := plug ctx (mkn i n b (plug ctx2 (mkn i tmp nb y Leaf)) Y).

Lemma pieces_tree t1 : pieces t1 tmp n n tmp -> avl_root t1 = ctx_root ctx n ->
  rep (heap t1) T' 0 rc /\ avl_root t1 = ptr T'.
Proof using All.
  intros [P1 P2 P3 P4 P5 P6] Hr. destruct swap_nodes as (Ha & Hb & Hn & Hnb & _). unfold T'. split.
  - apply rep_plug. rewrite ptr_mkn, rep_mkn, ptr_plug, ptr_mkn, rep_pplug, ptr_mkn, rep_mkn.
    repeat (split; [done|]). done.
  - by rewrite ptr_plug, ptr_mkn.
Qed.

Lemma swap_neighbor_spec d : (b =? 1) = i -> heap t !! a = Some d ->
  exists t', swap_neighbor t a tmp d = Some t' /\
    held t' (ctx2 ++ mk_frame i n b Y :: ctx) (mkn i tmp nb y Leaf) rc /\
    avl_numnodes t' = avl_numnodes t /\
    size (heap t') = S (size (heap t)) /\
    (forall z, z <> tmp -> (z ∉ flat (plug ctx (mkn i a b X Y))) -> heap t' !! z = heap t !! z).
Proof using All.
  intros Hi Hd. destruct swap_nodes as (Ha & Hb & Hn & Hnb & HP & HPa & HPn & Hna & _).
  destruct (move_node d Hi Hd) as (t1 & E1 & Q1 & R1 & M1 & S1).
  assert (avl_balance2child (AVL_XBALANCE d) = i) as Eleft.
  { rewrite Hna in Hd. injection Hd as <-. by node_simpl. }
  unfold swap_neighbor. rewrite Eleft, E1. cbn [mbind option_bind]. unfold get.
  rewrite (pc_n _ _ _ _ _ Q1). cbn [mbind option_bind]. node_simpl.
  destruct (move_ctx2 t1 Q1) as (h2 & -> & Q2 & S2). cbn [mbind option_bind].
  rewrite (pc_n _ _ _ _ _ Q2). cbn [mbind option_bind]. node_simpl.
  destruct (move_Y _ n n n Q2 Hn Ha) as (h3 & -> & Q3 & S3). cbn [mbind option_bind].
  rewrite (pc_tmp _ _ _ _ _ Q3). cbn [mbind option_bind]. node_simpl.
  destruct (rehole_ctx2 _ Q3) as (h4 & -> & Q4 & S4). cbn [mbind option_bind].
  rewrite (pc_tmp _ _ _ _ _ Q4). cbn [mbind option_bind].
  assert (forall w, avl_child (node_of i (ptr y) 0 w) (negb (avl_child1 (node_of i (ptr y) 0 w) =? 0)) = ptr y) as ->.
  { intros w. destruct i; cbn; [|done]. destruct (Z.eqb_spec (ptr y) 0); cbn; congruence. }
  destruct (move_y _ Q4) as (h5 & -> & Q5 & S5). eexists. split; [done|].
  destruct (pieces_tree _ Q5 R1) as [Hrep Hroot]. split; [|split; [done|]].
  - assert (T' = plug (ctx2 ++ mk_frame i n b Y :: ctx) (mkn i tmp nb y Leaf)) as ET by (by rewrite plug_app).
    rewrite ET in Hrep, Hroot. apply rep_plug in Hrep as [Hr1 Hr2]. rewrite ptr_plug in Hroot.
    split; [done|done|done|]. rewrite <-ET. pose proof swap_distinct as D. unfold T'.
    rewrite swap_perm. apply NoDup_cons in D as [D1 D]. apply NoDup_cons in D as [D2 D]. apply NoDup_cons in D as [D3 D].
    rewrite !not_elem_of_cons in D1. rewrite !not_elem_of_cons in D2.
    apply NoDup_cons. split; [rewrite not_elem_of_cons; tauto|]. apply NoDup_cons. split; [tauto|done].
  - set (R := ctx_addrs ctx ++ ctx_addrs ctx2 ++ flat Y ++ flat y).
    assert (same_off (tmp :: n :: R) (<[tmp := node_of i (ptr y) 0 (pack (pparent ctx2 a) (pindex ctx2 i) nb)]> (heap t)) h5)
      as [Hsz Hl].
    { eapply same_off_trans; [eapply same_off_weaken; [exact S1|]|].
      2: eapply same_off_trans; [eapply same_off_weaken; [exact S2|]|].
      3: eapply same_off_trans; [eapply same_off_weaken; [exact S3|]|].
      4: eapply same_off_trans; [eapply same_off_weaken; [exact S4|]|].
      5: eapply same_off_weaken; [exact S5|].
      all: intros z; unfold R; rewrite ?elem_of_cons, ?elem_of_app; tauto. }
    cbn [heap with_heap]. split; [by rewrite Hsz, map_size_insert_None|]. intros z Hz Hz2. unfold X in Hz2.
    rewrite swap_perm in Hz2. fold R in Hz2. rewrite Hl, lookup_insert_ne; [done|done|].
    rewrite !not_elem_of_cons in Hz2 |- *. tauto.
Qed.
End swap.

(** ** Removal *)

Lemma before_app c1 c2 : before (c1 ++ c2) = before c2 ++ before c1.
Proof. induction c1 as [|f c1 IH]; cbn [app before]; [by rewrite app_nil_r|]. by rewrite IH, app_assoc. Qed.
Lemma after_app c1 c2 : after (c1 ++ c2) = after c1 ++ after c2.
Proof. induction c1 as [|f c1 IH]; cbn [app after]; [done|]. by rewrite IH, app_assoc. Qed.

(** The sequence without [a], when its neighbour [n] takes its place. *)
Lemma swap_flat i a b n nb y Y ctx ctx2 l1 l2 :
  Forall (fun f => f_dir f = negb i) ctx2 -> NoDup (l1 ++ a :: l2) ->
  flat (plug ctx (mkn i a b (plug ctx2 (mkn i n nb y Leaf)) Y)) = l1 ++ a :: l2 ->
  before (ctx2 ++ mk_frame i n b Y :: ctx) ++ flat y ++ after (ctx2 ++ mk_frame i n b Y :: ctx) = l1 ++ l2.
Proof.
  intros Hd%side_nil Hnd E. rewrite before_app, after_app. cbn [before after f_dir f_addr f_other].
  rewrite flat_plug, flat_mkn, flat_plug, flat_mkn in E. destruct i; cbn [flat_mk flat app side negb] in *.
  - rewrite <-(rev_involutive (before ctx2)), Hd in E |- *. cbn [rev app] in *. rewrite app_nil_r.
    assert (l1 ++ a :: l2 = (before ctx ++ flat Y) ++ a :: (n :: flat y ++ after ctx2) ++ after ctx) as E'.
    { rewrite <-E. rewrite <-!app_assoc. cbn [app]. by rewrite <-!app_assoc. }
    destruct (sequence_split _ _ _ _ _ Hnd E') as [-> ->]. rewrite <-!app_assoc. cbn [app]. by rewrite <-!app_assoc.
  - rewrite Hd in *. cbn [app] in *. rewrite !app_nil_r in *.
    assert (l1 ++ a :: l2 = (before ctx ++ before ctx2 ++ flat y ++ [n]) ++ a :: flat Y ++ after ctx) as E'.
    { rewrite <-E. rewrite <-!app_assoc. cbn [app]. done. }
    destruct (sequence_split _ _ _ _ _ Hnd E') as [-> ->]. rewrite <-!app_assoc. cbn [app]. done.
Qed.

Lemma unlink_tree t ctx rc i a b s l1 l2 :
  held t ctx (mkn i a b s Leaf) rc -> balanced (plug ctx (mkn i a b s Leaf)) ->
  flat (plug ctx (mkn i a b s Leaf)) = l1 ++ a :: l2 -> avl_numnodes t = Z.of_nat (length (l1 ++ a :: l2)) ->
  exists t', unlink t a = Some t' /\ is_tree t' (del_fix ctx s) /\ flat (del_fix ctx s) = l1 ++ l2 /\
    flat (del_fix ctx s) = before ctx ++ flat s ++ after ctx /\ same_off (flat (plug ctx s)) (heap t) (heap t').
Proof.
  intros Hh Hb Hf Hn. pose proof (he_nodup _ _ _ _ Hh) as Hnd.
  destruct (unlink_spec t ctx rc i a b s Hh) as (t' & E & U1 & U2 & U3 & U4 & U5 & U6); [|done|].
  { rewrite Hn, length_app. cbn [length]. lia. }
  assert (flat (del_fix ctx s) = l1 ++ l2) as Hfl.
  { rewrite U5. rewrite Hf in Hnd. rewrite flat_plug, flat_mkn in Hf. destruct i; cbn [flat_mk flat app] in Hf.
    - destruct (sequence_split l1 l2 (before ctx) (flat s ++ after ctx) a Hnd (eq_sym Hf)) as [-> ->]. done.
    - rewrite <-app_assoc, app_assoc in Hf.
      destruct (sequence_split l1 l2 (before ctx ++ flat s) (after ctx) a Hnd (eq_sym Hf)) as [-> ->].
      by rewrite <-app_assoc. }
  exists t'. split; [done|]. split; [|done]. split; [done|by exists rc| | |done].
  - rewrite Hfl. rewrite Hf in Hnd. apply NoDup_app in Hnd as (N1 & N2 & [N3 N4]%NoDup_cons). apply NoDup_app.
    split; [done|]. split; [|done]. intros z Hz Hz2. eapply N2; [exact Hz|]. by right.
  - rewrite U3, Hn, Hfl, !length_app. cbn [length]. lia.
Qed.

Lemma hole_split i a b y ctx :
  exists k1 k2, flat (plug ctx (mkn i a b y Leaf)) = k1 ++ a :: k2.
Proof.
  rewrite flat_plug, flat_mkn. destruct i; cbn [flat_mk flat app]; [by eexists _, _|].
  eexists (before ctx ++ flat y), _. by rewrite <-!app_assoc.
Qed.

(** Balance does not depend on the addresses. *)
Lemma balanced_rename i ctx a1 a2 b n1 n2 nb y Y ctx2 :
  balanced (plug ctx (mkn i a1 b (plug ctx2 (mkn i n1 nb y Leaf)) Y)) ->
  balanced (plug ctx (mkn i a2 b (plug ctx2 (mkn i n2 nb y Leaf)) Y)).
Proof.
  assert (height (plug ctx2 (mkn i n1 nb y Leaf)) = height (plug ctx2 (mkn i n2 nb y Leaf))) as E.
  { assert (height (mkn i n1 nb y Leaf) = height (mkn i n2 nb y Leaf)) as E by (by rewrite !height_mkn).
    revert E. generalize (mkn i n1 nb y Leaf) (mkn i n2 nb y Leaf).
    induction ctx2 as [|f c IH]; intros s1 s2 E; [done|]. cbn [plug]. apply IH. by rewrite !height_mkn, E. }
  rewrite !balanced_plug, !balanced_mkn, !height_mkn, !balanced_plug, !balanced_mkn, E, !height_mkn. tauto.
Qed.

Lemma avl_remove_spec t T l1 a l2 tmp :
  is_tree t T -> flat T = l1 ++ a :: l2 -> is_ptr tmp -> heap t !! tmp = None ->
  exists t' T', avl_remove tmp t a = Some t' /\ is_tree t' T' /\ flat T' = l1 ++ l2 /\
    same_off (flat T) (heap t) (heap t').
Proof.
  intros Ht Hf Htmp Hfresh. destruct (is_tree_held t T Ht) as [rc Hh].
  destruct (locate t T [] rc a Hh) as (ctx & l & b & r & Hh' & Hp).
  { rewrite Hf, elem_of_app, elem_of_cons. tauto. }
  cbn [plug] in Hp. subst T. clear Hh. pose proof (it_nodup _ _ Ht) as Hnd.
  pose proof (it_balanced _ _ Ht) as Hbal. pose proof (it_num _ _ Ht) as Hnum. rewrite Hf in Hnum.
  pose proof (he_rep _ _ _ _ Hh') as (Ha & Hb & Hn & Hl & Hr).
  unfold avl_remove, get. rewrite Hn. cbn [mbind option_bind avl_child0 avl_child1].
  assert (forall p c x, rep (heap t) x p c -> (ptr x =? 0) = match x with Leaf => true | _ => false end) as Hz.
  { intros p c [|xl xa xb xr]; [done|]. intros [? _]. cbn. apply Z.eqb_neq. auto with avl. }
  rewrite (Hz _ _ l Hl), (Hz _ _ r Hr).
  assert ((exists i s, Node l a b r = mkn i a b s Leaf /\
      negb match l with Leaf => true | _ => false end && negb match r with Leaf => true | _ => false end = false) \/
    (l <> Leaf /\ r <> Leaf /\
      negb match l with Leaf => true | _ => false end && negb match r with Leaf => true | _ => false end = true))
    as [(i & s & E & ->)|(Hln & Hrn & ->)].
  { destruct r as [|? ? ? ?]; [left; exists false, l; by destruct l|].
    destruct l as [|? ? ? ?]; [left; by eexists true, _|by right]. }
  - rewrite E in *. destruct (unlink_tree t ctx rc i a b s l1 l2) as (t' & -> & U1 & U2 & U3 & U4); try done.
    exists t', (del_fix ctx s). split; [done|]. split; [done|]. split; [done|].
    eapply same_off_weaken; [done|]. intros z. rewrite !elem_of_plug, elem_of_flat_mkn. tauto.
  - rewrite (node_mkn (b =? 1)) in *. revert Hh' Ht Hf Hnd Hbal. set (i := b =? 1).
    assert (at_ (negb i) l r <> Leaf) as HYn by (by destruct i).
    assert (at_ i l r <> Leaf) as HXn by (by destruct i). revert HYn HXn.
    generalize (at_ i l r) (at_ (negb i) l r). intros X Y HYn HXn Hh' Ht Hf Hnd Hbal.
    destruct (neighbor_split i X HXn) as (ctx2 & n & nb & y & -> & Hdir).
    destruct (swap_neighbor_spec t ctx rc i a b Y ctx2 n nb y tmp Hh' HYn Hdir Htmp Hfresh _ eq_refl Hn)
      as (t1 & -> & Hh1 & Hn1 & Hs1 & Ho1). cbn [mbind option_bind].
    set (ctx' := ctx2 ++ mk_frame i n b Y :: ctx) in *.
    assert (plug ctx' (mkn i tmp nb y Leaf) = plug ctx (mkn i n b (plug ctx2 (mkn i tmp nb y Leaf)) Y)) as EP
      by (unfold ctx'; by rewrite plug_app).
    destruct (hole_split i tmp nb y ctx') as (k1 & k2 & Ek).
    destruct (unlink_tree t1 ctx' rc i tmp nb y k1 k2) as (t2 & -> & U1 & U2 & U3 & U4); try done.
    { rewrite EP. by eapply balanced_rename. }
    { rewrite Hn1, Hnum, <-Ek, EP, <-Hf. by rewrite !swap_perm. }
    cbn [mbind option_bind].
    assert (tmp ∉ flat (del_fix ctx' y)) as Hfr.
    { rewrite U2. pose proof (he_nodup _ _ _ _ Hh1) as Hnd1. rewrite Ek in Hnd1.
      apply NoDup_app in Hnd1 as (_ & N2 & [N3 _]%NoDup_cons). rewrite elem_of_app. intros [H1|H1]; [|done].
      eapply N2; [exact H1|by left]. }
    eexists _, (del_fix ctx' y). split; [done|]. split; [|split].
    + destruct U1 as [V1 [rc' V2] V3 V4 V5]. split; try done. exists rc'. cbn [heap with_heap].
      eapply rep_frame; [exact V2|]. intros z Hzz. apply lookup_delete_ne. by intros ->.
    + rewrite U3. apply (swap_flat i a b n nb y Y); [done|by rewrite <-Hf|done].
    + cbn [heap with_heap]. destruct U4 as [V1 V2]. rewrite flat_plug, <-U3 in V2.
      assert (heap t2 !! tmp = heap t1 !! tmp) as Et by (by apply V2).
      pose proof (rep_all _ _ _ _ tmp (proj1 (held_plug _ _ _ _ Hh1))) as Hin.
      destruct Hin as [nt Hnt]; [rewrite Ek, elem_of_app, elem_of_cons; tauto|].
      split; [rewrite map_size_delete_Some by (rewrite Et; eauto); lia|].
      intros z Hzz. destruct (decide (z = tmp)) as [->|Hzt]; [by rewrite lookup_delete_eq|].
      rewrite lookup_delete_ne, V2, Ho1; [done|done|done| |done].
      intros Hin. apply Hzz. rewrite Hf. rewrite U3 in Hin. unfold ctx' in Hin.
      rewrite (swap_flat i a b n nb y Y ctx ctx2 l1 l2) in Hin; [|done|by rewrite <-Hf|done].
      rewrite elem_of_app in *. rewrite elem_of_cons. tauto.
Qed.
