(* ===== verification/AvlDestroy.v ===== *)
(** * AVL trees: inserting next to a node, and destruction

    [avl_insert_here] puts a node directly after or before another one, and
    the loop over [avl_destroy_nodes] returns every node once, children before
    parents, without touching a node it returned before: the caller may free
    each node it gets. *)
From Stdlib Require Import ZArith Lia.
From stdpp Require Import base numbers list option gmap.
From S2P Require Import Prelude Avl AvlTree AvlProof AvlOps AvlRemove.

(** ** [avl_insert_here] *)

Lemma held_refocus t ctx s rc ctx' s' :
  held t ctx s rc -> plug ctx s = plug ctx' s' -> held t ctx' s' rc.
Proof.
  intros Hh E. pose proof (he_nodup _ _ _ _ Hh) as Hnd. apply held_plug in Hh as [H1 H2]. rewrite E in *.
  apply rep_plug in H1 as [H1 H3]. rewrite ptr_plug in H2. by split.
Qed.

(** The hole next to a node on side [d]. *)
Lemma hole_next t ctx l a b r rc d :
  held t ctx (Node l a b r) rc ->
  exists ctx', plug ctx' Leaf = plug ctx (Node l a b r) /\ held t ctx' Leaf rc /\
    (forall new, avl_insert_here t new a d = avl_insert t new (hole_index ctx')) /\
    before ctx' = (before ctx ++ flat l) ++ (if d then [a] else []) /\
    after ctx' = (if d then [] else [a]) ++ flat r ++ after ctx.
Proof.
  intros Hh. pose proof Hh as Hh0. rewrite (node_mkn d) in Hh. set (o := at_ (negb d) l r) in *.
  pose proof (he_rep _ _ _ _ Hh) as Hrep. apply rep_mkn in Hrep as (Ha & Hb & Hn & HX & Ho).
  destruct (at_ d l r) as [|xl xa xb xr] eqn:EX.
  - exists (mk_frame d a b o :: ctx). assert (held t (mk_frame d a b o :: ctx) Leaf rc) as Hh' by (by apply held_frame).
    split; [by cbn; rewrite (node_mkn d), EX|]. split; [done|]. split; [|destruct d; cbn in EX, o |- *; subst; cbn; split].
    + intros new. unfold avl_insert_here, get. rewrite Hn. cbn [mbind option_bind]. node_simpl. cbn [ptr Z.eqb negb mbind option_bind].
      rewrite Hn. cbn [mbind option_bind]. node_simpl. done.
    + by rewrite <-!app_assoc.
    + done.
    + by rewrite !app_nil_r.
    + done.
  - rewrite <-EX in *. assert (at_ d l r <> Leaf) as HXn by (by rewrite EX).
    assert (ptr (at_ d l r) <> 0) as Hp0 by (rewrite EX in *; destruct HX as [? _]; cbn; auto with avl).
    destruct (neighbor_split d (at_ d l r) HXn) as (ctx2 & n & nb & y & E & Hdir).
    set (f := mk_frame d a b o). set (ctx' := mk_frame (negb d) n nb y :: ctx2 ++ f :: ctx).
    assert (plug ctx' Leaf = plug ctx (Node l a b r)) as EP.
    { unfold ctx', f. cbn [plug f_dir f_addr f_bal f_other]. rewrite mkn_negb, plug_app. cbn [plug f_dir f_addr f_bal f_other].
      by rewrite <-E, <-node_mkn. }
    assert (held t ctx' Leaf rc) as Hh' by (by eapply held_refocus).
    assert (held t (f :: ctx) (at_ d l r) rc) as HhX by (by apply held_frame).
    exists ctx'. split; [done|]. split; [done|]. split; [|].
    + intros new. unfold avl_insert_here, get. rewrite Hn. cbn [mbind option_bind]. node_simpl.
      rewrite (proj2 (Z.eqb_neq _ _)) by done. cbn [negb].
      rewrite (descend_spec t (negb d) _ _ _ _ HhX) by (done || pose proof (held_fuel _ _ _ _ HhX); lia).
      rewrite negb_involutive, E, neighbor_first by done. cbn [mbind option_bind].
      pose proof (he_ctx _ _ _ _ Hh') as (Hn1 & Hn2 & Hn3 & _). cbn [f_addr f_bal f_dir f_other ctx'] in Hn1, Hn2, Hn3.
      rewrite Hn3. cbn [mbind option_bind]. node_simpl. cbn [ptr Z.eqb]. done.
    + pose proof (he_nodup _ _ _ _ Hh') as Hnd. rewrite EP, flat_plug in Hnd.
      unfold ctx', f. cbn [before after f_dir f_addr f_other]. rewrite before_app, after_app.
      cbn [before after f_dir f_addr f_other]. pose proof (side_nil _ _ Hdir) as Hs.
      pose proof (f_equal flat E) as Ef. rewrite flat_plug, flat_mkn in Ef.
      destruct d; cbn [at_ negb side flat_mk flat app o] in *.
      * rewrite <-(rev_involutive (before ctx2)), Hs in Ef |- *. cbn [rev app] in *. rewrite Ef, !app_nil_r.
        split; [by rewrite <-!app_assoc|]. cbn [app]. by rewrite <-!app_assoc.
      * rewrite Hs in *. rewrite Ef. cbn [app] in *. rewrite !app_nil_r. split; [|done].
        by rewrite <-!app_assoc.
Qed.

Lemma avl_insert_here_spec t T l1 here l2 a n d :
  is_tree t T -> flat T = l1 ++ here :: l2 ->
  is_ptr a -> heap t !! a = Some n -> (a ∉ flat T) ->
  Z.of_nat (S (length (flat T))) < 2 ^ 64 ->
  exists t' T', avl_insert_here t a here d = Some t' /\ is_tree t' T' /\
    flat T' = l1 ++ (if d then [here; a] else [a; here]) ++ l2 /\ same_off (a :: flat T) (heap t) (heap t').
Proof.
  intros Ht Hf Ha Hn Hfr Hnum. destruct (is_tree_held t T Ht) as [rc Hh].
  destruct (locate t T [] rc here Hh) as (ctx & l & b & r & Hh' & Hp).
  { rewrite Hf, elem_of_app, elem_of_cons. tauto. }
  cbn [plug] in Hp. destruct (hole_next t ctx l here b r rc d Hh') as (ctx' & EP & Hh2 & -> & Eb & Ea).
  rewrite Hp in EP. destruct (avl_insert_spec t T ctx' rc a n Ht (eq_sym EP) Hh2 Ha Hn Hfr Hnum)
    as (t' & T' & -> & Ht' & Hf' & Hoff).
  exists t', T'. split; [done|]. split; [done|]. split; [|done].
  pose proof (it_nodup _ _ Ht) as Hnd. rewrite Hf in Hnd.
  assert (l1 ++ here :: l2 = (before ctx ++ flat l) ++ here :: (flat r ++ after ctx)) as E.
  { rewrite <-Hf, <-Hp, flat_plug. cbn [flat]. by rewrite <-!app_assoc. }
  destruct (sequence_split _ _ _ _ _ Hnd E) as [-> ->]. rewrite Hf', Eb, Ea.
  destruct d; rewrite <-?app_assoc; cbn [app]; by rewrite ?app_nil_r, <-?app_assoc.
Qed.

(** ** [avl_destroy_nodes] *)

(** The order of destruction. *)
Fixpoint post (t : tree) : list Z :=
  match t with Leaf => [] | Node l a _ r => post l ++ post r ++ [a] end.

(** What is left around a node that is being destroyed: subtrees to the left
    are gone, subtrees to the right are complete. *)
Definition half_gone (f : frame) : Prop := if f_dir f then f_other f = Leaf else balanced (f_other f).
Fixpoint rest (ctx : list frame) : list Z :=
  match ctx with [] => [] | f :: ctx => (if f_dir f then [] else post (f_other f)) ++ f_addr f :: rest ctx end.

Definition cookie_of (ctx : list frame) : Z :=
  match ctx with [] => CHILDBIT | f :: _ => Z.lor (f_addr f) (Z.b2z (f_dir f)) end.

Lemma rest_app c1 c2 : rest (c1 ++ c2) = rest c1 ++ rest c2.
Proof. induction c1 as [|f c1 IH]; [done|]. cbn [app rest]. by rewrite IH, <-app_assoc. Qed.

Lemma post_plug ctx : forall s, Forall (fun f => f_dir f = false) ctx -> post (plug ctx s) = post s ++ rest ctx.
Proof.
  induction ctx as [|f ctx IH]; intros s Hd; cbn [plug rest]; [by rewrite app_nil_r|].
  apply Forall_cons in Hd as [Hf Hd]. rewrite IH by done. rewrite Hf. cbn [mkn post]. by rewrite <-!app_assoc.
Qed.

Lemma post_flat t : post t ≡ₚ flat t.
Proof. induction t as [|l IHl a b r IHr]; [done|]. cbn. rewrite IHl, IHr. by rewrite (Permutation_app_comm (flat r)). Qed.

(** The tree while the leaf [n] has been returned and freed. *)
Record destroying (t : avl_tree) (ctx : list frame) (n : Z) : Prop := {
  ds_ctx : exists rc, rep_ctx (heap t) ctx n rc;
  ds_root : avl_root t = ctx_root ctx n;
  ds_num : avl_numnodes t = Z.of_nat (S (length (rest ctx)));
  ds_nodup : NoDup (ctx_addrs ctx);
  ds_gone : Forall half_gone ctx;
  ds_ptr : is_ptr n
}.

Lemma destroy_done_spec t ctx m mb rc :
  held t ctx (Node Leaf m mb Leaf) rc -> destroy_done t m (cparent ctx) = Some (t, m, cookie_of ctx).
Proof.
  intros Hh. pose proof (he_rep _ _ _ _ Hh) as (Hm & Hb & Hn & _). pose proof (he_ctx _ _ _ _ Hh) as Hc.
  pose proof (he_root _ _ _ _ Hh) as Hr. unfold destroy_done. destruct ctx as [|f ctx]; cbn [cparent cindex cookie_of] in *.
  - rewrite Z.eqb_refl. cbn in Hr. by rewrite Hr, Z.eqb_refl.
  - destruct Hc as (Hf & _). rewrite (proj2 (Z.eqb_neq _ _)) by auto with avl. unfold get. rewrite Hn. cbn [mbind option_bind].
    change (mk_node (ptr Leaf) (ptr Leaf)) with (node_of false 0 0). by node_simpl.
Qed.

(** From [check_right_side] on, at a node without a left subtree. *)
Lemma settle t ctx n nb r rc :
  held t ctx (Node Leaf n nb r) rc -> balanced (Node Leaf n nb r) -> Forall half_gone ctx ->
  exists ctx' m mb,
    (let* (node, parent) := check_right_side t n (cparent ctx) in destroy_done t node parent) =
      Some (t, m, cookie_of ctx') /\
    held t ctx' (Node Leaf m mb Leaf) rc /\ Forall half_gone ctx' /\
    m :: rest ctx' = post (Node Leaf n nb r) ++ rest ctx.
Proof.
  intros Hh (Hb & Hb1 & _ & Hbr) Hg. pose proof (he_rep _ _ _ _ Hh) as (Hn & Hbal & Hnn & _ & Hr).
  unfold check_right_side, get. rewrite Hnn. cbn [mbind option_bind avl_child1].
  assert (AVL_XBALANCE (mk_node (ptr Leaf) (ptr r) (pack (cparent ctx) (cindex ctx rc) nb)) = nb) as ->.
  { change (mk_node (ptr Leaf)) with (node_of false 0). pose proof (rep_ctx_ptr0 _ _ _ _ (he_ctx _ _ _ _ Hh)). by node_simpl. }
  cbn [height] in Hb. destruct r as [|rl c cb rr].
  - cbn [ptr Z.eqb negb]. cbn [height] in Hb. rewrite (proj2 (Z.leb_le _ _)) by lia. cbn [mbind option_bind].
    exists ctx, n, nb. by rewrite (destroy_done_spec t ctx n nb rc).
  - destruct Hbr as (Hcb & Hcb1 & Hbl & Hbr). pose proof (height_nonneg rl). pose proof (height_nonneg rr).
    cbn [height] in Hb. assert (height rl = 0 /\ height rr = 0 /\ nb = 1) as (Hl0 & Hr0 & ->) by lia.
    assert (rl = Leaf) as -> by (destruct rl; [done|]; cbn in Hl0; pose proof (height_nonneg rl1); pose proof (height_nonneg rl2); lia).
    assert (rr = Leaf) as -> by (destruct rr; [done|]; cbn in Hr0; pose proof (height_nonneg rr1); pose proof (height_nonneg rr2); lia).
    pose proof Hr as (Hc & _ & Hcn & _). cbn [ptr]. rewrite (proj2 (Z.eqb_neq _ _)) by auto with avl. cbn [negb Z.eqb].
    rewrite Hcn. cbn [mbind option_bind avl_child0 avl_child1 ptr Z.eqb andb]. rewrite Pos.eqb_refl. cbn [mbind option_bind].
    assert (held t (mk_frame true n 1 Leaf :: ctx) (Node Leaf c cb Leaf) rc) as Hh' by (by apply held_frame).
    exists (mk_frame true n 1 Leaf :: ctx), c, cb.
    pose proof (destroy_done_spec _ _ _ _ _ Hh') as Hdd. cbn [cparent f_addr] in Hdd. rewrite Hdd.
    split; [done|]. split; [done|]. split; [by constructor|]. done.
Qed.

(** Freeing the node just returned. *)
Lemma destroying_free t ctx m mb rc :
  held t ctx (Node Leaf m mb Leaf) rc -> Forall half_gone ctx ->
  avl_numnodes t = Z.of_nat (S (length (rest ctx))) ->
  destroying (with_heap t (delete m (heap t))) ctx m.
Proof.
  intros [H1 H2 H3 H4] Hg Hn. destruct H1 as (Hm & _). cbn [ptr] in *.
  apply NoDup_plug in H4 as (_ & Nc & Nd). cbn [flat app] in Nd. split; try done. exists rc. cbn [heap with_heap].
  eapply rep_ctx_frame; [done|]. intros z Hz. apply lookup_delete_ne. intros <-. eapply Nd; [|done]. by left.
Qed.

Lemma descend_left_spec t R : forall ctx rc k,
  held t ctx R rc -> R <> Leaf -> (length (flat R) <= k)%nat ->
  exists ctx2 n nb r, descend_left k t (ptr R) (cparent ctx) = Some (n, cparent (ctx2 ++ ctx)) /\
    R = plug ctx2 (Node Leaf n nb r) /\ Forall (fun f => f_dir f = false) ctx2.
Proof.
  induction R as [|l IHl a b r _]; intros ctx rc k Hh Hne Hk; [done|]. clear Hne.
  cbn [flat] in Hk. rewrite length_app in Hk. cbn [length] in Hk. destruct k as [|k]; [lia|]. cbn [descend_left ptr].
  pose proof (he_rep _ _ _ _ Hh) as (Ha & _ & Hn & Hl & _). unfold get. rewrite Hn. cbn [mbind option_bind avl_child0].
  destruct l as [|ll la lb lr].
  - cbn [ptr Z.eqb]. by exists [], a, b, r.
  - pose proof Hl as (Hla & _). cbn [ptr]. rewrite (proj2 (Z.eqb_neq _ _)) by auto with avl.
    destruct (IHl (mk_frame false a b r :: ctx) rc k) as (ctx2 & n & nb & r' & E & Ep & Hd); [by apply held_frame|done|lia|].
    exists (ctx2 ++ [mk_frame false a b r]), n, nb, r'. split; [cbn [cparent f_addr ptr] in E; by rewrite E, <-app_assoc|].
    split; [by rewrite plug_app, <-Ep|]. apply Forall_app. split; [done|]. by constructor.
Qed.

(** The frames around the leftmost node of a complete subtree. *)
Lemma half_gone_left ctx s :
  Forall (fun f => f_dir f = false) ctx -> balanced (plug ctx s) -> Forall half_gone ctx /\ balanced s.
Proof.
  revert s. induction ctx as [|f ctx IH]; intros s Hd Hb; [by split|]. apply Forall_cons in Hd as [Hf Hd].
  cbn [plug] in Hb. destruct (IH _ Hd Hb) as [Hg Hs]. apply balanced_mkn in Hs as (_ & _ & Hs & Ho).
  split; [|done]. constructor; [|done]. unfold half_gone. by rewrite Hf.
Qed.

(** The first call. *)
Lemma destroy_first t T : is_tree t T -> T <> Leaf ->
  exists ctx m mb rc, avl_destroy_nodes t 0 = Some (t, m, cookie_of ctx) /\
    held t ctx (Node Leaf m mb Leaf) rc /\ Forall half_gone ctx /\ m :: rest ctx = post T.
Proof.
  intros Ht HT. destruct (is_tree_held t T Ht) as [rc Hh].
  unfold avl_destroy_nodes. cbn [Z.eqb]. rewrite (proj1 (avl_first_spec t T Ht)). cbn [mbind option_bind].
  destruct (neighbor_split true T HT) as (ctx2 & n & nb & y & -> & Hdir). cbn [negb] in Hdir. cbn [mkn] in *.
  rewrite (neighbor_first true ctx2 n nb y Hdir : hd 0 (flat (plug ctx2 (Node Leaf n nb y))) = n).
  assert (held t ctx2 (Node Leaf n nb y) rc) as Hh2 by (by eapply held_refocus).
  pose proof (he_rep _ _ _ _ Hh2) as (Hn & Hb & Hnn & _). rewrite (proj2 (Z.eqb_neq _ _)) by auto with avl.
  unfold get. rewrite Hnn. cbn [mbind option_bind].
  change (mk_node (ptr Leaf) (ptr y)) with (node_of false 0 (ptr y)).
  pose proof (rep_ctx_ptr0 _ _ _ _ (he_ctx _ _ _ _ Hh2)) as HP. node_simpl.
  destruct (half_gone_left ctx2 _ Hdir (it_balanced _ _ Ht)) as [Hg Hbs].
  destruct (settle t ctx2 n nb y rc Hh2 Hbs Hg) as (ctx' & m & mb & E & H1 & H2 & H3).
  exists ctx', m, mb, rc. split; [done|]. split; [done|]. split; [done|]. by rewrite post_plug.
Qed.

(** The last call: the root has been returned and freed. *)
Lemma destroy_last t n : destroying t [] n ->
  avl_destroy_nodes t (cookie_of []) = Some (mk_avl 0 0 (heap t), 0, cookie_of []).
Proof.
  intros [_ Hr Hn _ _ Hp]. unfold avl_destroy_nodes, cookie_of. cbn [ctx_root rest length] in *.
  change (CHILDBIT =? 0) with false. change (Z.land CHILDBIT (2 ^ 64 - 1 - CHILDBIT) =? 0) with true. cbn match.
  rewrite Hr, (proj2 (Z.eqb_neq _ _)) by auto with avl. cbn [negb]. by rewrite Hn.
Qed.

Lemma cookie_decode f ctx : is_ptr (f_addr f) ->
  (cookie_of (f :: ctx) =? 0) = false /\
  Z.land (cookie_of (f :: ctx)) (2 ^ 64 - 1 - CHILDBIT) = f_addr f /\
  negb (Z.land (cookie_of (f :: ctx)) CHILDBIT =? 0) = f_dir f.
Proof.
  intros Hf. cbn [cookie_of]. pose proof (index_node (f_addr f) (f_dir f)) as H1.
  pose proof (index_child (f_addr f) (f_dir f)) as H2. unfold AVL_INDEX2NODE, AVL_INDEX2CHILD, AVL_MKINDEX in *.
  assert (Z.land (Z.lor (f_addr f) (Z.b2z (f_dir f))) (2 ^ 64 - 1 - CHILDBIT) = f_addr f) as E by (apply H1; auto with avl).
  split; [|split; [done|apply H2; auto with avl]].
  apply Z.eqb_neq. intros E0. rewrite E0, Z.land_0_l in E. pose proof (is_ptr_nonzero _ Hf). congruence.
Qed.

(** The calls in between. *)
Lemma destroy_next t f ctx n : destroying t (f :: ctx) n ->
  exists t' ctx' m mb rc, avl_destroy_nodes t (cookie_of (f :: ctx)) = Some (t', m, cookie_of ctx') /\
    held t' ctx' (Node Leaf m mb Leaf) rc /\ Forall half_gone ctx' /\ m :: rest ctx' = rest (f :: ctx) /\
    avl_numnodes t' = avl_numnodes t - 1 /\ same_off (ctx_addrs (f :: ctx)) (heap t) (heap t').
Proof.
  intros [[rc Hc] Hr Hnum Hnd Hg Hp]. pose proof Hc as (Hf & Hfb & Hfn & Ho & Hc').
  apply Forall_cons in Hg as [Hgf Hg]. destruct (cookie_decode f ctx Hf) as (E0 & E1 & E2).
  unfold avl_destroy_nodes. rewrite E0, E1, (proj2 (Z.eqb_neq _ _)), E2 by auto with avl.
  rewrite (put_some _ _ _ _ Hfn). node_simpl. cbn [mbind option_bind avl_numnodes with_heap].
  pose proof Hnum as Hnum'. cbn [rest] in Hnum'. rewrite length_app in Hnum'. cbn [length] in Hnum'.
  rewrite (proj2 (Z.ltb_lt _ _)) by lia. unfold get. cbn [heap with_heap with_num]. rewrite lookup_insert_eq. cbn [mbind option_bind].
  set (fn := node_of (f_dir f) 0 (ptr (f_other f)) (pack (cparent ctx) (cindex ctx rc) (f_bal f))).
  set (h1 := <[f_addr f := fn]> (heap t)). set (t1 := with_num (with_heap t h1) (avl_numnodes t - 1)).
  pose proof (rep_ctx_ptr0 _ _ _ _ Hc') as HP.
  assert (same_off (ctx_addrs (f :: ctx)) (heap t) h1) as Hoff
    by (eapply same_off_insert; [done|]; apply elem_of_ctx_cons; by left).
  pose proof Hnd as Hnd'. apply NoDup_ctx_cons in Hnd' as (N1 & N2 & N3 & N4 & N5).
  assert (held t1 ctx (mkn (f_dir f) (f_addr f) (f_bal f) Leaf (f_other f)) rc) as Hh1.
  { split; cbn [heap t1 with_num with_heap avl_root].
    - apply rep_mkn. split; [done|]. split; [done|]. split; [by unfold h1; rewrite lookup_insert_eq|]. split; [done|].
      eapply rep_frame; [done|]. intros z Hz. apply lookup_insert_ne. by intros <-.
    - rewrite ptr_mkn. eapply rep_ctx_frame; [done|]. intros z Hz. apply lookup_insert_ne. by intros <-.
    - by rewrite ptr_mkn.
    - pose proof (NoDup_plug (f :: ctx) Leaf) as [_ H]. cbn [plug flat] in H. apply H.
      split; [constructor|]. split; [done|]. intros z Hz. by apply elem_of_nil in Hz. }
  unfold half_gone in Hgf. assert (f_other f = Leaf \/ (f_dir f = false /\ f_other f <> Leaf)) as [Hl|[Hdf Hl]].
  { destruct (f_dir f); [by left|]. destruct (f_other f); [by left|by right]. }
  - (* up to the parent *)
    assert (f_dir f || (avl_child1 fn =? 0) = true) as ->.
    { unfold fn. rewrite Hl. by destruct (f_dir f). }
    unfold fn. node_simpl. rewrite Hl in Hh1. assert (mkn (f_dir f) (f_addr f) (f_bal f) Leaf Leaf = Node Leaf (f_addr f) (f_bal f) Leaf)
      as EN by (by destruct (f_dir f)). rewrite EN in Hh1.
    exists t1, ctx, (f_addr f), (f_bal f), rc. rewrite (destroy_done_spec t1 ctx (f_addr f) (f_bal f) rc Hh1).
    split; [done|]. split; [done|]. split; [done|]. split; [|done]. cbn [rest]. rewrite Hl. by destruct (f_dir f).
  - (* down into the right subtree *)
    rewrite Hdf in *. cbn [mkn] in Hh1.
    set (f' := mk_frame true (f_addr f) (f_bal f) Leaf).
    assert (held t1 (f' :: ctx) (f_other f) rc) as Hh2 by (by apply held_frame).
    assert (avl_child1 fn = ptr (f_other f)) as Ec by (unfold fn; by rewrite Hdf).
    assert (ptr (f_other f) <> 0) as Hne.
    { destruct (f_other f); [done|]. destruct Ho as [? _]. cbn. auto with avl. }
    rewrite Ec, (proj2 (Z.eqb_neq _ _)) by done. cbn [orb].
    pose proof (held_fuel _ _ _ _ Hh2) as Hfu.
    destruct (descend_left_spec t1 (f_other f) (f' :: ctx) rc (fuel t1) Hh2 Hl) as (ctx2 & m & mb & r & Ed & EpR & Hd);
      [lia|]. cbn [cparent f' f_addr] in Ed.
    replace (descend_left (fuel _) _ _ _) with (Some (m, cparent (ctx2 ++ f' :: ctx))) by (symmetry; exact Ed).
    cbn [mbind option_bind]. rewrite EpR in Hgf. destruct (half_gone_left _ _ Hd Hgf) as [Hg2 Hbm].
    assert (held t1 (ctx2 ++ f' :: ctx) (Node Leaf m mb r) rc) as Hh3.
    { eapply held_refocus; [exact Hh2|]. by rewrite plug_app, <-EpR. }
    destruct (settle t1 (ctx2 ++ f' :: ctx) m mb r rc Hh3 Hbm) as (ctx' & m' & mb' & E & S1 & S2 & S3).
    { apply Forall_app. split; [done|]. by constructor. }
    exists t1, ctx', m', mb', rc. split; [exact E|]. split; [done|]. split; [done|]. split; [|done].
    rewrite S3, rest_app. cbn [rest f' f_dir f_addr]. rewrite Hdf, EpR, post_plug by done. by rewrite <-!app_assoc.
Qed.
