(* ===== verification/AvlSpec.v ===== *)
(** * AVL trees: the interface and what it promises

    [AvlIface] is the interface of [sys/avl.h] as its clients use it, together
    with the allocation of the objects the nodes are embedded in; [AvlLaws]
    states its contract in terms of the in-order sequence of the objects.  The
    code of [avl.c] is an instance ([avl_iface], [avl_laws]).  The theorems about
    [avl.c] itself are at the end. *)
From Stdlib Require Import ZArith Lia Sorted.
From stdpp Require Import base numbers list option gmap.
From S2P Require Import Prelude Avl AvlTree AvlProof AvlOps AvlRemove AvlDestroy.

(** ** The interface *)

Class AvlIface (S : Type) := {
  os_find : S -> (Z -> Z) -> option (Z * Z);
  os_nearest : S -> Z -> bool -> option Z;
  os_insert : S -> Z -> Z -> option S;
  os_insert_here : S -> Z -> Z -> bool -> option S;
  os_remove : S -> Z -> option S;
  os_first : S -> option Z;
  os_walk : S -> Z -> bool -> option Z;
  os_numnodes : S -> Z;
  os_destroy_nodes : S -> Z -> option (S * Z * Z);
  os_alloc : S -> Z * S;
  os_free : S -> Z -> S
}.

(** [os_abs s l]: the tree holds the objects [l] in this order, and there are
    no others.  [os_out s l a]: also the object [a] is allocated, outside the
    tree.  [os_hole s l1 l2 w]: [w] is the index of the place between [l1] and
    [l2].  [os_drain s todo c]: the loop over [avl_destroy_nodes] with cookie
    [c] will return [todo].  At most [cap] objects are allocated. *)
Class AvlLaws (S : Type) `{AvlIface S} (cap : nat) := {
  os_abs : S -> list Z -> Prop;
  os_out : S -> list Z -> Z -> Prop;
  os_hole : S -> list Z -> list Z -> Z -> Prop;
  os_drain : S -> list Z -> Z -> Prop;
  abs_objects s l : os_abs s l -> NoDup l /\ forall a, a ∈ l -> a <> 0;
  out_free_law s l a : os_out s l a -> os_abs (os_free s a) l;
  find_out_law s l a f : os_out s l a -> compares f l ->
    (exists b w, b ∈ l /\ f b = 0 /\ os_find s f = Some (b, w)) \/
    (exists l1 l2 w, l = l1 ++ l2 /\ (forall z, z ∈ l1 -> f z = 1) /\ (forall z, z ∈ l2 -> f z = -1) /\
       os_find s f = Some (0, w) /\ os_hole s l1 l2 w);
  find_law s l f : os_abs s l -> compares f l ->
    (exists a w, a ∈ l /\ f a = 0 /\ os_find s f = Some (a, w)) \/
    (exists l1 l2 w, l = l1 ++ l2 /\ (forall z, z ∈ l1 -> f z = 1) /\ (forall z, z ∈ l2 -> f z = -1) /\
       os_find s f = Some (0, w) /\ os_hole s l1 l2 w);
  nearest_law s l1 l2 w : os_hole s l1 l2 w ->
    os_nearest s w true = Some (hd 0 l2) /\ os_nearest s w false = Some (hd 0 (rev l1));
  alloc_law s l : os_abs s l -> (length l < cap)%nat ->
    exists a s', os_alloc s = (a, s') /\ os_out s' l a /\ (a ∉ l) /\ a <> 0 /\
      forall l1 l2 w, os_hole s l1 l2 w -> os_hole s' l1 l2 w;
  insert_law s l1 l2 w a : os_out s (l1 ++ l2) a -> os_hole s l1 l2 w ->
    exists s', os_insert s a w = Some s' /\ os_abs s' (l1 ++ a :: l2);
  insert_here_law s l1 here l2 a d : os_out s (l1 ++ here :: l2) a ->
    exists s', os_insert_here s a here d = Some s' /\
      os_abs s' (l1 ++ (if d then [here; a] else [a; here]) ++ l2);
  remove_law s l1 a l2 : os_abs s (l1 ++ a :: l2) ->
    exists s', os_remove s a = Some s' /\ os_out s' (l1 ++ l2) a;
  first_law s l : os_abs s l -> os_first s = Some (hd 0 l);
  walk_law s l1 a l2 : os_abs s (l1 ++ a :: l2) ->
    os_walk s a true = Some (hd 0 l2) /\ os_walk s a false = Some (hd 0 (rev l1));
  num_law s l : os_abs s l -> os_numnodes s = Z.of_nat (length l);
  drain_start s l : os_abs s l -> exists todo, todo ≡ₚ l /\ os_drain s todo 0;
  drain_next s a todo c : os_drain s (a :: todo) c ->
    exists s' c', os_destroy_nodes s c = Some (s', a, c') /\ a <> 0 /\ os_drain (os_free s' a) todo c';
  drain_end s c : os_drain s [] c ->
    exists s' c', os_destroy_nodes s c = Some (s', 0, c') /\ os_abs s' []
}.

(** ** Changes of the heap outside a tree *)

Lemma held_other t ctx s rc h :
  held t ctx s rc -> (forall a, a ∈ flat (plug ctx s) -> h !! a = heap t !! a) -> held (with_heap t h) ctx s rc.
Proof.
  intros [H1 H2 H3 H4] Hh. setoid_rewrite elem_of_plug in Hh. split; cbn [heap with_heap avl_root]; try done.
  - eapply rep_frame; [done|]. intros. apply Hh. tauto.
  - eapply rep_ctx_frame; [done|]. intros. apply Hh. tauto.
Qed.

Lemma is_tree_other t T h :
  is_tree t T -> (forall a, a ∈ flat T -> h !! a = heap t !! a) -> is_tree (with_heap t h) T.
Proof.
  intros [H1 [rc H2] H3 H4 H5] Hh. split; cbn [heap with_heap avl_root avl_numnodes]; try done.
  exists rc. by eapply rep_frame.
Qed.

(** Operations that change only nodes that are there keep the objects. *)
Lemma same_off_dom S h h' :
  same_off S h h' -> (forall a, a ∈ S -> is_Some (h !! a)) -> dom h' = dom h.
Proof.
  intros [Hs Hl] HS. assert (dom h' ⊆ dom h) as Hsub.
  { intros a Ha. apply elem_of_dom in Ha. apply elem_of_dom. destruct (decide (a ∈ S)) as [Hin|Hin]; [by apply HS|].
    by rewrite <-Hl. }
  apply set_subseteq_size_eq; [done|]. rewrite !size_dom. lia.
Qed.

(** ** [avl.c] implements the interface *)

Section instance.
(** [kmem_alloc used] is a fresh address; [tmp] is the address of the local
    variable of [avl_remove]; [junk] is what fresh memory holds. *)
Context (kmem_alloc : gset Z -> Z) (tmp : Z) (junk : avl_node) (cap : nat).
Context (Htmp : is_ptr tmp) (Hcap : Z.of_nat cap < 2 ^ 60).
Context (Halloc : forall X : gset Z, (size X <= cap)%nat -> (kmem_alloc X ∉ X) /\ is_ptr (kmem_alloc X)).

Definition avl_kmem_alloc (t : avl_tree) : Z * avl_tree :=
  let a := kmem_alloc ({[tmp]} ∪ dom (heap t)) in (a, with_heap t (<[a := junk]> (heap t))).
Definition avl_kmem_free (t : avl_tree) (a : Z) : avl_tree := with_heap t (delete a (heap t)).

#[export] Instance avl_iface : AvlIface avl_tree := {
  os_find := avl_find;
  os_nearest := avl_nearest;
  os_insert := avl_insert;
  os_insert_here := avl_insert_here;
  os_remove := avl_remove tmp;
  os_first := avl_first;
  os_walk := avl_walk;
  os_numnodes := avl_numnodes;
  os_destroy_nodes := avl_destroy_nodes;
  os_alloc := avl_kmem_alloc;
  os_free := avl_kmem_free
}.

(** The tree holds [l] and the heap holds the objects [extra] besides. *)
Definition avl_holds (t : avl_tree) (l extra : list Z) : Prop :=
  (exists T, is_tree t T /\ flat T = l) /\ dom (heap t) = list_to_set (extra ++ l) /\ (tmp ∉ extra ++ l) /\ (length l <= cap)%nat.

Definition avl_out (t : avl_tree) (l : list Z) (a : Z) : Prop :=
  avl_holds t l [a] /\ (a ∉ l) /\ is_ptr a /\ (length l < cap)%nat /\ is_Some (heap t !! a).

Definition avl_hole (t : avl_tree) (l1 l2 : list Z) (w : Z) : Prop :=
  exists ctx rc, is_tree t (plug ctx Leaf) /\ held t ctx Leaf rc /\ before ctx = l1 /\ after ctx = l2 /\ w = hole_index ctx.

Definition avl_drain (t : avl_tree) (todo : list Z) (c : Z) : Prop :=
  dom (heap t) = list_to_set todo /\ (tmp ∉ todo) /\ NoDup todo /\
  ((exists T, is_tree t T /\ post T = todo /\ c = 0) \/
   (exists ctx n, destroying t ctx n /\ rest ctx = todo /\ c = cookie_of ctx)).

Lemma avl_holds_objects t l extra : avl_holds t l extra ->
  NoDup l /\ (forall a, a ∈ l -> is_ptr a /\ is_Some (heap t !! a)) /\ (forall a, is_Some (heap t !! a) <-> a ∈ extra ++ l).
Proof.
  intros ((T & HT & <-) & Hd & _). destruct HT as [H1 [rc H2] H3 H4 H5]. split; [done|].
  split; [intros a Ha; by eapply rep_elem|]. intros a. by rewrite <-elem_of_dom, Hd, elem_of_list_to_set.
Qed.

Lemma avl_find_holds t l extra f : avl_holds t l extra -> compares f l ->
  (exists a w, a ∈ l /\ f a = 0 /\ avl_find t f = Some (a, w)) \/
  (exists l1 l2 w, l = l1 ++ l2 /\ (forall z, z ∈ l1 -> f z = 1) /\ (forall z, z ∈ l2 -> f z = -1) /\
     avl_find t f = Some (0, w) /\ avl_hole t l1 l2 w).
Proof.
  intros ((T & HT & <-) & _) Hc. destruct (avl_find_spec t T f HT Hc) as [(a & H1 & H2 & H3)|(ctx & rc & H1 & H2 & H3 & H4 & H5)].
  - left. by exists a, 0.
  - right. subst T. exists (before ctx), (after ctx), (hole_index ctx). split; [by rewrite flat_plug|].
    split; [done|]. split; [done|]. split; [done|]. by exists ctx, rc.
Qed.

Lemma avl_out_free t l a : avl_out t l a -> avl_holds (avl_kmem_free t a) l [].
Proof.
  intros (((T & HT & <-) & Hd & Ht & Hl) & Ha & _). split; [|split; [|split]].
  - exists T. split; [|done]. apply is_tree_other; [done|]. intros z Hz. apply lookup_delete_ne. by intros <-.
  - cbn [heap with_heap avl_kmem_free app]. rewrite dom_delete_L, Hd. set_solver.
  - cbn [app] in *. set_solver.
  - done.
Qed.

Lemma avl_nearest_law t l1 l2 w : avl_hole t l1 l2 w ->
  avl_nearest t w true = Some (hd 0 l2) /\ avl_nearest t w false = Some (hd 0 (rev l1)).
Proof. intros (ctx & rc & _ & Hh & <- & <- & ->). by rewrite !(avl_nearest_spec _ _ _ _ Hh). Qed.

Lemma avl_alloc_law t l : avl_holds t l [] -> (length l < cap)%nat ->
  exists a t', avl_kmem_alloc t = (a, t') /\ avl_out t' l a /\ (a ∉ l) /\ a <> 0 /\
    forall l1 l2 w, avl_hole t l1 l2 w -> avl_hole t' l1 l2 w.
Proof using All.
  intros Hh Hlen. destruct (avl_holds_objects _ _ _ Hh) as (Hnd & Hobj & Hdom). destruct Hh as ((T & HT & Hf) & Hd & Ht & Hl).
  unfold avl_kmem_alloc. set (a := kmem_alloc _). cbn [app] in *.
  destruct (Halloc ({[tmp]} ∪ dom (heap t))) as [Ha Hp].
  { rewrite Hd, size_union by set_solver. rewrite size_singleton, size_list_to_set by done. lia. }
  fold a in Ha, Hp. assert (a ∉ l) as Hal by (rewrite Hd in Ha; set_solver). assert (a <> tmp) as Hat by set_solver.
  assert (forall z, z ∈ l -> <[a := junk]> (heap t) !! z = heap t !! z) as Hoff.
  { intros z Hz. apply lookup_insert_ne. by intros <-. }
  eexists a, _. split; [done|]. split; [|split; [done|split; [auto with avl|]]].
  - split; [|split; [done|split; [done|split; [done|]]]].
    + split; [exists T; split; [|done]; apply is_tree_other; [done|by rewrite Hf]|]. cbn [heap with_heap app].
      rewrite dom_insert_L, Hd. split; [set_solver|]. split; [set_solver|done].
    + cbn [heap with_heap]. exists junk. by rewrite lookup_insert_eq.
  - intros l1 l2 w (ctx & rc & H1 & H2 & H3 & H4 & H5). pose proof (held_plug _ _ _ _ H2) as [Hr _].
    assert (forall z, z ∈ flat (plug ctx Leaf) -> <[a := junk]> (heap t) !! z = heap t !! z) as Hoff2.
    { intros z Hz. apply lookup_insert_ne. intros <-. destruct (rep_all _ _ _ _ _ Hr Hz) as [m Hm].
      apply Ha, elem_of_union_r, elem_of_dom. eauto. }
    exists ctx, rc. split; [by apply is_tree_other|]. split; [by apply held_other|done].
Qed.

(** An insertion of the detached object. *)
Lemma avl_out_inserted t t' T' l l' a :
  avl_out t l a -> is_tree t' T' -> flat T' = l' -> l' ≡ₚ a :: l -> same_off (a :: l) (heap t) (heap t') ->
  avl_holds t' l' [].
Proof using All.
  intros (Hh & Hal & Hp & Hlt & _) HT Hf Hperm Hoff. destruct (avl_holds_objects _ _ _ Hh) as (_ & _ & Hdom).
  destruct Hh as (_ & Hd & Ht & Hl). split; [by exists T'|].
  rewrite (same_off_dom _ _ _ Hoff) by (intros z Hz; by apply Hdom). rewrite Hd. cbn [app] in *.
  split; [by rewrite Hperm|]. split; [by rewrite Hperm|]. rewrite Hperm. cbn [length]. lia.
Qed.

Lemma avl_insert_law t l1 l2 w a : avl_out t (l1 ++ l2) a -> avl_hole t l1 l2 w ->
  exists t', avl_insert t a w = Some t' /\ avl_holds t' (l1 ++ a :: l2) [].
Proof using All.
  intros Ho (ctx & rc & HT & Hh & Hb & Ha & ->). pose proof Ho as (Hho & Hal & Hp & Hlt & n & Hn).
  assert (flat (plug ctx Leaf) = l1 ++ l2) as Hf by (rewrite flat_plug, Hb, Ha; done).
  destruct (avl_insert_spec t (plug ctx Leaf) ctx rc a n HT) as (t' & T' & E & HT' & Hf' & Hoff); try done.
  { by rewrite Hf. } { rewrite Hf. lia. }
  exists t'. split; [done|]. rewrite Hb, Ha in Hf'. eapply avl_out_inserted; [exact Ho|done|done| |by rewrite <-Hf].
  by rewrite <-Permutation_middle.
Qed.

Lemma avl_insert_here_law t l1 here l2 a d : avl_out t (l1 ++ here :: l2) a ->
  exists t', avl_insert_here t a here d = Some t' /\
    avl_holds t' (l1 ++ (if d then [here; a] else [a; here]) ++ l2) [].
Proof using All.
  intros Ho. pose proof Ho as (((T & HT & Hf) & _) & Hal & Hp & Hlt & n & Hn).
  destruct (avl_insert_here_spec t T l1 here l2 a n d HT Hf Hp Hn) as (t' & T' & E & HT' & Hf' & Hoff).
  { by rewrite Hf. } { rewrite Hf. lia. }
  exists t'. split; [done|]. eapply avl_out_inserted; [exact Ho|done|done| |by rewrite <-Hf].
  destruct d; cbn [app]; [|by rewrite <-Permutation_middle].
  rewrite <-Permutation_middle, (Permutation_middle _ _ a), <-!Permutation_middle, (Permutation_swap a). done.
Qed.

Lemma avl_remove_law t l1 a l2 : avl_holds t (l1 ++ a :: l2) [] ->
  exists t', avl_remove tmp t a = Some t' /\ avl_out t' (l1 ++ l2) a.
Proof using All.
  intros Hh. destruct (avl_holds_objects _ _ _ Hh) as (Hnd & Hobj & Hdom).
  destruct Hh as ((T & HT & Hf) & Hd & Ht & Hl). cbn [app] in *.
  destruct (avl_remove_spec t T l1 a l2 tmp HT Hf Htmp) as (t' & T' & E & HT' & Hf' & Hoff).
  { destruct (heap t !! tmp) eqn:E; [|done]. destruct Ht. apply Hdom. by eexists. }
  exists t'. split; [done|]. apply NoDup_app in Hnd as (N1 & N2 & [N3 N4]%NoDup_cons).
  assert (a ∉ l1 ++ l2) as Hal by (rewrite elem_of_app; intros [H|H]; [eapply N2; [exact H|by left]|done]).
  assert (dom (heap t') = dom (heap t)) as Ed by (apply (same_off_dom _ _ _ Hoff); rewrite Hf; intros; by apply Hdom).
  assert (a ∈ l1 ++ a :: l2) as Hin by (rewrite elem_of_app, elem_of_cons; tauto).
  rewrite length_app in Hl. cbn [length] in Hl. destruct (Hobj a Hin) as [Hpa _].
  split; [|split; [done|split; [done|split; [rewrite length_app; lia|]]]].
  - split; [by exists T'|]. rewrite Ed, Hd. cbn [app]. split; [set_solver|]. split; [set_solver|]. rewrite length_app. lia.
  - apply elem_of_dom. rewrite Ed, Hd. by apply elem_of_list_to_set.
Qed.

Lemma avl_drain_start t l : avl_holds t l [] -> exists todo, todo ≡ₚ l /\ avl_drain t todo 0.
Proof.
  intros Hh. destruct (avl_holds_objects _ _ _ Hh) as (Hnd & _). destruct Hh as ((T & HT & <-) & Hd & Ht & Hl).
  exists (post T). split; [apply post_flat|]. cbn [app] in *. split; [by rewrite post_flat|].
  split; [by rewrite post_flat|]. split; [by rewrite post_flat|]. left. by exists T.
Qed.

Lemma rest_perm ctx : Forall half_gone ctx -> rest ctx ≡ₚ ctx_addrs ctx.
Proof.
  induction 1 as [|f ctx Hf _ IH]; [done|]. cbn [rest]. unfold ctx_addrs in *. destruct f as [d a b o].
  unfold half_gone in Hf. destruct d; cbn in *.
  - subst o. cbn. rewrite IH, <-app_assoc. cbn. by rewrite <-Permutation_middle.
  - rewrite post_flat, IH, app_nil_r, <-!Permutation_middle. f_equiv. rewrite !app_assoc. f_equiv.
    apply Permutation_app_comm.
Qed.

(** A call that returns a leaf of what is left, which is then freed. *)
Lemma avl_drain_step t t' ctx m mb rc todo :
  held t' ctx (Node Leaf m mb Leaf) rc -> Forall half_gone ctx -> m :: rest ctx = todo ->
  avl_numnodes t' = Z.of_nat (length todo) -> dom (heap t') = dom (heap t) ->
  dom (heap t) = list_to_set todo -> (tmp ∉ todo) -> NoDup todo ->
  m <> 0 /\ avl_drain (avl_kmem_free t' m) (rest ctx) (cookie_of ctx).
Proof.
  intros Hh Hg <- Hnum Ed Hd Ht Hnd. pose proof (he_rep _ _ _ _ Hh) as (Hm & _). split; [auto with avl|].
  apply NoDup_cons in Hnd as [N1 N2]. rewrite not_elem_of_cons in Ht. split.
  - cbn [heap with_heap avl_kmem_free]. rewrite dom_delete_L, Ed, Hd. set_solver.
  - split; [tauto|]. split; [done|]. right. exists ctx, m. split; [|done]. by eapply destroying_free.
Qed.

Lemma avl_drain_next t a todo c : avl_drain t (a :: todo) c ->
  exists t' c', avl_destroy_nodes t c = Some (t', a, c') /\ a <> 0 /\ avl_drain (avl_kmem_free t' a) todo c'.
Proof.
  intros (Hd & Ht & Hnd & [(T & HT & Hp & ->)|(ctx & n & Hds & Hr & ->)]).
  - destruct (destroy_first t T HT) as (ctx & m & mb & rc & E & Hh & Hg & Hm); [by intros ->|].
    rewrite Hp in Hm. pose proof (avl_drain_step t t ctx m mb rc _ Hh Hg Hm) as Hstep. injection Hm as -> <-.
    eexists _, _. split; [exact E|]. apply Hstep; try done.
    rewrite (it_num _ _ HT), <-Hp. by rewrite post_flat.
  - destruct ctx as [|f ctx]; [done|]. destruct (destroy_next t f ctx n Hds) as (t' & ctx' & m & mb & rc & E & Hh & Hg & Hm & Hnum & Hoff).
    rewrite Hr in Hm. pose proof (avl_drain_step t t' ctx' m mb rc _ Hh Hg Hm) as Hstep. injection Hm as -> <-.
    eexists _, _. split; [exact E|]. apply Hstep; try done.
    + rewrite Hnum, (ds_num _ _ _ Hds), Hr. cbn [length]. lia.
    + apply (same_off_dom _ _ _ Hoff). intros z Hz. apply elem_of_dom. rewrite Hd, elem_of_list_to_set, <-Hr.
      by rewrite (rest_perm _ (ds_gone _ _ _ Hds)).
Qed.

Lemma avl_drain_end t c : avl_drain t [] c ->
  exists t' c', avl_destroy_nodes t c = Some (t', 0, c') /\ avl_holds t' [] [].
Proof.
  intros (Hd & Ht & Hnd & [(T & HT & Hp & ->)|(ctx & n & Hds & Hr & ->)]).
  - assert (T = Leaf) as -> by (destruct T; [done|]; cbn in Hp; by destruct (post T1), (post T2)).
    exists t, CHILDBIT. unfold avl_destroy_nodes. cbn [Z.eqb]. rewrite (proj1 (avl_first_spec t Leaf HT)).
    split; [done|]. split; [by exists Leaf|]. split; [done|]. split; [done|]. cbn. lia.
  - destruct ctx as [|f ctx]; [|cbn in Hr; by destruct (if f_dir f then [] else post (f_other f))].
    eexists _, _. split; [by apply (destroy_last t n)|]. split; [|split; [done|split; [done|cbn; lia]]].
    exists Leaf. split; [|done]. split; try done; solve [by exists false|constructor].
Qed.

#[export] Instance avl_laws : AvlLaws avl_tree cap.
Proof using All.
  refine {|
    os_abs t l := avl_holds t l []; os_out := avl_out; os_hole := avl_hole; os_drain := avl_drain;
    find_law t l := avl_find_holds t l []; find_out_law t l a f H := avl_find_holds t l [a] f (proj1 H); out_free_law := avl_out_free; nearest_law := avl_nearest_law; alloc_law := avl_alloc_law;
    insert_law := avl_insert_law; insert_here_law := avl_insert_here_law; remove_law := avl_remove_law;
    drain_start := avl_drain_start; drain_next := avl_drain_next; drain_end := avl_drain_end |}.
  - intros t l Hh. destruct (avl_holds_objects _ _ _ Hh) as (Hnd & Ho & _). split; [done|].
    intros a Ha. destruct (Ho a Ha). auto with avl.
  - intros t l ((T & HT & <-) & _). by apply avl_first_spec.
  - intros t l1 a l2 ((T & HT & Hf) & _). by apply (avl_walk_sequence t T).
  - intros t l ((T & HT & <-) & _). apply HT.
Defined.
End instance.

(** ** Depth *)

Lemma square_step A B X : 0 <= A -> 0 <= B -> 0 <= X -> 2 * X <= A * A -> X <= B * B -> 4 * X <= (A + B) * (A + B).
Proof.
  intros HA HB HX H1 H2. destruct (Z.le_gt_cases X (A * B)); [nia|].
  assert (X * X <= (A * A) * (B * B)) by nia. nia.
Qed.

(** A balanced tree of height [h] has at least [sqrt (2 ^ h) - 1] nodes. *)
Lemma balanced_size T : balanced T ->
  2 ^ height T <= (Z.of_nat (length (flat T)) + 1) * (Z.of_nat (length (flat T)) + 1).
Proof.
  induction T as [|l IHl a b r IHr]; [done|]. intros (Hb & Hb1 & Hl & Hr). specialize (IHl Hl). specialize (IHr Hr).
  cbn [height flat]. rewrite length_app. cbn [length]. pose proof (height_nonneg l). pose proof (height_nonneg r).
  replace (Z.of_nat (length (flat l) + S (length (flat r))) + 1)
    with ((Z.of_nat (length (flat l)) + 1) + (Z.of_nat (length (flat r)) + 1)) by lia.
  set (A := Z.of_nat (length (flat l)) + 1) in *. set (B := Z.of_nat (length (flat r)) + 1) in *.
  assert (1 <= A /\ 1 <= B) as [HA HB] by lia.
  destruct (Z.eq_dec (Z.max (height l) (height r)) 0) as [E|E].
  { rewrite E. change (2 ^ (1 + 0)) with 2. nia. }
  set (h := Z.max (height l) (height r)) in *. replace (2 ^ (1 + h)) with (4 * 2 ^ (h - 1))
    by (replace (1 + h) with (h - 1 + 2) by lia; rewrite Z.pow_add_r by lia; lia).
  assert (2 ^ h = 2 * 2 ^ (h - 1)) as Eh by (rewrite <-Z.pow_succ_r by lia; f_equal; lia).
  assert (0 <= 2 ^ (h - 1)) by (apply Z.pow_nonneg; lia).
  assert (height l = h \/ height r = h) as [Eq|Eq] by lia.
  - rewrite Eq in IHl. assert (2 ^ (h - 1) <= 2 ^ height r) by (apply Z.pow_le_mono_r; lia).
    apply square_step; lia.
  - rewrite Eq in IHr. assert (2 ^ (h - 1) <= 2 ^ height l) by (apply Z.pow_le_mono_r; lia).
    rewrite (Z.add_comm A B). apply square_step; lia.
Qed.

Lemma balanced_height T : balanced T -> height T <= 2 * Z.log2 (Z.of_nat (length (flat T)) + 1) + 1.
Proof.
  intros HT. pose proof (balanced_size T HT) as Hs. set (n := Z.of_nat (length (flat T)) + 1) in *.
  assert (0 < n) as Hn by lia. pose proof (Z.log2_spec n Hn) as [_ Hlog]. pose proof (Z.log2_nonneg n).
  assert (n * n < 2 ^ (2 * Z.log2 n + 2)) as Hlt.
  { replace (2 * Z.log2 n + 2) with (Z.succ (Z.log2 n) + Z.succ (Z.log2 n)) by lia. rewrite Z.pow_add_r by lia. nia. }
  assert (height T < 2 * Z.log2 n + 2); [|lia].
  apply (Z.pow_lt_mono_r_iff 2); lia.
Qed.

Lemma find_loop_mono k : forall k' t f node prev child r, (k <= k')%nat ->
  find_loop k t f node prev child = Some r -> find_loop k' t f node prev child = Some r.
Proof.
  induction k as [|k IH]; intros k' t f node prev child r Hk; [done|]. destruct k' as [|k']; [lia|].
  cbn [find_loop]. destruct (node =? 0); [done|]. destruct (get t node) as [n|]; [|done]. cbn [mbind option_bind].
  destruct (_ && _); [|done]. destruct (f node =? 0); [done|]. apply IH. lia.
Qed.

(** ** The loop of a caller that destroys a tree

    [while ((node = avl_destroy_nodes(tree, &cookie)) != NULL) free(node);]
    as the comment above [avl_destroy_nodes] shows it. *)
Fixpoint destroy_loop (k : nat) (t : avl_tree) (cookie : Z) : option (list Z * avl_tree) :=
  match k with
  | O => None
  | S k =>
      let* (t, node, cookie) := avl_destroy_nodes t cookie in
      if node =? 0 then Some ([], t)
      else let* (l, t) := destroy_loop k (with_heap t (delete node (heap t))) cookie in Some (node :: l, t)
  end.

Lemma destroy_loop_rest : forall todo t ctx n,
  destroying t ctx n -> rest ctx = todo ->
  exists t', destroy_loop (S (length todo)) t (cookie_of ctx) = Some (todo, t') /\ avl_root t' = 0 /\ avl_numnodes t' = 0 /\
    (forall a, a ∈ todo -> heap t' !! a = None) /\ (forall a, (a ∉ todo) -> heap t' !! a = heap t !! a).
Proof.
  induction todo as [|a todo IH]; intros t ctx n Hd Hr.
  - destruct ctx as [|f ctx]; [|cbn in Hr; by destruct (if f_dir f then [] else post (f_other f))].
    eexists. cbn [destroy_loop length]. rewrite (destroy_last t n Hd). cbn [mbind option_bind Z.eqb].
    split; [done|]. split; [done|]. split; [done|]. split; [|done]. intros a Ha. by apply elem_of_nil in Ha.
  - destruct ctx as [|f ctx]; [done|].
    destruct (destroy_next t f ctx n Hd) as (t1 & ctx' & m & mb & rc & E & Hh & Hg & Hm & Hnum & Hoff).
    rewrite Hr in Hm. injection Hm as -> <-. cbn [destroy_loop]. rewrite E. cbn [mbind option_bind].
    pose proof (he_rep _ _ _ _ Hh) as (Ha & _). rewrite (proj2 (Z.eqb_neq _ _)) by auto with avl.
    assert (NoDup (a :: rest ctx')) as Hnd by (rewrite <-Hr, (rest_perm _ (ds_gone _ _ _ Hd)); apply Hd).
    apply NoDup_cons in Hnd as [N1 N2].
    destruct (IH (with_heap t1 (delete a (heap t1))) ctx' a) as (t' & E' & R1 & R2 & R3 & R4); [|done|].
    { eapply destroying_free; [done..|]. rewrite Hnum, (ds_num _ _ _ Hd), Hr. cbn [length]. lia. }
    cbn [length]. rewrite E'. cbn [mbind option_bind]. exists t'. split; [done|]. split; [done|]. split; [done|].
    cbn [heap with_heap] in R4. split.
    + intros z [->|Hz]%elem_of_cons; [|by apply R3]. rewrite R4 by done. by rewrite lookup_delete_eq.
    + intros z Hz. rewrite not_elem_of_cons in Hz. rewrite R4, lookup_delete_ne by naive_solver.
      apply Hoff. rewrite <-(rest_perm _ (ds_gone _ _ _ Hd)), Hr, not_elem_of_cons. tauto.
Qed.

Lemma destroy_loop_all t T : is_tree t T ->
  exists t', destroy_loop (S (length (flat T))) t 0 = Some (post T, t') /\ avl_root t' = 0 /\ avl_numnodes t' = 0 /\
    (forall a, a ∈ flat T -> heap t' !! a = None) /\ (forall a, (a ∉ flat T) -> heap t' !! a = heap t !! a).
Proof.
  intros HT. assert (T = Leaf \/ T <> Leaf) as [->|Hne] by (destruct T; auto).
  - exists t. cbn [destroy_loop flat length]. unfold avl_destroy_nodes. cbn [Z.eqb].
    rewrite (proj1 (avl_first_spec t Leaf HT)). cbn [mbind option_bind Z.eqb hd flat post]. split; [done|].
    pose proof (it_root _ _ HT). pose proof (it_num _ _ HT). split; [done|]. split; [done|]. split; [|done].
    intros a Ha. by apply elem_of_nil in Ha.
  - destruct (destroy_first t T HT Hne) as (ctx & m & mb & rc & E & Hh & Hg & Hm).
    assert (length (flat T) = S (length (rest ctx))) as Hlen by (rewrite <-post_flat, <-Hm; done).
    cbn [destroy_loop]. rewrite E. cbn [mbind option_bind]. pose proof (he_rep _ _ _ _ Hh) as (Ha & _).
    rewrite (proj2 (Z.eqb_neq _ _)) by auto with avl. rewrite Hlen.
    pose proof (it_nodup _ _ HT) as Hnd. rewrite <-post_flat, <-Hm in Hnd. apply NoDup_cons in Hnd as [N1 N2].
    destruct (destroy_loop_rest (rest ctx) (with_heap t (delete m (heap t))) ctx m) as (t' & E' & R1 & R2 & R3 & R4); [|done|].
    { eapply destroying_free; [done..|]. by rewrite (it_num _ _ HT), Hlen. }
    rewrite E'. cbn [mbind option_bind]. exists t'. rewrite Hm. split; [done|]. split; [done|]. split; [done|].
    cbn [heap with_heap] in R4. setoid_rewrite <-post_flat. setoid_rewrite <-Hm. split.
    + intros z [->|Hz]%elem_of_cons; [|by apply R3]. rewrite R4 by done. by rewrite lookup_delete_eq.
    + intros z Hz. rewrite not_elem_of_cons in Hz. rewrite R4, lookup_delete_ne by naive_solver. done.
Qed.

(** ** The theorems about [avl.c] *)

(** C26: searching.  In a balanced tree whose objects compare with the value
    in order, [avl_find] returns an object that compares equal, or, when there
    is none, the index of the place that separates the smaller objects from
    the larger ones, whose neighbours [avl_nearest] returns (NULL at an end). *)
Theorem avl_find_correct (t : avl_tree) (T : tree) (compar : Z -> Z)
    (HT : is_tree t T) (Hc : compares compar (flat T)) :
  (exists a w, a ∈ flat T /\ compar a = 0 /\ avl_find t compar = Some (a, w)) \/
  (exists l1 l2 w, flat T = l1 ++ l2 /\ Forall (fun a => compar a = 1) l1 /\ Forall (fun a => compar a = -1) l2 /\
     avl_find t compar = Some (0, w) /\
     avl_nearest t w true = Some (hd 0 l2) /\ avl_nearest t w false = Some (hd 0 (rev l1))).
Proof.
  destruct (avl_find_spec t T compar HT Hc) as [(a & H1 & H2 & H3)|(ctx & rc & H1 & H2 & H3 & H4 & H5)].
  - left. by exists a, 0.
  - right. subst T. exists (before ctx), (after ctx), (hole_index ctx). rewrite !(avl_nearest_spec _ _ _ _ H1), !Forall_forall.
    by rewrite flat_plug.
Qed.

(** The search is logarithmic.  The loop of [avl_find] ends within
    [2 * log2 (n + 1) + 2] rounds in a tree of [n] nodes. *)
Theorem avl_find_logarithmic (t : avl_tree) (T : tree) (compar : Z -> Z)
    (HT : is_tree t T) (Hc : compares compar (flat T)) :
  exists r, find_loop (Z.to_nat (2 * Z.log2 (avl_numnodes t + 1) + 2)) t compar (avl_root t) 0 false = Some r /\
    avl_find t compar = Some r.
Proof.
  destruct (is_tree_held t T HT) as [rc Hh]. pose proof (balanced_height T (it_balanced _ _ HT)) as Hht.
  rewrite (it_num _ _ HT). set (n := Z.of_nat (length (flat T)) + 1) in *. pose proof (Z.log2_nonneg n).
  set (k := Z.to_nat (2 * Z.log2 n + 2)). assert (height T < Z.of_nat k) as Hk by lia.
  assert (exists r, find_loop k t compar (avl_root t) 0 false = Some r) as [r Hr].
  { rewrite (it_root _ _ HT).
    destruct (find_loop_spec compar T t [] rc k Hh) as [(a & _ & _ & E)|(ctx & _ & _ & _ & _ & E)]; [|..|eauto|eauto]; cbn [before after app].
    - by rewrite app_nil_r. - intros z Hz. by apply elem_of_nil in Hz. - intros z Hz. by apply elem_of_nil in Hz. - done. }
  exists r. split; [done|]. destruct (avl_find_spec t T compar HT Hc) as [(a & _ & _ & E)|(ctx & _ & _ & _ & _ & _ & E)].
  all: rewrite E; f_equal; unfold avl_find in E;
    destruct (Nat.le_ge_cases k (fuel t)) as [Hle|Hle]; [pose proof (find_loop_mono _ _ _ _ _ _ _ _ Hle Hr)|
    pose proof (find_loop_mono _ _ _ _ _ _ _ _ Hle E)]; congruence.
Qed.

(** C24: insertion.  [avl_add] of an object that compares equal to none of the
    tree puts it between the smaller and the larger ones, keeps the tree
    balanced and its packed parent, child-index and balance words right, and
    changes no node outside the tree but the new one. *)
Theorem avl_add_correct (t : avl_tree) (T : tree) (compar : Z -> Z) (a : Z) (n : avl_node)
    (HT : is_tree t T) (Hc : compares compar (flat T)) (Hne : Forall (fun z => compar z <> 0) (flat T))
    (Ha : is_ptr a) (Hn : heap t !! a = Some n) (Hfresh : a ∉ flat T)
    (Hnum : avl_numnodes t + 1 < 2 ^ 64) :
  exists t' T', avl_add t compar a = Some t' /\ is_tree t' T' /\
    flat T' = filter (fun z => compar z = 1) (flat T) ++ a :: filter (fun z => compar z = -1) (flat T) /\
    same_off (a :: flat T) (heap t) (heap t').
Proof.
  rewrite (it_num _ _ HT) in Hnum. unfold avl_add.
  destruct (avl_find_spec t T compar HT Hc) as [(z & H1 & H2 & _)|(ctx & rc & H1 & H2 & H3 & H4 & ->)].
  { rewrite Forall_forall in Hne. by destruct (Hne z H1). }
  cbn [mbind option_bind Z.eqb]. destruct (avl_insert_spec t T ctx rc a n HT (eq_sym H2) H1 Ha Hn Hfresh) as (t' & T' & E & HT' & Hf' & Hoff).
  { lia. }
  exists t', T'. split; [done|]. split; [done|]. split; [|done]. rewrite Hf', <-H2, flat_plug. cbn [flat app].
  rewrite !filter_app. rewrite (filter_all _ (before ctx)), (filter_none _ (after ctx)), (filter_none _ (before ctx)),
    (filter_all _ (after ctx)); [by rewrite app_nil_r|..]; intros z Hz; rewrite ?(H3 z Hz), ?(H4 z Hz); done.
Qed.

(** C25: removal.  [avl_remove] of any object of the tree, an interior one
    included, takes exactly it out of the sequence and keeps the tree
    balanced; the local variable [tmp] that stands in for a node while it
    works is not in the tree when it returns. *)
Theorem avl_remove_correct (t : avl_tree) (T : tree) (l1 l2 : list Z) (a tmp : Z)
    (HT : is_tree t T) (Hf : flat T = l1 ++ a :: l2) (Htmp : is_ptr tmp) (Hfresh : heap t !! tmp = None) :
  exists t' T', avl_remove tmp t a = Some t' /\ is_tree t' T' /\ flat T' = l1 ++ l2 /\
    heap t' !! tmp = None /\ forall z, (z ∉ flat T) -> heap t' !! z = heap t !! z.
Proof.
  destruct (avl_remove_spec t T l1 a l2 tmp HT Hf Htmp Hfresh) as (t' & T' & E & HT' & Hf' & [Hs Hoff]).
  exists t', T'. split; [done|]. split; [done|]. split; [done|]. split; [|done]. rewrite Hoff; [done|].
  intros Hin. destruct (it_rep _ _ HT) as [rc Hr]. destruct (rep_all _ _ _ _ _ Hr Hin) as [? ?]. congruence.
Qed.

(** The loop [for (a = avl_first(t); a != NULL; a = AVL_NEXT(t, a))]. *)
Fixpoint walk_loop (k : nat) (t : avl_tree) (a : Z) (d : bool) : option (list Z) :=
  match k with
  | O => None
  | S k => if a =? 0 then Some [] else
      let* next := avl_walk t a d in let* l := walk_loop k t next d in Some (a :: l)
  end.

Lemma walk_loop_next t T : is_tree t T -> forall l2 l1, flat T = l1 ++ l2 ->
  walk_loop (S (length l2)) t (hd 0 l2) true = Some l2.
Proof.
  intros HT. destruct (it_rep _ _ HT) as [rc Hrep]. induction l2 as [|a l2 IH]; intros l1 Hf; [done|]. cbn [length hd walk_loop].
  destruct (rep_elem _ _ _ _ a Hrep) as [Ha _]; [rewrite Hf, elem_of_app, elem_of_cons; tauto|].
  rewrite (proj2 (Z.eqb_neq _ _)) by auto with avl. rewrite (proj1 (avl_walk_sequence t T l1 a l2 HT Hf)).
  cbn [mbind option_bind]. specialize (IH (l1 ++ [a])). cbn [length walk_loop] in IH. rewrite IH; [done|].
  by rewrite <-app_assoc.
Qed.

Lemma walk_loop_prev t T : is_tree t T -> forall l1 l2, flat T = rev l1 ++ l2 ->
  walk_loop (S (length l1)) t (hd 0 l1) false = Some l1.
Proof.
  intros HT. destruct (it_rep _ _ HT) as [rc Hrep]. induction l1 as [|a l1 IH]; intros l2 Hf; [done|]. cbn [length hd walk_loop].
  cbn [rev] in Hf. rewrite <-app_assoc in Hf. cbn [app] in Hf.
  destruct (rep_elem _ _ _ _ a Hrep) as [Ha _]; [rewrite Hf, elem_of_app, elem_of_cons; tauto|].
  rewrite (proj2 (Z.eqb_neq _ _)) by auto with avl. rewrite (proj2 (avl_walk_sequence t T (rev l1) a l2 HT Hf)), rev_involutive.
  cbn [mbind option_bind]. specialize (IH (a :: l2) Hf). cbn [length walk_loop] in IH. by rewrite IH.
Qed.

(** Traversal.  From [avl_first] with [AVL_NEXT] to NULL one visits the
    objects of the tree in order, each once, and from [avl_last] with
    [AVL_PREV] in the opposite order. *)
Theorem avl_walk_traverses (t : avl_tree) (T : tree) (HT : is_tree t T) :
  (let* a := avl_first t in walk_loop (S (length (flat T))) t a true) = Some (flat T) /\
  (let* a := avl_last t in walk_loop (S (length (flat T))) t a false) = Some (rev (flat T)).
Proof.
  destruct (avl_first_spec t T HT) as [-> ->]. cbn [mbind option_bind]. split.
  - by apply (walk_loop_next t T HT _ []).
  - rewrite <-(length_rev (flat T)). apply (walk_loop_prev t T HT _ []). by rewrite rev_involutive, app_nil_r.
Qed.

(** C27: destruction.  The documented loop over [avl_destroy_nodes] returns
    every object once, children before parents, passes the assertions, reads
    no object after it was freed, and leaves an empty tree that [avl_destroy]
    accepts. *)
Theorem avl_destroy_nodes_complete (t : avl_tree) (T : tree) (HT : is_tree t T) :
  exists l t', destroy_loop (S (length (flat T))) t 0 = Some (l, t') /\ l ≡ₚ flat T /\
    avl_destroy t' = Some tt /\
    (forall a, a ∈ flat T -> heap t' !! a = None) /\ (forall a, (a ∉ flat T) -> heap t' !! a = heap t !! a).
Proof.
  destruct (destroy_loop_all t T HT) as (t' & E & R1 & R2 & R3 & R4). exists (post T), t'.
  split; [done|]. split; [apply post_flat|]. split; [|done]. unfold avl_destroy. by rewrite R1, R2.
Qed.

(** *** A concrete tree *)

Definition by_address (a b : Z) : Z := Z.sgn (a - b).
Definition example_heap : gmap Z avl_node := list_to_map [(8, mk_node 3 3 5); (16, mk_node 3 3 5); (24, mk_node 3 3 5); (32, mk_node 3 3 5)].
Definition example_tree : avl_tree :=
  default (avl_create ∅) (foldM (fun t a => avl_add t (by_address a) a) (avl_create example_heap) [16; 8; 24]).
Definition example_shape : tree := Node (Node Leaf 8 0 Leaf) 16 0 (Node Leaf 24 0 Leaf).

Lemma example_is_tree : is_tree example_tree example_shape.
Proof.
  split.
  - vm_compute. reflexivity.
  - exists false. cbn [rep example_shape]. unfold is_ptr, is_bal.
    repeat match goal with |- _ /\ _ => split | |- True => exact I | |- _ = _ => vm_compute; reflexivity | |- _ => lia end.
  - cbn. repeat constructor; set_solver.
  - vm_compute. reflexivity.
  - cbn. lia.
Qed.

Lemma example_compares a : compares (by_address a) (flat example_shape).
Proof.
  unfold by_address. split; [intros b _; lia|]. cbn [flat example_shape app]. repeat constructor; lia.
Qed.

Lemma avl_find_correct_witness :
  (exists a w, a ∈ flat example_shape /\ by_address 20 a = 0 /\ avl_find example_tree (by_address 20) = Some (a, w)) \/
  (exists l1 l2 w, flat example_shape = l1 ++ l2 /\ Forall (fun a => by_address 20 a = 1) l1 /\ Forall (fun a => by_address 20 a = -1) l2 /\
     avl_find example_tree (by_address 20) = Some (0, w) /\
     avl_nearest example_tree w true = Some (hd 0 l2) /\ avl_nearest example_tree w false = Some (hd 0 (rev l1))).
Proof. exact (avl_find_correct example_tree example_shape (by_address 20) example_is_tree (example_compares 20)). Defined.

Lemma avl_find_logarithmic_witness :
  exists r, find_loop 6 example_tree (by_address 24) (avl_root example_tree) 0 false = Some r /\
    avl_find example_tree (by_address 24) = Some r.
Proof. exact (avl_find_logarithmic example_tree example_shape (by_address 24) example_is_tree (example_compares 24)). Defined.

Lemma avl_add_correct_witness :
  exists t' T', avl_add example_tree (by_address 32) 32 = Some t' /\ is_tree t' T' /\
    flat T' = [8; 16; 24; 32] /\ same_off (32 :: flat example_shape) (heap example_tree) (heap t').
Proof.
  refine (avl_add_correct example_tree example_shape (by_address 32) 32 (mk_node 3 3 5) example_is_tree (example_compares 32) _ _ _ _ _).
  - cbn. repeat constructor; discriminate.
  - split; [reflexivity|lia].
  - vm_compute. reflexivity.
  - cbn. set_solver.
  - vm_compute. reflexivity.
Defined.

Lemma avl_remove_correct_witness :
  exists t' T', avl_remove 40 example_tree 16 = Some t' /\ is_tree t' T' /\ flat T' = [8; 24] /\
    heap t' !! 40 = None /\ forall z, (z ∉ flat example_shape) -> heap t' !! z = heap example_tree !! z.
Proof.
  refine (avl_remove_correct example_tree example_shape [8] [24] 16 40 example_is_tree eq_refl _ _).
  - split; [reflexivity|lia].
  - vm_compute. reflexivity.
Defined.

Lemma avl_walk_traverses_witness :
  (let* a := avl_first example_tree in walk_loop 4 example_tree a true) = Some [8; 16; 24] /\
  (let* a := avl_last example_tree in walk_loop 4 example_tree a false) = Some [24; 16; 8].
Proof. exact (avl_walk_traverses example_tree example_shape example_is_tree). Defined.

Lemma avl_destroy_nodes_complete_witness :
  exists l t', destroy_loop 4 example_tree 0 = Some (l, t') /\ l ≡ₚ [8; 16; 24] /\ avl_destroy t' = Some tt /\
    (forall a, a ∈ flat example_shape -> heap t' !! a = None) /\
    (forall a, (a ∉ flat example_shape) -> heap t' !! a = heap example_tree !! a).
Proof. exact (avl_destroy_nodes_complete example_tree example_shape example_is_tree). Defined.
