(* ===== verification/SpaceMap.v ===== *)
(** * Space maps ([space_map.c])

    A space map is an AVL tree of disjoint segments of free or allocated
    space.  This file holds the data and the operations; the tree is used
    through the interface of AvlSpec.  The segments the tree links live in
    [sm_segs], by address.  [sm_ops] is the block picker's vector, a value of
    a type [V] whose entries [vec] gives; [sm_ppd] is the picker's array. *)
From Stdlib Require Import ZArith Lia.
From stdpp Require Import base numbers list option gmap.
From S2P Require Import Prelude AvlSpec.

(** ** Entries of the on-disk log ([space_map.h]) *)

Definition SM_RUN_DECODE (x : Z) : Z := BF64_DECODE x 0 15 + 1.
Definition SM_RUN_ENCODE (x : Z) : Z := BF64_ENCODE (x - 1) 0 15.
Definition SM_TYPE_DECODE (x : Z) : Z := BF64_DECODE x 15 1.
Definition SM_TYPE_ENCODE (x : Z) : Z := BF64_ENCODE x 15 1.
Definition SM_OFFSET_DECODE (x : Z) : Z := BF64_DECODE x 16 47.
Definition SM_OFFSET_ENCODE (x : Z) : Z := BF64_ENCODE x 16 47.
Definition SM_DEBUG_DECODE (x : Z) : Z := BF64_DECODE x 63 1.
Definition SM_DEBUG_ENCODE (x : Z) : Z := BF64_ENCODE x 63 1.
Definition SM_DEBUG_ACTION_ENCODE (x : Z) : Z := BF64_ENCODE x 60 3.
Definition SM_DEBUG_SYNCPASS_ENCODE (x : Z) : Z := BF64_ENCODE x 50 10.
Definition SM_DEBUG_TXG_ENCODE (x : Z) : Z := BF64_ENCODE x 0 50.
Definition SM_RUN_MAX : Z := SM_RUN_DECODE (2 ^ 64 - 1).
Definition SM_ALLOC : Z := 0.
Definition SM_FREE : Z := 1.
Definition SPACE_MAP_BLOCKSHIFT : Z := 12.

(** ** Data *)

Record space_seg := mk_seg { ss_start : Z; ss_end : Z }.

Record space_map_obj := mk_smo { smo_object : Z; smo_objsize : Z; smo_alloc : Z }.

Record space_map {T V : Type} := mk_sm {
  sm_root : T;                   (* AVL tree of map segments *)
  sm_segs : gmap Z space_seg;    (* the segments, by address *)
  sm_space : Z;                  (* sum of all segments in the map *)
  sm_start : Z;
  sm_size : Z;
  sm_shift : Z;
  sm_loaded : bool;
  sm_loading : bool;
  sm_ops : option V;
  sm_ppd : list Z
}.
Arguments space_map : clear implicits.
Arguments mk_sm {T V}.

(** [struct space_map_ops]. *)
Record space_map_ops {T V : Type} := mk_ops {
  smop_load : space_map T V -> option (space_map T V);
  smop_unload : space_map T V -> option (space_map T V);
  smop_alloc : space_map T V -> Z -> option (space_map T V * Z);
  smop_claim : space_map T V -> Z -> Z -> option (space_map T V);
  smop_free : space_map T V -> Z -> Z -> option (space_map T V)
}.
Arguments space_map_ops : clear implicits.

Definition space_map_seg_compare (s1 s2 : space_seg) : Z :=
  if ss_start s1 <? ss_start s2 then
    if ss_start s2 <? ss_end s1 then 0 else -1
  else if ss_start s2 <? ss_start s1 then
    if ss_start s1 <? ss_end s2 then 0 else 1
  else 0.

Section space_map.
Context {T V : Type} `{AvlIface T} (zfs_recover : bool) (vec : V -> space_map_ops T V).
Abbreviation space_map := (space_map T V).

Definition with_tree (sm : space_map) (root : T) (segs : gmap Z space_seg) : space_map :=
  mk_sm root segs (sm_space sm) (sm_start sm) (sm_size sm) (sm_shift sm) (sm_loaded sm) (sm_loading sm) (sm_ops sm) (sm_ppd sm).
Definition with_space (sm : space_map) (space : Z) : space_map :=
  mk_sm (sm_root sm) (sm_segs sm) space (sm_start sm) (sm_size sm) (sm_shift sm) (sm_loaded sm) (sm_loading sm) (sm_ops sm) (sm_ppd sm).
Definition with_load (sm : space_map) (loaded loading : bool) (ops : option V) : space_map :=
  mk_sm (sm_root sm) (sm_segs sm) (sm_space sm) (sm_start sm) (sm_size sm) (sm_shift sm) loaded loading ops (sm_ppd sm).
Definition with_ppd (sm : space_map) (ppd : list Z) : space_map :=
  mk_sm (sm_root sm) (sm_segs sm) (sm_space sm) (sm_start sm) (sm_size sm) (sm_shift sm) (sm_loaded sm) (sm_loading sm) (sm_ops sm) ppd.

(** [zfs_panic_recover]: a warning when [zfs_recover] is set, else a panic. *)
Definition zfs_panic_recover (sm : space_map) : option space_map := if zfs_recover then Some sm else None.

(** The comparison [avl_find] makes of [search] with an object of the tree. *)
Definition seg_compar (segs : gmap Z space_seg) (search : space_seg) (a : Z) : Z :=
  match segs !! a with Some s => space_map_seg_compare search s | None => 2 end.

(** Assignments to the fields of a segment in the tree. *)
Definition set_seg (sm : space_map) (a : Z) (f : space_seg -> space_seg) : option space_map :=
  let* s := sm_segs sm !! a in Some (with_tree sm (sm_root sm) (<[a := f s]> (sm_segs sm))).
Definition set_start (v : Z) (s : space_seg) : space_seg := mk_seg v (ss_end s).
Definition set_end (v : Z) (s : space_seg) : space_seg := mk_seg (ss_start s) v.

Definition kmem_alloc_seg (sm : space_map) (s : space_seg) : Z * space_map :=
  let '(a, root) := os_alloc (sm_root sm) in (a, with_tree sm root (<[a := s]> (sm_segs sm))).
Definition kmem_free_seg (sm : space_map) (a : Z) : space_map :=
  with_tree sm (os_free (sm_root sm) a) (delete a (sm_segs sm)).
Definition with_root (sm : space_map) (root : T) : space_map := with_tree sm root (sm_segs sm).

(** ** Operations *)

(** [root] is the tree [avl_create] makes. *)
Definition space_map_create (root : T) (start size shift : Z) : space_map :=
  mk_sm root ∅ 0 start size shift false false None [].

Definition space_map_destroy (sm : space_map) : option unit :=
  VERIFY negb (sm_loaded sm) && negb (sm_loading sm) in
  VERIFY sm_space sm =? 0 in
  VERIFY os_numnodes (sm_root sm) =? 0 in Some tt.

(** The end of [space_map_add], from the search that found nothing. *)
Definition space_map_add_at (sm : space_map) (start end_ where_ : Z) : option space_map :=
  let* ss_before := os_nearest (sm_root sm) where_ false in
  let* ss_after := os_nearest (sm_root sm) where_ true in
  let* merge_before :=
    if ss_before =? 0 then Some false else let* s := sm_segs sm !! ss_before in Some (ss_end s =? start) in
  let* merge_after :=
    if ss_after =? 0 then Some false else let* s := sm_segs sm !! ss_after in Some (ss_start s =? end_) in
  if merge_before && merge_after then
    let* root := os_remove (sm_root sm) ss_before in
    let sm := with_root sm root in
    let* b := sm_segs sm !! ss_before in
    let* sm := set_seg sm ss_after (set_start (ss_start b)) in
    Some (kmem_free_seg sm ss_before)
  else if merge_before then set_seg sm ss_before (set_end end_)
  else if merge_after then set_seg sm ss_after (set_start start)
  else
    let '(ss, sm) := kmem_alloc_seg sm (mk_seg start end_) in
    let* root := os_insert (sm_root sm) ss where_ in
    Some (with_root sm root).

Definition space_map_add (sm : space_map) (start size : Z) : option space_map :=
  let end_ := u64 (start + size) in
  VERIFY negb (size =? 0) in
  VERIFY sm_start sm <=? start in
  VERIFY end_ <=? u64 (sm_start sm + sm_size sm) in
  VERIFY u64 (sm_space sm + size) <=? sm_size sm in
  VERIFY P2PHASE start (u64 (Z.shiftl 1 (sm_shift sm))) =? 0 in
  VERIFY P2PHASE size (u64 (Z.shiftl 1 (sm_shift sm))) =? 0 in
  let* (ss, where_) := os_find (sm_root sm) (seg_compar (sm_segs sm) (mk_seg start end_)) in
  if negb (ss =? 0) then
    let* s := sm_segs sm !! ss in
    VERIFY (ss_start s <=? start) && (end_ <=? ss_end s) in zfs_panic_recover sm
  else
    let* sm := space_map_add_at sm start end_ where_ in
    Some (with_space sm (u64 (sm_space sm + size))).

Definition space_map_remove (sm : space_map) (start size : Z) : option space_map :=
  let end_ := u64 (start + size) in
  VERIFY negb (size =? 0) in
  VERIFY P2PHASE start (u64 (Z.shiftl 1 (sm_shift sm))) =? 0 in
  VERIFY P2PHASE size (u64 (Z.shiftl 1 (sm_shift sm))) =? 0 in
  let* (ss, where_) := os_find (sm_root sm) (seg_compar (sm_segs sm) (mk_seg start end_)) in
  if ss =? 0 then zfs_panic_recover sm
  else
    let* s := sm_segs sm !! ss in
    VERIFY ss_start s <=? start in
    VERIFY end_ <=? ss_end s in
    VERIFY u64 (sm_space sm - size) <=? sm_size sm in
    let left_over := negb (ss_start s =? start) in
    let right_over := negb (ss_end s =? end_) in
    let* sm :=
      if left_over && right_over then
        let '(newseg, sm) := kmem_alloc_seg sm (mk_seg end_ (ss_end s)) in
        let* sm := set_seg sm ss (set_end start) in
        let* root := os_insert_here (sm_root sm) newseg ss true in
        Some (with_root sm root)
      else if left_over then set_seg sm ss (set_end start)
      else if right_over then set_seg sm ss (set_start end_)
      else
        let* root := os_remove (sm_root sm) ss in
        Some (kmem_free_seg (with_root sm root) ss) in
    Some (with_space sm (u64 (sm_space sm - size))).

Definition space_map_contains (sm : space_map) (start size : Z) : option bool :=
  let end_ := u64 (start + size) in
  VERIFY negb (size =? 0) in
  VERIFY P2PHASE start (u64 (Z.shiftl 1 (sm_shift sm))) =? 0 in
  VERIFY P2PHASE size (u64 (Z.shiftl 1 (sm_shift sm))) =? 0 in
  let* (ss, where_) := os_find (sm_root sm) (seg_compar (sm_segs sm) (mk_seg start end_)) in
  if ss =? 0 then Some false
  else let* s := sm_segs sm !! ss in Some ((ss_start s <=? start) && (end_ <=? ss_end s)).

(** [while ((ss = avl_destroy_nodes(...)) != NULL)], with [func] applied to a
    destination of any type. *)
Fixpoint vacate_loop {D} (func : D -> Z -> Z -> option D) (k : nat) (sm : space_map) (d : D) (cookie : Z) :
    option (space_map * D) :=
  match k with
  | O => None
  | S k =>
      let* (root, ss, cookie) := os_destroy_nodes (sm_root sm) cookie in
      if ss =? 0 then Some (with_root sm root, d)
      else
        let sm := with_root sm root in
        let* s := sm_segs sm !! ss in
        let* d := func d (ss_start s) (u64 (ss_end s - ss_start s)) in
        vacate_loop func k (kmem_free_seg sm ss) d cookie
  end.

(** The loop goes once over the nodes and once more to find there are none. *)
Definition nodes_fuel (sm : space_map) : nat := S (Z.to_nat (os_numnodes (sm_root sm))).

Definition space_map_vacate {D} (func : D -> Z -> Z -> option D) (sm : space_map) (mdest : D) : option (space_map * D) :=
  let* (sm, d) := vacate_loop func (nodes_fuel sm) sm mdest 0 in
  Some (with_space sm 0, d).

Fixpoint walk_segs {D} (func : D -> Z -> Z -> option D) (k : nat) (sm : space_map) (ss : Z) (d : D) : option D :=
  match k with
  | O => None
  | S k =>
      if ss =? 0 then Some d
      else
        let* s := sm_segs sm !! ss in
        let* d := func d (ss_start s) (u64 (ss_end s - ss_start s)) in
        let* ss := os_walk (sm_root sm) ss true in
        walk_segs func k sm ss d
  end.

Definition space_map_walk {D} (func : D -> Z -> Z -> option D) (sm : space_map) (mdest : D) : option D :=
  let* ss := os_first (sm_root sm) in walk_segs func (nodes_fuel sm) sm ss mdest.

(** Every round removes one segment's part of the range. *)
Fixpoint excise_loop (k : nat) (sm : space_map) (start end_ : Z) : option space_map :=
  match k with
  | O => None
  | S k =>
      let* (ss, where_) := os_find (sm_root sm) (seg_compar (sm_segs sm) (mk_seg start start)) in
      let* ss := if ss =? 0 then os_nearest (sm_root sm) where_ true else Some ss in
      if ss =? 0 then Some sm
      else
        let* s := sm_segs sm !! ss in
        if end_ <=? ss_start s then Some sm
        else
          let rm_start := Z.max (ss_start s) start in
          let rm_end := Z.min (ss_end s) end_ in
          let* sm := space_map_remove sm rm_start (u64 (rm_end - rm_start)) in
          excise_loop k sm start end_
  end.

Definition space_map_excise (sm : space_map) (start size : Z) : option space_map :=
  excise_loop (nodes_fuel sm) sm start (u64 (start + size)).

(** Replace [smd] with the union of [smd] and [sms]. *)
Definition space_map_union (smd sms : space_map) : option space_map :=
  space_map_walk (fun smd start size =>
    let* smd := space_map_excise smd start size in space_map_add smd start size) sms smd.
End space_map.
