(* ===== verification/SpaceMapProof.v ===== *)
(** * Space maps: the set they stand for

    A space map with segments [L] stands for the set of offsets [covers L].
    The invariant [sm_wf] says that the tree holds the segments in order, that
    they are aligned, within the map, and separated by gaps, and that
    [sm_space] is their total.  Every operation keeps it and acts on the set
    as it should.  All of this is proved from the laws of the AVL interface. *)
From Stdlib Require Import ZArith Lia Sorted.
From stdpp Require Import base numbers list option gmap.
From S2P Require Import Prelude AvlOps AvlSpec SpaceMap.

(** ** Lists of segments *)

Definition covers (L : list space_seg) (o : Z) : Prop := Exists (fun s => ss_start s <= o < ss_end s) L.
Definition total (L : list space_seg) : Z := foldr (fun s n => ss_end s - ss_start s + n) 0 L.

(** Non-empty segments in order, each strictly above the end of the one
    before; the first above [lo]. *)
Fixpoint chain (lo : Z) (L : list space_seg) : Prop :=
  match L with
  | [] => True
  | s :: L => lo < ss_start s < ss_end s /\ chain (ss_end s) L
  end.
Definition last_end (lo : Z) (L : list space_seg) : Z := foldl (fun _ s => ss_end s) lo L.

Definition seg_aligned (sh : Z) (s : space_seg) : Prop := ss_start s mod 2 ^ sh = 0 /\ ss_end s mod 2 ^ sh = 0.

(** Segments of a map from [lo] to [hi]. *)
Record segs_wf (lo hi sh : Z) (L : list space_seg) : Prop := {
  sw_chain : chain (lo - 1) L;
  sw_last : last_end (lo - 1) L <= hi;
  sw_aligned : Forall (seg_aligned sh) L
}.

Lemma chain_app A : forall lo B, chain lo (A ++ B) <-> chain lo A /\ chain (last_end lo A) B.
Proof.
  induction A as [|s A IH]; intros lo B; cbn [app chain last_end foldl]; [tauto|].
  rewrite IH. unfold last_end. tauto.
Qed.
Lemma last_end_app A B lo : last_end lo (A ++ B) = last_end (last_end lo A) B.
Proof. apply foldl_app. Qed.
Lemma covers_app A B o : covers (A ++ B) o <-> covers A o \/ covers B o.
Proof. apply Exists_app. Qed.
Lemma covers_cons s L o : covers (s :: L) o <-> ss_start s <= o < ss_end s \/ covers L o.
Proof. apply Exists_cons. Qed.
Lemma covers_nil o : covers [] o <-> False.
Proof. apply Exists_nil. Qed.
Lemma total_app A B : total (A ++ B) = total A + total B.
Proof. unfold total. induction A as [|s A IH]; cbn [app foldr]; [done|]. rewrite IH. lia. Qed.
Lemma total_cons s L : total (s :: L) = ss_end s - ss_start s + total L.
Proof. done. Qed.

Lemma chain_last lo L : chain lo L -> total L <= last_end lo L - lo /\ lo <= last_end lo L /\ 0 <= total L.
Proof.
  revert lo. induction L as [|s L IH]; intros lo; cbn [chain last_end foldl total foldr]; [lia|].
  intros [H1 H2]. specialize (IH _ H2). unfold last_end, total in IH. lia.
Qed.

Lemma chain_bounds lo L s : chain lo L -> s ∈ L -> lo < ss_start s < ss_end s /\ ss_end s <= last_end lo L.
Proof.
  revert lo. induction L as [|x L IH]; intros lo; [by intros _ ?%elem_of_nil|]. cbn [chain last_end foldl].
  intros [H1 H2] [->|Hs]%elem_of_cons.
  - pose proof (chain_last _ _ H2) as (_ & ? & _). unfold last_end in *. lia.
  - destruct (IH _ H2 Hs). unfold last_end in *. lia.
Qed.

Lemma chain_sorted lo L : chain lo L -> StronglySorted (fun x y => ss_end x < ss_start y) L.
Proof.
  revert lo. induction L as [|x L IH]; intros lo; cbn [chain]; [constructor|]. intros [H1 H2].
  constructor; [by eapply IH|]. apply Forall_forall. intros y Hy. by destruct (chain_bounds _ _ _ H2 Hy) as [[? _] _].
Qed.

(** Segments take up whole units, so there are few of them. *)
Lemma total_count sh lo L : 0 <= sh -> chain lo L -> Forall (seg_aligned sh) L -> Z.of_nat (length L) * 2 ^ sh <= total L.
Proof.
  intros Hsh. revert lo. induction L as [|s L IH]; intros lo; cbn [chain length]; [cbn; lia|].
  intros [H1 H2] [[Ha Hb] Hl]%Forall_cons. specialize (IH _ H2 Hl). rewrite total_cons.
  assert (2 ^ sh <= ss_end s - ss_start s); [|lia]. assert (0 < 2 ^ sh) by (apply Z.pow_pos_nonneg; lia).
  apply Z.mod_divide in Ha as [a Ha]; [|lia]. apply Z.mod_divide in Hb as [b Hb]; [|lia].
  rewrite Ha, Hb in *. assert (a < b) by (apply (Zmult_lt_reg_r _ _ (2 ^ sh)); lia). nia.
Qed.

Lemma segs_total lo hi sh L : segs_wf lo hi sh L -> lo <= hi -> 0 <= total L <= hi - lo.
Proof.
  intros [W1 W2 _] Hlo. destruct L as [|x L]; [cbn; lia|]. destruct W1 as [Hx HxL].
  pose proof (chain_last _ _ HxL) as (Hb & _ & Hn). cbn [last_end foldl] in W2. unfold last_end in Hb. rewrite total_cons. lia.
Qed.

(** A covered interval lies in one segment. *)
Lemma covers_interval lo L s e : chain lo L -> s < e -> (forall o, s <= o < e -> covers L o) ->
  exists x, x ∈ L /\ ss_start x <= s /\ e <= ss_end x.
Proof.
  revert lo. induction L as [|x L IH]; intros lo Hc Hse Hcov.
  { specialize (Hcov s). rewrite covers_nil in Hcov. lia. }
  destruct Hc as [H1 H2]. setoid_rewrite covers_cons in Hcov.
  assert (forall o, covers L o -> ss_end x < o) as Hafter.
  { intros o (y & Hy & Ho)%Exists_exists. destruct (chain_bounds _ _ _ H2 Hy). lia. }
  destruct (Z.lt_ge_cases s (ss_end x)) as [Hlt|Hge].
  - exists x. split; [by left|]. destruct (Hcov s) as [?|?%Hafter]; [lia| |lia]. split; [lia|].
    destruct (Z.le_gt_cases e (ss_end x)); [done|]. destruct (Hcov (ss_end x)) as [?|?%Hafter]; lia.
  - destruct (IH _ H2 Hse) as (y & Hy & ?); [|exists y; split; [by right|done]].
    intros o Ho. destruct (Hcov o Ho); [lia|done].
Qed.

(** Two segments of a map that share an offset are the same. *)
Lemma chain_overlap lo A x B o : chain lo (A ++ x :: B) -> ss_start x <= o < ss_end x -> ~ covers A o /\ ~ covers B o.
Proof.
  intros [HA [Hx HB]]%chain_app Ho. split; intros (y & Hy & Hyo)%Exists_exists.
  - destruct (chain_bounds _ _ _ HA Hy). lia.
  - destruct (chain_bounds _ _ _ HB Hy). lia.
Qed.

(** ** Comparison *)

Lemma seg_compare_spec s e x : s <= e -> ss_start x < ss_end x ->
  (space_map_seg_compare (mk_seg s e) x = 1 /\ ss_end x <= s) \/
  (space_map_seg_compare (mk_seg s e) x = -1 /\ e <= ss_start x /\ s < ss_start x) \/
  (space_map_seg_compare (mk_seg s e) x = 0 /\ s < ss_end x /\ (ss_start x < e \/ ss_start x = s)).
Proof.
  intros Hse Hx. unfold space_map_seg_compare. cbn [ss_start ss_end].
  destruct (Z.ltb_spec s (ss_start x)), (Z.ltb_spec (ss_start x) e), (Z.ltb_spec (ss_start x) s), (Z.ltb_spec s (ss_end x)); lia.
Qed.

(** ** Representation *)

Section space_map.
Context {T V : Type} `{HI : AvlIface T} {cap : nat} {HL : AvlLaws T cap} (zfs_recover : bool).
Implicit Types (sm : space_map T V) (L : list space_seg).

Definition seg_at (segs : gmap Z space_seg) (a : Z) (s : space_seg) : Prop := segs !! a = Some s.

Definition sm_rep sm L : Prop :=
  exists l, os_abs (sm_root sm) l /\ Forall2 (seg_at (sm_segs sm)) l L.

(** The geometry of the map, which no operation changes. *)
Record sm_geom sm : Prop := {
  sg_start : 0 <= sm_start sm;
  sg_size : 0 <= sm_size sm;
  sg_end : sm_start sm + sm_size sm < 2 ^ 64;
  sg_shift : 0 <= sm_shift sm < 64;
  sg_cap : Z.shiftr (sm_size sm) (sm_shift sm) < Z.of_nat cap
}.

Record sm_wf sm L : Prop := {
  sf_geom : sm_geom sm;
  sf_rep : sm_rep sm L;
  sf_segs : segs_wf (sm_start sm) (sm_start sm + sm_size sm) (sm_shift sm) L;
  sf_space : sm_space sm = total L
}.

(** Nothing but the tree and the space changed. *)
Definition same_map sm sm' : Prop :=
  sm_start sm' = sm_start sm /\ sm_size sm' = sm_size sm /\ sm_shift sm' = sm_shift sm /\
  sm_loaded sm' = sm_loaded sm /\ sm_loading sm' = sm_loading sm /\ sm_ops sm' = sm_ops sm /\ sm_ppd sm' = sm_ppd sm.

Lemma same_map_refl sm : same_map sm sm.
Proof. done. Qed.
Lemma same_map_trans sm1 sm2 sm3 : same_map sm1 sm2 -> same_map sm2 sm3 -> same_map sm1 sm3.
Proof. unfold same_map. intuition congruence. Qed.
Lemma geom_same sm sm' : sm_geom sm -> same_map sm sm' -> sm_geom sm'.
Proof. intros [? ? ? ? ?] (E1 & E2 & E3 & _). split; rewrite ?E1, ?E2, ?E3; done. Qed.

(** Loading keeps the geometry alone. *)
Definition same_geom sm sm' : Prop :=
  sm_start sm' = sm_start sm /\ sm_size sm' = sm_size sm /\ sm_shift sm' = sm_shift sm.
Lemma same_geom_trans sm1 sm2 sm3 : same_geom sm1 sm2 -> same_geom sm2 sm3 -> same_geom sm1 sm3.
Proof. unfold same_geom. intuition congruence. Qed.
Lemma same_map_geom sm sm' : same_map sm sm' -> same_geom sm sm'.
Proof. unfold same_map, same_geom. tauto. Qed.

(** There is always room for one more segment. *)
Lemma sm_room sm L l : sm_geom sm -> segs_wf (sm_start sm) (sm_start sm + sm_size sm) (sm_shift sm) L ->
  Forall2 (seg_at (sm_segs sm)) l L -> (length l < cap)%nat.
Proof.
  intros [H1 H2 H3 H4 H5] Hwf Hl. apply Forall2_length in Hl. rewrite Hl.
  pose proof (segs_total _ _ _ _ Hwf ltac:(lia)) as Ht. destruct Hwf as [W1 W2 W3].
  pose proof (total_count (sm_shift sm) _ L ltac:(lia) W1 W3).
  rewrite Z.shiftr_div_pow2 in H5 by lia. assert (0 < 2 ^ sm_shift sm) by (apply Z.pow_pos_nonneg; lia).
  assert (Z.of_nat (length L) <= sm_size sm / 2 ^ sm_shift sm); [|lia].
  apply Z.div_le_lower_bound; [done|]. lia.
Qed.

Lemma seg_at_insert segs a s l L : (a ∉ l) -> Forall2 (seg_at segs) l L -> Forall2 (seg_at (<[a := s]> segs)) l L.
Proof.
  intros Ha Hl. induction Hl as [|b x l L Hb Hl IH]; [constructor|]. rewrite not_elem_of_cons in Ha.
  constructor; [|apply IH; tauto]. unfold seg_at. rewrite lookup_insert_ne by (intros ->; tauto). done.
Qed.
Lemma seg_at_delete segs a l L : (a ∉ l) -> Forall2 (seg_at segs) l L -> Forall2 (seg_at (delete a segs)) l L.
Proof.
  intros Ha Hl. induction Hl as [|b x l L Hb Hl IH]; [constructor|]. rewrite not_elem_of_cons in Ha.
  constructor; [|apply IH; tauto]. unfold seg_at. rewrite lookup_delete_ne by (intros ->; tauto). done.
Qed.

(** ** Searching *)

Lemma seg_at_elem segs l L a : Forall2 (seg_at segs) l L -> a ∈ l -> exists s, segs !! a = Some s /\ s ∈ L.
Proof.
  intros Hl. induction Hl as [|b x l L Hb Hl IH]; [by intros ?%elem_of_nil|]. intros [->|Ha]%elem_of_cons.
  - exists x. split; [done|by left].
  - destruct (IH Ha) as (s & Hs & Hin). exists s. split; [done|by right].
Qed.

Lemma seg_at_elem_r segs l L x : Forall2 (seg_at segs) l L -> x ∈ L -> exists a, a ∈ l /\ segs !! a = Some x.
Proof.
  intros Hl. induction Hl as [|b y l L Hb Hl IH]; [by intros ?%elem_of_nil|]. intros [->|Ha]%elem_of_cons.
  - exists b. split; [by left|done].
  - destruct (IH Ha) as (a & Hs & Hin). exists a. split; [by right|done].
Qed.

Lemma seg_compares segs lo l L s e :
  chain lo L -> Forall2 (seg_at segs) l L -> s <= e -> compares (seg_compar segs (mk_seg s e)) l.
Proof.
  intros Hc Hl Hse. split.
  - intros a Ha. destruct (seg_at_elem _ _ _ _ Hl Ha) as (x & Hx & Hin). unfold seg_compar. rewrite Hx.
    destruct (chain_bounds _ _ _ Hc Hin) as [? _]. destruct (seg_compare_spec s e x Hse); lia.
  - revert lo Hc. induction Hl as [|b x l L Hb Hl IH]; intros lo Hc; [constructor|]. destruct Hc as [H1 H2].
    constructor; [by eapply IH|]. apply Forall_forall. intros a Ha.
    destruct (seg_at_elem _ _ _ _ Hl Ha) as (y & Hy & Hin). destruct (chain_bounds _ _ _ H2 Hin) as [? _].
    unfold seg_compar. rewrite Hy, (Hb : segs !! b = Some x).
    destruct (seg_compare_spec s e x Hse) as [?|[?|?]]; [lia|..]; destruct (seg_compare_spec s e y Hse) as [?|[?|?]]; lia.
Qed.

(** What [avl_find] tells about the segments. *)
Lemma find_segs sm L l s e :
  os_abs (sm_root sm) l -> Forall2 (seg_at (sm_segs sm)) l L -> chain (sm_start sm - 1) L -> s <= e ->
  (exists a w la lb A x B, os_find (sm_root sm) (seg_compar (sm_segs sm) (mk_seg s e)) = Some (a, w) /\ a <> 0 /\
     l = la ++ a :: lb /\ L = A ++ x :: B /\ Forall2 (seg_at (sm_segs sm)) la A /\ Forall2 (seg_at (sm_segs sm)) lb B /\
     sm_segs sm !! a = Some x /\ s < ss_end x /\ (ss_start x < e \/ ss_start x = s)) \/
  (exists w la lb A B, os_find (sm_root sm) (seg_compar (sm_segs sm) (mk_seg s e)) = Some (0, w) /\
     os_hole (sm_root sm) la lb w /\
     l = la ++ lb /\ L = A ++ B /\ Forall2 (seg_at (sm_segs sm)) la A /\ Forall2 (seg_at (sm_segs sm)) lb B /\
     (forall x, x ∈ A -> ss_end x <= s) /\ (forall x, x ∈ B -> e <= ss_start x /\ s < ss_start x)).
Proof using HL.
  intros Habs Hl Hc Hse. pose proof (seg_compares _ _ _ _ s e Hc Hl Hse) as Hcmp.
  destruct (abs_objects _ _ Habs) as [Hnd Hnz].
  destruct (find_law _ _ _ Habs Hcmp) as [(a & w & Ha & Hf & E)|(l1 & l2 & w & -> & H1 & H2 & E & Hhole)].
  - left. apply list_elem_of_split in Ha as (la & lb & ->).
    apply Forall2_app_inv_l in Hl as (A & B' & HA & HB & ->). apply Forall2_cons_inv_l in HB as (x & B & Hx & HB & ->).
    exists a, w, la, lb, A, x, B. split; [done|]. split; [apply Hnz; rewrite elem_of_app, elem_of_cons; tauto|].
    repeat (split; [done|]). unfold seg_compar in Hf. rewrite (Hx : sm_segs sm !! a = Some x) in Hf.
    apply chain_app in Hc as [_ [Hxx _]]. destruct (seg_compare_spec s e x Hse); lia.
  - right. apply Forall2_app_inv_l in Hl as (A & B & HA & HB & ->). apply chain_app in Hc as [HcA HcB].
    exists w, l1, l2, A, B. repeat (split; [done|]). split.
    + intros x Hx. destruct (seg_at_elem_r _ _ _ _ HA Hx) as (a & Ha & Hax).
      specialize (H1 a Ha). unfold seg_compar in H1. rewrite Hax in H1. destruct (chain_bounds _ _ _ HcA Hx).
      destruct (seg_compare_spec s e x Hse); lia.
    + intros x Hx. destruct (seg_at_elem_r _ _ _ _ HB Hx) as (a & Ha & Hax).
      specialize (H2 a Ha). unfold seg_compar in H2. rewrite Hax in H2. destruct (chain_bounds _ _ _ HcB Hx).
      destruct (seg_compare_spec s e x Hse); lia.
Qed.

(** ** Adding *)

Lemma last_end_le lo lo' B hi : lo' <= hi -> last_end lo B <= hi -> last_end lo' B <= hi.
Proof. by destruct B. Qed.

(** Replacing the segments between [A] and [B] by one. *)
Lemma segs_wf_middle lo hi sh A B x :
  chain (lo - 1) A -> last_end (lo - 1) A < ss_start x -> ss_start x < ss_end x -> chain (ss_end x) B ->
  last_end (ss_end x) B <= hi -> Forall (seg_aligned sh) A -> Forall (seg_aligned sh) B -> seg_aligned sh x ->
  segs_wf lo hi sh (A ++ x :: B).
Proof.
  intros HA Hx1 Hx2 HB Hl FA FB Fx. split.
  - apply chain_app. split; [done|]. by split.
  - by rewrite last_end_app.
  - apply Forall_app. split; [done|]. by constructor.
Qed.

Lemma merge_before_cases sm la lb A s (r : T) :
  os_abs (sm_root sm) (la ++ lb) -> Forall2 (seg_at (sm_segs sm)) la A -> chain (sm_start sm - 1) A ->
  (forall x, x ∈ A -> ss_end x <= s) -> sm_start sm <= s ->
  (exists mb, (if hd 0 (rev la) =? 0 then Some false
     else let* x := sm_segs sm !! hd 0 (rev la) in Some (ss_end x =? s)) = Some mb /\
   if mb then exists la' a A' b, la = la' ++ [a] /\ A = A' ++ [b] /\ Forall2 (seg_at (sm_segs sm)) la' A' /\
     sm_segs sm !! a = Some b /\ ss_end b = s
   else last_end (sm_start sm - 1) A < s).
Proof using HL.
  intros Habs HF Hc Hle Hs. destruct (abs_objects _ _ Habs) as [_ Hnz].
  destruct la as [|a la' _] using rev_ind.
  - apply Forall2_nil_inv_l in HF as ->. exists false. cbn. split; [done|]. lia.
  - apply Forall2_app_inv_l in HF as (A' & B' & HA & HB & ->). apply Forall2_cons_inv_l in HB as (b & B & Hb & HB & ->).
    apply Forall2_nil_inv_l in HB as ->. rewrite rev_app_distr. cbn [rev app hd].
    rewrite (proj2 (Z.eqb_neq _ _)) by (apply Hnz; rewrite !elem_of_app, list_elem_of_singleton; tauto).
    rewrite (Hb : sm_segs sm !! a = Some b). cbn [mbind option_bind]. eexists. split; [done|].
    destruct (Z.eqb_spec (ss_end b) s) as [E|E].
    + by exists la', a, A', b.
    + rewrite last_end_app. cbn. assert (ss_end b <= s); [|lia]. apply Hle. rewrite elem_of_app, list_elem_of_singleton. tauto.
Qed.

Lemma merge_after_cases sm la lb B lo e :
  os_abs (sm_root sm) (la ++ lb) -> Forall2 (seg_at (sm_segs sm)) lb B -> chain lo B ->
  (forall x, x ∈ B -> e <= ss_start x) ->
  (exists ma, (if hd 0 lb =? 0 then Some false
     else let* x := sm_segs sm !! hd 0 lb in Some (ss_start x =? e)) = Some ma /\
   if ma then exists lb' a B' c, lb = a :: lb' /\ B = c :: B' /\ Forall2 (seg_at (sm_segs sm)) lb' B' /\
     sm_segs sm !! a = Some c /\ ss_start c = e
   else chain e B).
Proof using HL.
  intros Habs HF Hc Hle. destruct (abs_objects _ _ Habs) as [_ Hnz]. destruct lb as [|a lb'].
  - apply Forall2_nil_inv_l in HF as ->. by exists false.
  - apply Forall2_cons_inv_l in HF as (c & B' & Hx & HB & ->). cbn [hd].
    rewrite (proj2 (Z.eqb_neq _ _)) by (apply Hnz; rewrite elem_of_app, elem_of_cons; tauto).
    rewrite (Hx : sm_segs sm !! a = Some c). cbn [mbind option_bind]. eexists. split; [done|].
    destruct (Z.eqb_spec (ss_start c) e) as [E|E].
    + by exists lb', a, B', c.
    + destruct Hc as [H1 H2]. split; [|done]. assert (e <= ss_start c); [|lia]. apply Hle. by left.
Qed.

Lemma set_seg_rep sm la a lb A x B f :
  os_abs (sm_root sm) (la ++ a :: lb) -> Forall2 (seg_at (sm_segs sm)) la A -> Forall2 (seg_at (sm_segs sm)) lb B ->
  sm_segs sm !! a = Some x ->
  exists sm', set_seg sm a f = Some sm' /\ sm_rep sm' (A ++ f x :: B) /\ same_map sm sm' /\ sm_space sm' = sm_space sm.
Proof using HL.
  intros Habs HA HB Hx. destruct (abs_objects _ _ Habs) as [Hnd _]. apply NoDup_app in Hnd as (N1 & N2 & [N3 N4]%NoDup_cons).
  unfold set_seg. rewrite Hx. cbn [mbind option_bind]. eexists. split; [done|]. split; [|done].
  exists (la ++ a :: lb). split; [done|]. cbn [sm_segs with_tree]. apply Forall2_app.
  - apply seg_at_insert; [|done]. intros Hin. eapply N2; [done|by left].
  - constructor; [apply lookup_insert_eq|]. by apply seg_at_insert.
Qed.

Lemma add_at_spec sm la lb A B w s e :
  sm_geom sm -> os_abs (sm_root sm) (la ++ lb) -> os_hole (sm_root sm) la lb w ->
  Forall2 (seg_at (sm_segs sm)) la A -> Forall2 (seg_at (sm_segs sm)) lb B ->
  segs_wf (sm_start sm) (sm_start sm + sm_size sm) (sm_shift sm) (A ++ B) ->
  (forall x, x ∈ A -> ss_end x <= s) -> (forall x, x ∈ B -> e <= ss_start x) ->
  s < e -> sm_start sm <= s -> e <= sm_start sm + sm_size sm -> seg_aligned (sm_shift sm) (mk_seg s e) ->
  exists sm' L', space_map_add_at sm s e w = Some sm' /\ sm_rep sm' L' /\
    segs_wf (sm_start sm) (sm_start sm + sm_size sm) (sm_shift sm) L' /\
    (forall o, covers L' o <-> covers (A ++ B) o \/ s <= o < e) /\ total L' = total (A ++ B) + (e - s) /\
    same_map sm sm' /\ sm_space sm' = sm_space sm.
Proof using HL.
  intros Hg Habs Hhole HA HB Hwf HAe HBs Hse Hs He Hal.
  pose proof Hwf as [Hc Hl Hf]. apply chain_app in Hc as [HcA HcB]. rewrite last_end_app in Hl.
  apply Forall_app in Hf as [FA FB]. destruct Hal as [Hs0 He0]. cbn [ss_start ss_end] in *.
  unfold space_map_add_at. destruct (nearest_law _ _ _ _ Hhole) as [-> ->]. cbn [mbind option_bind].
  destruct (merge_before_cases sm la lb A s (sm_root sm) Habs HA HcA HAe Hs) as (mb & -> & Hmb). cbn [mbind option_bind].
  destruct (merge_after_cases sm la lb B _ e Habs HB HcB HBs) as (ma & -> & Hma). cbn [mbind option_bind].
  destruct mb, ma; cbn [andb].
  - (* both *)
    destruct Hmb as (la' & a & A' & b & -> & -> & HA' & Ha & Hbe), Hma as (lb' & a2 & B' & c & -> & -> & HB' & Ha2 & Hcs).
    rewrite rev_app_distr. cbn [rev app hd]. rewrite <-app_assoc in Habs. cbn [app] in Habs.
    destruct (abs_objects _ _ Habs) as [Hnd _]. apply NoDup_app in Hnd as (N1 & N2 & [N3 [N4 N5]%NoDup_cons]%NoDup_cons).
    rewrite not_elem_of_cons in N3.
    destruct (remove_law _ _ _ _ Habs) as (root & -> & Habs'%out_free_law). cbn [mbind option_bind]. cbn [sm_segs with_root with_tree]. rewrite Ha.
    cbn [mbind option_bind]. unfold set_seg. cbn [sm_segs sm_root with_root with_tree]. rewrite Ha2. cbn [mbind option_bind].
    eexists _, (A' ++ mk_seg (ss_start b) (ss_end c) :: B'). split; [done|].
    apply chain_app in HcA as [HcA' [Hb1 _]]. destruct HcB as [Hc1 HcB']. rewrite last_end_app in Hl. cbn [last_end foldl] in Hl.
    apply Forall_app in FA as [FA' [[Hb0 _] _]%Forall_cons]. apply Forall_cons in FB as [[_ Hc0] FB'].
    split; [|split; [|split; [|split; [|done]]]].
    + exists (la' ++ a2 :: lb'). split; [done|]. cbn [sm_segs with_tree kmem_free_seg set_start]. apply Forall2_app.
      * apply seg_at_delete; [intros Hin; eapply N2; [done|by left]|]. apply seg_at_insert; [|done].
        intros Hin. eapply N2; [done|]. right. by left.
      * constructor.
        -- unfold seg_at. rewrite lookup_delete_ne by tauto. apply lookup_insert_eq.
        -- apply seg_at_delete; [tauto|]. by apply seg_at_insert.
    + apply segs_wf_middle; cbn [ss_start ss_end]; try done; lia.
    + intros o. rewrite !covers_app, !covers_cons, covers_nil. cbn [ss_start ss_end]. intuition lia.
    + rewrite !total_app, !total_cons. cbn [ss_start ss_end total foldr]. lia.
  - (* before *)
    destruct Hmb as (la' & a & A' & b & -> & -> & HA' & Ha & Hbe). rewrite rev_app_distr. cbn [rev app hd].
    rewrite <-app_assoc in Habs. cbn [app] in Habs.
    destruct (set_seg_rep sm la' a lb A' b B (set_end e) Habs HA' HB Ha) as (sm' & -> & Hrep & Hsame & Hsp).
    eexists sm', _. split; [done|]. split; [exact Hrep|]. apply chain_app in HcA as [HcA' [Hb1 _]].
    apply Forall_app in FA as [FA' [[Hb0 _] _]%Forall_cons]. split; [|split; [|split; [|done]]].
    + apply segs_wf_middle; cbn [ss_start ss_end set_end]; try done; try lia; eapply last_end_le; done || lia.
    + intros o. rewrite !covers_app, !covers_cons, covers_nil. cbn [ss_start ss_end set_end]. intuition lia.
    + rewrite !total_app, !total_cons. cbn [ss_start ss_end set_end total foldr]. lia.
  - (* after *)
    destruct Hma as (lb' & a2 & B' & c & -> & -> & HB' & Ha2 & Hcs). cbn [hd].
    destruct (set_seg_rep sm la a2 lb' A c B' (set_start s) Habs HA HB' Ha2) as (sm' & -> & Hrep & Hsame & Hsp).
    eexists sm', _. split; [done|]. split; [exact Hrep|]. destruct HcB as [Hc1 HcB']. cbn [last_end foldl] in Hl.
    apply Forall_cons in FB as [[_ Hc0] FB']. split; [|split; [|split; [|done]]].
    + apply segs_wf_middle; cbn [ss_start ss_end set_start]; try done; lia.
    + intros o. rewrite !covers_app, !covers_cons. cbn [ss_start ss_end set_start]. intuition lia.
    + rewrite !total_app, !total_cons. cbn [ss_start ss_end set_start]. lia.
  - (* neither *)
    pose proof (sm_room sm (A ++ B) (la ++ lb) Hg Hwf) as Hroom.
    destruct (alloc_law _ _ Habs) as (a & root & Ea & Hout & Hfr & _ & Hh); [apply Hroom; by apply Forall2_app|].
    unfold kmem_alloc_seg. rewrite Ea. cbn [sm_root with_tree].
    destruct (insert_law root la lb w a Hout (Hh _ _ _ Hhole)) as (root' & -> & Habs'). cbn [mbind option_bind].
    eexists _, (A ++ mk_seg s e :: B). split; [done|]. rewrite not_elem_of_app in Hfr. split; [|split; [|split; [|split; [|done]]]].
    + exists (la ++ a :: lb). split; [done|]. cbn [sm_segs with_root with_tree]. destruct Hfr as [Hfa Hfb].
      apply Forall2_app; [by apply seg_at_insert|]. constructor; [apply lookup_insert_eq|by apply seg_at_insert].
    + apply segs_wf_middle; cbn [ss_start ss_end]; try done; eapply last_end_le; done || lia.
    + intros o. rewrite !covers_app, covers_cons. cbn [ss_start ss_end]. tauto.
    + rewrite !total_app, total_cons. cbn [ss_start ss_end]. lia.
Qed.

Lemma phase_ok x sh : 0 <= sh < 64 -> (P2PHASE x (u64 (Z.shiftl 1 sh)) =? 0) = (x mod 2 ^ sh =? 0).
Proof. intros Hsh. rewrite Z.shiftl_1_l, u64_pow2, P2PHASE_mod by done. done. Qed.

(** The arguments of an operation on the range from [s] of [size] bytes. *)
Record range_ok sm (s size : Z) : Prop := {
  ro_size : 0 < size;
  ro_start : sm_start sm <= s;
  ro_end : s + size <= sm_start sm + sm_size sm;
  ro_salign : s mod 2 ^ sm_shift sm = 0;
  ro_align : size mod 2 ^ sm_shift sm = 0
}.

Lemma range_end_aligned sm s size : sm_geom sm -> range_ok sm s size -> (s + size) mod 2 ^ sm_shift sm = 0.
Proof.
  intros [_ _ _ Hsh _] [_ _ _ H1 H2]. rewrite Zplus_mod, H1, H2. apply Zmod_0_l.
Qed.

Lemma add_spec sm L s size :
  sm_wf sm L -> range_ok sm s size -> (forall o, s <= o < s + size -> ~ covers L o) ->
  exists sm' L', space_map_add zfs_recover sm s size = Some sm' /\ sm_wf sm' L' /\
    (forall o, covers L' o <-> covers L o \/ s <= o < s + size) /\ same_map sm sm' /\ sm_space sm' = sm_space sm + size.
Proof using HL.
  intros [Hg (l & Habs & Hl) Hsw Hsp] Hr Hdis. pose proof (range_end_aligned _ _ _ Hg Hr) as Hea.
  pose proof Hg as [G1 G2 G3 G4 G5]. destruct Hr as [R1 R2 R3 R4 R5].
  pose proof (sw_chain _ _ _ _ Hsw) as Hc.
  assert (exists sm1 L', (let* (ss, where_) := os_find (sm_root sm) (seg_compar (sm_segs sm) (mk_seg s (s + size))) in
      if negb (ss =? 0) then
        let* x := sm_segs sm !! ss in VERIFY (ss_start x <=? s) && (s + size <=? ss_end x) in zfs_panic_recover zfs_recover sm
      else let* sm := space_map_add_at sm s (s + size) where_ in Some (with_space sm (u64 (sm_space sm + size)))) =
      Some (with_space sm1 (u64 (sm_space sm + size))) /\ sm_rep sm1 L' /\
      segs_wf (sm_start sm) (sm_start sm + sm_size sm) (sm_shift sm) L' /\
      (forall o, covers L' o <-> covers L o \/ s <= o < s + size) /\ total L' = total L + size /\ same_map sm sm1)
    as (sm1 & L' & Hrun & Hrep & Hwf' & Hcov & Htot & Hsame).
  { destruct (find_segs sm L l s (s + size) Habs Hl Hc) as
      [(a & w & la & lb & A & x & B & E & Ha & -> & -> & HA & HB & Hx & H1 & H2)|(w & la & lb & A & B & E & Hh & -> & -> & HA & HB & H1 & H2)]; [lia|..].
    - exfalso. apply chain_app in Hc as [_ [Hxx _]]. apply (Hdis (Z.max s (ss_start x))); [lia|].
      rewrite covers_app, covers_cons. right. left. lia.
    - rewrite E. cbn [mbind option_bind Z.eqb negb].
      destruct (add_at_spec sm la lb A B w s (s + size)) as (sm1 & L' & -> & Q1 & Q2 & Q3 & Q4 & Q5 & Q6); try done; try lia.
      { intros x Hx. by apply H2. }
      cbn [mbind option_bind]. exists sm1, L'. rewrite Q6. split; [done|]. split; [done|]. split; [done|]. split; [done|].
      split; [lia|done]. }
  pose proof (segs_total _ _ _ _ Hwf' ltac:(lia)) as Ht. pose proof (segs_total _ _ _ _ Hsw ltac:(lia)) as Ht0.
  unfold space_map_add. rewrite !(u64_small (s + size)), (u64_small (sm_start sm + sm_size sm)) by (unfold is_u64; lia).
  rewrite !phase_ok by done. rewrite (u64_small (sm_space sm + size)) in Hrun |- * by (unfold is_u64; lia).
  rewrite (proj2 (Z.eqb_neq _ _)), !(proj2 (Z.leb_le _ _)), R4, R5 by lia. cbn [negb Z.eqb]. rewrite Hrun.
  eexists _, L'. split; [done|]. destruct Hsame as (E1 & E2 & E3 & E4). split; [|split; [done|done]].
  split; cbn [sm_start sm_size sm_shift sm_space with_space]; rewrite ?E1, ?E2, ?E3; try done.
  - split; cbn [sm_start sm_size sm_shift with_space]; rewrite ?E1, ?E2, ?E3; done.
  - lia.
Qed.

(** ** Removing *)

Lemma found_contains lo A x B s e :
  chain lo (A ++ x :: B) -> s < e -> s < ss_end x -> ss_start x < e \/ ss_start x = s ->
  (forall o, s <= o < e -> covers (A ++ x :: B) o) -> ss_start x <= s /\ e <= ss_end x.
Proof.
  intros Hc Hse H1 H2 Hcov. destruct (covers_interval _ _ _ _ Hc Hse Hcov) as (y & Hy & Hy1 & Hy2).
  pose proof Hc as Hc'. apply chain_app in Hc' as [_ [Hx _]].
  destruct (chain_overlap _ _ _ _ (Z.max s (ss_start x)) Hc) as [HA HB]; [lia|].
  rewrite elem_of_app, elem_of_cons in Hy. destruct Hy as [Hy|[->|Hy]]; [|done|].
  - destruct HA. apply Exists_exists. exists y. split; [done|lia].
  - destruct HB. apply Exists_exists. exists y. split; [done|lia].
Qed.

(** What is left of the segment [x] without the range from [s] to [e]. *)
Definition left_over_segs (x : space_seg) (s e : Z) : list space_seg :=
  (if ss_start x =? s then [] else [mk_seg (ss_start x) s]) ++ (if ss_end x =? e then [] else [mk_seg e (ss_end x)]).

Lemma remove_segs_wf lo hi sh A x B s e :
  segs_wf lo hi sh (A ++ x :: B) -> ss_start x <= s -> s < e -> e <= ss_end x -> seg_aligned sh (mk_seg s e) ->
  segs_wf lo hi sh (A ++ left_over_segs x s e ++ B) /\
  (forall o, covers (A ++ left_over_segs x s e ++ B) o <-> covers (A ++ x :: B) o /\ ~ (s <= o < e)) /\
  total (A ++ left_over_segs x s e ++ B) = total (A ++ x :: B) - (e - s).
Proof.
  intros [Hc Hl Hf] Hxs Hse Hxe [Hs0 He0]. cbn [ss_start ss_end] in *. pose proof Hc as Hc0.
  apply chain_app in Hc as [HA [Hx HB]]. rewrite last_end_app in Hl. cbn [last_end foldl] in Hl.
  apply Forall_app in Hf as [FA [[Fx1 Fx2] FB]%Forall_cons].
  pose proof (chain_last _ _ HA) as (_ & HlA & _). pose proof (chain_last _ _ HB) as (_ & HlB & _). unfold last_end in HlB.
  assert (forall o, s <= o < e -> ~ covers A o /\ ~ covers B o) as Hdis.
  { intros o Ho. apply (chain_overlap _ _ _ _ _ Hc0). lia. }
  assert (chain s B /\ chain (last_end (lo - 1) A) B) as [HBs HBA].
  { destruct B as [|y B]; [done|]. destruct HB as [HB1 HB2]. split; split; try done; lia. }
  split; [split|split].
  - apply chain_app. split; [done|]. unfold left_over_segs.
    destruct (Z.eqb_spec (ss_start x) s), (Z.eqb_spec (ss_end x) e); cbn [app chain ss_start ss_end]; try done; try (split; [lia|]); try done.
    split; [lia|done].
  - rewrite !last_end_app. unfold left_over_segs.
    destruct (Z.eqb_spec (ss_start x) s), (Z.eqb_spec (ss_end x) e); cbn [app last_end foldl ss_end]; try done; eapply last_end_le; try done; lia.
  - apply Forall_app. split; [done|]. apply Forall_app. split; [|done]. unfold left_over_segs, seg_aligned.
    destruct (ss_start x =? s), (ss_end x =? e); cbn [app]; repeat constructor; done.
  - intros o. specialize (Hdis o). rewrite !covers_app, covers_cons. unfold left_over_segs.
    destruct (Z.eqb_spec (ss_start x) s), (Z.eqb_spec (ss_end x) e); cbn [app];
      rewrite ?covers_cons, covers_nil; cbn [ss_start ss_end]; intuition lia.
  - rewrite !total_app, total_cons. unfold left_over_segs.
    destruct (Z.eqb_spec (ss_start x) s), (Z.eqb_spec (ss_end x) e); cbn [app];
      rewrite ?total_cons; cbn [ss_start ss_end total foldr]; lia.
Qed.

Lemma remove_spec sm L s size :
  sm_wf sm L -> range_ok sm s size -> (forall o, s <= o < s + size -> covers L o) ->
  exists sm' L', space_map_remove zfs_recover sm s size = Some sm' /\ sm_wf sm' L' /\
    (forall o, covers L' o <-> covers L o /\ ~ (s <= o < s + size)) /\ same_map sm sm' /\ sm_space sm' = sm_space sm - size /\
    exists A x B, L = A ++ x :: B /\ ss_start x <= s /\ s + size <= ss_end x /\ L' = A ++ left_over_segs x s (s + size) ++ B.
Proof using HL.
  intros [Hg (l & Habs & Hl) Hsw Hsp] Hr Hcov. pose proof (range_end_aligned _ _ _ Hg Hr) as Hea.
  pose proof Hg as [G1 G2 G3 G4 G5]. destruct Hr as [R1 R2 R3 R4 R5]. pose proof (sw_chain _ _ _ _ Hsw) as Hc.
  unfold space_map_remove. rewrite !(u64_small (s + size)) by (unfold is_u64; lia). rewrite !phase_ok, R4, R5 by done.
  rewrite (proj2 (Z.eqb_neq _ _)) by lia. cbn [negb Z.eqb].
  destruct (find_segs sm L l s (s + size) Habs Hl Hc) as
    [(a & w & la & lb & A & x & B & E & Ha & -> & -> & HA & HB & Hx & H1 & H2)|(w & la & lb & A & B & E & Hh & -> & -> & HA & HB & H1 & H2)]; [lia|..].
  2:{ exfalso. destruct (covers_interval _ _ s (s + size) Hc ltac:(lia) Hcov) as (y & Hy & Hy1 & Hy2).
      rewrite elem_of_app in Hy. destruct Hy as [Hy|Hy]; [specialize (H1 y Hy)|specialize (H2 y Hy)]; lia. }
  destruct (found_contains _ _ _ _ s (s + size) Hc ltac:(lia) H1 H2 Hcov) as [Hxs Hxe].
  destruct (remove_segs_wf _ _ _ A x B s (s + size) Hsw) as (Hwf' & Hcov' & Htot); [lia..|done|].
  pose proof (segs_total _ _ _ _ Hwf' ltac:(lia)) as Ht. pose proof (segs_total _ _ _ _ Hsw ltac:(lia)) as Ht0.
  rewrite E. cbn [mbind option_bind]. rewrite (proj2 (Z.eqb_neq _ _)) by done. rewrite Hx. cbn [mbind option_bind].
  rewrite (u64_small (sm_space sm - size)) by (unfold is_u64; lia). rewrite !(proj2 (Z.leb_le _ _)) by lia.
  assert (forall sm1 : space_map T V, sm_rep sm1 (A ++ left_over_segs x s (s + size) ++ B) -> same_map sm sm1 -> sm_space sm1 = sm_space sm ->
    exists sm' L', Some (with_space sm1 (u64 (sm_space sm1 - size))) = Some sm' /\ sm_wf sm' L' /\
    (forall o, covers L' o <-> covers (A ++ x :: B) o /\ ~ (s <= o < s + size)) /\ same_map sm sm' /\ sm_space sm' = sm_space sm - size /\
    exists A0 x0 B0, A ++ x :: B = A0 ++ x0 :: B0 /\ ss_start x0 <= s /\ s + size <= ss_end x0 /\
      L' = A0 ++ left_over_segs x0 s (s + size) ++ B0) as Hfin.
  { intros sm1 Hrep Hsame Hsp1. eexists _, _. split; [done|]. pose proof (geom_same _ _ Hg Hsame) as Hg1.
    pose proof Hsame as (E1 & E2 & E3 & _). split; [|split; [exact Hcov'|split; [done|split; [|by exists A, x, B]]]].
    2:{ cbn [sm_space with_space]. rewrite u64_small by (unfold is_u64; lia). lia. }
    split; [|exact Hrep|cbn [sm_start sm_size sm_shift with_space]; by rewrite E1, E2, E3|].
    - by destruct Hg1; split.
    - cbn [sm_space with_space]. rewrite u64_small by (unfold is_u64; lia). lia. }
  unfold left_over_segs in Hfin. destruct (Z.eqb_spec (ss_start x) s) as [E1|E1], (Z.eqb_spec (ss_end x) (s + size)) as [E2|E2]; cbn [negb andb].
  - (* the whole segment *)
    destruct (remove_law _ _ _ _ Habs) as (root & -> & Habs'%out_free_law). cbn [mbind option_bind]. apply Hfin; [|done|done].
    destruct (abs_objects _ _ Habs) as [Hnd _]. apply NoDup_app in Hnd as (N1 & N2 & [N3 N4]%NoDup_cons).
    exists (la ++ lb). split; [done|]. cbn [sm_segs with_root with_tree kmem_free_seg app]. apply Forall2_app; apply seg_at_delete; try done.
    intros Hin. eapply N2; [done|by left].
  - destruct (set_seg_rep sm la a lb A x B (set_start (s + size)) Habs HA HB Hx) as (sm' & -> & Hrep & Hsame & Hsp').
    cbn [mbind option_bind]. by apply Hfin.
  - destruct (set_seg_rep sm la a lb A x B (set_end s) Habs HA HB Hx) as (sm' & -> & Hrep & Hsame & Hsp').
    cbn [mbind option_bind]. by apply Hfin.
  - (* a hole in the segment *)
    destruct (alloc_law _ _ Habs) as (n & root & Ea & Hout & Hfr & _ & _);
      [eapply (sm_room sm (A ++ x :: B)); [done|done|]; apply Forall2_app; [done|by constructor]|].
    rewrite not_elem_of_app, not_elem_of_cons in Hfr. destruct Hfr as (F1 & F2 & F3).
    destruct (abs_objects _ _ Habs) as [Hnd _]. apply NoDup_app in Hnd as (N1 & N2 & [N3 N4]%NoDup_cons).
    unfold kmem_alloc_seg. rewrite Ea. unfold set_seg. cbn [sm_segs sm_root with_tree].
    rewrite lookup_insert_ne by done. rewrite Hx. cbn [mbind option_bind sm_root with_tree].
    destruct (insert_here_law _ _ _ _ _ true Hout) as (root' & -> & Habs'). cbn [mbind option_bind]. apply Hfin; [|done|done].
    exists (la ++ [a; n] ++ lb). split; [done|]. cbn [sm_segs with_root with_tree app].
    apply Forall2_app; [|constructor; [|constructor]].
    + apply seg_at_insert; [intros Hin; eapply N2; [done|by left]|]. by apply seg_at_insert.
    + unfold seg_at. by rewrite lookup_insert_eq.
    + unfold seg_at. rewrite lookup_insert_ne by done. by rewrite lookup_insert_eq.
    + apply seg_at_insert; [done|]. by apply seg_at_insert.
Qed.

(** ** Queries and errors *)

Lemma contains_spec sm L s size : sm_wf sm L -> range_ok sm s size ->
  exists b, space_map_contains sm s size = Some b /\ (b = true <-> forall o, s <= o < s + size -> covers L o).
Proof using HL.
  intros [Hg (l & Habs & Hl) Hsw Hsp] [R1 R2 R3 R4 R5]. pose proof Hg as [G1 G2 G3 G4 G5]. pose proof (sw_chain _ _ _ _ Hsw) as Hc.
  unfold space_map_contains. rewrite !(u64_small (s + size)) by (unfold is_u64; lia). rewrite !phase_ok, R4, R5 by done.
  rewrite (proj2 (Z.eqb_neq _ _)) by lia. cbn [negb Z.eqb].
  destruct (find_segs sm L l s (s + size) Habs Hl Hc) as
    [(a & w & la & lb & A & x & B & E & Ha & -> & -> & HA & HB & Hx & H1 & H2)|(w & la & lb & A & B & E & Hh & -> & -> & HA & HB & H1 & H2)]; [lia|..];
    rewrite E; cbn [mbind option_bind Z.eqb].
  - rewrite (proj2 (Z.eqb_neq _ _)), Hx by done. cbn [mbind option_bind]. eexists. split; [done|].
    rewrite andb_true_iff, !Z.leb_le. split.
    + intros [? ?] o Ho. rewrite covers_app, covers_cons. right. left. lia.
    + apply (found_contains _ _ _ _ _ _ Hc); done || lia.
  - exists false. split; [done|]. split; [done|]. intros Hcov.
    destruct (covers_interval _ _ s (s + size) Hc ltac:(lia) Hcov) as (y & Hy & Hy1 & Hy2).
    rewrite elem_of_app in Hy. destruct Hy as [Hy|Hy]; [specialize (H1 y Hy)|specialize (H2 y Hy)]; lia.
Qed.

(** Adding a range that is not free of the map never changes it. *)
Lemma add_overlap sm L s size o : sm_wf sm L -> range_ok sm s size -> s <= o < s + size -> covers L o ->
  space_map_add zfs_recover sm s size = None \/ (zfs_recover = true /\ space_map_add zfs_recover sm s size = Some sm).
Proof using HL.
  intros [Hg (l & Habs & Hl) Hsw Hsp] [R1 R2 R3 R4 R5] Ho Hcov. pose proof Hg as [G1 G2 G3 G4 G5]. pose proof (sw_chain _ _ _ _ Hsw) as Hc.
  unfold space_map_add. rewrite !(u64_small (s + size)) by (unfold is_u64; lia). destruct (negb (size =? 0)); [|by left].
  repeat match goal with |- context [VERIFY ?c in _] => destruct c; [|by left] end.
  destruct (find_segs sm L l s (s + size) Habs Hl Hc) as
    [(a & w & la & lb & A & x & B & E & Ha & -> & -> & HA & HB & Hx & H1 & H2)|(w & la & lb & A & B & E & Hh & -> & -> & HA & HB & H1 & H2)]; [lia|..];
    rewrite E; cbn [mbind option_bind].
  - rewrite (proj2 (Z.eqb_neq _ _)), Hx by done. cbn [negb mbind option_bind]. destruct (_ && _); [|by left].
    unfold zfs_panic_recover. destruct zfs_recover; [by right|by left].
  - exfalso. rewrite covers_app in Hcov. destruct Hcov as [(y & Hy & ?)%Exists_exists|(y & Hy & ?)%Exists_exists];
      [specialize (H1 y Hy)|specialize (H2 y Hy)]; lia.
Qed.

(** Removing a range that is not all in the map never changes it. *)
Lemma remove_missing sm L s size o : sm_wf sm L -> range_ok sm s size -> s <= o < s + size -> ~ covers L o ->
  space_map_remove zfs_recover sm s size = None \/ (zfs_recover = true /\ space_map_remove zfs_recover sm s size = Some sm).
Proof using HL.
  intros [Hg (l & Habs & Hl) Hsw Hsp] [R1 R2 R3 R4 R5] Ho Hcov. pose proof Hg as [G1 G2 G3 G4 G5]. pose proof (sw_chain _ _ _ _ Hsw) as Hc.
  unfold space_map_remove. rewrite !(u64_small (s + size)) by (unfold is_u64; lia). rewrite !phase_ok, R4, R5 by done.
  rewrite (proj2 (Z.eqb_neq _ _)) by lia. cbn [negb Z.eqb].
  destruct (find_segs sm L l s (s + size) Habs Hl Hc) as
    [(a & w & la & lb & A & x & B & E & Ha & -> & -> & HA & HB & Hx & H1 & H2)|(w & la & lb & A & B & E & Hh & -> & -> & HA & HB & H1 & H2)]; [lia|..];
    rewrite E; cbn [mbind option_bind Z.eqb].
  - rewrite (proj2 (Z.eqb_neq _ _)), Hx by done. cbn [mbind option_bind].
    destruct (Z.leb_spec (ss_start x) s); [|by left]. destruct (Z.leb_spec (s + size) (ss_end x)); [|by left].
    exfalso. apply Hcov. rewrite covers_app, covers_cons. right. left. lia.
  - unfold zfs_panic_recover. destruct zfs_recover; [by right|by left].
Qed.

(** ** Walking and vacating *)

Definition on_seg {D} (func : D -> Z -> Z -> option D) (d : D) (s : space_seg) : option D :=
  func d (ss_start s) (ss_end s - ss_start s).

Lemma num_segs sm l L : os_abs (sm_root sm) l -> Forall2 (seg_at (sm_segs sm)) l L ->
  nodes_fuel sm = S (length L).
Proof using HL.
  intros Habs Hl. unfold nodes_fuel. rewrite (num_law _ _ Habs), (Forall2_length _ _ _ Hl). by rewrite Nat2Z.id.
Qed.

Lemma seg_u64 lo hi sh L s : segs_wf lo hi sh L -> 0 <= lo -> hi < 2 ^ 64 -> s ∈ L -> u64 (ss_end s - ss_start s) = ss_end s - ss_start s.
Proof.
  intros [Hc Hl _] H1 H2 Hs. destruct (chain_bounds _ _ _ Hc Hs). apply u64_small. unfold is_u64. lia.
Qed.

Lemma walk_segs_spec {D} (func : D -> Z -> Z -> option D) sm L : sm_wf sm L -> forall l2 L2 l1 L1 d,
  os_abs (sm_root sm) (l1 ++ l2) -> L = L1 ++ L2 -> Forall2 (seg_at (sm_segs sm)) l2 L2 ->
  walk_segs func (S (length L2)) sm (hd 0 l2) d = foldM (on_seg func) d L2.
Proof using HL.
  intros Hwf. induction l2 as [|a l2 IH]; intros L2 l1 L1 d Habs EL HF.
  - apply Forall2_nil_inv_l in HF as ->. done.
  - apply Forall2_cons_inv_l in HF as (x & L2' & Hx & HF & ->). cbn [length walk_segs hd foldM].
    destruct (abs_objects _ _ Habs) as [_ Hnz].
    rewrite (proj2 (Z.eqb_neq _ _)) by (apply Hnz; rewrite elem_of_app, elem_of_cons; tauto).
    rewrite (Hx : sm_segs sm !! a = Some x). cbn [mbind option_bind].
    rewrite (seg_u64 _ _ _ L x (sf_segs _ _ Hwf)) by (try apply (sf_geom _ _ Hwf); subst L; rewrite elem_of_app, elem_of_cons; tauto).
    change (on_seg func d x) with (func d (ss_start x) (ss_end x - ss_start x)). destruct (func d (ss_start x) _) as [d'|]; [|done]. cbn [mbind option_bind].
    rewrite (proj1 (walk_law _ _ _ _ Habs)). cbn [mbind option_bind].
    specialize (IH L2' (l1 ++ [a]) (L1 ++ [x]) d'). cbn [length walk_segs] in IH. apply IH; [by rewrite <-app_assoc|by rewrite <-app_assoc|done].
Qed.

Lemma walk_spec {D} (func : D -> Z -> Z -> option D) sm L d : sm_wf sm L ->
  space_map_walk func sm d = foldM (on_seg func) d L.
Proof using HL.
  intros Hwf. destruct (sf_rep _ _ Hwf) as (l & Habs & Hl). unfold space_map_walk.
  rewrite (first_law _ _ Habs), (num_segs _ _ _ Habs Hl). cbn [mbind option_bind].
  by apply (walk_segs_spec func sm L Hwf l L [] []).
Qed.

Lemma vacate_loop_spec sm L todo : forall L' sm1 c,
  sm_wf sm L -> (forall x, x ∈ L' -> x ∈ L) -> NoDup todo -> same_map sm sm1 -> os_drain (sm_root sm1) todo c ->
  Forall2 (seg_at (sm_segs sm1)) todo L' ->
  exists root segs, os_abs root [] /\ forall D (func : D -> Z -> Z -> option D) d,
    vacate_loop func (S (length L')) sm1 d c =
    let* d := foldM (on_seg func) d L' in Some (with_tree sm1 root segs, d).
Proof using HL.
  induction todo as [|a todo IH]; intros L' sm1 c Hwf Hin Hnd Hsame Hd HF.
  - apply Forall2_nil_inv_l in HF as ->. destruct (drain_end _ _ Hd) as (root & c' & E & Habs).
    exists root, (sm_segs sm1). split; [done|]. intros D func d. cbn [length vacate_loop]. rewrite E. done.
  - apply Forall2_cons_inv_l in HF as (x & L2 & Hx & HF & ->). apply NoDup_cons in Hnd as [N1 N2].
    destruct (drain_next _ _ _ _ Hd) as (root & c' & E & Ha & Hd').
    destruct (IH L2 (kmem_free_seg (with_root sm1 root) a) c') as (root' & segs' & Habs & Hrun); try done.
    { intros y Hy. apply Hin. by right. }
    { by apply seg_at_delete. }
    exists root', segs'. split; [done|]. intros D func d. cbn [length]. cbn [vacate_loop]. rewrite E. cbn [mbind option_bind].
    rewrite (proj2 (Z.eqb_neq _ _)) by done. cbn [sm_segs with_root with_tree]. rewrite (Hx : sm_segs sm1 !! a = Some x).
    cbn [mbind option_bind foldM]. rewrite (seg_u64 _ _ _ L x (sf_segs _ _ Hwf)) by (try apply (sf_geom _ _ Hwf); apply Hin; by left).
    change (on_seg func d x) with (func d (ss_start x) (ss_end x - ss_start x)). destruct (func d (ss_start x) _) as [d'|]; [|done]. cbn [mbind option_bind]. exact (Hrun D func d').
Qed.

Lemma vacate_loop_all sm L : sm_wf sm L ->
  exists sm' L', L' ≡ₚ L /\ sm_wf (with_space sm' 0) [] /\ same_map sm sm' /\
    forall D (func : D -> Z -> Z -> option D) d,
      vacate_loop func (nodes_fuel sm) sm d 0 = let* d := foldM (on_seg func) d L' in Some (sm', d).
Proof using HL.
  intros Hwf. destruct (sf_rep _ _ Hwf) as (l & Habs & Hl). destruct (drain_start _ _ Habs) as (todo & Hperm & Hd).
  destruct (abs_objects _ _ Habs) as [Hnd _].
  assert (exists L', L' ≡ₚ L /\ Forall2 (seg_at (sm_segs sm)) todo L') as (L' & HpL & HF).
  { symmetry in Hperm. clear -Hl Hperm. revert L Hl. induction Hperm as [|x l l' _ IH|x y l|l1 l2 l3 _ IH1 _ IH2]; intros L Hl.
    - by exists L.
    - apply Forall2_cons_inv_l in Hl as (z & L0 & Hz & Hl & ->). destruct (IH _ Hl) as (L' & H1 & H2).
      exists (z :: L'). split; [by f_equiv|by constructor].
    - apply Forall2_cons_inv_l in Hl as (z & L0 & Hz & Hl & ->). apply Forall2_cons_inv_l in Hl as (z' & L1 & Hz' & Hl & ->).
      exists (z' :: z :: L1). split; [apply Permutation_swap|by repeat constructor].
    - destruct (IH1 _ Hl) as (L' & H1 & H2). destruct (IH2 _ H2) as (L'' & H3 & H4). exists L''. split; [by etrans|done]. }
  destruct (vacate_loop_spec sm L todo L' sm 0) as (root & segs & Habs' & Hrun); try done.
  { intros x Hx. by rewrite <-HpL. } { by rewrite Hperm. }
  exists (with_tree sm root segs), L'. split; [done|]. split; [|split; [done|]].
  - destruct Hwf as [Hg _ _ _]. split; [by destruct Hg; split| | |done].
    + exists []. split; [done|constructor].
    + split; cbn [chain last_end foldl sm_start sm_size with_space with_tree]; [done| |constructor]. destruct Hg. lia.
  - intros D func d. rewrite (num_segs _ _ _ Habs Hl). by rewrite <-(Permutation_length HpL), Hrun.
Qed.

Lemma vacate_spec sm L : sm_wf sm L ->
  exists sm' L', L' ≡ₚ L /\ sm_wf sm' [] /\ same_map sm sm' /\
    forall D (func : D -> Z -> Z -> option D) d,
      space_map_vacate func sm d = let* d := foldM (on_seg func) d L' in Some (sm', d).
Proof using HL.
  intros Hwf. destruct (vacate_loop_all sm L Hwf) as (sm' & L' & Hp & Hwf' & Hsame & Hrun).
  exists (with_space sm' 0), L'. split; [done|]. split; [done|]. split; [done|]. intros D func d.
  unfold space_map_vacate. rewrite Hrun. by destruct (foldM (on_seg func) d L').
Qed.

(** ** Excising and uniting *)

Lemma chain_unique lo L x y o : chain lo L -> x ∈ L -> y ∈ L ->
  ss_start x <= o < ss_end x -> ss_start y <= o < ss_end y -> x = y.
Proof.
  intros Hc Hx Hy Hxo Hyo. apply list_elem_of_split in Hx as (A & B & ->).
  destruct (chain_overlap _ _ _ _ _ Hc Hxo) as [HA HB]. rewrite elem_of_app, elem_of_cons in Hy.
  destruct Hy as [Hy|[->|Hy]]; [|done|].
  - destruct HA. apply Exists_exists. by exists y.
  - destruct HB. apply Exists_exists. by exists y.
Qed.

(** The segments that meet the range from [s] to [e]. *)
Definition meets (s e : Z) (x : space_seg) : Prop := s < ss_end x /\ ss_start x < e.
#[local] Instance meets_dec s e x : Decision (meets s e x).
Proof. unfold meets. apply _. Defined.

Lemma meets_after A x B s e :
  meets s e x -> (length (filter (meets s e) (A ++ left_over_segs x (Z.max (ss_start x) s) (Z.min (ss_end x) e) ++ B)) <
                  length (filter (meets s e) (A ++ x :: B)))%nat.
Proof.
  intros Hx. rewrite !filter_app, (filter_cons_True _ _ _ Hx), !length_app. cbn [length].
  rewrite (filter_none _ (left_over_segs _ _ _)); [cbn [length]; lia|].
  unfold left_over_segs, meets in *. intros y.
  destruct (Z.eqb_spec (ss_start x) (Z.max (ss_start x) s)), (Z.eqb_spec (ss_end x) (Z.min (ss_end x) e)); cbn [app];
    rewrite ?elem_of_cons, elem_of_nil; intros Hy; destruct_or?; subst; cbn [ss_start ss_end] in *; lia || done.
Qed.

Lemma aligned_max a b sh : a mod 2 ^ sh = 0 -> b mod 2 ^ sh = 0 -> Z.max a b mod 2 ^ sh = 0 /\ Z.min a b mod 2 ^ sh = 0.
Proof. destruct (Z.max_spec a b) as [[? ->]|[? ->]], (Z.min_spec a b) as [[? ->]|[? ->]]; done. Qed.

(** One round of the loop: the first segment that meets the range, if any. *)
Lemma excise_find sm L s e : sm_wf sm L -> s < e ->
  (exists a x w, os_find (sm_root sm) (seg_compar (sm_segs sm) (mk_seg s s)) = Some w /\
     (if w.1 =? 0 then os_nearest (sm_root sm) w.2 true else Some w.1) = Some a /\ a <> 0 /\
     sm_segs sm !! a = Some x /\ x ∈ L /\ meets s e x) \/
  ((forall x, x ∈ L -> ~ meets s e x) /\ exists a w, os_find (sm_root sm) (seg_compar (sm_segs sm) (mk_seg s s)) = Some w /\
     (if w.1 =? 0 then os_nearest (sm_root sm) w.2 true else Some w.1) = Some a /\
     (a = 0 \/ exists x, a <> 0 /\ sm_segs sm !! a = Some x /\ e <= ss_start x)).
Proof using HL.
  intros [Hg (l & Habs & Hl) Hsw Hsp] Hse. pose proof (sw_chain _ _ _ _ Hsw) as Hc. destruct (abs_objects _ _ Habs) as [_ Hnz].
  destruct (find_segs sm L l s s Habs Hl Hc) as
    [(a & w & la & lb & A & x & B & E & Ha & -> & -> & HA & HB & Hx & H1 & H2)|(w & la & lb & A & B & E & Hh & -> & -> & HA & HB & H1 & H2)]; [lia|..].
  - left. exists a, x, (a, w). cbn [fst snd]. rewrite (proj2 (Z.eqb_neq _ _)) by done. split; [done|]. split; [done|].
    split; [done|]. split; [done|]. split; [rewrite elem_of_app, elem_of_cons; tauto|]. unfold meets. lia.
  - destruct (nearest_law _ _ _ _ Hh) as [Hn _]. destruct lb as [|a lb].
    + right. apply Forall2_nil_inv_l in HB as ->. split.
      * intros x Hx [? ?]. rewrite app_nil_r in Hx. specialize (H1 x Hx). lia.
      * exists 0, (0, w). split; [done|]. split; [done|by left].
    + apply Forall2_cons_inv_l in HB as (x & B' & Hx & HB & ->). cbn [hd] in Hn.
      assert (a <> 0) by (apply Hnz; rewrite elem_of_app, elem_of_cons; tauto).
      destruct (Z.le_gt_cases e (ss_start x)) as [Hle|Hgt].
      * right. split; [|exists a, (0, w); split; [done|split; [done|right; by exists x]]].
        intros y Hy [? ?]. rewrite elem_of_app, elem_of_cons in Hy. destruct Hy as [Hy|[->|Hy]]; [specialize (H1 y Hy); lia|lia|].
        apply chain_app in Hc as [_ [Hxx Hc]]. destruct (chain_bounds _ _ _ Hc Hy). specialize (H2 x ltac:(by left)).
        assert (ss_start x < ss_start y) by lia. lia.
      * left. exists a, x, (0, w). split; [done|]. split; [done|]. split; [done|]. split; [done|].
        split; [rewrite elem_of_app, elem_of_cons; tauto|]. specialize (H2 x ltac:(by left)).
        assert (ss_start x < ss_end x) by (apply chain_app in Hc as [_ [? _]]; lia). unfold meets. lia.
Qed.

Lemma excise_loop_spec k : forall sm L s e,
  sm_wf sm L -> s < e -> s mod 2 ^ sm_shift sm = 0 -> e mod 2 ^ sm_shift sm = 0 ->
  (length (filter (meets s e) L) < k)%nat ->
  exists sm' L', excise_loop zfs_recover k sm s e = Some sm' /\ sm_wf sm' L' /\ same_map sm sm' /\
    forall o, covers L' o <-> covers L o /\ ~ (s <= o < e).
Proof using HL.
  induction k as [|k IH]; intros sm L s e Hwf Hse Hs0 He0 Hk; [lia|]. cbn [excise_loop].
  destruct (excise_find sm L s e Hwf Hse) as [(a & x & [f w] & -> & Ea & Ha & Hx & Hin & Hm)|(Hno & a & [f w] & -> & Ea & Hend)];
    cbn [mbind option_bind fst snd] in Ea |- *; rewrite Ea; cbn [mbind option_bind].
  - rewrite (proj2 (Z.eqb_neq _ _)), Hx by done. cbn [mbind option_bind]. destruct Hm as [Hm1 Hm2].
    rewrite (proj2 (Z.leb_gt _ _)) by lia. pose proof Hwf as [Hg _ [Hc Hlast Hal] _]. pose proof Hg as [G1 G2 G3 G4 G5].
    destruct (chain_bounds _ _ _ Hc Hin) as [Hx1 Hx2]. pose proof (proj1 (Forall_forall _ _) Hal x Hin) as [Hxa Hxb].
    destruct (aligned_max (ss_start x) s _ Hxa Hs0) as [Hm _]. destruct (aligned_max (ss_end x) e _ Hxb He0) as [_ Hn].
    set (rs := Z.max (ss_start x) s) in *. set (re := Z.min (ss_end x) e) in *.
    rewrite (u64_small (re - rs)) by (unfold is_u64; lia).
    destruct (remove_spec sm L rs (re - rs) Hwf) as (sm1 & L1 & -> & Hwf1 & Hcov1 & Hsame1 & _ & (A & x' & B & EL & Hx'1 & Hx'2 & EL1)).
    { split; [lia|lia|lia|done|]. rewrite Zminus_mod, Hm, Hn. apply Zmod_0_l. }
    { intros o Ho. apply Exists_exists. exists x. split; [done|lia]. }
    cbn [mbind option_bind]. replace (rs + (re - rs)) with re in * by lia.
    assert (x' = x) as ->.
    { apply (chain_unique _ L x' x rs Hc); [subst L; rewrite elem_of_app, elem_of_cons; tauto|done|lia|lia]. }
    destruct (IH sm1 L1 s e Hwf1 Hse) as (sm' & L' & -> & Hwf' & Hsame' & Hcov').
    + by destruct Hsame1 as (_ & _ & -> & _). + by destruct Hsame1 as (_ & _ & -> & _).
    + subst L L1. pose proof (meets_after A x B s e ltac:(by split)). fold rs re in H. lia.
    + exists sm', L'. split; [done|]. split; [done|]. split; [by eapply same_map_trans|].
      intros o. rewrite Hcov', Hcov1. intuition lia.
  - exists sm, L. assert (forall o, covers L o <-> covers L o /\ ~ (s <= o < e)) as Hcov.
    { intros o. split; [|tauto]. intros Hco. split; [done|]. intros Ho. apply Exists_exists in Hco as (y & Hy & Hyo).
      apply (Hno y Hy). unfold meets. lia. }
    destruct Hend as [->|(x & Ha & Hx & Hex)]; [done|]. rewrite (proj2 (Z.eqb_neq _ _)), Hx by done. cbn [mbind option_bind].
    by rewrite (proj2 (Z.leb_le _ _)) by done.
Qed.

Lemma excise_spec sm L s size :
  sm_wf sm L -> 0 < size -> 0 <= s -> s + size < 2 ^ 64 -> s mod 2 ^ sm_shift sm = 0 -> (s + size) mod 2 ^ sm_shift sm = 0 ->
  exists sm' L', space_map_excise zfs_recover sm s size = Some sm' /\ sm_wf sm' L' /\ same_map sm sm' /\
    forall o, covers L' o <-> covers L o /\ ~ (s <= o < s + size).
Proof using HL.
  intros Hwf Hsz Hs0 Hs1 Hsa Hea. destruct (sf_rep _ _ Hwf) as (l & Habs & Hl). unfold space_map_excise.
  rewrite (num_segs _ _ _ Habs Hl), (u64_small (s + size)) by (unfold is_u64; lia).
  apply excise_loop_spec; try done; [lia|]. pose proof (length_filter (meets s (s + size)) L). lia.
Qed.

Lemma union_fold smd0 Ls : forall smd Ld,
  sm_wf smd Ld -> same_map smd0 smd -> Forall (fun x => range_ok smd0 (ss_start x) (ss_end x - ss_start x)) Ls ->
  exists smd' Ld', foldM (on_seg (fun smd start size =>
      let* smd := space_map_excise zfs_recover smd start size in space_map_add zfs_recover smd start size)) smd Ls = Some smd' /\
    sm_wf smd' Ld' /\ same_map smd0 smd' /\ forall o, covers Ld' o <-> covers Ld o \/ covers Ls o.
Proof using HL.
  induction Ls as [|x Ls IH]; intros smd Ld Hwf Hsame HF.
  - exists smd, Ld. cbn [foldM]. split; [done|]. split; [done|]. split; [done|]. intros o. rewrite covers_nil. tauto.
  - apply Forall_cons in HF as [Hx HF]. cbn [foldM on_seg].
    assert (range_ok smd (ss_start x) (ss_end x - ss_start x)) as Hx'.
    { destruct Hx as [R1 R2 R3 R4 R5], Hsame as (E1 & E2 & E3 & _). split; rewrite ?E1, ?E2, ?E3; done. }
    pose proof (sf_geom _ _ Hwf) as Hg. pose proof (range_end_aligned _ _ _ Hg Hx') as Hea. pose proof Hg as [G1 G2 G3 G4 G5].
    destruct Hx' as [R1 R2 R3 R4 R5].
    unfold on_seg at 2. destruct (excise_spec smd Ld (ss_start x) (ss_end x - ss_start x) Hwf) as (sm1 & L1 & -> & Hwf1 & Hsame1 & Hcov1); try done; try lia.
    cbn [mbind option_bind].
    destruct (add_spec sm1 L1 (ss_start x) (ss_end x - ss_start x) Hwf1) as (sm2 & L2 & -> & Hwf2 & Hcov2 & Hsame2 & _).
    { destruct Hsame1 as (E1 & E2 & E3 & _). split; rewrite ?E1, ?E2, ?E3; done. }
    { intros o Ho. rewrite Hcov1. tauto. }
    cbn [mbind option_bind].
    destruct (IH sm2 L2 Hwf2) as (smd' & Ld' & -> & Hwf' & Hsame' & Hcov'); [|done|].
    { by eapply same_map_trans; [|eapply same_map_trans]. }
    exists smd', Ld'. split; [done|]. split; [done|]. split; [done|].
    intros o. rewrite Hcov', Hcov2, Hcov1, covers_cons. replace (ss_start x + (ss_end x - ss_start x)) with (ss_end x) by lia.
    destruct (decide (ss_start x <= o < ss_end x)); tauto.
Qed.

Lemma union_spec smd Ld sms Ls :
  sm_wf smd Ld -> sm_wf sms Ls -> Forall (fun x => range_ok smd (ss_start x) (ss_end x - ss_start x)) Ls ->
  exists smd' Ld', space_map_union zfs_recover smd sms = Some smd' /\ sm_wf smd' Ld' /\ same_map smd smd' /\
    forall o, covers Ld' o <-> covers Ld o \/ covers Ls o.
Proof using HL.
  intros Hd Hs HF. unfold space_map_union. rewrite (walk_spec _ _ _ _ Hs). by apply union_fold.
Qed.
End space_map.
