(* ===== verification/SpaceMapLog.v ===== *)
(** * Space maps on disk: the log is the map

    The entry encoding, the meaning of a log ([replays]), and the two halves
    of the round trip: [space_map_sync] extends the log by what the map says,
    [space_map_load] rebuilds the set the log stands for. *)
From Stdlib Require Import ZArith Lia.
From stdpp Require Import base numbers list option gmap.
From S2P Require Import Prelude AvlOps AvlSpec SpaceMap SpaceMapProof SpaceMapSync.

(** ** Entries *)

Lemma lor_fields a b n : 0 <= n -> 0 <= b < 2 ^ n -> Z.lor (a * 2 ^ n) b = a * 2 ^ n + b.
Proof. intros. rewrite <-(lor_shiftl_add a b n) by done. by rewrite Z.shiftl_mul_pow2. Qed.

Lemma sm_entry_value ty start run : 0 <= start < 2 ^ 47 -> 0 <= ty <= 1 -> 1 <= run <= 2 ^ 15 ->
  sm_entry ty start run = (start * 2 + ty) * 2 ^ 15 + (run - 1).
Proof.
  intros Hs Ht Hr. unfold sm_entry, SM_OFFSET_ENCODE, SM_TYPE_ENCODE, SM_RUN_ENCODE. rewrite !bf64_encode by lia.
  rewrite !Z.mod_small by lia. rewrite (lor_fields start (ty * 2 ^ 15) 16) by lia.
  replace (start * 2 ^ 16 + ty * 2 ^ 15) with ((start * 2 + ty) * 2 ^ 15) by lia.
  replace ((run - 1) * 2 ^ 0) with (run - 1) by lia. apply lor_fields; lia.
Qed.

Lemma sm_entry_decode ty start run : 0 <= start < 2 ^ 47 -> 0 <= ty <= 1 -> 1 <= run <= 2 ^ 15 ->
  SM_DEBUG_DECODE (sm_entry ty start run) = 0 /\ SM_TYPE_DECODE (sm_entry ty start run) = ty /\
  SM_OFFSET_DECODE (sm_entry ty start run) = start /\ SM_RUN_DECODE (sm_entry ty start run) = run.
Proof.
  intros Hs Ht Hr. rewrite (sm_entry_value ty start run Hs Ht Hr).
  unfold SM_DEBUG_DECODE, SM_TYPE_DECODE, SM_OFFSET_DECODE, SM_RUN_DECODE. rewrite !bf64_decode by lia.
  set (e := (start * 2 + ty) * 2 ^ 15 + (run - 1)).
  assert (0 <= e < 2 ^ 63) as He by (unfold e; lia).
  assert (e / 2 ^ 15 = start * 2 + ty) as E15 by (unfold e; symmetry; apply (Z.div_unique_pos _ _ _ (run - 1)); lia).
  split; [rewrite Z.div_small by lia; done|]. split; [rewrite E15; change (2 ^ 1) with 2; Z.div_mod_to_equations; lia|].
  split.
  - change (2 ^ 16) with (2 ^ 15 * 2). rewrite <-Z.div_div, E15 by lia. rewrite Z.mod_small; Z.div_mod_to_equations; lia.
  - rewrite Z.div_1_r. unfold e. rewrite (Z.add_comm ((start * 2 + ty) * 2 ^ 15)), Z.mod_add, Z.mod_small by lia. lia.
Qed.

Lemma debug_entry_decode ty pass txg : 0 <= ty <= 1 -> SM_DEBUG_DECODE (debug_entry ty pass txg) <> 0.
Proof.
  intros Ht. unfold debug_entry, SM_DEBUG_DECODE, SM_DEBUG_ENCODE, SM_DEBUG_ACTION_ENCODE, SM_DEBUG_SYNCPASS_ENCODE, SM_DEBUG_TXG_ENCODE.
  rewrite bf64_decode, !bf64_encode by lia. set (p := pass mod 2 ^ 10). set (x := txg mod 2 ^ 50).
  assert (0 <= p < 2 ^ 10) by (apply Z.mod_pos_bound; lia). assert (0 <= x < 2 ^ 50) by (apply Z.mod_pos_bound; lia).
  rewrite (Z.mod_small ty) by lia. change (1 mod 2 ^ 1) with 1.
  rewrite (lor_fields 1 (ty * 2 ^ 60) 63) by lia.
  replace (1 * 2 ^ 63 + ty * 2 ^ 60) with ((8 + ty) * 2 ^ 60) by lia. rewrite (lor_fields (8 + ty) (p * 2 ^ 50) 60) by lia.
  replace ((8 + ty) * 2 ^ 60 + p * 2 ^ 50) with (((8 + ty) * 2 ^ 10 + p) * 2 ^ 50) by lia.
  rewrite (lor_fields _ (x * 2 ^ 0) 50) by lia.
  assert ((((8 + ty) * 2 ^ 10 + p) * 2 ^ 50 + x * 2 ^ 0) / 2 ^ 63 = 1) as ->; [|done].
  symmetry. apply (Z.div_unique_pos _ _ _ (ty * 2 ^ 60 + p * 2 ^ 50 + x)); lia.
Qed.

(** ** The meaning of a log *)

(** The log [ws] of a map from [lo] to [hi] stands for the allocated set [A]
    of [n] bytes: allocations are of free space, frees of allocated space. *)
Inductive replays (lo hi sh : Z) : list Z -> (Z -> Prop) -> Z -> Prop :=
  | replays_nil A : (forall o, ~ A o) -> replays lo hi sh [] A 0
  | replays_debug ws A n e : replays lo hi sh ws A n -> SM_DEBUG_DECODE e <> 0 -> replays lo hi sh (ws ++ [e]) A n
  | replays_alloc ws A A' n e s z :
      replays lo hi sh ws A n -> SM_DEBUG_DECODE e = 0 -> SM_TYPE_DECODE e = SM_ALLOC ->
      s = SM_OFFSET_DECODE e * 2 ^ sh + lo -> z = SM_RUN_DECODE e * 2 ^ sh -> lo <= s -> s + z <= hi ->
      (forall o, s <= o < s + z -> ~ A o) -> (forall o, A' o <-> A o \/ s <= o < s + z) ->
      replays lo hi sh (ws ++ [e]) A' (n + z)
  | replays_free ws A A' n e s z :
      replays lo hi sh ws A n -> SM_DEBUG_DECODE e = 0 -> SM_TYPE_DECODE e = SM_FREE ->
      s = SM_OFFSET_DECODE e * 2 ^ sh + lo -> z = SM_RUN_DECODE e * 2 ^ sh -> lo <= s -> s + z <= hi ->
      (forall o, s <= o < s + z -> A o) -> (forall o, A' o <-> A o /\ ~ (s <= o < s + z)) ->
      replays lo hi sh (ws ++ [e]) A' (n - z).

Lemma replays_ext lo hi sh ws A A' n : (forall o, A o <-> A' o) -> replays lo hi sh ws A n -> replays lo hi sh ws A' n.
Proof.
  intros HE H. revert A' HE. induction H as [A HA|ws A n e H IH He|ws A A1 n e s z H IH He Ht Hs Hz Hlo Hhi Hd HA|ws A A1 n e s z H IH He Ht Hs Hz Hlo Hhi Hd HA];
    intros A' HE.
  - constructor. intros o. rewrite <-HE. apply HA.
  - constructor; [by apply IH|done].
  - eapply replays_alloc; try done. intros o. rewrite <-HE. apply HA.
  - eapply replays_free; try done. intros o. rewrite <-HE. apply HA.
Qed.

Lemma replays_range lo hi sh ws A n : replays lo hi sh ws A n -> forall o, A o -> lo <= o < hi.
Proof.
  induction 1 as [A HA|ws A n e H IH He|ws A A1 n e s z H IH He Ht Hs Hz Hlo Hhi Hd HA|ws A A1 n e s z H IH He Ht Hs Hz Hlo Hhi Hd HA]; intros o Ho.
  - by destruct (HA o). - auto.
  - apply HA in Ho as [Ho|Ho]; [auto|lia].
  - apply HA in Ho as [Ho _]. auto.
Qed.

(** ** Loading *)

Section load.
Context {T V D : Type} `{HI : AvlIface T} {cap : nat} {HL : AvlLaws T cap} `{HD : ObjectStore D} {HDL : ObjectStoreLaws D}.
Context (zfs_recover : bool) (vec : V -> space_map_ops T V).
Implicit Types (sm : space_map T V) (L : list space_seg).

(** The set a map of type [maptype] holds when [A] is allocated. *)
Definition map_of sm (maptype : Z) (A : Z -> Prop) (o : Z) : Prop :=
  if maptype =? SM_ALLOC then A o else sm_start sm <= o < sm_start sm + sm_size sm /\ ~ A o.
Definition space_of sm (maptype n : Z) : Z := if maptype =? SM_ALLOC then n else sm_size sm - n.

Abbreviation log_of sm := (replays (sm_start sm) (sm_start sm + sm_size sm) (sm_shift sm)).

Lemma decode_ranges e : 0 <= SM_OFFSET_DECODE e /\ 1 <= SM_RUN_DECODE e.
Proof.
  unfold SM_OFFSET_DECODE, SM_RUN_DECODE. rewrite !bf64_decode by lia.
  pose proof (Z.mod_pos_bound (e / 2 ^ 16) (2 ^ 47)). pose proof (Z.mod_pos_bound (e / 2 ^ 0) (2 ^ 15)). lia.
Qed.

(** An entry's range is a range of the map, and what [load_entry] computes. *)
Lemma entry_range sm e s z :
  sm_geom (cap := cap) sm -> sm_start sm mod 2 ^ sm_shift sm = 0 ->
  s = SM_OFFSET_DECODE e * 2 ^ sm_shift sm + sm_start sm -> z = SM_RUN_DECODE e * 2 ^ sm_shift sm ->
  s + z <= sm_start sm + sm_size sm ->
  u64 (u64 (Z.shiftl (SM_OFFSET_DECODE e) (sm_shift sm)) + sm_start sm) = s /\ u64 (Z.shiftl (SM_RUN_DECODE e) (sm_shift sm)) = z /\
  range_ok sm s z.
Proof.
  intros [G1 G2 G3 G4 G5] Ha Hs Hz Hhi. destruct (decode_ranges e) as [Ho Hr].
  assert (0 < 2 ^ sm_shift sm) as Hp by (apply Z.pow_pos_nonneg; lia). rewrite !Z.shiftl_mul_pow2 by lia.
  assert (0 <= SM_OFFSET_DECODE e * 2 ^ sm_shift sm) by nia. assert (0 < SM_RUN_DECODE e * 2 ^ sm_shift sm) by nia.
  rewrite <-Hz. rewrite u64_add_l, <-Hs. rewrite !u64_small by (unfold is_u64; lia). split; [done|]. split; [done|].
  split; [lia|lia|lia| |].
  - rewrite Hs, Z.add_comm, Z.mod_add by lia. done.
  - rewrite Hz. apply Z.mod_mul. lia.
Qed.

Lemma load_entries_spec maptype sm0 L0 ws A n :
  maptype = SM_ALLOC \/ maptype = SM_FREE -> sm_wf (cap := cap) sm0 L0 -> sm_start sm0 mod 2 ^ sm_shift sm0 = 0 ->
  (forall o, covers L0 o <-> map_of sm0 maptype (fun _ => False) o) -> sm_space sm0 = space_of sm0 maptype 0 ->
  log_of sm0 ws A n ->
  exists sm L, foldM (load_entry zfs_recover maptype (sm_start sm0)) sm0 ws = Some sm /\ sm_wf (cap := cap) sm L /\ same_map sm0 sm /\
    (forall o, covers L o <-> map_of sm0 maptype A o) /\ sm_space sm = space_of sm0 maptype n.
Proof using HL.
  intros Hty Hwf0 Hal Hcov0 Hsp0 Hlog.
  induction Hlog as [A HA|ws A n e H IH He|ws A A1 n e s z H IH He Ht Hs Hz Hlo Hhi Hd HA|ws A A1 n e s z H IH He Ht Hs Hz Hlo Hhi Hd HA].
  - exists sm0, L0. split; [done|]. split; [done|]. split; [apply same_map_refl|]. split; [|done].
    intros o. rewrite Hcov0. unfold map_of. specialize (HA o). destruct (maptype =? SM_ALLOC); tauto.
  - destruct IH as (sm & L & E & Hwf & Hsame & Hcov & Hsp). exists sm, L. rewrite foldM_app, E. cbn [mbind option_bind foldM].
    unfold load_entry. rewrite (proj2 (Z.eqb_neq _ _)) by done. done.
  - destruct IH as (sm & L & E & Hwf & Hsame & Hcov & Hsp). rewrite foldM_app, E. cbn [mbind option_bind foldM].
    pose proof Hsame as (E1 & E2 & E3 & _). rewrite <-E1, <-E3 in Hs. rewrite <-E3 in Hz. rewrite <-E1, <-E2 in Hhi.
    destruct (entry_range sm e s z (sf_geom _ _ Hwf)) as (Es & Ez & Hr); [by rewrite E1, E3|done..|].
    unfold load_entry. rewrite He, <-E1, Es, Ez, Ht. cbn [Z.eqb negb]. unfold map_of, space_of in *.
    destruct Hty as [->| ->]; cbn [SM_ALLOC SM_FREE Z.eqb Pos.eqb] in *.
    + destruct (add_spec zfs_recover sm L s z Hwf Hr) as (sm' & L' & -> & Hwf' & Hcov' & Hsame' & Hsp'); [intros o Ho; rewrite Hcov; auto|].
      cbn [mbind option_bind]. exists sm', L'. split; [done|]. split; [done|]. split; [by eapply same_map_trans|]. split; [|lia].
      intros o. rewrite Hcov', Hcov, HA. done.
    + destruct (remove_spec zfs_recover sm L s z Hwf Hr) as (sm' & L' & -> & Hwf' & Hcov' & Hsame' & Hsp' & _).
      { intros o Ho. rewrite Hcov. specialize (Hd o Ho). rewrite E1, E2 in Hhi. split; [lia|done]. }
      cbn [mbind option_bind]. exists sm', L'. split; [done|]. split; [done|]. split; [by eapply same_map_trans|]. split; [|lia].
      intros o. rewrite Hcov', Hcov, HA. tauto.
  - destruct IH as (sm & L & E & Hwf & Hsame & Hcov & Hsp). rewrite foldM_app, E. cbn [mbind option_bind foldM].
    pose proof Hsame as (E1 & E2 & E3 & _). rewrite <-E1, <-E3 in Hs. rewrite <-E3 in Hz. rewrite <-E1, <-E2 in Hhi.
    destruct (entry_range sm e s z (sf_geom _ _ Hwf)) as (Es & Ez & Hr); [by rewrite E1, E3|done..|].
    unfold load_entry. rewrite He, <-E1, Es, Ez, Ht. cbn [Z.eqb negb]. unfold map_of, space_of in *.
    destruct Hty as [->| ->]; cbn [SM_ALLOC SM_FREE Z.eqb Pos.eqb] in *.
    + destruct (remove_spec zfs_recover sm L s z Hwf Hr) as (sm' & L' & -> & Hwf' & Hcov' & Hsame' & Hsp' & _); [intros o Ho; rewrite Hcov; auto|].
      cbn [mbind option_bind]. exists sm', L'. split; [done|]. split; [done|]. split; [by eapply same_map_trans|]. split; [|lia].
      intros o. rewrite Hcov', Hcov, HA. done.
    + destruct (add_spec zfs_recover sm L s z Hwf Hr) as (sm' & L' & -> & Hwf' & Hcov' & Hsame' & Hsp').
      { intros o Ho. rewrite Hcov. specialize (Hd o Ho). tauto. }
      cbn [mbind option_bind]. exists sm', L'. split; [done|]. split; [done|]. split; [by eapply same_map_trans|]. split; [|lia].
      intros o. rewrite Hcov', Hcov, HA, <-E1, <-E2. destruct (decide (s <= o < s + z)); [|tauto]. split; [|tauto].
      intros _. split; [lia|tauto].
Qed.

Lemma phase_8 m : P2PHASE (8 * m) 8 = 0.
Proof.
  change (P2PHASE (8 * m) (2 ^ 3) = 0). rewrite P2PHASE_mod by lia. change (2 ^ 3) with 8. rewrite Z.mul_comm. apply Z.mod_mul. lia.
Qed.

(** Reading the log block by block is replaying it. *)
Lemma load_loop_spec maptype mapstart smo os ws sm0 sm_end k : ws `prefix_of` os_content os (smo_object smo) -> forall i sm,
  smo_objsize smo = 8 * Z.of_nat (length ws) -> smo_objsize smo + 4096 < 2 ^ 64 ->
  foldM (load_entry zfs_recover maptype mapstart) sm0 ws = Some sm_end ->
  foldM (load_entry zfs_recover maptype mapstart) sm0 (take i ws) = Some sm ->
  (length ws <= i + 512 * k)%nat -> (i <= length ws + 512)%nat ->
  exists sm' err, load_loop zfs_recover k maptype mapstart smo os sm (8 * Z.of_nat i) = Some (sm', err) /\
    ((err = 0 /\ sm' = sm_end) \/
     (err <> 0 /\ exists j, foldM (load_entry zfs_recover maptype mapstart) sm0 (take j ws) = Some sm')).
Proof using HDL.
  intros Hpre. induction k as [|k IH]; intros i sm Hsz Hmax Hend Hsm Hk Hi; cbn [load_loop].
  - rewrite (proj2 (Z.ltb_ge _ _)) by lia. exists sm, 0. split; [done|]. left. split; [done|].
    rewrite take_ge in Hsm by lia. congruence.
  - destruct (Z.ltb_spec (8 * Z.of_nat i) (smo_objsize smo)) as [Hlt|Hge].
    2:{ exists sm, 0. split; [done|]. left. split; [done|]. rewrite take_ge in Hsm by lia. congruence. }
    change (Z.shiftl 1 SPACE_MAP_BLOCKSHIFT) with 4096.
    set (m := Nat.min (length ws - i) 512). assert (Z.min (smo_objsize smo - 8 * Z.of_nat i) 4096 = 8 * Z.of_nat m) as -> by (unfold m; lia).
    assert (0 < m)%nat by (unfold m; lia). rewrite phase_8. cbn [Z.eqb]. rewrite (proj2 (Z.eqb_neq _ _)) by lia. cbn [negb].
    destruct (read_law os (smo_object smo) i m) as [(e & He & ->)| ->]; [apply prefix_length in Hpre; unfold m; lia|..].
    + exists sm, e. split; [done|]. right. split; [done|]. by exists i.
    + destruct Hpre as [tl ->]. rewrite drop_app_le, take_app_le by (rewrite ?length_drop; unfold m; lia).
      assert (take (i + m) ws = take i ws ++ take m (drop i ws)) as Et by (by rewrite take_take_drop).
      pose proof Hend as Hend'. rewrite <-(take_drop (i + m) ws), foldM_app, Et, foldM_app, Hsm in Hend'. cbn [mbind option_bind] in Hend'.
      destruct (foldM (load_entry zfs_recover maptype mapstart) sm (take m (drop i ws))) as [sm1|] eqn:E1; [|done].
      cbn [mbind option_bind]. rewrite (u64_small (8 * Z.of_nat i + 4096)) by (unfold is_u64; lia).
      replace (8 * Z.of_nat i + 4096) with (8 * Z.of_nat (i + 512)) by lia.
      apply IH; [done|done|done| |lia|lia].
      destruct (Nat.le_gt_cases (i + 512) (length ws)) as [Hle|Hgt].
      * assert (m = 512%nat) as Em by (unfold m; lia). rewrite Em in *. rewrite Et, foldM_app, Hsm. done.
      * rewrite take_ge by lia. rewrite <-(take_ge ws (i + m)) by (unfold m; lia). rewrite Et, foldM_app, Hsm. done.
Qed.

Lemma replays_prefix lo hi sh ws A n j : replays lo hi sh ws A n -> exists A' n', replays lo hi sh (take j ws) A' n'.
Proof.
  intros H. revert j. induction H as [A HA|ws A n e H IH He|ws A A1 n e s z H IH He Ht Hs Hz Hlo Hhi Hd HA|ws A A1 n e s z H IH He Ht Hs Hz Hlo Hhi Hd HA]; intros j.
  - rewrite take_nil. exists A, 0. by constructor.
  - destruct (Nat.le_gt_cases j (length ws)); [rewrite take_app_le by done; apply IH|].
    rewrite take_ge by (rewrite length_app; cbn; lia). eexists _, _. by eapply replays_debug.
  - destruct (Nat.le_gt_cases j (length ws)); [rewrite take_app_le by done; apply IH|].
    rewrite take_ge by (rewrite length_app; cbn; lia). eexists _, _. by eapply replays_alloc.
  - destruct (Nat.le_gt_cases j (length ws)); [rewrite take_app_le by done; apply IH|].
    rewrite take_ge by (rewrite length_app; cbn; lia). eexists _, _. by eapply replays_free.
Qed.

Lemma sm_wf_load sm L loaded loading ops : sm_wf (cap := cap) sm L -> sm_wf (cap := cap) (with_load sm loaded loading ops) L.
Proof. intros [[G1 G2 G3 G4 G5] H2 H3 H4]. by split; [split|..]. Qed.
Lemma sm_wf_ppd sm L ppd : sm_wf (cap := cap) sm L -> sm_wf (cap := cap) (with_ppd sm ppd) L.
Proof. intros [[G1 G2 G3 G4 G5] H2 H3 H4]. by split; [split|..]. Qed.

(** The map the log entries are applied to: empty, or all free. *)
Lemma load_start maptype sm :
  maptype = SM_ALLOC \/ maptype = SM_FREE -> sm_wf (cap := cap) sm [] -> range_ok sm (sm_start sm) (sm_size sm) ->
  exists sm0 L0, (if maptype =? SM_FREE then space_map_add zfs_recover sm (sm_start sm) (sm_size sm) else Some sm) = Some sm0 /\
    sm_wf (cap := cap) sm0 L0 /\ same_map sm sm0 /\
    (forall o, covers L0 o <-> map_of sm0 maptype (fun _ => False) o) /\ sm_space sm0 = space_of sm0 maptype 0.
Proof using HL.
  intros Hty Hwf Hr. pose proof (sf_space _ _ Hwf) as Hsp. cbn in Hsp. unfold map_of, space_of.
  destruct Hty as [->| ->]; cbn [SM_ALLOC SM_FREE Z.eqb Pos.eqb].
  - exists sm, []. split; [done|]. split; [done|]. split; [apply same_map_refl|]. split; [|done]. intros o. apply covers_nil.
  - destruct (add_spec zfs_recover sm [] _ _ Hwf Hr) as (sm0 & L0 & -> & Hwf0 & Hcov & Hsame & Hsp0).
    { intros o _ Hc. by apply covers_nil in Hc. }
    exists sm0, L0. split; [done|]. split; [done|]. split; [done|]. destruct Hsame as (E1 & E2 & _). rewrite E1, E2.
    split; [|lia]. intros o. rewrite Hcov, covers_nil. tauto.
Qed.

(** The picker's [smop_load] only sets up its private data, as [ppd]. *)
Definition load_ops_ok (ops : option V) (ppd : list Z) : Prop :=
  match ops with
  | None => ppd = []
  | Some v => forall sm, sm_ppd sm = [] -> smop_load (vec v) sm = Some (with_ppd sm ppd)
  end.

(** The log of [smo] may be a prefix of the object's content. *)
Lemma load_spec sm ops ppd maptype smo os ws A n :
  ws `prefix_of` os_content os (smo_object smo) ->
  maptype = SM_ALLOC \/ maptype = SM_FREE -> sm_wf (cap := cap) sm [] -> range_ok sm (sm_start sm) (sm_size sm) ->
  sm_loaded sm = false -> sm_loading sm = false -> sm_ops sm = None -> sm_ppd sm = [] ->
  smo_objsize smo = 8 * Z.of_nat (length ws) -> smo_objsize smo + 4096 < 2 ^ 64 -> smo_alloc smo = n ->
  log_of sm ws A n -> load_ops_ok ops ppd ->
  exists sm' L' err, space_map_load zfs_recover vec sm ops maptype smo os = Some (sm', err) /\ sm_wf (cap := cap) sm' L' /\
    sm_loading sm' = false /\ same_geom sm sm' /\
    ((err = 0 /\ sm_loaded sm' = true /\ sm_ops sm' = ops /\ sm_ppd sm' = ppd /\ forall o, covers L' o <-> map_of sm maptype A o) \/
     (err <> 0 /\ sm_loaded sm' = false /\ sm_ops sm' = None /\ sm_ppd sm' = [] /\ L' = [])).
Proof using HL HDL.
  intros Hpre Hty Hwf Hr Hld Hlg Hops Hppd Hsz Hmax Hal Hlog Hok. unfold space_map_load, space_map_load_wait. rewrite Hlg. cbn [negb mbind option_bind].
  rewrite Hld, Hops. pose proof (sf_space _ _ Hwf) as Hsp. cbn in Hsp.
  change (sm_space (with_load sm false true None)) with (sm_space sm). rewrite Hsp. cbn [Z.eqb].
  apply (sm_wf_load _ _ false true None) in Hwf. set (sm1 := with_load sm false true None) in *.
  assert (range_ok sm1 (sm_start sm1) (sm_size sm1)) as Hr1 by (by destruct Hr; split).
  destruct (load_start maptype sm1 Hty Hwf Hr1) as (sm0 & L0 & E0 & Hwf0 & Hsame0 & Hcov0 & Hsp0).
  assert ((if maptype =? SM_FREE then
             let* sm2 := space_map_add zfs_recover sm1 (sm_start sm1) (sm_size sm1) in Some (sm2, u64 (sm_size sm2 - smo_alloc smo))
           else Some (sm1, smo_alloc smo)) = Some (sm0, if maptype =? SM_FREE then u64 (sm_size sm0 - n) else n)) as ->.
  { rewrite Hal. destruct (maptype =? SM_FREE); [by rewrite E0|congruence]. }
  cbn [mbind option_bind]. pose proof Hsame0 as (E1 & E2 & E3 & E4 & E5 & E6 & E7).
  change (sm_start sm) with (sm_start sm1) in *. change (sm_size sm) with (sm_size sm1) in *. change (sm_shift sm) with (sm_shift sm1) in *.
  rewrite <-E1, <-E2, <-E3 in Hlog. rewrite <-E1.
  assert (sm_start sm0 mod 2 ^ sm_shift sm0 = 0) as Ha0 by (destruct Hr1; by rewrite E1, E3).
  destruct (load_entries_spec maptype sm0 L0 ws A n Hty Hwf0 Ha0 Hcov0 Hsp0 Hlog) as (sme & Le & Ee & Hwfe & Hsamee & Hcove & Hspe).
  destruct (load_loop_spec maptype (sm_start sm0) smo os ws sm0 sme (load_fuel smo) Hpre 0 sm0) as (sm' & err & El & Hres); try done.
  { unfold load_fuel. rewrite Hsz, Z.shiftr_div_pow2 by done. change (2 ^ SPACE_MAP_BLOCKSHIFT) with 4096.
    pose proof (Z.div_mod (8 * Z.of_nat (length ws)) 4096). pose proof (Z.mod_pos_bound (8 * Z.of_nat (length ws)) 4096).
    assert (0 <= 8 * Z.of_nat (length ws) / 4096) by (apply Z.div_pos; lia). lia. }
  { lia. }
  change (8 * Z.of_nat 0) with 0 in El. rewrite El. cbn [mbind option_bind].
  destruct Hres as [[-> ->]|[Herr [j Hj]]].
  - assert (sm_space sme = (if maptype =? SM_FREE then u64 (sm_size sm0 - n) else n)) as Hspace.
    { rewrite Hspe. unfold space_of in *. destruct Hty as [->| ->]; cbn [SM_ALLOC SM_FREE Z.eqb Pos.eqb] in *; [done|].
      rewrite u64_small; [done|]. pose proof (sf_geom _ _ Hwfe) as [? ? ? _ _].
      pose proof (segs_total _ _ _ _ (sf_segs _ _ Hwfe)) as Ht. rewrite <-(sf_space _ _ Hwfe) in Ht. unfold is_u64.
      destruct Hsamee as (? & ? & _). lia. }
    cbn [Z.eqb]. rewrite Hspace, Z.eqb_refl.
    assert (exists sm2, match ops with None => Some (with_load sme true true ops) | Some v => smop_load (vec v) (with_load sme true true ops) end
      = Some sm2 /\ sm_wf (cap := cap) sm2 Le /\ same_geom sme sm2 /\ sm_loaded sm2 = true /\ sm_ops sm2 = ops /\ sm_ppd sm2 = ppd) as (sm2 & -> & Hwf2 & Hg2 & H2 & H3 & H4).
    { destruct ops as [v|]; cbn in Hok.
      - rewrite (Hok (with_load sme true true (Some v))) by (cbn [sm_ppd with_load]; destruct Hsamee as (_ & _ & _ & _ & _ & _ & ->); by rewrite E7).
        eexists. split; [done|]. split; [|done]. by apply sm_wf_ppd, sm_wf_load.
      - eexists. split; [done|]. split; [by apply sm_wf_load|]. split; [done|]. split; [done|]. split; [done|]. cbn [sm_ppd with_load].
        destruct Hsamee as (_ & _ & _ & _ & _ & _ & ->). rewrite E7, Hok. done. }
    cbn [mbind option_bind]. eexists _, Le, 0. split; [done|]. split; [by apply sm_wf_load|]. split; [done|].
    split; [exact (same_geom_trans sm1 _ sm2 (same_map_geom _ _ Hsame0) (same_geom_trans _ _ _ (same_map_geom _ _ Hsamee) Hg2))|]. left.
    split; [done|]. split; [done|]. split; [done|]. split; [done|]. intros o. rewrite Hcove. unfold map_of. rewrite E1, E2. done.
  - rewrite (proj2 (Z.eqb_neq _ _)) by done.
    destruct (replays_prefix _ _ _ _ _ _ j Hlog) as (A' & n' & Hlog').
    destruct (load_entries_spec maptype sm0 L0 _ A' n' Hty Hwf0 Ha0 Hcov0 Hsp0 Hlog') as (smj & Lj & Ej & Hwfj & Hsamej & _).
    rewrite Hj in Ej. injection Ej as <-.
    destruct (vacate_spec sm' Lj Hwfj) as (smv & Lv & _ & Hwfv & Hsamev & Hv). rewrite Hv.
    assert (forall l (d : unit), foldM (on_seg (fun d _ _ => Some d)) d l = Some d) as Hfold.
    { induction l as [|x l IHl]; intros d; [done|]. cbn. apply IHl. }
    rewrite Hfold. cbn [mbind option_bind]. eexists _, [], err. split; [done|]. split; [by apply sm_wf_load|]. split; [done|].
    split; [exact (same_geom_trans sm1 _ smv (same_map_geom _ _ Hsame0) (same_geom_trans _ _ _ (same_map_geom _ _ Hsamej) (same_map_geom _ _ Hsamev)))|]. right.
    split; [done|]. destruct Hsamev as (_ & _ & _ & V4 & _ & V6 & V7), Hsamej as (_ & _ & _ & J4 & _ & J6 & J7).
    cbn [sm_loaded sm_ops sm_ppd with_load]. rewrite V4, V6, V7, J4, J6, J7, E4, E6, E7. done.
Qed.
End load.

(** ** Segments in any order *)

Lemma covers_perm L L' o : L ≡ₚ L' -> covers L o <-> covers L' o.
Proof. intros H. unfold covers. by rewrite H. Qed.
#[export] Instance covers_proper : Proper ((≡ₚ) ==> eq ==> iff) covers.
Proof. intros L L' HL o ? <-. by apply covers_perm. Qed.
#[export] Instance total_proper : Proper ((≡ₚ) ==> eq) total.
Proof. intros L L' H. induction H; rewrite ?total_cons; lia. Qed.

Fixpoint disjoint_segs (L : list space_seg) : Prop :=
  match L with [] => True | x :: L => (forall o, ss_start x <= o < ss_end x -> ~ covers L o) /\ disjoint_segs L end.
#[export] Instance disjoint_proper : Proper ((≡ₚ) ==> iff) disjoint_segs.
Proof.
  assert (forall L L', L ≡ₚ L' -> disjoint_segs L -> disjoint_segs L') as H.
  { induction 1 as [|x L L' Hp IH|x y L|L1 L2 L3 _ IH1 _ IH2]; cbn [disjoint_segs]; [done| |..].
    - intros [H1 H2]. split; [|auto]. intros o Ho. rewrite <-(covers_perm _ _ o Hp). by apply H1.
    - setoid_rewrite covers_cons. intros (H1 & H2 & H3). split; [|split; [|done]].
      + intros o Ho [Ho'|Ho']; [eapply H1; [exact Ho'|]; by left|by eapply H2].
      + intros o Ho Hc. eapply H1; [exact Ho|]. by right.
    - auto. }
  intros L L' Hp. split; apply H; by symmetry in Hp || done.
Qed.

Lemma chain_disjoint lo L : chain lo L -> disjoint_segs L.
Proof.
  revert lo. induction L as [|x L IH]; intros lo; [done|]. intros [Hx Hc]. split; [|by eapply IH].
  intros o Ho (y & Hy & Hyo)%Exists_exists. destruct (chain_bounds _ _ _ Hc Hy). lia.
Qed.

(** ** Syncing *)

(** The runs of a segment, in units. *)
Fixpoint run_list (k : nat) (start size : Z) : list (Z * Z) :=
  if size =? 0 then []
  else match k with
       | O => []
       | S k => let r := Z.min size SM_RUN_MAX in (start, r) :: run_list k (start + r) (size - r)
       end.

(** The log after the range of [size] units from unit [start] was allocated or
    freed. *)
Definition logged (maptype : Z) (A A' : Z -> Prop) (n n' s z : Z) : Prop :=
  (maptype = SM_ALLOC /\ (forall o, s <= o < s + z -> ~ A o) /\ (forall o, A' o <-> A o \/ s <= o < s + z) /\ n' = n + z) \/
  (maptype = SM_FREE /\ (forall o, s <= o < s + z -> A o) /\ (forall o, A' o <-> A o /\ ~ (s <= o < s + z)) /\ n' = n - z).

Lemma logged_exists maptype A n s z : maptype = SM_ALLOC \/ maptype = SM_FREE ->
  (forall o, s <= o < s + z -> if maptype =? SM_ALLOC then ~ A o else A o) ->
  logged maptype A (fun o => if maptype =? SM_ALLOC then A o \/ s <= o < s + z else A o /\ ~ (s <= o < s + z))
    n (if maptype =? SM_ALLOC then n + z else n - z) s z.
Proof. intros [->| ->] H; [left|right]; (split; [done|]); (split; [exact H|]); done. Qed.

(** What is logged in two steps. *)
Lemma logged_trans maptype A A1 A2 n n1 n2 s z z1 : 0 <= z1 <= z ->
  logged maptype A A1 n n1 s z1 -> logged maptype A1 A2 n1 n2 (s + z1) (z - z1) -> logged maptype A A2 n n2 s z.
Proof.
  intros Hz [(-> & D1 & C1 & ->)|(-> & D1 & C1 & ->)] [(E & D2 & C2 & ->)|(E & D2 & C2 & ->)]; try done; [left|right]; (split; [done|]); (split; [|split; [|lia]]).
  - intros o Ho. destruct (decide (o < s + z1)); [apply D1; lia|]. specialize (D2 o). rewrite C1 in D2. intros HA. apply D2; [lia|by left].
  - intros o. rewrite C2, C1. intuition lia.
  - intros o Ho. destruct (decide (o < s + z1)); [apply D1; lia|]. specialize (D2 o). rewrite C1 in D2. apply D2. lia.
  - intros o. rewrite C2, C1. intuition lia.
Qed.

Lemma run_max : SM_RUN_MAX = 2 ^ 15.
Proof. reflexivity. Qed.

Lemma replays_entry lo hi sh ws A A' n n' maptype start run :
  replays lo hi sh ws A n -> 0 <= start < 2 ^ 47 -> 1 <= run <= 2 ^ 15 -> 0 <= sh -> lo + (start + run) * 2 ^ sh <= hi ->
  logged maptype A A' n n' (lo + start * 2 ^ sh) (run * 2 ^ sh) ->
  replays lo hi sh (ws ++ [sm_entry maptype start run]) A' n'.
Proof.
  intros Hr Hs Hrun Hsh Hhi Hlog. assert (0 < 2 ^ sh) by (apply Z.pow_pos_nonneg; lia).
  assert (0 <= maptype <= 1) as Hty by (destruct Hlog as [(-> & _)|(-> & _)]; unfold SM_ALLOC, SM_FREE; lia).
  destruct (sm_entry_decode maptype start run Hs Hty Hrun) as (E1 & E2 & E3 & E4).
  destruct Hlog as [(-> & Hd & Hc & ->)|(-> & Hd & Hc & ->)].
  - apply (replays_alloc _ _ _ _ A _ _ _ (lo + start * 2 ^ sh) (run * 2 ^ sh)); rewrite ?E3, ?E4; done || lia || nia.
  - apply (replays_free _ _ _ _ A _ _ _ (lo + start * 2 ^ sh) (run * 2 ^ sh)); rewrite ?E3, ?E4; done || lia || nia.
Qed.

Lemma replays_runs lo hi sh maptype k : forall start size ws A A' n n',
  replays lo hi sh ws A n -> 0 <= sh -> 0 <= start -> 0 <= size -> size <= Z.of_nat k * SM_RUN_MAX -> start + size <= 2 ^ 47 ->
  lo + (start + size) * 2 ^ sh <= hi -> logged maptype A A' n n' (lo + start * 2 ^ sh) (size * 2 ^ sh) ->
  replays lo hi sh (ws ++ ((fun r => sm_entry maptype r.1 r.2) <$> run_list k start size)) A' n'.
Proof.
  induction k as [|k IH]; intros start size ws A A' n n' Hr Hsh Hs Hz Hk H47 Hhi Hlog;
    (destruct (Z.eqb_spec size 0) as [->|Hne]; [cbn [run_list Z.eqb fmap list_fmap]|]).
  - destruct Hlog as [(-> & _ & Hc & ->)|(-> & _ & Hc & ->)]; rewrite app_nil_r, ?Z.mul_0_l, ?Z.add_0_r, ?Z.sub_0_r in *;
      (eapply replays_ext; [|exact Hr]); intros o; rewrite Hc; intuition lia.
  - lia.
  - destruct Hlog as [(-> & _ & Hc & ->)|(-> & _ & Hc & ->)]; rewrite app_nil_r, ?Z.mul_0_l, ?Z.add_0_r, ?Z.sub_0_r in *;
      (eapply replays_ext; [|exact Hr]); intros o; rewrite Hc; intuition lia.
  - cbn [run_list]. rewrite (proj2 (Z.eqb_neq _ _)) by done. rewrite run_max in *. set (r := Z.min size (2 ^ 15)).
    assert (0 < 2 ^ sh) by (apply Z.pow_pos_nonneg; lia). cbn [fmap list_fmap fst snd].
    rewrite (cons_middle _ ws), app_assoc.
    assert (maptype = SM_ALLOC \/ maptype = SM_FREE) as Hty by (destruct Hlog as [[? _]|[? _]]; auto).
    pose proof (logged_exists maptype A n (lo + start * 2 ^ sh) (r * 2 ^ sh) Hty) as Hl1.
    set (A1 := fun o => if maptype =? SM_ALLOC then _ else _) in *. set (n1 := if maptype =? SM_ALLOC then n + _ else _) in *.
    assert (r * 2 ^ sh <= size * 2 ^ sh) as Hrz by nia. assert (0 <= r * 2 ^ sh) by nia.
    assert (logged maptype A A1 n n1 (lo + start * 2 ^ sh) (r * 2 ^ sh)) as Hl2.
    { apply Hl1. intros o Ho. destruct Hlog as [(-> & Hd & _)|(-> & Hd & _)]; cbn [SM_ALLOC SM_FREE Z.eqb Pos.eqb]; apply Hd; lia. }
    clear Hl1.
    pose proof (replays_entry lo hi sh ws A _ n _ maptype start r Hr ltac:(lia) ltac:(lia) Hsh ltac:(nia) Hl2) as Hr1.
    eapply IH; [exact Hr1|done|lia|lia|lia|lia|nia|].
    replace (lo + (start + r) * 2 ^ sh) with (lo + start * 2 ^ sh + r * 2 ^ sh) by lia.
    replace ((size - r) * 2 ^ sh) with (size * 2 ^ sh - r * 2 ^ sh) by lia.
    unfold A1, n1. destruct Hlog as [(-> & Hd & Hc & ->)|(-> & Hd & Hc & ->)]; cbn [SM_ALLOC SM_FREE Z.eqb Pos.eqb]; [left|right].
    + split; [done|]. split; [intros o Ho [Ho'|Ho']; [apply (Hd o); [lia|done]|lia]|]. split; [|lia]. intros o. rewrite Hc. intuition lia.
    + split; [done|]. split; [intros o Ho; split; [apply Hd|]; lia|]. split; [|lia]. intros o. rewrite Hc. intuition lia.
Qed.

Section sync.
Context {T V D : Type} `{HI : AvlIface T} {cap : nat} {HL : AvlLaws T cap} `{HD : ObjectStore D} {HDL : ObjectStoreLaws D}.
Implicit Types (sm : space_map T V) (L : list space_seg) (st : sync_state (D := D)).

(** The object and the buffer together hold [W]. *)
Record sync_inv (bufsize obj alloc : Z) st (W : list Z) : Prop := {
  si_words : os_content (sy_os st) obj ++ sy_buf st = W;
  si_obj : smo_object (sy_smo st) = obj;
  si_size : smo_objsize (sy_smo st) = 8 * Z.of_nat (length (os_content (sy_os st) obj));
  si_alloc : smo_alloc (sy_smo st) = alloc;
  si_buf : 8 * Z.of_nat (length (sy_buf st)) <= bufsize
}.

Lemma sync_emit_spec bufsize obj alloc st W e :
  sync_inv bufsize obj alloc st W -> 8 <= bufsize -> bufsize mod 8 = 0 -> Z.of_nat (length W) < 2 ^ 60 ->
  sync_inv bufsize obj alloc (sync_emit bufsize st e) (W ++ [e]).
Proof using HDL.
  intros [H1 H2 H3 H4 H5] Hb Hb8 Hlen. unfold sync_emit. pose proof (f_equal length H1) as Hl. rewrite length_app in Hl.
  destruct (Z.eqb_spec (8 * Z.of_nat (length (sy_buf st))) bufsize) as [E|E].
  - rewrite H2, H3. assert (os_content (dmu_write (sy_os st) obj (8 * Z.of_nat (length (os_content (sy_os st) obj))) (sy_buf st)) obj = W) as Ew
      by (by rewrite write_law). split; cbn [sy_buf sy_os sy_smo smo_object smo_objsize smo_alloc grow app].
    + by rewrite Ew.
    + done.
    + rewrite Ew, H3, u64_small by (unfold is_u64; lia). lia.
    + done.
    + cbn. lia.
  - split; cbn [sy_buf sy_os sy_smo]; try done; [by rewrite app_assoc, H1|].
    rewrite length_app. cbn [length]. apply Z.mod_divide in Hb8 as [c Hc]; [|lia]. lia.
Qed.

Lemma sync_runs_spec bufsize obj alloc maptype k : forall st W start size,
  sync_inv bufsize obj alloc st W -> 8 <= bufsize -> bufsize mod 8 = 0 ->
  0 <= start -> 0 <= size -> start + size <= 2 ^ 47 -> size <= Z.of_nat k * SM_RUN_MAX ->
  Z.of_nat (length W) + Z.of_nat (length (run_list k start size)) < 2 ^ 60 ->
  exists st', sync_runs k bufsize maptype st start size = Some st' /\
    sync_inv bufsize obj alloc st' (W ++ ((fun r => sm_entry maptype r.1 r.2) <$> run_list k start size)).
Proof using HDL.
  induction k as [|k IH]; intros st W start size Hst Hb Hb8 Hs Hz H47 Hk Hlen; cbn [sync_runs run_list] in *;
    (destruct (Z.eqb_spec size 0) as [->|Hne]; [exists st; rewrite app_nil_r; done|]); [lia|].
  rewrite run_max in *. set (r := Z.min size (2 ^ 15)) in *. rewrite (u64_small (start + r)), (u64_small (size - r)) by (unfold is_u64; lia).
  cbn [length] in Hlen. destruct (IH (sync_emit bufsize st (sm_entry maptype start r)) (W ++ [sm_entry maptype start r]) (start + r) (size - r))
    as (st' & E & Hst'); try lia; try done.
  - apply sync_emit_spec; done || lia.
  - rewrite length_app. cbn [length]. lia.
  - exists st'. split; [done|]. rewrite <-app_assoc in Hst'. done.
Qed.

(** The entries of a list of segments. *)
Definition seg_units sm (x : space_seg) : Z * Z :=
  ((ss_start x - sm_start sm) / 2 ^ sm_shift sm, (ss_end x - ss_start x) / 2 ^ sm_shift sm).
Definition seg_entries sm (maptype : Z) (x : space_seg) : list Z :=
  (fun r => sm_entry maptype r.1 r.2) <$> run_list (runs_fuel (seg_units sm x).2) (seg_units sm x).1 (seg_units sm x).2.
Definition map_entries sm (maptype : Z) L : list Z := concat (seg_entries sm maptype <$> L).

(** A segment of the map, in units. *)
Record seg_fits sm (x : space_seg) : Prop := {
  fit_start : sm_start sm <= ss_start x;
  fit_order : ss_start x < ss_end x;
  fit_end : ss_end x <= sm_start sm + sm_size sm;
  fit_units : ss_start x - sm_start sm = (seg_units sm x).1 * 2 ^ sm_shift sm /\
              ss_end x - ss_start x = (seg_units sm x).2 * 2 ^ sm_shift sm;
  fit_47 : (seg_units sm x).1 + (seg_units sm x).2 <= 2 ^ 47
}.

Lemma seg_fits_wf sm L x :
  sm_wf (cap := cap) sm L -> sm_start sm mod 2 ^ sm_shift sm = 0 -> Z.shiftr (sm_size sm) (sm_shift sm) <= 2 ^ 47 -> x ∈ L -> seg_fits sm x.
Proof.
  intros [[G1 G2 G3 G4 G5] _ [Hc Hl Ha] _] Hal H47 Hx. destruct (chain_bounds _ _ _ Hc Hx) as [Hx1 Hx2].
  pose proof (proj1 (Forall_forall _ _) Ha x Hx) as [Ha1 Ha2]. assert (0 < 2 ^ sm_shift sm) by (apply Z.pow_pos_nonneg; lia).
  rewrite Z.shiftr_div_pow2 in H47 by lia. unfold seg_units. set (P := 2 ^ sm_shift sm) in *.
  apply Z.mod_divide in Ha1 as [p Hp]; [|lia]. apply Z.mod_divide in Ha2 as [q Hq]; [|lia]. apply Z.mod_divide in Hal as [r Hr]; [|lia].
  split; [lia|lia|lia|..]; unfold seg_units; cbn [fst snd]; fold P.
  all: replace (ss_start x - sm_start sm) with ((p - r) * P) by lia; replace (ss_end x - ss_start x) with ((q - p) * P) by lia;
    rewrite !Z.div_mul by lia.
  - done.
  - apply (Z.le_trans _ (sm_size sm / P)); [|done]. apply Z.div_le_lower_bound; [done|]. nia.
Qed.

(** The runs of a segment, logged. *)
Lemma sync_seg_spec sm bufsize obj alloc maptype space st W x A A' n n' :
  sm_geom (cap := cap) sm -> seg_fits sm x -> sync_inv bufsize obj alloc st W -> 8 <= bufsize -> bufsize mod 8 = 0 ->
  Z.of_nat (length W) + Z.of_nat (length (seg_entries sm maptype x)) < 2 ^ 60 ->
  0 <= space - (ss_end x - ss_start x) < 2 ^ 64 ->
  replays (sm_start sm) (sm_start sm + sm_size sm) (sm_shift sm) W A n ->
  logged maptype A A' n n' (ss_start x) (ss_end x - ss_start x) ->
  exists st', on_seg (sync_seg bufsize maptype (sm_start sm) (sm_shift sm)) (space, st) x = Some (space - (ss_end x - ss_start x), st') /\
    sync_inv bufsize obj alloc st' (W ++ seg_entries sm maptype x) /\
    replays (sm_start sm) (sm_start sm + sm_size sm) (sm_shift sm) (W ++ seg_entries sm maptype x) A' n'.
Proof using HDL.
  intros [G1 G2 G3 G4 G5] [F1 F2 F3 [F4 F5] F6] Hst Hb Hb8 Hlen Hsp Hrep Hlog. unfold on_seg, sync_seg. cbn [fst snd].
  unfold seg_entries in *. set (us := (seg_units sm x).1) in *. set (uz := (seg_units sm x).2) in *.
  assert (0 < 2 ^ sm_shift sm) as HP by (apply Z.pow_pos_nonneg; lia). assert (0 <= us /\ 0 < uz) as [Hus Huz] by nia.
  rewrite (u64_small (ss_start x - sm_start sm)) by (unfold is_u64; lia). rewrite !Z.shiftr_div_pow2 by lia.
  change ((ss_start x - sm_start sm) / 2 ^ sm_shift sm) with us. change ((ss_end x - ss_start x) / 2 ^ sm_shift sm) with uz.
  assert (uz <= Z.of_nat (runs_fuel uz) * SM_RUN_MAX) as Hfuel.
  { unfold runs_fuel. rewrite run_max. pose proof (Z.div_mod uz (2 ^ 15)). pose proof (Z.mod_pos_bound uz (2 ^ 15)).
    assert (0 <= uz / 2 ^ 15) by (apply Z.div_pos; lia). lia. }
  rewrite length_fmap in Hlen.
  destruct (sync_runs_spec bufsize obj alloc maptype (runs_fuel uz) st W us uz) as (st' & -> & Hst'); try done; try lia.
  cbn [mbind option_bind]. rewrite (u64_small (space - _)) by (unfold is_u64; lia). exists st'. split; [done|]. split; [done|].
  eapply (replays_runs _ _ _ maptype (runs_fuel uz)); [exact Hrep|lia|lia|lia|exact Hfuel|lia|rewrite Z.mul_add_distr_r; lia|].
  replace (sm_start sm + us * 2 ^ sm_shift sm) with (ss_start x) by lia. by rewrite <-F5.
Qed.

(** The set after the segments [L] were allocated or freed. *)
Definition set_after (maptype : Z) (A : Z -> Prop) L (o : Z) : Prop :=
  if maptype =? SM_ALLOC then A o \/ covers L o else A o /\ ~ covers L o.
Definition space_after (maptype n : Z) L : Z := if maptype =? SM_ALLOC then n + total L else n - total L.
(** Allocations are of free space, frees of allocated space. *)
Definition may_log (maptype : Z) (A : Z -> Prop) L : Prop :=
  forall o, covers L o -> if maptype =? SM_ALLOC then ~ A o else A o.

Lemma sync_segs_spec sm bufsize obj alloc maptype : forall L' space st W A n,
  maptype = SM_ALLOC \/ maptype = SM_FREE ->
  sm_geom (cap := cap) sm -> Forall (seg_fits sm) L' -> disjoint_segs L' -> sync_inv bufsize obj alloc st W -> 8 <= bufsize -> bufsize mod 8 = 0 ->
  Z.of_nat (length W) + Z.of_nat (length (map_entries sm maptype L')) < 2 ^ 60 -> total L' <= space < 2 ^ 64 ->
  replays (sm_start sm) (sm_start sm + sm_size sm) (sm_shift sm) W A n -> may_log maptype A L' ->
  exists st', foldM (on_seg (sync_seg bufsize maptype (sm_start sm) (sm_shift sm))) (space, st) L' = Some (space - total L', st') /\
    sync_inv bufsize obj alloc st' (W ++ map_entries sm maptype L') /\
    replays (sm_start sm) (sm_start sm + sm_size sm) (sm_shift sm) (W ++ map_entries sm maptype L') (set_after maptype A L') (space_after maptype n L').
Proof using HDL.
  induction L' as [|x L' IH]; intros space st W A n Hty Hg HF Hdis Hst Hb Hb8 Hlen Hsp Hrep Hmay.
  - exists st. unfold map_entries. cbn [foldM fmap list_fmap concat]. rewrite app_nil_r. split; [do 2 f_equal; cbn; lia|]. split; [done|].
    unfold set_after, space_after. cbn [total foldr]. rewrite Z.add_0_r, Z.sub_0_r.
    replace (if maptype =? SM_ALLOC then n else n) with n by (by destruct (maptype =? SM_ALLOC)).
    eapply replays_ext; [|exact Hrep]. intros o. destruct (maptype =? SM_ALLOC); rewrite covers_nil; tauto.
  - apply Forall_cons in HF as [Hx HF]. destruct Hdis as [Hd1 Hd2]. rewrite total_cons in Hsp.
    unfold map_entries in Hlen. cbn [fmap list_fmap concat] in Hlen. rewrite length_app in Hlen.
    assert (forall l, Forall (seg_fits sm) l -> 0 <= total l) as Hpos.
    { intros l. induction 1 as [|y l Hy _ IHl]; [done|]. rewrite total_cons. pose proof (fit_order _ _ Hy). lia. }
    specialize (Hpos L' HF). pose proof (fit_order _ _ Hx) as Hxo.
    pose proof (logged_exists maptype A n (ss_start x) (ss_end x - ss_start x) Hty) as Hl1.
    set (A1 := fun o => if maptype =? SM_ALLOC then _ else _) in *. set (n1 := if maptype =? SM_ALLOC then n + _ else _) in *.
    replace (ss_start x + (ss_end x - ss_start x)) with (ss_end x) in * by lia.
    assert (logged maptype A A1 n n1 (ss_start x) (ss_end x - ss_start x)) as Hl2.
    { apply Hl1. intros o Ho. apply Hmay. apply covers_cons. by left. }
    destruct (sync_seg_spec sm bufsize obj alloc maptype space st W x A A1 n n1) as (st1 & E1 & Hst1 & Hrep1); try done; try lia.
    cbn [foldM]. rewrite E1. cbn [mbind option_bind].
    destruct (IH (space - (ss_end x - ss_start x)) st1 (W ++ seg_entries sm maptype x) A1 n1) as (st' & -> & Hst' & Hrep'); try done; try lia.
    + rewrite length_app. fold (map_entries sm maptype L') in Hlen. lia.
    + intros o Ho. specialize (Hmay o). rewrite covers_cons in Hmay. unfold A1. destruct (maptype =? SM_ALLOC).
      * intros [?|Hin]; [apply Hmay; tauto|exact (Hd1 o ltac:(lia) Ho)].
      * split; [apply Hmay; tauto|]. intros Hin. exact (Hd1 o ltac:(lia) Ho).
    + exists st'. rewrite <-app_assoc in Hst', Hrep'. rewrite total_cons. split; [do 2 f_equal; lia|]. split; [done|].
      replace (space_after maptype n (x :: L')) with (space_after maptype n1 L')
        by (unfold space_after, n1; rewrite total_cons; destruct (maptype =? SM_ALLOC); lia).
      eapply replays_ext; [|exact Hrep']. intros o. unfold set_after, A1.
      replace (ss_start x + (ss_end x - ss_start x)) with (ss_end x) by lia. destruct (maptype =? SM_ALLOC); rewrite covers_cons; tauto.
Qed.

(** The last write of [space_map_sync]. *)
Lemma sync_flush bufsize obj alloc st W :
  sync_inv bufsize obj alloc st W -> Z.of_nat (length W) < 2 ^ 60 -> bufsize <= 4096 ->
  exists smo' os', sync_write st = (smo', os') /\ os_content os' obj = W /\ smo_object smo' = obj /\ smo_objsize smo' = 8 * Z.of_nat (length W) /\ smo_alloc smo' = alloc.
Proof using HDL.
  intros [H1 H2 H3 H4 H5] Hlen Hb. pose proof (f_equal length H1) as Hl. rewrite length_app in Hl.
  unfold sync_write. destruct (sy_buf st) as [|e buf] eqn:E.
  - rewrite app_nil_r in H1. eexists _, _. split; [done|]. split; [done|]. split; [done|]. by rewrite <-H1.
  - rewrite <-E in *. eexists _, _. split; [done|]. rewrite H2, H3, write_law. cbn [smo_object smo_objsize smo_alloc grow].
    split; [done|]. split; [done|]. split; [|done]. rewrite H3, u64_small by (unfold is_u64; lia). lia.
Qed.

Lemma map_entries_perm sm maptype L L' : L ≡ₚ L' -> length (map_entries sm maptype L) = length (map_entries sm maptype L').
Proof.
  unfold map_entries. induction 1 as [|x L L' _ IH|x y L|L1 L2 L3 _ IH1 _ IH2]; cbn [fmap list_fmap concat]; rewrite ?length_app; lia.
Qed.

(** The size of a log's set is that of the map it loads into. *)
Lemma replays_space sm0 ws A n :
  sm_wf (cap := cap) sm0 [] -> sm_start sm0 mod 2 ^ sm_shift sm0 = 0 ->
  replays (sm_start sm0) (sm_start sm0 + sm_size sm0) (sm_shift sm0) ws A n -> 0 <= n <= sm_size sm0.
Proof using HL.
  intros Hwf Hal Hlog. pose proof (sf_space _ _ Hwf) as Hsp.
  destruct (load_entries_spec true SM_ALLOC sm0 [] ws A n) as (sm & L & _ & Hwf' & (E1 & E2 & _) & _ & Hn);
    [by left|done|done|intros o; apply covers_nil|done|done|].
  cbn in Hn. rewrite <-Hn, (sf_space _ _ Hwf'), <-E2.
  pose proof (sf_geom _ _ Hwf') as [? ? _ _ _]. pose proof (segs_total _ _ _ _ (sf_segs _ _ Hwf')). lia.
Qed.

Lemma sync_spec sm L maptype smo os pass txg A n :
  let ws := os_content os (smo_object smo) in
  maptype = SM_ALLOC \/ maptype = SM_FREE -> sm_wf (cap := cap) sm L -> sm_start sm mod 2 ^ sm_shift sm = 0 ->
  Z.shiftr (sm_size sm) (sm_shift sm) <= 2 ^ 47 ->
  smo_objsize smo = 8 * Z.of_nat (length ws) -> smo_alloc smo = n ->
  Z.of_nat (length ws) + 1 + Z.of_nat (length (map_entries sm maptype L)) < 2 ^ 60 ->
  replays (sm_start sm) (sm_start sm + sm_size sm) (sm_shift sm) ws A n -> may_log maptype A L ->
  exists sm' smo' os' n', space_map_sync sm maptype smo os pass txg = Some (sm', smo', os') /\ sm_wf (cap := cap) sm' [] /\ same_map sm sm' /\
    smo_object smo' = smo_object smo /\ smo_objsize smo' = 8 * Z.of_nat (length (os_content os' (smo_object smo))) /\ smo_alloc smo' = n' /\
    ws `prefix_of` os_content os' (smo_object smo) /\
    (length (os_content os' (smo_object smo)) <= length ws + 1 + length (map_entries sm maptype L))%nat /\
    replays (sm_start sm) (sm_start sm + sm_size sm) (sm_shift sm) (os_content os' (smo_object smo)) (set_after maptype A L) n'.
Proof using HL HDL.
  intros ws Hty Hwf Hal H47 Hsz Halloc Hlen Hlog Hmay. unfold space_map_sync.
  pose proof (sf_geom _ _ Hwf) as Hg. pose proof Hg as [G1 G2 G3 G4 G5]. pose proof (sf_segs _ _ Hwf) as Hsw. pose proof Hsw as [Hc Hlast Hali].
  pose proof (segs_total _ _ _ _ Hsw ltac:(lia)) as Htot. rewrite (sf_space _ _ Hwf).
  destruct (Z.eqb_spec (total L) 0) as [E0|Hne].
  { destruct L as [|x L].
    2:{ exfalso. destruct Hc as [Hx Hc]. pose proof (chain_last _ _ Hc). rewrite total_cons in E0. lia. }
    exists sm, smo, os, n. split; [done|]. split; [done|]. split; [apply same_map_refl|]. split; [done|]. split; [done|]. split; [done|]. split; [done|]. split; [fold ws; lia|].
    eapply replays_ext; [|exact Hlog]. intros o. unfold set_after. destruct (maptype =? SM_ALLOC); rewrite covers_nil; tauto. }
  destruct (vacate_loop_all sm L Hwf) as (smv & L' & Hp & Hwfv & Hsamev & Hrun).
  destruct (sf_rep _ _ Hwf) as (l & Habs & Hl).
  assert (0 <= os_numnodes (sm_root sm) <= 2 ^ 47) as Hnum.
  { rewrite (num_law _ _ Habs), (Forall2_length _ _ _ Hl). split; [lia|]. rewrite Z.shiftr_div_pow2 in H47 by lia.
    pose proof (total_count (sm_shift sm) _ L ltac:(lia) Hc Hali). assert (0 < 2 ^ sm_shift sm) by (apply Z.pow_pos_nonneg; lia).
    apply (Z.le_trans _ (sm_size sm / 2 ^ sm_shift sm)); [|done]. apply Z.div_le_lower_bound; lia. }
  rewrite (u64_small ((8 + os_numnodes (sm_root sm)) * 8)) by (unfold is_u64; lia). change (Z.shiftl 1 SPACE_MAP_BLOCKSHIFT) with 4096.
  set (bufsize := Z.min _ 4096).
  assert (8 <= bufsize <= 4096 /\ bufsize mod 8 = 0) as [Hb Hb8].
  { unfold bufsize. split; [lia|]. destruct (Z.min_spec ((8 + os_numnodes (sm_root sm)) * 8) 4096) as [[_ ->]|[_ ->]]; [apply Z.mod_mul; lia|done]. }
  set (alloc := if maptype =? SM_ALLOC then u64 (smo_alloc smo + total L) else u64 (smo_alloc smo - total L)).
  set (e := debug_entry maptype pass txg). rewrite Hrun.
  assert (disjoint_segs L') as Hdis by (rewrite Hp; by eapply chain_disjoint).
  assert (total L' = total L) as Et by (by rewrite Hp).
  assert (Forall (seg_fits sm) L') as HF.
  { apply Forall_forall. intros x Hx. rewrite Hp in Hx. by eapply seg_fits_wf. }
  assert (replays (sm_start sm) (sm_start sm + sm_size sm) (sm_shift sm) (ws ++ [e]) A n) as Hlog1.
  { apply replays_debug; [done|]. apply debug_entry_decode. destruct Hty as [->| ->]; unfold SM_ALLOC, SM_FREE; lia. }
  destruct (sync_segs_spec sm bufsize (smo_object smo) alloc maptype L' (total L)
    (mk_sync [e] os (mk_smo (smo_object smo) (smo_objsize smo) alloc)) (ws ++ [e]) A n) as (st' & -> & Hst' & Hrep'); try done; try lia.
  { split; cbn [sy_os sy_buf sy_smo smo_object smo_objsize smo_alloc length]; try done. lia. }
  { rewrite length_app, (map_entries_perm _ _ _ _ Hp). cbn [length]. lia. }
  { intros o Ho. apply Hmay. by rewrite <-Hp. }
  cbn [mbind option_bind].
  destruct (sync_flush bufsize (smo_object smo) alloc st' _ Hst') as (smo' & os' & -> & Hw & Ho & Hs & Ha); [|lia|].
  { rewrite !length_app, (map_entries_perm _ _ _ _ Hp). cbn [length]. lia. }
  cbn [sm_space with_space]. rewrite Et, Z.sub_diag. cbn [Z.eqb].
  pose proof Hsamev as (V1 & V2 & V3 & _).
  assert (0 <= space_after maptype n L' <= sm_size sm) as Hn'.
  { rewrite <-V2. eapply (replays_space (with_space smv 0) _ _ _ Hwfv); cbn [sm_start sm_shift sm_size with_space];
      [by rewrite V1, V3|]. rewrite V1, V2, V3. exact Hrep'. }
  eexists _, smo', os', (space_after maptype n L'). split; [done|]. split; [done|]. split; [done|]. split; [done|].
  rewrite Hw. split; [done|]. split; [|split; [|split]].
  - rewrite Ha. unfold alloc, space_after in *. rewrite Halloc, Et in *. destruct (maptype =? SM_ALLOC); apply u64_small; unfold is_u64; lia.
  - rewrite <-app_assoc. by apply prefix_app_r.
  - rewrite !length_app, (map_entries_perm _ _ _ _ Hp). cbn [length]. lia.
  - eapply replays_ext; [|exact Hrep']. intros o. unfold set_after. destruct (maptype =? SM_ALLOC); by rewrite (covers_perm _ _ o Hp).
Qed.

(** What writing to the map's object keeps, a sync keeps. *)
Lemma vacate_loop_keeps {E} (P : E -> Prop) (func : E -> Z -> Z -> option E) k :
  (forall d s z d', P d -> func d s z = Some d' -> P d') -> forall sm d c sm' d',
  vacate_loop func k sm d c = Some (sm', d') -> P d -> P d'.
Proof using.
  intros HP. induction k as [|k IH]; intros sm d c sm' d'; cbn [vacate_loop]; [done|].
  destruct (os_destroy_nodes (sm_root sm) c) as [[[root ss] c']|]; cbn [mbind option_bind]; [|done].
  destruct (ss =? 0); [by intros [= _ <-]|]. destruct (sm_segs (with_root sm root) !! ss) as [x|]; cbn [mbind option_bind]; [|done].
  destruct (func d (ss_start x) (u64 (ss_end x - ss_start x))) as [d1|] eqn:E1; cbn [mbind option_bind]; [|done].
  intros E2 Hd. eapply IH; [done|]. by eapply HP.
Qed.

Lemma sync_runs_keeps (P : @sync_state D -> Prop) bufsize maptype k :
  (forall st e, P st -> P (sync_emit bufsize st e)) -> forall st start size st',
  sync_runs k bufsize maptype st start size = Some st' -> P st -> P st'.
Proof using.
  intros HP. induction k as [|k IH]; intros st start size st'; cbn [sync_runs]; destruct (size =? 0); try (by intros [= <-]).
  intros E Hst. eapply IH; [done|]. by apply HP.
Qed.

Lemma sync_keeps (P : D -> Prop) sm maptype smo os pass txg sm' smo' os' :
  (forall os off buf, P os -> P (dmu_write os (smo_object smo) off buf)) ->
  space_map_sync sm maptype smo os pass txg = Some (sm', smo', os') -> P os -> P os'.
Proof using.
  intros HP. unfold space_map_sync. destruct (sm_space sm =? 0); [by intros [= _ _ <-]|].
  set (bufsize := Z.min _ _). set (smo1 := mk_smo _ _ _). set (Q := fun st : sync_state => smo_object (sy_smo st) = smo_object smo /\ P (sy_os st)).
  assert (forall st e, Q st -> Q (sync_emit bufsize st e)) as HQ.
  { intros st e [H1 H2]. unfold sync_emit. destruct (_ =? bufsize); split; cbn; try done. rewrite H1. by apply HP. }
  destruct (vacate_loop _ _ _ _ _) as [[smv [space st]]|] eqn:Ev; cbn [mbind option_bind]; [|done].
  intros E Hos. assert (Q st) as [H1 H2].
  { apply (vacate_loop_keeps (fun d => Q (snd d)) _ _) in Ev; [done| |by split].
    intros d s z d' Hd. unfold sync_seg. destruct (sync_runs _ _ _ _ _ _) as [st'|] eqn:Er; cbn [mbind option_bind]; [|done].
    intros [= <-]. by eapply (sync_runs_keeps Q). }
  revert E. unfold sync_write. destruct (sy_buf st) as [|e buf]; case_match; try done; intros [= _ _ <-]; [done|].
  rewrite H1. by apply HP.
Qed.
End sync.
