(* ===== verification/SpaceMapSpec.v ===== *)
(** * Space maps: the theorems

    Stated for any implementation of the AVL interface and any object store,
    with witnesses that run [space_map.c] on the trees of [avl.c]. *)
From Stdlib Require Import ZArith Lia.
From stdpp Require Import base numbers list option gmap.
From S2P Require Import Prelude Avl AvlTree AvlProof AvlOps AvlSpec SpaceMap SpaceMapProof SpaceMapSync SpaceMapLog.

Section theorems.
Context {T V D : Type} `{HI : AvlIface T} {cap : nat} {HL : AvlLaws T cap} `{HD : ObjectStore D} {HDL : ObjectStoreLaws D}.
Context (zfs_recover : bool) (vec : V -> space_map_ops T V).

(** C19: adding.  When the range is within the map, aligned and free of the
    map's segments, [space_map_add] passes its checks, keeps the invariant
    (segments in tree order, aligned, maximal, [sm_space] their total) and
    the map stands for the union. *)
Theorem space_map_add_correct (sm : space_map T V) (L : list space_seg) (start size : Z)
    (Hwf : sm_wf (cap := cap) sm L) (Hr : range_ok sm start size)
    (Hfree : forall o, start <= o < start + size -> ~ covers L o) :
  exists sm' L', space_map_add zfs_recover sm start size = Some sm' /\ sm_wf (cap := cap) sm' L' /\
    (forall o, covers L' o <-> covers L o \/ start <= o < start + size) /\ sm_space sm' = sm_space sm + size.
Proof using HL. destruct (add_spec zfs_recover sm L start size Hwf Hr Hfree) as (sm' & L' & H1 & H2 & H3 & _ & H4). by exists sm', L'. Qed.

(** C20: removing.  When the whole range belongs to the map,
    [space_map_remove] passes its checks, keeps the invariant and the map
    stands for the difference. *)
Theorem space_map_remove_correct (sm : space_map T V) (L : list space_seg) (start size : Z)
    (Hwf : sm_wf (cap := cap) sm L) (Hr : range_ok sm start size)
    (Hin : forall o, start <= o < start + size -> covers L o) :
  exists sm' L', space_map_remove zfs_recover sm start size = Some sm' /\ sm_wf (cap := cap) sm' L' /\
    (forall o, covers L' o <-> covers L o /\ ~ (start <= o < start + size)) /\ sm_space sm' = sm_space sm - size.
Proof using HL. destruct (remove_spec zfs_recover sm L start size Hwf Hr Hin) as (sm' & L' & H1 & H2 & H3 & _ & H4 & _). by exists sm', L'. Qed.

(** [space_map_contains] answers whether the whole range is in the map. *)
Theorem space_map_contains_correct (sm : space_map T V) (L : list space_seg) (start size : Z)
    (Hwf : sm_wf (cap := cap) sm L) (Hr : range_ok sm start size) :
  exists b, space_map_contains sm start size = Some b /\ (b = true <-> forall o, start <= o < start + size -> covers L o).
Proof using HL. by apply contains_spec. Qed.


(** [space_map_excise] removes from the map whatever it has in the range;
    its loop ends. *)
Theorem space_map_excise_correct (sm : space_map T V) (L : list space_seg) (start size : Z)
    (Hwf : sm_wf (cap := cap) sm L) (Hsize : 0 < size) (Hstart : 0 <= start) (Hend : start + size < 2 ^ 64)
    (Hsa : start mod 2 ^ sm_shift sm = 0) (Hea : (start + size) mod 2 ^ sm_shift sm = 0) :
  exists sm' L', space_map_excise zfs_recover sm start size = Some sm' /\ sm_wf (cap := cap) sm' L' /\
    forall o, covers L' o <-> covers L o /\ ~ (start <= o < start + size).
Proof using HL.
  destruct (excise_spec zfs_recover sm L start size Hwf Hsize Hstart Hend Hsa Hea) as (sm' & L' & H1 & H2 & _ & H3). by exists sm', L'.
Qed.

(** [space_map_union] makes the destination stand for the union of both
    maps, overlapping or not. *)
Theorem space_map_union_correct (smd sms : space_map T V) (Ld Ls : list space_seg)
    (Hd : sm_wf (cap := cap) smd Ld) (Hs : sm_wf (cap := cap) sms Ls)
    (Hr : Forall (fun x => range_ok smd (ss_start x) (ss_end x - ss_start x)) Ls) :
  exists smd' Ld', space_map_union zfs_recover smd sms = Some smd' /\ sm_wf (cap := cap) smd' Ld' /\
    forall o, covers Ld' o <-> covers Ld o \/ covers Ls o.
Proof using HL. destruct (union_spec zfs_recover smd Ld sms Ls Hd Hs Hr) as (sm' & L' & H1 & H2 & _ & H3). by exists sm', L'. Qed.

(** [space_map_vacate] hands every segment once to [func] and leaves the
    map empty; the nodes it frees are not used again. *)
Theorem space_map_vacate_correct (sm : space_map T V) (L : list space_seg) (Hwf : sm_wf (cap := cap) sm L) :
  exists sm' segs, space_map_vacate (fun l start size => Some (l ++ [mk_seg start (start + size)])) sm [] = Some (sm', segs) /\
    segs ≡ₚ L /\ sm_wf (cap := cap) sm' [].
Proof using HL.
  destruct (vacate_spec sm L Hwf) as (sm' & L' & Hp & Hwf' & _ & Hrun). exists sm', L'. rewrite Hrun.
  assert (forall l acc, foldM (on_seg (fun l start size => Some (l ++ [mk_seg start (start + size)]))) acc l = Some (acc ++ l)) as Hfold.
  { induction l as [|[s e] l IH]; intros acc; cbn [foldM]; [by rewrite app_nil_r|].
    change (on_seg _ acc (mk_seg s e)) with (Some (acc ++ [mk_seg s (s + (e - s))])).
    replace (s + (e - s)) with e by lia. cbn [mbind option_bind]. by rewrite IH, <-app_assoc. }
  rewrite Hfold. done.
Qed.

(** C21: the log is the map.  Let the object's log stand for the allocated
    set [A].  [space_map_sync] of a map of allocations from free space, or of
    frees of allocated space, empties the map and extends the log; afterwards
    [space_map_load] into an empty map of the same region, as a map of
    allocated or of free space, ends with the set [A] so changed or its
    complement, or, when a read fails, with that error and an empty map. *)
Theorem space_map_sync_load (sm fresh : space_map T V) (L : list space_seg) (ty ty' : Z) (ops : option V) (ppd : list Z)
    (smo : space_map_obj) (os : D) (pass txg : Z) (A : Z -> Prop)
    (Hty : ty = SM_ALLOC \/ ty = SM_FREE) (Hty' : ty' = SM_ALLOC \/ ty' = SM_FREE)
    (Hwf : sm_wf (cap := cap) sm L) (H47 : Z.shiftr (sm_size sm) (sm_shift sm) <= 2 ^ 47)
    (Hsz : smo_objsize smo = 8 * Z.of_nat (length (os_content os (smo_object smo))))
    (Hlen : Z.of_nat (length (os_content os (smo_object smo))) + 1 + Z.of_nat (length (map_entries sm ty L)) < 2 ^ 60)
    (Hlog : replays (sm_start sm) (sm_start sm + sm_size sm) (sm_shift sm) (os_content os (smo_object smo)) A (smo_alloc smo))
    (Hmay : may_log ty A L)
    (Hfresh : sm_wf (cap := cap) fresh []) (Hgeom : sm_start fresh = sm_start sm /\ sm_size fresh = sm_size sm /\ sm_shift fresh = sm_shift sm)
    (Hr : range_ok fresh (sm_start fresh) (sm_size fresh))
    (Hun : sm_loaded fresh = false /\ sm_loading fresh = false /\ sm_ops fresh = None /\ sm_ppd fresh = []) (Hops : load_ops_ok vec ops ppd) :
  exists sm' smo' os', space_map_sync sm ty smo os pass txg = Some (sm', smo', os') /\ sm_wf (cap := cap) sm' [] /\
  exists sml Ll err, space_map_load zfs_recover vec fresh ops ty' smo' os' = Some (sml, err) /\ sm_wf (cap := cap) sml Ll /\
    ((err = 0 /\ sm_loaded sml = true /\ forall o, covers Ll o <-> map_of fresh ty' (set_after ty A L) o) \/
     (err <> 0 /\ sm_loaded sml = false /\ Ll = [])).
Proof using HL HDL.
  destruct Hgeom as (E1 & E2 & E3), Hun as (U1 & U2 & U3 & U4).
  assert (sm_start sm mod 2 ^ sm_shift sm = 0) as Hal by (rewrite <-E1, <-E3; apply Hr).
  destruct (sync_spec sm L ty smo os pass txg A _ Hty Hwf Hal H47 Hsz eq_refl Hlen Hlog Hmay)
    as (sm' & smo' & os' & n' & E & Hwf' & _ & Ho & Hs & Ha & _ & Hl & Hlog').
  exists sm', smo', os'. split; [done|]. split; [done|].
  destruct (load_spec zfs_recover vec fresh ops ppd ty' smo' os' (os_content os' (smo_object smo)) (set_after ty A L) n')
    as (sml & Ll & err & El & Hwfl & _ & _ & Hres); try done.
  - by rewrite Ho.
  - lia.
  - by rewrite E1, E2, E3.
  - exists sml, Ll, err. split; [done|]. split; [done|]. destruct Hres as [(-> & ? & _ & _ & ?)|(? & ? & _ & _ & ?)]; [by left|by right].
Qed.
End theorems.

(** ** A concrete run: the trees of [avl.c], an object store in memory *)

(** The first multiple of 8 from [a] on that is not used. *)
Fixpoint pick (n : nat) (a : Z) (X : gset Z) : Z :=
  match n with
  | O => a
  | S n => if decide (a ∈ X) then pick n (a + 8) X else a
  end.
Definition free_word (X : gset Z) : Z := pick (size X) 8 X.

Lemma pick_range n : forall a X, a <= pick n a X <= a + 8 * Z.of_nat n /\ pick n a X mod 8 = a mod 8.
Proof.
  induction n as [|n IH]; intros a X; cbn [pick]; [lia|]. destruct (decide (a ∈ X)); [|lia].
  specialize (IH (a + 8) X). rewrite <-(Z.mod_add a 1 8) by lia. replace (a + 1 * 8) with (a + 8) by lia. lia.
Qed.

Lemma pick_used n : forall a X, pick n a X ∈ X -> forall k, (k <= n)%nat -> a + 8 * Z.of_nat k ∈ X.
Proof.
  induction n as [|n IH]; intros a X Hp k Hk; cbn [pick] in Hp.
  - assert (k = 0%nat) as -> by lia. by replace (a + 8 * Z.of_nat 0) with a by lia.
  - destruct (decide (a ∈ X)) as [Ha|Ha]; [|done]. destruct k as [|k]; [by replace (a + 8 * Z.of_nat 0) with a by lia|].
    replace (a + 8 * Z.of_nat (S k)) with (a + 8 + 8 * Z.of_nat k) by lia. apply IH; [done|lia].
Qed.

Lemma free_word_fresh (X : gset Z) : (size X <= 100)%nat -> (free_word X ∉ X) /\ is_ptr (free_word X).
Proof.
  intros Hs. unfold free_word. destruct (pick_range (size X) 8 X) as [H1 H2].
  change (8 mod 8) with 0 in H2. split; [|split; [done|lia]].
  intros Hin. pose proof (pick_used _ _ _ Hin) as Hall. set (l := (fun k => 8 + 8 * Z.of_nat k) <$> seq 0 (S (size X))).
  assert (NoDup l) as Hnd by (apply NoDup_fmap_2; [intros x y; lia|apply NoDup_seq]).
  assert (list_to_set l ⊆ X) as Hsub.
  { intros z. rewrite elem_of_list_to_set. unfold l. rewrite list_elem_of_fmap. intros (k & -> & Hk%elem_of_seq). apply Hall. lia. }
  apply subseteq_size in Hsub. rewrite size_list_to_set in Hsub by done. unfold l in Hsub. rewrite length_fmap, length_seq in Hsub. lia.
Qed.

Definition example_junk : avl_node := mk_node 3 3 5.
#[local] Instance example_iface : AvlIface avl_tree := avl_iface free_word 4096 example_junk.

Lemma example_ptr : is_ptr 4096.
Proof. by split. Qed.
Lemma example_cap : Z.of_nat 100 < 2 ^ 60.
Proof. lia. Qed.

#[local] Instance example_laws : AvlLaws avl_tree 100 :=
  avl_laws free_word 4096 example_junk 100 example_ptr example_cap free_word_fresh.

Definition empty_map : space_map avl_tree unit := space_map_create (avl_create ∅) 0 64 3.
Definition one_segment : space_map avl_tree unit := default empty_map (space_map_add false empty_map 16 24).
Definition one_segment_segs : list space_seg := [mk_seg 16 40].

Lemma example_geom (sm : space_map avl_tree unit) : sm_start sm = 0 -> sm_size sm = 64 -> sm_shift sm = 3 -> sm_geom (cap := 100) sm.
Proof. intros E1 E2 E3. split; rewrite ?E1, ?E2, ?E3; try done; lia. Qed.

Lemma empty_map_wf : sm_wf (cap := 100) empty_map [].
Proof.
  split; [by apply example_geom| |split; cbn; [done|lia|constructor]|done].
  exists []. split; [|constructor]. split; [|split; [done|split; [by apply not_elem_of_nil|cbn; lia]]].
  exists Leaf. split; [|done]. split; try done; [by exists false|constructor].
Qed.

Lemma one_segment_wf : sm_wf (cap := 100) one_segment one_segment_segs.
Proof.
  split; [by apply example_geom| | |done].
  2:{ change (segs_wf 0 64 3 one_segment_segs). split; [cbn; lia|cbn; lia|by repeat constructor]. }
  exists [8]. split; [|by repeat constructor]. split; [|split; [|split; [|cbn; lia]]].
  - exists (Node Leaf 8 0 Leaf). split; [|done]. split; try done; [|cbn; apply NoDup_singleton].
    exists false. cbn [rep]. unfold is_ptr, is_bal.
    repeat match goal with |- _ /\ _ => split | |- True => exact I | |- _ = _ => vm_compute; reflexivity | |- _ => lia end.
  - vm_compute. reflexivity.
  - cbn. intros H%list_elem_of_singleton. discriminate.
Qed.

Lemma example_range (sm : space_map avl_tree unit) s z : sm_start sm = 0 -> sm_size sm = 64 -> sm_shift sm = 3 ->
  0 < z -> 0 <= s -> s + z <= 64 -> s mod 8 = 0 -> z mod 8 = 0 -> range_ok sm s z.
Proof. intros E1 E2 E3 H1 H2 H3 H4 H5. split; rewrite ?E1, ?E2, ?E3; try done; lia. Qed.

Lemma example_covers o : covers one_segment_segs o <-> 16 <= o < 40.
Proof. unfold one_segment_segs. rewrite covers_cons, covers_nil. cbn. tauto. Qed.

Lemma space_map_add_correct_witness :
  exists sm' L', space_map_add false one_segment 40 8 = Some sm' /\ sm_wf (cap := 100) sm' L' /\
    (forall o, covers L' o <-> covers one_segment_segs o \/ 40 <= o < 40 + 8) /\ sm_space sm' = sm_space one_segment + 8.
Proof.
  refine (space_map_add_correct false one_segment one_segment_segs 40 8 one_segment_wf _ _).
  - by apply example_range.
  - intros o Ho H%example_covers. lia.
Defined.

Lemma space_map_remove_correct_witness :
  exists sm' L', space_map_remove false one_segment 24 8 = Some sm' /\ sm_wf (cap := 100) sm' L' /\
    (forall o, covers L' o <-> covers one_segment_segs o /\ ~ (24 <= o < 24 + 8)) /\ sm_space sm' = sm_space one_segment - 8.
Proof.
  refine (space_map_remove_correct false one_segment one_segment_segs 24 8 one_segment_wf _ _).
  - by apply example_range.
  - intros o Ho. apply example_covers. lia.
Defined.

Lemma space_map_contains_correct_witness :
  exists b, space_map_contains one_segment 32 16 = Some b /\ (b = true <-> forall o, 32 <= o < 32 + 16 -> covers one_segment_segs o).
Proof.
  refine (space_map_contains_correct one_segment one_segment_segs 32 16 one_segment_wf _). by apply example_range.
Defined.


Lemma space_map_excise_correct_witness :
  exists sm' L', space_map_excise false one_segment 32 16 = Some sm' /\ sm_wf (cap := 100) sm' L' /\
    forall o, covers L' o <-> covers one_segment_segs o /\ ~ (32 <= o < 32 + 16).
Proof. by refine (space_map_excise_correct false one_segment one_segment_segs 32 16 one_segment_wf _ _ _ _ _). Defined.

Lemma space_map_union_correct_witness :
  exists smd' Ld', space_map_union false empty_map one_segment = Some smd' /\ sm_wf (cap := 100) smd' Ld' /\
    forall o, covers Ld' o <-> covers [] o \/ covers one_segment_segs o.
Proof.
  refine (space_map_union_correct false empty_map one_segment [] one_segment_segs empty_map_wf one_segment_wf _).
  constructor; [|constructor]. by apply example_range.
Defined.

Lemma space_map_vacate_correct_witness :
  exists sm' segs, space_map_vacate (fun l start size => Some (l ++ [mk_seg start (start + size)])) one_segment [] = Some (sm', segs) /\
    segs ≡ₚ one_segment_segs /\ sm_wf (cap := 100) sm' [].
Proof. exact (space_map_vacate_correct one_segment one_segment_segs one_segment_wf). Defined.

(** Objects in memory, read without errors. *)
#[local] Instance memory_store : ObjectStore (gmap Z (list Z)) := {
  dmu_read d obj off size := inr (take (Z.to_nat (size / 8)) (drop (Z.to_nat (off / 8)) (default [] (d !! obj))));
  dmu_write d obj off buf := <[obj := take (Z.to_nat (off / 8)) (default [] (d !! obj)) ++ buf]> d;
  dmu_free_range d obj := delete obj d
}.

Lemma words_of_bytes n : Z.to_nat (8 * Z.of_nat n / 8) = n.
Proof. rewrite Z.mul_comm, Z.div_mul by lia. lia. Qed.

#[local] Instance memory_laws : ObjectStoreLaws (gmap Z (list Z)).
Proof.
  refine {| os_content d obj := default [] (d !! obj) |}.
  - intros d obj buf. unfold dmu_write, memory_store. by rewrite words_of_bytes, lookup_insert_eq, firstn_all.
  - intros d obj i n _. right. unfold dmu_read, memory_store. by rewrite !words_of_bytes.
  - intros d obj. unfold dmu_free_range, memory_store. by rewrite lookup_delete_eq.
Defined.

Definition no_picker (v : unit) : space_map_ops avl_tree unit := mk_ops _ _ Some Some (fun sm _ => Some (sm, 2 ^ 64 - 1)) (fun sm _ _ => Some sm) (fun sm _ _ => Some sm).

Lemma space_map_sync_load_witness :
  exists sm' smo' os', space_map_sync one_segment SM_ALLOC (mk_smo 1 0 0) (∅ : gmap Z (list Z)) 1 7 = Some (sm', smo', os') /\ sm_wf (cap := 100) sm' [] /\
  exists sml Ll err, space_map_load false no_picker empty_map None SM_FREE smo' os' = Some (sml, err) /\ sm_wf (cap := 100) sml Ll /\
    ((err = 0 /\ sm_loaded sml = true /\ forall o, covers Ll o <-> map_of empty_map SM_FREE (set_after SM_ALLOC (fun _ => False) one_segment_segs) o) \/
     (err <> 0 /\ sm_loaded sml = false /\ Ll = [])).
Proof.
  refine (space_map_sync_load false no_picker one_segment empty_map one_segment_segs SM_ALLOC SM_FREE None [] (mk_smo 1 0 0) ∅ 1 7 (fun _ => False)
    _ _ one_segment_wf _ _ _ _ _ empty_map_wf _ _ _ eq_refl); try done.
  - by left.
  - by right.
  - apply replays_nil. intros o [].
  - intros o _ [].
Defined.
