(* ===== verification/TxgList.v ===== *)
(** * Per-transaction-group lists ([txg.c])

    A [txg_list] keeps, for each of the four transaction groups that can be
    alive, a linked list of the objects that are dirty in it.  The links and
    the membership flags live in the objects.  The theorem says that the lists
    are stacks without repetition. *)
From Stdlib Require Import ZArith Lia.
From stdpp Require Import base numbers list option gmap.
From S2P Require Import Prelude.

Definition TXG_CONCURRENT_STATES : Z := 3.
Definition TXG_SIZE : Z := 4.
Definition TXG_MASK : Z := TXG_SIZE - 1.
Definition TXG_INITIAL : Z := TXG_SIZE.
Definition TXG_CLEAN (txg : Z) : Z := u64 (txg - 1).

(** [txg & TXG_MASK] as an index of an array of [TXG_SIZE] entries. *)
Definition txg_idx (txg : Z) : nat := Z.to_nat (Z.land txg TXG_MASK).

(** ** Data *)

Record txg_node := mk_tn { tn_next : list Z; tn_member : list bool }.

(** The nodes are those of the objects at the addresses of [tl_nodes]; a link
    to a node is the address of its object. *)
Record txg_list := mk_tl { tl_head : list Z; tl_nodes : gmap Z txg_node }.

(** A node of an object that was allocated with [kmem_zalloc]. *)
Definition txg_node_zero : txg_node := mk_tn (repeat 0 4) (repeat false 4).

(** ** Operations *)

Definition txg_list_create (nodes : gmap Z txg_node) : txg_list := mk_tl (repeat 0 4) nodes.

Definition txg_list_empty (tl : txg_list) (txg : Z) : option bool :=
  let* head := tl_head tl !! txg_idx txg in Some (head =? 0).

Definition txg_list_destroy (tl : txg_list) : option unit :=
  foldM (fun _ t => let* e := txg_list_empty tl t in VERIFY e in Some tt) tt [0; 1; 2; 3].

(** Assignments to the [t]th entries of a node and to the [t]th head. *)
Definition set_next (p : Z) (t : nat) (next : Z) (tl : txg_list) : option txg_list :=
  let* tn := tl_nodes tl !! p in
  Some (mk_tl (tl_head tl) (<[p := mk_tn (<[t := next]> (tn_next tn)) (tn_member tn)]> (tl_nodes tl))).
Definition set_member (p : Z) (t : nat) (member : bool) (tl : txg_list) : option txg_list :=
  let* tn := tl_nodes tl !! p in
  Some (mk_tl (tl_head tl) (<[p := mk_tn (tn_next tn) (<[t := member]> (tn_member tn))]> (tl_nodes tl))).
Definition set_head (tl : txg_list) (t : nat) (p : Z) : txg_list := mk_tl (<[t := p]> (tl_head tl)) (tl_nodes tl).

Definition node_next (tl : txg_list) (p : Z) (t : nat) : option Z := let* tn := tl_nodes tl !! p in tn_next tn !! t.
Definition node_member (tl : txg_list) (p : Z) (t : nat) : option bool := let* tn := tl_nodes tl !! p in tn_member tn !! t.

Definition txg_list_add (tl : txg_list) (p txg : Z) : option (txg_list * bool) :=
  let t := txg_idx txg in
  let* already_on_list := node_member tl p t in
  if negb already_on_list then
    let* tl := set_member p t true tl in
    let* head := tl_head tl !! t in
    let* tl := set_next p t head tl in Some (set_head tl t p, already_on_list)
  else Some (tl, already_on_list).

Definition txg_list_remove (tl : txg_list) (txg : Z) : option (txg_list * Z) :=
  let t := txg_idx txg in
  let* p := tl_head tl !! t in
  if negb (p =? 0) then
    let* next := node_next tl p t in
    let* tl := set_next p t 0 (set_head tl t next) in
    let* tl := set_member p t false tl in Some (tl, p)
  else Some (tl, 0).

(** The loop of [txg_list_remove_this]; [tp] is the link that holds [tn]: that
    of the object [tp], or the head of the list when [tp] is 0. *)
Fixpoint remove_this_loop (k : nat) (tl : txg_list) (p : Z) (t : nat) (tp : Z) : option (txg_list * Z) :=
  match k with
  | O => None
  | S k =>
      let* tn := if tp =? 0 then tl_head tl !! t else node_next tl tp t in
      if tn =? 0 then Some (tl, 0)
      else if tn =? p then
        let* next := node_next tl tn t in
        let* tl := if tp =? 0 then Some (set_head tl t next) else set_next tp t next tl in
        let* tl := set_next tn t 0 tl in
        let* tl := set_member tn t false tl in Some (tl, p)
      else remove_this_loop k tl p t tn
  end.

(** At most every node is on the list. *)
Definition txg_list_remove_this (tl : txg_list) (p txg : Z) : option (txg_list * Z) :=
  remove_this_loop (S (size (tl_nodes tl))) tl p (txg_idx txg) 0.

Definition txg_list_member (tl : txg_list) (p txg : Z) : option bool := node_member tl p (txg_idx txg).
Definition txg_list_head (tl : txg_list) (txg : Z) : option Z := tl_head tl !! txg_idx txg.
Definition txg_list_next (tl : txg_list) (p txg : Z) : option Z := node_next tl p (txg_idx txg).

(** ** The lists they stand for *)

(** The links [nx] from [a] on go through the objects [l]. *)
Fixpoint links (nx : Z -> option Z) (a : Z) (l : list Z) : Prop :=
  match l with
  | [] => a = 0
  | p :: l => a = p /\ p <> 0 /\ exists next, nx p = Some next /\ links nx next l
  end.

Record tl_wf (tl : txg_list) : Prop := {
  tw_heads : length (tl_head tl) = 4%nat;
  tw_nodes : forall p tn, tl_nodes tl !! p = Some tn -> p <> 0 /\ length (tn_next tn) = 4%nat /\ length (tn_member tn) = 4%nat
}.

(** The [t]th list is [l]; the objects outside it have no link. *)
Record holds_list (tl : txg_list) (t : nat) (l : list Z) : Prop := {
  hl_links : exists a, tl_head tl !! t = Some a /\ links (fun p => node_next tl p t) a l;
  hl_nodup : NoDup l;
  hl_member : forall p, p ∈ dom (tl_nodes tl) -> node_member tl p t = Some (bool_decide (p ∈ l));
  hl_clear : forall p, p ∈ dom (tl_nodes tl) -> p ∉ l -> node_next tl p t = Some 0
}.

Record txg_abs (tl : txg_list) (ls : list (list Z)) : Prop := {
  ta_wf : tl_wf tl;
  ta_lists : length ls = 4%nat;
  ta_holds : forall t l, ls !! t = Some l -> holds_list tl t l
}.

Lemma txg_idx_lt txg : (txg_idx txg < 4)%nat.
Proof.
  unfold txg_idx. change TXG_MASK with (2 ^ 2 - 1). rewrite land_ones_mod by lia. pose proof (Z.mod_pos_bound txg (2 ^ 2)). lia.
Qed.

Lemma links_ext nx nx' l : forall a, links nx a l -> (forall p, p ∈ l -> nx' p = nx p) -> links nx' a l.
Proof.
  induction l as [|p l IH]; intros a; cbn [links]; [done|]. intros (-> & Hp & next & H1 & H2) Hf.
  split; [done|]. split; [done|]. exists next. split; [by rewrite Hf by left|]. apply IH; [done|]. intros q Hq. apply Hf. by right.
Qed.

Lemma links_hd nx a l : links nx a l -> a = hd 0 l.
Proof. destruct l; cbn; tauto. Qed.

Lemma links_nonzero nx a l : links nx a l -> 0 ∉ l.
Proof.
  revert a. induction l as [|p l IH]; intros a; cbn [links]; [intros _; apply not_elem_of_nil|].
  intros (_ & Hp & next & _ & H). apply not_elem_of_cons. split; [done|by eapply IH].
Qed.

Lemma links_app nx l1 p l2 : forall a, links nx a (l1 ++ p :: l2) -> nx p = Some (hd 0 l2).
Proof.
  induction l1 as [|q l1 IH]; intros a; cbn [app links]; intros (_ & _ & next & H1 & H2); [|by eapply IH].
  by rewrite H1, (links_hd _ _ _ H2).
Qed.

(** ** One list at a time *)

(** Only the [t]th list changes. *)
Record changes (t : nat) (tl tl' : txg_list) : Prop := {
  ch_wf : tl_wf tl';
  ch_dom : dom (tl_nodes tl') = dom (tl_nodes tl);
  ch_other : forall t', t' <> t -> tl_head tl' !! t' = tl_head tl !! t' /\
    forall p, node_next tl' p t' = node_next tl p t' /\ node_member tl' p t' = node_member tl p t'
}.

Lemma changes_trans t tl1 tl2 tl3 : changes t tl1 tl2 -> changes t tl2 tl3 -> changes t tl1 tl3.
Proof.
  intros [_ D1 O1] [W2 D2 O2]. split; [done|congruence|]. intros t' Ht.
  destruct (O1 t' Ht) as [H1 H2], (O2 t' Ht) as [H3 H4]. split; [congruence|]. intros p. destruct (H2 p), (H4 p). split; congruence.
Qed.

Lemma abs_change tl tl' ls t l : txg_abs tl ls -> changes t tl tl' -> holds_list tl' t l -> (t < 4)%nat -> txg_abs tl' (<[t := l]> ls).
Proof.
  intros [W Hlen Hall] [W' D O] Hl Ht. split; [done|by rewrite length_insert|]. intros t' l'.
  destruct (decide (t' = t)) as [->|Hne]; [rewrite list_lookup_insert_eq by lia; by intros [= <-]|].
  rewrite list_lookup_insert_ne by done. intros E. destruct (Hall _ _ E) as [(a & H1 & H2) H3 H4 H5]. destruct (O t' Hne) as [O1 O2]. split.
  - exists a. split; [by rewrite O1|]. eapply links_ext; [done|]. intros p _. apply O2.
  - done.
  - intros p Hp. rewrite (proj2 (O2 p)). apply H4. by rewrite <-D.
  - intros p Hp. rewrite (proj1 (O2 p)). apply H5. by rewrite <-D.
Qed.

Lemma set_head_spec tl t p : tl_wf tl -> (t < 4)%nat ->
  changes t tl (set_head tl t p) /\ tl_head (set_head tl t p) !! t = Some p.
Proof.
  intros [W1 W2] Ht. split; [|cbn; apply list_lookup_insert_eq; lia]. split; [split; [cbn; by rewrite length_insert|done]|done|].
  intros t' Hne. split; [cbn; by apply list_lookup_insert_ne|done].
Qed.

Lemma node_insert tl hd p tn q t : 
  node_next (mk_tl hd (<[p := tn]> (tl_nodes tl))) q t = (if decide (q = p) then tn_next tn !! t else node_next tl q t) /\
  node_member (mk_tl hd (<[p := tn]> (tl_nodes tl))) q t = (if decide (q = p) then tn_member tn !! t else node_member tl q t).
Proof.
  unfold node_next, node_member. cbn [tl_nodes]. destruct (decide (q = p)) as [->|Hne]; [by rewrite lookup_insert_eq|by rewrite lookup_insert_ne].
Qed.

Lemma set_next_spec tl p t v : tl_wf tl -> (t < 4)%nat -> p ∈ dom (tl_nodes tl) ->
  exists tl', set_next p t v tl = Some tl' /\ changes t tl tl' /\ tl_head tl' = tl_head tl /\
    forall q, node_next tl' q t = (if decide (q = p) then Some v else node_next tl q t) /\ node_member tl' q t = node_member tl q t.
Proof.
  intros [W1 W2] Ht Hp. apply elem_of_dom in Hp as [tn E]. destruct (W2 _ _ E) as (Hp0 & Hn & Hm).
  unfold set_next. rewrite E. cbn [mbind option_bind]. eexists. split; [done|].
  split; [split|].
  - split; [done|]. cbn [tl_nodes]. intros q tq. destruct (decide (q = p)) as [->|Hne]; [|rewrite lookup_insert_ne by done; apply W2].
    rewrite lookup_insert_eq. intros [= <-]. cbn. by rewrite length_insert.
  - cbn. apply dom_insert_lookup_L. by exists tn.
  - intros t' Hne. split; [done|]. intros q. rewrite (proj1 (node_insert _ _ _ _ _ _)), (proj2 (node_insert _ _ _ _ _ _)).
    cbn [tn_next tn_member]. rewrite list_lookup_insert_ne by done. destruct (decide (q = p)) as [->|]; [|done].
    unfold node_next, node_member. by rewrite E.
  - split; [done|]. intros q. rewrite (proj1 (node_insert _ _ _ _ _ _)), (proj2 (node_insert _ _ _ _ _ _)). cbn [tn_next tn_member].
    rewrite list_lookup_insert_eq by lia. destruct (decide (q = p)) as [->|]; [|done]. unfold node_member. by rewrite E.
Qed.

Lemma set_member_spec tl p t b : tl_wf tl -> (t < 4)%nat -> p ∈ dom (tl_nodes tl) ->
  exists tl', set_member p t b tl = Some tl' /\ changes t tl tl' /\ tl_head tl' = tl_head tl /\
    forall q, node_next tl' q t = node_next tl q t /\ node_member tl' q t = (if decide (q = p) then Some b else node_member tl q t).
Proof.
  intros [W1 W2] Ht Hp. apply elem_of_dom in Hp as [tn E]. destruct (W2 _ _ E) as (Hp0 & Hn & Hm).
  unfold set_member. rewrite E. cbn [mbind option_bind]. eexists. split; [done|].
  split; [split|].
  - split; [done|]. cbn [tl_nodes]. intros q tq. destruct (decide (q = p)) as [->|Hne]; [|rewrite lookup_insert_ne by done; apply W2].
    rewrite lookup_insert_eq. intros [= <-]. cbn. by rewrite length_insert.
  - cbn. apply dom_insert_lookup_L. by exists tn.
  - intros t' Hne. split; [done|]. intros q. rewrite (proj1 (node_insert _ _ _ _ _ _)), (proj2 (node_insert _ _ _ _ _ _)).
    cbn [tn_next tn_member]. rewrite list_lookup_insert_ne by done. destruct (decide (q = p)) as [->|]; [|done].
    unfold node_next, node_member. by rewrite E.
  - split; [done|]. intros q. rewrite (proj1 (node_insert _ _ _ _ _ _)), (proj2 (node_insert _ _ _ _ _ _)). cbn [tn_next tn_member].
    rewrite list_lookup_insert_eq by lia. destruct (decide (q = p)) as [->|]; [|done]. unfold node_next. by rewrite E.
Qed.

Lemma holds_dom tl t l p : holds_list tl t l -> p ∈ l -> p ∈ dom (tl_nodes tl).
Proof.
  intros [(a & _ & H) _ _ _] Hp. apply list_elem_of_split in Hp as (l1 & l2 & ->). apply links_app in H.
  apply elem_of_dom. unfold node_next in H. destruct (tl_nodes tl !! p); [by eexists|done].
Qed.

Lemma add_abs tl ls txg p l : txg_abs tl ls -> ls !! txg_idx txg = Some l -> p ∈ dom (tl_nodes tl) ->
  exists tl', txg_list_add tl p txg = Some (tl', bool_decide (p ∈ l)) /\ dom (tl_nodes tl') = dom (tl_nodes tl) /\
    txg_abs tl' (if decide (p ∈ l) then ls else <[txg_idx txg := p :: l]> ls).
Proof.
  intros Habs El Hp. pose proof (ta_wf _ _ Habs) as W. pose proof (ta_holds _ _ Habs _ _ El) as Hl. pose proof (txg_idx_lt txg) as Ht.
  unfold txg_list_add. set (t := txg_idx txg) in *. rewrite (hl_member _ _ _ Hl p Hp). cbn [mbind option_bind].
  destruct (decide (p ∈ l)) as [Hin|Hin].
  { rewrite bool_decide_true by done. cbn [negb]. by exists tl. }
  rewrite bool_decide_false by done. cbn [negb].
  destruct (set_member_spec tl p t true W Ht Hp) as (tl1 & -> & C1 & E1 & V1). cbn [mbind option_bind]. rewrite E1.
  destruct Hl as [(a & Ha & Hk) Hnd Hm Hc]. rewrite Ha. cbn [mbind option_bind].
  destruct (set_next_spec tl1 p t a (ch_wf _ _ _ C1) Ht) as (tl2 & -> & C2 & E2 & V2); [by rewrite (ch_dom _ _ _ C1)|]. cbn [mbind option_bind].
  destruct (set_head_spec tl2 t p (ch_wf _ _ _ C2) Ht) as [C3 E3].
  pose proof (changes_trans _ _ _ _ C1 (changes_trans _ _ _ _ C2 C3)) as C.
  assert (p <> 0) as Hp0 by (apply elem_of_dom in Hp as [tn E]; by apply (tw_nodes _ W p tn)).
  eexists. split; [done|]. split; [apply (ch_dom _ _ _ C)|]. apply (abs_change tl); [done|done| |done]. split.
  - exists p. split; [done|]. cbn [links]. split; [done|]. split; [done|]. exists a. split.
    + change (node_next tl2 p t = Some a). rewrite (proj1 (V2 p)), decide_True by done. done.
    + eapply links_ext; [done|]. intros q Hq. change (node_next tl2 q t = node_next tl q t).
      rewrite (proj1 (V2 q)), decide_False by (intros ->; done). apply V1.
  - by constructor.
  - intros q Hq. rewrite (ch_dom _ _ _ C) in Hq. change (node_member tl2 q t = Some (bool_decide (q ∈ p :: l))).
    rewrite (proj2 (V2 q)), (proj2 (V1 q)). destruct (decide (q = p)) as [->|Hne]; [by rewrite bool_decide_true by left|].
    rewrite (Hm q Hq). f_equal. apply bool_decide_ext. rewrite elem_of_cons. tauto.
  - intros q Hq [Hne Hq']%not_elem_of_cons. rewrite (ch_dom _ _ _ C) in Hq. change (node_next tl2 q t = Some 0).
    rewrite (proj1 (V2 q)), decide_False by done. rewrite (proj1 (V1 q)). by apply Hc.
Qed.

(** Taking [p] out of the list, when its predecessor's link is already past
    it: what is common to the two ways of removing. *)
Lemma unlink_abs tl ls tl1 t l1 p l2 : txg_abs tl ls -> ls !! t = Some (l1 ++ p :: l2) -> (t < 4)%nat -> changes t tl tl1 ->
  (exists a, tl_head tl1 !! t = Some a /\ links (fun q => node_next tl1 q t) a (l1 ++ l2)) ->
  (forall q, q ∈ dom (tl_nodes tl) -> q ∉ l1 ++ p :: l2 -> node_next tl1 q t = Some 0) ->
  (forall q, node_member tl1 q t = node_member tl q t) ->
  exists tl2 tl3, set_next p t 0 tl1 = Some tl2 /\ set_member p t false tl2 = Some tl3 /\
    dom (tl_nodes tl3) = dom (tl_nodes tl) /\ txg_abs tl3 (<[t := l1 ++ l2]> ls).
Proof.
  intros Habs El Ht C1 (a & Ha & Hk) Hc1 Hm1. pose proof (ta_holds _ _ Habs _ _ El) as Hl.
  assert (p ∈ dom (tl_nodes tl)) as Hp by (apply (holds_dom _ _ _ _ Hl); rewrite elem_of_app, elem_of_cons; tauto).
  destruct (set_next_spec tl1 p t 0 (ch_wf _ _ _ C1) Ht) as (tl2 & -> & C2 & E2 & V2); [by rewrite (ch_dom _ _ _ C1)|].
  destruct (set_member_spec tl2 p t false (ch_wf _ _ _ C2) Ht) as (tl3 & E3 & C3 & Eh3 & V3);
    [by rewrite (ch_dom _ _ _ C2), (ch_dom _ _ _ C1)|].
  pose proof (changes_trans _ _ _ _ C1 (changes_trans _ _ _ _ C2 C3)) as C.
  exists tl2, tl3. split; [done|]. split; [done|]. split; [apply (ch_dom _ _ _ C)|].
  destruct Hl as [_ Hnd Hm Hc]. pose proof Hnd as Hnd'. rewrite Permutation_app_comm in Hnd'. cbn [app] in Hnd'.
  apply NoDup_cons in Hnd' as [Hnp Hnd']. rewrite Permutation_app_comm in Hnd'.
  assert (p ∉ l1 ++ l2) as Hnp' by (rewrite Permutation_app_comm; done).
  apply (abs_change tl); [done|done| |done]. split.
  - exists a. split; [by rewrite Eh3, E2|]. eapply links_ext; [done|]. intros q Hq. cbn beta.
    rewrite (proj1 (V3 q)), (proj1 (V2 q)), decide_False by (intros ->; done). done.
  - done.
  - intros q Hq. rewrite (ch_dom _ _ _ C) in Hq. rewrite (proj2 (V3 q)). destruct (decide (q = p)) as [->|Hne]; [by rewrite bool_decide_false|].
    rewrite (proj2 (V2 q)), Hm1, (Hm q Hq). f_equal. apply bool_decide_ext. rewrite !elem_of_app, elem_of_cons. tauto.
  - intros q Hq Hq'. rewrite (ch_dom _ _ _ C) in Hq. rewrite (proj1 (V3 q)), (proj1 (V2 q)). destruct (decide (q = p)) as [->|Hne]; [done|].
    apply Hc1; [done|]. rewrite elem_of_app, elem_of_cons in *. tauto.
Qed.

Lemma remove_abs tl ls txg l : txg_abs tl ls -> ls !! txg_idx txg = Some l ->
  exists tl', txg_list_remove tl txg = Some (tl', hd 0 l) /\ dom (tl_nodes tl') = dom (tl_nodes tl) /\
    txg_abs tl' (<[txg_idx txg := tail l]> ls).
Proof.
  intros Habs El. pose proof (ta_wf _ _ Habs) as W. pose proof (ta_holds _ _ Habs _ _ El) as Hl. pose proof (txg_idx_lt txg) as Ht.
  unfold txg_list_remove. set (t := txg_idx txg) in *. pose proof Hl as [(a & Ha & Hk) Hnd Hm Hc]. rewrite Ha. cbn [mbind option_bind].
  destruct l as [|p l]; cbn [links hd tail] in *.
  { subst a. cbn [Z.eqb negb]. exists tl. split; [done|]. split; [done|]. by rewrite list_insert_id. }
  destruct Hk as (-> & Hp0 & next & Hn & Hk). rewrite (proj2 (Z.eqb_neq _ _)) by done. cbn [negb]. rewrite Hn. cbn [mbind option_bind].
  destruct (set_head_spec tl t next W Ht) as [C1 E1].
  destruct (unlink_abs tl ls (set_head tl t next) t [] p l) as (tl2 & tl3 & -> & E3 & D & A); try done.
  - exists next. done.
  - cbn [mbind option_bind]. rewrite E3. cbn [mbind option_bind]. by exists tl3.
Qed.

Lemma links_tail nx l1 l2 : forall a, links nx a (l1 ++ l2) -> links nx (hd 0 l2) l2.
Proof.
  induction l1 as [|q l1 IH]; intros a; cbn [app]; [intros H; by rewrite <-(links_hd _ _ _ H)|].
  intros (_ & _ & next & _ & H). by eapply IH.
Qed.

Lemma links_cut nx nx' x p l2 : forall l1 a, links nx a ((l1 ++ [x]) ++ p :: l2) -> NoDup ((l1 ++ [x]) ++ p :: l2) ->
  nx' x = Some (hd 0 l2) -> (forall q, q <> x -> nx' q = nx q) -> links nx' a ((l1 ++ [x]) ++ l2).
Proof.
  induction l1 as [|q l1 IH]; intros a; cbn [app links]; intros (-> & Hx & next & Hn & Hk) Hnd Hx' Hq.
  - apply NoDup_cons in Hnd as [Hnx Hnd]. split; [done|]. split; [done|]. exists (hd 0 l2). split; [done|].
    eapply links_ext; [exact (links_tail nx [p] l2 next Hk)|]. intros q Hq'. apply Hq.
    intros ->. apply Hnx. by right.
  - apply NoDup_cons in Hnd as [Hnq Hnd]. split; [done|]. split; [done|]. exists next. split; [|by apply IH].
    rewrite Hq; [done|]. intros ->. apply Hnq. rewrite !elem_of_app, list_elem_of_singleton. tauto.
Qed.

Lemma remove_this_loop_abs tl ls t p : txg_abs tl ls -> (t < 4)%nat -> p <> 0 -> forall k l1 l2,
  ls !! t = Some (l1 ++ l2) -> (length l2 < k)%nat -> p ∉ l1 ->
  exists tl', remove_this_loop k tl p t (hd 0 (rev l1)) = Some (tl', if decide (p ∈ l2) then p else 0) /\
    dom (tl_nodes tl') = dom (tl_nodes tl) /\ txg_abs tl' (<[t := filter (fun q => q <> p) (l1 ++ l2)]> ls).
Proof.
  intros Habs Ht Hp0. induction k as [|k IH]; intros l1 l2 El Hk Hn1; [lia|]. pose proof (ta_holds _ _ Habs _ _ El) as Hl.
  pose proof Hl as [(a & Ha & Hlk) Hnd Hm Hc]. cbn [remove_this_loop].
  assert ((if hd 0 (rev l1) =? 0 then tl_head tl !! t else node_next tl (hd 0 (rev l1)) t) = Some (hd 0 l2)) as ->.
  { destruct l1 as [|x l1 _] using rev_ind; cbn [rev hd]; [cbn [Z.eqb app] in *; by rewrite Ha, (links_hd _ _ _ Hlk)|].
    rewrite rev_app_distr. cbn [rev app hd]. rewrite (proj2 (Z.eqb_neq x 0)).
    - rewrite <-app_assoc in Hlk. exact (links_app _ l1 x l2 a Hlk).
    - apply links_nonzero in Hlk. intros ->. apply Hlk. rewrite !elem_of_app, list_elem_of_singleton. tauto. }
  cbn [mbind option_bind]. destruct l2 as [|q l2]; cbn [hd].
  { exists tl. rewrite decide_False by apply not_elem_of_nil. split; [done|]. split; [done|]. rewrite app_nil_r in *.
    rewrite filter_all, list_insert_id; [done|done|]. intros x Hx ->. done. }
  assert (q <> 0) as Hq0 by (intros ->; apply links_nonzero in Hlk; apply Hlk; rewrite elem_of_app, elem_of_cons; tauto).
  rewrite (proj2 (Z.eqb_neq _ _)) by done. destruct (Z.eqb_spec q p) as [->|Hne].
  - rewrite (links_app _ l1 p l2 a Hlk), decide_True by (by left). cbn [mbind option_bind].
    assert (filter (fun q => q <> p) (l1 ++ p :: l2) = l1 ++ l2) as ->.
    { rewrite filter_app, filter_cons_False by tauto. rewrite !filter_all; [done|..]; intros x Hx ->; [|done].
      apply NoDup_app in Hnd as (_ & _ & Hnd). by apply NoDup_cons in Hnd as [? _]. }
    assert (exists tl1, (if hd 0 (rev l1) =? 0 then Some (set_head tl t (hd 0 l2)) else set_next (hd 0 (rev l1)) t (hd 0 l2) tl) = Some tl1 /\
      changes t tl tl1 /\ (exists a, tl_head tl1 !! t = Some a /\ links (fun q => node_next tl1 q t) a (l1 ++ l2)) /\
      (forall q, q ∉ l1 ++ p :: l2 -> node_next tl1 q t = node_next tl q t) /\ (forall q, node_member tl1 q t = node_member tl q t))
      as (tl1 & -> & C1 & Hlk1 & Hnx1 & Hmb1).
    { destruct l1 as [|x l1 _] using rev_ind; cbn [rev hd Z.eqb].
      - destruct (set_head_spec tl t (hd 0 l2) (ta_wf _ _ Habs) Ht) as [C1 E1]. eexists. split; [done|]. split; [done|].
        split; [|done]. exists (hd 0 l2). split; [done|]. exact (links_tail _ [p] l2 a Hlk).
      - rewrite rev_app_distr. cbn [rev app hd].
        assert (x ∈ (l1 ++ [x]) ++ p :: l2) as Hx by (rewrite !elem_of_app, list_elem_of_singleton; tauto).
        rewrite (proj2 (Z.eqb_neq x 0)) by (intros ->; by apply links_nonzero in Hlk).
        destruct (set_next_spec tl x t (hd 0 l2) (ta_wf _ _ Habs) Ht) as (tl1 & -> & C1 & E1 & V1); [by apply (holds_dom _ _ _ _ Hl)|].
        exists tl1. split; [done|]. split; [done|]. split; [|split; [|by intros q; apply V1]].
        + exists a. split; [by rewrite E1|]. eapply links_cut; [exact Hlk|done|cbn beta; by rewrite (proj1 (V1 x)), decide_True|].
          intros q Hq. cbn beta. by rewrite (proj1 (V1 q)), decide_False.
        + intros q Hq. rewrite (proj1 (V1 q)), decide_False; [done|]. intros ->. done. }
    cbn [mbind option_bind].
    destruct (unlink_abs tl ls tl1 t l1 p l2 Habs El Ht C1 Hlk1) as (tl2 & tl3 & -> & E3 & D & A); [|done|].
    { intros q Hq Hq'. rewrite Hnx1 by done. by apply Hc. }
    cbn [mbind option_bind]. rewrite E3. cbn [mbind option_bind]. by exists tl3.
  - destruct (IH (l1 ++ [q]) l2) as (tl' & E & D & A); [by rewrite <-app_assoc|cbn in Hk; lia|rewrite elem_of_app, list_elem_of_singleton; intuition congruence|].
    rewrite rev_app_distr in E. cbn [rev app hd] in E. exists tl'. rewrite <-app_assoc in A. split; [|done]. rewrite E. do 2 f_equal.
    apply decide_ext. rewrite elem_of_cons. intuition congruence.
Qed.

Lemma remove_this_abs tl ls txg p l : txg_abs tl ls -> ls !! txg_idx txg = Some l -> p <> 0 ->
  exists tl', txg_list_remove_this tl p txg = Some (tl', if decide (p ∈ l) then p else 0) /\
    dom (tl_nodes tl') = dom (tl_nodes tl) /\ txg_abs tl' (<[txg_idx txg := filter (fun q => q <> p) l]> ls).
Proof.
  intros Habs El Hp. pose proof (ta_holds _ _ Habs _ _ El) as Hl. unfold txg_list_remove_this.
  apply (remove_this_loop_abs tl ls (txg_idx txg) p Habs (txg_idx_lt txg) Hp _ [] l El); [|apply not_elem_of_nil].
  assert (list_to_set l ⊆ dom (tl_nodes tl)) as Hsub.
  { intros q. rewrite elem_of_list_to_set. by apply (holds_dom _ _ _ _ Hl). }
  apply subseteq_size in Hsub. rewrite size_list_to_set, size_dom in Hsub by apply (hl_nodup _ _ _ Hl). lia.
Qed.

(** ** The specification: four stacks without repetition *)

Inductive txg_op :=
  | OpAdd (p txg : Z)
  | OpRemove (txg : Z)
  | OpRemoveThis (p txg : Z)
  | OpMember (p txg : Z)
  | OpHead (txg : Z)
  | OpNext (p txg : Z)
  | OpEmpty (txg : Z).

(** A run of the operations, with what each returns. *)
Definition txg_step (tl : txg_list) (op : txg_op) : option (txg_list * Z) :=
  match op with
  | OpAdd p txg => let* (tl, b) := txg_list_add tl p txg in Some (tl, Z.b2z b)
  | OpRemove txg => txg_list_remove tl txg
  | OpRemoveThis p txg => txg_list_remove_this tl p txg
  | OpMember p txg => let* b := txg_list_member tl p txg in Some (tl, Z.b2z b)
  | OpHead txg => let* p := txg_list_head tl txg in Some (tl, p)
  | OpNext p txg => let* p := txg_list_next tl p txg in Some (tl, p)
  | OpEmpty txg => let* b := txg_list_empty tl txg in Some (tl, Z.b2z b)
  end.

Fixpoint after (p : Z) (l : list Z) : Z :=
  match l with
  | [] => 0
  | q :: l => if decide (q = p) then hd 0 l else after p l
  end.

Definition stack_step (ls : list (list Z)) (op : txg_op) : list (list Z) * Z :=
  let at_ txg := default [] (ls !! txg_idx txg) in
  match op with
  | OpAdd p txg =>
      if decide (p ∈ at_ txg) then (ls, 1) else (<[txg_idx txg := p :: at_ txg]> ls, 0)
  | OpRemove txg => (<[txg_idx txg := tail (at_ txg)]> ls, hd 0 (at_ txg))
  | OpRemoveThis p txg => (<[txg_idx txg := filter (fun q => q <> p) (at_ txg)]> ls, if decide (p ∈ at_ txg) then p else 0)
  | OpMember p txg => (ls, Z.b2z (bool_decide (p ∈ at_ txg)))
  | OpHead txg => (ls, hd 0 (at_ txg))
  | OpNext p txg => (ls, after p (at_ txg))
  | OpEmpty txg => (ls, Z.b2z (bool_decide (at_ txg = [])))
  end.

Fixpoint txg_run (tl : txg_list) (ops : list txg_op) : option (txg_list * list Z) :=
  match ops with
  | [] => Some (tl, [])
  | op :: ops => let* (tl, r) := txg_step tl op in let* (tl, rs) := txg_run tl ops in Some (tl, r :: rs)
  end.
Fixpoint stack_run (ls : list (list Z)) (ops : list txg_op) : list (list Z) * list Z :=
  match ops with
  | [] => (ls, [])
  | op :: ops => let '(ls, r) := stack_step ls op in let '(ls, rs) := stack_run ls ops in (ls, r :: rs)
  end.

(** The object an operation is about has a node. *)
Definition op_object (op : txg_op) : option Z :=
  match op with
  | OpAdd p _ | OpRemoveThis p _ | OpMember p _ | OpNext p _ => Some p
  | OpRemove _ | OpHead _ | OpEmpty _ => None
  end.
Definition op_ok (nodes : gset Z) (op : txg_op) : Prop := forall p, op_object op = Some p -> p ∈ nodes.

Lemma after_split l1 p l2 : p ∉ l1 -> after p (l1 ++ p :: l2) = hd 0 l2.
Proof.
  induction l1 as [|q l1 IH]; cbn [app after]; intros Hp; [by rewrite decide_True|].
  apply not_elem_of_cons in Hp as [Hne Hp]. rewrite decide_False by done. by apply IH.
Qed.
Lemma after_none p l : p ∉ l -> after p l = 0.
Proof.
  induction l as [|q l IH]; cbn [after]; [done|]. intros [Hne Hp]%not_elem_of_cons. rewrite decide_False by done. by apply IH.
Qed.

Lemma next_abs tl t l p : holds_list tl t l -> p ∈ dom (tl_nodes tl) -> node_next tl p t = Some (after p l).
Proof.
  intros [(a & _ & Hk) Hnd _ Hc] Hp. destruct (decide (p ∈ l)) as [Hin|Hin]; [|by rewrite after_none, Hc].
  apply list_elem_of_split in Hin as (l1 & l2 & ->). rewrite after_split; [exact (links_app _ l1 p l2 a Hk)|].
  apply NoDup_app in Hnd as (_ & Hd & _). intros Hp1. apply (Hd p Hp1). by left.
Qed.

Lemma txg_step_abs tl ls op : txg_abs tl ls -> op_ok (dom (tl_nodes tl)) op ->
  exists tl', txg_step tl op = Some (tl', snd (stack_step ls op)) /\ dom (tl_nodes tl') = dom (tl_nodes tl) /\ txg_abs tl' (fst (stack_step ls op)).
Proof.
  intros Habs Hok. assert (forall txg, exists l, ls !! txg_idx txg = Some l) as Hls.
  { intros txg. apply lookup_lt_is_Some. rewrite (ta_lists _ _ Habs). apply txg_idx_lt. }
  unfold op_ok in Hok. destruct op as [p txg|txg|p txg|p txg|txg|p txg|txg]; cbn [txg_step stack_step op_object] in *;
    destruct (Hls txg) as [l El]; rewrite El; cbn [default id]; pose proof (ta_holds _ _ Habs _ _ El) as Hl.
  - destruct (add_abs tl ls txg p l Habs El (Hok _ eq_refl)) as (tl' & -> & D & A). cbn [mbind option_bind]. exists tl'.
    destruct (decide (p ∈ l)); [rewrite bool_decide_true by done|rewrite bool_decide_false by done]; done.
  - destruct (remove_abs tl ls txg l Habs El) as (tl' & -> & D & A). by exists tl'.
  - destruct (remove_this_abs tl ls txg p l Habs El) as (tl' & -> & D & A); [|by exists tl'].
    specialize (Hok _ eq_refl). apply elem_of_dom in Hok as [tn E]. by apply (tw_nodes _ (ta_wf _ _ Habs) _ _ E).
  - unfold txg_list_member. rewrite (hl_member _ _ _ Hl p (Hok _ eq_refl)). by exists tl.
  - destruct Hl as [(a & Ha & Hk) _ _ _]. unfold txg_list_head. rewrite Ha, (links_hd _ _ _ Hk). by exists tl.
  - unfold txg_list_next. rewrite (next_abs _ _ _ _ Hl (Hok _ eq_refl)). by exists tl.
  - unfold txg_list_empty. destruct Hl as [(a & Ha & Hk) _ _ _]. rewrite Ha. cbn [mbind option_bind]. exists tl. split; [|done]. cbn [snd].
    destruct l as [|q l]; [cbn in Hk; by subst a|]. destruct Hk as (-> & Hq & _). by rewrite (proj2 (Z.eqb_neq _ _)), bool_decide_false.
Qed.

Lemma txg_create_abs nodes : (forall p, p ∈ nodes -> p <> 0) ->
  txg_abs (txg_list_create (gset_to_gmap txg_node_zero nodes)) (repeat [] 4).
Proof.
  intros Hnz. assert (forall p tn, gset_to_gmap txg_node_zero nodes !! p = Some tn -> p ∈ nodes /\ tn = txg_node_zero) as Hz.
  { intros p tn [? <-]%lookup_gset_to_gmap_Some. done. }
  split; [split; [done|]|done|].
  - intros p tn E. apply Hz in E as [Hp ->]. split; [by apply Hnz|done].
  - intros t l Hl. assert (l = [] /\ (t < 4)%nat) as [-> Ht].
    { apply lookup_lt_Some in Hl as Hlt. destruct t as [|[|[|[|t]]]]; cbn in Hl; try (injection Hl as <-; split; [done|lia]). cbn in Hlt. lia. }
    split; [|constructor|..].
    + exists 0. split; [|done]. by destruct t as [|[|[|[|t]]]]; [..|lia].
    + intros p [tn E]%elem_of_dom. apply Hz in E as E'. destruct E' as [Hp ->]. unfold node_member. cbn [tl_nodes txg_list_create] in *. rewrite E.
      by destruct t as [|[|[|[|t]]]]; [..|lia].
    + intros p [tn E]%elem_of_dom _. apply Hz in E as E'. destruct E' as [Hp ->]. unfold node_next. cbn [tl_nodes txg_list_create] in *. rewrite E.
      by destruct t as [|[|[|[|t]]]]; [..|lia].
Qed.

Lemma txg_run_abs ops : forall tl ls, txg_abs tl ls -> Forall (op_ok (dom (tl_nodes tl))) ops ->
  exists tl', txg_run tl ops = Some (tl', snd (stack_run ls ops)) /\ dom (tl_nodes tl') = dom (tl_nodes tl) /\ txg_abs tl' (fst (stack_run ls ops)).
Proof.
  induction ops as [|op ops IH]; intros tl ls Habs Hok; cbn [txg_run stack_run]; [by exists tl|].
  apply Forall_cons in Hok as [Hop Hok]. destruct (txg_step_abs tl ls op Habs Hop) as (tl1 & -> & D1 & A1). cbn [mbind option_bind].
  destruct (stack_step ls op) as [ls1 r]. cbn [fst snd] in *. rewrite <-D1 in Hok. destruct (IH tl1 ls1 A1 Hok) as (tl2 & -> & D2 & A2).
  cbn [mbind option_bind]. destruct (stack_run ls1 ops) as [ls2 rs]. cbn [fst snd] in *. exists tl2. split; [done|]. by rewrite D2.
Qed.

(** C37: a [txg_list] is, for each of the four transaction groups, a stack
    without repetition.  Every sequence of [txg_list_add], [_remove],
    [_remove_this], [_member], [_head], [_next] and [_empty] on a new list,
    over zeroed nodes, runs through and returns what the stacks return: an
    object is on a list at most once, a list returns the objects last in
    first out, and the lists of different groups do not disturb each other. *)
Theorem txg_list_is_stacks (nodes : gset Z) (ops : list txg_op) (Hnz : 0 ∉ nodes) (Hok : Forall (op_ok nodes) ops) :
  exists tl, txg_run (txg_list_create (gset_to_gmap txg_node_zero nodes)) ops = Some (tl, snd (stack_run (repeat [] 4) ops)) /\
    txg_abs tl (fst (stack_run (repeat [] 4) ops)).
Proof.
  destruct (txg_run_abs ops _ _ (txg_create_abs nodes ltac:(set_solver))) as (tl & E & _ & A); [|by exists tl].
  cbn [tl_nodes txg_list_create]. by rewrite dom_gset_to_gmap.
Qed.

Lemma txg_list_is_stacks_witness :
  exists tl, txg_run (txg_list_create (gset_to_gmap txg_node_zero {[8; 16; 24]}))
      [OpAdd 8 5; OpAdd 16 5; OpAdd 8 5; OpAdd 24 1; OpNext 24 5; OpRemoveThis 16 5; OpRemove 9; OpEmpty 6] =
      Some (tl, [0; 0; 1; 0; 16; 16; 24; 1]) /\ txg_abs tl [[]; [8]; []; []].
Proof.
  refine (txg_list_is_stacks {[8; 16; 24]} [OpAdd 8 5; OpAdd 16 5; OpAdd 8 5; OpAdd 24 1; OpNext 24 5; OpRemoveThis 16 5; OpRemove 9; OpEmpty 6] _ _).
  - set_solver.
  - repeat constructor; intros p [= <-]; set_solver.
Defined.
