(* ===== verification/Namecheck.v ===== *)
(** * Names ([zfs_namecheck.c])

    The checks of dataset, snapshot, pool, permission set and mount point
    names.  A C string is the list of its characters without the NUL; a
    pointer into it is an index, and reading an index past the NUL or before
    the string has no value.  A check returns what it returned and what it
    stored through [why] and [what]; [why] says whether the pointer is set. *)
From Stdlib Require Import ZArith Lia Ascii String.
From stdpp Require Import base numbers list option gmap.
From S2P Require Import Prelude.

Definition MAXNAMELEN : Z := 256.
Definition ZFS_PERMSET_MAXLEN : Z := 64.

Inductive namecheck_err :=
  | NAME_ERR_LEADING_SLASH
  | NAME_ERR_EMPTY_COMPONENT
  | NAME_ERR_TRAILING_SLASH
  | NAME_ERR_INVALCHAR
  | NAME_ERR_MULTIPLE_AT
  | NAME_ERR_NOLETTER
  | NAME_ERR_RESERVED
  | NAME_ERR_DISKLIKE
  | NAME_ERR_TOOLONG
  | NAME_ERR_NO_AT.

Record verdict := mk_verdict { nc_ret : Z; nc_why : option namecheck_err; nc_what : option ascii }.

Definition accept : verdict := mk_verdict 0 None None.
(** [if (why) *why = err; return (-1);] *)
Definition reject (why : bool) (err : namecheck_err) : verdict :=
  mk_verdict (-1) (if why then Some err else None) None.
(** [if (why) { *why = err; *what = c; } return (-1);] *)
Definition reject_char (why : bool) (err : namecheck_err) (c : ascii) : verdict :=
  mk_verdict (-1) (if why then Some err else None) (if why then Some c else None).

Definition NUL : ascii := "000".
Definition strlen (path : list ascii) : Z := Z.of_nat (List.length path).
Definition char_at (path : list ascii) (i : Z) : option ascii :=
  if i <? 0 then None else (path ++ [NUL]) !! Z.to_nat i.

Definition code (c : ascii) : Z := Z.of_N (N_of_ascii c).
Definition char_le (a b : ascii) : bool := code a <=? code b.

Definition valid_char (c : ascii) : bool :=
  (char_le "a" c && char_le c "z") || (char_le "A" c && char_le c "Z") || (char_le "0" c && char_le c "9") ||
  (c =? "-")%char || (c =? "_")%char || (c =? ".")%char || (c =? ":")%char || (c =? " ")%char.

(** [for (loc = path; *loc; loc++)] of [snapshot_namecheck] and the [while]
    of [pool_namecheck]: [None] inside when no character is invalid. *)
Fixpoint check_chars (k : nat) (path : list ascii) (why : bool) (loc : Z) : option (option verdict) :=
  let* c := char_at path loc in
  if (c =? NUL)%char then Some None
  else
    match k with
    | O => None
    | S k =>
        if negb (valid_char c) then Some (Some (reject_char why NAME_ERR_INVALCHAR c))
        else check_chars k path why (loc + 1)
    end.

Definition snapshot_namecheck (path : list ascii) (why : bool) : option verdict :=
  if MAXNAMELEN <=? strlen path then Some (reject why NAME_ERR_TOOLONG)
  else
    let* c := char_at path 0 in
    if (c =? NUL)%char then Some (reject why NAME_ERR_EMPTY_COMPONENT)
    else
      let* bad := check_chars (S (List.length path)) path why 0 in
      Some (default accept bad).

Definition permset_namecheck (path : list ascii) (why : bool) : option verdict :=
  if ZFS_PERMSET_MAXLEN <=? strlen path then Some (reject why NAME_ERR_TOOLONG)
  else
    let* c := char_at path 0 in
    if negb (c =? "@")%char then Some (reject_char why NAME_ERR_NO_AT c)
    else snapshot_namecheck (drop 1 path) why.

(** [while ( *end != '/' && *end != '@' && *end != '\0') end++;], with the '@'
    tested when [at_stops]. *)
Fixpoint find_end (k : nat) (at_stops : bool) (path : list ascii) (end_ : Z) : option Z :=
  let* c := char_at path end_ in
  if negb (c =? "/")%char && negb (at_stops && (c =? "@")%char) && negb (c =? NUL)%char then
    match k with O => None | S k => find_end k at_stops path (end_ + 1) end
  else Some end_.

(** [while (loc != end)]: the characters of a component. *)
Fixpoint check_component (k : nat) (path : list ascii) (why : bool) (loc end_ : Z) : option (option verdict) :=
  if loc =? end_ then Some None
  else
    match k with
    | O => None
    | S k =>
        let* c := char_at path loc in
        if negb (valid_char c) && negb (c =? "%")%char then Some (Some (reject_char why NAME_ERR_INVALCHAR c))
        else check_component k path why (loc + 1) end_
    end.

(** [for (;;)] of [dataset_namecheck]. *)
Fixpoint dataset_loop (k : nat) (path : list ascii) (why found_snapshot : bool) (loc : Z) : option verdict :=
  match k with
  | O => None
  | S k =>
      let* end_ := find_end (S (List.length path)) true path loc in
      let* e := char_at path end_ in
      let* slash_before := if (e =? NUL)%char then let* b := char_at path (end_ - 1) in Some (b =? "/")%char else Some false in
      if (slash_before : bool) then Some (reject why NAME_ERR_TRAILING_SLASH)
      else if loc =? end_ then
        Some (reject why (if (e =? "@")%char && found_snapshot then NAME_ERR_MULTIPLE_AT else NAME_ERR_EMPTY_COMPONENT))
      else
        let* bad := check_component (S (List.length path)) path why loc end_ in
        match (bad : option verdict) with
        | Some v => Some v
        | None =>
            if (e =? NUL)%char then Some accept
            else if (e =? "@")%char && found_snapshot then Some (reject why NAME_ERR_MULTIPLE_AT)
            else
              let found_snapshot := found_snapshot || (e =? "@")%char in
              if (e =? "/")%char && found_snapshot then Some (reject why NAME_ERR_TRAILING_SLASH)
              else dataset_loop k path why found_snapshot (end_ + 1)
        end
  end.

Definition dataset_namecheck (path : list ascii) (why : bool) : option verdict :=
  if MAXNAMELEN <=? strlen path then Some (reject why NAME_ERR_TOOLONG)
  else
    let* c := char_at path 0 in
    if (c =? "/")%char then Some (reject why NAME_ERR_LEADING_SLASH)
    else if (c =? NUL)%char then Some (reject why NAME_ERR_EMPTY_COMPONENT)
    else dataset_loop (S (List.length path)) path why false 0.

(** [do ... while ( *end != '\0')] of [mountpoint_namecheck]. *)
Fixpoint mountpoint_loop (k : nat) (path : list ascii) (why : bool) (start : Z) : option verdict :=
  match k with
  | O => None
  | S k =>
      let* end_ := find_end (S (List.length path)) false path start in
      if MAXNAMELEN <=? end_ - start then Some (reject why NAME_ERR_TOOLONG)
      else
        let* e := char_at path end_ in
        if negb (e =? NUL)%char then mountpoint_loop k path why (end_ + 1) else Some accept
  end.

(** [None] is the NULL pointer. *)
Definition mountpoint_namecheck (path : option (list ascii)) (why : bool) : option verdict :=
  match path with
  | None => Some (reject why NAME_ERR_LEADING_SLASH)
  | Some path =>
      let* c := char_at path 0 in
      if negb (c =? "/")%char then Some (reject why NAME_ERR_LEADING_SLASH)
      else mountpoint_loop (S (List.length path)) path why 1
  end.

Definition pool_namecheck (pool : list ascii) (why : bool) : option verdict :=
  if MAXNAMELEN <=? strlen pool then Some (reject why NAME_ERR_TOOLONG)
  else
    let* bad := check_chars (S (List.length pool)) pool why 0 in
    match (bad : option verdict) with
    | Some v => Some v
    | None =>
        let* c := char_at pool 0 in
        if negb (char_le "a" c && char_le c "z") && negb (char_le "A" c && char_le c "Z") then Some (reject why NAME_ERR_NOLETTER)
        else if bool_decide (pool = list_ascii_of_string "mirror") || bool_decide (pool = list_ascii_of_string "raidz")
        then Some (reject why NAME_ERR_RESERVED)
        else
          let* disk := if (c =? "c")%char then let* d := char_at pool 1 in Some (char_le "0" d && char_le d "9") else Some false in
          Some (if (disk : bool) then reject why NAME_ERR_DISKLIKE else accept)
    end.

Definition dataset_name_hidden (name : list ascii) : Z := if bool_decide ("$"%char ∈ name) then 1 else 0.

(** ** The grammar of names *)

Definition component_char (c : ascii) : Prop := valid_char c = true \/ c = "%"%char.
Definition component (l : list ascii) : Prop := l <> [] /\ Forall component_char l.

(** component, component/name, component\@snapshot. *)
Inductive dataset_name : list ascii -> Prop :=
  | dn_component c : component c -> dataset_name c
  | dn_child c l : component c -> dataset_name l -> dataset_name (c ++ "/"%char :: l)
  | dn_snapshot c s : component c -> component s -> dataset_name (c ++ "@"%char :: s).

Definition pool_name (l : list ascii) : Prop :=
  Forall (fun c => valid_char c = true) l /\
  (exists c r, l = c :: r /\ ((char_le "a" c && char_le c "z") || (char_le "A" c && char_le c "Z")) = true) /\
  l <> list_ascii_of_string "mirror" /\ l <> list_ascii_of_string "raidz" /\
  (forall d r, l = "c"%char :: d :: r -> (char_le "0" d && char_le d "9") = false).

(** A check that does not accept returns -1, sets [why] when it may, and
    stores only an invalid character of the name in [what]. *)
Definition verdict_ok (path : list ascii) (why : bool) (v : verdict) : Prop :=
  v = accept \/ (nc_ret v = -1 /\ (is_Some (nc_why v) <-> why = true) /\
                 forall c, nc_what v = Some c -> c ∈ path /\ valid_char c = false).

Lemma reject_ok path why err : verdict_ok path why (reject why err).
Proof. right. split; [done|]. split; [|done]. destruct why; cbn; split; intros H; try done; by destruct H. Qed.
Lemma reject_char_ok path why c : c ∈ path -> valid_char c = false -> verdict_ok path why (reject_char why NAME_ERR_INVALCHAR c).
Proof.
  intros H1 H2. right. split; [done|]. split; [destruct why; cbn; split; intros H; try done; by destruct H|].
  intros c'. destruct why; cbn; intros [= <-]; done.
Qed.

(** ** Reading *)

Definition is_stop (at_stops : bool) (c : ascii) : bool :=
  (c =? "/")%char || (at_stops && (c =? "@")%char) || (c =? NUL)%char.

Lemma char_at_here pre l : char_at (pre ++ l) (strlen pre) = Some (hd NUL l).
Proof.
  unfold char_at, strlen. rewrite (proj2 (Z.ltb_ge _ _)) by lia.
  rewrite Nat2Z.id, <-app_assoc, lookup_app_r, Nat.sub_diag by lia. by destruct l.
Qed.

Lemma strlen_snoc pre c : strlen (pre ++ [c]) = strlen pre + 1.
Proof. unfold strlen. rewrite length_app. cbn [List.length]. lia. Qed.

Lemma ascii_eqb_neq a b : a <> b -> (a =? b)%char = false.
Proof. apply Ascii.eqb_neq. Qed.

Lemma find_end_spec stops : forall c k pre rest,
  (List.length c < k)%nat -> Forall (fun x => is_stop stops x = false) c -> is_stop stops (hd NUL rest) = true ->
  find_end k stops (pre ++ c ++ rest) (strlen pre) = Some (strlen (pre ++ c)).
Proof.
  induction c as [|x c IH]; intros k pre rest Hk Hc Hr.
  - destruct k as [|k]; cbn [app find_end]; rewrite char_at_here, app_nil_r; cbn [mbind option_bind]; unfold is_stop in Hr;
      destruct (hd NUL rest =? "/")%char, (stops && (hd NUL rest =? "@")%char), (hd NUL rest =? NUL)%char; done.
  - destruct k as [|k]; [cbn in Hk; lia|]. apply Forall_cons_1 in Hc as [Hx Hc]. cbn [find_end app].
    rewrite char_at_here. cbn [mbind option_bind hd]. unfold is_stop in Hx. rewrite !orb_false_iff in Hx. destruct Hx as [[-> ->] ->].
    cbn [negb andb]. specialize (IH k (pre ++ [x]) rest). rewrite strlen_snoc, <-!app_assoc in IH. cbn [app] in IH.
    apply IH; [cbn in Hk; lia|done|done].
Qed.

(** The component at the front of a string. *)
Lemma split_component stops l : exists c rest, l = c ++ rest /\ Forall (fun x => is_stop stops x = false) c /\
  is_stop stops (hd NUL rest) = true.
Proof.
  induction l as [|x l (c & rest & -> & Hc & Hr)].
  - exists [], []. split; [done|]. split; [constructor|]. unfold is_stop. by destruct stops.
  - destruct (is_stop stops x) eqn:E.
    + exists [], (x :: c ++ rest). by split.
    + exists (x :: c), rest. split; [done|]. split; [by constructor|done].
Qed.

Lemma check_component_spec why : forall c k pre rest, (List.length c < k)%nat ->
  (check_component k (pre ++ c ++ rest) why (strlen pre) (strlen (pre ++ c)) = Some None /\ Forall component_char c) \/
  (exists x, check_component k (pre ++ c ++ rest) why (strlen pre) (strlen (pre ++ c)) = Some (Some (reject_char why NAME_ERR_INVALCHAR x)) /\
     x ∈ c /\ valid_char x = false /\ ~ Forall component_char c).
Proof.
  induction c as [|x c IH]; intros k pre rest Hk.
  - left. split; [|constructor]. rewrite app_nil_r. destruct k; cbn [check_component]; by rewrite Z.eqb_refl.
  - destruct k as [|k]; [lia|]. cbn [List.length] in Hk. cbn [check_component].
    rewrite (proj2 (Z.eqb_neq _ _)) by (unfold strlen; rewrite length_app; cbn [List.length]; lia).
    cbn [app]. rewrite char_at_here. cbn [mbind option_bind hd].
    destruct (negb (valid_char x) && negb (x =? "%")%char) eqn:E.
    + right. exists x. split; [done|]. bprop. split; [by left|]. split; [done|]. intros [[Hx|Hx] _]%Forall_cons_1; [congruence|].
      apply Ascii.eqb_neq in H0. done.
    + assert (component_char x) as Hx.
      { unfold component_char. destruct (valid_char x); [by left|]. right. cbn in E. bprop. by apply Ascii.eqb_eq. }
      specialize (IH k (pre ++ [x]) rest ltac:(lia)). rewrite strlen_snoc, <-!app_assoc in IH. cbn [app] in IH.
      destruct IH as [[H1 H2]|(y & H1 & H2 & H3 & H4)].
      * left. split; [done|by constructor].
      * right. exists y. split; [done|]. split; [by right|]. split; [done|]. by intros [_ ?]%Forall_cons_1.
Qed.

Lemma check_chars_spec why : forall l k pre, (List.length l < k)%nat -> (NUL ∉ l) ->
  (check_chars k (pre ++ l) why (strlen pre) = Some None /\ Forall (fun c => valid_char c = true) l) \/
  (exists x, check_chars k (pre ++ l) why (strlen pre) = Some (Some (reject_char why NAME_ERR_INVALCHAR x)) /\
     x ∈ l /\ valid_char x = false).
Proof.
  induction l as [|x l IH]; intros k pre Hk Hn.
  - left. destruct k; cbn [check_chars]; rewrite char_at_here; by split.
  - destruct k as [|k]; [lia|]. cbn [List.length] in Hk. cbn [check_chars]. rewrite char_at_here. cbn [mbind option_bind hd].
    rewrite not_elem_of_cons in Hn. destruct Hn as [Hx Hn]. rewrite ascii_eqb_neq by done. destruct (valid_char x) eqn:E; cbn [negb].
    + specialize (IH k (pre ++ [x]) ltac:(lia) Hn). rewrite strlen_snoc, <-!app_assoc in IH. cbn [app] in IH.
      destruct IH as [[H1 H2]|(y & H1 & H2 & H3)]; [left|right; exists y]; split; try done; [by constructor|].
      split; [by right|done].
    + right. exists x. split; [done|]. split; [by left|done].
Qed.

(** ** Names split at their first separator *)

Lemma component_no_stop x : component_char x -> is_stop true x = false.
Proof.
  unfold component_char. destruct x as [b0 b1 b2 b3 b4 b5 b6 b7].
  destruct b0, b1, b2, b3, b4, b5, b6, b7; intros [H|H]; solve [reflexivity|discriminate].
Qed.

Lemma component_stop_free c : component c -> Forall (fun x => is_stop true x = false) c.
Proof. intros [_ H]. eapply Forall_impl; [exact H|]. apply component_no_stop. Qed.

Lemma stop_free_unique stops : forall c1 c2 r1 r2, c1 ++ r1 = c2 ++ r2 ->
  Forall (fun x => is_stop stops x = false) c1 -> Forall (fun x => is_stop stops x = false) c2 ->
  is_stop stops (hd NUL r1) = true -> is_stop stops (hd NUL r2) = true -> c1 = c2 /\ r1 = r2.
Proof.
  induction c1 as [|x c1 IH]; intros [|y c2] r1 r2 E H1 H2 S1 S2; cbn [app] in E; forall_inv; subst; cbn [hd] in *;
    try congruence; [done|]. injection E as -> E. by destruct (IH c2 r1 r2) as [-> ->].
Qed.

Lemma dataset_name_split c rest : Forall (fun x => is_stop true x = false) c -> is_stop true (hd NUL rest) = true ->
  dataset_name (c ++ rest) <->
  component c /\ (rest = [] \/ (exists r, rest = "/"%char :: r /\ dataset_name r) \/ (exists r, rest = "@"%char :: r /\ component r)).
Proof.
  intros Hc Hr. split.
  - intros H. remember (c ++ rest) as l eqn:E. destruct H as [c' H'|c' l' H' Hl|c' s H' Hs].
    + rewrite <-(app_nil_r c') in E. destruct (stop_free_unique true _ _ _ _ E) as [-> <-]; auto using component_stop_free.
    + destruct (stop_free_unique true _ _ _ _ E) as [-> <-]; eauto 6 using component_stop_free.
    + destruct (stop_free_unique true _ _ _ _ E) as [-> <-]; eauto 6 using component_stop_free.
  - intros [H [->|[(r & -> & Hd)|(r & -> & Hd)]]].
    + rewrite app_nil_r. by constructor.
    + by constructor.
    + by constructor.
Qed.

Lemma component_split c rest : Forall (fun x => is_stop true x = false) c -> is_stop true (hd NUL rest) = true ->
  component (c ++ rest) <-> component c /\ rest = [].
Proof.
  intros Hc Hr. split; [|intros [H ->]; by rewrite app_nil_r].
  intros H. rewrite <-(app_nil_r (c ++ rest)) in H. destruct (stop_free_unique true (c ++ rest) c [] rest) as [E1 E2]; try done.
  - by rewrite app_nil_r.
  - apply component_stop_free. by rewrite app_nil_r in H.
  - subst rest. by rewrite !app_nil_r in H.
Qed.

(** ** The loop of [dataset_namecheck] *)

(** What the rest of a name must be, after an '@' or before one. *)
Definition rest_ok (found : bool) (l : list ascii) : Prop := if found then component l else dataset_name l.

Lemma rest_ok_split found c rest : Forall (fun x => is_stop true x = false) c -> is_stop true (hd NUL rest) = true ->
  rest_ok found (c ++ rest) <->
  component c /\ (rest = [] \/ (found = false /\ exists x r, rest = x :: r /\ rest_ok (x =? "@")%char r /\ (x = "/" \/ x = "@")%char)).
Proof.
  intros Hc Hr. destruct found; cbn [rest_ok].
  - rewrite component_split by done. split; [intros [? ?]; auto|]. intros [H [?|[[=] _]]]. done.
  - rewrite dataset_name_split by done. split; intros [H [?|Hs]]; (split; [done|]); auto; right.
    + split; [done|]. destruct Hs as [(r & -> & Hd)|(r & -> & Hd)]; eexists _, r; (split; [done|]); cbn; auto.
    + destruct Hs as [_ (x & r & -> & Hd & [->| ->])]; [left|right]; by exists r.
Qed.

Lemma stop_cases c : is_stop true c = true -> c = "/"%char \/ c = "@"%char \/ c = NUL.
Proof. unfold is_stop. rewrite !orb_true_iff, andb_true_iff, !Ascii.eqb_eq. tauto. Qed.

Lemma last_stop_free pre c : c <> [] -> Forall (fun x => is_stop true x = false) c ->
  exists b, char_at (pre ++ c) (strlen (pre ++ c) - 1) = Some b /\ (b =? "/")%char = false.
Proof.
  intros Hne Hc. destruct (exists_last Hne) as (c' & b & ->). exists b. rewrite app_assoc, strlen_snoc.
  replace (strlen (pre ++ c') + 1 - 1) with (strlen (pre ++ c')) by lia. rewrite char_at_here. split; [done|].
  apply Forall_app in Hc as [_ Hb]. forall_inv. unfold is_stop in *. by destruct (b =? "/")%char.
Qed.

Lemma char_at_last pre b : char_at (pre ++ [b]) (strlen (pre ++ [b]) - 1) = Some b.
Proof. rewrite strlen_snoc. replace (strlen pre + 1 - 1) with (strlen pre) by lia. by rewrite char_at_here. Qed.

(** An empty component is an error. *)
Lemma dataset_loop_empty why k pre rest found :
  (NUL ∉ rest) -> pre ++ rest <> [] -> is_stop true (hd NUL rest) = true ->
  exists err, dataset_loop (S k) (pre ++ rest) why found (strlen pre) = Some (reject why err).
Proof.
  intros Hn Hne Hr. cbn [dataset_loop]. pose proof (find_end_spec true [] (S (List.length (pre ++ rest))) pre rest) as E.
  rewrite app_nil_r in E. cbn [app] in E. rewrite E by (try done; cbn; lia). cbn [mbind option_bind].
  rewrite char_at_here, Z.eqb_refl. cbn [mbind option_bind].
  destruct (hd NUL rest =? NUL)%char eqn:Ee; cbn [mbind option_bind]; [|by eexists].
  apply Ascii.eqb_eq in Ee. destruct rest as [|x rest]; [|cbn in Ee; subst x; set_solver].
  rewrite app_nil_r in *. destruct (exists_last Hne) as (p & b & ->). rewrite char_at_last. cbn [mbind option_bind].
  destruct (b =? "/")%char; by eexists.
Qed.

(** A non-empty component: an invalid character ends the loop, the end of the
    name or a second separator after '@' too. *)
Lemma dataset_loop_step why k pre c rest found :
  (NUL ∉ rest) -> c <> [] -> Forall (fun x => is_stop true x = false) c -> is_stop true (hd NUL rest) = true ->
  (exists x, dataset_loop (S k) (pre ++ c ++ rest) why found (strlen pre) = Some (reject_char why NAME_ERR_INVALCHAR x) /\
     x ∈ c /\ valid_char x = false /\ ~ component c) \/
  (component c /\ dataset_loop (S k) (pre ++ c ++ rest) why found (strlen pre) =
     match rest with
     | [] => Some accept
     | x :: r => if found then Some (reject why (if (x =? "@")%char then NAME_ERR_MULTIPLE_AT else NAME_ERR_TRAILING_SLASH))
                 else dataset_loop k (pre ++ c ++ rest) why (x =? "@")%char (strlen ((pre ++ c) ++ [x]))
     end).
Proof.
  intros Hn Hcne Hc Hr. cbn [dataset_loop]. rewrite (find_end_spec true c) by (try done; rewrite !length_app; lia).
  cbn [mbind option_bind]. assert (char_at (pre ++ c ++ rest) (strlen (pre ++ c)) = Some (hd NUL rest)) as ->.
  { rewrite app_assoc. apply char_at_here. }
  cbn [mbind option_bind].
  replace (strlen pre =? strlen (pre ++ c)) with false
    by (symmetry; apply Z.eqb_neq; unfold strlen; rewrite length_app; destruct c; [done|cbn [List.length]; lia]).
  assert ((if (hd NUL rest =? NUL)%char then let* b := char_at (pre ++ c ++ rest) (strlen (pre ++ c) - 1) in Some (b =? "/")%char else Some false) = Some false) as ->.
  { destruct rest as [|x rest]; cbn [hd]; [|rewrite ascii_eqb_neq; [done|set_solver]].
    rewrite app_nil_r. destruct (last_stop_free pre c Hcne Hc) as (b & -> & E). cbn. by rewrite E. }
  cbn [mbind option_bind].
  destruct (check_component_spec why c (S (List.length (pre ++ c ++ rest))) pre rest) as [[-> Hcc]|(x & -> & H1 & H2 & H3)];
    [rewrite !length_app; lia| |]; cbn [mbind option_bind].
  - right. split; [done|]. destruct rest as [|x r]; [done|]. cbn [hd] in *. rewrite ascii_eqb_neq by set_solver.
    rewrite strlen_snoc. destruct (stop_cases x Hr) as [->|[->| ->]]; [by destruct found..|set_solver].
  - left. exists x. split; [done|]. split; [done|]. split; [done|]. by intros [_ ?].
Qed.

Lemma dataset_loop_spec why : forall k pre l found,
  (List.length l < k)%nat -> (NUL ∉ l) -> pre ++ l <> [] ->
  exists v, dataset_loop k (pre ++ l) why found (strlen pre) = Some v /\ verdict_ok (pre ++ l) why v /\ (nc_ret v = 0 <-> rest_ok found l).
Proof.
  induction k as [|k IH]; intros pre l found Hk Hn Hne; [lia|].
  destruct (split_component true l) as (c & rest & -> & Hc & Hr).
  pose proof (rest_ok_split found c rest Hc Hr) as Hok.
  assert (NUL ∉ rest) as Hn' by set_solver.
  destruct (decide (c = [])) as [->|Hcne].
  { destruct (dataset_loop_empty why k pre rest found Hn' Hne Hr) as [err E]. exists (reject why err). cbn [app] in *.
    split; [done|]. split; [apply reject_ok|]. rewrite Hok. split; [done|]. by intros [[? _] _]. }
  destruct (dataset_loop_step why k pre c rest found Hn' Hcne Hc Hr) as [(x & -> & H1 & H2 & H3)|[Hcomp ->]].
  { eexists. split; [done|]. split; [apply reject_char_ok; [set_solver|done]|]. rewrite Hok. split; [done|]. by intros [? _]. }
  destruct rest as [|x r]; [eexists; split; [done|]; split; [by left|]; rewrite Hok; split; [by auto|done]|].
  destruct found.
  { eexists. split; [done|]. split; [apply reject_ok|]. rewrite Hok. split; [done|]. by intros [_ [[=]|[[=] _]]]. }
  destruct (IH ((pre ++ c) ++ [x]) r (x =? "@")%char) as (v & E & H1 & H2);
    [rewrite length_app in Hk; cbn in Hk; lia|set_solver|by destruct pre, c|].
  rewrite <-!app_assoc in E, H1. cbn [app] in E, H1. exists v. split; [done|]. split; [done|].
  rewrite H2, Hok. cbn [hd] in Hr. split.
  - intros Hd. split; [done|]. right. split; [done|]. exists x, r. destruct (stop_cases x Hr) as [->|[->| ->]]; [by auto..|set_solver].
  - by intros [_ [[=]|[_ (x' & r' & [= <- <-] & Hd & _)]]].
Qed.

Lemma dataset_namecheck_spec path why : (NUL ∉ path) ->
  exists v, dataset_namecheck path why = Some v /\ verdict_ok path why v /\
    (nc_ret v = 0 <-> strlen path < MAXNAMELEN /\ dataset_name path).
Proof.
  intros Hnul.
  unfold dataset_namecheck. destruct (Z.leb_spec MAXNAMELEN (strlen path)) as [Hl|Hl].
  { eexists. split; [done|]. split; [apply reject_ok|]. split; [done|lia]. }
  pose proof (char_at_here [] path) as E0. change (strlen []) with 0 in E0. rewrite app_nil_l in E0. rewrite E0. cbn [mbind option_bind].
  assert (dataset_name path -> is_stop true (hd NUL path) = false) as Hfirst.
  { intros [c [Hc1 Hc2]|c l [Hc1 Hc2] _|c l [Hc1 Hc2] _]; (destruct c as [|x c]; [done|]); forall_inv; cbn; by apply component_no_stop. }
  unfold is_stop in Hfirst. destruct (hd NUL path =? "/")%char eqn:E1.
  { eexists. split; [done|]. split; [apply reject_ok|]. split; [done|]. intros [_ H]. by specialize (Hfirst H). }
  destruct (hd NUL path =? NUL)%char eqn:E2.
  { eexists. split; [done|]. split; [apply reject_ok|]. split; [done|]. intros [_ H]. specialize (Hfirst H). by rewrite orb_true_r in Hfirst. }
  destruct (dataset_loop_spec why (S (List.length path)) [] path false) as (v & E & H1 & H2); [lia|done|by destruct path|].
  exists v. split; [done|]. split; [done|]. rewrite H2. cbn [rest_ok]. tauto.
Qed.

Lemma pool_name_dataset pool why : (NUL ∉ pool) -> strlen pool < MAXNAMELEN -> pool_name pool ->
  dataset_namecheck pool why = Some accept.
Proof.
  intros Hnul Hl (H1 & (c & r & -> & _) & _).
  destruct (dataset_namecheck_spec (c :: r) why Hnul) as (v & E & [->|[H2 _]] & H3); [done|].
  rewrite H2 in H3. assert (-1 = 0); [|done]. apply H3. split; [done|]. constructor. split; [done|].
  eapply Forall_impl; [exact H1|]. intros x Hx. by left.
Qed.

Lemma pool_namecheck_spec pool why : (NUL ∉ pool) ->
  exists v, pool_namecheck pool why = Some v /\ verdict_ok pool why v /\ (nc_ret v = 0 <-> strlen pool < MAXNAMELEN /\ pool_name pool).
Proof.
  intros Hnul. unfold pool_namecheck. destruct (Z.leb_spec MAXNAMELEN (strlen pool)) as [Hl|Hl].
  { eexists. split; [done|]. split; [apply reject_ok|]. split; [done|lia]. }
  assert (forall err, ~ pool_name pool -> exists v, Some (reject why err) = Some v /\ verdict_ok pool why v /\
    (nc_ret v = 0 <-> strlen pool < MAXNAMELEN /\ pool_name pool)) as Hrej.
  { intros err H. eexists. split; [done|]. split; [apply reject_ok|]. split; [done|]. by intros [_ ?]. }
  pose proof (check_chars_spec why pool (S (List.length pool)) []) as Hchk. rewrite app_nil_l in Hchk. change (strlen []) with 0 in Hchk.
  destruct Hchk as [[-> Hv]|(x & -> & H1 & H2)]; [lia|done| |]; cbn [mbind option_bind].
  2:{ eexists. split; [done|]. split; [by apply reject_char_ok|]. split; [done|]. intros [_ [Hv _]].
      rewrite Forall_forall in Hv. specialize (Hv x H1). congruence. }
  pose proof (char_at_here [] pool) as E0. change (strlen []) with 0 in E0. rewrite app_nil_l in E0. rewrite E0. cbn [mbind option_bind].
  destruct pool as [|c r]; [apply Hrej; by intros (_ & (? & ? & [=] & _) & _)|]. cbn [hd] in *.
  rewrite <-negb_orb. destruct ((char_le "a" c && char_le c "z") || (char_le "A" c && char_le c "Z")) eqn:El; cbn [negb].
  2:{ apply Hrej. intros (_ & (? & ? & [= <- <-] & ?) & _). congruence. }
  destruct (bool_decide_reflect (c :: r = list_ascii_of_string "mirror")) as [Em|Em]; [apply Hrej; by intros (_ & _ & ? & _)|].
  destruct (bool_decide_reflect (c :: r = list_ascii_of_string "raidz")) as [Ez|Ez]; [apply Hrej; by intros (_ & _ & _ & ? & _)|].
  cbn [orb]. destruct (c =? "c")%char eqn:Ec.
  - apply Ascii.eqb_eq in Ec as ->. pose proof (char_at_here ["c"%char] r) as E1. change (strlen ["c"%char]) with 1 in E1.
    cbn [app] in E1. rewrite E1. cbn [mbind option_bind]. destruct (char_le "0" (hd NUL r) && char_le (hd NUL r) "9") eqn:Ed.
    + apply Hrej. intros (_ & _ & _ & _ & Hd). destruct r as [|d r]; [done|]. specialize (Hd d r eq_refl). cbn [hd] in Ed. congruence.
    + eexists. split; [done|]. split; [by left|]. split; [|done]. intros _. split; [done|]. split; [done|]. split; [by eexists _, _|].
      split; [done|]. split; [done|]. intros d r' [= ->]. done.
  - eexists. split; [done|]. split; [by left|]. split; [|done]. intros _. split; [done|]. split; [done|]. split; [by eexists _, _|].
    split; [done|]. split; [done|]. intros d r' [= -> ->]. done.
Qed.

(** ** Theorems *)



(** Pool names.  [pool_namecheck] returns for every string and accepts
    exactly the names shorter than [MAXNAMELEN] of valid characters that
    begin with a letter, are not reserved and do not look like a disk; a name
    it accepts is accepted by [dataset_namecheck] too. *)
Theorem pool_namecheck_exact (pool : list ascii) (why : bool) (Hnul : NUL ∉ pool) :
  exists v, pool_namecheck pool why = Some v /\ verdict_ok pool why v /\
    (nc_ret v = 0 <-> strlen pool < MAXNAMELEN /\ pool_name pool) /\
    (nc_ret v = 0 -> dataset_namecheck pool why = Some accept).
Proof.
  destruct (pool_namecheck_spec pool why Hnul) as (v & E & H1 & H2). exists v. split; [done|]. split; [done|]. split; [done|].
  intros H. apply H2 in H as [Hl H]. by apply pool_name_dataset.
Qed.

Lemma pool_namecheck_exact_witness :
  exists v, pool_namecheck (list_ascii_of_string "c3po") true = Some v /\ verdict_ok (list_ascii_of_string "c3po") true v /\
    (nc_ret v = 0 <-> strlen (list_ascii_of_string "c3po") < MAXNAMELEN /\ pool_name (list_ascii_of_string "c3po")) /\
    (nc_ret v = 0 -> dataset_namecheck (list_ascii_of_string "c3po") true = Some accept).
Proof. refine (pool_namecheck_exact (list_ascii_of_string "c3po") true _). apply (bool_decide_unpack _). vm_compute. exact I. Defined.
