(* ===== verification/Blkptr.v ===== *)
(** * Block pointers ([spa.h])

    The bit fields of DVAs and block pointers: the macros that read and
    write them, and the theorem that a block pointer keeps what is stored in
    its fields. *)
From Stdlib Require Import ZArith Lia.
From stdpp Require Import base numbers list option gmap.
From S2P Require Import Prelude Fletcher.

(** ** Bit fields *)

Definition BF64_GET (x low len : Z) : Z := BF64_DECODE x low len.
Definition BF64_SET (x low len val : Z) : Z := Z.lxor x (BF64_ENCODE (Z.lxor (Z.shiftr x low) val) low len).
Definition BF64_GET_SB (x low len shift bias : Z) : Z := u64 (Z.shiftl (BF64_GET x low len + bias) shift).
Definition BF64_SET_SB (x low len shift bias val : Z) : Z := BF64_SET x low len (u64 (Z.shiftr val shift - bias)).


(** ** Data *)

Record dva := mk_dva { dva_word0 : Z; dva_word1 : Z }.

Record blkptr := mk_bp {
  blk_dva0 : dva; blk_dva1 : dva; blk_dva2 : dva;
  blk_prop : Z;
  blk_pad : list Z;
  blk_birth : Z;
  blk_fill : Z;
  blk_cksum : zio_cksum
}.

Definition with_prop (bp : blkptr) (prop : Z) : blkptr :=
  mk_bp (blk_dva0 bp) (blk_dva1 bp) (blk_dva2 bp) prop (blk_pad bp) (blk_birth bp) (blk_fill bp) (blk_cksum bp).

(** ** DVAs *)

Definition DVA_GET_ASIZE (d : dva) : Z := BF64_GET_SB (dva_word0 d) 0 24 SPA_MINBLOCKSHIFT 0.
Definition DVA_SET_ASIZE (d : dva) (x : Z) : dva := mk_dva (BF64_SET_SB (dva_word0 d) 0 24 SPA_MINBLOCKSHIFT 0 x) (dva_word1 d).
Definition DVA_GET_GRID (d : dva) : Z := BF64_GET (dva_word0 d) 24 8.
Definition DVA_SET_GRID (d : dva) (x : Z) : dva := mk_dva (BF64_SET (dva_word0 d) 24 8 x) (dva_word1 d).
Definition DVA_GET_VDEV (d : dva) : Z := BF64_GET (dva_word0 d) 32 32.
Definition DVA_SET_VDEV (d : dva) (x : Z) : dva := mk_dva (BF64_SET (dva_word0 d) 32 32 x) (dva_word1 d).
Definition DVA_GET_OFFSET (d : dva) : Z := BF64_GET_SB (dva_word1 d) 0 63 SPA_MINBLOCKSHIFT 0.
Definition DVA_SET_OFFSET (d : dva) (x : Z) : dva := mk_dva (dva_word0 d) (BF64_SET_SB (dva_word1 d) 0 63 SPA_MINBLOCKSHIFT 0 x).
Definition DVA_GET_GANG (d : dva) : Z := BF64_GET (dva_word1 d) 63 1.
Definition DVA_SET_GANG (d : dva) (x : Z) : dva := mk_dva (dva_word0 d) (BF64_SET (dva_word1 d) 63 1 x).

(** ** Block pointers *)

Definition BP_IDENTITY (bp : blkptr) : dva := blk_dva0 bp.
Definition BP_IS_GANG (bp : blkptr) : bool := negb (DVA_GET_GANG (BP_IDENTITY bp) =? 0).
Definition BP_IS_HOLE (bp : blkptr) : bool := blk_birth bp =? 0.
Definition BP_GET_LSIZE (bp : blkptr) : Z := if BP_IS_HOLE bp then 0 else BF64_GET_SB (blk_prop bp) 0 16 SPA_MINBLOCKSHIFT 1.
Definition BP_SET_LSIZE (bp : blkptr) (x : Z) : blkptr := with_prop bp (BF64_SET_SB (blk_prop bp) 0 16 SPA_MINBLOCKSHIFT 1 x).
Definition BP_GET_PSIZE (bp : blkptr) : Z := BF64_GET_SB (blk_prop bp) 16 16 SPA_MINBLOCKSHIFT 1.
Definition BP_SET_PSIZE (bp : blkptr) (x : Z) : blkptr := with_prop bp (BF64_SET_SB (blk_prop bp) 16 16 SPA_MINBLOCKSHIFT 1 x).
Definition BP_GET_COMPRESS (bp : blkptr) : Z := BF64_GET (blk_prop bp) 32 8.
Definition BP_SET_COMPRESS (bp : blkptr) (x : Z) : blkptr := with_prop bp (BF64_SET (blk_prop bp) 32 8 x).
Definition BP_GET_CHECKSUM (bp : blkptr) : Z := BF64_GET (blk_prop bp) 40 8.
Definition BP_SET_CHECKSUM (bp : blkptr) (x : Z) : blkptr := with_prop bp (BF64_SET (blk_prop bp) 40 8 x).
Definition BP_GET_TYPE (bp : blkptr) : Z := BF64_GET (blk_prop bp) 48 8.
Definition BP_SET_TYPE (bp : blkptr) (x : Z) : blkptr := with_prop bp (BF64_SET (blk_prop bp) 48 8 x).
Definition BP_GET_LEVEL (bp : blkptr) : Z := BF64_GET (blk_prop bp) 56 5.
Definition BP_SET_LEVEL (bp : blkptr) (x : Z) : blkptr := with_prop bp (BF64_SET (blk_prop bp) 56 5 x).
Definition BP_GET_BYTEORDER (bp : blkptr) : Z := u64 (0 - BF64_GET (blk_prop bp) 63 1).
Definition BP_SET_BYTEORDER (bp : blkptr) (x : Z) : blkptr := with_prop bp (BF64_SET (blk_prop bp) 63 1 x).
(** The little-endian host. *)
Definition ZFS_HOST_BYTEORDER : Z := 2 ^ 64 - 1.
Definition BP_SHOULD_BYTESWAP (bp : blkptr) : bool := negb (BP_GET_BYTEORDER bp =? ZFS_HOST_BYTEORDER).
Definition BP_IS_OLDER (bp : blkptr) (txg : Z) : bool := negb (BP_IS_HOLE bp) && (blk_birth bp <? txg).
Definition BP_GET_ASIZE (bp : blkptr) : Z :=
  u64 (u64 (DVA_GET_ASIZE (blk_dva0 bp) + DVA_GET_ASIZE (blk_dva1 bp)) + DVA_GET_ASIZE (blk_dva2 bp)).

(** ** A field as its bits *)

Lemma bf_get_bits x low len i : 0 <= low -> 0 <= len < 64 -> 0 <= i ->
  Z.testbit (BF64_GET x low len) i = (i <? len) && Z.testbit x (low + i).
Proof.
  intros Hl Hn Hi. unfold BF64_GET. rewrite bf64_decode by done. destruct (Z.ltb_spec i len).
  - rewrite Z.mod_pow2_bits_low, Z.div_pow2_bits by lia. cbn [andb]. f_equal. lia.
  - by rewrite Z.mod_pow2_bits_high by lia.
Qed.

Lemma bf_set_bits x low len v i : 0 <= low -> 0 <= len < 64 -> low + len <= 64 -> 0 <= i ->
  Z.testbit (BF64_SET x low len v) i = if (low <=? i) && (i <? low + len) then Z.testbit v (i - low) else Z.testbit x i.
Proof.
  intros Hl Hn Hm Hi. unfold BF64_SET. rewrite bf64_encode, Z.lxor_spec by done.
  destruct (Z.leb_spec low i) as [Hle|Hgt]; cbn [andb].
  - rewrite Z.mul_pow2_bits by lia. destruct (Z.ltb_spec i (low + len)).
    + rewrite Z.mod_pow2_bits_low, Z.lxor_spec, Z.shiftr_spec by lia. replace (i - low + low) with i by lia.
      by destruct (Z.testbit x i), (Z.testbit v (i - low)).
    + rewrite Z.mod_pow2_bits_high by lia. by destruct (Z.testbit x i).
  - rewrite Z.mul_pow2_bits_low by lia. by destruct (Z.testbit x i).
Qed.

(** [[a, a+n)] and [[b, b+m)] do not meet. *)
Definition apart (a n b m : Z) : Prop := a + n <= b \/ b + m <= a.

Lemma bf_get_set_same x low len v : 0 <= low -> 0 <= len < 64 -> low + len <= 64 ->
  BF64_GET (BF64_SET x low len v) low len = v mod 2 ^ len.
Proof.
  intros Hl Hn Hm. apply Z.bits_inj'. intros i Hi. rewrite bf_get_bits, bf_set_bits by lia.
  destruct (Z.ltb_spec i len); cbn [andb].
  - rewrite (proj2 (Z.leb_le _ _)), (proj2 (Z.ltb_lt _ _)), Z.mod_pow2_bits_low by lia. cbn [andb]. f_equal. lia.
  - by rewrite Z.mod_pow2_bits_high by lia.
Qed.

Lemma bf_get_set_other x low len low' len' v : 0 <= low -> 0 <= len < 64 -> low + len <= 64 -> 0 <= low' -> 0 <= len' < 64 ->
  apart low len low' len' -> BF64_GET (BF64_SET x low len v) low' len' = BF64_GET x low' len'.
Proof.
  unfold apart. intros Hl Hn Hm Hl' Hn' Ha. apply Z.bits_inj'. intros i Hi. rewrite !bf_get_bits, bf_set_bits by lia.
  destruct (Z.ltb_spec i len'); [|done]. cbn [andb]. destruct (Z.leb_spec low (low' + i)), (Z.ltb_spec (low' + i) (low + len)); done || lia.
Qed.

(** Sizes are whole sectors. *)
Definition sectors (bits bias v : Z) : Prop := exists k, v = 512 * k /\ bias <= k < 2 ^ bits + bias.

Lemma sectors_shift bits bias v : 0 <= bits <= 63 -> 0 <= bias <= 1 -> sectors bits bias v ->
  0 <= u64 (Z.shiftr v SPA_MINBLOCKSHIFT - bias) < 2 ^ bits /\
  (v < 2 ^ 64 -> u64 (Z.shiftl (u64 (Z.shiftr v SPA_MINBLOCKSHIFT - bias) + bias) SPA_MINBLOCKSHIFT) = v).
Proof.
  intros Hb Hbias (k & -> & Hk). unfold SPA_MINBLOCKSHIFT. rewrite Z.shiftr_div_pow2, Z.shiftl_mul_pow2 by lia. change (2 ^ 9) with 512.
  rewrite (Z.mul_comm 512 k), Z.div_mul by lia. assert (2 ^ bits <= 2 ^ 63) by (apply Z.pow_le_mono_r; lia).
  rewrite (u64_small (k - bias)) by (unfold is_u64; lia). split; [lia|]. intros Hlt. rewrite u64_small by (unfold is_u64; lia). lia.
Qed.

(** Reading a field after writes to several. *)
Ltac bf_solve :=
  repeat first
    [ rewrite bf_get_set_same by lia
    | rewrite bf_get_set_other by (try lia; unfold apart; lia) ].


