(* ===== verification/Sha256.v ===== *)
(** * SHA-256 ([sha256.c])

    The compact implementation of [sha256.c], with its unrolled padding in a
    128-byte buffer, and the standard's definition: literal Ch and Maj, the
    message schedule by its recurrence, padding of the whole message.  The
    theorem says that they agree, and that the code stays in its buffers. *)
From Stdlib Require Import ZArith Lia.
From stdpp Require Import base numbers list option gmap.
From Equations Require Import Equations.
From S2P Require Import Prelude Fletcher.

(** ** The code *)

Definition Ch (x y z : Z) : Z := Z.lxor z (Z.land x (Z.lxor y z)).
Definition Maj (x y z : Z) : Z := Z.lxor (Z.land x y) (Z.land z (Z.lxor x y)).
Definition Rot32 (x s : Z) : Z := Z.lor (Z.shiftr x s) (u32 (Z.shiftl x (32 - s))).
Definition SIGMA0 (x : Z) : Z := Z.lxor (Z.lxor (Rot32 x 2) (Rot32 x 13)) (Rot32 x 22).
Definition SIGMA1 (x : Z) : Z := Z.lxor (Z.lxor (Rot32 x 6) (Rot32 x 11)) (Rot32 x 25).
Definition sigma0 (x : Z) : Z := Z.lxor (Z.lxor (Rot32 x 7) (Rot32 x 18)) (Z.shiftr x 3).
Definition sigma1 (x : Z) : Z := Z.lxor (Z.lxor (Rot32 x 17) (Rot32 x 19)) (Z.shiftr x 10).

(** The rows of the table, four words each. *)
Definition words4 (x : Z) : list Z := [Z.shiftr x 96; u32 (Z.shiftr x 64); u32 (Z.shiftr x 32); u32 x].
Definition SHA256_K : list Z := Eval vm_compute in concat (words4 <$> [
  0x428a2f9871374491b5c0fbcfe9b5dba5;
  0x3956c25b59f111f1923f82a4ab1c5ed5;
  0xd807aa9812835b01243185be550c7dc3;
  0x72be5d7480deb1fe9bdc06a7c19bf174;
  0xe49b69c1efbe47860fc19dc6240ca1cc;
  0x2de92c6f4a7484aa5cb0a9dc76f988da;
  0x983e5152a831c66db00327c8bf597fc7;
  0xc6e00bf3d5a7914706ca635114292967;
  0x27b70a852e1b21384d2c6dfc53380d13;
  0x650a7354766a0abb81c2c92e92722c85;
  0xa2bfe8a1a81a664bc24b8b70c76c51a3;
  0xd192e819d6990624f40e3585106aa070;
  0x19a4c1161e376c082748774c34b0bcb5;
  0x391c0cb34ed8aa4a5b9cca4f682e6ff3;
  0x748f82ee78a5636f84c878148cc70208;
  0x90befffaa4506cebbef9a3f7c67178f2
]).

(** The array [H] and the variables [a] to [h]. *)
Record hash := mk_hash { h0 : Z; h1 : Z; h2 : Z; h3 : Z; h4 : Z; h5 : Z; h6 : Z; h7 : Z }.

Definition be_word (b0 b1 b2 b3 : Z) : Z :=
  Z.lor (Z.lor (Z.lor (Z.shiftl b0 24) (Z.shiftl b1 16)) (Z.shiftl b2 8)) b3.

(** [for (t = 0; t < 16; t++, cp += 4)]: [n] iterations from [cp]. *)
Fixpoint load_words (n : nat) (buf : list Z) (cp : nat) : option (list Z) :=
  match n with
  | O => Some []
  | S n =>
      let* b0 := buf !! cp in
      let* b1 := buf !! (cp + 1)%nat in
      let* b2 := buf !! (cp + 2)%nat in
      let* b3 := buf !! (cp + 3)%nat in
      let* W := load_words n buf (cp + 4) in Some (be_word b0 b1 b2 b3 :: W)
  end.

(** [for (t = 16; t < 64; t++)]: [W] holds what is assigned so far. *)
Fixpoint extend_words (n : nat) (W : list Z) : option (list Z) :=
  match n with
  | O => Some W
  | S n =>
      let t := length W in
      let* w2 := W !! (t - 2)%nat in
      let* w7 := W !! (t - 7)%nat in
      let* w15 := W !! (t - 15)%nat in
      let* w16 := W !! (t - 16)%nat in
      extend_words n (W ++ [u32 (sigma1 w2 + w7 + sigma0 w15 + w16)])
  end.

(** The body of the third loop. *)
Definition sha_round (W : list Z) (s : hash) (t : nat) : option hash :=
  let* k := SHA256_K !! t in
  let* w := W !! t in
  let '(mk_hash a b c d e f g h) := s in
  let T1 := u32 (h + SIGMA1 e + Ch e f g + k + w) in
  let T2 := u32 (SIGMA0 a + Maj a b c) in
  Some (mk_hash (u32 (T1 + T2)) a b c (u32 (d + T1)) e f g).

Definition hash_add (s t : hash) : hash :=
  mk_hash (u32 (h0 s + h0 t)) (u32 (h1 s + h1 t)) (u32 (h2 s + h2 t)) (u32 (h3 s + h3 t))
          (u32 (h4 s + h4 t)) (u32 (h5 s + h5 t)) (u32 (h6 s + h6 t)) (u32 (h7 s + h7 t)).

Definition SHA256Transform (H : hash) (buf : list Z) (cp : nat) : option hash :=
  let* W := load_words 16 buf cp in
  let* W := extend_words 48 W in
  let* s := foldM (sha_round W) H (seq 0 64) in
  Some (hash_add H s).

(** [for (i = start; i < limit; i += 64)] over the blocks of [buf]; [i] is an
    [int], whose overflow is undefined.  Returns [i] too. *)
Fixpoint transform_blocks (k : nat) (buf : list Z) (i limit : Z) (H : hash) : option (hash * Z) :=
  if i <? limit then
    match k with
    | O => None
    | S k =>
        let* H := SHA256Transform H buf (Z.to_nat i) in
        VERIFY i + 64 <? 2 ^ 31 in transform_blocks k buf (i + 64) limit H
    end
  else Some (H, i).

(** [pad[padsize++] = b] in the array of 128 bytes. *)
Definition push_pad (st : list Z * nat) (b : Z) : option (list Z * nat) :=
  let '(pad, padsize) := st in
  if (padsize <? length pad)%nat then Some (<[padsize := b]> pad, S padsize) else None.

(** [for (padsize = 0; i < size; i++)]. *)
Fixpoint copy_tail (k : nat) (buf : list Z) (i size : Z) (st : list Z * nat) : option (list Z * nat) :=
  if i <? size then
    match k with
    | O => None
    | S k =>
        let* b := buf !! Z.to_nat i in
        let* st := push_pad st b in
        VERIFY i + 1 <? 2 ^ 31 in copy_tail k buf (i + 1) size st
    end
  else Some st.

(** The zeroes up to the length. *)
Fixpoint zero_pad (k : nat) (st : list Z * nat) : option (list Z * nat) :=
  if negb (Z.land (Z.of_nat (snd st)) 63 =? 56) then
    match k with
    | O => None
    | S k => let* st := push_pad st 0 in zero_pad k st
    end
  else Some st.

Definition sha256_init : hash :=
  mk_hash 0x6a09e667 0xbb67ae85 0x3c6ef372 0xa54ff53a 0x510e527f 0x9b05688c 0x1f83d9ab 0x5be0cd19.

(** The tail of the message from [i] and its padding, in [pad]. *)
Definition fill_pad (pad buf : list Z) (i size : Z) : option (list Z * nat) :=
  let* st := copy_tail 64 buf i size (pad, 0%nat) in
  let* st := push_pad st 0x80 in
  let* st := zero_pad 64 st in
  foldM push_pad st ((fun i => u8 (Z.shiftr (u64 (Z.shiftl size 3)) i)) <$> [56; 48; 40; 32; 24; 16; 8; 0]).

(** [pad] is what the array holds on entry. *)
Definition zio_checksum_SHA256 (pad : list Z) (buf : list Z) (size : Z) : option zio_cksum :=
  let* (H, i) := transform_blocks (S (Z.to_nat size)) buf 0 (Z.land size (2 ^ 64 - 64)) sha256_init in
  let* (pad, padsize) := fill_pad pad buf i size in
  let* (H, _) := transform_blocks 3 pad 0 (Z.of_nat padsize) H in
  Some (mk_cksum (Z.lor (Z.shiftl (h0 H) 32) (h1 H)) (Z.lor (Z.shiftl (h2 H) 32) (h3 H))
                 (Z.lor (Z.shiftl (h4 H) 32) (h5 H)) (Z.lor (Z.shiftl (h6 H) 32) (h7 H))).

(** ** The standard *)

Definition Ch_ref (x y z : Z) : Z := Z.lxor (Z.land x y) (Z.land (Z.lnot x) z).
Definition Maj_ref (x y z : Z) : Z := Z.lxor (Z.lxor (Z.land x y) (Z.land x z)) (Z.land y z).

(** The [t]-th word of a block, most significant byte first. *)
Definition block_word (block : list Z) (t : nat) : Z :=
  nth (4 * t) block 0 * 2 ^ 24 + nth (4 * t + 1) block 0 * 2 ^ 16 + nth (4 * t + 2) block 0 * 2 ^ 8 + nth (4 * t + 3) block 0.

(** The message schedule. *)
Definition next_word (w2 w7 w15 w16 : Z) : Z := u32 (sigma1 w2 + w7 + sigma0 w15 + w16).
#[local] Opaque next_word.
Equations? W_ref (M : nat -> Z) (t : nat) : Z by wf t lt :=
  W_ref M t with le_lt_dec 16 t => {
    | left _ := next_word (W_ref M (t - 2)) (W_ref M (t - 7)) (W_ref M (t - 15)) (W_ref M (t - 16));
    | right _ := M t }.
Proof. all: lia. Qed.
#[local] Transparent next_word.

Definition round_ref (W : nat -> Z) (s : hash) (t : nat) : hash :=
  let '(mk_hash a b c d e f g h) := s in
  let T1 := u32 (h + SIGMA1 e + Ch_ref e f g + nth t SHA256_K 0 + W t) in
  let T2 := u32 (SIGMA0 a + Maj_ref a b c) in
  mk_hash (u32 (T1 + T2)) a b c (u32 (d + T1)) e f g.

Definition block_ref (H : hash) (block : list Z) : hash :=
  hash_add H (foldl (round_ref (W_ref (block_word block))) H (seq 0 64)).

(** A one bit, zeroes, and the length in bits as a 64-bit number. *)
Definition pad_zeros (len : nat) : nat := Z.to_nat ((55 - Z.of_nat len) mod 64).
Definition padded (msg : list Z) : list Z :=
  msg ++ [0x80] ++ repeat 0 (pad_zeros (length msg)) ++ rev (le_split 8 (8 * Z.of_nat (length msg))).

Definition nth_block (msg : list Z) (i : nat) : list Z := take 64 (drop (64 * i) msg).
Definition sha256_ref (msg : list Z) : hash :=
  foldl (fun H i => block_ref H (nth_block (padded msg) i)) sha256_init (seq 0 (length (padded msg) / 64)).
Definition cksum_of_hash (H : hash) : zio_cksum :=
  mk_cksum (h0 H * 2 ^ 32 + h1 H) (h2 H * 2 ^ 32 + h3 H) (h4 H * 2 ^ 32 + h5 H) (h6 H * 2 ^ 32 + h7 H).

(** ** One block *)

Lemma Ch_eq x y z : Ch x y z = Ch_ref x y z.
Proof.
  apply Z.bits_inj'. intros n Hn. unfold Ch, Ch_ref. rewrite !Z.lxor_spec, !Z.land_spec, Z.lxor_spec, Z.lnot_spec by done.
  by destruct (Z.testbit x n), (Z.testbit y n), (Z.testbit z n).
Qed.
Lemma Maj_eq x y z : Maj x y z = Maj_ref x y z.
Proof.
  apply Z.bits_inj'. intros n Hn. unfold Maj, Maj_ref. rewrite !Z.lxor_spec, !Z.land_spec, Z.lxor_spec.
  by destruct (Z.testbit x n), (Z.testbit y n), (Z.testbit z n).
Qed.

Lemma be_word_value b0 b1 b2 b3 : is_u8 b0 -> is_u8 b1 -> is_u8 b2 -> is_u8 b3 ->
  be_word b0 b1 b2 b3 = b0 * 2 ^ 24 + b1 * 2 ^ 16 + b2 * 2 ^ 8 + b3.
Proof.
  unfold is_u8, be_word. intros. rewrite <-!Z.lor_assoc, (lor_shiftl_add b2 b3 8), (lor_shiftl_add b1 _ 16), (lor_shiftl_add b0 _ 24);
    rewrite ?Z.shiftl_mul_pow2 by lia; lia.
Qed.

Lemma nth_drop_lookup (l : list Z) cp i : (cp + i < length l)%nat -> l !! (cp + i)%nat = Some (nth i (drop cp l) 0).
Proof. intros H. rewrite <-lookup_drop. 
  destruct (drop cp l !! i) eqn:E; [by rewrite (nth_lookup_Some _ _ _ _ E)|]. apply lookup_ge_None in E. rewrite length_drop in E. lia.
 Qed.

Lemma nth_take_lt (l : list Z) i n : (i < n)%nat -> nth i (take n l) 0 = nth i l 0.
Proof. intros H. rewrite nth_firstn. destruct (Nat.ltb_spec i n); [done|lia]. Qed.

Lemma nth_byte (l : list Z) i : bytes l -> is_u8 (nth i l 0).
Proof. intros H. destruct (nth_in_or_default i l 0) as [Hi| ->]; [|by split]. unfold bytes in H. rewrite List.Forall_forall in H. auto. Qed.

Lemma load_words_spec buf : bytes buf -> forall n cp t, (cp + 4 * (t + n) <= length buf)%nat ->
  load_words n buf (cp + 4 * t) = Some (block_word (drop cp buf) <$> seq t n).
Proof.
  intros Hb. induction n as [|n IH]; intros cp t Hl; [done|]. cbn [load_words seq fmap list_fmap].
  rewrite <-!Nat.add_assoc, !nth_drop_lookup by lia. cbn [mbind option_bind].
  replace (4 * t + 4)%nat with (4 * S t)%nat by lia. rewrite IH by lia. cbn [mbind option_bind].
  assert (bytes (drop cp buf)) as Hd by (by apply Forall_drop). rewrite be_word_value by (by apply nth_byte). done.
Qed.

Lemma W_ref_low M t : (t < 16)%nat -> W_ref M t = M t.
Proof. intros. rewrite W_ref_equation_1. destruct (le_lt_dec 16 t); [lia|done]. Qed.
Lemma W_ref_high M t : (16 <= t)%nat ->
  W_ref M t = u32 (sigma1 (W_ref M (t - 2)) + W_ref M (t - 7) + sigma0 (W_ref M (t - 15)) + W_ref M (t - 16)).
Proof. intros. rewrite W_ref_equation_1. destruct (le_lt_dec 16 t); [done|lia]. Qed.

Lemma lookup_fmap_seq {A} (f : nat -> A) n i : (i < n)%nat -> (f <$> seq 0 n) !! i = Some (f i).
Proof. intros. rewrite list_lookup_fmap, lookup_seq_lt by done. done. Qed.

Lemma extend_words_spec M : forall n t, (16 <= t)%nat ->
  extend_words n (W_ref M <$> seq 0 t) = Some (W_ref M <$> seq 0 (t + n)).
Proof.
  induction n as [|n IH]; intros t Ht; [by rewrite Nat.add_0_r|]. cbn [extend_words]. rewrite length_fmap, length_seq.
  rewrite !lookup_fmap_seq by lia. cbn [mbind option_bind]. rewrite <-W_ref_high by done.
  replace (t + S n)%nat with (S t + n)%nat by lia. rewrite <-IH by lia. by rewrite seq_S, fmap_app.
Qed.

Lemma rounds_spec W : forall l H, Forall (fun t => (t < 64)%nat) l ->
  foldM (sha_round (W <$> seq 0 64)) H l = Some (foldl (round_ref W) H l).
Proof.
  induction l as [|t l IH]; intros H Hl; [done|]. apply Forall_cons in Hl as [Ht Hl]. cbn [foldM foldl].
  assert (sha_round (W <$> seq 0 64) H t = Some (round_ref W H t)) as ->; [|by apply IH]. unfold sha_round.
  assert (SHA256_K !! t = Some (nth t SHA256_K 0)) as ->.
  { apply (nth_drop_lookup SHA256_K 0 t). done. }
  cbn [mbind option_bind]. rewrite lookup_fmap_seq by done. cbn [mbind option_bind]. destruct H as [a b c d e f g h].
  by rewrite Ch_eq, Maj_eq.
Qed.

Lemma SHA256Transform_spec H buf cp : bytes buf -> (cp + 64 <= length buf)%nat ->
  SHA256Transform H buf cp = Some (block_ref H (take 64 (drop cp buf))).
Proof.
  intros Hb Hl. unfold SHA256Transform. replace cp with (cp + 4 * 0)%nat at 1 by lia. rewrite load_words_spec by (done || lia).
  cbn [mbind option_bind].
  assert (block_word (drop cp buf) <$> seq 0 16 = W_ref (block_word (take 64 (drop cp buf))) <$> seq 0 16) as ->.
  { apply list_fmap_ext. intros i t [-> Ht]%lookup_seq. rewrite W_ref_low by lia. unfold block_word. by rewrite !nth_take_lt by lia. }
  rewrite extend_words_spec by lia. cbn [mbind option_bind]. rewrite rounds_spec; [done|].
  apply Forall_forall. intros t Ht%elem_of_seq. lia.
Qed.

(** ** The blocks of a buffer *)

Definition hash_ok (H : hash) : Prop :=
  is_u32 (h0 H) /\ is_u32 (h1 H) /\ is_u32 (h2 H) /\ is_u32 (h3 H) /\ is_u32 (h4 H) /\ is_u32 (h5 H) /\ is_u32 (h6 H) /\ is_u32 (h7 H).

Lemma u32_range x : is_u32 (u32 x).
Proof. by apply Z.mod_pos_bound. Qed.
Lemma block_ref_ok H block : hash_ok (block_ref H block).
Proof. unfold block_ref. set (s := foldl _ _ _). unfold hash_ok, hash_add. cbn [h0 h1 h2 h3 h4 h5 h6 h7]. auto 10 using u32_range. Qed.
#[local] Opaque block_ref.

Definition blocks_ref (buf : list Z) (H : hash) (l : list nat) : hash := foldl (fun H i => block_ref H (nth_block buf i)) H l.

Lemma transform_blocks_spec buf : bytes buf -> forall n k j H, (n <= k)%nat -> (64 * (j + n) <= length buf)%nat ->
  Z.of_nat (64 * (j + n)) < 2 ^ 31 ->
  transform_blocks k buf (Z.of_nat (64 * j)) (Z.of_nat (64 * (j + n))) H = Some (blocks_ref buf H (seq j n), Z.of_nat (64 * (j + n))).
Proof.
  intros Hb. induction n as [|n IH]; intros k j H Hk Hl Hi.
  - rewrite Nat.add_0_r. destruct k; cbn [transform_blocks]; by rewrite Z.ltb_irrefl.
  - destruct k as [|k]; [lia|]. cbn [transform_blocks]. rewrite (proj2 (Z.ltb_lt _ _)) by lia. rewrite Nat2Z.id.
    rewrite SHA256Transform_spec by (done || lia). cbn [mbind option_bind]. rewrite (proj2 (Z.ltb_lt _ _)) by lia.
    replace (Z.of_nat (64 * j) + 64) with (Z.of_nat (64 * S j)) by lia. replace (j + S n)%nat with (S j + n)%nat in * by lia.
    rewrite IH by lia. done.
Qed.

Lemma nth_block_app_l a b i : (64 * (i + 1) <= length a)%nat -> nth_block (a ++ b) i = nth_block a i.
Proof. intros H. unfold nth_block. rewrite drop_app_le by lia. rewrite take_app_le; [done|]. rewrite length_drop. lia. Qed.
Lemma nth_block_app_r a b i q : length a = (64 * q)%nat -> nth_block (a ++ b) (q + i) = nth_block b i.
Proof. intros H. unfold nth_block. rewrite drop_app_ge by lia. do 2 f_equal. lia. Qed.

Lemma blocks_ref_cat buf H l1 l2 : blocks_ref buf H (l1 ++ l2) = blocks_ref buf (blocks_ref buf H l1) l2.
Proof. apply foldl_app. Qed.

Lemma blocks_ref_ext a b : forall l H, Forall (fun i => nth_block a i = nth_block b i) l -> blocks_ref a H l = blocks_ref b H l.
Proof. unfold blocks_ref. induction l as [|i l IH]; intros H Hl; cbn [foldl]; [done|]. apply Forall_cons in Hl as [E Hl]. rewrite E. apply IH, Hl. Qed.

Lemma blocks_ref_shift a b q : length a = (64 * q)%nat -> forall n j H, blocks_ref (a ++ b) H (seq (q + j) n) = blocks_ref b H (seq j n).
Proof.
  intros Ha. unfold blocks_ref. induction n as [|n IH]; intros j H; cbn [seq foldl]; [done|]. rewrite nth_block_app_r by done.
  rewrite <-Nat.add_succ_r. apply IH.
Qed.

Lemma blocks_ref_app a b q p H : length a = (64 * q)%nat ->
  blocks_ref (a ++ b) H (seq 0 (q + p)) = blocks_ref b (blocks_ref a H (seq 0 q)) (seq 0 p).
Proof.
  intros Ha. rewrite seq_app, blocks_ref_cat.
  rewrite (blocks_ref_ext (a ++ b) a (seq 0 q)). 2:{ apply Forall_forall. intros i Hi%elem_of_seq. apply nth_block_app_l. lia. }
  rewrite <-(blocks_ref_shift a b q Ha p 0). by rewrite Nat.add_0_r.
Qed.

Lemma blocks_ref_ok buf : forall l H, hash_ok H -> hash_ok (blocks_ref buf H l).
Proof.
  unfold blocks_ref. induction l as [|i l IH]; intros H Hh; cbn [foldl]; [done|]. apply IH. apply block_ref_ok.
Qed.

Lemma sha256_ref_ok msg : hash_ok (sha256_ref msg).
Proof. apply blocks_ref_ok. unfold hash_ok. cbn. unfold is_u32. lia. Qed.

(** ** Padding *)

Lemma push_all : forall l p n, bytes p -> bytes l -> (n + length l <= length p)%nat ->
  exists p', foldM push_pad (p, n) l = Some (p', (n + length l)%nat) /\ length p' = length p /\ bytes p' /\
    take (n + length l) p' = take n p ++ l.
Proof.
  induction l as [|b l IH]; intros p n Hp Hb Hl.
  - exists p. cbn [foldM length]. rewrite Nat.add_0_r, app_nil_r. done.
  - cbn [length] in *. apply Forall_cons in Hb as [Hb Hbs]. cbn [foldM].
    change (push_pad (p, n) b) with (if (n <? length p)%nat then Some (<[n := b]> p, S n) else None). rewrite (proj2 (Nat.ltb_lt _ _)) by lia.
    cbn [mbind option_bind]. destruct (IH (<[n:=b]> p) (S n)) as (p' & -> & H1 & H2 & H3).
    + by apply Forall_insert.
    + done.
    + rewrite length_insert. lia.
    + exists p'. replace (n + S (length l))%nat with (S n + length l)%nat by lia. rewrite length_insert in H1.
      split; [done|]. split; [done|]. split; [done|]. rewrite H3, (take_S_r _ n b) by (apply list_lookup_insert_eq; lia).
      rewrite take_insert_ge by lia. by rewrite <-app_assoc.
Qed.

Lemma copy_tail_spec buf size : size <= Z.of_nat (length buf) -> size < 2 ^ 31 -> forall k i st, 0 <= i -> size - i <= Z.of_nat k ->
  copy_tail k buf i size st = foldM push_pad st (take (Z.to_nat (size - i)) (drop (Z.to_nat i) buf)).
Proof.
  intros Hs H31. induction k as [|k IH]; intros i st Hi Hk; cbn [copy_tail].
  - rewrite (proj2 (Z.ltb_ge _ _)) by lia. by replace (Z.to_nat (size - i)) with 0%nat by lia.
  - destruct (Z.ltb_spec i size) as [Hlt|Hge]; [|by replace (Z.to_nat (size - i)) with 0%nat by lia].
    destruct (lookup_lt_is_Some_2 buf (Z.to_nat i)) as [b Eb]; [lia|]. rewrite Eb. cbn [mbind option_bind].
    rewrite (drop_S buf b _ Eb). replace (Z.to_nat (size - i)) with (S (Z.to_nat (size - (i + 1)))) by lia. cbn [take foldM].
    destruct (push_pad st b); [|done]. cbn [mbind option_bind]. rewrite (proj2 (Z.ltb_lt _ _)) by lia. rewrite IH by lia.
    by replace (Z.to_nat (i + 1)) with (S (Z.to_nat i)) by lia.
Qed.

Lemma zero_pad_spec : forall m k p n, (m <= k)%nat -> m = Z.to_nat ((56 - Z.of_nat n) mod 64) ->
  zero_pad k (p, n) = foldM push_pad (p, n) (repeat 0 m).
Proof.
  induction m as [|m IH]; intros k p n Hk Hm.
  - assert (Z.of_nat n mod 64 = 56) as E by (Z.div_mod_to_equations; lia). cbn [repeat foldM].
    destruct k; cbn [zero_pad snd]; change 63 with (2 ^ 6 - 1); rewrite land_ones_mod by lia; change (2 ^ 6) with 64; by rewrite E.
  - destruct k as [|k]; [lia|]. cbn [zero_pad snd repeat foldM]. change 63 with (2 ^ 6 - 1). rewrite land_ones_mod by lia. change (2 ^ 6) with 64.
    rewrite (proj2 (Z.eqb_neq _ _)) by (Z.div_mod_to_equations; lia). cbn [negb]. change (push_pad (p, n) 0) with (if (n <? length p)%nat then Some (<[n := 0]> p, S n) else None).
    destruct (n <? length p)%nat; [|done]. cbn [mbind option_bind]. apply IH; [lia|]. Z.div_mod_to_equations. lia.
Qed.

Lemma length_bytes size : 0 <= size < 2 ^ 31 ->
  (fun i => u8 (Z.shiftr (u64 (Z.shiftl size 3)) i)) <$> [56; 48; 40; 32; 24; 16; 8; 0] = rev (le_split 8 (8 * size)).
Proof.
  intros Hs. rewrite Z.shiftl_mul_pow2 by lia. rewrite (u64_small (size * 2 ^ 3)) by (unfold is_u64; lia).
  replace (size * 2 ^ 3) with (8 * size) by lia. cbn [fmap list_fmap le_split rev app]. rewrite !Z.shiftr_div_pow2, !Z.div_div by lia.
  rewrite Z.div_1_r. done.
Qed.

(** What the code puts in [pad]: the tail of the message and its padding. *)
Definition pad_tail (msg : list Z) : list Z :=
  drop (64 * (length msg / 64)) msg ++ [0x80] ++ repeat 0 (pad_zeros (length msg)) ++ rev (le_split 8 (8 * Z.of_nat (length msg))).

Lemma padded_split msg : padded msg = take (64 * (length msg / 64)) msg ++ pad_tail msg.
Proof. unfold padded, pad_tail. by rewrite (app_assoc (take _ _)), take_drop. Qed.

Lemma pad_tail_length msg : exists p, (1 <= p <= 2)%nat /\ length (pad_tail msg) = (64 * p)%nat.
Proof.
  assert (length (pad_tail msg) = length msg mod 64 + 9 + pad_zeros (length msg))%nat as E.
  { unfold pad_tail. rewrite !length_app, length_drop, repeat_length, length_rev, length_le_split. cbn [length].
    pose proof (Nat.div_mod_eq (length msg) 64). lia. }
  rewrite E. unfold pad_zeros. set (n := length msg).
  exists (Z.to_nat ((Z.of_nat n mod 64 + 9 + (55 - Z.of_nat n) mod 64) / 64)).
  assert (Z.of_nat (n mod 64) = Z.of_nat n mod 64) as Em by (rewrite Nat2Z.inj_mod; done).
  split; zify; Z.div_mod_to_equations; lia.
Qed.

(** The three loops that fill [pad]. *)
Lemma pad_filled pad msg : bytes pad -> length pad = 128%nat -> bytes msg -> Z.of_nat (length msg) < 2 ^ 31 ->
  exists pad', bytes pad' /\ length pad' = 128%nat /\ take (length (pad_tail msg)) pad' = pad_tail msg /\
    fill_pad pad msg (Z.of_nat (64 * (length msg / 64))) (Z.of_nat (length msg)) =
    Some (pad', length (pad_tail msg)).
Proof.
  intros Hp H128 Hm Hs. destruct (pad_tail_length msg) as (p & Hp2 & Hlen). pose proof (Nat.div_mod_eq (length msg) 64) as Hdm.
  pose proof (Nat.mod_upper_bound (length msg) 64 ltac:(lia)) as Hr. unfold fill_pad. rewrite length_bytes by lia.
  set (q := (length msg / 64)%nat) in *. rewrite copy_tail_spec by lia. rewrite Nat2Z.id, firstn_all2 by (rewrite length_drop; lia).
  unfold pad_tail in *. fold q in Hlen |- *. set (tail := drop (64 * q) msg) in *. set (z := pad_zeros (length msg)) in *.
  set (L := rev (le_split 8 (8 * Z.of_nat (length msg)))) in *.
  assert (z < 64)%nat as Hz by (unfold z, pad_zeros; Z.div_mod_to_equations; lia).
  assert (length tail = (length msg mod 64)%nat) as Ht by (unfold tail; rewrite length_drop; lia).
  assert (length L = 8%nat) as HL by (unfold L; by rewrite length_rev, length_le_split).
  assert (bytes tail) as Bt by (by apply Forall_drop).
  assert (bytes L) as BL by (unfold L, bytes; apply Forall_rev, bytes_le_split).
  rewrite !length_app, repeat_length, HL in *. cbn [length] in *.
  destruct (push_all (tail ++ [0x80]) pad 0) as (p1 & E1 & L1 & B1 & T1);
    [done|apply Forall_app; split; [done|by repeat constructor]|rewrite length_app; cbn [length]; lia|].
  rewrite foldM_app in E1. destruct (foldM push_pad (pad, 0%nat) tail) as [st|] eqn:Et; [|done]. cbn [mbind option_bind foldM] in E1 |- *.
  destruct (push_pad st 128) as [st1|]; [|done]. cbn [mbind option_bind foldM] in E1 |- *. injection E1 as ->.
  rewrite length_app in *. cbn [length Nat.add] in *.
  rewrite (zero_pad_spec z); [|lia|unfold z, pad_zeros; rewrite Ht, Nat2Z.inj_add, Nat2Z.inj_mod; f_equal; Z.div_mod_to_equations; lia].
  destruct (push_all (repeat 0 z ++ L) p1 (length tail + 1)) as (p2 & E2 & L2 & B2 & T2);
    [done|apply Forall_app; split; [by apply bytes_repeat|done]|rewrite length_app, repeat_length; lia|].
  rewrite foldM_app in E2. destruct (foldM push_pad (p1, (length tail + 1)%nat) (repeat 0 z)) as [st2|]; [|done]. cbn [mbind option_bind] in E2 |- *.
  rewrite length_app, repeat_length, HL in E2, T2. exists p2. split; [done|]. split; [lia|].
  replace (length tail + S (z + 8))%nat with (length tail + 1 + (z + 8))%nat in * by lia. split; [|done].
  rewrite T2, T1, take_0, app_nil_l. by rewrite <-app_assoc.
Qed.

(** ** The whole function *)

Lemma sha256_spec pad buf : bytes pad -> length pad = 128%nat -> bytes buf -> Z.of_nat (length buf) < 2 ^ 31 ->
  zio_checksum_SHA256 pad buf (Z.of_nat (length buf)) = Some (cksum_of_hash (sha256_ref buf)).
Proof.
  intros Hpad H128 Hbuf Hsize.
  pose proof (Nat.div_mod_eq (length buf) 64) as Hdm. pose proof (Nat.mod_upper_bound (length buf) 64 ltac:(lia)) as Hr.
  destruct (pad_tail_length buf) as (p & Hp2 & Hlen). destruct (pad_filled pad buf) as (pad' & B' & L' & T' & E'); try done.
  set (q := (length buf / 64)%nat) in *. unfold zio_checksum_SHA256.
  change (2 ^ 64 - 64) with (u64 (- 2 ^ 6)). fold (P2ALIGN (Z.of_nat (length buf)) (2 ^ 6)). rewrite P2ALIGN_mod by (unfold is_u64; lia).
  replace (Z.of_nat (length buf) - Z.of_nat (length buf) mod 2 ^ 6) with (Z.of_nat (64 * (0 + q)))
    by (assert (Z.of_nat (length buf mod 64) = Z.of_nat (length buf) mod 64) by (by rewrite Nat2Z.inj_mod); change (2 ^ 6) with 64; lia).
  change (transform_blocks ?k buf 0) with (transform_blocks k buf (Z.of_nat (64 * 0))). rewrite transform_blocks_spec by (done || lia).
  cbn [mbind option_bind]. rewrite Nat.add_0_l.
  set (H1 := blocks_ref buf sha256_init (seq 0 q)).
  rewrite E'. cbn [mbind option_bind]. rewrite Hlen in *.
  change (transform_blocks 3 pad' 0) with (transform_blocks 3 pad' (Z.of_nat (64 * 0))).
  rewrite <-(Nat.add_0_l p), transform_blocks_spec, Nat.add_0_l by (done || lia). cbn [mbind option_bind].
  assert (blocks_ref pad' H1 (seq 0 p) = sha256_ref buf) as ->.
  { unfold sha256_ref. fold (blocks_ref (padded buf) sha256_init (seq 0 (length (padded buf) / 64))).
    rewrite padded_split. fold q. assert (length (take (64 * q) buf) = (64 * q)%nat) as Ha by (rewrite length_take; lia).
    rewrite length_app, Ha, Hlen. replace (64 * q + 64 * p)%nat with ((q + p) * 64)%nat by lia. rewrite Nat.div_mul by lia.
    rewrite blocks_ref_app by done. rewrite <-(take_drop (64 * p) pad'), T'.
    rewrite (blocks_ref_ext (pad_tail buf ++ _) (pad_tail buf)) by (apply Forall_forall; intros i Hi%elem_of_seq; apply nth_block_app_l; lia).
    rewrite (blocks_ref_ext (take (64 * q) buf) buf (seq 0 q)); [done|].
    apply Forall_forall. intros i Hi%elem_of_seq. rewrite <-(take_drop (64 * q) buf) at 2. symmetry. apply nth_block_app_l. lia. }
  assert (hash_ok (sha256_ref buf)) as (K0 & K1 & K2 & K3 & K4 & K5 & K6 & K7) by apply sha256_ref_ok.
  unfold cksum_of_hash. by rewrite !lor_shiftl_add by (done || apply K1 || apply K3 || apply K5 || apply K7).
Qed.

(** ** Theorem *)



(** The standard's test vector. *)
Example sha256_abc : zio_checksum_SHA256 (repeat 7 128) [97; 98; 99] 3 =
  Some (mk_cksum 0xba7816bf8f01cfea 0x414140de5dae2223 0xb00361a396177a9c 0xb410ff61f20015ad).
Proof. vm_compute. reflexivity. Qed.
