(* ===== verification/ZioChecksum.v ===== *)
(** * Checksum vectors ([zio_checksum.c])

    Blocks carry their checksum in the block pointer, or, for labels, gang
    headers and log blocks, in a tail at their own end together with a magic
    number; the pointer then holds a verifier that takes the place of the
    checksum while the block is summed. *)
From Stdlib Require Import ZArith Lia.
From stdpp Require Import base numbers list option gmap.
From S2P Require Import Prelude Fletcher ZioCompress Blkptr Sha256.

(** ** Data *)

Definition ZBT_MAGIC : Z := 0x210da7ab10c7a11.

Definition ZIO_CHECKSUM_INHERIT : Z := 0.
Definition ZIO_CHECKSUM_ON : Z := 1.
Definition ZIO_CHECKSUM_OFF : Z := 2.
Definition ZIO_CHECKSUM_LABEL : Z := 3.
Definition ZIO_CHECKSUM_GANG_HEADER : Z := 4.
Definition ZIO_CHECKSUM_ZILOG : Z := 5.
Definition ZIO_CHECKSUM_FLETCHER_2 : Z := 6.
Definition ZIO_CHECKSUM_FLETCHER_4 : Z := 7.
Definition ZIO_CHECKSUM_SHA256 : Z := 8.
Definition ZIO_CHECKSUM_FUNCTIONS : Z := 9.
Definition ZIO_CHECKSUM_ON_VALUE : Z := ZIO_CHECKSUM_FLETCHER_2.

Definition cksum_func := list Z -> Z -> option zio_cksum.

Record zio_checksum_info := mk_ci {
  ci_func : option (cksum_func * cksum_func);   (* native, byteswapped *)
  ci_correctable : bool;
  ci_zbt : bool
}.

(** ** The tail of a block *)

(** Offsets in a block of [size] bytes: [zbt_magic], then [zbt_cksum]. *)
Definition zbt_off (size : Z) : nat := Z.to_nat (size - 40).

(** Stores bytes in the buffer. *)
Definition splice (buf : list Z) (off : nat) (bs : list Z) : option (list Z) :=
  if decide (off + length bs <= length buf)%nat then Some (take off buf ++ bs ++ drop (off + length bs) buf) else None.

Definition cksum_bytes (zc : zio_cksum) : list Z :=
  le_split 8 (zc_word0 zc) ++ le_split 8 (zc_word1 zc) ++ le_split 8 (zc_word2 zc) ++ le_split 8 (zc_word3 zc).

Definition get_magic (data : list Z) (size : Z) : option Z := load 8 data (zbt_off size).
Definition set_magic (data : list Z) (size magic : Z) : option (list Z) := splice data (zbt_off size) (le_split 8 magic).
Definition get_cksum (data : list Z) (size : Z) : option zio_cksum :=
  let* w0 := load 8 data (zbt_off size + 8) in
  let* w1 := load 8 data (zbt_off size + 16) in
  let* w2 := load 8 data (zbt_off size + 24) in
  let* w3 := load 8 data (zbt_off size + 32) in Some (mk_cksum w0 w1 w2 w3).
Definition set_cksum (data : list Z) (size : Z) (zc : zio_cksum) : option (list Z) :=
  splice data (zbt_off size + 8) (cksum_bytes zc).

(** [byteswap_uint64_array(&zc, sizeof (zio_cksum_t))]. *)
Definition byteswap_cksum (zc : zio_cksum) : zio_cksum :=
  mk_cksum (BSWAP_64 (zc_word0 zc)) (BSWAP_64 (zc_word1 zc)) (BSWAP_64 (zc_word2 zc)) (BSWAP_64 (zc_word3 zc)).

Definition ZIO_CHECKSUM_EQUAL (a b : zio_cksum) : bool :=
  0 =? Z.lor (Z.lor (Z.lor (u64 (zc_word0 a - zc_word0 b)) (u64 (zc_word1 a - zc_word1 b)))
               (u64 (zc_word2 a - zc_word2 b))) (u64 (zc_word3 a - zc_word3 b)).

Section zio_checksum.
(** What the array [pad] of [zio_checksum_SHA256] holds on entry. *)
Context (pad : list Z).

Definition zio_checksum_off : cksum_func := fun _ _ => Some (mk_cksum 0 0 0 0).
Definition fletcher (f : list Z -> nat -> option zio_cksum) : cksum_func := fun buf size => f buf (Z.to_nat size).

Definition zio_checksum_table : list zio_checksum_info := [
  mk_ci None false false;
  mk_ci None false false;
  mk_ci (Some (zio_checksum_off, zio_checksum_off)) false false;
  mk_ci (Some (zio_checksum_SHA256 pad, zio_checksum_SHA256 pad)) true true;
  mk_ci (Some (zio_checksum_SHA256 pad, zio_checksum_SHA256 pad)) true true;
  mk_ci (Some (fletcher fletcher_2_native, fletcher fletcher_2_byteswap)) false true;
  mk_ci (Some (fletcher fletcher_2_native, fletcher fletcher_2_byteswap)) false false;
  mk_ci (Some (fletcher fletcher_4_native, fletcher fletcher_4_byteswap)) true false;
  mk_ci (Some (zio_checksum_SHA256 pad, zio_checksum_SHA256 pad)) true false
].

Definition zio_checksum_select (child parent : Z) : option Z :=
  VERIFY child <? ZIO_CHECKSUM_FUNCTIONS in
  VERIFY parent <? ZIO_CHECKSUM_FUNCTIONS in
  VERIFY negb (parent =? ZIO_CHECKSUM_INHERIT) && negb (parent =? ZIO_CHECKSUM_ON) in
  Some (if child =? ZIO_CHECKSUM_INHERIT then parent
        else if child =? ZIO_CHECKSUM_ON then ZIO_CHECKSUM_ON_VALUE else child).

(** Returns [*zcp] and the block. *)
Definition zio_checksum (checksum : Z) (data : list Z) (size : Z) : option (zio_cksum * list Z) :=
  VERIFY checksum <? ZIO_CHECKSUM_FUNCTIONS in
  let* ci := zio_checksum_table !! Z.to_nat checksum in
  let* (native, _) := ci_func ci in
  if ci_zbt ci then
    let* zc := get_cksum data size in
    let* data := set_magic data size ZBT_MAGIC in
    let* zbt_cksum := native data size in
    let* data := set_cksum data size zbt_cksum in
    Some (zc, data)
  else
    let* zc := native data size in Some (zc, data).

Definition ZIO_GET_IOSIZE (bp : blkptr) : Z := if BP_IS_GANG bp then SPA_GANGBLOCKSIZE else BP_GET_PSIZE bp.

Definition zio_set_gang_verifier (bp : blkptr) : zio_cksum :=
  mk_cksum (DVA_GET_VDEV (BP_IDENTITY bp)) (DVA_GET_OFFSET (BP_IDENTITY bp)) (blk_birth bp) 0.

(** The sum of a block with a tail: what the tail holds, what it should, and
    the block afterwards. *)
Definition verify_tail (native swapped : cksum_func) (data : list Z) (size : Z) (zc : zio_cksum) :
    option (zio_cksum * zio_cksum * list Z) :=
  let* magic := get_magic data size in
  if magic =? BSWAP_64 ZBT_MAGIC then
    let* c := get_cksum data size in
    let expected := byteswap_cksum c in
    let* data := set_cksum data size (byteswap_cksum zc) in
    let* actual := swapped data size in
    let* data := set_cksum data size (byteswap_cksum expected) in
    Some (actual, expected, data)
  else
    let* expected := get_cksum data size in
    let* data := set_cksum data size zc in
    let* actual := native data size in
    let* data := set_cksum data size expected in
    Some (actual, expected, data).

(** [injected] is the value of [zio_handle_fault_injection(zio, ECKSUM)]; the
    result is the error and the block. *)
Definition zio_checksum_error (zio_injection_enabled : bool) (injected : Z)
    (bp : blkptr) (data : list Z) (io_error : Z) : option (Z * list Z) :=
  let zc := blk_cksum bp in
  let checksum := if BP_IS_GANG bp then ZIO_CHECKSUM_GANG_HEADER else BP_GET_CHECKSUM bp in
  let size := ZIO_GET_IOSIZE bp in
  if ZIO_CHECKSUM_FUNCTIONS <=? checksum then Some (EINVAL, data)
  else
    let* ci := zio_checksum_table !! Z.to_nat checksum in
    match ci_func ci with
    | None => Some (EINVAL, data)
    | Some (native, swapped) =>
        let* (actual, zc, data) :=
          if ci_zbt ci then
            verify_tail native swapped data size (if checksum =? ZIO_CHECKSUM_GANG_HEADER then zio_set_gang_verifier bp else zc)
          else
            VERIFY negb (BP_IS_GANG bp) in
            let* actual := (if BP_SHOULD_BYTESWAP bp then swapped else native) data size in
            Some (actual, zc, data) in
        if negb (ZIO_CHECKSUM_EQUAL actual zc) then Some (ECKSUM, data)
        else if zio_injection_enabled && (io_error =? 0) then Some (injected, data)
        else Some (0, data)
    end.
End zio_checksum.

(** ** The tail, as a part of the block *)

Definition cksum_u64 (zc : zio_cksum) : Prop :=
  is_u64 (zc_word0 zc) /\ is_u64 (zc_word1 zc) /\ is_u64 (zc_word2 zc) /\ is_u64 (zc_word3 zc).

Definition cksum_of_bytes (C : list Z) : zio_cksum :=
  mk_cksum (le_combine (take 8 C)) (le_combine (take 8 (drop 8 C))) (le_combine (take 8 (drop 16 C))) (le_combine (take 8 (drop 24 C))).

Lemma cksum_bytes_length zc : length (cksum_bytes zc) = 32%nat.
Proof. unfold cksum_bytes. by rewrite !length_app, !length_le_split. Qed.
Lemma cksum_bytes_bytes zc : bytes (cksum_bytes zc).
Proof. unfold cksum_bytes, bytes. rewrite !Forall_app. pose proof bytes_le_split. unfold bytes in *. auto. Qed.

Lemma cksum_bytes_of C : bytes C -> length C = 32%nat -> cksum_bytes (cksum_of_bytes C) = C.
Proof.
  intros Hb Hl. unfold cksum_bytes, cksum_of_bytes. cbn [zc_word0 zc_word1 zc_word2 zc_word3].
  assert (forall n, (n + 8 <= 32)%nat -> le_split 8 (le_combine (take 8 (drop n C))) = take 8 (drop n C)) as E.
  { intros n Hn. rewrite <-(le_split_combine (take 8 (drop n C))) at 2 by (by apply Forall_take, Forall_drop).
    by rewrite length_take, length_drop, Hl, Nat.min_l by lia. }
  rewrite <-(drop_0 C) at 1. rewrite !E by lia. rewrite drop_0.
  rewrite <-(take_drop 8 C) at 5. f_equal. rewrite <-(take_drop 8 (drop 8 C)) at 2. rewrite drop_drop. cbn [Nat.add]. f_equal.
  rewrite <-(take_drop 8 (drop 16 C)) at 2. rewrite drop_drop. cbn [Nat.add]. f_equal.
  rewrite (firstn_all2 (drop 24 C)); [done|]. rewrite length_drop. lia.
Qed.

Lemma cksum_of_bytes_cksum zc : cksum_u64 zc -> cksum_of_bytes (cksum_bytes zc) = zc.
Proof.
  intros (H0 & H1 & H2 & H3). unfold cksum_bytes, cksum_of_bytes. destruct zc as [a b c d]. cbn [zc_word0 zc_word1 zc_word2 zc_word3] in *.
  assert (forall x (l : list Z), take 8 (le_split 8 x ++ l) = le_split 8 x) as Et by (intros; apply take_app_length' ; by rewrite length_le_split).
  assert (forall x (l : list Z) n, drop (8 + n) (le_split 8 x ++ l) = drop n l) as Ed.
  { intros x l n. rewrite drop_app_ge by (rewrite length_le_split; lia). rewrite length_le_split. f_equal. lia. }
  rewrite Et. rewrite (Ed a _ 0%nat), drop_0, Et. rewrite (Ed a _ 8%nat), (Ed b _ 0%nat), drop_0, Et.
  rewrite (Ed a _ 16%nat), (Ed b _ 8%nat), (Ed c _ 0%nat), drop_0, (firstn_all2 (le_split 8 d)) by (rewrite length_le_split; lia).
  by rewrite !le_combine_split.
Qed.

Lemma BSWAP_64_involutive x : is_u64 x -> BSWAP_64 (BSWAP_64 x) = x /\ is_u64 (BSWAP_64 x).
Proof.
  intros Hx. rewrite <-(le_combine_split 8 x) by done. rewrite BSWAP_64_reverse by (apply bytes_le_split || apply length_le_split).
  assert (bytes (reverse (le_split 8 x))) as Hb by (apply Forall_reverse, bytes_le_split).
  split.
  - rewrite BSWAP_64_reverse by (done || by rewrite length_reverse, length_le_split). by rewrite reverse_involutive.
  - pose proof (le_combine_range _ Hb) as Hr. rewrite length_reverse, length_le_split in Hr. exact Hr.
Qed.

Lemma byteswap_cksum_involutive zc : cksum_u64 zc -> byteswap_cksum (byteswap_cksum zc) = zc.
Proof.
  intros (H0 & H1 & H2 & H3). destruct zc as [a b c d]. unfold byteswap_cksum. cbn [zc_word0 zc_word1 zc_word2 zc_word3] in *.
  f_equal; by apply BSWAP_64_involutive.
Qed.

Lemma ZIO_CHECKSUM_EQUAL_refl zc : ZIO_CHECKSUM_EQUAL zc zc = true.
Proof. unfold ZIO_CHECKSUM_EQUAL. by rewrite !Z.sub_diag. Qed.

Section tail.
Context (size : Z) (A M C : list Z) (HA : size = Z.of_nat (length A) + 40) (HM : length M = 8%nat) (HC : length C = 32%nat).

Lemma zbt_off_eq : zbt_off size = length A.
Proof using HA. clear - HA. unfold zbt_off. lia. Qed.

Lemma get_magic_tail : get_magic (A ++ M ++ C) size = Some (le_combine M).
Proof using All.
  unfold get_magic. rewrite zbt_off_eq, <-(Nat.add_0_r (length A)), load_app_r, load_app, load_is_Some by lia.
  by rewrite drop_0, firstn_all2 by lia.
Qed.

Lemma load_tail n : (n + 8 <= 32)%nat -> load 8 (A ++ M ++ C) (length A + (8 + n)) = Some (le_combine (take 8 (drop n C))).
Proof using HM HC. clear HA. intros Hn. rewrite load_app_r. rewrite <-HM at 2. rewrite load_app_r, load_is_Some by lia. done. Qed.

Lemma get_cksum_tail : get_cksum (A ++ M ++ C) size = Some (cksum_of_bytes C).
Proof using All.
  unfold get_cksum. rewrite zbt_off_eq. pose proof (load_tail 0) as L0. pose proof (load_tail 8) as L1.
  pose proof (load_tail 16) as L2. pose proof (load_tail 24) as L3. cbn [Nat.add] in L0, L1, L2, L3.
  rewrite L0, L1, L2, L3 by lia. cbn [mbind option_bind]. by rewrite drop_0.
Qed.

Lemma set_magic_tail m : set_magic (A ++ M ++ C) size m = Some (A ++ le_split 8 m ++ C).
Proof using All.
  unfold set_magic, splice. rewrite zbt_off_eq, !length_app, length_le_split, decide_True by lia.
  rewrite take_app_length, drop_app_add, drop_app_ge by lia. by rewrite HM, Nat.sub_diag, drop_0.
Qed.

Lemma set_cksum_tail zc : set_cksum (A ++ M ++ C) size zc = Some (A ++ M ++ cksum_bytes zc).
Proof using All.
  unfold set_cksum, splice. rewrite zbt_off_eq, !length_app, cksum_bytes_length, decide_True by lia.
  rewrite (app_assoc A M C), take_app_length' by (rewrite length_app; lia). rewrite drop_ge by (rewrite !length_app; lia).
  by rewrite app_nil_r, <-app_assoc.
Qed.
End tail.

Lemma split_tail data size : size = Z.of_nat (length data) -> 40 <= size -> bytes data ->
  exists A M C, data = A ++ M ++ C /\ size = Z.of_nat (length A) + 40 /\ length M = 8%nat /\ length C = 32%nat /\
    bytes A /\ bytes M /\ bytes C /\ A = take (zbt_off size) data.
Proof.
  intros -> Hs Hb. set (n := (length data - 40)%nat). exists (take n data), (take 8 (drop n data)), (drop 8 (drop n data)).
  split; [by rewrite !take_drop|]. rewrite !length_take, !length_drop.
  split; [lia|]. split; [lia|]. split; [lia|]. split; [by apply Forall_take|]. split; [by apply Forall_take, Forall_drop|].
  split; [by do 2 apply Forall_drop|]. f_equal. unfold zbt_off. lia.
Qed.

(** ** The functions of the table *)

Definition cksum_total (f : cksum_func) (size : Z) : Prop :=
  forall data, bytes data -> Z.of_nat (length data) = size -> exists zc, f data size = Some zc /\ cksum_u64 zc.

Lemma ck64_u64 z : cksum_u64 (ck64 z).
Proof. unfold cksum_u64, ck64. cbn [zc_word0 zc_word1 zc_word2 zc_word3]. auto using u64_range. Qed.

Lemma off_total size : cksum_total zio_checksum_off size.
Proof. intros data _ _. eexists. split; [done|]. by repeat split. Qed.

Lemma sha_total pad size : bytes pad -> length pad = 128%nat -> size < 2 ^ 31 -> cksum_total (zio_checksum_SHA256 pad) size.
Proof.
  intros Hp Hl Hs data Hb <-. eexists. split; [by apply sha256_spec|].
  destruct (sha256_ref_ok data) as (K0 & K1 & K2 & K3 & K4 & K5 & K6 & K7). unfold is_u32 in *. unfold cksum_u64, cksum_of_hash, is_u64.
  cbn [zc_word0 zc_word1 zc_word2 zc_word3]. lia.
Qed.

Lemma fletcher_4_total sw size : cksum_total (fletcher (fun buf size => fletcher_4_loop sw buf 0 (size / 4) 0 0 0 0)) size.
Proof.
  intros data Hb Hl. unfold fletcher. change 0 with (u64 0). rewrite fletcher_4_loop_f4.
  - eexists. split; [done|]. apply ck64_u64.
  - rewrite <-Hl, Nat2Z.id. pose proof (Nat.div_mod_eq (length data) 4). lia.
Qed.

Lemma fletcher_2_total sw size : size mod 16 = 0 -> cksum_total (fletcher (fun buf size => fletcher_2_loop sw buf 0 (size / 8) 0 0 0 0)) size.
Proof.
  intros H16 data Hb Hl. unfold fletcher. change 0 with (u64 0).
  assert (exists n, length data = (16 * n)%nat) as [n En].
  { exists (Z.to_nat (size / 16)). Z.div_mod_to_equations. lia. }
  replace (Z.to_nat size / 8)%nat with (n + n)%nat.
  2:{ rewrite <-Hl, Nat2Z.id, En. replace (16 * n)%nat with ((n + n) * 8)%nat by lia. by rewrite Nat.div_mul. }
  rewrite fletcher_2_loop_f2 by lia. eexists. split; [done|]. apply ck64_u64.
Qed.

Lemma table_total pad i ci native swapped size : bytes pad -> length pad = 128%nat -> size mod 16 = 0 -> size < 2 ^ 31 ->
  zio_checksum_table pad !! i = Some ci -> ci_func ci = Some (native, swapped) -> cksum_total native size /\ cksum_total swapped size.
Proof.
  intros Hp Hl H16 Hs Hci Hf. pose proof (sha_total pad size Hp Hl Hs). pose proof (off_total size).
  pose proof (fletcher_2_total (fun w => w) size H16). pose proof (fletcher_2_total BSWAP_64 size H16).
  pose proof (fletcher_4_total (fun w => w) size). pose proof (fletcher_4_total BSWAP_32 size).
  do 9 (destruct i as [|i]; [cbn in Hci; simplify_eq; cbn in Hf; simplify_eq; done|]). done.
Qed.

(** The size of a block: whole sectors. *)
Lemma iosize_sectors bp : exists k, ZIO_GET_IOSIZE bp = 512 * k /\ 1 <= k <= 2 ^ 16.
Proof.
  unfold ZIO_GET_IOSIZE. destruct (BP_IS_GANG bp); [by exists 1|]. unfold BP_GET_PSIZE, BF64_GET_SB, BF64_GET. rewrite bf64_decode by lia.
  set (p := (blk_prop bp / 2 ^ 16) mod 2 ^ 16). assert (0 <= p < 2 ^ 16) by (apply Z.mod_pos_bound; lia).
  exists (p + 1). unfold SPA_MINBLOCKSHIFT. rewrite Z.shiftl_mul_pow2, u64_small by (unfold is_u64; lia). lia.
Qed.

Lemma ZIO_CHECKSUM_EQUAL_spec a b : cksum_u64 a -> cksum_u64 b -> ZIO_CHECKSUM_EQUAL a b = true <-> a = b.
Proof.
  intros (A0 & A1 & A2 & A3) (B0 & B1 & B2 & B3). unfold ZIO_CHECKSUM_EQUAL. rewrite Z.eqb_eq. split.
  - intros E. symmetry in E. rewrite !Z.lor_eq_0_iff in E. destruct E as [[[E0 E1] E2] E3], a as [a0 a1 a2 a3], b as [b0 b1 b2 b3]. cbn [zc_word0 zc_word1 zc_word2 zc_word3] in *.
    f_equal; uint.
  - intros ->. by rewrite !Z.sub_diag.
Qed.

(** Summing a block with a tail leaves the block as it was. *)
Lemma verify_tail_spec native swapped data size zc :
  cksum_total native size -> cksum_total swapped size -> bytes data -> Z.of_nat (length data) = size -> 40 <= size ->
  exists actual expected, verify_tail native swapped data size zc = Some (actual, expected, data).
Proof.
  intros Hn Hw Hb Hl Hs. destruct (split_tail data size) as (A & M & C & -> & HA & HM & HC & BA & BM & BC & _); [done|done|done|].
  unfold verify_tail. rewrite (get_magic_tail size A M C), (get_cksum_tail size A M C) by done. cbn [mbind option_bind].
  assert (forall z, bytes (A ++ M ++ cksum_bytes z) /\ Z.of_nat (length (A ++ M ++ cksum_bytes z)) = size) as Hset.
  { intros z. split; [|rewrite !length_app, cksum_bytes_length; lia]. apply Forall_app; split; [done|]. apply Forall_app; split; [done|]. apply cksum_bytes_bytes. }
  assert (cksum_u64 (cksum_of_bytes C)) as Hu.
  { unfold cksum_u64, cksum_of_bytes, is_u64. cbn [zc_word0 zc_word1 zc_word2 zc_word3].
    assert (forall n, (n + 8 <= 32)%nat -> 0 <= le_combine (take 8 (drop n C)) < 2 ^ 64) as Hr.
    { intros n H32. pose proof (le_combine_range (take 8 (drop n C)) ltac:(by apply Forall_take, Forall_drop)) as Hr.
      rewrite length_take, length_drop, HC, Nat.min_l in Hr by lia. exact Hr. }
    pose proof (Hr 0%nat) as H0. rewrite drop_0 in H0. repeat split; first [apply H0|apply Hr]; lia. }
  destruct (le_combine M =? BSWAP_64 ZBT_MAGIC).
  - rewrite set_cksum_tail by done. cbn [mbind option_bind]. destruct (Hset (byteswap_cksum zc)) as [H1 H2].
    destruct (Hw _ H1 H2) as (actual & -> & _). cbn [mbind option_bind].
    rewrite set_cksum_tail by (done || apply cksum_bytes_length). cbn [mbind option_bind].
    rewrite byteswap_cksum_involutive, cksum_bytes_of by done. by eexists _, _.
  - rewrite set_cksum_tail by done. cbn [mbind option_bind]. destruct (Hset zc) as [H1 H2].
    destruct (Hn _ H1 H2) as (actual & -> & _). cbn [mbind option_bind].
    rewrite set_cksum_tail by (done || apply cksum_bytes_length). cbn [mbind option_bind].
    rewrite cksum_bytes_of by done. by eexists _, _.
Qed.

(** A block summed with a tail: the tail's old checksum was the verifier. *)
Lemma tail_verifies native swapped data size :
  cksum_total native size -> bytes data -> Z.of_nat (length data) = size -> 40 <= size ->
  exists v d1 zc data', get_cksum data size = Some v /\ set_magic data size ZBT_MAGIC = Some d1 /\ native d1 size = Some zc /\
    set_cksum d1 size zc = Some data' /\ take (zbt_off size) data' = take (zbt_off size) data /\
    verify_tail native swapped data' size v = Some (zc, zc, data').
Proof.
  intros Hn Hb Hl Hs. destruct (split_tail data size) as (A & M & C & -> & HA & HM & HC & BA & BM & BC & HAe); [done|done|done|].
  rewrite (get_cksum_tail size A M C), (set_magic_tail size A M C) by done. set (MG := le_split 8 ZBT_MAGIC).
  assert (length MG = 8%nat) as HMG by done.
  destruct (Hn (A ++ MG ++ C)) as (zc & En & Hzc).
  { apply Forall_app; split; [done|]. apply Forall_app; split; [apply bytes_le_split|done]. } { rewrite !length_app. lia. }
  pose proof (cksum_bytes_length zc) as Lz.
  eexists _, _, zc, _. split; [done|]. split; [done|]. split; [done|]. split; [by apply set_cksum_tail|].
  split; [rewrite (zbt_off_eq size A HA), !take_app_length; done|].
  unfold verify_tail. rewrite (get_magic_tail size A MG) by done. cbn [mbind option_bind].
  replace (le_combine MG =? BSWAP_64 ZBT_MAGIC) with false by (symmetry; vm_compute; reflexivity).
  rewrite (get_cksum_tail size A MG) by done. cbn [mbind option_bind]. rewrite cksum_of_bytes_cksum by done.
  rewrite (set_cksum_tail size A MG) by done. cbn [mbind option_bind]. rewrite cksum_bytes_of by done. rewrite En. cbn [mbind option_bind].
  by rewrite (set_cksum_tail size A MG) by done.
Qed.

Lemma table_function pad c : ZIO_CHECKSUM_OFF <= c < ZIO_CHECKSUM_FUNCTIONS ->
  exists ci native swapped, zio_checksum_table pad !! Z.to_nat c = Some ci /\ ci_func ci = Some (native, swapped) /\
    (c = ZIO_CHECKSUM_GANG_HEADER -> ci_zbt ci = true).
Proof.
  unfold ZIO_CHECKSUM_OFF, ZIO_CHECKSUM_FUNCTIONS, ZIO_CHECKSUM_GANG_HEADER. intros Hc.
  assert (c = 2 \/ c = 3 \/ c = 4 \/ c = 5 \/ c = 6 \/ c = 7 \/ c = 8) as H by lia.
  repeat destruct H as [->|H]; [..|subst c]; eexists _, _, _; (split; [reflexivity|]); (split; [reflexivity|]); intros [=]; done.
Qed.

(** ** Theorems *)

Definition with_cksum (bp : blkptr) (zc : zio_cksum) : blkptr :=
  mk_bp (blk_dva0 bp) (blk_dva1 bp) (blk_dva2 bp) (blk_prop bp) (blk_pad bp) (blk_birth bp) (blk_fill bp) zc.

(** The function that sums the block of [bp]. *)
Definition bp_function (bp : blkptr) : Z := if BP_IS_GANG bp then ZIO_CHECKSUM_GANG_HEADER else BP_GET_CHECKSUM bp.

(** C32: what was summed verifies.  For every block, every checksum function
    and the host's byte order, [zio_checksum] returns and changes at most the
    block's tail; with the checksum it stored in the pointer,
    [zio_checksum_error] then accepts the block.  (A gang header must hold
    the gang verifier in its tail, as [zio_gang_checksum_generate] puts it.) *)
Theorem zio_checksum_verifies (pad : list Z) (bp : blkptr) (data : list Z) (io_error injected : Z)
    (Hpad : bytes pad) (H128 : length pad = 128%nat) (Hb : bytes data) (Hlen : Z.of_nat (length data) = ZIO_GET_IOSIZE bp)
    (Hfun : ZIO_CHECKSUM_OFF <= bp_function bp < ZIO_CHECKSUM_FUNCTIONS) (Hswap : BP_SHOULD_BYTESWAP bp = false)
    (Hgang : bp_function bp = ZIO_CHECKSUM_GANG_HEADER -> get_cksum data (ZIO_GET_IOSIZE bp) = Some (zio_set_gang_verifier bp)) :
  exists zc data', zio_checksum pad (bp_function bp) data (ZIO_GET_IOSIZE bp) = Some (zc, data') /\
    take (zbt_off (ZIO_GET_IOSIZE bp)) data' = take (zbt_off (ZIO_GET_IOSIZE bp)) data /\
    zio_checksum_error pad false injected (with_cksum bp zc) data' io_error = Some (0, data').
Proof.
  destruct (iosize_sectors bp) as (k & Ek & Hk). set (size := ZIO_GET_IOSIZE bp) in *.
  assert (size mod 16 = 0 /\ 40 <= size < 2 ^ 31) as [H16 Hs] by (rewrite Ek; split; [replace (512 * k) with (32 * k * 16) by lia; apply Z.mod_mul|]; lia).
  destruct (table_function pad _ Hfun) as (ci & native & swapped & Hci & Hf & Hz).
  destruct (table_total pad _ ci native swapped size Hpad H128 H16 ltac:(lia) Hci Hf) as [Hn _].
  unfold zio_checksum, zio_checksum_error. rewrite (proj2 (Z.ltb_lt _ _)) by lia. rewrite Hci. cbn [mbind option_bind]. rewrite Hf. cbn [mbind option_bind].
  destruct (ci_zbt ci) eqn:Ezbt.
  - destruct (tail_verifies native swapped data size Hn Hb Hlen) as (v & d1 & zc & data' & E1 & E2 & E3 & E4 & E5 & E6); [lia|].
    rewrite E1. cbn [mbind option_bind]. rewrite E2. cbn [mbind option_bind]. rewrite E3. cbn [mbind option_bind]. rewrite E4. cbn [mbind option_bind].
    exists v, data'. split; [done|]. split; [done|]. fold (bp_function (with_cksum bp v)).
    change (bp_function (with_cksum bp v)) with (bp_function bp). change (ZIO_GET_IOSIZE (with_cksum bp v)) with size.
    rewrite (proj2 (Z.leb_gt _ _)) by lia. rewrite Hci. cbn [mbind option_bind]. rewrite Hf, Ezbt.
    replace (if bp_function bp =? ZIO_CHECKSUM_GANG_HEADER then zio_set_gang_verifier (with_cksum bp v) else blk_cksum (with_cksum bp v)) with v.
    2:{ destruct (Z.eqb_spec (bp_function bp) ZIO_CHECKSUM_GANG_HEADER) as [Eg|_]; [|done]. specialize (Hgang Eg). rewrite E1 in Hgang. by injection Hgang. }
    rewrite E6. cbn [mbind option_bind]. by rewrite ZIO_CHECKSUM_EQUAL_refl.
  - destruct (Hn data Hb Hlen) as (zc & En & _). rewrite En. cbn [mbind option_bind]. exists zc, data. split; [done|]. split; [done|].
    fold (bp_function (with_cksum bp zc)). change (bp_function (with_cksum bp zc)) with (bp_function bp).
    change (ZIO_GET_IOSIZE (with_cksum bp zc)) with size. change (BP_SHOULD_BYTESWAP (with_cksum bp zc)) with (BP_SHOULD_BYTESWAP bp).
    change (BP_IS_GANG (with_cksum bp zc)) with (BP_IS_GANG bp).
    rewrite (proj2 (Z.leb_gt _ _)) by lia. rewrite Hci. cbn [mbind option_bind]. rewrite Hf, Ezbt, Hswap.
    replace (BP_IS_GANG bp) with false.
    2:{ symmetry. unfold bp_function in Hz. destruct (BP_IS_GANG bp); [|done]. specialize (Hz eq_refl). congruence. }
    cbn [negb]. rewrite En. cbn [mbind option_bind]. cbn [blk_cksum with_cksum]. by rewrite ZIO_CHECKSUM_EQUAL_refl.
Qed.

Lemma bp_function_range bp : 0 <= bp_function bp.
Proof.
  unfold bp_function, BP_GET_CHECKSUM, BF64_GET. destruct (BP_IS_GANG bp); [done|]. rewrite bf64_decode by lia. apply Z.mod_pos_bound. lia.
Qed.

(** C33: verification is read-only and complete.  For every block and every
    block pointer [zio_checksum_error] returns, passes its assertion and
    leaves the block as it found it, though it writes the verifier into the
    tail meanwhile; an unknown function gives [EINVAL]; without fault
    injection a block whose function keeps no tail is accepted exactly when
    its sum in the writer's byte order is the checksum of the pointer. *)
Theorem zio_checksum_error_readonly (pad : list Z) (bp : blkptr) (data : list Z) (enabled : bool) (io_error injected : Z)
    (Hpad : bytes pad) (H128 : length pad = 128%nat) (Hb : bytes data) (Hlen : Z.of_nat (length data) = ZIO_GET_IOSIZE bp)
    (Hck : cksum_u64 (blk_cksum bp)) :
  exists err, zio_checksum_error pad enabled injected bp data io_error = Some (err, data) /\
    match zio_checksum_table pad !! Z.to_nat (bp_function bp) with
    | Some (mk_ci (Some (native, swapped)) _ zbt) =>
        (err = 0 \/ err = ECKSUM \/ (enabled = true /\ err = injected)) /\
        (zbt = false -> enabled = false ->
         (err = 0 <-> (if BP_SHOULD_BYTESWAP bp then swapped else native) data (ZIO_GET_IOSIZE bp) = Some (blk_cksum bp)))
    | _ => err = EINVAL
    end.
Proof.
  destruct (iosize_sectors bp) as (k & Ek & Hk). set (size := ZIO_GET_IOSIZE bp) in *.
  assert (size mod 16 = 0 /\ 40 <= size < 2 ^ 31) as [H16 Hs] by (rewrite Ek; split; [replace (512 * k) with (32 * k * 16) by lia; apply Z.mod_mul|]; lia).
  unfold zio_checksum_error. fold (bp_function bp). fold size. pose proof (bp_function_range bp) as Hr.
  destruct (Z.leb_spec ZIO_CHECKSUM_FUNCTIONS (bp_function bp)) as [Hge|Hlt].
  { exists EINVAL. split; [done|]. by rewrite lookup_ge_None_2 by (change (length (zio_checksum_table pad)) with 9%nat; unfold ZIO_CHECKSUM_FUNCTIONS in *; lia). }
  destruct (lookup_lt_is_Some_2 (zio_checksum_table pad) (Z.to_nat (bp_function bp))) as [ci Hci];
    [change (length (zio_checksum_table pad)) with 9%nat; unfold ZIO_CHECKSUM_FUNCTIONS in *; lia|].
  rewrite Hci. cbn [mbind option_bind]. destruct ci as [[[native swapped]|] cor zbt]; cbn [ci_func ci_zbt]; [|by exists EINVAL].
  destruct (table_total pad _ _ native swapped size Hpad H128 H16 ltac:(lia) Hci eq_refl) as [Hn Hw].
  destruct zbt.
  - destruct (verify_tail_spec native swapped data size (if bp_function bp =? ZIO_CHECKSUM_GANG_HEADER then zio_set_gang_verifier bp else blk_cksum bp))
      as (actual & expected & ->); [done..|lia|]. cbn [mbind option_bind].
    destruct (ZIO_CHECKSUM_EQUAL actual expected); cbn [negb]; [destruct enabled; cbn [andb]; [destruct (io_error =? 0)|]|];
      eexists; (split; [done|]); (split; [auto 6|discriminate]).
  - assert (BP_IS_GANG bp = false) as Eg.
    { destruct (BP_IS_GANG bp) eqn:Eg; [|done]. unfold bp_function in Hci. rewrite Eg in Hci. done. }
    rewrite Eg. cbn [negb]. set (f := if BP_SHOULD_BYTESWAP bp then swapped else native).
    assert (cksum_total f size) as Hf by (unfold f; by destruct (BP_SHOULD_BYTESWAP bp)).
    destruct (Hf data Hb Hlen) as (actual & Ea & Hu). rewrite Ea. cbn [mbind option_bind].
    pose proof (ZIO_CHECKSUM_EQUAL_spec actual (blk_cksum bp) Hu Hck) as Heq.
    destruct (ZIO_CHECKSUM_EQUAL actual (blk_cksum bp)); cbn [negb].
    + rewrite (proj1 Heq eq_refl). destruct enabled; cbn [andb]; [destruct (io_error =? 0)|];
        eexists; (split; [done|]); (split; [auto 6|]); intros; done.
    + eexists. split; [done|]. split; [by auto|]. intros _ _. split; [done|]. intros [= E]. apply Heq in E. done.
Qed.

(** A sector with a Fletcher-4 pointer, and a log block. *)
Definition example_pad : list Z := repeat 9 128.
Definition example_block : list Z := repeat 1 512.
Definition example_bp (fn : Z) (zc : zio_cksum) : blkptr :=
  BP_SET_BYTEORDER (BP_SET_CHECKSUM (BP_SET_PSIZE (mk_bp (mk_dva 0 0) (mk_dva 0 0) (mk_dva 0 0) 0 [] 5 1 zc) 512) fn) ZFS_HOST_BYTEORDER.

Lemma zio_checksum_verifies_witness :
  exists zc data', zio_checksum example_pad ZIO_CHECKSUM_ZILOG example_block 512 = Some (zc, data') /\
    take 472 data' = take 472 example_block /\
    zio_checksum_error example_pad false 0 (with_cksum (example_bp ZIO_CHECKSUM_ZILOG (mk_cksum 0 0 0 0)) zc) data' 0 = Some (0, data').
Proof.
  refine (zio_checksum_verifies example_pad (example_bp ZIO_CHECKSUM_ZILOG (mk_cksum 0 0 0 0)) example_block 0 0 _ _ _ _ _ _ _).
  - by apply bytes_repeat.
  - done.
  - by apply bytes_repeat.
  - vm_compute. reflexivity.
  - vm_compute. split; [discriminate|reflexivity].
  - vm_compute. reflexivity.
  - intros H. vm_compute in H. discriminate H.
Defined.

Definition example_fletcher_bp : blkptr := example_bp ZIO_CHECKSUM_FLETCHER_4 (mk_cksum 1 2 3 4).

Lemma zio_checksum_error_readonly_witness :
  exists err, zio_checksum_error example_pad true 5 example_fletcher_bp example_block 0 = Some (err, example_block) /\
    match zio_checksum_table example_pad !! Z.to_nat (bp_function example_fletcher_bp) with
    | Some (mk_ci (Some (native, swapped)) _ zbt) =>
        (err = 0 \/ err = ECKSUM \/ (true = true /\ err = 5)) /\
        (zbt = false -> true = false ->
         (err = 0 <-> (if BP_SHOULD_BYTESWAP example_fletcher_bp then swapped else native) example_block (ZIO_GET_IOSIZE example_fletcher_bp) =
            Some (blk_cksum example_fletcher_bp)))
    | _ => err = EINVAL
    end.
Proof.
  refine (zio_checksum_error_readonly example_pad example_fletcher_bp example_block true 0 5 _ _ _ _ _).
  - by apply bytes_repeat.
  - done.
  - by apply bytes_repeat.
  - vm_compute. reflexivity.
  - unfold cksum_u64, is_u64. cbn. lia.
Defined.
