(* ===== verification/Refcount.v ===== *)
(** * Reference counts ([refcount.c])

    The user-space build tracks every reference: a count, the list of the
    holds and a short history of removed ones.  The theorem says that the
    tracked count is a multiset of holds. *)
From Stdlib Require Import ZArith Lia.
From stdpp Require Import base numbers list option gmap.
From S2P Require Import Prelude.

Definition s64 (x : Z) : Z := (x + 2 ^ 63) mod 2 ^ 64 - 2 ^ 63.

Record reference := mk_ref { ref_holder : Z; ref_number : Z }.

(** [rc_list] and [rc_removed] from their heads. *)
Record refcount := mk_rc {
  rc_list : list reference;
  rc_removed : list reference;
  rc_count : Z;
  rc_removed_count : Z
}.

Definition refcount_create : refcount := mk_rc [] [] 0 0.

(** The lists are emptied and destroyed. *)
Definition refcount_destroy_many (rc : refcount) (number : Z) : option unit :=
  VERIFY u64 (rc_count rc) =? number in Some tt.
Definition refcount_destroy (rc : refcount) : option unit := refcount_destroy_many rc 0.

Definition refcount_is_zero (rc : refcount) : option bool := VERIFY 0 <=? rc_count rc in Some (rc_count rc =? 0).
Definition refcount_count (rc : refcount) : option Z := VERIFY 0 <=? rc_count rc in Some (rc_count rc).

(** The first reference of the list with this holder and number, taken out. *)
Fixpoint take_ref (holder number : Z) (l : list reference) : option (list reference) :=
  match l with
  | [] => None
  | ref :: l =>
      if (ref_holder ref =? holder) && (ref_number ref =? number) then Some l
      else let* l := take_ref holder number l in Some (ref :: l)
  end.

Section refcount.
Context (reference_tracking_enable : bool) (reference_history : Z).

Definition refcount_add_many (rc : refcount) (number holder : Z) : option (Z * refcount) :=
  VERIFY 0 <=? rc_count rc in
  let l := if reference_tracking_enable then mk_ref holder number :: rc_list rc else rc_list rc in
  let count := s64 (rc_count rc + number) in
  Some (count, mk_rc l (rc_removed rc) count (rc_removed_count rc)).
Definition refcount_add (rc : refcount) (holder : Z) : option (Z * refcount) := refcount_add_many rc 1 holder.

(** The history after a removal: the list and its length. *)
Definition remember (rc : refcount) (ref : reference) : list reference * Z :=
  if 0 <? reference_history then
    let removed := ref :: rc_removed rc in
    let n := s64 (rc_removed_count rc + 1) in
    if reference_history <=? n then (take (length removed - 1) removed, s64 (n - 1)) else (removed, n)
  else (rc_removed rc, rc_removed_count rc).

(** No such hold: a panic. *)
Definition refcount_remove_many (rc : refcount) (number holder : Z) : option (Z * refcount) :=
  VERIFY number <=? u64 (rc_count rc) in
  let count := s64 (rc_count rc - number) in
  if negb reference_tracking_enable then Some (count, mk_rc (rc_list rc) (rc_removed rc) count (rc_removed_count rc))
  else
    let* l := take_ref holder number (rc_list rc) in
    let '(removed, n) := remember rc (mk_ref holder number) in
    Some (count, mk_rc l removed count n).
Definition refcount_remove (rc : refcount) (holder : Z) : option (Z * refcount) := refcount_remove_many rc 1 holder.
End refcount.

(** ** The holds *)

Definition holds_total (l : list reference) : Z := foldr (fun r n => ref_number r + n) 0 l.

(** The reference count stands for the holds [l]. *)
Record tracks (history : Z) (rc : refcount) (l : list reference) : Prop := {
  tr_list : rc_list rc = l;
  tr_numbers : Forall (fun r => 0 <= ref_number r) l;
  tr_count : rc_count rc = holds_total l;
  tr_bound : holds_total l < 2 ^ 63;
  tr_removed : rc_removed_count rc = Z.of_nat (length (rc_removed rc));
  tr_history : rc_removed_count rc <= Z.max 0 (history - 1)
}.

Lemma s64_small x : - 2 ^ 63 <= x < 2 ^ 63 -> s64 x = x.
Proof. intros H. unfold s64. rewrite Z.mod_small by lia. lia. Qed.

Lemma holds_nonneg l : Forall (fun r => 0 <= ref_number r) l -> 0 <= holds_total l.
Proof. unfold holds_total. induction 1; cbn [foldr]; lia. Qed.

Lemma take_ref_Some h n l l' : take_ref h n l = Some l' -> holds_total l = n + holds_total l' /\ l ≡ₚ mk_ref h n :: l'.
Proof.
  revert l'. induction l as [|[h0 n0] l IH]; intros l'; cbn [take_ref ref_holder ref_number]; [done|].
  destruct (Z.eqb_spec h0 h) as [->|], (Z.eqb_spec n0 n) as [->|]; cbn [andb].
  1: intros [= ->]; split; done.
  all: destruct (take_ref h n l) as [l1|] eqn:E; [|done]; cbn [mbind option_bind]; intros [= <-];
    destruct (IH _ eq_refl) as [H1 H2]; unfold holds_total in *; cbn [foldr]; (split; [cbn [ref_number]; lia|]); rewrite H2; apply Permutation_swap.
Qed.

Lemma take_ref_None h n l : take_ref h n l = None <-> mk_ref h n ∉ l.
Proof.
  induction l as [|[h0 n0] l IH]; cbn [take_ref ref_holder ref_number].
  - split; [intros _; apply not_elem_of_nil|done].
  - rewrite not_elem_of_cons. destruct ((h0 =? h) && (n0 =? n)) eqn:E.
    + bprop. subst. split; [done|]. by intros [? _].
    + assert (mk_ref h n <> mk_ref h0 n0) as Hne by (intros [= -> ->]; by rewrite !Z.eqb_refl in E).
      rewrite <-IH. destruct (take_ref h n l); cbn [mbind option_bind]; [|tauto]. split; [done|]. by intros [_ ?].
Qed.

Lemma tracks_create history : tracks history refcount_create [].
Proof. split; cbn; try done; try lia. Qed.

Lemma add_many_spec history rc l number holder : tracks history rc l -> 0 <= number -> holds_total l + number < 2 ^ 63 ->
  exists rc', refcount_add_many true rc number holder = Some (holds_total l + number, rc') /\ tracks history rc' (mk_ref holder number :: l).
Proof.
  intros [H1 H2 H3 H4 H5 H6] Hn Hb. pose proof (holds_nonneg _ H2). unfold refcount_add_many. rewrite H3, (proj2 (Z.leb_le _ _)) by lia.
  rewrite s64_small by lia. eexists. split; [done|]. split; cbn [rc_list rc_removed rc_count rc_removed_count]; try done.
  - by rewrite H1.
  - by constructor.
  - unfold holds_total. cbn [foldr ref_number]. fold (holds_total l). lia.
  - unfold holds_total. cbn [foldr ref_number]. fold (holds_total l). lia.
Qed.

Lemma remember_spec history rc ref : 0 <= history < 2 ^ 62 -> rc_removed_count rc = Z.of_nat (length (rc_removed rc)) ->
  rc_removed_count rc <= Z.max 0 (history - 1) ->
  exists removed n, remember history rc ref = (removed, n) /\ n = Z.of_nat (length removed) /\ n <= Z.max 0 (history - 1).
Proof.
  intros Hh H1 H2. unfold remember. destruct (Z.ltb_spec 0 history); [|by eexists _, _]. rewrite s64_small by lia.
  destruct (Z.leb_spec history (rc_removed_count rc + 1)).
  - eexists _, _. split; [done|]. rewrite s64_small by lia. rewrite length_take. cbn [length]. lia.
  - eexists _, _. split; [done|]. cbn [length]. lia.
Qed.

Lemma remove_many_spec history rc l number holder : tracks history rc l -> 0 <= number -> 0 <= history < 2 ^ 62 ->
  match take_ref holder number l with
  | Some l' => exists rc', refcount_remove_many true history rc number holder = Some (holds_total l', rc') /\ tracks history rc' l'
  | None => refcount_remove_many true history rc number holder = None
  end.
Proof.
  intros [H1 H2 H3 H4 H5 H6] Hn Hh. pose proof (holds_nonneg _ H2). unfold refcount_remove_many. rewrite H3, H1.
  rewrite u64_small by (unfold is_u64; lia). cbn [negb]. destruct (take_ref holder number l) as [l'|] eqn:E.
  - destruct (take_ref_Some _ _ _ _ E) as [Ht Hp]. rewrite Hp in H2. apply Forall_cons in H2 as [_ H2]. pose proof (holds_nonneg _ H2).
    rewrite (proj2 (Z.leb_le _ _)) by lia. cbn [mbind option_bind]. rewrite s64_small by lia.
    destruct (remember_spec history rc (mk_ref holder number)) as (removed & n & -> & E1 & E2); try done.
    replace (holds_total l - number) with (holds_total l') by lia. eexists. split; [done|]. split; cbn [rc_list rc_removed rc_count rc_removed_count]; try done. lia.
  - destruct (number <=? holds_total l); done.
Qed.

(** ** Runs of operations *)

Inductive ref_op := RefAdd (number holder : Z) | RefRemove (number holder : Z).

Definition run_op (tracking : bool) (history : Z) (rc : refcount) (op : ref_op) : option refcount :=
  let* (_, rc) :=
    match op with
    | RefAdd number holder => refcount_add_many tracking rc number holder
    | RefRemove number holder => refcount_remove_many tracking history rc number holder
    end in Some rc.

(** The holds: an addition adds one, a removal needs one of the same holder
    and number and takes it away. *)
Definition hold_op (l : list reference) (op : ref_op) : option (list reference) :=
  match op with
  | RefAdd number holder => Some (mk_ref holder number :: l)
  | RefRemove number holder => take_ref holder number l
  end.

Definition op_ok (op : ref_op) : Prop := match op with RefAdd n _ => 0 <= n | RefRemove n _ => 0 <= n end.
Definition added (op : ref_op) : Z := match op with RefAdd n _ => n | RefRemove _ _ => 0 end.

Lemma run_refines history : 0 <= history < 2 ^ 62 -> forall ops rc l,
  Forall op_ok ops -> tracks history rc l -> holds_total l + foldr (fun op n => added op + n) 0 ops < 2 ^ 63 ->
  match foldM hold_op l ops with
  | Some l' => exists rc', foldM (run_op true history) rc ops = Some rc' /\ tracks history rc' l'
  | None => foldM (run_op true history) rc ops = None
  end.
Proof.
  intros Hh. induction ops as [|op ops IH]; intros rc l Hok Ht Hb; [by exists rc|]. apply Forall_cons in Hok as [Ho Hok].
  assert (0 <= foldr (fun op n => added op + n) 0 ops) as Hpos.
  { clear -Hok. induction Hok as [|[n h|n h] ops Hop _ IH]; cbn [foldr added op_ok] in *; lia. }
  cbn [foldM foldr] in *. destruct op as [n h|n h]; cbn [op_ok added hold_op] in *.
  - destruct (add_many_spec history rc l n h Ht Ho) as (rc' & E & Ht'); [lia|].
    assert (run_op true history rc (RefAdd n h) = Some rc') as -> by (unfold run_op; by rewrite E). cbn [mbind option_bind].
    apply IH; [done|done|]. unfold holds_total. cbn [foldr ref_number]. fold (holds_total l). lia.
  - pose proof (remove_many_spec history rc l n h Ht Ho Hh) as Hs. destruct (take_ref h n l) as [l'|] eqn:E; cbn [mbind option_bind].
    + destruct Hs as (rc' & E' & Ht'). assert (run_op true history rc (RefRemove n h) = Some rc') as -> by (unfold run_op; by rewrite E').
      cbn [mbind option_bind]. apply IH; [done|done|].
      destruct (take_ref_Some _ _ _ _ E). lia.
    + assert (run_op true history rc (RefRemove n h) = None) as -> by (unfold run_op; by rewrite Hs). done.
Qed.


