(* ===== verification/Rrwlock.v ===== *)
(** * Re-entrant reader/writer locks ([rrwlock.c])

    The code between [mutex_enter] or the return of [cv_wait] and the next
    [cv_wait] or [mutex_exit] is one atomic pass; threads interleave at
    passes.  A reader is anonymous while no writer waits, afterwards it leaves
    a node in its thread's list, so that a thread that already reads is let
    in although writers wait.  The file models the passes, the system of
    threads around one lock as a step relation, and proves its invariant by
    induction on runs. *)
From Stdlib Require Import ZArith Lia.
From stdpp Require Import base numbers list option gmap.
From S2P Require Import Prelude Refcount.

(** ** The lock *)

(** [rr_writer] is a thread's address or 0. *)
Record rrwlock := mk_rrw {
  rr_writer : Z;
  rr_anon_rcount : refcount;
  rr_linked_rcount : refcount;
  rr_writer_wanted : bool
}.

(** What a pass of [rrw_enter] ends in: the wait on [rr_cv], or the return
    with the thread's list of nodes. *)
Inductive enter_result :=
  | Waits (rrl : rrwlock)
  | Enters (rrl : rrwlock) (nodes : list Z).

Section code.
(** [self] is the lock's address, [reference_history] the tunable of
    [refcount.c]; the nodes of a thread are the locks they name. *)
Context (self : Z) (reference_history : Z).

Definition rrn_find (rrl : rrwlock) (nodes : list Z) : option bool :=
  let* n := refcount_count (rr_linked_rcount rrl) in
  if n =? 0 then Some false else Some (existsb (Z.eqb self) nodes).

Definition rrn_add (nodes : list Z) : list Z := self :: nodes.

(** The list without its first node for the lock. *)
Fixpoint unlink_node (nodes : list Z) : option (list Z) :=
  match nodes with
  | [] => None
  | rn :: nodes => if rn =? self then Some nodes else let* nodes := unlink_node nodes in Some (rn :: nodes)
  end.

Definition rrn_find_and_remove (rrl : rrwlock) (nodes : list Z) : option (bool * list Z) :=
  let* n := refcount_count (rr_linked_rcount rrl) in
  if n =? 0 then Some (false, nodes)
  else match unlink_node nodes with Some nodes => Some (true, nodes) | None => Some (false, nodes) end.

Definition rrw_init : rrwlock := mk_rrw 0 refcount_create refcount_create false.

Definition rrw_destroy (rrl : rrwlock) : option unit :=
  VERIFY rr_writer rrl =? 0 in
  let* _ := refcount_destroy (rr_anon_rcount rrl) in refcount_destroy (rr_linked_rcount rrl).

(** The condition of the reader's [while]. *)
Definition read_blocked (rrl : rrwlock) (nodes : list Z) : option bool :=
  if negb (rr_writer rrl =? 0) then Some true
  else if rr_writer_wanted rrl then
    let* z := refcount_is_zero (rr_anon_rcount rrl) in
    if (z : bool) then let* f := rrn_find rrl nodes in Some (negb f) else Some false
  else Some false.

(** One pass; [first] when it begins with [mutex_enter]. *)
Definition rrw_enter_read (first : bool) (curthread : Z) (rrl : rrwlock) (nodes : list Z) (tag : Z) : option enter_result :=
  VERIFY negb first || negb (rr_writer rrl =? curthread) in
  let* _ := (if first then let* n := refcount_count (rr_anon_rcount rrl) in VERIFY 0 <=? n in Some n else Some 0) in
  let* blocked := read_blocked rrl nodes in
  if (blocked : bool) then Some (Waits rrl)
  else
    let* (rrl, nodes) :=
      if rr_writer_wanted rrl then
        let* (_, rc) := refcount_add true (rr_linked_rcount rrl) tag in
        Some (mk_rrw (rr_writer rrl) (rr_anon_rcount rrl) rc (rr_writer_wanted rrl), rrn_add nodes)
      else
        let* (_, rc) := refcount_add true (rr_anon_rcount rrl) tag in
        Some (mk_rrw (rr_writer rrl) rc (rr_linked_rcount rrl) (rr_writer_wanted rrl), nodes) in
    VERIFY rr_writer rrl =? 0 in Some (Enters rrl nodes).

Definition rrw_enter_write (first : bool) (curthread : Z) (rrl : rrwlock) (nodes : list Z) : option enter_result :=
  VERIFY negb first || negb (rr_writer rrl =? curthread) in
  let* a := refcount_count (rr_anon_rcount rrl) in
  let* l := (if 0 <? a then Some 0 else refcount_count (rr_linked_rcount rrl)) in
  if (0 <? a) || (0 <? l) || negb (rr_writer rrl =? 0) then
    Some (Waits (mk_rrw (rr_writer rrl) (rr_anon_rcount rrl) (rr_linked_rcount rrl) true))
  else Some (Enters (mk_rrw curthread (rr_anon_rcount rrl) (rr_linked_rcount rrl) false) nodes).

(** [writer] is [rw == RW_WRITER]. *)
Definition rrw_enter (first writer : bool) (curthread : Z) (rrl : rrwlock) (nodes : list Z) (tag : Z) : option enter_result :=
  if negb writer then rrw_enter_read first curthread rrl nodes tag else rrw_enter_write first curthread rrl nodes.

(** Returns the lock, the nodes, and whether [rr_cv] was broadcast. *)
Definition rrw_exit (curthread : Z) (rrl : rrwlock) (nodes : list Z) (tag : Z) : option (rrwlock * list Z * bool) :=
  let* za := refcount_is_zero (rr_anon_rcount rrl) in
  let* zl := (if (za : bool) then refcount_is_zero (rr_linked_rcount rrl) else Some false) in
  VERIFY negb za || negb zl || negb (rr_writer rrl =? 0) in
  if rr_writer rrl =? 0 then
    let* (found, nodes) := rrn_find_and_remove rrl nodes in
    if (found : bool) then
      let* (n, rc) := refcount_remove true reference_history (rr_linked_rcount rrl) tag in
      Some (mk_rrw (rr_writer rrl) (rr_anon_rcount rrl) rc (rr_writer_wanted rrl), nodes, n =? 0)
    else
      let* (n, rc) := refcount_remove true reference_history (rr_anon_rcount rrl) tag in
      Some (mk_rrw (rr_writer rrl) rc (rr_linked_rcount rrl) (rr_writer_wanted rrl), nodes, n =? 0)
  else
    VERIFY rr_writer rrl =? curthread in
    VERIFY za && zl in
    Some (mk_rrw 0 (rr_anon_rcount rrl) (rr_linked_rcount rrl) (rr_writer_wanted rrl), nodes, true).

(** [writer] is [rw == RW_WRITER]. *)
Definition rrw_held (curthread : Z) (rrl : rrwlock) (writer : bool) : option bool :=
  if writer then Some (rr_writer rrl =? curthread)
  else
    let* za := refcount_is_zero (rr_anon_rcount rrl) in
    if negb za then Some true else let* zl := refcount_is_zero (rr_linked_rcount rrl) in Some (negb zl).

(** ** Threads around the lock *)

(** A thread in [cv_wait]: what it wants, and whether it was woken. *)
Inductive want := WantRead (tag : Z) | WantWrite.
Record waiter := mk_waiter { w_want : want; w_woken : bool }.

(** [sy_anon] and [sy_linked] record who holds what (thread and tag, the last
    first), for the clients' discipline and the statements below. *)
Record sys := mk_sys {
  sy_lock : rrwlock;
  sy_tsd : gmap Z (list Z);
  sy_wait : gmap Z waiter;
  sy_anon : list (Z * Z);
  sy_linked : list (Z * Z)
}.

(** Threads may have nodes for other locks. *)
Definition sys_init (tsd : gmap Z (list Z)) : sys := mk_sys rrw_init tsd ∅ [] [].
Definition nodes_of (s : sys) (t : Z) : list Z := default [] (sy_tsd s !! t).
Definition holds_of (t : Z) (l : list (Z * Z)) : list (Z * Z) := filter (fun p => p.1 = t) l.

(** The hold of [t] that was taken last, taken out. *)
Fixpoint drop_hold (t : Z) (l : list (Z * Z)) : list (Z * Z) :=
  match l with
  | [] => []
  | p :: l => if decide (p.1 = t) then l else p :: drop_hold t l
  end.

Definition wake_all (m : gmap Z waiter) : gmap Z waiter := (fun w => mk_waiter (w_want w) true) <$> m.

Definition after_read (s : sys) (t tag : Z) (r : enter_result) : sys :=
  match r with
  | Waits rrl => mk_sys rrl (sy_tsd s) (<[t := mk_waiter (WantRead tag) false]> (sy_wait s)) (sy_anon s) (sy_linked s)
  | Enters rrl nodes =>
      mk_sys rrl (<[t := nodes]> (sy_tsd s)) (delete t (sy_wait s))
        (if rr_writer_wanted (sy_lock s) then sy_anon s else (t, tag) :: sy_anon s)
        (if rr_writer_wanted (sy_lock s) then (t, tag) :: sy_linked s else sy_linked s)
  end.

Definition after_write (s : sys) (t : Z) (r : enter_result) : sys :=
  match r with
  | Waits rrl => mk_sys rrl (sy_tsd s) (<[t := mk_waiter WantWrite false]> (sy_wait s)) (sy_anon s) (sy_linked s)
  | Enters rrl nodes => mk_sys rrl (<[t := nodes]> (sy_tsd s)) (delete t (sy_wait s)) (sy_anon s) (sy_linked s)
  end.

Definition after_exit (s : sys) (t : Z) (r : rrwlock * list Z * bool) : sys :=
  let '(rrl, nodes, broadcast) := r in
  let linked := bool_decide (holds_of t (sy_linked s) <> []) in
  mk_sys rrl (<[t := nodes]> (sy_tsd s)) (if (broadcast : bool) then wake_all (sy_wait s) else sy_wait s)
    (if linked || negb (rr_writer (sy_lock s) =? 0) then sy_anon s else drop_hold t (sy_anon s))
    (if negb (rr_writer (sy_lock s) =? 0) then sy_linked s else drop_hold t (sy_linked s)).

(** What a thread may do: enter, go on after a wake-up, leave; [Spurious] is
    a return of [cv_wait] without a broadcast. *)
Inductive action :=
  | EnterRead (t tag : Z)
  | EnterWrite (t : Z)
  | Resume (t : Z)
  | Exit (t tag : Z)
  | Spurious (t : Z).

Definition act (s : sys) (a : action) : option sys :=
  match a with
  | EnterRead t tag => let* r := rrw_enter true false t (sy_lock s) (nodes_of s t) tag in Some (after_read s t tag r)
  | EnterWrite t => let* r := rrw_enter true true t (sy_lock s) (nodes_of s t) 0 in Some (after_write s t r)
  | Resume t =>
      let* w := sy_wait s !! t in
      match w_want w with
      | WantRead tag => let* r := rrw_enter false false t (sy_lock s) (nodes_of s t) tag in Some (after_read s t tag r)
      | WantWrite => let* r := rrw_enter false true t (sy_lock s) (nodes_of s t) 0 in Some (after_write s t r)
      end
  | Exit t tag => let* r := rrw_exit t (sy_lock s) (nodes_of s t) tag in Some (after_exit s t r)
  | Spurious t =>
      let* w := sy_wait s !! t in
      Some (mk_sys (sy_lock s) (sy_tsd s) (<[t := mk_waiter (w_want w) true]> (sy_wait s)) (sy_anon s) (sy_linked s))
  end.

(** The holds of [t], the last first. *)
Definition stack_of (s : sys) (t : Z) : list (Z * Z) := holds_of t (sy_linked s) ++ holds_of t (sy_anon s).

(** The clients' discipline: a waiting thread does nothing else; a writer does
    not enter again, a reader does not ask to write; a thread leaves what it
    holds, reads in the opposite order of entering, with the tags of entering. *)
Definition allowed (s : sys) (a : action) : Prop :=
  match a with
  | EnterRead t _ => t <> 0 /\ sy_wait s !! t = None /\ rr_writer (sy_lock s) <> t /\
      Z.of_nat (length (sy_anon s)) + Z.of_nat (length (sy_linked s)) < 2 ^ 62
  | EnterWrite t => t <> 0 /\ sy_wait s !! t = None /\ rr_writer (sy_lock s) <> t /\ stack_of s t = []
  | Resume t => exists w, sy_wait s !! t = Some w /\ w_woken w = true /\
      Z.of_nat (length (sy_anon s)) + Z.of_nat (length (sy_linked s)) < 2 ^ 62
  | Exit t tag => sy_wait s !! t = None /\ t <> 0 /\
      (rr_writer (sy_lock s) = t \/ (exists rest, stack_of s t = (t, tag) :: rest))
  | Spurious t => is_Some (sy_wait s !! t)
  end.

Inductive reachable : sys -> Prop :=
  | reach_init tsd : (forall t nodes, tsd !! t = Some nodes -> self ∉ nodes) -> reachable (sys_init tsd)
  | reach_step s a s' : reachable s -> allowed s a -> act s a = Some s' -> reachable s'.
End code.

(** ** Holds and reference counts *)

Definition refs_of (l : list (Z * Z)) : list reference := (fun p => mk_ref p.2 1) <$> l.

Lemma refs_total l : holds_total (refs_of l) = Z.of_nat (length l).
Proof. unfold holds_total, refs_of. induction l as [|p l IH]; cbn [fmap list_fmap foldr length ref_number]; lia. Qed.

#[export] Instance holds_total_proper : Proper ((≡ₚ) ==> eq) holds_total.
Proof. unfold holds_total. intros l l' H. induction H; cbn [foldr]; lia. Qed.

Lemma drop_hold_perm t l tag rest : holds_of t l = (t, tag) :: rest -> l ≡ₚ (t, tag) :: drop_hold t l /\ holds_of t (drop_hold t l) = rest.
Proof.
  unfold holds_of. induction l as [|p l IH]; [done|]. rewrite filter_cons. cbn [drop_hold]. destruct (decide (p.1 = t)).
  - intros [= -> ->]. done.
  - intros E. destruct (IH E) as [H1 H2]. rewrite filter_cons, decide_False by done. split; [|done]. rewrite H1 at 1. apply Permutation_swap.
Qed.

Lemma holds_drop_other t u l : u <> t -> holds_of u (drop_hold t l) = holds_of u l.
Proof.
  intros Hne. unfold holds_of. induction l as [|p l IH]; [done|]. cbn [drop_hold]. destruct (decide (p.1 = t)).
  - rewrite filter_cons, decide_False by congruence. done.
  - rewrite !filter_cons, IH. done.
Qed.

Lemma drop_hold_none t l : holds_of t l = [] -> drop_hold t l = l.
Proof.
  unfold holds_of. induction l as [|p l IH]; [done|]. rewrite filter_cons. cbn [drop_hold]. destruct (decide (p.1 = t)); [done|].
  intros E. by rewrite IH.
Qed.

Section counts.
Context (history : Z) (Hh : 0 <= history < 2 ^ 62).

(** The count of the holds [l]. *)
Definition rc_for (rc : refcount) (l : list (Z * Z)) : Prop := tracks history rc (rc_list rc) /\ rc_list rc ≡ₚ refs_of l.

Lemma rc_for_create : rc_for refcount_create [].
Proof using. split; [apply tracks_create|done]. Qed.

Lemma rc_for_count rc l : rc_for rc l ->
  refcount_count rc = Some (Z.of_nat (length l)) /\ exists b, refcount_is_zero rc = Some b /\ (b = true <-> l = []).
Proof using.
  intros [Ht Hp]. pose proof (tr_count _ _ _ Ht) as Hc. rewrite Hp, refs_total in Hc. unfold refcount_count, refcount_is_zero. rewrite Hc.
  rewrite (proj2 (Z.leb_le _ _)) by lia. split; [done|]. eexists. split; [done|]. rewrite Z.eqb_eq. destruct l; cbn [length]; split; try done; lia.
Qed.

Lemma rc_for_add rc l t tag : rc_for rc l -> Z.of_nat (length l) < 2 ^ 62 ->
  exists n rc', refcount_add true rc tag = Some (n, rc') /\ rc_for rc' ((t, tag) :: l).
Proof using.
  intros [Ht Hp] Hl. destruct (add_many_spec history rc (rc_list rc) 1 tag Ht) as (rc' & E & Ht'); [lia|rewrite Hp, refs_total; lia|].
  eexists _, rc'. split; [exact E|]. pose proof (tr_list _ _ _ Ht') as El. split; [by rewrite El|].
  rewrite El. unfold refs_of. cbn [fmap list_fmap snd]. by rewrite Hp.
Qed.

Lemma rc_for_remove rc l t tag rest : rc_for rc l -> holds_of t l = (t, tag) :: rest ->
  exists n rc', refcount_remove true history rc tag = Some (n, rc') /\ rc_for rc' (drop_hold t l) /\ n = Z.of_nat (length (drop_hold t l)).
Proof using Hh.
  intros [Ht Hp] Hl. destruct (drop_hold_perm t l tag rest Hl) as [Hperm _].
  assert (refs_of l ≡ₚ mk_ref tag 1 :: refs_of (drop_hold t l)) as Hr by exact (fmap_Permutation (fun p => mk_ref p.2 1) _ _ Hperm).
  pose proof (remove_many_spec history rc (rc_list rc) 1 tag Ht ltac:(lia) Hh) as Hs. unfold refcount_remove.
  destruct (take_ref tag 1 (rc_list rc)) as [l'|] eqn:E.
  - destruct Hs as (rc' & E' & Ht'). eexists _, rc'. split; [exact E'|]. pose proof (tr_list _ _ _ Ht') as El.
    destruct (take_ref_Some _ _ _ _ E) as [_ Hp']. assert (l' ≡ₚ refs_of (drop_hold t l)) as Hq.
    { apply (Permutation_cons_inv (a := mk_ref tag 1)). by rewrite <-Hp', Hp, Hr. }
    split; [split; [by rewrite El|by rewrite El]|]. rewrite Hq. apply refs_total.
  - exfalso. apply take_ref_None in E. apply E. rewrite Hp, Hr. by left.
Qed.
End counts.

(** ** The invariant *)

Section invariant.
Context (self history : Z).
Implicit Types s : sys.

(** When a thread has to wait. *)
Definition must_wait s (t : Z) (w : want) : Prop :=
  match w with
  | WantRead _ => rr_writer (sy_lock s) <> 0 \/
      (rr_writer_wanted (sy_lock s) = true /\ sy_anon s = [] /\ holds_of t (sy_linked s) = [])
  | WantWrite => sy_anon s <> [] \/ sy_linked s <> [] \/ rr_writer (sy_lock s) <> 0
  end.

Definition node_count (nodes : list Z) : nat := length (filter (fun n => n = self) nodes).

Record rrw_inv s : Prop := {
  iv_anon : rc_for history (rr_anon_rcount (sy_lock s)) (sy_anon s);
  iv_linked : rc_for history (rr_linked_rcount (sy_lock s)) (sy_linked s);
  iv_nodes : forall t, node_count (nodes_of s t) = length (holds_of t (sy_linked s));
  iv_writer : rr_writer (sy_lock s) <> 0 -> sy_anon s = [] /\ sy_linked s = [] /\ sy_wait s !! rr_writer (sy_lock s) = None;
  iv_wanted : sy_linked s <> [] -> rr_writer_wanted (sy_lock s) = true;
  iv_waiter : rr_writer_wanted (sy_lock s) = true -> exists t w, sy_wait s !! t = Some w /\ w_want w = WantWrite;
  iv_sleep : forall t w, sy_wait s !! t = Some w -> w_woken w = false -> must_wait s t (w_want w);
  iv_idle : forall t w, sy_wait s !! t = Some w -> t <> 0 /\ (w_want w = WantWrite -> stack_of s t = [])
}.

Lemma node_count_exists nodes : existsb (Z.eqb self) nodes = true <-> node_count nodes <> 0%nat.
Proof.
  unfold node_count. induction nodes as [|n nodes IH]; [done|]. rewrite filter_cons. cbn [existsb]. rewrite orb_true_iff, IH, Z.eqb_eq.
  destruct (decide (n = self)); cbn [length]; intuition congruence || intuition lia.
Qed.

Lemma unlink_node_spec nodes :
  match unlink_node self nodes with
  | Some nodes' => node_count nodes = S (node_count nodes')
  | None => node_count nodes = 0%nat
  end.
Proof.
  unfold node_count. induction nodes as [|n nodes IH]; [done|]. cbn [unlink_node]. rewrite filter_cons.
  destruct (Z.eqb_spec n self), (decide (n = self)); try done. destruct (unlink_node self nodes); [|done].
  cbn [mbind option_bind]. by rewrite filter_cons, decide_False.
Qed.

Lemma read_blocked_spec s t tag : rrw_inv s ->
  exists b, read_blocked self (sy_lock s) (nodes_of s t) = Some b /\ (b = true <-> must_wait s t (WantRead tag)).
Proof.
  intros Hi. unfold read_blocked. cbn [must_wait]. destruct (Z.eqb_spec (rr_writer (sy_lock s)) 0) as [Ew|Ew]; cbn [negb].
  2:{ exists true. tauto. }
  destruct (rr_writer_wanted (sy_lock s)). 2:{ exists false. split; [done|]. split; [done|]. by intros [?|[[=] _]]. }
  destruct (rc_for_count history _ _ (iv_anon _ Hi)) as [_ (z & -> & Hz)]. cbn [mbind option_bind].
  destruct z. 2:{ exists false. split; [done|]. split; [done|]. intros [?|(_ & E & _)]; [done|]. apply Hz in E. done. }
  unfold rrn_find. destruct (rc_for_count history _ _ (iv_linked _ Hi)) as [-> _]. cbn [mbind option_bind].
  pose proof (iv_nodes _ Hi t) as Hn. pose proof (node_count_exists (nodes_of s t)) as He. rewrite Hn in He.
  assert (holds_of t (sy_linked s) = [] <-> length (holds_of t (sy_linked s)) = 0%nat) as Hl0 by (destruct (holds_of t (sy_linked s)); cbn; split; done).
  destruct (Z.eqb_spec (Z.of_nat (length (sy_linked s))) 0) as [E0|E0].
  - assert (sy_linked s = []) as El by (destruct (sy_linked s); [done|cbn in E0; lia]). exists true. split; [done|]. split; [|done]. intros _. right. rewrite El. split; [done|]. split; [by apply Hz|done].
  - cbn [mbind option_bind]. eexists. split; [done|]. destruct (existsb (Z.eqb self) (nodes_of s t)); cbn [negb].
    2:{ split; [|done]. intros _. right. split; [done|]. split; [by apply Hz|]. apply Hl0. destruct (length (holds_of t (sy_linked s))); [done|]. destruct He as [_ He]. by specialize (He ltac:(done)). }
    split; [done|]. intros [?|(_ & _ & E)]; [done|]. apply Hl0 in E. by destruct He as [He _]; specialize (He eq_refl).
Qed.

(** A thread that goes to sleep. *)
Lemma inv_sleep s t w rrl :
  rrw_inv s -> (sy_wait s !! t = None \/ exists k, sy_wait s !! t = Some (mk_waiter w k)) -> t <> 0 ->
  rr_anon_rcount rrl = rr_anon_rcount (sy_lock s) -> rr_linked_rcount rrl = rr_linked_rcount (sy_lock s) ->
  rr_writer rrl = rr_writer (sy_lock s) ->
  rr_writer_wanted rrl = (match w with WantRead _ => rr_writer_wanted (sy_lock s) | WantWrite => true end) ->
  rr_writer (sy_lock s) <> t -> must_wait s t w -> (w = WantWrite -> stack_of s t = []) ->
  rrw_inv (mk_sys rrl (sy_tsd s) (<[t := mk_waiter w false]> (sy_wait s)) (sy_anon s) (sy_linked s)).
Proof.
  intros [I1 I2 I3 I4 I5 I6 I7 I8] Hw Ht E1 E2 E3 E4 Hwt Hm Hst.
  split; unfold must_wait, stack_of, nodes_of in *; cbn [sy_lock sy_tsd sy_wait sy_anon sy_linked] in *; rewrite ?E1, ?E2, ?E3; try done.
  - intros Hne. destruct (I4 Hne) as (? & ? & Hno). rewrite lookup_insert_ne by done. done.
  - intros Hne. rewrite E4. destruct w; [by apply I5|done].
  - rewrite E4. destruct w as [tag|]; intros Hwd.
    + destruct (I6 Hwd) as (u & w' & Hu & Hk). exists u, w'. rewrite lookup_insert_ne; [done|]. intros <-.
      destruct Hw as [Hw|[k Hw]]; rewrite Hw in Hu; [done|]. injection Hu as <-. done.
    + eexists t, _. by rewrite lookup_insert_eq.
  - intros u w' Hu Hk. rewrite E4. destruct (decide (u = t)) as [->|Hne].
    + rewrite lookup_insert_eq in Hu. injection Hu as <-. cbn [w_want] in *. by destruct w.
    + rewrite lookup_insert_ne in Hu by done. specialize (I7 u w' Hu Hk). destruct (w_want w'), w; try done. intuition.
  - intros u w' Hu. destruct (decide (u = t)) as [->|Hne].
    + rewrite lookup_insert_eq in Hu. injection Hu as <-. cbn [w_want]. done.
    + rewrite lookup_insert_ne in Hu by done. by apply I8.
Qed.

Lemma nodes_of_insert rrl tsd t nodes m a l u :
  nodes_of (mk_sys rrl (<[t := nodes]> tsd) m a l) u = if decide (u = t) then nodes else default [] (tsd !! u).
Proof.
  unfold nodes_of. cbn [sy_tsd]. destruct (decide (u = t)) as [->|]; [by rewrite lookup_insert_eq|by rewrite lookup_insert_ne].
Qed.

Lemma holds_of_cons t u tag l : holds_of u ((t, tag) :: l) = if decide (u = t) then (t, tag) :: holds_of u l else holds_of u l.
Proof. unfold holds_of. rewrite filter_cons. cbn [fst]. destruct (decide (t = u)), (decide (u = t)); congruence. Qed.

(** A thread that waits is not the writer. *)
Lemma waiting_not_writer s t w : rrw_inv s -> sy_wait s !! t = Some w -> rr_writer (sy_lock s) <> t.
Proof.
  intros Hi Hw E. destruct (iv_idle _ Hi t w Hw) as [Ht _]. destruct (iv_writer _ Hi) as (_ & _ & Hn); [congruence|]. congruence.
Qed.

(** A reader that is let in: anonymous while no writer waits. *)
Lemma inv_enter_anon s t tag rc :
  rrw_inv s -> rr_writer (sy_lock s) = 0 -> rr_writer_wanted (sy_lock s) = false ->
  rc_for history rc ((t, tag) :: sy_anon s) -> (forall w, sy_wait s !! t = Some w -> w_want w = WantRead tag) ->
  rrw_inv (after_read s t tag (Enters (mk_rrw 0 rc (rr_linked_rcount (sy_lock s)) false) (nodes_of s t))).
Proof.
  intros [I1 I2 I3 I4 I5 I6 I7 I8] Ew Ewd Hrc Hkind. unfold after_read. rewrite Ewd. assert (sy_linked s = []) as El.
  { destruct (sy_linked s); [done|]. specialize (I5 ltac:(done)). congruence. }
  split; unfold must_wait, stack_of in *; cbn [sy_lock sy_wait sy_anon sy_linked rr_writer rr_anon_rcount rr_linked_rcount rr_writer_wanted] in *; try done.
  - intros u. rewrite nodes_of_insert, <-I3. by destruct (decide (u = t)) as [->|].
  - intros u w [Hne Hu]%lookup_delete_Some Hk. specialize (I7 u w Hu Hk). destruct (w_want w); [|by left]. rewrite Ew, Ewd in I7. by destruct I7 as [?|[[=] _]].
  - intros u w [Hne Hu]%lookup_delete_Some. rewrite holds_of_cons, decide_False by done. by apply I8.
Qed.

(** With a node while a writer waits. *)
Lemma inv_enter_linked s t tag rc :
  rrw_inv s -> rr_writer (sy_lock s) = 0 -> rr_writer_wanted (sy_lock s) = true ->
  rc_for history rc ((t, tag) :: sy_linked s) -> (forall w, sy_wait s !! t = Some w -> w_want w = WantRead tag) ->
  rrw_inv (after_read s t tag (Enters (mk_rrw 0 (rr_anon_rcount (sy_lock s)) rc true) (rrn_add self (nodes_of s t)))).
Proof.
  intros [I1 I2 I3 I4 I5 I6 I7 I8] Ew Ewd Hrc Hkind. unfold after_read. rewrite Ewd.
  split; unfold must_wait, stack_of in *; cbn [sy_lock sy_wait sy_anon sy_linked rr_writer rr_anon_rcount rr_linked_rcount rr_writer_wanted] in *; try done.
  - intros u. rewrite nodes_of_insert, holds_of_cons. destruct (decide (u = t)) as [->|]; [|apply I3].
    unfold node_count, rrn_add. rewrite filter_cons, decide_True by done. cbn [length]. f_equal. apply I3.
  - intros _. destruct (I6 Ewd) as (u & w & Hu & Hk). exists u, w. split; [|done]. rewrite lookup_delete_ne; [done|].
    intros <-. rewrite (Hkind _ Hu) in Hk. done.
  - intros u w [Hne Hu]%lookup_delete_Some Hk. specialize (I7 u w Hu Hk). rewrite holds_of_cons, decide_False by done.
    destruct (w_want w); [|by right; left]. rewrite Ew, Ewd in I7. done.
  - intros u w [Hne Hu]%lookup_delete_Some. rewrite holds_of_cons, decide_False by done. by apply I8.
Qed.

Lemma inv_enter_read s first t tag :
  rrw_inv s -> t <> 0 -> rr_writer (sy_lock s) <> t ->
  (sy_wait s !! t = None \/ exists k, sy_wait s !! t = Some (mk_waiter (WantRead tag) k)) ->
  Z.of_nat (length (sy_anon s)) + Z.of_nat (length (sy_linked s)) < 2 ^ 62 ->
  exists r, rrw_enter_read self first t (sy_lock s) (nodes_of s t) tag = Some r /\ rrw_inv (after_read s t tag r) /\
    ((exists rrl, r = Waits rrl) <-> must_wait s t (WantRead tag)).
Proof.
  intros Hi Ht Hwt Hw Hb. unfold rrw_enter_read. rewrite (proj2 (Z.eqb_neq _ _)) by done. rewrite orb_true_r.
  assert ((if first then let* n := refcount_count (rr_anon_rcount (sy_lock s)) in VERIFY 0 <=? n in Some n else Some 0) =
    Some (if first then Z.of_nat (length (sy_anon s)) else 0)) as ->.
  { destruct first; [|done]. destruct (rc_for_count history _ _ (iv_anon _ Hi)) as [-> _]. cbn [mbind option_bind]. by rewrite (proj2 (Z.leb_le _ _)) by lia. }
  cbn [mbind option_bind]. destruct (read_blocked_spec s t tag Hi) as (b & -> & Hbl). cbn [mbind option_bind]. destruct b.
  { eexists. split; [done|]. split; [|split; [intros _; by apply Hbl|by eexists]].
    apply (inv_sleep s t (WantRead tag) (sy_lock s)); try done. by apply Hbl. }
  assert (~ must_wait s t (WantRead tag)) as Hno by (intros E; by apply Hbl in E).
  assert (rr_writer (sy_lock s) = 0) as Ew.
  { destruct (Z.eq_dec (rr_writer (sy_lock s)) 0); [done|]. destruct Hno. by left. }
  assert (forall w, sy_wait s !! t = Some w -> w_want w = WantRead tag) as Hkind.
  { intros w E. destruct Hw as [Hw|[k Hw]]; rewrite Hw in E; [done|]. by injection E as <-. }
  destruct (rr_writer_wanted (sy_lock s)) eqn:Ewd.
  - destruct (rc_for_add history _ _ t tag (iv_linked _ Hi)) as (n & rc & -> & Hrc); [lia|]. cbn [mbind option_bind rr_writer].
    rewrite Ew. cbn [Z.eqb]. eexists. split; [done|]. split; [by apply inv_enter_linked|]. split; [by intros [? [=]]|done].
  - destruct (rc_for_add history _ _ t tag (iv_anon _ Hi)) as (n & rc & -> & Hrc); [lia|]. cbn [mbind option_bind rr_writer].
    rewrite Ew. cbn [Z.eqb]. eexists. split; [done|]. split; [by apply inv_enter_anon|]. split; [by intros [? [=]]|done].
Qed.

(** A writer that is let in: nobody holds the lock. *)
Lemma inv_write_in s t :
  rrw_inv s -> t <> 0 -> ~ must_wait s t WantWrite ->
  rrw_inv (after_write s t (Enters (mk_rrw t (rr_anon_rcount (sy_lock s)) (rr_linked_rcount (sy_lock s)) false) (nodes_of s t))).
Proof.
  intros [I1 I2 I3 I4 I5 I6 I7 I8] Ht Hno. cbn [must_wait] in Hno.
  assert (sy_anon s = []) as Ea by (destruct (sy_anon s); [done|]; destruct Hno; by left).
  assert (sy_linked s = []) as El by (destruct (sy_linked s); [done|]; destruct Hno; by right; left).
  split; unfold must_wait, stack_of in *; cbn [after_write sy_lock sy_wait sy_anon sy_linked rr_writer rr_anon_rcount rr_linked_rcount rr_writer_wanted] in *; try done.
  - intros u. rewrite nodes_of_insert, <-I3. by destruct (decide (u = t)) as [->|].
  - intros _. split; [done|]. split; [done|]. apply lookup_delete_eq.
  - intros u w _ _. destruct (w_want w); auto.
  - intros u w [Hne Hu]%lookup_delete_Some. by apply I8.
Qed.

Lemma inv_enter_write s first t :
  rrw_inv s -> t <> 0 -> rr_writer (sy_lock s) <> t ->
  (sy_wait s !! t = None \/ exists k, sy_wait s !! t = Some (mk_waiter WantWrite k)) -> stack_of s t = [] ->
  exists r, rrw_enter_write first t (sy_lock s) (nodes_of s t) = Some r /\ rrw_inv (after_write s t r) /\
    ((exists rrl, r = Waits rrl) <-> must_wait s t WantWrite).
Proof.
  intros Hi Ht Hwt Hw Hst. unfold rrw_enter_write. rewrite (proj2 (Z.eqb_neq (rr_writer (sy_lock s)) t)) by done. rewrite orb_true_r.
  destruct (rc_for_count history _ _ (iv_anon _ Hi)) as [-> _]. cbn [mbind option_bind].
  destruct (rc_for_count history _ _ (iv_linked _ Hi)) as [-> _].
  assert (forall A (l : list A), (0 <? Z.of_nat (length l)) = true <-> l <> []) as Hne.
  { intros A l. rewrite Z.ltb_lt. destruct l; cbn [length]; split; done || lia. }
  set (a := 0 <? Z.of_nat (length (sy_anon s))). assert (a = true <-> sy_anon s <> []) as Ha by apply Hne.
  assert (exists b, (let* l := (if a then Some 0 else Some (Z.of_nat (length (sy_linked s)))) in
    if a || (0 <? l) || negb (rr_writer (sy_lock s) =? 0) then
      Some (Waits (mk_rrw (rr_writer (sy_lock s)) (rr_anon_rcount (sy_lock s)) (rr_linked_rcount (sy_lock s)) true))
    else Some (Enters (mk_rrw t (rr_anon_rcount (sy_lock s)) (rr_linked_rcount (sy_lock s)) false) (nodes_of s t))) =
    Some (if (b : bool) then Waits (mk_rrw (rr_writer (sy_lock s)) (rr_anon_rcount (sy_lock s)) (rr_linked_rcount (sy_lock s)) true)
      else Enters (mk_rrw t (rr_anon_rcount (sy_lock s)) (rr_linked_rcount (sy_lock s)) false) (nodes_of s t)) /\
    (b = true <-> must_wait s t WantWrite)) as (b & E & Hb).
  { cbn [must_wait]. pose proof (Hne _ (sy_linked s)) as Hl. destruct (Z.eqb_spec (rr_writer (sy_lock s)) 0), a, (0 <? Z.of_nat (length (sy_linked s))) eqn:El;
      cbn [mbind option_bind orb negb]; rewrite ?El; cbn [orb]; first [exists true; split; [done|] | exists false; split; [done|]]; intuition congruence. }
  eexists. split; [exact E|]. split; [|rewrite <-Hb; destruct b; split; try done; [by eexists|by intros [? [=]]]].
  destruct b.
  { apply (inv_sleep s t WantWrite); try done. by apply Hb. }
  apply inv_write_in; try done. intros E'. by apply Hb in E'.
Qed.

(** Waking does not change what the threads want. *)
Lemma wake_all_lookup m (b : bool) t w : (if b then wake_all m else m) !! t = Some w ->
  exists w0, m !! t = Some w0 /\ w_want w0 = w_want w /\ (w_woken w = false -> b = false /\ w_woken w0 = false).
Proof.
  destruct b; [|by exists w]. unfold wake_all. rewrite lookup_fmap. destruct (m !! t) as [w0|]; [|done]. cbn. intros [= <-]. by exists w0.
Qed.
Lemma wake_all_keeps m (b : bool) t w : m !! t = Some w -> exists w', (if b then wake_all m else m) !! t = Some w' /\ w_want w' = w_want w.
Proof. intros H. destruct b; [|by exists w]. unfold wake_all. rewrite lookup_fmap, H. by eexists. Qed.
Lemma wake_all_none m (b : bool) t : m !! t = None -> (if b then wake_all m else m) !! t = None.
Proof. intros H. destruct b; [|done]. unfold wake_all. by rewrite lookup_fmap, H. Qed.

(** A hold is given up.  Without a broadcast the sleepers still have to wait. *)
Lemma inv_leave s t nodes ra rl a' l' (bc : bool) :
  rrw_inv s -> rr_writer (sy_lock s) = 0 \/ rr_writer (sy_lock s) = t -> rc_for history ra a' -> rc_for history rl l' ->
  (forall u, node_count (if decide (u = t) then nodes else nodes_of s u) = length (holds_of u l')) ->
  (l' <> [] -> sy_linked s <> []) ->
  (forall u, stack_of s u = [] -> holds_of u l' ++ holds_of u a' = []) ->
  (bc = false -> (forall u tag, must_wait s u (WantRead tag) -> rr_writer_wanted (sy_lock s) = true /\ a' = [] /\ holds_of u l' = []) /\ (a' <> [] \/ l' <> [])) ->
  rrw_inv (mk_sys (mk_rrw 0 ra rl (rr_writer_wanted (sy_lock s))) (<[t := nodes]> (sy_tsd s)) (if bc then wake_all (sy_wait s) else sy_wait s) a' l').
Proof.
  intros [I1 I2 I3 I4 I5 I6 I7 I8] Ew Ha Hl Hn Hl' Hst Hbc.
  split; unfold must_wait in *; cbn [sy_lock sy_wait sy_anon sy_linked rr_writer rr_anon_rcount rr_linked_rcount rr_writer_wanted] in *; try done.
  - intros u. rewrite nodes_of_insert. specialize (Hn u). unfold nodes_of in Hn. exact Hn.
  - intros H. by apply I5, Hl'.
  - intros H. destruct (I6 H) as (u & w & Hu & Hk). destruct (wake_all_keeps _ bc _ _ Hu) as (w' & Hu' & Hk'). exists u, w'. split; [done|congruence].
  - intros u w Hu Hk. destruct (wake_all_lookup _ _ _ _ Hu) as (w0 & Hu0 & Hk0 & Hs). destruct (Hs Hk) as [-> Hw0].
    destruct (Hbc eq_refl) as [Hr Hw]. specialize (I7 u w0 Hu0 Hw0). rewrite <-Hk0. destruct (w_want w0) as [tag|]; [|tauto].
    right. by apply (Hr u tag).
  - intros u w Hu. destruct (wake_all_lookup _ _ _ _ Hu) as (w0 & Hu0 & Hk0 & _). destruct (I8 u w0 Hu0) as [? Hs]. split; [done|].
    intros Hk. unfold stack_of in *. cbn [sy_linked sy_anon]. apply Hst, Hs. congruence.
Qed.

Context (Hh : 0 <= history < 2 ^ 62).

(** The writer leaves. *)
Lemma inv_exit_write s t tag : rrw_inv s -> t <> 0 -> rr_writer (sy_lock s) = t ->
  exists r, rrw_exit self history t (sy_lock s) (nodes_of s t) tag = Some r /\ rrw_inv (after_exit s t r).
Proof using.
  intros Hi Ht Ew. destruct (iv_writer _ Hi) as (Ea & El & Hw); [congruence|]. unfold rrw_exit.
  pose proof (iv_anon _ Hi) as Ra. pose proof (iv_linked _ Hi) as Rl. rewrite Ea in Ra. rewrite El in Rl.
  destruct (rc_for_count history _ _ Ra) as [_ ([] & -> & Ha)]; [|by destruct Ha as [_ Ha]; specialize (Ha eq_refl)].
  cbn [mbind option_bind]. destruct (rc_for_count history _ _ Rl) as [_ ([] & -> & Hl)]; [|by destruct Hl as [_ Hl]; specialize (Hl eq_refl)].
  cbn [mbind option_bind]. rewrite Ew, (proj2 (Z.eqb_neq t 0)), Z.eqb_refl by done. cbn [negb orb andb].
  eexists. split; [done|]. unfold after_exit. rewrite Ew, (proj2 (Z.eqb_neq t 0)) by done. cbn [negb]. rewrite orb_true_r.
  apply (inv_leave s t (nodes_of s t) _ _ _ _ true); try done; [by right|by rewrite Ea|by rewrite El|].
  intros u. rewrite <-(iv_nodes _ Hi u). by destruct (decide (u = t)) as [->|].
Qed.

Lemma find_and_remove_spec s t : rrw_inv s ->
  exists found nodes, rrn_find_and_remove self (sy_lock s) (nodes_of s t) = Some (found, nodes) /\
    if (found : bool) then length (holds_of t (sy_linked s)) = S (node_count nodes) else holds_of t (sy_linked s) = [] /\ nodes = nodes_of s t.
Proof using.
  intros Hi. unfold rrn_find_and_remove. destruct (rc_for_count history _ _ (iv_linked _ Hi)) as [-> _]. cbn [mbind option_bind].
  pose proof (iv_nodes _ Hi t) as Hn. destruct (Z.eqb_spec (Z.of_nat (length (sy_linked s))) 0) as [E|E].
  - eexists false, _. split; [done|]. split; [|done]. destruct (sy_linked s); [done|cbn in E; lia].
  - pose proof (unlink_node_spec (nodes_of s t)) as Hu. destruct (unlink_node self (nodes_of s t)) as [nodes|].
    + eexists true, _. split; [done|]. lia.
    + eexists false, _. split; [done|]. split; [|done]. destruct (holds_of t (sy_linked s)); [done|cbn in Hn; lia].
Qed.

Lemma holds_nil (u : Z) l : l = [] -> holds_of u l = [].
Proof using. by intros ->. Qed.

(** A reader leaves. *)
Lemma inv_exit_read s t tag rest : rrw_inv s -> stack_of s t = (t, tag) :: rest ->
  exists r, rrw_exit self history t (sy_lock s) (nodes_of s t) tag = Some r /\ rrw_inv (after_exit s t r).
Proof using Hh.
  intros Hi Hst. pose proof (iv_anon _ Hi) as Ra. pose proof (iv_linked _ Hi) as Rl.
  assert (rr_writer (sy_lock s) = 0) as Ew.
  { destruct (Z.eq_dec (rr_writer (sy_lock s)) 0) as [|Hne]; [done|]. destruct (iv_writer _ Hi Hne) as (Ea & El & _).
    unfold stack_of in Hst. by rewrite Ea, El in Hst. }
  unfold rrw_exit, after_exit. destruct (rc_for_count history _ _ Ra) as [_ (za & -> & Ha)]. cbn [mbind option_bind].
  destruct (rc_for_count history _ _ Rl) as [_ (zl & -> & Hl)].
  assert ((if za then Some zl else Some false) = Some (za && zl)) as -> by (by destruct za). cbn [mbind option_bind].
  assert (negb za || negb (za && zl) || negb (rr_writer (sy_lock s) =? 0) = true) as ->.
  { destruct za, zl; try done. rewrite (proj1 Ha eq_refl), (proj1 Hl eq_refl) in *. unfold stack_of in Hst.
    by rewrite (proj1 Ha eq_refl), (proj1 Hl eq_refl) in Hst. }
  rewrite Ew. cbn [Z.eqb negb]. destruct (find_and_remove_spec s t Hi) as (found & nodes & -> & Hf). cbn [mbind option_bind].
  unfold stack_of in Hst. destruct found.
  - destruct (holds_of t (sy_linked s)) as [|p hl] eqn:El; [done|]. injection Hst as -> Hst.
    rewrite (bool_decide_true (_ :: _ <> [])) by done. cbn [orb].
    destruct (rc_for_remove history Hh _ _ t tag hl Rl El) as (n & rc & -> & Hrc & Hn). cbn [mbind option_bind].
    eexists. split; [done|]. cbn beta iota. destruct (drop_hold_perm t _ _ _ El) as [_ Edrop].
    apply inv_leave; try done; [by left| | | |].
    + intros u. destruct (decide (u = t)) as [->|Hne]; [rewrite Edrop; cbn [length] in Hf; lia|]. rewrite holds_drop_other by done. apply (iv_nodes _ Hi).
    + intros _ E. by rewrite E in El.
    + intros u Hu. unfold stack_of in Hu. assert (u <> t) by (intros ->; by rewrite El in Hu). by rewrite holds_drop_other.
    + intros Hz. split.
      * intros u tag' [?|(H1 & H2 & H3)]; [done|]. assert (u <> t) by (intros ->; congruence). by rewrite holds_drop_other.
      * right. intros E. rewrite E in Hn. subst n. done.
  - destruct Hf as [El ->]. rewrite El in Hst. cbn [app] in Hst. rewrite (bool_decide_false (holds_of t (sy_linked s) <> [])) by (by intros []).
    cbn [orb]. destruct (rc_for_remove history Hh _ _ t tag rest Ra Hst) as (n & rc & -> & Hrc & Hn). cbn [mbind option_bind].
    eexists. split; [done|]. cbn beta iota. rewrite (drop_hold_none t (sy_linked s) El).
    apply inv_leave; try done; [by left| | |].
    + intros u. rewrite <-(iv_nodes _ Hi u). by destruct (decide (u = t)) as [->|].
    + intros u Hu. unfold stack_of in Hu. assert (u <> t) by (intros ->; by rewrite El, Hst in Hu). by rewrite holds_drop_other.
    + intros Hz. split.
      * intros u tag' [?|(H1 & H2 & H3)]; [done|]. exfalso. by rewrite H2 in Hst.
      * left. intros E. rewrite E in Hn. subst n. done.
Qed.

Lemma inv_init tsd : (forall t nodes, tsd !! t = Some nodes -> self ∉ nodes) -> rrw_inv (sys_init tsd).
Proof using.
  intros Ht. split; cbn; try done; try apply rc_for_create.
  intros t. unfold nodes_of, node_count. cbn [sy_tsd sys_init]. destruct (tsd !! t) as [nodes|] eqn:E; [|done]. cbn [default from_option id].
  rewrite filter_none; [done|]. intros n Hn ->. by apply (Ht t nodes).
Qed.

Lemma inv_step s a : rrw_inv s -> allowed s a -> exists s', act self history s a = Some s' /\ rrw_inv s'.
Proof using Hh.
  intros Hi Ha. destruct a as [t tag|t|t|t tag|t]; cbn [allowed act] in *; unfold rrw_enter; cbn [negb].
  - destruct Ha as (Ht & Hw & Hwr & Hb). destruct (inv_enter_read s true t tag Hi Ht Hwr) as (r & -> & Hr & _); [by left|done|]. by eexists.
  - destruct Ha as (Ht & Hw & Hwr & Hst). destruct (inv_enter_write s true t Hi Ht Hwr) as (r & -> & Hr & _); [by left|done|]. by eexists.
  - destruct Ha as (w & Hw & Hk & Hb). pose proof (waiting_not_writer _ _ _ Hi Hw) as Hwr. destruct (iv_idle _ Hi _ _ Hw) as [Ht Hst].
    rewrite Hw. cbn [mbind option_bind]. destruct w as [[tag|] k]; cbn [w_want] in *.
    + destruct (inv_enter_read s false t tag Hi Ht Hwr) as (r & -> & Hr & _); [by right; eexists|done|]. by eexists.
    + destruct (inv_enter_write s false t Hi Ht Hwr) as (r & -> & Hr & _); [by right; eexists|by apply Hst|]. by eexists.
  - destruct Ha as (Hw & Ht & [Ew|[rest Hst]]).
    + destruct (inv_exit_write s t tag Hi Ht Ew) as (r & -> & Hr). by eexists.
    + destruct (inv_exit_read s t tag rest Hi Hst) as (r & -> & Hr). by eexists.
  - destruct Ha as [w Hw]. rewrite Hw. cbn [mbind option_bind]. eexists. split; [done|]. destruct Hi as [I1 I2 I3 I4 I5 I6 I7 I8].
    split; unfold must_wait, stack_of, nodes_of in *; cbn [sy_lock sy_tsd sy_wait sy_anon sy_linked] in *; try done.
    + intros Hne. destruct (I4 Hne) as (? & ? & Hn). rewrite lookup_insert_ne by congruence. done.
    + intros Hwd. destruct (I6 Hwd) as (u & w' & Hu & Hk). destruct (decide (u = t)) as [->|Hne].
      * eexists t, _. rewrite lookup_insert_eq. split; [done|]. cbn. congruence.
      * exists u, w'. by rewrite lookup_insert_ne.
    + intros u w' Hu Hk. destruct (decide (u = t)) as [->|Hne]; [rewrite lookup_insert_eq in Hu; by injection Hu as <-|].
      rewrite lookup_insert_ne in Hu by done. by apply I7.
    + intros u w' Hu. destruct (decide (u = t)) as [->|Hne]; [rewrite lookup_insert_eq in Hu; injection Hu as <-; by apply (I8 t w)|].
      rewrite lookup_insert_ne in Hu by done. by apply I8.
Qed.

Lemma reachable_inv s : reachable self history s -> rrw_inv s.
Proof using Hh.
  induction 1 as [tsd Ht|s a s' _ IH Ha Es]; [by apply inv_init|]. destruct (inv_step s a IH Ha) as (s1 & E & Hi). congruence.
Qed.
End invariant.

(** ** Theorems *)


(** C35: no lost wake-up, no deadlock of the lock itself.  In every reachable
    state a thread asleep in [cv_wait] would wait again if it ran; when nobody
    holds the lock no writer is asleep, and a reader is asleep only while a
    woken writer is on its way; and a thread that already reads is let in at
    once, writers waiting or not. *)
Theorem rrw_progress (self history : Z) (s : sys) (Hh : 0 <= history < 2 ^ 62) (Hr : reachable self history s)
    (Hb : Z.of_nat (length (sy_anon s)) + Z.of_nat (length (sy_linked s)) < 2 ^ 62) :
  (forall t w, sy_wait s !! t = Some w -> w_woken w = false ->
     exists rrl, rrw_enter self false (match w_want w with WantRead _ => false | WantWrite => true end) t (sy_lock s) (nodes_of s t)
       (match w_want w with WantRead tag => tag | WantWrite => 0 end) = Some (Waits rrl)) /\
  (rr_writer (sy_lock s) = 0 -> sy_anon s = [] -> sy_linked s = [] -> forall t w, sy_wait s !! t = Some w -> w_woken w = false ->
     exists u w', sy_wait s !! u = Some w' /\ w_want w' = WantWrite /\ w_woken w' = true) /\
  (forall t tag, t <> 0 -> sy_wait s !! t = None -> stack_of s t <> [] ->
     exists rrl nodes, rrw_enter self true false t (sy_lock s) (nodes_of s t) tag = Some (Enters rrl nodes)).
Proof.
  pose proof (reachable_inv self history Hh s Hr) as Hi. split; [|split].
  - intros t w Hw Hk. pose proof (iv_sleep _ _ _ Hi t w Hw Hk) as Hm. pose proof (waiting_not_writer _ _ _ _ _ Hi Hw) as Hwr.
    destruct (iv_idle _ _ _ Hi _ _ Hw) as [Ht Hst]. destruct w as [[tag|] k]; cbn [w_want] in *; unfold rrw_enter; cbn [negb].
    + destruct (inv_enter_read self history s false t tag Hi Ht Hwr) as (r & -> & _ & Hwait); [by right; eexists|done|].
      apply Hwait in Hm as [rrl ->]. by exists rrl.
    + destruct (inv_enter_write self history s false t Hi Ht Hwr) as (r & -> & _ & Hwait); [by right; eexists|by apply Hst|].
      apply Hwait in Hm as [rrl ->]. by exists rrl.
  - intros Ew Ea El t w Hw Hk. assert (forall u w', sy_wait s !! u = Some w' -> w_want w' = WantWrite -> w_woken w' = true) as Hwoken.
    { intros u w' Hu Hwant. destruct (w_woken w') eqn:E; [done|]. pose proof (iv_sleep _ _ _ Hi u w' Hu E) as Hm. rewrite Hwant in Hm.
      by destruct Hm as [?|[?|?]]. }
    pose proof (iv_sleep _ _ _ Hi t w Hw Hk) as Hm. destruct (w_want w) eqn:Ewant; [|rewrite (Hwoken t w Hw Ewant) in Hk; done].
    destruct Hm as [?|(Hwd & _)]; [done|]. destruct (iv_waiter _ _ _ Hi Hwd) as (u & w' & Hu & Hk'). exists u, w'. eauto.
  - intros t tag Ht Hw Hst. assert (rr_writer (sy_lock s) = 0) as Ew.
    { destruct (Z.eq_dec (rr_writer (sy_lock s)) 0) as [|Hne]; [done|]. destruct (iv_writer _ _ _ Hi Hne) as (Ea & El & _).
      unfold stack_of in Hst. by rewrite Ea, El in Hst. }
    destruct (inv_enter_read self history s true t tag Hi Ht) as (r & E & _ & Hwait); [congruence|by left|done|].
    unfold rrw_enter. cbn [negb]. rewrite E. destruct r as [rrl|rrl nodes]; [|by eexists _, _]. exfalso.
    destruct Hwait as [Hwait _]. destruct Hwait as [?|(_ & Ea & El)]; [by eexists|done|]. unfold stack_of in Hst. by rewrite Ea, El in Hst.
Qed.

(** A reader, a writer that waits for it, and the reader again. *)
Definition example_s0 : sys := sys_init ∅.
Definition example_s1 : sys := default example_s0 (act 64 4 example_s0 (EnterRead 1 7)).
Definition example_s2 : sys := default example_s1 (act 64 4 example_s1 (EnterWrite 2)).
Definition example_s3 : sys := default example_s2 (act 64 4 example_s2 (EnterRead 1 8)).

Lemma example_reachable : reachable 64 4 example_s3.
Proof.
  apply (reach_step 64 4 example_s2 (EnterRead 1 8)); [|by repeat split|vm_compute; reflexivity].
  apply (reach_step 64 4 example_s1 (EnterWrite 2)); [|by repeat split|vm_compute; reflexivity].
  apply (reach_step 64 4 example_s0 (EnterRead 1 7)); [|by repeat split|vm_compute; reflexivity].
  apply reach_init. intros t nodes E. by rewrite lookup_empty in E.
Qed.


Lemma rrw_progress_witness :
  sy_wait example_s3 !! 2 = Some (mk_waiter WantWrite false) /\
  exists rrl, rrw_enter 64 false true 2 (sy_lock example_s3) (nodes_of example_s3 2) 0 = Some (Waits rrl).
Proof.
  split; [vm_compute; reflexivity|].
  refine (proj1 (rrw_progress 64 4 example_s3 _ example_reachable _) 2 (mk_waiter WantWrite false) _ eq_refl); [lia|vm_compute; reflexivity|vm_compute; reflexivity].
Defined.

(** The reads must be left in the opposite order of entering: leaving the
    first one first takes its tag from the count of the second and panics. *)
Example rrw_exit_out_of_order : act 64 4 example_s3 (Exit 1 7) = None /\ is_Some (act 64 4 example_s3 (Exit 1 8)).
Proof. vm_compute. split; [reflexivity|]. by eexists. Qed.
