(* ===== verification/MetaslabFF.v ===== *)
(** * The first-fit block picker ([metaslab.c])

    The block picker of the metaslabs' free maps, a value of the operations
    vector of SpaceMap.  Its private data is an array of 64 cursors, one for
    each power of two that an allocation's size can be aligned to.  The
    theorem says what it finds: an aligned place inside one segment of the
    map, the lowest one when it searches from the beginning, and that it gives
    up only when there is none. *)
From Stdlib Require Import ZArith Lia.
From stdpp Require Import base numbers list option gmap.
From S2P Require Import Prelude AvlSpec SpaceMap SpaceMapProof SpaceMapSync SpaceMapLog.

(** ** Operations *)

(** [highbit] of [bitmap.c], on a 64-bit kernel. *)
Definition highbit_step (mask n : Z) (st : Z * Z) : Z * Z :=
  let '(h, i) := st in if negb (Z.land i mask =? 0) then (h + n, Z.shiftr i n) else (h, i).

Definition highbit (i : Z) : Z :=
  if i =? 0 then 0
  else fst (highbit_step 0x2 1 (highbit_step 0xc 2 (highbit_step 0xf0 4 (highbit_step 0xff00 8
         (highbit_step 0xffff0000 16 (highbit_step 0xffffffff00000000 32 (1, i))))))).

Section picker.
Context {T V : Type} `{HI : AvlIface T}.
Abbreviation space_map := (space_map T V).

(** [sm_ppd] is the empty list for [NULL]. *)
Definition metaslab_ff_load (sm : space_map) : option space_map :=
  VERIFY match sm_ppd sm with [] => true | _ => false end in
  Some (with_ppd sm (repeat 0 64)).

Definition metaslab_ff_unload (sm : space_map) : option space_map := Some (with_ppd sm []).

(** [while (ss != NULL)]: the first segment from [ss] on with room for [size]
    bytes at a multiple of [align], or -1. *)
Fixpoint ff_scan (k : nat) (sm : space_map) (align size ss : Z) : option Z :=
  match k with
  | O => None
  | S k =>
      if ss =? 0 then Some (-1)
      else
        let* s := sm_segs sm !! ss in
        let offset := P2ROUNDUP (ss_start s) align in
        if u64 (offset + size) <=? ss_end s then Some offset
        else let* ss := os_walk (sm_root sm) ss true in ff_scan k sm align size ss
  end.

(** The recursion goes at most once, with the cursor reset. *)
Fixpoint ff_alloc (k : nat) (sm : space_map) (size : Z) : option (space_map * Z) :=
  match k with
  | O => None
  | S k =>
      let align := Z.land size (u64 (- size)) in
      let i := highbit align - 1 in
      VERIFY 0 <=? i in
      let* cursor := sm_ppd sm !! Z.to_nat i in
      let* (ss, where_) := os_find (sm_root sm) (seg_compar (sm_segs sm) (mk_seg cursor (u64 (cursor + size)))) in
      let* ss := if ss =? 0 then os_nearest (sm_root sm) where_ true else Some ss in
      let* offset := ff_scan (nodes_fuel sm) sm align size ss in
      if negb (offset =? -1) then
        Some (with_ppd sm (<[Z.to_nat i := u64 (offset + size)]> (sm_ppd sm)), offset)
      else if cursor =? 0 then Some (sm, 2 ^ 64 - 1)
      else ff_alloc k (with_ppd sm (<[Z.to_nat i := 0]> (sm_ppd sm))) size
  end.

Definition metaslab_ff_alloc (sm : space_map) (size : Z) : option (space_map * Z) := ff_alloc 2 sm size.

Definition metaslab_ff_claim (sm : space_map) (start size : Z) : option space_map := Some sm.
Definition metaslab_ff_free (sm : space_map) (start size : Z) : option space_map := Some sm.

Definition metaslab_ff_ops : space_map_ops T V :=
  mk_ops _ _ metaslab_ff_load metaslab_ff_unload metaslab_ff_alloc metaslab_ff_claim metaslab_ff_free.
End picker.

(** ** Powers of two *)

Lemma highbit_pow2 k : 0 <= k < 64 -> highbit (2 ^ k) = k + 1.
Proof.
  intros Hk. assert (forallb (fun k => highbit (2 ^ Z.of_nat k) =? Z.of_nat k + 1) (seq 0 64) = true) as H by (vm_compute; reflexivity).
  rewrite forallb_forall in H. specialize (H (Z.to_nat k)). rewrite Z2Nat.id in H by lia.
  apply Z.eqb_eq, H. apply in_seq. lia.
Qed.

(** [size & -size] is the largest power of two that divides [size]. *)
Lemma odd_land_opp m : Z.land (2 * m + 1) (- (2 * m + 1)) = 1.
Proof.
  replace (- (2 * m + 1)) with (2 * Z.lnot m + 1) by (unfold Z.lnot; lia).
  apply Z.bits_inj'. intros i Hi. rewrite Z.land_spec. destruct (Z.eq_dec i 0) as [->|Hne].
  - by rewrite !Z.testbit_odd_0.
  - replace i with (Z.succ (i - 1)) by lia. rewrite !Z.testbit_odd_succ by lia. rewrite Z.lnot_spec by lia.
    change 1 with (2 * 0 + 1). rewrite Z.testbit_odd_succ, Z.testbit_0_l by lia. apply andb_negb_r.
Qed.

Lemma pos_pow2_odd p : exists k m, 0 <= k /\ 0 <= m /\ Zpos p = 2 ^ k * (2 * m + 1).
Proof.
  induction p as [p IH|p IH|].
  - exists 0, (Zpos p). lia.
  - destruct IH as (k & m & Hk & Hm & E). exists (k + 1), m. split; [lia|]. split; [lia|].
    rewrite Pos2Z.inj_xO, E, Z.pow_add_r by lia. lia.
  - exists 0, 0. lia.
Qed.

Lemma low_bit size : 0 < size < 2 ^ 64 ->
  exists k, 0 <= k < 64 /\ Z.land size (u64 (- size)) = 2 ^ k /\ size mod 2 ^ k = 0 /\
    forall j, 0 <= j -> size mod 2 ^ j = 0 -> j <= k.
Proof.
  intros Hs. destruct size as [|p|]; [lia| |lia]. destruct (pos_pow2_odd p) as (k & m & Hk & Hm & E). rewrite E in *. clear p E.
  assert (0 < 2 ^ k) by (apply Z.pow_pos_nonneg; lia).
  assert (k < 64) by (apply (Z.pow_lt_mono_r_iff 2); nia).
  exists k. split; [lia|]. split; [|split].
  - unfold u64. rewrite <-Z.land_ones, Z.land_assoc by lia.
    replace (- (2 ^ k * (2 * m + 1))) with ((- (2 * m + 1)) * 2 ^ k) by ring. rewrite (Z.mul_comm (2 ^ k)).
    rewrite <-!Z.shiftl_mul_pow2, <-Z.shiftl_land, odd_land_opp, Z.shiftl_1_l, Z.land_ones by lia.
    apply u64_pow2. lia.
  - rewrite Z.mul_comm. apply Z.mod_mul. lia.
  - intros j Hj Hdiv. destruct (Z.le_gt_cases j k) as [|Hgt]; [done|]. exfalso.
    apply Z.mod_divide in Hdiv as [q Hq]; [|apply Z.pow_nonzero; lia].
    replace j with (k + (1 + (j - k - 1))) in Hq by lia. rewrite !Z.pow_add_r in Hq by lia.
    assert (2 * m + 1 = 2 * (q * 2 ^ (j - k - 1))) by (apply (Z.mul_reg_l _ _ (2 ^ k)); [lia|]; rewrite Hq; ring). lia.
Qed.

(** ** What the picker finds *)

(** [o] is a multiple of [2 ^ k] with [size] bytes of one segment from it on. *)
Definition fits (L : list space_seg) (k size o : Z) : Prop :=
  o mod 2 ^ k = 0 /\ exists x, x ∈ L /\ ss_start x <= o /\ o + size <= ss_end x.

Lemma fits_app A B k size o : fits (A ++ B) k size o <-> fits A k size o \/ fits B k size o.
Proof. unfold fits. setoid_rewrite elem_of_app. naive_solver. Qed.

Lemma fits_covers lo L k size o : chain lo L -> 0 < size ->
  fits L k size o <-> o mod 2 ^ k = 0 /\ forall p, o <= p < o + size -> covers L p.
Proof.
  intros Hc Hs. unfold fits. split; intros [Hm H]; (split; [done|]).
  - destruct H as (x & Hx & H1 & H2). intros p Hp. apply Exists_exists. exists x. split; [done|lia].
  - apply (covers_interval lo L o (o + size)); [done|lia|done].
Qed.

Section proofs.
Context {T V : Type} `{HI : AvlIface T} {cap : nat} {HL : AvlLaws T cap} (zfs_recover : bool).
Abbreviation space_map := (space_map T V).
Implicit Type sm : space_map.

Lemma roundup_fit k s e size : 0 <= k < 64 -> 0 <= s < e -> e + 2 ^ k + size <= 2 ^ 64 -> 0 < size ->
  exists o, P2ROUNDUP s (2 ^ k) = o /\ u64 (o + size) = o + size /\ o mod 2 ^ k = 0 /\ s <= o < s + 2 ^ k /\
    forall o', o' mod 2 ^ k = 0 -> s <= o' -> o <= o'.
Proof.
  intros Hk Hs He Hsize. assert (0 < 2 ^ k) as Hp by (apply Z.pow_pos_nonneg; lia).
  pose proof (Z.mod_pos_bound (- s) (2 ^ k) Hp) as Hb. exists (s + (- s) mod 2 ^ k).
  split; [apply P2ROUNDUP_spec; lia|]. split; [apply u64_small; unfold is_u64; lia|].
  assert ((s + (- s) mod 2 ^ k) mod 2 ^ k = 0) as Hal.
  { rewrite Zplus_mod_idemp_r. replace (s + - s) with 0 by lia. by rewrite Zmod_0_l. }
  split; [done|]. split; [lia|]. intros o' Ho' Hso'.
  apply Z.mod_divide in Ho' as [q' Hq']; [|lia]. apply Z.mod_divide in Hal as [q Hq]; [|lia].
  rewrite Hq in *. assert (q < q' + 1); [|nia]. apply (Z.mul_lt_mono_pos_r (2 ^ k)); lia.
Qed.

Lemma ff_scan_spec sm L k size : sm_wf (cap := cap) sm L -> 0 <= k < 64 -> 2 ^ k <= size ->
  sm_start sm + sm_size sm + 2 * size <= 2 ^ 64 -> forall l2 L2 l1 L1 n,
  os_abs (sm_root sm) (l1 ++ l2) -> L = L1 ++ L2 -> Forall2 (seg_at (sm_segs sm)) l2 L2 -> (length L2 < n)%nat ->
  exists r, ff_scan n sm (2 ^ k) size (hd 0 l2) = Some r /\
    ((r = -1 /\ forall o, ~ fits L2 k size o) \/ (fits L2 k size r /\ forall o, fits L2 k size o -> r <= o)).
Proof using HL.
  intros Hwf Hk Hks Hmax. assert (0 < 2 ^ k) by (apply Z.pow_pos_nonneg; lia).
  induction l2 as [|a l2 IH]; intros L2 l1 L1 n Habs EL HF Hn; (destruct n as [|n]; [lia|]).
  { apply Forall2_nil_inv_l in HF as ->. exists (-1). split; [done|]. left. split; [done|]. intros o (_ & x & ?%elem_of_nil & _). done. }
  apply Forall2_cons_inv_l in HF as (x & L2' & Hx & HF & ->). cbn [ff_scan hd].
  destruct (abs_objects _ _ Habs) as [_ Hnz].
  rewrite (proj2 (Z.eqb_neq _ _)) by (apply Hnz; rewrite elem_of_app, elem_of_cons; tauto).
  rewrite (Hx : sm_segs sm !! a = Some x). cbn [mbind option_bind].
  destruct (sf_geom _ _ Hwf) as [G1 G2 G3 _ _]. destruct (sf_segs _ _ Hwf) as [Hc Hlast _].
  assert (x ∈ L) as HxL by (subst L; rewrite elem_of_app, elem_of_cons; tauto).
  destruct (chain_bounds _ _ _ Hc HxL) as [Hb1 Hb2].
  destruct (roundup_fit k (ss_start x) (ss_end x) size) as (o & -> & -> & Hal & Ho & Hleast); [done|lia|lia|lia|].
  destruct (Z.leb_spec (o + size) (ss_end x)) as [Hfit|Hno].
  - exists o. split; [done|]. right. split.
    + split; [done|]. exists x. split; [by left|]. lia.
    + intros o' (Hal' & y & [->|Hy]%elem_of_cons & Hy1 & Hy2); [by apply Hleast|].
      subst L. apply chain_app in Hc as [_ [_ Hc2]]. destruct (chain_bounds _ _ _ Hc2 Hy). lia.
  - rewrite (proj1 (walk_law _ _ _ _ Habs)). cbn [mbind option_bind].
    assert (forall o', fits (x :: L2') k size o' <-> fits L2' k size o') as Hiff.
    { intros o'. change (x :: L2') with ([x] ++ L2'). rewrite fits_app. split; [|by right]. intros [(Hal' & y & ->%list_elem_of_singleton & Hy1 & Hy2)|?]; [|done].
      specialize (Hleast _ Hal' Hy1). lia. }
    destruct (IH L2' (l1 ++ [a]) (L1 ++ [x]) n) as (r & E & Hr); [by rewrite <-app_assoc|by rewrite <-app_assoc|done|cbn in Hn; lia|].
    exists r. split; [done|]. setoid_rewrite Hiff. done.
Qed.

(** Where a search from cursor [c] begins.  Segments before it are below the
    cursor, or meet the [size] bytes from it on. *)
Lemma ff_start sm L c size : sm_wf (cap := cap) sm L -> 0 <= c -> 0 < size ->
  exists ss w la lb A B,
    os_find (sm_root sm) (seg_compar (sm_segs sm) (mk_seg c (c + size))) = Some (ss, w) /\
    (if ss =? 0 then os_nearest (sm_root sm) w true else Some ss) = Some (hd 0 lb) /\
    os_abs (sm_root sm) (la ++ lb) /\ L = A ++ B /\ Forall2 (seg_at (sm_segs sm)) lb B /\ forall x, x ∈ A -> ss_end x < c + size.
Proof using HL.
  intros [Hg (l & Habs & Hl) [Hc _ _] _] Hc0 Hsize.
  destruct (find_segs sm L l c (c + size) Habs Hl Hc ltac:(lia)) as
    [(a & w & la & lb & A & x & B & E & Ha & -> & -> & HA & HB & Hx & H1 & H2)|(w & la & lb & A & B & E & Hhole & -> & -> & HA & HB & H1 & H2)].
  - exists a, w, la, (a :: lb), A, (x :: B). rewrite (proj2 (Z.eqb_neq _ _)) by done. repeat (split; [done|]). split; [by constructor|].
    intros y Hy. apply chain_app in Hc as [HcA [Hx' _]]. destruct (chain_bounds _ _ _ HcA Hy). lia.
  - exists 0, w, la, lb, A, B. cbn [Z.eqb]. split; [done|]. split; [apply (nearest_law _ _ _ _ Hhole)|]. repeat (split; [done|]).
    intros y Hy. specialize (H1 y Hy). lia.
Qed.

(** The picker's private data: a cursor for each alignment, within the map. *)
Definition cursors_ok sm : Prop :=
  length (sm_ppd sm) = 64%nat /\ Forall (fun c => 0 <= c <= sm_start sm + sm_size sm) (sm_ppd sm).

Lemma cursors_set sm i c : cursors_ok sm -> 0 <= c <= sm_start sm + sm_size sm -> cursors_ok (with_ppd sm (<[i := c]> (sm_ppd sm))).
Proof using. intros [H1 H2] Hc. split; cbn; [by rewrite length_insert|]. by apply Forall_insert. Qed.

(** One search from the cursor [c] of the size's alignment. *)
Definition ff_cursor sm (k : Z) : Z := default 0 (sm_ppd sm !! Z.to_nat k).

Record ff_found sm sm' (L : list space_seg) (k size r : Z) : Prop := {
  ff_same : sm' = with_ppd sm (sm_ppd sm');
  ff_cursors : cursors_ok sm';
  ff_place : fits L k size r;
  ff_first : ff_cursor sm k = 0 -> forall o, fits L k size o -> r <= o
}.

Lemma ff_alloc_step n sm L k size : sm_wf (cap := cap) sm L -> cursors_ok sm -> 0 < size < 2 ^ 64 -> 0 <= k < 64 ->
  Z.land size (u64 (- size)) = 2 ^ k -> 2 ^ k <= size -> sm_start sm + sm_size sm + 2 * size <= 2 ^ 64 ->
  (exists sm' r, ff_alloc (S n) sm size = Some (sm', r) /\ ff_found sm sm' L k size r) \/
  (ff_cursor sm k = 0 /\ ff_alloc (S n) sm size = Some (sm, 2 ^ 64 - 1) /\ forall o, ~ fits L k size o) \/
  (ff_cursor sm k <> 0 /\ ff_alloc (S n) sm size = ff_alloc n (with_ppd sm (<[Z.to_nat k := 0]> (sm_ppd sm))) size).
Proof using HL.
  intros Hwf Hcur Hsize Hk Hland Hks Hmax. cbn [ff_alloc]. rewrite Hland, highbit_pow2 by done. replace (k + 1 - 1) with k by lia.
  rewrite (proj2 (Z.leb_le 0 k)) by lia. destruct Hcur as [Hlen Hall]. pose proof (sf_geom _ _ Hwf) as [G1 G2 G3 _ _].
  destruct (lookup_lt_is_Some_2 (sm_ppd sm) (Z.to_nat k)) as [c Ec]; [lia|].
  unfold ff_cursor. rewrite Ec. cbn [mbind option_bind default]. pose proof (proj1 (Forall_lookup _ _) Hall _ _ Ec) as Hc. cbn in Hc.
  rewrite (u64_small (c + size)) by (unfold is_u64; lia).
  destruct (ff_start sm L c size Hwf ltac:(lia) ltac:(lia)) as (ss & w & la & lb & A & B & -> & E2 & Habs & EL & HB & HA).
  cbn [mbind option_bind]. rewrite E2. cbn [mbind option_bind].
  destruct (ff_scan_spec sm L k size Hwf Hk Hks Hmax lb B la A (nodes_fuel sm) Habs EL HB) as (r & -> & Hr).
  { destruct (sf_rep _ _ Hwf) as (l' & Habs' & Hl'). rewrite (num_segs _ _ _ Habs' Hl'), EL, length_app. lia. }
  cbn [mbind option_bind]. destruct (sf_segs _ _ Hwf) as [Hch Hlast _].
  assert (c = 0 -> forall o, fits L k size o -> fits B k size o) as HfB.
  { intros -> o. rewrite EL, fits_app. intros [(_ & x & Hx & Hx1 & Hx2)|?]; [|done]. exfalso. specialize (HA x Hx).
    assert (x ∈ L) as HxL by (rewrite EL, elem_of_app; tauto). destruct (chain_bounds _ _ _ Hch HxL). lia. }
  destruct Hr as [(-> & Hnone)|(Hfit & Hleast)].
  - cbn [Z.eqb Pos.eqb negb]. destruct (Z.eqb_spec c 0) as [E0|Hne]; [|right; right; done]. right. left. split; [done|]. split; [done|].
    intros o Ho. by apply (Hnone o), HfB.
  - left. pose proof Hfit as (_ & x & Hx & Hx1 & Hx2). assert (x ∈ L) as HxL by (rewrite EL, elem_of_app; tauto).
    destruct (chain_bounds _ _ _ Hch HxL). rewrite (proj2 (Z.eqb_neq r (-1))) by lia. cbn [negb].
    eexists _, r. split; [done|]. split; [done| | |].
    + apply cursors_set; [done|]. rewrite u64_small by (unfold is_u64; lia). lia.
    + rewrite EL, fits_app. by right.
    + unfold ff_cursor. rewrite Ec. intros E0 o Ho. by apply Hleast, HfB.
Qed.

(** The picker on a map: a place in the map, or none when there is none. *)
Lemma ff_alloc_spec sm L size : sm_wf (cap := cap) sm L -> cursors_ok sm -> 0 < size < 2 ^ 64 ->
  sm_start sm + sm_size sm + 2 * size <= 2 ^ 64 ->
  exists k sm' r, metaslab_ff_alloc sm size = Some (sm', r) /\ 0 <= k < 64 /\ size mod 2 ^ k = 0 /\
    (forall j, 0 <= j -> size mod 2 ^ j = 0 -> j <= k) /\ sm' = with_ppd sm (sm_ppd sm') /\ cursors_ok sm' /\
    ((r = 2 ^ 64 - 1 /\ forall o, ~ fits L k size o) \/
     (fits L k size r /\ (ff_cursor sm k = 0 -> forall o, fits L k size o -> r <= o))).
Proof using HL.
  intros Hwf Hcur Hsize Hmax. destruct (low_bit size Hsize) as (k & Hk & Hland & Hdiv & Hbig).
  assert (0 < 2 ^ k) as Hp by (apply Z.pow_pos_nonneg; lia).
  assert (2 ^ k <= size) as Hks by (apply Z.divide_pos_le; [lia|]; apply Z.mod_divide; lia).
  unfold metaslab_ff_alloc. exists k.
  assert (sm = with_ppd sm (sm_ppd sm)) as Hself by (by destruct sm).
  destruct (ff_alloc_step 1 sm L k size Hwf Hcur Hsize Hk Hland Hks Hmax) as [(sm' & r & E & [F1 F2 F3 F4])|[(_ & E & Hno)|(_ & E)]].
  - exists sm', r. repeat (split; [done|]). by right.
  - exists sm, (2 ^ 64 - 1). repeat (split; [done|]). by left.
  - rewrite E. clear E. pose proof (sf_geom _ _ Hwf) as [G1 G2 _ _ _]. set (sm0 := with_ppd sm (<[Z.to_nat k := 0]> (sm_ppd sm))).
    assert (ff_cursor sm0 k = 0) as E0.
    { unfold ff_cursor, sm0. cbn. rewrite list_lookup_insert_eq; [done|]. rewrite (proj1 Hcur). lia. }
    destruct (ff_alloc_step 0 sm0 L k size) as [(sm' & r & E & [F1 F2 F3 F4])|[(_ & E & Hno)|(Hne & _)]]; try done.
    + by destruct Hwf as [[] ? [] ?].
    + apply cursors_set; [done|lia].
    + exists sm', r. split; [done|]. repeat (split; [done|]). right. split; [done|]. intros _. by apply F4.
    + exists sm0, (2 ^ 64 - 1). split; [done|]. repeat (split; [done|]). split; [apply cursors_set; [done|lia]|]. by left.
Qed.

(** ** The operations of a map with this picker *)

(** The vector of every map that has one. *)
Definition ff_vec (_ : V) : space_map_ops T V := metaslab_ff_ops.

(** What the operations on a loaded map keep besides its geometry. *)
Definition same_picker sm sm' : Prop :=
  same_geom sm sm' /\ sm_loaded sm' = sm_loaded sm /\ sm_loading sm' = sm_loading sm /\ sm_ops sm' = sm_ops sm.

Lemma same_picker_trans sm1 sm2 sm3 : same_picker sm1 sm2 -> same_picker sm2 sm3 -> same_picker sm1 sm3.
Proof using. unfold same_picker, same_geom. intuition congruence. Qed.
Lemma same_map_picker sm sm' : same_map sm sm' -> same_picker sm sm'.
Proof using. unfold same_map, same_picker, same_geom. tauto. Qed.
Lemma cursors_same sm sm' : same_map sm sm' -> cursors_ok sm -> cursors_ok sm'.
Proof using. intros (E1 & E2 & _ & _ & _ & _ & E7). unfold cursors_ok. by rewrite E1, E2, E7. Qed.

Lemma ff_load_ok (ops : V) : load_ops_ok ff_vec (Some ops) (repeat 0 64).
Proof using. intros sm E. cbn. unfold metaslab_ff_load. by rewrite E. Qed.

Lemma cursors_fresh sm : 0 <= sm_start sm + sm_size sm -> sm_ppd sm = repeat 0 64 -> cursors_ok sm.
Proof using. intros H E. split; rewrite E; [done|]. apply Forall_forall. intros c ->%list_elem_of_In%repeat_spec. lia. Qed.

Lemma alloc_spec sm L size v : sm_wf (cap := cap) sm L -> cursors_ok sm -> sm_ops sm = Some v ->
  0 < size < 2 ^ 64 -> size mod 2 ^ sm_shift sm = 0 -> sm_start sm + sm_size sm + 2 * size <= 2 ^ 64 ->
  exists sm' r k, space_map_alloc zfs_recover ff_vec sm size = Some (sm', r) /\ cursors_ok sm' /\ same_picker sm sm' /\
    0 <= k /\ size mod 2 ^ k = 0 /\ (forall j, 0 <= j -> size mod 2 ^ j = 0 -> j <= k) /\
    ((r = 2 ^ 64 - 1 /\ sm_wf (cap := cap) sm' L /\ forall o, ~ fits L k size o) \/
     (r <> 2 ^ 64 - 1 /\ fits L k size r /\ range_ok sm r size /\ (ff_cursor sm k = 0 -> forall o, fits L k size o -> r <= o) /\
      exists L', sm_wf (cap := cap) sm' L' /\ forall o, covers L' o <-> covers L o /\ ~ (r <= o < r + size))).
Proof using HL.
  intros Hwf Hcur Hops Hsize Hal Hmax. unfold space_map_alloc. rewrite Hops. cbn [mbind option_bind smop_alloc ff_vec metaslab_ff_ops].
  destruct (ff_alloc_spec sm L size Hwf Hcur Hsize Hmax) as (k & sm1 & r & -> & Hk & Hdiv & Hbig & E1 & Hcur1 & Hr).
  cbn [mbind option_bind]. assert (sm_wf (cap := cap) sm1 L) as Hwf1 by (rewrite E1; by apply sm_wf_ppd).
  assert (same_picker sm sm1) as Hsame by (by rewrite E1).
  destruct Hr as [[-> Hno]|[Hfit Hfirst]].
  { rewrite Z.eqb_refl. cbn [negb]. exists sm1, (2 ^ 64 - 1), k. split; [done|]. do 4 (split; [done || lia|]). split; [done|]. by left. }
  pose proof (sf_geom _ _ Hwf) as [G1 G2 G3 G4 _]. pose proof (sf_segs _ _ Hwf) as [Hc Hlast _].
  assert (range_ok sm r size) as Hr.
  { destruct Hfit as (Hrk & x & Hx & Hx1 & Hx2). destruct (chain_bounds _ _ _ Hc Hx). split; [lia|lia|lia| |done].
    specialize (Hbig _ (proj1 G4) Hal). apply Z.mod_divide; [apply Z.pow_nonzero; lia|].
    apply (Z.divide_trans _ (2 ^ k)); [|apply Z.mod_divide; [apply Z.pow_nonzero; lia|done]].
    exists (2 ^ (k - sm_shift sm)). rewrite <-Z.pow_add_r by lia. f_equal. lia. }
  assert (r <> 2 ^ 64 - 1) as Hne by (destruct Hr; lia).
  rewrite (proj2 (Z.eqb_neq r (2 ^ 64 - 1))) by done. cbn [negb].
  destruct (remove_spec zfs_recover sm1 L r size Hwf1) as (sm2 & L2 & -> & Hwf2 & Hcov & Hsame2 & _ & _).
  { rewrite E1. by destruct Hr; split. }
  { intros o Ho. by apply (proj1 (fits_covers _ L k size r Hc ltac:(lia)) Hfit). }
  cbn [mbind option_bind]. exists sm2, r, k. split; [done|]. split; [by eapply cursors_same|].
  split; [eapply same_picker_trans; [exact Hsame|by apply same_map_picker]|]. do 3 (split; [done || lia|]). right. do 4 (split; [done|]). by exists L2.
Qed.

Lemma claim_spec sm L s size v : sm_wf (cap := cap) sm L -> sm_ops sm = Some v -> range_ok sm s size ->
  (forall o, s <= o < s + size -> covers L o) ->
  exists sm' L', space_map_claim zfs_recover ff_vec sm s size = Some sm' /\ sm_wf (cap := cap) sm' L' /\ same_map sm sm' /\
    forall o, covers L' o <-> covers L o /\ ~ (s <= o < s + size).
Proof using HL.
  intros Hwf Hops Hr Hin. unfold space_map_claim. rewrite Hops. cbn [mbind option_bind smop_claim ff_vec metaslab_ff_ops metaslab_ff_claim].
  destruct (remove_spec zfs_recover sm L s size Hwf Hr Hin) as (sm' & L' & E & Hwf' & Hcov & Hsame & _). by exists sm', L'.
Qed.

Lemma free_spec sm L s size v : sm_wf (cap := cap) sm L -> sm_ops sm = Some v -> range_ok sm s size ->
  (forall o, s <= o < s + size -> ~ covers L o) ->
  exists sm' L', space_map_free zfs_recover ff_vec sm s size = Some sm' /\ sm_wf (cap := cap) sm' L' /\ same_map sm sm' /\
    forall o, covers L' o <-> covers L o \/ s <= o < s + size.
Proof using HL.
  intros Hwf Hops Hr Hout. unfold space_map_free.
  destruct (add_spec zfs_recover sm L s size Hwf Hr Hout) as (sm' & L' & -> & Hwf' & Hcov & Hsame & _).
  cbn [mbind option_bind]. pose proof Hsame as (_ & _ & _ & _ & _ & -> & _). rewrite Hops.
  cbn [mbind option_bind smop_free ff_vec metaslab_ff_ops metaslab_ff_free]. by exists sm', L'.
Qed.

Lemma vacate_all sm L : sm_wf (cap := cap) sm L ->
  exists sm', space_map_vacate (fun (d : unit) _ _ => Some d) sm tt = Some (sm', tt) /\ sm_wf (cap := cap) sm' [] /\ same_map sm sm'.
Proof using HL.
  intros Hwf. destruct (vacate_spec sm L Hwf) as (sm' & L' & _ & Hwf' & Hsame & Hv). exists sm'. rewrite Hv. split; [|done].
  assert (forall l (d : unit), foldM (on_seg (fun d _ _ => Some d)) d l = Some d) as ->; [|done].
  induction l as [|x l IHl]; intros d; [done|]. cbn. apply IHl.
Qed.

Lemma unload_spec sm L : sm_wf (cap := cap) sm L -> sm_loaded sm = true -> sm_ops sm <> None ->
  exists sm', space_map_unload ff_vec sm = Some sm' /\ sm_wf (cap := cap) sm' [] /\ same_geom sm sm' /\
    sm_loaded sm' = false /\ sm_loading sm' = sm_loading sm /\ sm_ops sm' = None /\ sm_ppd sm' = [].
Proof using HL.
  intros Hwf Hld Hops. unfold space_map_unload. destruct (sm_ops sm) as [v|] eqn:E; [|done]. rewrite Hld.
  cbn [mbind option_bind smop_unload ff_vec metaslab_ff_ops metaslab_ff_unload].
  set (sm1 := with_load _ _ _ _). destruct (vacate_all sm1 L) as (sm' & -> & Hwf' & (E1 & E2 & E3 & E4 & E5 & E6 & E7)).
  { by apply sm_wf_load, sm_wf_ppd. }
  cbn [mbind option_bind]. by exists sm'.
Qed.
End proofs.
