(* ===== verification/Metaslab.v ===== *)
(** * Metaslabs ([metaslab.c])

    A metaslab is a region of a top-level vdev.  Its free space is [ms_map],
    loaded from a log in an object of the DMU; what each of the transaction
    groups in flight allocates and frees is in [ms_allocmap] and [ms_freemap]
    until it is synced.  The metaslabs of a vdev form a group, sorted by
    weight in an AVL tree.  This file holds the data and the operations. *)
From Stdlib Require Import ZArith Lia.
From stdpp Require Import base numbers list option gmap.
From S2P Require Import Prelude AvlSpec SpaceMap SpaceMapSync TxgList MetaslabFF Blkptr.

(** ** The DMU as metaslabs use it *)

(** [dmu_object_alloc] returns a new object; [dmu_bonus_hold] an error number;
    [dmu_bonus_write] copies a descriptor into the bonus buffer held. *)
Class MosStore (D : Type) := {
  dmu_object_alloc : D -> Z * D;
  dmu_bonus_hold : D -> Z -> Z;
  dmu_bonus_write : D -> Z -> space_map_obj -> D
}.

(** ** Data *)

(** The map's vector of operations, when it has one, is that of the first-fit
    picker: [metaslab_ff_ops] is the only vector there is. *)
Abbreviation ms_space_map T := (space_map T unit).

Record metaslab {T : Type} := mk_ms {
  ms_smo : space_map_obj;                  (* synced space map object *)
  ms_smo_syncing : space_map_obj;          (* syncing space map object *)
  ms_allocmap : list (ms_space_map T);     (* allocated this txg *)
  ms_freemap : list (ms_space_map T);      (* freed this txg *)
  ms_map : ms_space_map T;                 (* in-core free space map *)
  ms_weight : Z;                           (* weight vs. others in group *)
  ms_group : bool                          (* in the metaslab group *)
}.
Arguments metaslab : clear implicits.
Arguments mk_ms {T}.

Record vdev_stat := mk_vs { vs_space : Z; vs_alloc : Z; vs_dspace : Z }.

(** A top-level vdev, with its address; [vdev_normal] when its group is of
    the normal class. *)
Record vdev := mk_vdev {
  vdev_self : Z;
  vdev_id : Z;
  vdev_ashift : Z;
  vdev_stats : vdev_stat;
  vdev_ms_array : Z;
  vdev_ms_shift : Z;
  vdev_ms_count : Z;
  vdev_ms : list Z;
  vdev_ms_list : txg_list;
  vdev_deflate_ratio : Z;
  vdev_normal : bool
}.

(** A group with its vdev and its metaslabs, by address. *)
Record group {T TG : Type} := mk_mg {
  mg_metaslab_tree : TG;
  mg_ms : gmap Z (metaslab T);
  mg_vd : vdev
}.
Arguments group : clear implicits.
Arguments mk_mg {T TG}.

(** A group, and what it shares with the rest of the pool: the statistics of
    the root vdev, the list of dirty vdevs and the DMU. *)
Record context {T TG D : Type} := mk_cx {
  cx_mg : group T TG;
  cx_root : vdev_stat;
  cx_vdev_list : txg_list;
  cx_mos : D
}.
Arguments context : clear implicits.
Arguments mk_cx {T TG D}.

Definition METASLAB_WEIGHT_PRIMARY : Z := 2 ^ 63.
Definition METASLAB_WEIGHT_SECONDARY : Z := 2 ^ 62.
Definition METASLAB_ACTIVE_MASK : Z := Z.lor METASLAB_WEIGHT_PRIMARY METASLAB_WEIGHT_SECONDARY.
Definition METASLAB_SMO_BONUS_MULTIPLIER : Z := 2.

Definition metaslab_compare {T} (m1 m2 : metaslab T) : Z :=
  if ms_weight m1 <? ms_weight m2 then 1
  else if ms_weight m2 <? ms_weight m1 then -1
  else if sm_start (ms_map m1) <? sm_start (ms_map m2) then -1
  else if sm_start (ms_map m2) <? sm_start (ms_map m1) then 1
  else 0.

Section metaslab.
Context {T TG D : Type} `{HIT : AvlIface T} `{HIG : AvlIface TG} `{HD : ObjectStore D} `{HM : MosStore D}.
Context (zfs_recover : bool) (new_root : T).
Abbreviation metaslab := (metaslab T).
Abbreviation group := (group T TG).
Abbreviation context := (context T TG D).
Abbreviation space_map := (ms_space_map T).

(** Assignments. *)
Definition with_smo (ms : metaslab) (smo : space_map_obj) : metaslab :=
  mk_ms smo (ms_smo_syncing ms) (ms_allocmap ms) (ms_freemap ms) (ms_map ms) (ms_weight ms) (ms_group ms).
Definition with_maps (ms : metaslab) (allocmap freemap : list space_map) : metaslab :=
  mk_ms (ms_smo ms) (ms_smo_syncing ms) allocmap freemap (ms_map ms) (ms_weight ms) (ms_group ms).
Definition with_syncing (ms : metaslab) (smo : space_map_obj) : metaslab :=
  mk_ms (ms_smo ms) smo (ms_allocmap ms) (ms_freemap ms) (ms_map ms) (ms_weight ms) (ms_group ms).
Definition with_map (ms : metaslab) (sm : space_map) : metaslab :=
  mk_ms (ms_smo ms) (ms_smo_syncing ms) (ms_allocmap ms) (ms_freemap ms) sm (ms_weight ms) (ms_group ms).
Definition with_weight (ms : metaslab) (weight : Z) (grp : bool) : metaslab :=
  mk_ms (ms_smo ms) (ms_smo_syncing ms) (ms_allocmap ms) (ms_freemap ms) (ms_map ms) weight grp.
Definition set_ms (mg : group) (msp : Z) (ms : metaslab) : group := mk_mg (mg_metaslab_tree mg) (<[msp := ms]> (mg_ms mg)) (mg_vd mg).
Definition mg_with_tree (mg : group) (tree : TG) : group := mk_mg tree (mg_ms mg) (mg_vd mg).
Definition with_vd (mg : group) (vd : vdev) : group := mk_mg (mg_metaslab_tree mg) (mg_ms mg) vd.
Definition with_mg (cx : context) (mg : group) : context := mk_cx mg (cx_root cx) (cx_vdev_list cx) (cx_mos cx).

(** ** Groups *)

(** The comparison of [ms] with an object of the tree. *)
Definition ms_compar (mg : group) (ms : metaslab) (a : Z) : Z :=
  match mg_ms mg !! a with Some m => metaslab_compare ms m | None => 2 end.

(** [avl_add(&mg->mg_metaslab_tree, msp)]. *)
Definition group_avl_add (mg : group) (msp : Z) : option group :=
  let* ms := mg_ms mg !! msp in
  let* (found, where_) := os_find (mg_metaslab_tree mg) (ms_compar mg ms) in
  VERIFY found =? 0 in
  let* tree := os_insert (mg_metaslab_tree mg) msp where_ in Some (mg_with_tree mg tree).

Definition metaslab_group_add (mg : group) (msp : Z) : option group :=
  let* ms := mg_ms mg !! msp in
  VERIFY negb (ms_group ms) in
  group_avl_add (set_ms mg msp (with_weight ms 0 true)) msp.

Definition metaslab_group_remove (mg : group) (msp : Z) : option group :=
  let* ms := mg_ms mg !! msp in
  VERIFY ms_group ms in
  let* tree := os_remove (mg_metaslab_tree mg) msp in
  Some (set_ms (mg_with_tree mg tree) msp (with_weight ms (ms_weight ms) false)).

Definition metaslab_group_sort (mg : group) (msp weight : Z) : option group :=
  VERIFY (SPA_MINBLOCKSIZE - 1 <=? weight) || (weight =? 0) in
  let* ms := mg_ms mg !! msp in
  VERIFY ms_group ms in
  let* tree := os_remove (mg_metaslab_tree mg) msp in
  group_avl_add (set_ms (mg_with_tree mg tree) msp (with_weight ms weight (ms_group ms))) msp.

(** ** Weights *)

Definition metaslab_weight (vd : vdev) (ms : metaslab) : option Z :=
  let sm := ms_map ms in
  let smo := ms_smo ms in
  let space := u64 (sm_size sm - smo_alloc smo) in
  let weight := space in
  VERIFY negb (vdev_ms_count vd =? 0) in
  let weight := u64 (u64 (2 * weight) - u64 (Z.shiftr (sm_start sm) (vdev_ms_shift vd) * weight) / vdev_ms_count vd) in
  VERIFY (space <=? weight) && (weight <=? u64 (2 * space)) in
  let weight := if negb (smo_object smo =? 0) then u64 (weight * METASLAB_SMO_BONUS_MULTIPLIER) else weight in
  VERIFY (space <=? weight) && (weight <=? u64 (2 * METASLAB_SMO_BONUS_MULTIPLIER * space)) in
  Some (Z.lor weight (Z.land (ms_weight ms) METASLAB_ACTIVE_MASK)).

Definition is_active (ms : metaslab) : bool := negb (Z.land (ms_weight ms) METASLAB_ACTIVE_MASK =? 0).

(** [space_map_load(sm, &metaslab_ff_ops, SM_FREE, &msp->ms_smo, ...)]; the
    second component is the error, or 0. *)
Definition ms_load (ms : metaslab) (mos : D) : option (metaslab * Z) :=
  let* (sm, error) := space_map_load zfs_recover ff_vec (ms_map ms) (Some tt) SM_FREE (ms_smo ms) mos in Some (with_map ms sm, error).

Definition metaslab_activate (mg : group) (mos : D) (msp activation_weight : Z) : option (group * Z) :=
  let* ms := mg_ms mg !! msp in
  let* (mg, error) :=
    if negb (is_active ms) then
      let* (ms, error) := ms_load ms mos in
      let mg := set_ms mg msp ms in
      if negb (error =? 0) then let* mg := metaslab_group_sort mg msp 0 in Some (mg, error)
      else let* mg := metaslab_group_sort mg msp (Z.lor (ms_weight ms) activation_weight) in Some (mg, 0)
    else Some (mg, 0) in
  if negb (error =? 0) then Some (mg, error)
  else
    let* ms := mg_ms mg !! msp in
    VERIFY sm_loaded (ms_map ms) in
    VERIFY is_active ms in Some (mg, 0).

Definition metaslab_passivate (mg : group) (msp size : Z) : option group :=
  let* ms := mg_ms mg !! msp in
  VERIFY (SPA_MINBLOCKSIZE <=? size) || (sm_space (ms_map ms) =? 0) in
  let* mg := metaslab_group_sort mg msp (Z.min (ms_weight ms) size) in
  let* ms := mg_ms mg !! msp in
  VERIFY negb (is_active ms) in Some mg.

(** ** The vdev ([vdev.c]) *)

(** The [space_delta] and [alloc_delta] are signed. *)
Definition stat_update (vs : vdev_stat) (space_delta alloc_delta dspace_delta : Z) : vdev_stat :=
  mk_vs (u64 (vs_space vs + space_delta)) (u64 (vs_alloc vs + alloc_delta)) (u64 (vs_dspace vs + dspace_delta)).
Definition with_stats (vd : vdev) (vs : vdev_stat) : vdev :=
  mk_vdev (vdev_self vd) (vdev_id vd) (vdev_ashift vd) vs (vdev_ms_array vd) (vdev_ms_shift vd) (vdev_ms_count vd) (vdev_ms vd) (vdev_ms_list vd)
    (vdev_deflate_ratio vd) (vdev_normal vd).
Definition with_ms_list (vd : vdev) (tl : txg_list) : vdev :=
  mk_vdev (vdev_self vd) (vdev_id vd) (vdev_ashift vd) (vdev_stats vd) (vdev_ms_array vd) (vdev_ms_shift vd) (vdev_ms_count vd) (vdev_ms vd) tl
    (vdev_deflate_ratio vd) (vdev_normal vd).

Definition vdev_space_update (cx : context) (space_delta alloc_delta : Z) (update_root : bool) : option context :=
  let vd := mg_vd (cx_mg cx) in
  VERIFY Z.land space_delta (SPA_MINBLOCKSIZE - 1) =? 0 in
  let dspace_delta := Z.shiftr space_delta SPA_MINBLOCKSHIFT * vdev_deflate_ratio vd in
  let cx := with_mg cx (with_vd (cx_mg cx) (with_stats vd (stat_update (vdev_stats vd) space_delta alloc_delta dspace_delta))) in
  if update_root then
    VERIFY negb (vdev_ms_count vd =? 0) in
    if negb (vdev_normal vd) then Some cx
    else Some (mk_cx (cx_mg cx) (stat_update (cx_root cx) space_delta alloc_delta dspace_delta) (cx_vdev_list cx) (cx_mos cx))
  else Some cx.

(** [vdev_dirty] with [VDD_METASLAB] and a metaslab, or with neither. *)
Definition vdev_dirty (cx : context) (msp : option Z) (txg : Z) : option context :=
  let vd := mg_vd (cx_mg cx) in
  let* vd :=
    match msp with
    | Some msp => let* (tl, _) := txg_list_add (vdev_ms_list vd) msp txg in Some (with_ms_list vd tl)
    | None => Some vd
    end in
  let* (tl, _) := txg_list_add (cx_vdev_list cx) (vdev_self vd) txg in
  Some (mk_cx (with_vd (cx_mg cx) vd) (cx_root cx) tl (cx_mos cx)).

(** ** Syncing *)

(** The object of a metaslab that has none yet, and its entry in the vdev's
    array of metaslab objects. *)
Definition metaslab_sync_object (vd : vdev) (ms : metaslab) (mos : D) : option (space_map_obj * D) :=
  let smo := ms_smo_syncing ms in
  if smo_object smo =? 0 then
    VERIFY smo_objsize smo =? 0 in
    VERIFY smo_alloc smo =? 0 in
    let '(object, mos) := dmu_object_alloc mos in
    VERIFY negb (object =? 0) in
    Some (mk_smo object (smo_objsize smo) (smo_alloc smo),
      dmu_write mos (vdev_ms_array vd) (u64 (8 * Z.shiftr (sm_start (ms_map ms)) (vdev_ms_shift vd))) [object])
  else Some (smo, mos).

(** [space_map_walk(src, space_map_remove, dst)] and its like. *)
Definition walk_add (src dst : space_map) : option space_map := space_map_walk (space_map_add zfs_recover) src dst.
Definition walk_remove (src dst : space_map) : option space_map := space_map_walk (space_map_remove zfs_recover) src dst.

Definition metaslab_condense (ms : metaslab) (txg : Z) (allocmap freemap freed_map : space_map) : option (space_map * space_map) :=
  let* (allocmap, _) := space_map_vacate (fun d _ _ => Some d) allocmap tt in
  let* (freemap, _) := space_map_vacate (fun d _ _ => Some d) freemap tt in
  let* allocmap := space_map_add zfs_recover allocmap (sm_start allocmap) (sm_size allocmap) in
  let* allocmap := walk_remove (ms_map ms) allocmap in
  let* allocmap := walk_remove freed_map allocmap in
  let* allocmap :=
    foldM (fun allocmap t => let* m := ms_allocmap ms !! txg_idx (u64 (txg + t)) in walk_remove m allocmap) allocmap [1; 2] in
  Some (allocmap, freemap).

Definition metaslab_sync (vd : vdev) (spa_sync_pass : Z) (ms : metaslab) (mos : D) (txg : Z) : option (metaslab * D) :=
  let* allocmap := ms_allocmap ms !! txg_idx txg in
  let* freemap := ms_freemap ms !! txg_idx txg in
  let* freed_map := ms_freemap ms !! txg_idx (TXG_CLEAN txg) in
  let sm := ms_map ms in
  let* (smo, mos) := metaslab_sync_object vd ms mos in
  let* freed_map := walk_add freemap freed_map in
  let* (allocmap, freemap, smo, mos) :=
    if sm_loaded sm && (spa_sync_pass =? 1) && (u64 (2 * 8 * os_numnodes (sm_root sm)) <=? smo_objsize smo) then
      let* (allocmap, freemap) := metaslab_condense ms txg allocmap freemap freed_map in
      let '(smo, mos) := space_map_truncate smo mos in Some (allocmap, freemap, smo, mos)
    else Some (allocmap, freemap, smo, mos) in
  let* (allocmap, smo, mos) := space_map_sync allocmap SM_ALLOC smo mos spa_sync_pass txg in
  let* (freemap, smo, mos) := space_map_sync freemap SM_FREE smo mos spa_sync_pass txg in
  VERIFY dmu_bonus_hold mos (smo_object smo) =? 0 in
  let mos := dmu_bonus_write mos (smo_object smo) smo in
  Some (with_syncing (with_maps ms (<[txg_idx txg := allocmap]> (ms_allocmap ms))
                        (<[txg_idx (TXG_CLEAN txg) := freed_map]> (<[txg_idx txg := freemap]> (ms_freemap ms)))) smo, mos).

(** The maps of [metaslab_sync_done]: those of a metaslab that is just
    becoming available. *)
Definition sync_done_create (ms : metaslab) : metaslab :=
  let new := space_map_create new_root (sm_start (ms_map ms)) (sm_size (ms_map ms)) (sm_shift (ms_map ms)) in
  with_maps ms (repeat new 4) (repeat new 4).

(** Whether no transaction group of the future has allocated from it. *)
Definition sync_done_evictable (ms : metaslab) (txg : Z) : option bool :=
  foldM (fun evictable t => let* m := ms_allocmap ms !! txg_idx (u64 (txg + t)) in Some (evictable && (sm_space m =? 0))) true [1; 2].

(** From [space_map_load_wait] to the eviction of the map. *)
Definition sync_done_maps (ms : metaslab) (txg : Z) : option metaslab :=
  let* sm := space_map_load_wait (ms_map ms) in
  let* freed_map := ms_freemap ms !! txg_idx (TXG_CLEAN txg) in
  let* (freed_map, sm) :=
    if sm_loaded sm then space_map_vacate (space_map_free zfs_recover ff_vec) freed_map sm
    else space_map_vacate (fun sm _ _ => Some sm) freed_map sm in
  let ms := with_maps (with_map ms sm) (ms_allocmap ms) (<[txg_idx (TXG_CLEAN txg) := freed_map]> (ms_freemap ms)) in
  let ms := with_smo ms (ms_smo_syncing ms) in
  if sm_loaded sm && negb (is_active ms) then
    let* evictable := sync_done_evictable ms txg in
    if (evictable : bool) then let* sm := space_map_unload ff_vec sm in Some (with_map ms sm) else Some ms
  else Some ms.

Definition metaslab_sync_done (cx : context) (msp txg : Z) : option context :=
  let* ms := mg_ms (cx_mg cx) !! msp in
  let* freed_map := ms_freemap ms !! txg_idx (TXG_CLEAN txg) in
  let* (cx, ms) :=
    if sm_size freed_map =? 0 then
      let* cx := vdev_space_update cx (sm_size (ms_map ms)) 0 true in Some (cx, sync_done_create ms)
    else Some (cx, ms) in
  let* cx := vdev_space_update cx 0 (smo_alloc (ms_smo_syncing ms) - smo_alloc (ms_smo ms)) true in
  let* m := ms_allocmap ms !! txg_idx txg in
  VERIFY sm_space m =? 0 in
  let* m := ms_freemap ms !! txg_idx txg in
  VERIFY sm_space m =? 0 in
  let* ms := sync_done_maps ms txg in
  let* weight := metaslab_weight (mg_vd (cx_mg cx)) ms in
  let* mg := metaslab_group_sort (set_ms (cx_mg cx) msp ms) msp weight in
  Some (with_mg cx mg).

(** ** Metaslabs *)

(** What [kmem_zalloc] makes of the maps that are not created yet. *)
Definition zero_map : space_map := space_map_create new_root 0 0 0.

Definition metaslab_init (cx : context) (spa_last_synced_txg : Z) (smo : space_map_obj) (start size txg : Z) : option (context * Z) :=
  let mg := cx_mg cx in
  let '(msp, tree) := os_alloc (mg_metaslab_tree mg) in
  let ms := mk_ms (mk_smo 0 0 0) smo (repeat zero_map 4) (repeat zero_map 4)
              (space_map_create new_root start size (vdev_ashift (mg_vd mg))) 0 false in
  let* mg := metaslab_group_add (set_ms (mg_with_tree mg tree) msp ms) msp in
  let cx := with_mg cx mg in
  let* cx := if txg <=? TXG_INITIAL then metaslab_sync_done cx msp 0 else Some cx in
  let* cx :=
    if negb (txg =? 0) then
      VERIFY TXG_CLEAN txg =? spa_last_synced_txg in
      let* cx := vdev_dirty cx None txg in
      vdev_dirty cx (Some msp) (TXG_CLEAN txg)
    else Some cx in
  Some (cx, msp).

Definition metaslab_fini (cx : context) (msp : Z) : option context :=
  let* ms := mg_ms (cx_mg cx) !! msp in
  let* cx := vdev_space_update cx (- sm_size (ms_map ms)) (- smo_alloc (ms_smo ms)) true in
  let* mg := metaslab_group_remove (cx_mg cx) msp in
  let* sm := space_map_unload ff_vec (ms_map ms) in
  let* u := space_map_destroy sm in
  let* u := foldM (fun (_ : unit) m => space_map_destroy m) tt (ms_allocmap ms) in
  let* u := foldM (fun (_ : unit) m => space_map_destroy m) tt (ms_freemap ms) in
  Some (with_mg cx (mk_mg (os_free (mg_metaslab_tree mg) msp) (delete msp (mg_ms mg)) (mg_vd mg))).

(** ** Allocating, freeing and claiming in a metaslab *)

(** [space_map_alloc(&msp->ms_map, size)]. *)
Definition ms_alloc (ms : metaslab) (size : Z) : option (metaslab * Z) :=
  let* (sm, offset) := space_map_alloc zfs_recover ff_vec (ms_map ms) size in Some (with_map ms sm, offset).

(** [space_map_add(&msp->ms_allocmap[txg & TXG_MASK], offset, size)]. *)
Definition ms_add_allocmap (ms : metaslab) (offset size txg : Z) : option metaslab :=
  let* m := ms_allocmap ms !! txg_idx txg in
  let* m := space_map_add zfs_recover m offset size in
  Some (with_maps ms (<[txg_idx txg := m]> (ms_allocmap ms)) (ms_freemap ms)).

(** [space_map_claim(&msp->ms_map, offset, size)]. *)
Definition ms_claim (ms : metaslab) (offset size : Z) : option metaslab :=
  let* sm := space_map_claim zfs_recover ff_vec (ms_map ms) offset size in Some (with_map ms sm).

(** [metaslab_free_dva], [now]. *)
Definition ms_free_now (ms : metaslab) (offset size txg : Z) : option metaslab :=
  let* m := ms_allocmap ms !! txg_idx txg in
  let* m := space_map_remove zfs_recover m offset size in
  let ms := with_maps ms (<[txg_idx txg := m]> (ms_allocmap ms)) (ms_freemap ms) in
  let* sm := space_map_free zfs_recover ff_vec (ms_map ms) offset size in Some (with_map ms sm).

(** The check of [metaslab_free_dva] that what is freed is allocated. *)
Fixpoint freed_in_allocmap (k : nat) (i : Z) (ms : metaslab) (offset size txg : Z) : option bool :=
  match k with
  | O => Some false
  | S k =>
      let* m := ms_allocmap ms !! txg_idx (u64 (txg - i)) in
      let* b := space_map_contains m offset size in
      if (b : bool) then Some true else freed_in_allocmap k (i + 1) ms offset size txg
  end.
Definition free_allocd (ms : metaslab) (offset size txg : Z) : option bool :=
  if sm_loaded (ms_map ms) then
    let* b := space_map_contains (ms_map ms) offset size in
    if negb (b : bool) then Some true else freed_in_allocmap (Z.to_nat TXG_CONCURRENT_STATES) 0 ms offset size txg
  else Some true.

(** [metaslab_free_dva], not [now]: from [space_map_add] on. *)
Definition ms_free_later (ms : metaslab) (offset size txg : Z) : option metaslab :=
  let* m := ms_freemap ms !! txg_idx txg in
  let* m := space_map_add zfs_recover m offset size in
  let ms := with_maps ms (ms_allocmap ms) (<[txg_idx txg := m]> (ms_freemap ms)) in
  let* allocd := free_allocd ms offset size txg in
  if negb (allocd : bool) then VERIFY zfs_recover in Some ms else Some ms.

(** ** Allocating, freeing and claiming in a group *)

Definition metaslab_distance (vd : vdev) (ms : metaslab) (d : dva) : Z :=
  let ms_shift := vdev_ms_shift vd in
  let offset := Z.shiftr (DVA_GET_OFFSET d) ms_shift in
  let start := Z.shiftr (sm_start (ms_map ms)) ms_shift in
  if negb (vdev_id vd =? DVA_GET_VDEV d) then 2 ^ 63
  else if offset <? start then u64 (Z.shiftl (start - offset) ms_shift)
  else if start <? offset then u64 (Z.shiftl (offset - start) ms_shift)
  else 0.

(** [dvas] are the first [d] DVAs of the block. *)
Definition activation_weight (vd : vdev) (dvas : list dva) : Z :=
  if existsb (fun d => DVA_GET_VDEV d =? vdev_id vd) dvas then METASLAB_WEIGHT_SECONDARY else METASLAB_WEIGHT_PRIMARY.

(** The search of the group's tree from [msp] on: 0 when no metaslab will do. *)
Fixpoint group_search (k : nat) (mg : group) (size weight min_distance : Z) (dvas : list dva) (msp : Z) : option Z :=
  match k with
  | O => None
  | S k =>
      if msp =? 0 then Some 0
      else
        let* ms := mg_ms mg !! msp in
        if ms_weight ms <? size then Some 0
        else if weight =? METASLAB_WEIGHT_PRIMARY then Some msp
        else
          let target_distance := u64 (min_distance + (if negb (smo_alloc (ms_smo ms) =? 0) then 0 else Z.shiftr min_distance 1)) in
          if forallb (fun d => negb (metaslab_distance (mg_vd mg) ms d <? target_distance)) dvas then Some msp
          else let* msp := os_walk (mg_metaslab_tree mg) msp true in group_search k mg size weight min_distance dvas msp
  end.
Definition group_fuel (mg : group) : nat := S (Z.to_nat (os_numnodes (mg_metaslab_tree mg))).

(** [for (;;)]: the group and the metaslab and offset found, or -1.  A round
    that does not return takes a metaslab's weight below [size], or its
    secondary activation. *)
Fixpoint group_alloc_loop (k : nat) (mg : group) (mos : D) (size min_distance : Z) (dvas : list dva) : option (group * option (Z * Z)) :=
  match k with
  | O => None
  | S k =>
      let weight := activation_weight (mg_vd mg) dvas in
      let* msp := os_first (mg_metaslab_tree mg) in
      let* msp := group_search (group_fuel mg) mg size weight min_distance dvas msp in
      if msp =? 0 then Some (mg, None)
      else
        let* ms := mg_ms mg !! msp in
        if ms_weight ms <? size then group_alloc_loop k mg mos size min_distance dvas
        else if negb (Z.land (ms_weight ms) METASLAB_WEIGHT_SECONDARY =? 0) && (weight =? METASLAB_WEIGHT_PRIMARY) then
          let* mg := metaslab_passivate mg msp (Z.ldiff (ms_weight ms) METASLAB_ACTIVE_MASK) in
          group_alloc_loop k mg mos size min_distance dvas
        else
          let* (mg, error) := metaslab_activate mg mos msp weight in
          if negb (error =? 0) then group_alloc_loop k mg mos size min_distance dvas
          else
            let* ms := mg_ms mg !! msp in
            let* (ms, offset) := ms_alloc ms size in
            let mg := set_ms mg msp ms in
            if negb (offset =? 2 ^ 64 - 1) then Some (mg, Some (msp, offset))
            else
              let* mg := metaslab_passivate mg msp (u64 (size - 1)) in
              group_alloc_loop k mg mos size min_distance dvas
  end.

(** Every metaslab loses its secondary activation and its candidacy at most
    once each. *)
Definition group_alloc_fuel (mg : group) : nat := S (2 * Z.to_nat (os_numnodes (mg_metaslab_tree mg))).

(** [if (msp->ms_allocmap[txg & TXG_MASK].sm_space == 0) vdev_dirty(...)]. *)
Definition dirty_allocmap (cx : context) (msp txg : Z) : option context :=
  let* ms := mg_ms (cx_mg cx) !! msp in
  let* m := ms_allocmap ms !! txg_idx txg in
  if sm_space m =? 0 then vdev_dirty cx (Some msp) txg else Some cx.

Definition metaslab_group_alloc (cx : context) (size txg min_distance : Z) (dvas : list dva) : option (context * Z) :=
  let* (mg, r) := group_alloc_loop (group_alloc_fuel (cx_mg cx)) (cx_mg cx) (cx_mos cx) size min_distance dvas in
  let cx := with_mg cx mg in
  match r with
  | None => Some (cx, 2 ^ 64 - 1)
  | Some (msp, offset) =>
      let* cx := dirty_allocmap cx msp txg in
      let* ms := mg_ms (cx_mg cx) !! msp in
      let* ms := ms_add_allocmap ms offset size txg in
      Some (with_mg cx (set_ms (cx_mg cx) msp ms), offset)
  end.

(** [metaslab_free_dva] from where it has found the metaslab. *)
Definition metaslab_free_at (cx : context) (msp offset size txg : Z) (now : bool) : option context :=
  let* ms := mg_ms (cx_mg cx) !! msp in
  if now then
    let* ms := ms_free_now ms offset size txg in Some (with_mg cx (set_ms (cx_mg cx) msp ms))
  else
    let* m := ms_freemap ms !! txg_idx txg in
    let* cx := if sm_space m =? 0 then vdev_dirty cx (Some msp) txg else Some cx in
    let* ms := ms_free_later ms offset size txg in Some (with_mg cx (set_ms (cx_mg cx) msp ms)).

(** [metaslab_claim_dva] from where it has found the metaslab. *)
Definition metaslab_claim_at (cx : context) (msp offset size txg : Z) : option (context * Z) :=
  let* (mg, error) := metaslab_activate (cx_mg cx) (cx_mos cx) msp METASLAB_WEIGHT_SECONDARY in
  let cx := with_mg cx mg in
  if negb (error =? 0) then Some (cx, error)
  else
    let* cx := dirty_allocmap cx msp txg in
    let* ms := mg_ms (cx_mg cx) !! msp in
    let* ms := ms_claim ms offset size in
    let* ms := ms_add_allocmap ms offset size txg in
    Some (with_mg cx (set_ms (cx_mg cx) msp ms), 0).
End metaslab.
