(* ===== verification/MetaslabProof.v ===== *)
(** * Metaslabs: the space they account for

    The invariant of a metaslab, in terms of the sets of offsets its maps and
    its log stand for, and the effect of every operation on them: what is
    free, allocated on disk, allocated by a transaction group in flight, and
    freed but not yet reusable never overlap and make up the whole region. *)
From Stdlib Require Import ZArith Lia.
From stdpp Require Import base numbers list option gmap.
From S2P Require Import Prelude AvlSpec SpaceMap SpaceMapProof SpaceMapSync SpaceMapLog TxgList MetaslabFF Metaslab.

(** ** Walking one map into another *)

Section walk.
Context {T V : Type} `{HI : AvlIface T} {cap : nat} {HL : AvlLaws T cap} (zfs_recover : bool).
Implicit Types (sm d : space_map T V) (L : list space_seg).

Definition seg_range d (x : space_seg) : Prop := range_ok d (ss_start x) (ss_end x - ss_start x).

Lemma seg_range_geom d d' x : same_geom d d' -> seg_range d x -> seg_range d' x.
Proof. intros (E1 & E2 & E3) [? ? ? ? ?]. split; rewrite ?E1, ?E2, ?E3; done. Qed.

Lemma wf_seg_ranges sm L d : sm_wf (cap := cap) sm L -> same_geom sm d -> Forall (seg_range d) L.
Proof.
  intros Hwf Hg. apply Forall_forall. intros x Hx. apply (seg_range_geom sm d); [done|].
  destruct (sf_segs _ _ Hwf) as [Hc Hl Ha]. destruct (sf_geom _ _ Hwf) as [_ _ _ Hsh _]. destruct (chain_bounds _ _ _ Hc Hx).
  pose proof (proj1 (Forall_forall _ _) Ha x Hx) as [A1 A2]. split; [lia|lia|lia|done|].
  rewrite Zminus_mod, A1, A2. apply Zmod_0_l.
Qed.

Lemma wf_disjoint sm L : sm_wf (cap := cap) sm L -> disjoint_segs L.
Proof. intros Hwf. eapply chain_disjoint, (sf_segs _ _ Hwf). Qed.

Lemma wf_range sm L o : sm_wf (cap := cap) sm L -> covers L o -> sm_start sm <= o < sm_start sm + sm_size sm.
Proof.
  intros Hwf (x & Hx & Ho)%Exists_exists. destruct (sf_segs _ _ Hwf) as [Hc Hl _]. destruct (chain_bounds _ _ _ Hc Hx). lia.
Qed.

Lemma wf_empty sm L : sm_wf (cap := cap) sm L -> sm_space sm = 0 -> L = [].
Proof.
  intros Hwf E. destruct L as [|x L]; [done|]. exfalso. destruct (sf_segs _ _ Hwf) as [[Hx Hc] _ _].
  rewrite (sf_space _ _ Hwf), total_cons in E. pose proof (chain_last _ _ Hc). lia.
Qed.

Lemma wf_nil_space sm : sm_wf (cap := cap) sm [] -> sm_space sm = 0.
Proof. intros Hwf. apply (sf_space _ _ Hwf). Qed.

(** Adding the segments of a list, in any order, to a map without them; [K]
    is kept by what adds one. *)
Lemma fold_union (f : space_map T V -> Z -> Z -> option (space_map T V)) (K : space_map T V -> Prop) :
  (forall d L s z, sm_wf (cap := cap) d L -> K d -> range_ok d s z -> (forall o, s <= o < s + z -> ~ covers L o) ->
    exists d' L', f d s z = Some d' /\ sm_wf (cap := cap) d' L' /\ K d' /\ same_map d d' /\
      forall o, covers L' o <-> covers L o \/ s <= o < s + z) ->
  forall Ls d L, sm_wf (cap := cap) d L -> K d -> Forall (seg_range d) Ls -> disjoint_segs Ls ->
    (forall o, covers Ls o -> ~ covers L o) ->
    exists d' L', foldM (on_seg f) d Ls = Some d' /\ sm_wf (cap := cap) d' L' /\ K d' /\ same_map d d' /\
      forall o, covers L' o <-> covers L o \/ covers Ls o.
Proof.
  intros Hf. induction Ls as [|x Ls IH]; intros d L Hwf HK Hr Hdis Hout; cbn [foldM].
  { exists d, L. do 3 (split; [done|]). split; [apply same_map_refl|]. intros o. rewrite covers_nil. tauto. }
  apply Forall_cons in Hr as [Hx Hr]. destruct Hdis as [Hxd Hdis]. setoid_rewrite covers_cons in Hout.
  destruct (Hf d L (ss_start x) (ss_end x - ss_start x) Hwf HK Hx) as (d1 & L1 & E1 & Hwf1 & HK1 & Hs1 & Hc1).
  { intros o Ho. apply Hout. left. lia. }
  replace (ss_start x + (ss_end x - ss_start x)) with (ss_end x) in Hc1 by lia.
  unfold on_seg at 2. rewrite E1. cbn [mbind option_bind].
  destruct (IH d1 L1 Hwf1 HK1) as (d2 & L2 & E2 & Hwf2 & HK2 & Hs2 & Hc2); [|done| |].
  - eapply Forall_impl; [exact Hr|]. intros y. by apply seg_range_geom, same_map_geom.
  - intros o Ho. rewrite Hc1. intros [?|?]; [eapply Hout; [right|]; done|by eapply Hxd].
  - exists d2, L2. do 3 (split; [done|]). split; [by eapply same_map_trans|]. intros o. rewrite Hc2, Hc1, covers_cons. tauto.
Qed.

Lemma fold_diff : forall Ls d L, sm_wf (cap := cap) d L -> Forall (seg_range d) Ls -> disjoint_segs Ls ->
    (forall o, covers Ls o -> covers L o) ->
    exists d' L', foldM (on_seg (space_map_remove zfs_recover)) d Ls = Some d' /\ sm_wf (cap := cap) d' L' /\ same_map d d' /\
      forall o, covers L' o <-> covers L o /\ ~ covers Ls o.
Proof using HL.
  induction Ls as [|x Ls IH]; intros d L Hwf Hr Hdis Hin; cbn [foldM].
  { exists d, L. do 2 (split; [done|]). split; [apply same_map_refl|]. intros o. rewrite covers_nil. tauto. }
  apply Forall_cons in Hr as [Hx Hr]. destruct Hdis as [Hxd Hdis]. setoid_rewrite covers_cons in Hin.
  destruct (remove_spec zfs_recover d L (ss_start x) (ss_end x - ss_start x) Hwf Hx) as (d1 & L1 & E1 & Hwf1 & Hc1 & Hs1 & _).
  { intros o Ho. apply Hin. left. lia. }
  replace (ss_start x + (ss_end x - ss_start x)) with (ss_end x) in Hc1 by lia.
  unfold on_seg at 2. rewrite E1. cbn [mbind option_bind].
  destruct (IH d1 L1 Hwf1) as (d2 & L2 & E2 & Hwf2 & Hs2 & Hc2); [|done| |].
  - eapply Forall_impl; [exact Hr|]. intros y. by apply seg_range_geom, same_map_geom.
  - intros o Ho. rewrite Hc1. split; [apply Hin; by right|]. intros Hox. by eapply Hxd.
  - exists d2, L2. do 2 (split; [done|]). split; [by eapply same_map_trans|]. intros o. rewrite Hc2, Hc1, covers_cons. tauto.
Qed.
End walk.

Section maps.
Context {T : Type} `{HI : AvlIface T} {cap : nat} {HL : AvlLaws T cap} (zfs_recover : bool).
Implicit Types (sm d : ms_space_map T) (L : list space_seg).

Lemma walk_add_spec s Ls d L : sm_wf (cap := cap) s Ls -> sm_wf (cap := cap) d L -> same_geom s d ->
  (forall o, covers Ls o -> ~ covers L o) ->
  exists d' L', walk_add zfs_recover s d = Some d' /\ sm_wf (cap := cap) d' L' /\ same_map d d' /\
    forall o, covers L' o <-> covers L o \/ covers Ls o.
Proof using HL.
  intros Hs Hd Hg Hout. unfold walk_add. rewrite (walk_spec _ _ _ _ Hs).
  destruct (fold_union (V := unit) (space_map_add zfs_recover) (fun _ => True)) with (Ls := Ls) (d := d) (L := L)
    as (d' & L' & E & Hwf & _ & Hsm & Hc); try done.
  - intros d1 L1 a z H1 _ H2 H3. destruct (add_spec zfs_recover d1 L1 a z H1 H2 H3) as (d' & L' & ? & ? & ? & ? & _). by exists d', L'.
  - by eapply wf_seg_ranges.
  - by eapply wf_disjoint.
  - by exists d', L'.
Qed.

Lemma walk_remove_spec s Ls d L : sm_wf (cap := cap) s Ls -> sm_wf (cap := cap) d L -> same_geom s d ->
  (forall o, covers Ls o -> covers L o) ->
  exists d' L', walk_remove zfs_recover s d = Some d' /\ sm_wf (cap := cap) d' L' /\ same_map d d' /\
    forall o, covers L' o <-> covers L o /\ ~ covers Ls o.
Proof using HL.
  intros Hs Hd Hg Hin. unfold walk_remove. rewrite (walk_spec _ _ _ _ Hs).
  apply fold_diff; [done|by eapply wf_seg_ranges|by eapply wf_disjoint|done].
Qed.

(** Vacating a map into a loaded one with [space_map_free]. *)
Lemma vacate_free_spec s Ls d L : sm_wf (cap := cap) s Ls -> sm_wf (cap := cap) d L -> same_geom s d -> sm_ops d = Some tt ->
  (forall o, covers Ls o -> ~ covers L o) ->
  exists s' d' L', space_map_vacate (space_map_free zfs_recover ff_vec) s d = Some (s', d') /\ sm_wf (cap := cap) s' [] /\ same_map s s' /\
    sm_wf (cap := cap) d' L' /\ same_map d d' /\ forall o, covers L' o <-> covers L o \/ covers Ls o.
Proof using HL.
  intros Hs Hd Hg Hops Hout. destruct (vacate_spec s Ls Hs) as (s' & Ls' & Hp & Hwf' & Hsame & Hv).
  destruct (fold_union (V := unit) (space_map_free zfs_recover ff_vec) (fun d => sm_ops d = Some tt)) with (Ls := Ls') (d := d) (L := L)
    as (d' & L' & E & Hwfd & _ & Hsm & Hc); try done.
  - intros d1 L1 a z H1 H2 H3 H4. destruct (free_spec zfs_recover d1 L1 a z tt H1 H2 H3 H4) as (d' & L' & ? & ? & Hsame' & ?).
    exists d', L'. split; [done|]. split; [done|]. split; [|done]. destruct Hsame' as (_ & _ & _ & _ & _ & -> & _). done.
  - rewrite Hp. by eapply wf_seg_ranges.
  - rewrite Hp. by eapply wf_disjoint.
  - intros o. rewrite Hp. apply Hout.
  - exists s', d', L'. rewrite Hv, E. cbn [mbind option_bind]. do 5 (split; [done|]). intros o. by rewrite Hc, Hp.
Qed.

Lemma vacate_none_spec {E} (s : ms_space_map T) Ls (e : E) : sm_wf (cap := cap) s Ls ->
  exists s', space_map_vacate (fun e _ _ => Some e) s e = Some (s', e) /\ sm_wf (cap := cap) s' [] /\ same_map s s'.
Proof using HL.
  intros Hwf. destruct (vacate_spec s Ls Hwf) as (s' & L' & _ & Hwf' & Hsame & Hv). exists s'. rewrite Hv. split; [|done].
  assert (forall l (e : E), foldM (on_seg (fun e _ _ => Some e)) e l = Some e) as ->; [|done].
  induction l as [|x l IHl]; intros e0; [done|]. cbn. apply IHl.
Qed.
End maps.

(** ** Accounting *)

(** Offsets: in the region ([R]), free ([M]), allocated on disk ([A]),
    allocated by the transaction group [j] after the syncing one ([a j]),
    freed and synced but not yet reusable ([fd]), and freed by the group [j]
    after the syncing one ([f j]). *)
Record accounts (R M A fd : Z -> Prop) (a f : nat -> Z -> Prop) : Prop := {
  ac_all o : R o <-> M o \/ A o \/ fd o \/ exists j, (j < 3)%nat /\ a j o;
  ac_MA o : M o -> ~ A o;
  ac_Mfd o : M o -> ~ fd o;
  ac_Afd o : A o -> ~ fd o;
  ac_a j o : (j < 3)%nat -> a j o -> ~ M o /\ ~ A o /\ ~ fd o;
  ac_aa i j o : (i < 3)%nat -> (j < 3)%nat -> a i o -> a j o -> i = j;
  ac_f j o : (j < 3)%nat -> f j o -> A o \/ exists i, (i <= j)%nat /\ a i o;
  ac_ff i j o : (i < 3)%nat -> (j < 3)%nat -> f i o -> f j o -> i = j
}.

Definition upd (a : nat -> Z -> Prop) (j : nat) (P : Z -> Prop) (i : nat) : Z -> Prop := if decide (i = j) then P else a i.
Lemma upd_eq a j P : upd a j P j = P.
Proof. unfold upd. by rewrite decide_True. Qed.
Lemma upd_ne a i j P : i <> j -> upd a j P i = a i.
Proof. intros. unfold upd. by rewrite decide_False. Qed.

Section accounting.
Context (R M A fd : Z -> Prop) (a f : nat -> Z -> Prop) (H : accounts R M A fd a f).

Lemma accounts_ext M' A' fd' a' f' :
  (forall o, M o <-> M' o) -> (forall o, A o <-> A' o) -> (forall o, fd o <-> fd' o) ->
  (forall j o, (j < 3)%nat -> a j o <-> a' j o) -> (forall j o, (j < 3)%nat -> f j o <-> f' j o) -> accounts R M' A' fd' a' f'.
Proof using H.
  intros EM EA Ed Ea Ef. destruct H as [H1 H2 H3 H4 H5 H6 H7 H8]. split.
  - intros o. rewrite H1, EM, EA, Ed. apply or_iff_compat_l, or_iff_compat_l, or_iff_compat_l.
    split; intros (j & Hj & Ho); exists j; (split; [done|]); by apply Ea.
  - intros o. rewrite <-EM, <-EA. apply H2.
  - intros o. rewrite <-EM, <-Ed. apply H3.
  - intros o. rewrite <-EA, <-Ed. apply H4.
  - intros j o Hj. rewrite <-EM, <-EA, <-Ed, <-Ea by done. by apply H5.
  - intros i j o Hi Hj. rewrite <-!Ea by done. by apply H6.
  - intros j o Hj. rewrite <-EA, <-Ef by done. intros Ho. destruct (H7 j o Hj Ho) as [?|(i & Hi & ?)]; [by left|right].
    exists i. split; [done|]. apply Ea; [lia|done].
  - intros i j o Hi Hj. rewrite <-!Ef by done. by apply H8.
Qed.

(** The group [j] allocates the free range [r]. *)
Lemma accounts_alloc j (r : Z -> Prop) : (j < 3)%nat -> (forall o, r o -> M o) -> (forall o, r o \/ ~ r o) ->
  accounts R (fun o => M o /\ ~ r o) A fd (upd a j (fun o => a j o \/ r o)) f.
Proof using H.
  intros Hj Hr Hdec. destruct H as [H1 H2 H3 H4 H5 H6 H7 H8].
  assert (forall i o, upd a j (fun o => a j o \/ r o) i o <-> a i o \/ (i = j /\ r o)) as Hu.
  { intros i o. unfold upd. destruct (decide (i = j)) as [->|]; tauto. }
  split.
  - intros o. rewrite H1. setoid_rewrite Hu. split.
    + intros [?|[?|[?|(i & ? & ?)]]]; [|tauto|tauto|].
      * destruct (Hdec o); [|tauto]. do 3 right. exists j. tauto.
      * do 3 right. exists i. tauto.
    + intros [?|[?|[?|(i & ? & [?|[_ ?]])]]]; [tauto..| |]; [do 3 right; by exists i|left; auto].
  - intros o [? _]. auto.
  - intros o [? _]. auto.
  - done.
  - intros i o Hi. rewrite Hu. intros [Ho|[-> Ho]]; [destruct (H5 i o Hi Ho); tauto|]. specialize (Hr o Ho). naive_solver.
  - intros i i' o Hi Hi'. rewrite !Hu. intros [?|[-> ?]] [?|[-> ?]]; [eauto| | |done].
    + exfalso. destruct (H5 i o Hi) as [Hn _]; [done|]. by apply Hn, Hr.
    + exfalso. destruct (H5 i' o Hi') as [Hn _]; [done|]. by apply Hn, Hr.
  - intros i o Hi Ho. destruct (H7 i o Hi Ho) as [?|(k & ? & ?)]; [by left|right]. exists k. rewrite Hu. tauto.
  - done.
Qed.

(** The group [j] frees the range [r], which it sees as allocated and which no
    group frees already. *)
Lemma accounts_free j (r : Z -> Prop) : (j < 3)%nat -> (forall o, r o -> A o \/ exists i, (i <= j)%nat /\ a i o) ->
  (forall i o, (i < 3)%nat -> r o -> ~ f i o) -> accounts R M A fd a (upd f j (fun o => f j o \/ r o)).
Proof using H.
  intros Hj Hr Hnf. destruct H as [H1 H2 H3 H4 H5 H6 H7 H8].
  assert (forall i o, upd f j (fun o => f j o \/ r o) i o <-> f i o \/ (i = j /\ r o)) as Hu.
  { intros i o. unfold upd. destruct (decide (i = j)) as [->|]; tauto. }
  split; try done.
  - intros i o Hi. rewrite Hu. intros [Ho|[-> Ho]]; auto.
  - intros i i' o Hi Hi'. rewrite !Hu. intros [?|[-> ?]] [?|[-> ?]]; [eauto| | |done]; exfalso; (eapply Hnf; [|eassumption|eassumption]; done).
Qed.

(** The group [j] gives back the range [r] it allocated. *)
Lemma accounts_free_now j (r : Z -> Prop) : (j < 3)%nat -> (forall o, r o -> a j o) -> (forall o, r o \/ ~ r o) ->
  (forall i o, (i < 3)%nat -> r o -> ~ f i o) -> accounts R (fun o => M o \/ r o) A fd (upd a j (fun o => a j o /\ ~ r o)) f.
Proof using H.
  intros Hj Hr Hdec Hnf. destruct H as [H1 H2 H3 H4 H5 H6 H7 H8].
  assert (forall i o, upd a j (fun o => a j o /\ ~ r o) i o <-> a i o /\ (i = j -> ~ r o)) as Hu.
  { intros i o. unfold upd. destruct (decide (i = j)) as [->|]; tauto. }
  assert (forall i o, (i < 3)%nat -> a i o -> r o -> i = j) as Hij by (intros; eapply H6; eauto).
  split.
  - intros o. rewrite H1. setoid_rewrite Hu. split.
    + intros [?|[?|[?|(i & ? & ?)]]]; [tauto..|]. destruct (Hdec o); [tauto|]. do 3 right. exists i. tauto.
    + intros [[?|?]|[?|[?|(i & ? & ? & _)]]]; [tauto| |tauto|tauto|]; [do 3 right; exists j; auto|do 3 right; by exists i].
  - intros o [?|Ho]; [auto|]. by destruct (H5 j o Hj (Hr o Ho)) as (_ & ? & _).
  - intros o [?|Ho]; [auto|]. by destruct (H5 j o Hj (Hr o Ho)) as (_ & _ & ?).
  - done.
  - intros i o Hi. rewrite Hu. intros [Ho Hnr]. destruct (H5 i o Hi Ho) as (? & ? & ?). split; [|done]. intros [?|Hro]; [done|].
    by apply (Hnr (Hij i o Hi Ho Hro)).
  - intros i i' o Hi Hi'. rewrite !Hu. intros [? _] [? _]. eauto.
  - intros i o Hi Ho. destruct (H7 i o Hi Ho) as [?|(k & ? & ?)]; [by left|right]. exists k. rewrite Hu. split; [done|]. split; [done|].
    intros -> Hro. by eapply (Hnf i).
  - done.
Qed.

(** The syncing group is written out. *)
Lemma accounts_sync : (forall o, f 0%nat o \/ ~ f 0%nat o) ->
  accounts R M (fun o => (A o \/ a 0%nat o) /\ ~ f 0%nat o) (fun o => fd o \/ f 0%nat o) (upd a 0 (fun _ => False)) (upd f 0 (fun _ => False)).
Proof using H.
  intros Hdec. destruct H as [H1 H2 H3 H4 H5 H6 H7 H8].
  assert (forall b i o, upd b 0 (fun _ => False) i o <-> b i o /\ i <> 0%nat) as Hu.
  { intros b i o. unfold upd. destruct (decide (i = 0%nat)); tauto. }
  assert (forall o, f 0%nat o -> A o \/ a 0%nat o) as Hf0.
  { intros o Ho. destruct (H7 0%nat o ltac:(lia) Ho) as [?|(i & Hi & ?)]; [by left|right]. by assert (i = 0%nat) as -> by lia. }
  split.
  - intros o. rewrite H1. setoid_rewrite Hu. split.
    + intros [?|[?|[?|([|i] & ? & ?)]]]; [tauto|destruct (Hdec o); tauto|tauto|destruct (Hdec o); tauto|]. do 3 right. exists (S i). done.
    + intros [?|[[[?|?] _]|[[?|?]|(i & ? & ? & _)]]]; [tauto|tauto| |tauto| |do 3 right; by exists i].
      * do 3 right. exists 0%nat. split; [lia|done].
      * destruct (Hf0 o) as [?|?]; [done|tauto|]. do 3 right. exists 0%nat. split; [lia|done].
  - intros o Ho [[?|Ha] _]; [by eapply H2|]. by destruct (H5 0%nat o ltac:(lia) Ha).
  - intros o Ho [?|Hf]; [by eapply H3|]. destruct (Hf0 o Hf) as [?|Ha]; [by eapply H2|]. by destruct (H5 0%nat o ltac:(lia) Ha).
  - intros o [[Ho|Ha] Hnf] [?|?]; try done; [by eapply H4|]. by destruct (H5 0%nat o ltac:(lia) Ha) as (_ & _ & ?).
  - intros i o Hi. rewrite Hu. intros [Ho Hi0]. destruct (H5 i o Hi Ho) as (? & ? & ?). split; [done|].
    assert (~ a 0%nat o) as Hna by (intros Ha; apply Hi0, (H6 i 0%nat o Hi ltac:(lia) Ho Ha)).
    split; [tauto|]. intros [?|Hf]; [done|]. by destruct (Hf0 o Hf).
  - intros i i' o Hi Hi'. rewrite !Hu. intros [? _] [? _]. eauto.
  - intros i o Hi. rewrite Hu. intros [Ho Hi0]. assert (~ f 0%nat o) as Hnf by (intros Hf; apply Hi0, (H8 i 0%nat o Hi ltac:(lia) Ho Hf)).
    destruct (H7 i o Hi Ho) as [?|([|k] & Hk & ?)]; [tauto|tauto|right]. exists (S k). rewrite Hu. split; [done|]. split; [done|lia].
  - intros i i' o Hi Hi'. rewrite !Hu. intros [? _] [? _]. eauto.
Qed.

(** The syncing group is done; the next one becomes the syncing one. *)
Lemma accounts_done (a' f' : nat -> Z -> Prop) : (forall o, ~ a 0%nat o) -> (forall o, ~ f 0%nat o) ->
  (forall j o, (j < 2)%nat -> a' j o <-> a (S j) o) -> (forall j o, (j < 2)%nat -> f' j o <-> f (S j) o) ->
  (forall o, ~ a' 2%nat o) -> (forall o, ~ f' 2%nat o) -> accounts R (fun o => M o \/ fd o) A (fun _ => False) a' f'.
Proof using H.
  intros Ha0 Hf0 Ea Ef Ha2 Hf2. destruct H as [H1 H2 H3 H4 H5 H6 H7 H8].
  assert (forall j o, (j < 3)%nat -> a' j o -> (S j < 3)%nat /\ a (S j) o) as Ha.
  { intros j o Hj Ho. destruct (decide (j = 2%nat)) as [->|]; [by apply Ha2 in Ho|]. split; [lia|]. apply Ea; [lia|done]. }
  assert (forall j o, (j < 3)%nat -> f' j o -> (S j < 3)%nat /\ f (S j) o) as Hf.
  { intros j o Hj Ho. destruct (decide (j = 2%nat)) as [->|]; [by apply Hf2 in Ho|]. split; [lia|]. apply Ef; [lia|done]. }
  split.
  - intros o. rewrite H1. split.
    + intros [?|[?|[?|([|i] & ? & Hi)]]]; [tauto..| |]; [by apply Ha0 in Hi|]. do 3 right. exists i. split; [lia|]. apply Ea; [lia|done].
    + intros [[?|?]|[?|[[]|(i & Hi & Ho)]]]; [tauto..|]. do 3 right. exists (S i). by apply Ha.
  - intros o [?|Hd] ?; [by eapply H2|by eapply H4].
  - tauto.
  - tauto.
  - intros j o Hj Ho. destruct (Ha j o Hj Ho) as [Hj' Ho']. destruct (H5 _ o Hj' Ho') as (? & ? & ?). tauto.
  - intros i j o Hi Hj Hoi Hoj. destruct (Ha i o Hi Hoi) as [? ?], (Ha j o Hj Hoj) as [? ?].
    assert (S i = S j) by (eapply H6; eauto). lia.
  - intros j o Hj Ho. destruct (Hf j o Hj Ho) as [Hj' Ho']. destruct (H7 _ o Hj' Ho') as [?|([|k] & ? & Hk)]; [by left|by apply Ha0 in Hk|].
    right. exists k. split; [lia|]. apply Ea; [lia|done].
  - intros i j o Hi Hj Hoi Hoj. destruct (Hf i o Hi Hoi) as [? ?], (Hf j o Hj Hoj) as [? ?].
    assert (S i = S j) by (eapply H8; eauto). lia.
Qed.
End accounting.
