(* ===== verification/MetaslabInv.v ===== *)
(** * Metaslabs: the invariant

    [ms_inv] relates a metaslab, during the syncing of a transaction group, to
    the sets of offsets of MetaslabProof: its maps, one per transaction group
    in flight, its in-core map of free space, and the log of its object in
    the DMU.  The DMU is used through the laws of [MosLaws]. *)
From Stdlib Require Import ZArith Lia.
From stdpp Require Import base numbers list option gmap.
From S2P Require Import Prelude AvlSpec SpaceMap SpaceMapProof SpaceMapSync SpaceMapLog TxgList MetaslabFF Metaslab MetaslabProof.

(** ** The DMU *)

(** [mos_has d obj]: the object exists.  Writing, freeing and setting the bonus
    buffer of an object touch no other object; a new object is empty; the
    bonus buffer of an object that exists can be held. *)
Class MosLaws (D : Type) `{HD : ObjectStore D} {HDL : ObjectStoreLaws D} `{HM : MosStore D} := {
  mos_has : D -> Z -> Prop;
  mos_bonus : D -> Z -> option space_map_obj;
  object_alloc_law d : exists obj d', dmu_object_alloc d = (obj, d') /\ obj <> 0 /\ ~ mos_has d obj /\ mos_has d' obj /\
    os_content d' obj = [] /\ forall o, mos_has d o -> mos_has d' o /\ os_content d' o = os_content d o;
  write_other d obj off buf o : o <> obj -> os_content (dmu_write d obj off buf) o = os_content d o;
  write_has d obj off buf o : mos_has d o -> mos_has (dmu_write d obj off buf) o;
  free_other d obj o : o <> obj -> os_content (dmu_free_range d obj) o = os_content d o;
  free_has d obj o : mos_has d o -> mos_has (dmu_free_range d obj) o;
  bonus_hold_law d obj : mos_has d obj -> dmu_bonus_hold d obj = 0;
  bonus_content d obj smo o : os_content (dmu_bonus_write d obj smo) o = os_content d o;
  bonus_has d obj smo o : mos_has d o -> mos_has (dmu_bonus_write d obj smo) o;
  bonus_set d obj smo : mos_has d obj -> mos_bonus (dmu_bonus_write d obj smo) obj = Some smo
}.

(** ** Slots of the per-group arrays *)

Definition slot {X} (d : X) (l : list X) (txg : Z) : X := default d (l !! txg_idx txg).

Lemma txg_idx_mod txg : txg_idx txg = Z.to_nat (txg mod 4).
Proof. unfold txg_idx. change TXG_MASK with (2 ^ 2 - 1). by rewrite land_ones_mod. Qed.

Lemma txg_idx_u64 txg : txg_idx (u64 txg) = txg_idx txg.
Proof.
  rewrite !txg_idx_mod. unfold u64. change (2 ^ 64) with (4 * 2 ^ 62). rewrite Z.rem_mul_r by lia. f_equal.
  rewrite Z.mul_comm, Z_mod_plus_full. apply Zmod_mod.
Qed.

Lemma txg_idx_clean txg : txg_idx (TXG_CLEAN txg) = txg_idx (txg + 3).
Proof.
  unfold TXG_CLEAN. rewrite txg_idx_u64, !txg_idx_mod. f_equal. replace (txg + 3) with (txg - 1 + 1 * 4) by lia. by rewrite Z_mod_plus_full.
Qed.

Lemma txg_idx_inj txg i j : 0 <= i < 4 -> 0 <= j < 4 -> txg_idx (txg + i) = txg_idx (txg + j) -> i = j.
Proof.
  intros Hi Hj. rewrite !txg_idx_mod. intros E. apply Z2Nat.inj in E; [|apply Z.mod_pos_bound; lia..].
  pose proof (Z.div_mod (txg + i) 4). pose proof (Z.div_mod (txg + j) 4). lia.
Qed.

Lemma slot_lookup {X} (d : X) l txg : length l = 4%nat -> l !! txg_idx txg = Some (slot d l txg).
Proof.
  intros Hl. unfold slot. destruct (lookup_lt_is_Some_2 l (txg_idx txg)) as [x E]; [rewrite Hl; apply txg_idx_lt|]. by rewrite E.
Qed.

Lemma slot_insert {X} (d : X) l txg x i j : length l = 4%nat -> 0 <= i < 4 -> 0 <= j < 4 ->
  slot d (<[txg_idx (txg + i) := x]> l) (txg + j) = if decide (i = j) then x else slot d l (txg + j).
Proof.
  intros Hl Hi Hj. unfold slot. destruct (decide (i = j)) as [->|Hne].
  - rewrite list_lookup_insert_eq; [done|]. rewrite Hl. apply txg_idx_lt.
  - rewrite list_lookup_insert_ne; [done|]. intros E. by apply Hne, (txg_idx_inj txg).
Qed.

(** ** The invariant *)

Section inv.
Context {T D : Type} `{HI : AvlIface T} {cap : nat} {HL : AvlLaws T cap}.
Context `{HD : ObjectStore D} {HDL : ObjectStoreLaws D} `{HM : MosStore D} {HML : MosLaws D}.
Implicit Types (ms : metaslab T) (sm : ms_space_map T) (L : list space_seg) (mos : D) (smo : space_map_obj).

Definition region sm (o : Z) : Prop := sm_start sm <= o < sm_start sm + sm_size sm.

(** The descriptor [smo] in the store: the log [ws] of the allocated set [A]. *)
Record log_ok mos sm smo (ws : list Z) (A : Z -> Prop) : Prop := {
  lo_size : smo_objsize smo = 8 * Z.of_nat (length ws);
  lo_replays : replays (sm_start sm) (sm_start sm + sm_size sm) (sm_shift sm) ws A (smo_alloc smo);
  lo_none : smo_object smo = 0 -> ws = [];
  lo_has : smo_object smo <> 0 -> mos_has mos (smo_object smo);
  lo_prefix : smo_object smo <> 0 -> ws `prefix_of` os_content mos (smo_object smo)
}.

(** The geometry of a metaslab. *)
Record ms_geom sm : Prop := {
  mg_range : range_ok sm (sm_start sm) (sm_size sm);
  mg_47 : Z.shiftr (sm_size sm) (sm_shift sm) <= 2 ^ 47;
  mg_63 : sm_start sm + sm_size sm <= 2 ^ 63
}.

(** The maps of a metaslab: [M] the segments in core, [AL] and [FR] those of
    the groups' allocations and frees. *)
Record ms_maps ms (M : list space_seg) (AL FR : list (list space_seg)) : Prop := {
  mm_geom : ms_geom (ms_map ms);
  mm_map : sm_wf (cap := cap) (ms_map ms) M;
  mm_alloc : Forall2 (fun m L => sm_wf (cap := cap) m L /\ same_geom (ms_map ms) m) (ms_allocmap ms) AL;
  mm_free : Forall2 (fun m L => sm_wf (cap := cap) m L /\ same_geom (ms_map ms) m) (ms_freemap ms) FR;
  mm_lenA : length AL = 4%nat;
  mm_lenF : length FR = 4%nat;
  mm_loading : sm_loading (ms_map ms) = false;
  mm_picker : if sm_loaded (ms_map ms) then sm_ops (ms_map ms) = Some tt /\ cursors_ok (ms_map ms)
              else sm_ops (ms_map ms) = None /\ sm_ppd (ms_map ms) = [] /\ M = []
}.

(** What is free to be allocated: the in-core map when it is loaded, else what
    the synced log [As] does not have. *)
Definition free_set ms (M : list space_seg) (As : Z -> Prop) (o : Z) : Prop :=
  if sm_loaded (ms_map ms) then covers M o else region (ms_map ms) o /\ ~ As o.

(** The allocations and the frees of the group [j] after [txg]. *)
Definition group_set (X : list (list space_seg)) (txg : Z) (j : nat) : Z -> Prop := covers (slot [] X (txg + Z.of_nat j)).

(** The invariant while [txg] is the group being synced, or the next to be.
    [A] is what the syncing log has allocated. *)
Record ms_inv mos (txg : Z) ms (M : list space_seg) (AL FR : list (list space_seg)) (ws wss : list Z) (A As : Z -> Prop) : Prop := {
  mi_maps : ms_maps ms M AL FR;
  mi_log : log_ok mos (ms_map ms) (ms_smo_syncing ms) ws A;
  mi_whole : smo_object (ms_smo_syncing ms) <> 0 -> os_content mos (smo_object (ms_smo_syncing ms)) = ws;
  mi_synced : sm_loaded (ms_map ms) = false -> log_ok mos (ms_map ms) (ms_smo ms) wss As /\
    (smo_object (ms_smo ms) = 0 \/ smo_object (ms_smo ms) = smo_object (ms_smo_syncing ms));
  mi_clean : slot [] AL (txg + 3) = [];
  mi_unloaded : sm_loaded (ms_map ms) = false -> forall t, slot [] AL t = [];
  mi_accounts : accounts (region (ms_map ms)) (free_set ms M As) A (covers (slot [] FR (txg + 3))) (group_set AL txg) (group_set FR txg)
}.

#[export] Instance covers_dec L o : Decision (covers L o).
Proof. unfold covers. apply _. Defined.

Lemma covers_or L o : covers L o \/ ~ covers L o.
Proof. destruct (decide (covers L o)); tauto. Qed.

(** What the maps of one slot are. *)
Lemma slot_maps (ms : metaslab T) (X : list (ms_space_map T)) (LX : list (list space_seg)) txg :
  Forall2 (fun m L => sm_wf (cap := cap) m L /\ same_geom (ms_map ms) m) X LX -> length LX = 4%nat ->
  exists m, X !! txg_idx txg = Some m /\ sm_wf (cap := cap) m (slot [] LX txg) /\ same_geom (ms_map ms) m.
Proof.
  intros HF Hl. pose proof (slot_lookup [] LX txg Hl) as E. destruct (Forall2_lookup_r _ _ _ _ _ HF E) as (m & Em & Hm & Hg). by exists m.
Qed.

Lemma map_entries_bound sm L ty : sm_wf (cap := cap) sm L -> sm_start sm mod 2 ^ sm_shift sm = 0 ->
  Z.shiftr (sm_size sm) (sm_shift sm) <= 2 ^ 47 -> Z.of_nat (length (map_entries sm ty L)) <= 2 ^ 49.
Proof.
  intros Hwf Hal H47. assert (0 < 2 ^ sm_shift sm) as HP by (apply Z.pow_pos_nonneg; destruct (sf_geom _ _ Hwf); lia).
  assert (forall k start size, (length (run_list k start size) <= k)%nat) as Hrun.
  { induction k as [|k IH]; intros start size; cbn [run_list]; destruct (size =? 0); cbn [length]; try lia. specialize (IH (start + Z.min size SM_RUN_MAX) (size - Z.min size SM_RUN_MAX)). lia. }
  assert (forall L', (forall x, x ∈ L' -> x ∈ L) -> Z.of_nat (length (map_entries sm ty L')) * 2 ^ sm_shift sm <= 2 * total L') as Hlen.
  { induction L' as [|x L' IH]; intros Hsub; [done|]. unfold map_entries in *. cbn [fmap list_fmap concat]. rewrite length_app, total_cons.
    specialize (IH ltac:(intros; apply Hsub; by right)). destruct (seg_fits_wf sm L x Hwf Hal H47) as [_ F2 _ [_ F5] _]; [apply Hsub; by left|].
    unfold seg_entries at 1. rewrite length_fmap. specialize (Hrun (runs_fuel (seg_units sm x).2) (seg_units sm x).1 (seg_units sm x).2).
    set (uz := (seg_units sm x).2) in *. assert (0 < uz) by nia. assert (Z.of_nat (runs_fuel uz) <= 2 * uz).
    { unfold runs_fuel. rewrite run_max. assert (0 <= uz / 2 ^ 15 <= uz) by (split; [apply Z.div_pos; lia|apply Z.div_le_upper_bound; lia]).
      destruct (decide (uz = 1)) as [->|]; [done|]. lia. }
    rewrite F5. nia. }
  specialize (Hlen L (fun x H => H)). destruct (sf_geom _ _ Hwf) as [G1 G2 G3 G4 _].
  pose proof (segs_total _ _ _ _ (sf_segs _ _ Hwf)) as Ht. rewrite Z.shiftr_div_pow2 in H47 by lia.
  pose proof (Z.div_mod (sm_size sm) (2 ^ sm_shift sm) ltac:(lia)) as Hdm. pose proof (Z.mod_pos_bound (sm_size sm) (2 ^ sm_shift sm) HP). nia.
Qed.
End inv.
