(* ===== verification/MetaslabCount.v ===== *)
(** * Metaslabs: how much is allocated

    The number of bytes a log accounts for ([smo_alloc]) is the size of the
    set it stands for: a metaslab whose log accounts for all of its region has
    no free space left.  The weights of [metaslab_weight] depend on it. *)
From Stdlib Require Import ZArith Lia.
From stdpp Require Import base numbers list option gmap.
From S2P Require Import Prelude SpaceMap SpaceMapProof SpaceMapSync SpaceMapLog.

(** The units of [2 ^ sh] bytes from [off] on. *)
Definition units (off run : Z) : gset Z := list_to_set (seqZ off run).

Lemma elem_of_units off run u : u ∈ units off run <-> off <= u < off + run.
Proof. unfold units. by rewrite elem_of_list_to_set, elem_of_seqZ. Qed.

Lemma size_units off run : 0 <= run -> Z.of_nat (size (units off run)) = run.
Proof. intros Hr. unfold units. rewrite size_list_to_set by apply NoDup_seqZ. rewrite length_seqZ. lia. Qed.

(** [A] is the set of the bytes, from [lo] to [hi], of the units [U]. *)
Record of_units (lo hi sh : Z) (U : gset Z) (A : Z -> Prop) : Prop := {
  ou_mem : forall o, A o <-> lo <= o /\ (o - lo) / 2 ^ sh ∈ U;
  ou_in : forall u, u ∈ U -> 0 <= u /\ (u + 1) * 2 ^ sh <= hi - lo
}.

Section count.
Context (lo hi sh : Z) (Hsh : 0 <= sh).

Lemma unit_range off run o : lo <= o -> off <= (o - lo) / 2 ^ sh < off + run <-> off * 2 ^ sh + lo <= o < off * 2 ^ sh + lo + run * 2 ^ sh.
Proof using Hsh.
  intros Ho. assert (0 < 2 ^ sh) as Hp by (apply Z.pow_pos_nonneg; lia). pose proof (Z.div_mod (o - lo) (2 ^ sh) ltac:(lia)).
  pose proof (Z.mod_pos_bound (o - lo) (2 ^ sh) Hp). split; intros H'; nia.
Qed.

(** The first byte of a unit. *)
Lemma unit_first u : 0 <= u -> lo <= u * 2 ^ sh + lo /\ (u * 2 ^ sh + lo - lo) / 2 ^ sh = u.
Proof using Hsh.
  intros Hu. assert (0 < 2 ^ sh) as Hp by (apply Z.pow_pos_nonneg; lia). split; [nia|].
  replace (u * 2 ^ sh + lo - lo) with (u * 2 ^ sh) by lia. apply Z.div_mul. lia.
Qed.

Lemma run_in off run u : 0 <= off -> off * 2 ^ sh + lo + run * 2 ^ sh <= hi -> u ∈ units off run -> 0 <= u /\ (u + 1) * 2 ^ sh <= hi - lo.
Proof using Hsh. rewrite elem_of_units. intros H1 H2 H3. assert (0 < 2 ^ sh) by (apply Z.pow_pos_nonneg; lia). nia. Qed.

Lemma units_add U A A' off run : of_units lo hi sh U A -> 0 <= off -> off * 2 ^ sh + lo + run * 2 ^ sh <= hi ->
  (forall o, off * 2 ^ sh + lo <= o < off * 2 ^ sh + lo + run * 2 ^ sh -> ~ A o) ->
  (forall o, A' o <-> A o \/ off * 2 ^ sh + lo <= o < off * 2 ^ sh + lo + run * 2 ^ sh) ->
  of_units lo hi sh (U ∪ units off run) A' /\ U ## units off run.
Proof using Hsh.
  intros [M I] Ho Hhi Hno HA. split; [split|].
  - intros o. rewrite HA, M, elem_of_union, elem_of_units. split.
    + intros [[? ?]|Hr]; [tauto|]. assert (lo <= o) by (assert (0 < 2 ^ sh) by (apply Z.pow_pos_nonneg; lia); nia).
      split; [done|]. right. by apply unit_range.
    + intros [Hlo [?|Hr]]; [tauto|]. right. by apply unit_range.
  - intros u [Hu|Hu]%elem_of_union; [by apply I|by eapply run_in].
  - intros u Hu Hr. destruct (I u Hu) as [Hu0 _]. destruct (unit_first u Hu0) as [F1 F2]. apply (Hno (u * 2 ^ sh + lo)).
    + apply unit_range; [done|]. rewrite F2. by apply elem_of_units.
    + apply M. by rewrite F2.
Qed.

Lemma units_remove U A A' off run : of_units lo hi sh U A -> 0 <= off -> off * 2 ^ sh + lo + run * 2 ^ sh <= hi ->
  (forall o, off * 2 ^ sh + lo <= o < off * 2 ^ sh + lo + run * 2 ^ sh -> A o) ->
  (forall o, A' o <-> A o /\ ~ (off * 2 ^ sh + lo <= o < off * 2 ^ sh + lo + run * 2 ^ sh)) ->
  of_units lo hi sh (U ∖ units off run) A' /\ units off run ⊆ U.
Proof using Hsh.
  intros [M I] Ho Hhi Hall HA. split; [split|].
  - intros o. rewrite HA, M, elem_of_difference, elem_of_units. split.
    + intros [[? ?] Hn]. split; [done|]. split; [done|]. by rewrite unit_range.
    + intros [Hlo [? Hn]]. rewrite unit_range in Hn by done. tauto.
  - intros u [Hu _]%elem_of_difference. by apply I.
  - intros u Hu. destruct (run_in off run u Ho Hhi Hu) as [Hu0 _]. destruct (unit_first u Hu0) as [F1 F2].
    destruct (proj1 (M (u * 2 ^ sh + lo))) as [_ HU]; [|by rewrite F2 in HU]. apply Hall, unit_range; [done|]. rewrite F2. by apply elem_of_units.
Qed.

Lemma replays_count ws A n : replays lo hi sh ws A n -> exists U, of_units lo hi sh U A /\ n = Z.of_nat (size U) * 2 ^ sh.
Proof using Hsh.
  assert (0 < 2 ^ sh) as Hp by (apply Z.pow_pos_nonneg; lia).
  induction 1 as [A HA|ws A n e H IH He|ws A A1 n e s z H (U & HU & ->) He Ht Hs Hz Hlo Hhi Hd HA|ws A A1 n e s z H (U & HU & ->) He Ht Hs Hz Hlo Hhi Hd HA].
  - exists ∅. rewrite size_empty. split; [|lia]. split; [|set_solver]. intros o. rewrite elem_of_empty. split; [intros Ho; by destruct (HA o)|tauto].
  - done.
  - destruct (decode_ranges e) as [D1 D2]. subst s z. destruct (units_add U A A1 (SM_OFFSET_DECODE e) (SM_RUN_DECODE e) HU D1 Hhi Hd HA) as [HU' Hdis].
    eexists. split; [exact HU'|]. rewrite size_union, Nat2Z.inj_add, size_units by (done || lia). lia.
  - destruct (decode_ranges e) as [D1 D2]. subst s z. destruct (units_remove U A A1 (SM_OFFSET_DECODE e) (SM_RUN_DECODE e) HU D1 Hhi Hd HA) as [HU' Hsub].
    eexists. split; [exact HU'|]. pose proof (subseteq_size _ _ Hsub). rewrite size_difference, Nat2Z.inj_sub, size_units by (done || lia). lia.
Qed.

(** All of a region of [k] units, or less. *)
Lemma replays_bound ws A n : 0 <= hi - lo -> (hi - lo) mod 2 ^ sh = 0 -> replays lo hi sh ws A n ->
  0 <= n <= hi - lo /\ (n = hi - lo -> forall o, lo <= o < hi -> A o).
Proof using Hsh.
  intros Hle Hmod Hr. assert (0 < 2 ^ sh) as Hp by (apply Z.pow_pos_nonneg; lia). destruct (replays_count _ _ _ Hr) as (U & [M I] & ->).
  set (k := (hi - lo) / 2 ^ sh). assert (hi - lo = k * 2 ^ sh) as Ek by (pose proof (Z.div_mod (hi - lo) (2 ^ sh) ltac:(lia)); unfold k; lia).
  assert (0 <= k) as Hk by (apply Z.div_pos; lia).
  assert (U ⊆ units 0 k) as Hsub by (intros u Hu; destruct (I u Hu); apply elem_of_units; nia).
  pose proof (subseteq_size _ _ Hsub) as Hs. pose proof (size_units 0 k Hk) as Hsk. split; [nia|].
  intros En o Ho. apply M. split; [lia|]. assert (U = units 0 k) as ->.
  { apply leibniz_equiv, set_subseteq_size_equiv; [done|]. nia. }
  apply elem_of_units, unit_range; lia.
Qed.
End count.
