(* ===== verification/MetaslabSync.v ===== *)
(** * Metaslabs: syncing

    [metaslab_sync] and [metaslab_sync_done] keep the invariant.  Appending the
    group's allocations and frees to the log and condensing the log into a
    new one have the same effect: the log then stands for what was allocated,
    plus the group's allocations, minus its frees. *)
From Stdlib Require Import ZArith Lia.
From stdpp Require Import base numbers list option gmap.
From S2P Require Import Prelude AvlSpec SpaceMap SpaceMapProof SpaceMapSync SpaceMapLog TxgList MetaslabFF Metaslab MetaslabProof MetaslabInv.

Lemma replays_empty lo hi sh A n : replays lo hi sh [] A n -> n = 0 /\ forall o, ~ A o.
Proof. intros H. inversion H as [? HA|? ? ? ? ? ? E|? ? ? ? ? ? ? ? ? ? ? ? ? ? ? ? E|? ? ? ? ? ? ? ? ? ? ? ? ? ? ? ? E]; subst; [done|by destruct ws..]. Qed.

Lemma replays_or lo hi sh ws A n : replays lo hi sh ws A n -> forall o, A o \/ ~ A o.
Proof.
  induction 1 as [A HA|ws A n e H IH He|ws A A1 n e s z H IH He Ht Hs Hz Hlo Hhi Hd HA|ws A A1 n e s z H IH He Ht Hs Hz Hlo Hhi Hd HA]; intros o.
  - right. apply HA.
  - apply IH.
  - rewrite HA. destruct (IH o), (decide (s <= o < s + z)); tauto.
  - rewrite HA. destruct (IH o), (decide (s <= o < s + z)); tauto.
Qed.

Section sync.
Context {T D : Type} `{HI : AvlIface T} {cap : nat} {HL : AvlLaws T cap}.
Context `{HD : ObjectStore D} {HDL : ObjectStoreLaws D} `{HM : MosStore D} {HML : MosLaws D}.
Context (zfs_recover : bool).
Implicit Types (ms : metaslab T) (sm : ms_space_map T) (L : list space_seg) (mos : D) (smo : space_map_obj).

(** What an operation on the object [obj] and the vdev's array leaves alone. *)
Definition others_kept mos mos' (obj array : Z) : Prop :=
  forall o, mos_has mos o -> mos_has mos' o /\ (o <> obj -> o <> array -> os_content mos' o = os_content mos o).

Lemma sync_object_spec vd ms mos ws A : log_ok mos (ms_map ms) (ms_smo_syncing ms) ws A ->
  (smo_object (ms_smo_syncing ms) <> 0 -> os_content mos (smo_object (ms_smo_syncing ms)) = ws) ->
  mos_has mos (vdev_ms_array vd) ->
  exists smo mos1, metaslab_sync_object vd ms mos = Some (smo, mos1) /\ smo_object smo <> 0 /\
    (smo_object (ms_smo_syncing ms) <> 0 -> smo_object smo = smo_object (ms_smo_syncing ms) /\ mos1 = mos) /\
    (smo_object (ms_smo_syncing ms) = 0 -> ~ mos_has mos (smo_object smo)) /\
    log_ok mos1 (ms_map ms) smo ws A /\ os_content mos1 (smo_object smo) = ws /\
    smo_objsize smo = smo_objsize (ms_smo_syncing ms) /\ others_kept mos mos1 (smo_object smo) (vdev_ms_array vd).
Proof using HML.
  intros [H1 H2 H3 H4 H5] Hw Harr. unfold metaslab_sync_object. set (smo := ms_smo_syncing ms) in *.
  destruct (Z.eqb_spec (smo_object smo) 0) as [E|Hne].
  2:{ exists smo, mos. split; [done|]. split; [done|]. split; [done|]. split; [by intros ?|]. split; [by split|]. split; [by apply Hw|]. split; [done|].
      intros o Ho. done. }
  specialize (H3 E). subst ws. change (smo_objsize smo = 0) in H1. destruct (replays_empty _ _ _ _ _ H2) as [Hz HA]. rewrite H1, Hz. cbn [Z.eqb].
  destruct (object_alloc_law mos) as (obj & d & -> & Hobj & Hnew & Hhas & Hc & Ho). rewrite (proj2 (Z.eqb_neq _ _)) by done. cbn [negb].
  eexists _, _. split; [done|]. cbn [smo_object smo_objsize]. split; [done|]. split; [done|]. split; [done|].
  assert (obj <> vdev_ms_array vd) as Hna by (intros ->; done).
  split; [split; cbn [smo_object smo_objsize smo_alloc]; try done|].
  - by rewrite <-Hz.
  - intros _. by apply write_has.
  - intros _. apply prefix_nil.
  - split; [by rewrite write_other|]. split; [done|]. intros o Hos. destruct (Ho o Hos) as [Ho1 Ho2].
    split; [by apply write_has|]. intros Ho3 Ho4. by rewrite write_other.
Qed.

Lemma log_ok_same mos mos' sm sm' smo ws A : log_ok mos sm smo ws A -> same_geom sm sm' ->
  (smo_object smo <> 0 -> mos_has mos' (smo_object smo) /\ ws `prefix_of` os_content mos' (smo_object smo)) -> log_ok mos' sm' smo ws A.
Proof.
  intros [H1 H2 H3 H4 H5] (E1 & E2 & E3) Hp. split; [done|by rewrite E1, E2, E3|done|..]; intros Hne; by apply Hp.
Qed.

Lemma log_ok_ext mos sm smo ws A A' : (forall o, A o <-> A' o) -> log_ok mos sm smo ws A -> log_ok mos sm smo ws A'.
Proof. intros HE [H1 H2 H3 H4 H5]. split; try done. by eapply replays_ext. Qed.

(** [space_map_sync] of one map, on the metaslab's log. *)
Lemma sync_one sm L ty smo mos pass txg base ws A :
  ty = SM_ALLOC \/ ty = SM_FREE -> sm_wf (cap := cap) sm L -> same_geom base sm -> ms_geom base ->
  log_ok mos base smo ws A -> smo_object smo <> 0 -> os_content mos (smo_object smo) = ws ->
  Z.of_nat (length ws) < 2 ^ 59 + 2 ^ 58 -> may_log ty A L ->
  exists sm' smo' mos' ws', space_map_sync sm ty smo mos pass txg = Some (sm', smo', mos') /\ sm_wf (cap := cap) sm' [] /\ same_map sm sm' /\
    log_ok mos' base smo' ws' (set_after ty A L) /\ smo_object smo' = smo_object smo /\ os_content mos' (smo_object smo) = ws' /\
    ws `prefix_of` ws' /\ Z.of_nat (length ws') <= Z.of_nat (length ws) + 2 ^ 50 /\
    forall o, mos_has mos o -> mos_has mos' o /\ (o <> smo_object smo -> os_content mos' o = os_content mos o).
Proof using HL HML.
  intros Hty Hwf Hg [Hr H47 H63] [H1 H2 H3 H4 H5] Hne Hw Hlen Hmay. pose proof Hg as (E1 & E2 & E3).
  assert (sm_start sm mod 2 ^ sm_shift sm = 0) as Hal by (rewrite E1, E3; apply Hr).
  assert (Z.shiftr (sm_size sm) (sm_shift sm) <= 2 ^ 47) as H47' by (by rewrite E2, E3).
  pose proof (map_entries_bound sm L ty Hwf Hal H47') as Hb. rewrite <-Hw in *.
  destruct (sync_spec sm L ty smo mos pass txg A _ Hty Hwf Hal H47' H1 eq_refl ltac:(lia)) as
    (sm' & smo' & mos' & n' & E & Hwf' & Hsame & Ho & Hs & Ha & Hp & Hl & Hlog); [by rewrite E1, E2, E3|done|].
  assert (forall o, mos_has mos o -> mos_has mos' o /\ (o <> smo_object smo -> os_content mos' o = os_content mos o)) as Hother.
  { intros o Hos. split.
    - eapply (sync_keeps (fun d => mos_has d o)); [|exact E|done]. intros. by apply write_has.
    - intros Hne'. eapply (sync_keeps (fun d => os_content d o = os_content mos o)); [|exact E|done]. intros d off buf Hd. by rewrite write_other. }
  exists sm', smo', mos', (os_content mos' (smo_object smo)). split; [done|]. split; [done|]. split; [done|].
  split; [split; [done|by rewrite Ha, <-E1, <-E2, <-E3| | |]|].
  - rewrite Ho. done.
  - intros _. rewrite Ho. apply Hother. by apply H4.
  - intros _. by rewrite Ho.
  - split; [done|]. split; [done|]. split; [done|]. split; [lia|]. done.
Qed.

Lemma same_geom_sym sm sm' : same_geom sm sm' -> same_geom sm' sm.
Proof. unfold same_geom. intuition congruence. Qed.

(** Condensing: the region minus what is free, freed, or allocated by the
    groups to come is what the new log has to say is allocated. *)
Lemma condense_spec ms M AL FR txg (am fm fdm : ms_space_map T) La Lf Lfd A f :
  ms_maps (cap := cap) ms M AL FR -> sm_wf (cap := cap) am La -> sm_wf (cap := cap) fm Lf -> sm_wf (cap := cap) fdm Lfd ->
  same_geom (ms_map ms) am -> same_geom (ms_map ms) fm -> same_geom (ms_map ms) fdm ->
  accounts (region (ms_map ms)) (covers M) A (covers Lfd) (upd (group_set AL txg) 0 (fun _ => False)) f ->
  exists am' fm' La', metaslab_condense zfs_recover ms txg am fm fdm = Some (am', fm') /\ sm_wf (cap := cap) am' La' /\ sm_wf (cap := cap) fm' [] /\ same_geom (ms_map ms) am' /\ same_geom (ms_map ms) fm' /\ forall o, covers La' o <-> A o.
Proof using HL.
  intros Hm Ham Hfm Hfdm Gam Gfm Gfdm [C1 C2 C3 C4 C5 C6 _ _]. unfold metaslab_condense.
  destruct (vacate_none_spec am La tt Ham) as (am1 & -> & W1 & S1). cbn [mbind option_bind].
  destruct (vacate_none_spec fm Lf tt Hfm) as (fm1 & -> & Wf & Sf). cbn [mbind option_bind].
  pose proof (same_geom_trans _ _ _ Gam (same_map_geom _ _ S1)) as G1. pose proof G1 as (g1 & g2 & g3).
  destruct (add_spec zfs_recover am1 [] (sm_start am1) (sm_size am1) W1) as (am2 & L2 & -> & W2 & Cov2 & S2 & _).
  { destruct (mg_range _ (mm_geom _ _ _ _ Hm)) as [? ? ? ? ?]. split; rewrite ?g1, ?g2, ?g3; done. }
  { intros o _ Hc. by apply covers_nil in Hc. }
  cbn [mbind option_bind]. pose proof (same_geom_trans _ _ _ G1 (same_map_geom _ _ S2)) as G2.
  assert (forall o, covers L2 o <-> region (ms_map ms) o) as R2.
  { intros o. rewrite Cov2, covers_nil. unfold region. rewrite g1, g2. tauto. }
  destruct (walk_remove_spec zfs_recover (ms_map ms) M am2 L2 (mm_map _ _ _ _ Hm) W2 G2) as (am3 & L3 & -> & W3 & S3 & Cov3).
  { intros o Ho. rewrite R2, C1. tauto. }
  cbn [mbind option_bind]. pose proof (same_geom_trans _ _ _ G2 (same_map_geom _ _ S3)) as G3.
  destruct (walk_remove_spec zfs_recover fdm Lfd am3 L3 Hfdm W3) as (am4 & L4 & -> & W4 & S4 & Cov4);
    [by eapply same_geom_trans; [apply same_geom_sym|]| |].
  { intros o Ho. rewrite Cov3, R2, C1. split; [tauto|]. intros HM'. by eapply C3. }
  cbn [mbind option_bind]. pose proof (same_geom_trans _ _ _ G3 (same_map_geom _ _ S4)) as G4.
  cbn [foldM]. rewrite !txg_idx_u64.
  destruct (slot_maps ms _ _ (txg + 1) (mm_alloc _ _ _ _ Hm) (mm_lenA _ _ _ _ Hm)) as (m1 & -> & Wm1 & Gm1). cbn [mbind option_bind].
  destruct (slot_maps ms _ _ (txg + 2) (mm_alloc _ _ _ _ Hm) (mm_lenA _ _ _ _ Hm)) as (m2 & -> & Wm2 & Gm2). cbn [mbind option_bind].
  assert (forall o, covers (slot [] AL (txg + 1)) o -> upd (group_set AL txg) 0 (fun _ => False) 1%nat o) as U1 by done.
  assert (forall o, covers (slot [] AL (txg + 2)) o -> upd (group_set AL txg) 0 (fun _ => False) 2%nat o) as U2 by done.
  destruct (walk_remove_spec zfs_recover m1 _ am4 L4 Wm1 W4) as (am5 & L5 & -> & W5 & S5 & Cov5);
    [by eapply same_geom_trans; [apply same_geom_sym|]| |].
  { intros o Ho%U1. rewrite Cov4, Cov3, R2, C1. destruct (C5 1%nat o ltac:(lia) Ho) as (? & ? & ?). split; [|done]. split; [|done].
    do 3 right. exists 1%nat. split; [lia|done]. }
  cbn [mbind option_bind]. pose proof (same_geom_trans _ _ _ G4 (same_map_geom _ _ S5)) as G5.
  destruct (walk_remove_spec zfs_recover m2 _ am5 L5 Wm2 W5) as (am6 & L6 & -> & W6 & S6 & Cov6);
    [by eapply same_geom_trans; [apply same_geom_sym|]| |].
  { intros o Ho%U2. rewrite Cov5, Cov4, Cov3, R2, C1. destruct (C5 2%nat o ltac:(lia) Ho) as (? & ? & ?). split; [split; [split; [|done]|done]|].
    - do 3 right. exists 2%nat. split; [lia|done].
    - intros Ho1%U1. by specialize (C6 1%nat 2%nat o ltac:(lia) ltac:(lia) Ho1 Ho). }
  cbn [mbind option_bind]. exists am6, fm1, L6. split; [done|]. split; [done|]. split; [done|].
  split; [by eapply same_geom_trans, same_map_geom|]. split; [eapply same_geom_trans; [exact Gfm|by apply same_map_geom]|].
  intros o. rewrite Cov6, Cov5, Cov4, Cov3, R2, C1. split.
  - intros ((((Ho & H1) & H2) & H3) & H4). destruct Ho as [?|[?|[?|(j & Hj & Ho)]]]; [done|done|done|].
    destruct j as [|[|[|j]]]; [by destruct Ho|done|done|lia].
  - intros Ho. assert (~ covers M o) by (intros ?; by eapply C2). assert (~ covers Lfd o) by (by apply C4).
    repeat split; try done; [tauto| |]; [intros Ha%U1; by destruct (C5 1%nat o ltac:(lia) Ha) as (_ & ? & _)|].
    intros Ha%U2. by destruct (C5 2%nat o ltac:(lia) Ha) as (_ & ? & _).
Qed.

(** The two ways of preparing the maps that are logged. *)
Lemma sync_prepare ms M AL FR txg (cond : bool) (am fm fdm : ms_space_map T) Lfd smo mos ws A f :
  (cond = true -> sm_loaded (ms_map ms) = true) -> ms_maps (cap := cap) ms M AL FR ->
  sm_wf (cap := cap) am (slot [] AL txg) -> sm_wf (cap := cap) fm (slot [] FR txg) -> sm_wf (cap := cap) fdm Lfd ->
  same_geom (ms_map ms) am -> same_geom (ms_map ms) fm -> same_geom (ms_map ms) fdm ->
  log_ok mos (ms_map ms) smo ws A -> smo_object smo <> 0 -> os_content mos (smo_object smo) = ws ->
  may_log SM_ALLOC A (slot [] AL txg) -> may_log SM_FREE (set_after SM_ALLOC A (slot [] AL txg)) (slot [] FR txg) ->
  let A' o := set_after SM_FREE (set_after SM_ALLOC A (slot [] AL txg)) (slot [] FR txg) o in
  (sm_loaded (ms_map ms) = true ->
    accounts (region (ms_map ms)) (covers M) A' (covers Lfd) (upd (group_set AL txg) 0 (fun _ => False)) f) ->
  exists am' fm' smo' mos' La Lf ws' A2,
    (if cond then
       let* (am, fm) := metaslab_condense zfs_recover ms txg am fm fdm in
       let '(smo, mos) := space_map_truncate smo mos in Some (am, fm, smo, mos)
     else Some (am, fm, smo, mos)) = Some (am', fm', smo', mos') /\
    sm_wf (cap := cap) am' La /\ sm_wf (cap := cap) fm' Lf /\ same_geom (ms_map ms) am' /\ same_geom (ms_map ms) fm' /\
    log_ok mos' (ms_map ms) smo' ws' A2 /\ smo_object smo' = smo_object smo /\ os_content mos' (smo_object smo) = ws' /\
    (length ws' <= length ws)%nat /\ (sm_loaded (ms_map ms) = false -> ws' = ws) /\
    may_log SM_ALLOC A2 La /\ may_log SM_FREE (set_after SM_ALLOC A2 La) Lf /\
    (forall o, set_after SM_FREE (set_after SM_ALLOC A2 La) Lf o <-> A' o) /\
    forall o, mos_has mos o -> mos_has mos' o /\ (o <> smo_object smo -> os_content mos' o = os_content mos o).
Proof using HL HML.
  intros Hcond Hm Wam Wfm Wfd Gam Gfm Gfd Hlog Hne Hw Hma Hmf A' Hacc. destruct cond.
  - specialize (Hacc (Hcond eq_refl)).
    destruct (condense_spec ms M AL FR txg am fm fdm _ _ _ A' f Hm Wam Wfm Wfd Gam Gfm Gfd Hacc) as (am' & fm' & La & -> & W1 & W2 & G1 & G2 & Hcov).
    cbn [mbind option_bind]. unfold space_map_truncate. eexists am', fm', _, _, La, [], [], (fun _ => False). split; [done|].
    split; [done|]. split; [done|]. split; [done|]. split; [done|]. pose proof (free_law mos (smo_object smo)) as Hfree.
    split; [split; cbn [smo_object smo_objsize smo_alloc]; try done|].
    + apply replays_nil. intros o [].
    + intros _. apply free_has. by apply (lo_has _ _ _ _ _ Hlog).
    + intros _. apply prefix_nil.
    + cbn [smo_object]. split; [done|]. split; [done|]. split; [cbn; lia|]. split; [by intros E; rewrite Hcond in E|].
      split; [intros o _ []|]. split; [intros o Ho; by apply covers_nil in Ho|]. split.
      * intros o. unfold set_after at 1 2. cbn [SM_FREE SM_ALLOC Z.eqb]. rewrite covers_nil, Hcov. tauto.
      * intros o Ho. split; [by apply free_has|]. intros Hne'. by apply free_other.
  - exists am, fm, smo, mos, (slot [] AL txg), (slot [] FR txg), ws, A. repeat (split; [done|]). done.
Qed.

Lemma set_after_sync A La Lf o : set_after SM_FREE (set_after SM_ALLOC A La) Lf o <-> (A o \/ covers La o) /\ ~ covers Lf o.
Proof. done. Qed.

(** Storing a map in its slot. *)
Lemma maps_insert ms (X : list (ms_space_map T)) LX t m L :
  Forall2 (fun m L => sm_wf (cap := cap) m L /\ same_geom (ms_map ms) m) X LX -> sm_wf (cap := cap) m L -> same_geom (ms_map ms) m ->
  Forall2 (fun m L => sm_wf (cap := cap) m L /\ same_geom (ms_map ms) m) (<[t := m]> X) (<[t := L]> LX).
Proof. intros HF Hw Hg. by apply Forall2_insert. Qed.

Lemma metaslab_sync_spec vd pass ms mos txg M AL FR ws wss A As :
  ms_inv (cap := cap) mos txg ms M AL FR ws wss A As -> mos_has mos (vdev_ms_array vd) -> Z.of_nat (length ws) < 2 ^ 59 ->
  exists ms' mos' Lfd ws', metaslab_sync zfs_recover vd pass ms mos txg = Some (ms', mos') /\
    ms_inv (cap := cap) mos' txg ms' M (<[txg_idx txg := []]> AL) (<[txg_idx (txg + 3) := Lfd]> (<[txg_idx txg := []]> FR)) ws' wss
      (fun o => (A o \/ covers (slot [] AL txg) o) /\ ~ covers (slot [] FR txg) o) As /\
    (forall o, covers Lfd o <-> covers (slot [] FR (txg + 3)) o \/ covers (slot [] FR txg) o) /\
    ms_map ms' = ms_map ms /\ ms_smo ms' = ms_smo ms /\ ms_weight ms' = ms_weight ms /\ ms_group ms' = ms_group ms /\
    smo_object (ms_smo_syncing ms') <> 0 /\
    (smo_object (ms_smo_syncing ms) <> 0 -> smo_object (ms_smo_syncing ms') = smo_object (ms_smo_syncing ms)) /\
    (smo_object (ms_smo_syncing ms) = 0 -> ~ mos_has mos (smo_object (ms_smo_syncing ms'))) /\
    Z.of_nat (length ws') <= Z.of_nat (length ws) + 2 ^ 51 /\
    mos_bonus mos' (smo_object (ms_smo_syncing ms')) = Some (ms_smo_syncing ms') /\
    others_kept mos mos' (smo_object (ms_smo_syncing ms')) (vdev_ms_array vd).
Proof using HL HML.
  intros [Hm Hlog Hw Hsy Hcl Hun Hac] Harr Hlen. unfold metaslab_sync.
  destruct (slot_maps ms _ _ txg (mm_alloc _ _ _ _ Hm) (mm_lenA _ _ _ _ Hm)) as (am & -> & Wam & Gam). cbn [mbind option_bind].
  destruct (slot_maps ms _ _ txg (mm_free _ _ _ _ Hm) (mm_lenF _ _ _ _ Hm)) as (fm & -> & Wfm & Gfm). cbn [mbind option_bind].
  rewrite txg_idx_clean.
  destruct (slot_maps ms _ _ (txg + 3) (mm_free _ _ _ _ Hm) (mm_lenF _ _ _ _ Hm)) as (fdm & -> & Wfd & Gfd). cbn [mbind option_bind].
  destruct (sync_object_spec vd ms mos ws A Hlog Hw Harr) as (smo & mos1 & -> & Hobj & Hold & Hnew & Hlog1 & Hw1 & Hsz1 & Hoth1). cbn [mbind option_bind].
  assert (forall o, group_set AL txg 0 o <-> covers (slot [] AL txg) o) as Ea0 by (intros o; unfold group_set; by rewrite Z.add_0_r).
  assert (forall o, group_set FR txg 0 o <-> covers (slot [] FR txg) o) as Ef0 by (intros o; unfold group_set; by rewrite Z.add_0_r).
  pose proof (accounts_sync _ _ _ _ _ _ Hac (fun o => covers_or _ o)) as Hac'.
  pose proof Hac as [C1 C2 C3 C4 C5 C6 C7 C8].
  assert (forall o, covers (slot [] FR txg) o -> A o \/ covers (slot [] AL txg) o) as Hf0.
  { intros o Ho%Ef0. destruct (C7 0%nat o ltac:(lia) Ho) as [?|(i & Hi & Hai)]; [by left|right]. assert (i = 0%nat) as -> by lia. by apply Ea0. }
  destruct (walk_add_spec zfs_recover fm _ fdm _ Wfm Wfd) as (fdm' & Lfd & -> & Wfd' & Sfd & Covfd);
    [eapply same_geom_trans; [by apply same_geom_sym|done]| |].
  { intros o Ho Hd. destruct (Hf0 o Ho) as [?|Ha%Ea0]; [by eapply C4|]. by destruct (C5 0%nat o ltac:(lia) Ha) as (_ & _ & ?). }
  cbn [mbind option_bind]. set (cond := sm_loaded (ms_map ms) && _ && _).
  destruct (sync_prepare ms M AL FR txg cond am fm fdm' Lfd smo mos1 ws A (upd (group_set FR txg) 0 (fun _ => False)))
    as (am' & fm' & smo2 & mos2 & La & Lf & ws2 & A2 & -> & Wam' & Wfm' & Gam' & Gfm' & Hlog2 & Hobj2 & Hw2 & Hlen2 & Hws2 & Hma & Hmf & HA' & Hoth2);
    try done.
  { intros E. unfold cond in E. by destruct (sm_loaded (ms_map ms)). }
  { eapply same_geom_trans; [exact Gfd|by apply same_map_geom]. }
  { intros o Ho%Ea0. by destruct (C5 0%nat o ltac:(lia) Ho) as (_ & ? & _). }
  { intros El. eapply accounts_ext; [exact Hac'|..]; try done.
    - intros o. unfold free_set. by rewrite El.
    - intros o. rewrite set_after_sync, Ea0, Ef0. done.
    - intros o. by rewrite Covfd, Ef0. }
  cbn [mbind option_bind].
  destruct (sync_one am' La SM_ALLOC smo2 mos2 pass txg (ms_map ms) ws2 A2)
    as (am3 & smo3 & mos3 & ws3 & -> & Wam3 & Sam3 & Hlog3 & Hobj3 & Hw3 & Hp3 & Hlen3 & Hoth3); try done; try lia.
  { apply Hm. } { by rewrite Hobj2. }
  cbn [mbind option_bind].
  destruct (sync_one fm' Lf SM_FREE smo3 mos3 pass txg (ms_map ms) ws3 (set_after SM_ALLOC A2 La))
    as (fm4 & smo4 & mos4 & ws4 & -> & Wfm4 & Sfm4 & Hlog4 & Hobj4 & Hw4 & Hp4 & Hlen4 & Hoth4); try done; try lia.
  { apply Hm. } { by rewrite Hobj3. }
  cbn [mbind option_bind].
  assert (smo_object smo4 = smo_object smo) as Eobj by congruence.
  assert (mos_has mos4 (smo_object smo4)) as Hhas4 by (apply (lo_has _ _ _ _ _ Hlog4); congruence).
  rewrite bonus_hold_law by done. cbn [Z.eqb].
  eexists _, _, Lfd, ws4. split; [done|].
  assert (forall o, mos_has mos o -> mos_has mos4 o /\ (o <> smo_object smo -> o <> vdev_ms_array vd -> os_content mos4 o = os_content mos o)) as Hoth.
  { intros o Ho. destruct (Hoth1 o Ho) as [K1 K1']. destruct (Hoth2 o K1) as [K2 K2'], (Hoth3 o K2) as [K3 K3'], (Hoth4 o K3) as [K4 K4'].
    split; [done|]. intros N1 N2. rewrite K4', K3', K2', K1' by congruence. done. }
  assert (sm_loaded (ms_map ms) = false -> ws `prefix_of` ws4) as Hpre.
  { intros El. rewrite (Hws2 El) in Hp3. by eapply PreOrder_Transitive. }
  assert (os_content (dmu_bonus_write mos4 (smo_object smo4) smo4) (smo_object smo4) = ws4) as Hw5 by (rewrite bonus_content; congruence).
  split; [|split; [exact Covfd|]]; cbn [ms_map ms_smo ms_weight ms_group ms_smo_syncing with_syncing with_maps].
  2:{ repeat (split; [done|]). split; [congruence|]. split; [intros Hz; rewrite Eobj; by apply Hold|]. split; [by rewrite Eobj|]. split; [lia|]. split; [by apply bonus_set|].
      intros o Ho. destruct (Hoth o Ho) as [K1 K2]. split; [by apply bonus_has|]. rewrite bonus_content, Eobj. done. }
  pose proof (mm_lenA _ _ _ _ Hm) as LA. pose proof (mm_lenF _ _ _ _ Hm) as LF.
  assert (forall j, 0 <= j < 4 -> slot [] (<[txg_idx txg := []]> AL) (txg + j) = if decide (j = 0) then [] else slot [] AL (txg + j)) as SA.
  { intros j Hj. pose proof (slot_insert [] AL txg [] 0 j LA ltac:(lia) Hj) as E. rewrite Z.add_0_r in E. rewrite E.
    destruct (decide (j = 0)), (decide (0 = j)); congruence || lia. }
  assert (forall j, 0 <= j < 3 -> slot [] (<[txg_idx (txg + 3) := Lfd]> (<[txg_idx txg := []]> FR)) (txg + j) =
    if decide (j = 0) then [] else slot [] FR (txg + j)) as SF.
  { intros j Hj. rewrite slot_insert, decide_False by (rewrite ?length_insert; lia). pose proof (slot_insert [] FR txg [] 0 j LF ltac:(lia) ltac:(lia)) as E.
    rewrite Z.add_0_r in E. rewrite E. destruct (decide (j = 0)), (decide (0 = j)); congruence || lia. }
  split; cbn [ms_map ms_smo ms_smo_syncing with_syncing with_maps].
  - split; cbn [ms_map ms_allocmap ms_freemap with_syncing with_maps]; rewrite ?length_insert; try (by apply Hm); try done.
    + apply maps_insert; [apply Hm|done|]. eapply same_geom_trans; [exact Gam'|by apply same_map_geom].
    + apply maps_insert; [apply maps_insert; [apply Hm|done|exact (same_geom_trans _ _ _ Gfm' (same_map_geom _ _ Sfm4))]|done|].
      exact (same_geom_trans _ _ _ Gfd (same_map_geom _ _ Sfd)).
  - eapply log_ok_ext; [|eapply log_ok_same; [exact Hlog4|by repeat split|]].
    + intros o. by rewrite HA', set_after_sync.
    + intros _. split; [by apply bonus_has|]. by rewrite Hw5.
  - done.
  - intros El. destruct (Hsy El) as [Hl0 Hor]. split.
    + eapply log_ok_same; [exact Hl0|by repeat split|]. intros Hn0. destruct Hor as [?|Eo]; [done|].
      rewrite Eo in *. destruct (Hold Hn0) as [Eo' _]. rewrite <-Eo', <-Eobj in *. split; [by apply bonus_has|]. rewrite Hw5.
      pose proof (lo_prefix _ _ _ _ _ Hl0) as Hp0. rewrite Eo in Hp0. specialize (Hp0 Hn0). rewrite (Hw Hn0) in Hp0.
      etransitivity; [exact Hp0|by apply Hpre].
    + destruct Hor as [?|Eo]; [by left|]. destruct (decide (smo_object (ms_smo_syncing ms) = 0)) as [E0|Hn0]; [left; congruence|].
      right. destruct (Hold Hn0). congruence.
  - rewrite SA by lia. done.
  - intros El t. specialize (Hun El). unfold slot in *. destruct (decide (txg_idx txg = txg_idx t)) as [->|Hne].
    + rewrite list_lookup_insert_eq; [done|]. rewrite LA. apply txg_idx_lt.
    + rewrite list_lookup_insert_ne by done. apply Hun.
  - eapply accounts_ext; [exact Hac'|..].
    + done.
    + intros o. cbn beta. by rewrite Ea0, Ef0.
    + intros o. rewrite slot_insert, decide_True by (rewrite ?length_insert; lia). by rewrite Covfd, <-Ef0.
    + intros j o Hj. unfold group_set at 2. rewrite SA by lia. unfold upd. destruct (decide (j = 0%nat)), (decide (Z.of_nat j = 0)); try lia; [|done].
      by rewrite covers_nil.
    + intros j o Hj. unfold group_set at 2. rewrite SF by lia. unfold upd. destruct (decide (j = 0%nat)), (decide (Z.of_nat j = 0)); try lia; [|done].
      by rewrite covers_nil.
Qed.

(** ** [metaslab_sync_done] *)

Lemma slot_wrap {X} (d : X) l txg : slot d l (txg + 4) = slot d l txg.
Proof. unfold slot. rewrite !txg_idx_mod. replace (txg + 4) with (txg + 1 * 4) by lia. by rewrite Z_mod_plus_full. Qed.

Lemma all_slots {X} (P : X -> Prop) (d : X) l txg :
  P (slot d l txg) -> P (slot d l (txg + 1)) -> P (slot d l (txg + 2)) -> P (slot d l (txg + 3)) -> forall t, P (slot d l t).
Proof.
  intros H0 H1 H2 H3 t. assert (exists j, 0 <= j < 4 /\ txg_idx t = txg_idx (txg + j)) as (j & Hj & E).
  { exists ((t - txg) mod 4). split; [apply Z.mod_pos_bound; lia|]. rewrite !txg_idx_mod. f_equal.
    rewrite Zplus_mod_idemp_r. f_equal. lia. }
  unfold slot in *. rewrite E. assert (j = 0 \/ j = 1 \/ j = 2 \/ j = 3) as [->|[->|[->| ->]]] by lia; try done. by rewrite Z.add_0_r.
Qed.

(** The accounts when the group [txg] is done and its freed map is emptied. *)
Lemma accounts_next R M A AL FR txg : length FR = 4%nat -> slot [] AL txg = [] -> slot [] FR txg = [] -> slot [] AL (txg + 3) = [] ->
  accounts R M A (covers (slot [] FR (txg + 3))) (group_set AL txg) (group_set FR txg) ->
  accounts R (fun o => M o \/ covers (slot [] FR (txg + 3)) o) A (covers (slot [] (<[txg_idx (txg + 3) := []]> FR) (txg + 1 + 3)))
    (group_set AL (txg + 1)) (group_set (<[txg_idx (txg + 3) := []]> FR) (txg + 1)).
Proof.
  intros LF EA EF EC Hac.
  assert (forall j, 0 <= j < 4 -> slot [] (<[txg_idx (txg + 3) := []]> FR) (txg + j) = if decide (3 = j) then [] else slot [] FR (txg + j)) as SF.
  { intros j Hj. by apply slot_insert. }
  eapply accounts_ext; [apply (accounts_done _ _ _ _ _ _ Hac (group_set AL (txg + 1)) (group_set (<[txg_idx (txg + 3) := []]> FR) (txg + 1)))|..];
    try done; unfold group_set; cbn [Z.of_nat].
  - intros o. rewrite Z.add_0_r, EA. by intros ?%covers_nil.
  - intros o. rewrite Z.add_0_r, EF. by intros ?%covers_nil.
  - intros j o Hj. by replace (txg + 1 + Z.of_nat j) with (txg + Z.of_nat (S j)) by lia.
  - intros j o Hj. replace (txg + 1 + Z.of_nat j) with (txg + Z.of_nat (S j)) by lia. by rewrite SF, decide_False by lia.
  - intros o. replace (txg + 1 + Z.of_nat 2) with (txg + 3) by lia. rewrite EC. by intros ?%covers_nil.
  - intros o. replace (txg + 1 + Z.of_nat 2) with (txg + 3) by lia. rewrite SF, decide_True by lia. by intros ?%covers_nil.
  - intros o. replace (txg + 1 + 3) with (txg + 4) by lia. rewrite slot_wrap.
    replace (slot [] _ txg) with ([] : list space_seg); [by rewrite covers_nil|].
    pose proof (SF 0 ltac:(lia)) as E. rewrite Z.add_0_r, decide_False in E by lia. by rewrite E, EF.
Qed.

(** What is free once no group has allocated anything. *)
Lemma accounts_free_rest R M A fd a f : accounts R M A fd a f -> (forall o, ~ fd o) -> (forall j o, (j < 3)%nat -> ~ a j o) ->
  forall o, M o <-> R o /\ ~ A o.
Proof.
  intros [C1 C2 _ _ _ _ _ _] Hfd Ha o. rewrite C1. split; [intros Ho; split; [by left|by apply C2]|].
  intros [[?|[?|[Hd|(j & Hj & Hj')]]] HnA]; [done|done|by apply Hfd in Hd|by apply Ha in Hj'].
Qed.

Lemma evictable_spec ms M AL FR txg : ms_maps (cap := cap) ms M AL FR ->
  exists b, sync_done_evictable ms txg = Some b /\ (b = true -> slot [] AL (txg + 1) = [] /\ slot [] AL (txg + 2) = []).
Proof using HL.
  intros Hm. unfold sync_done_evictable. cbn [foldM]. rewrite !txg_idx_u64.
  destruct (slot_maps ms _ _ (txg + 1) (mm_alloc _ _ _ _ Hm) (mm_lenA _ _ _ _ Hm)) as (m1 & -> & Wm1 & _). cbn [mbind option_bind].
  destruct (slot_maps ms _ _ (txg + 2) (mm_alloc _ _ _ _ Hm) (mm_lenA _ _ _ _ Hm)) as (m2 & -> & Wm2 & _). cbn [mbind option_bind].
  eexists. split; [done|]. cbn [andb]. intros E. bprop. split; by eapply wf_empty.
Qed.

(** The freed map, vacated into the in-core map when that is loaded. *)
Lemma sync_done_vacate ms (fdm : ms_space_map T) M L (loaded : bool) :
  sm_wf (cap := cap) (ms_map ms) M -> sm_wf (cap := cap) fdm L -> same_geom (ms_map ms) fdm -> sm_loaded (ms_map ms) = loaded ->
  (loaded = true -> sm_ops (ms_map ms) = Some tt /\ forall o, covers L o -> ~ covers M o) ->
  exists fdm' sm' M', (if loaded then space_map_vacate (space_map_free zfs_recover ff_vec) fdm (ms_map ms)
      else space_map_vacate (fun sm _ _ => Some sm) fdm (ms_map ms)) = Some (fdm', sm') /\
    sm_wf (cap := cap) fdm' [] /\ same_geom (ms_map ms) fdm' /\ sm_wf (cap := cap) sm' M' /\ same_map (ms_map ms) sm' /\
    (if loaded then forall o, covers M' o <-> covers M o \/ covers L o else sm' = ms_map ms /\ M' = M).
Proof using HL.
  intros Wm Wf G El Hl. destruct loaded.
  - destruct (Hl eq_refl) as [Hops Hout].
    destruct (vacate_free_spec zfs_recover fdm L (ms_map ms) M Wf Wm (same_geom_sym _ _ G) Hops Hout) as (s' & d' & L' & E & W' & S' & Wd & Sd & Hc).
    exists s', d', L'. split; [done|]. split; [done|]. split; [eapply same_geom_trans; [exact G|by apply same_map_geom]|]. done.
  - destruct (vacate_none_spec fdm L (ms_map ms) Wf) as (s' & E & W' & S'). exists s', (ms_map ms), M. split; [done|]. split; [done|].
    split; [eapply same_geom_trans; [exact G|by apply same_map_geom]|]. split; [done|]. split; [apply same_map_refl|done].
Qed.

(** What [sync_done_maps] leaves: the invariant for the next group. *)
Record sync_done_ok mos txg ms ms' M (AL FR : list (list space_seg)) (ws : list Z) (A As : Z -> Prop) (M' : list space_seg) : Prop := {
  sd_inv : ms_inv (cap := cap) mos (txg + 1) ms' M' AL (<[txg_idx (txg + 3) := []]> FR) ws ws A A;
  sd_free o : free_set ms' M' A o <-> free_set ms M As o \/ covers (slot [] FR (txg + 3)) o;
  sd_geom : same_geom (ms_map ms) (ms_map ms');
  sd_smo : ms_smo ms' = ms_smo_syncing ms /\ ms_smo_syncing ms' = ms_smo_syncing ms;
  sd_weight : ms_weight ms' = ms_weight ms /\ ms_group ms' = ms_group ms;
  sd_loaded : is_active ms = true -> sm_loaded (ms_map ms') = sm_loaded (ms_map ms)
}.

Lemma maps_geom ms sm' (X : list (ms_space_map T)) LX : same_geom (ms_map ms) sm' ->
  Forall2 (fun m L => sm_wf (cap := cap) m L /\ same_geom (ms_map ms) m) X LX ->
  Forall2 (fun m L => sm_wf (cap := cap) m L /\ same_geom sm' m) X LX.
Proof.
  intros Hg HF. eapply Forall2_impl; [exact HF|]. intros m L [Hw Hm]. split; [done|]. eapply same_geom_trans; [|exact Hm]. by apply same_geom_sym.
Qed.

Lemma ms_geom_same sm sm' : same_geom sm sm' -> ms_geom sm -> ms_geom sm'.
Proof. intros (E1 & E2 & E3) [[? ? ? ? ?] ? ?]. split; [split|..]; rewrite ?E1, ?E2, ?E3; done. Qed.

(** The metaslab whose freed map is emptied and whose map is now [sm']. *)
Lemma sync_done_inv mos txg ms M AL FR ws wss A As sm' M' fdm' :
  ms_inv (cap := cap) mos txg ms M AL FR ws wss A As -> slot [] AL txg = [] -> slot [] FR txg = [] ->
  sm_wf (cap := cap) fdm' [] -> same_geom (ms_map ms) fdm' ->
  sm_wf (cap := cap) sm' M' -> same_geom (ms_map ms) sm' -> sm_loading sm' = false ->
  (if sm_loaded sm' then sm_ops sm' = Some tt /\ cursors_ok sm' else sm_ops sm' = None /\ sm_ppd sm' = [] /\ M' = []) ->
  (sm_loaded sm' = false -> forall t, slot [] AL t = []) ->
  (sm_loaded sm' = true -> forall o, covers M' o <-> free_set ms M As o \/ covers (slot [] FR (txg + 3)) o) ->
  (is_active ms = true -> sm_loaded sm' = sm_loaded (ms_map ms)) ->
  let ms' := mk_ms (ms_smo_syncing ms) (ms_smo_syncing ms) (ms_allocmap ms) (<[txg_idx (txg + 3) := fdm']> (ms_freemap ms)) sm' (ms_weight ms) (ms_group ms) in
  sync_done_ok mos txg ms ms' M AL FR ws A As M'.
Proof using HL.
  intros [Hm Hlog Hw Hsy Hcl Hun Hac] EA EF Wf Gf Ws Gs Hlg Hpk Hun' Hfree Hact ms'.
  pose proof (accounts_next _ _ _ AL FR txg (mm_lenF _ _ _ _ Hm) EA EF Hcl Hac) as Hac'.
  assert (forall o, region (ms_map ms) o <-> region sm' o) as HR by (intros o; unfold region; by destruct Gs as (-> & -> & _)).
  assert (slot [] (<[txg_idx (txg + 3) := []]> FR) (txg + 1 + 3) = []) as Efd.
  { replace (txg + 1 + 3) with (txg + 4) by lia. rewrite slot_wrap. pose proof (slot_insert [] FR txg [] 3 0 (mm_lenF _ _ _ _ Hm) ltac:(lia) ltac:(lia)) as E.
    rewrite Z.add_0_r, decide_False in E by lia. by rewrite E, EF. }
  assert (forall o, free_set ms' M' A o <-> free_set ms M As o \/ covers (slot [] FR (txg + 3)) o) as Hfs.
  { intros o. unfold free_set at 1. cbn [ms_map ms']. destruct (sm_loaded sm') eqn:El; [by apply Hfree|].
    rewrite (accounts_free_rest _ _ _ _ _ _ Hac'), <-HR; [done|..].
    - rewrite Efd. by intros o' ?%covers_nil.
    - intros j o' Hj. unfold group_set. rewrite (Hun' eq_refl). by intros ?%covers_nil. }
  split; [|exact Hfs|exact Gs|done|done|exact Hact]. split; cbn [ms_map ms_smo ms_smo_syncing ms'].
  - split; cbn [ms_map ms_allocmap ms_freemap ms']; try done.
    + by apply (ms_geom_same (ms_map ms)), Hm.
    + apply (maps_geom ms); [done|apply Hm].
    + apply (maps_geom ms); [done|]. apply maps_insert; [apply Hm|done|done].
    + apply Hm.
    + rewrite length_insert. apply Hm.
  - eapply log_ok_same; [exact Hlog|done|]. intros Hne. split; [by apply Hlog|]. by rewrite Hw.
  - done.
  - intros El. split; [|by right]. eapply log_ok_same; [exact Hlog|done|]. intros Hne. split; [by apply Hlog|]. by rewrite Hw.
  - replace (txg + 1 + 3) with (txg + 4) by lia. by rewrite slot_wrap.
  - done.
  - destruct Hac' as [C1 C2 C3 C4 C5 C6 C7 C8]. cbn [ms_map ms'] in *. eapply (accounts_ext _ (fun o => free_set ms M As o \/ covers (slot [] FR (txg + 3)) o)); try done.
    + split; try done. intros o. rewrite <-HR. apply C1.
Qed.

Lemma sync_done_maps_spec mos txg ms M AL FR ws wss A As :
  ms_inv (cap := cap) mos txg ms M AL FR ws wss A As -> slot [] AL txg = [] -> slot [] FR txg = [] ->
  exists ms' M', sync_done_maps zfs_recover ms txg = Some ms' /\ sync_done_ok mos txg ms ms' M AL FR ws A As M'.
Proof using HL.
  intros Hinv EA EF. pose proof Hinv as [Hm Hlog Hw Hsy Hcl Hun Hac]. unfold sync_done_maps, space_map_load_wait.
  rewrite (mm_loading _ _ _ _ Hm), txg_idx_clean. cbn [negb mbind option_bind].
  destruct (slot_maps ms _ _ (txg + 3) (mm_free _ _ _ _ Hm) (mm_lenF _ _ _ _ Hm)) as (fdm & -> & Wfd & Gfd). cbn [mbind option_bind].
  pose proof (mm_picker _ _ _ _ Hm) as Hpk. pose proof (mm_loading _ _ _ _ Hm) as Hlg.
  destruct (sync_done_vacate ms fdm M _ (sm_loaded (ms_map ms)) (mm_map _ _ _ _ Hm) Wfd Gfd eq_refl) as (fdm' & sm' & M' & -> & Wf & Gf & Ws & Ss & HM').
  { intros El. rewrite El in Hpk. split; [apply Hpk|]. intros o Ho HM''. eapply (ac_Mfd _ _ _ _ _ _ Hac o); [|exact Ho].
    unfold free_set. by rewrite El. }
  cbn [mbind option_bind]. pose proof Ss as (_ & _ & _ & Eld & Elg & Eops & Eppd).
  assert (sync_done_ok mos txg ms (mk_ms (ms_smo_syncing ms) (ms_smo_syncing ms) (ms_allocmap ms) (<[txg_idx (txg + 3) := fdm']> (ms_freemap ms)) sm'
    (ms_weight ms) (ms_group ms)) M AL FR ws A As M') as Hkeep.
  { eapply sync_done_inv; try done.
    - by apply same_map_geom.
    - by rewrite Elg.
    - rewrite Eld, Eops, Eppd. destruct (sm_loaded (ms_map ms)); [split; [apply Hpk|]|].
      + eapply cursors_same; [exact Ss|apply Hpk].
      + destruct HM' as [_ ->]. done.
    - rewrite Eld. done.
    - rewrite Eld. intros El o. rewrite El in HM'. rewrite HM'. unfold free_set. by rewrite El. }
  destruct (sm_loaded sm' && negb _) eqn:Eev; [|by eexists _, M'].
  apply andb_true_iff in Eev as [El' Hna%negb_true_iff]. rewrite El' in Eld. rewrite <-Eld in *.
  set (ms1 := with_smo _ _). assert (ms_maps (cap := cap) ms1 M' AL (<[txg_idx (txg + 3) := []]> FR)) as Hm1 by apply (mi_maps _ _ _ _ _ _ _ _ _ _ (sd_inv _ _ _ _ _ _ _ _ _ _ _ Hkeep)).
  destruct (evictable_spec ms1 M' AL _ txg Hm1) as (b & -> & Hb). cbn [mbind option_bind].
  destruct b; [|by eexists _, M']. destruct (Hb eq_refl) as [E1 E2].
  destruct (unload_spec sm' M' Ws El') as (sm2 & -> & W2 & G2 & U1 & U2 & U3 & U4); [rewrite Eops; by rewrite (proj1 Hpk)|]. cbn [mbind option_bind].
  eexists _, []. split; [done|].
  change (with_map ms1 sm2) with (mk_ms (ms_smo_syncing ms) (ms_smo_syncing ms) (ms_allocmap ms) (<[txg_idx (txg + 3) := fdm']> (ms_freemap ms)) sm2
    (ms_weight ms) (ms_group ms)). eapply sync_done_inv; try done.
  - eapply same_geom_trans; [by apply same_map_geom|done].
  - congruence.
  - by rewrite U1.
  - intros _. by apply (all_slots (fun x => x = []) [] AL txg).
  - by rewrite U1.
  - intros Hact. change (is_active ms = false) in Hna. congruence.
Qed.
End sync.
