(* ===== verification/MetaslabGroup.v ===== *)
(** * Metaslab groups

    The tree of a group holds its metaslabs by decreasing weight, and every
    change of a weight keeps it so.  The bounds of [metaslab_weight] that the
    code asserts hold, so that sorting never panics. *)
From Stdlib Require Import ZArith Lia Sorted.
From stdpp Require Import base numbers list option gmap.
From S2P Require Import Prelude AvlOps AvlSpec SpaceMap SpaceMapProof SpaceMapSync SpaceMapLog TxgList MetaslabFF Metaslab MetaslabProof MetaslabInv MetaslabSync Blkptr.

(** ** The order of a group *)

(** By weight and start: heavier first, then lower. *)
Definition before (k1 k2 : Z * Z) : Prop := k2.1 < k1.1 \/ (k1.1 = k2.1 /\ k1.2 < k2.2).

Section group.
Context {T TG : Type} `{HIG : AvlIface TG} {gcap : nat} {HLG : AvlLaws TG gcap}.
Implicit Types (ms : metaslab T) (mg : group T TG).

Definition key_of ms : Z * Z := (ms_weight ms, sm_start (ms_map ms)).
Definition ms_key mg (a : Z) : Z * Z := match mg_ms mg !! a with Some ms => key_of ms | None => (0, 0) end.

Lemma compare_spec m1 m2 :
  (metaslab_compare m1 m2 = -1 /\ before (key_of m1) (key_of m2)) \/
  (metaslab_compare m1 m2 = 1 /\ before (key_of m2) (key_of m1)) \/
  (metaslab_compare m1 m2 = 0 /\ key_of m1 = key_of m2).
Proof.
  unfold metaslab_compare, before, key_of. cbn [fst snd].
  destruct (Z.ltb_spec (ms_weight m1) (ms_weight m2)); [right; left; lia|].
  destruct (Z.ltb_spec (ms_weight m2) (ms_weight m1)); [left; lia|].
  destruct (Z.ltb_spec (sm_start (ms_map m1)) (sm_start (ms_map m2))); [left; lia|].
  destruct (Z.ltb_spec (sm_start (ms_map m2)) (sm_start (ms_map m1))); [right; left; lia|].
  right; right. split; [done|]. f_equal; lia.
Qed.

Lemma before_trans k1 k2 k3 : before k1 k2 -> before k2 k3 -> before k1 k3.
Proof. unfold before. lia. Qed.
Lemma before_irrefl k1 k2 : before k1 k2 -> before k2 k1 -> False.
Proof. unfold before. lia. Qed.

(** The objects [l] in the order of their metaslabs, whose starts differ. *)
Record ordered mg (l : list Z) : Prop := {
  or_ms : forall a, a ∈ l -> is_Some (mg_ms mg !! a);
  or_sorted : StronglySorted (fun a b => before (ms_key mg a) (ms_key mg b)) l;
  or_starts : forall a b, a ∈ l -> b ∈ l -> (ms_key mg a).2 = (ms_key mg b).2 -> a = b
}.

Record group_ok mg (l : list Z) : Prop := {
  go_tree : os_abs (mg_metaslab_tree mg) l;
  go_ordered : ordered mg l;
  go_all : forall a, is_Some (mg_ms mg !! a) -> a ∈ l
}.

Lemma key_lookup mg a ms : mg_ms mg !! a = Some ms -> ms_key mg a = key_of ms.
Proof. unfold ms_key. by intros ->. Qed.

Lemma ms_compar_compares mg l ms : ordered mg l -> compares (ms_compar mg ms) l.
Proof.
  intros [H1 H2 _]. split.
  - intros a Ha. destruct (H1 a Ha) as [m E]. unfold ms_compar. rewrite E. destruct (compare_spec ms m); lia.
  - induction H2 as [|a l Hl IH Ha]; [constructor|]. constructor; [apply IH; intros; apply H1; by right|].
    apply Forall_forall. intros b Hb. rewrite Forall_forall in Ha. specialize (Ha b Hb).
    destruct (H1 a ltac:(by left)) as [ma Ea], (H1 b ltac:(by right)) as [mb Eb].
    rewrite (key_lookup _ _ _ Ea), (key_lookup _ _ _ Eb) in Ha. unfold ms_compar. rewrite Ea, Eb.
    destruct (compare_spec ms ma) as [[-> Hk]|[[-> Hk]|[-> Hk]]], (compare_spec ms mb) as [[-> Hk']|[[-> Hk']|[-> Hk']]]; try lia; exfalso.
    + eapply before_irrefl; [exact Hk'|]. by eapply before_trans.
    + rewrite <-Hk' in Ha. by eapply before_irrefl.
    + rewrite Hk in Hk'. by eapply before_irrefl.
Qed.

(** Adding a metaslab, outside the tree so far, whose start is its own. *)
Lemma group_avl_add_spec mg l msp ms : os_out (mg_metaslab_tree mg) l msp -> ordered mg l -> mg_ms mg !! msp = Some ms ->
  (msp ∉ l) -> (forall a, a ∈ l -> (ms_key mg a).2 <> sm_start (ms_map ms)) ->
  exists tree l', group_avl_add mg msp = Some (mg_with_tree mg tree) /\ os_abs tree l' /\ l' ≡ₚ msp :: l /\ ordered mg l'.
Proof using HLG.
  intros Hout Hord E Hn Hst. unfold group_avl_add. rewrite E. cbn [mbind option_bind].
  pose proof (key_lookup _ _ _ E) as Ek.
  destruct (find_out_law _ _ _ _ Hout (ms_compar_compares mg l ms Hord)) as [(b & w & Hb & Hf & _)|(l1 & l2 & w & -> & H1 & H2 & -> & Hhole)].
  { exfalso. destruct (or_ms _ _ Hord b Hb) as [mb Eb]. unfold ms_compar in Hf. rewrite Eb in Hf. specialize (Hst b Hb). rewrite (key_lookup _ _ _ Eb) in Hst.
    destruct (compare_spec ms mb) as [[? _]|[[? _]|[_ Hk]]]; [lia|lia|]. unfold key_of in *. by injection Hk. }
  cbn [mbind option_bind Z.eqb]. destruct (insert_law _ _ _ _ _ Hout Hhole) as (tree & -> & Habs). cbn [mbind option_bind].
  exists tree, (l1 ++ msp :: l2). split; [done|]. split; [done|]. split; [by rewrite <-Permutation_middle|].
  destruct Hord as [O1 O2 O3]. split.
  - intros a. rewrite elem_of_app, elem_of_cons. intros [?|[->|?]]; [apply O1; rewrite elem_of_app; tauto|by eexists|apply O1; rewrite elem_of_app; tauto].
  - assert (forall a, a ∈ l1 -> before (ms_key mg a) (ms_key mg msp)) as B1.
    { intros a Ha. destruct (O1 a) as [m Em]; [rewrite elem_of_app; tauto|]. specialize (H1 a Ha). unfold ms_compar in H1. rewrite Em in H1.
      rewrite (key_lookup _ _ _ Em), Ek. destruct (compare_spec ms m) as [[? _]|[[_ ?]|[? _]]]; [lia|done|lia]. }
    assert (forall a, a ∈ l2 -> before (ms_key mg msp) (ms_key mg a)) as B2.
    { intros a Ha. destruct (O1 a) as [m Em]; [rewrite elem_of_app; tauto|]. specialize (H2 a Ha). unfold ms_compar in H2. rewrite Em in H2.
      rewrite (key_lookup _ _ _ Em), Ek. destruct (compare_spec ms m) as [[_ ?]|[[? _]|[? _]]]; [done|lia|lia]. }
    clear -O2 B1 B2. induction l1 as [|a l1 IH]; cbn [app] in *.
    + constructor; [done|]. apply Forall_forall. done.
    + apply StronglySorted_inv in O2 as [O2 Oa]. constructor; [apply IH; [done|intros; apply B1; by right]|].
      rewrite Forall_app in Oa. destruct Oa as [Oa1 Oa2]. apply Forall_app. split; [done|]. constructor; [apply B1; by left|done].
  - intros a b. rewrite !elem_of_app, !elem_of_cons. assert (forall a, a ∈ l1 ++ l2 -> (ms_key mg msp).2 <> (ms_key mg a).2) as Hne.
    { intros c Hc. rewrite Ek. intros Ec. by apply (Hst c Hc). }
    intros Ha Hb Heq. destruct (decide (a = msp)) as [->|Na], (decide (b = msp)) as [->|Nb]; [done|exfalso..|].
    + apply (Hne b); [rewrite elem_of_app; tauto|done].
    + apply (Hne a); [rewrite elem_of_app; tauto|done].
    + apply O3; rewrite ?elem_of_app; tauto || done.
Qed.

(** Removing one object, or changing the metaslab of another. *)
Lemma ordered_remove mg l1 a l2 : ordered mg (l1 ++ a :: l2) -> ordered mg (l1 ++ l2).
Proof.
  intros [H1 H2 H3]. assert (forall b, b ∈ l1 ++ l2 -> b ∈ l1 ++ a :: l2) as Hsub by (intros b; rewrite !elem_of_app, elem_of_cons; tauto).
  split; [auto| |intros; apply H3; auto]. clear -H2. induction l1 as [|b l1 IH]; cbn [app] in *.
  - by apply StronglySorted_inv in H2 as [H2 _].
  - apply StronglySorted_inv in H2 as [H2 Hb]. constructor; [auto|]. apply Forall_app in Hb as [Hb1 Hb2%Forall_cons]. apply Forall_app. tauto.
Qed.

Lemma ordered_ext mg mg' l : (forall a, a ∈ l -> mg_ms mg' !! a = mg_ms mg !! a) -> ordered mg l -> ordered mg' l.
Proof.
  intros He [H1 H2 H3]. assert (forall a, a ∈ l -> ms_key mg' a = ms_key mg a) as Hk by (intros a Ha; unfold ms_key; by rewrite He).
  split.
  - intros a Ha. rewrite He by done. auto.
  - clear -H2 Hk. induction H2 as [|a l Hl IH Ha]; [constructor|]. constructor; [apply IH; intros; apply Hk; by right|].
    rewrite Forall_forall in *. intros b Hb. rewrite !Hk by (by left || by right). auto.
  - intros a b Ha Hb. rewrite !Hk by done. auto.
Qed.

Lemma group_sort_spec mg l msp weight ms : group_ok mg l -> mg_ms mg !! msp = Some ms -> ms_group ms = true ->
  (SPA_MINBLOCKSIZE - 1 <= weight \/ weight = 0) ->
  exists tree l', metaslab_group_sort mg msp weight = Some (mg_with_tree (set_ms mg msp (with_weight ms weight true)) tree) /\ l' ≡ₚ l /\
    group_ok (mg_with_tree (set_ms mg msp (with_weight ms weight true)) tree) l'.
Proof using HLG.
  intros [Ht Ho Ha] E Eg Hw. unfold metaslab_group_sort.
  replace ((SPA_MINBLOCKSIZE - 1 <=? weight) || (weight =? 0)) with true by (symmetry; apply orb_true_iff; rewrite Z.leb_le, Z.eqb_eq; lia).
  rewrite E. cbn [mbind option_bind]. rewrite Eg. assert (msp ∈ l) as Hin by (apply Ha; by eexists).
  apply list_elem_of_split in Hin as (l1 & l2 & ->). destruct (abs_objects _ _ Ht) as [Hnd _].
  destruct (remove_law _ _ _ _ Ht) as (tree1 & -> & Hout). cbn [mbind option_bind].
  set (ms' := with_weight ms weight true). set (mg1 := set_ms (mg_with_tree mg tree1) msp ms').
  assert (msp ∉ l1 ++ l2) as Hn.
  { rewrite <-Permutation_middle in Hnd. by apply NoDup_cons in Hnd as [? _]. }
  assert (forall a, a ∈ l1 ++ l2 -> mg_ms mg1 !! a = mg_ms mg !! a) as He.
  { intros a Ha'. unfold mg1. cbn. apply lookup_insert_ne. intros ->. done. }
  assert (ordered mg1 (l1 ++ l2)) as Ho1 by (eapply ordered_ext; [done|by eapply ordered_remove]).
  destruct (group_avl_add_spec mg1 (l1 ++ l2) msp ms' Hout Ho1) as (tree & l' & -> & Habs & Hp & Ho').
  - unfold mg1. cbn. apply lookup_insert_eq.
  - done.
  - intros a Ha' Heq. unfold ms_key in Heq. rewrite He in Heq by done.
    assert (a = msp) as ->; [|done]. apply (or_starts _ _ Ho).
    + rewrite elem_of_app in *. rewrite elem_of_cons. tauto.
    + rewrite elem_of_app, elem_of_cons. tauto.
    + unfold ms_key at 2. rewrite E. exact Heq.
  - exists tree, l'. assert (l' ≡ₚ l1 ++ msp :: l2) as Hp' by (by rewrite Hp, Permutation_middle). split; [done|]. split; [done|].
    split; [done|eapply ordered_ext; [|exact Ho']; done|]. intros a. cbn. rewrite Hp'. intros [m Em].
    destruct (decide (a = msp)) as [->|Hne]; [rewrite elem_of_app, elem_of_cons; tauto|]. rewrite lookup_insert_ne in Em by done. apply Ha. by eexists.
Qed.
End group.

(** ** Weights *)

Lemma active_mask : METASLAB_ACTIVE_MASK = 2 ^ 64 - 2 ^ 62.
Proof. done. Qed.

Section weights.
Context {T : Type}.
Implicit Types (ms : metaslab T).

(** The activation of a weight is in its two highest bits. *)
Lemma land_active w : is_u64 w -> Z.land w METASLAB_ACTIVE_MASK = w - w mod 2 ^ 62.
Proof. intros Hw. rewrite active_mask. by apply land_high_mask. Qed.

Lemma is_active_spec ms : is_u64 (ms_weight ms) -> is_active ms = (2 ^ 62 <=? ms_weight ms).
Proof.
  intros Hw. unfold is_active. rewrite land_active by done. pose proof (Z.div_mod (ms_weight ms) (2 ^ 62) ltac:(lia)).
  pose proof (Z.mod_pos_bound (ms_weight ms) (2 ^ 62) ltac:(lia)). unfold is_u64 in Hw.
  destruct (Z.eqb_spec (ms_weight ms - ms_weight ms mod 2 ^ 62) 0), (Z.leb_spec (2 ^ 62) (ms_weight ms)); try done; exfalso; [|lia].
  assert (ms_weight ms / 2 ^ 62 = 0) as E by lia. apply Z.div_small_iff in E; lia.
Qed.

Lemma lor_active base w : 0 <= base < 2 ^ 62 -> is_u64 w ->
  Z.lor base (Z.land w METASLAB_ACTIVE_MASK) = base + (w - w mod 2 ^ 62).
Proof.
  intros Hb Hw. rewrite land_active by done. rewrite Z.lor_comm. replace (w - w mod 2 ^ 62) with (w / 2 ^ 62 * 2 ^ 62)
    by (pose proof (Z.div_mod w (2 ^ 62) ltac:(lia)); lia). rewrite lor_fields by lia. lia.
Qed.

Lemma replays_units lo hi sh ws A n : 0 <= sh -> replays lo hi sh ws A n -> n mod 2 ^ sh = 0.
Proof.
  intros Hsh. assert (2 ^ sh <> 0) as Hp by (apply Z.pow_nonzero; lia).
  induction 1 as [A HA|ws A n e H IH He|ws A A1 n e s z H IH He Ht Hs Hz Hlo Hhi Hd HA|ws A A1 n e s z H IH He Ht Hs Hz Hlo Hhi Hd HA].
  - apply Zmod_0_l.
  - done.
  - rewrite Hz, Z_mod_plus_full. done.
  - rewrite Hz. replace (n - SM_RUN_DECODE e * 2 ^ sh) with (n + (- SM_RUN_DECODE e) * 2 ^ sh) by lia. by rewrite Z_mod_plus_full.
Qed.

(** The place of a metaslab on its vdev, and the sizes for which the weights
    do not overflow. *)
Record ms_place (vd : vdev) ms : Prop := {
  mp_index : 0 <= Z.shiftr (sm_start (ms_map ms)) (vdev_ms_shift vd) < vdev_ms_count vd;
  mp_count : vdev_ms_count vd * sm_size (ms_map ms) < 2 ^ 64;
  mp_size : 0 <= sm_size (ms_map ms) < 2 ^ 60;
  mp_shift : SPA_MINBLOCKSHIFT <= sm_shift (ms_map ms)
}.

(** The weight between the free space and four times it, below the bits of
    the activation, which it keeps. *)
Lemma metaslab_weight_spec vd ms : ms_place vd ms -> is_u64 (ms_weight ms) -> 0 <= smo_alloc (ms_smo ms) <= sm_size (ms_map ms) ->
  (sm_size (ms_map ms) - smo_alloc (ms_smo ms)) mod 2 ^ sm_shift (ms_map ms) = 0 ->
  exists base, metaslab_weight vd ms = Some (base + (ms_weight ms - ms_weight ms mod 2 ^ 62)) /\
    (let space := sm_size (ms_map ms) - smo_alloc (ms_smo ms) in space <= base <= 4 * space) /\ 0 <= base < 2 ^ 62 /\
    (base = 0 \/ SPA_MINBLOCKSIZE <= base).
Proof.
  intros [P1 P2 P3 P4] Hw Ha Hm. unfold metaslab_weight. set (space := sm_size (ms_map ms) - smo_alloc (ms_smo ms)) in *.
  assert (0 <= space <= sm_size (ms_map ms)) as Hsp by lia. rewrite (u64_small space) by (unfold is_u64; lia).
  set (q := Z.shiftr (sm_start (ms_map ms)) (vdev_ms_shift vd)) in *. set (c := vdev_ms_count vd) in *.
  rewrite (proj2 (Z.eqb_neq c 0)) by lia. cbn [negb].
  assert (0 <= q * space / c <= space) as Hq by (split; [apply Z.div_pos; nia|apply Z.div_le_upper_bound; nia]).
  rewrite (u64_small (2 * space)), (u64_small (q * space)) by (unfold is_u64; nia).
  rewrite (u64_small (2 * space - _)) by (unfold is_u64; lia). set (w1 := 2 * space - q * space / c).
  rewrite (proj2 (Z.leb_le space w1)), (proj2 (Z.leb_le w1 (2 * space))) by lia. cbn [andb].
  set (w2 := if negb (smo_object (ms_smo ms) =? 0) then _ else w1).
  assert (space <= w2 <= 4 * space) as Hw2.
  { unfold w2, METASLAB_SMO_BONUS_MULTIPLIER. destruct (negb _); [rewrite u64_small by (unfold is_u64; lia)|]; lia. }
  unfold METASLAB_SMO_BONUS_MULTIPLIER. rewrite (u64_small (2 * 2 * space)) by (unfold is_u64; lia).
  rewrite (proj2 (Z.leb_le space w2)), (proj2 (Z.leb_le w2 _)) by lia. cbn [andb].
  exists w2. rewrite lor_active by (done || lia). split; [done|]. split; [lia|]. split; [lia|].
  destruct (decide (space = 0)) as [E|Hne]; [left; lia|right].
  assert (2 ^ 9 <= space); [|change SPA_MINBLOCKSIZE with (2 ^ 9); lia].
  apply (Z.le_trans _ (2 ^ sm_shift (ms_map ms))); [apply Z.pow_le_mono_r; [lia|exact P4]|].
  apply Z.divide_pos_le; [lia|]. apply Z.mod_divide; [|done]. apply Z.pow_nonzero; [lia|]. unfold SPA_MINBLOCKSHIFT in P4. lia.
Qed.
End weights.
