(* ===== verification/MetaslabAlloc.v ===== *)
(** * Metaslabs: loading, allocating, freeing, claiming

    What the operations of a transaction group in flight do to one metaslab:
    each keeps the invariant of MetaslabInv, and moves exactly the range it is
    about. *)
From Stdlib Require Import ZArith Lia.
From stdpp Require Import base numbers list option gmap.
From S2P Require Import Prelude AvlSpec SpaceMap SpaceMapProof SpaceMapSync SpaceMapLog TxgList MetaslabFF Metaslab MetaslabProof MetaslabInv MetaslabSync.

Section alloc.
Context {T D : Type} `{HI : AvlIface T} {cap : nat} {HL : AvlLaws T cap}.
Context `{HD : ObjectStore D} {HDL : ObjectStoreLaws D} `{HM : MosStore D} {HML : MosLaws D}.
Context (zfs_recover : bool).
Implicit Types (ms : metaslab T) (sm : ms_space_map T) (L : list space_seg) (mos : D) (smo : space_map_obj).

(** A change of the maps alone. *)
Lemma inv_update mos txg ms ms' M M' AL AL' FR FR' ws wss A As :
  ms_inv (cap := cap) mos txg ms M AL FR ws wss A As -> ms_smo ms' = ms_smo ms -> ms_smo_syncing ms' = ms_smo_syncing ms ->
  same_geom (ms_map ms) (ms_map ms') -> ms_maps (cap := cap) ms' M' AL' FR' ->
  (sm_loaded (ms_map ms') = false -> sm_loaded (ms_map ms) = false) ->
  slot [] AL' (txg + 3) = [] -> (sm_loaded (ms_map ms') = false -> forall t, slot [] AL' t = []) ->
  accounts (region (ms_map ms)) (free_set ms' M' As) A (covers (slot [] FR' (txg + 3))) (group_set AL' txg) (group_set FR' txg) ->
  ms_inv (cap := cap) mos txg ms' M' AL' FR' ws wss A As.
Proof.
  intros [Hm Hlog Hw Hsy Hcl Hun Hac] E1 E2 Hg Hm' Hld Hcl' Hun' Hac'. split; rewrite ?E1, ?E2; try done.
  - eapply log_ok_same; [exact Hlog|done|]. intros Hne. split; [by apply Hlog|by apply Hlog].
  - intros El. destruct (Hsy (Hld El)) as [Hl Hor]. split; [|done].
    eapply log_ok_same; [exact Hl|done|]. intros Hne. split; [by apply Hl|by apply Hl].
  - assert (forall o, region (ms_map ms) o <-> region (ms_map ms') o) as HR by (intros o; unfold region; by destruct Hg as (-> & -> & _)).
    destruct Hac' as [C1 C2 C3 C4 C5 C6 C7 C8]. split; try done. intros o. rewrite <-HR. apply C1.
Qed.

Lemma with_map_same ms : with_map ms (ms_map ms) = ms.
Proof. by destruct ms. Qed.

(** ** Loading *)

Lemma load_inv mos txg ms M AL FR ws wss A As :
  ms_inv (cap := cap) mos txg ms M AL FR ws wss A As -> Z.of_nat (length ws) < 2 ^ 60 ->
  exists sm' err M', space_map_load zfs_recover ff_vec (ms_map ms) (Some tt) SM_FREE (ms_smo ms) mos = Some (sm', err) /\
    ms_inv (cap := cap) mos txg (with_map ms sm') M' AL FR ws wss A As /\
    (forall o, free_set (with_map ms sm') M' As o <-> free_set ms M As o) /\
    (err = 0 -> sm_loaded sm' = true) /\ same_geom (ms_map ms) sm'.
Proof using HL.
  intros Hinv Hlen. pose proof Hinv as [Hm Hlog Hw Hsy Hcl Hun Hac]. pose proof (mm_picker _ _ _ _ Hm) as Hpk.
  destruct (sm_loaded (ms_map ms)) eqn:El.
  { exists (ms_map ms), 0, M. unfold space_map_load, space_map_load_wait. rewrite (mm_loading _ _ _ _ Hm), El. cbn [negb mbind option_bind].
    rewrite El, with_map_same. done. }
  destruct Hpk as (Ho & Hp & ->). destruct (Hsy eq_refl) as [Hl Hor].
  destruct (load_spec zfs_recover ff_vec (ms_map ms) (Some tt) (repeat 0 64) SM_FREE (ms_smo ms) mos wss As (smo_alloc (ms_smo ms)))
    as (sm' & L' & err & E & Hwf & Hlg & Hg & Hres); try done.
  - destruct (decide (smo_object (ms_smo ms) = 0)) as [E0|Hne]; [rewrite (lo_none _ _ _ _ _ Hl E0); apply prefix_nil|by apply Hl].
  - by right.
  - apply Hm.
  - apply Hm.
  - apply Hm.
  - apply Hl.
  - rewrite (lo_size _ _ _ _ _ Hl). assert (length wss <= length ws)%nat; [|lia].
    destruct (decide (smo_object (ms_smo ms) = 0)) as [E0|Hne]; [rewrite (lo_none _ _ _ _ _ Hl E0); cbn; lia|].
    destruct Hor as [?|Eo]; [done|]. apply prefix_length. rewrite <-Hw, <-Eo by congruence. by apply Hl.
  - apply Hl.
  - apply ff_load_ok.
  - exists sm', err, L'. split; [done|].
    assert (forall o, free_set (with_map ms sm') L' As o <-> free_set ms [] As o) as Hfs.
    { intros o. unfold free_set, region. cbn [ms_map with_map]. rewrite El. destruct Hg as (G1 & G2 & _).
      destruct Hres as [(_ & -> & _ & _ & Hc)|(_ & -> & _)]; [|by rewrite G1, G2]. rewrite Hc. done. }
    split; [|split; [done|split; [|done]]].
    + eapply inv_update; try done.
      * split; cbn [ms_map ms_allocmap ms_freemap with_map]; try done; try apply Hm.
        -- apply (ms_geom_same (ms_map ms)); [done|apply Hm].
        -- apply (maps_geom ms); [done|apply Hm].
        -- apply (maps_geom ms); [done|apply Hm].
        -- destruct Hres as [(_ & -> & -> & Hppd & _)|(_ & -> & -> & -> & ->)]; [split; [done|]|done].
           apply cursors_fresh; [destruct (sf_geom _ _ Hwf); lia|done].
      * intros _. by apply Hun.
      * eapply accounts_ext; [exact Hac|..]; done.
    + intros ->. by destruct Hres as [(_ & ? & _)|[? _]].
Qed.

(** ** Allocating *)

Lemma group_set_insert (X : list (list space_seg)) txg j L : length X = 4%nat -> (j < 3)%nat ->
  slot [] (<[txg_idx (txg + Z.of_nat j) := L]> X) (txg + 3) = slot [] X (txg + 3) /\
  forall i o, (i < 3)%nat -> group_set (<[txg_idx (txg + Z.of_nat j) := L]> X) txg i o <-> upd (group_set X txg) j (covers L) i o.
Proof.
  intros Hl Hj. split; [rewrite slot_insert, decide_False by lia; done|]. intros i o Hi. unfold group_set at 1. rewrite slot_insert by lia.
  unfold upd. destruct (decide (Z.of_nat j = Z.of_nat i)), (decide (i = j)); try lia; done.
Qed.

Definition range (s size o : Z) : Prop := s <= o < s + size.
Lemma range_or s size o : range s size o \/ ~ range s size o.
Proof. unfold range. lia. Qed.

(** The range leaves the free space for the group's allocations. *)
Lemma inv_alloc mos txg ms M AL FR ws wss A As j s size sm' L' m m' Lm' :
  ms_inv (cap := cap) mos txg ms M AL FR ws wss A As -> (j < 3)%nat -> sm_loaded (ms_map ms) = true ->
  (forall o, range s size o -> covers M o) ->
  sm_wf (cap := cap) sm' L' -> same_picker (ms_map ms) sm' -> cursors_ok sm' -> (forall o, covers L' o <-> covers M o /\ ~ range s size o) ->
  ms_allocmap ms !! txg_idx (txg + Z.of_nat j) = Some m -> sm_wf (cap := cap) m' Lm' -> same_map m m' ->
  (forall o, covers Lm' o <-> group_set AL txg j o \/ range s size o) ->
  ms_inv (cap := cap) mos txg (with_maps (with_map ms sm') (<[txg_idx (txg + Z.of_nat j) := m']> (ms_allocmap ms)) (ms_freemap ms))
    L' (<[txg_idx (txg + Z.of_nat j) := Lm']> AL) FR ws wss A As.
Proof using HL.
  intros Hinv Hj El Hin Ws (Gs & Es1 & Es2 & Es3) Hcur Hcov Em Wm Sm Hcm. pose proof Hinv as [Hm Hlog Hw Hsy Hcl Hun Hac].
  destruct (group_set_insert AL txg j Lm' (mm_lenA _ _ _ _ Hm) Hj) as [Ecl Egs].
  eapply (inv_update mos txg ms); try done; cbn [ms_map ms_smo ms_smo_syncing with_maps with_map].
  - split; cbn [ms_map ms_allocmap ms_freemap with_maps with_map]; rewrite ?length_insert; try apply Hm; try done.
    + apply (ms_geom_same (ms_map ms)); [done|apply Hm].
    + apply (maps_geom ms); [done|]. apply maps_insert; [apply Hm|done|].
      destruct (Forall2_lookup_l _ _ _ _ _ (mm_alloc _ _ _ _ Hm) Em) as (L0 & _ & _ & G0).
      eapply same_geom_trans; [exact G0|by apply same_map_geom].
    + apply (maps_geom ms); [done|apply Hm].
    + rewrite Es2. apply Hm.
    + rewrite Es1, El, Es3. split; [|done]. pose proof (mm_picker _ _ _ _ Hm) as Hpk. rewrite El in Hpk. apply Hpk.
  - congruence.
  - by rewrite Ecl.
  - intros E. congruence.
  - eapply accounts_ext; [apply (accounts_alloc _ _ _ _ _ _ Hac j (range s size) Hj)|..]; try done.
    + intros o Ho. unfold free_set. rewrite El. by apply Hin.
    + intros o. apply range_or.
    + intros o. unfold free_set. cbn [ms_map with_maps with_map]. by rewrite Es1, El, Hcov.
    + intros i o Hi. rewrite Egs by done. unfold upd. destruct (decide (i = j)) as [->|]; [by rewrite Hcm|done].
Qed.

(** ** Freeing *)

Lemma inv_free mos txg ms M AL FR ws wss A As j s size m m' Lm' :
  ms_inv (cap := cap) mos txg ms M AL FR ws wss A As -> (j < 3)%nat ->
  (forall o, range s size o -> A o \/ exists i, (i <= j)%nat /\ group_set AL txg i o) ->
  (forall i o, (i < 3)%nat -> range s size o -> ~ group_set FR txg i o) ->
  ms_freemap ms !! txg_idx (txg + Z.of_nat j) = Some m -> sm_wf (cap := cap) m' Lm' -> same_map m m' ->
  (forall o, covers Lm' o <-> group_set FR txg j o \/ range s size o) ->
  ms_inv (cap := cap) mos txg (with_maps ms (ms_allocmap ms) (<[txg_idx (txg + Z.of_nat j) := m']> (ms_freemap ms)))
    M AL (<[txg_idx (txg + Z.of_nat j) := Lm']> FR) ws wss A As.
Proof using HL.
  intros Hinv Hj Hin Hout Em Wm Sm Hcm. pose proof Hinv as [Hm Hlog Hw Hsy Hcl Hun Hac].
  destruct (group_set_insert FR txg j Lm' (mm_lenF _ _ _ _ Hm) Hj) as [Ecl Egs].
  eapply (inv_update mos txg ms); try done; cbn [ms_map ms_smo ms_smo_syncing with_maps with_map].
  - split; cbn [ms_map ms_allocmap ms_freemap with_maps with_map]; rewrite ?length_insert; try apply Hm; try done.
    apply maps_insert; [apply Hm|done|].
    destruct (Forall2_lookup_l _ _ _ _ _ (mm_free _ _ _ _ Hm) Em) as (L0 & _ & _ & G0).
    eapply same_geom_trans; [exact G0|by apply same_map_geom].
  - eapply accounts_ext; [apply (accounts_free _ _ _ _ _ _ Hac j (range s size) Hj)|..]; try done.
    + intros o. by rewrite Ecl.
    + intros i o Hi. rewrite Egs by done. unfold upd. destruct (decide (i = j)) as [->|]; [by rewrite Hcm|done].
Qed.

(** The range goes back from the group's allocations to the free space. *)
Lemma inv_free_now mos txg ms M AL FR ws wss A As j s size sm' L' m m' Lm' :
  ms_inv (cap := cap) mos txg ms M AL FR ws wss A As -> (j < 3)%nat -> sm_loaded (ms_map ms) = true ->
  (forall o, range s size o -> group_set AL txg j o) -> (forall i o, (i < 3)%nat -> range s size o -> ~ group_set FR txg i o) ->
  sm_wf (cap := cap) sm' L' -> same_map (ms_map ms) sm' -> (forall o, covers L' o <-> covers M o \/ range s size o) ->
  ms_allocmap ms !! txg_idx (txg + Z.of_nat j) = Some m -> sm_wf (cap := cap) m' Lm' -> same_map m m' ->
  (forall o, covers Lm' o <-> group_set AL txg j o /\ ~ range s size o) ->
  ms_inv (cap := cap) mos txg (with_map (with_maps ms (<[txg_idx (txg + Z.of_nat j) := m']> (ms_allocmap ms)) (ms_freemap ms)) sm')
    L' (<[txg_idx (txg + Z.of_nat j) := Lm']> AL) FR ws wss A As.
Proof using HL.
  intros Hinv Hj El Hin Hout Ws Ss Hcov Em Wm Sm Hcm. pose proof Hinv as [Hm Hlog Hw Hsy Hcl Hun Hac].
  destruct (group_set_insert AL txg j Lm' (mm_lenA _ _ _ _ Hm) Hj) as [Ecl Egs]. pose proof (same_map_geom _ _ Ss) as Gs.
  pose proof Ss as (_ & _ & _ & Es1 & Es2 & Es3 & _).
  eapply (inv_update mos txg ms); try done; cbn [ms_map ms_smo ms_smo_syncing with_maps with_map].
  - split; cbn [ms_map ms_allocmap ms_freemap with_maps with_map]; rewrite ?length_insert; try apply Hm; try done.
    + apply (ms_geom_same (ms_map ms)); [done|apply Hm].
    + apply (maps_geom ms); [done|]. apply maps_insert; [apply Hm|done|].
      destruct (Forall2_lookup_l _ _ _ _ _ (mm_alloc _ _ _ _ Hm) Em) as (L0 & _ & _ & G0).
      eapply same_geom_trans; [exact G0|by apply same_map_geom].
    + apply (maps_geom ms); [done|apply Hm].
    + rewrite Es2. apply Hm.
    + rewrite Es1, El, Es3. pose proof (mm_picker _ _ _ _ Hm) as Hpk. rewrite El in Hpk. split; [apply Hpk|]. eapply cursors_same; [exact Ss|apply Hpk].
  - congruence.
  - by rewrite Ecl.
  - intros E. congruence.
  - eapply accounts_ext; [apply (accounts_free_now _ _ _ _ _ _ Hac j (range s size) Hj)|..]; try done.
    + intros o. apply range_or.
    + intros o. unfold free_set. cbn [ms_map with_maps with_map]. by rewrite Es1, El, Hcov.
    + intros i o Hi. rewrite Egs by done. unfold upd. destruct (decide (i = j)) as [->|]; [by rewrite Hcm|done].
Qed.

(** ** The operations *)

Lemma range_ok_geom sm sm' s size : same_geom sm sm' -> range_ok sm s size -> range_ok sm' s size.
Proof. intros (E1 & E2 & E3) [? ? ? ? ?]. split; rewrite ?E1, ?E2, ?E3; done. Qed.

(** The group's map of allocations takes a range that is free. *)
Lemma add_allocmap_spec mos txg ms M AL FR ws wss A As j s size sm' :
  ms_inv (cap := cap) mos txg ms M AL FR ws wss A As -> (j < 3)%nat -> range_ok (ms_map ms) s size ->
  (forall o, range s size o -> free_set ms M As o) ->
  exists m m' Lm', ms_allocmap ms !! txg_idx (txg + Z.of_nat j) = Some m /\ sm_wf (cap := cap) m' Lm' /\ same_map m m' /\
    (forall o, covers Lm' o <-> group_set AL txg j o \/ range s size o) /\
    ms_add_allocmap zfs_recover (with_map ms sm') s size (txg + Z.of_nat j) =
      Some (with_maps (with_map ms sm') (<[txg_idx (txg + Z.of_nat j) := m']> (ms_allocmap ms)) (ms_freemap ms)).
Proof using HL.
  intros [Hm Hlog Hw Hsy Hcl Hun Hac] Hj Hr Hfree. unfold ms_add_allocmap. cbn [ms_allocmap with_map].
  destruct (slot_maps ms _ _ (txg + Z.of_nat j) (mm_alloc _ _ _ _ Hm) (mm_lenA _ _ _ _ Hm)) as (m & -> & Wm & Gm). cbn [mbind option_bind].
  destruct (add_spec zfs_recover m _ s size Wm (range_ok_geom _ _ _ _ Gm Hr)) as (m' & Lm' & -> & Wm' & Cm & Sm & _).
  { intros o Ho Hc. by destruct (ac_a _ _ _ _ _ _ Hac j o Hj Hc) as [? _]; eauto. }
  cbn [mbind option_bind]. exists m, m', Lm'. done.
Qed.

(** Allocation: no room, or a free range that is then the group's. *)
Lemma ms_alloc_spec mos txg ms M AL FR ws wss A As size :
  ms_inv (cap := cap) mos txg ms M AL FR ws wss A As -> sm_loaded (ms_map ms) = true ->
  0 < size < 2 ^ 62 -> size mod 2 ^ sm_shift (ms_map ms) = 0 ->
  exists ms' r k, ms_alloc zfs_recover ms size = Some (ms', r) /\ ms_weight ms' = ms_weight ms /\ ms_group ms' = ms_group ms /\
    ms_smo ms' = ms_smo ms /\ same_geom (ms_map ms) (ms_map ms') /\ sm_loaded (ms_map ms') = true /\
    0 <= k /\ size mod 2 ^ k = 0 /\ (forall j, 0 <= j -> size mod 2 ^ j = 0 -> j <= k) /\
    ((r = 2 ^ 64 - 1 /\ ms_inv (cap := cap) mos txg ms' M AL FR ws wss A As /\
      forall o, o mod 2 ^ k = 0 -> ~ forall p, range o size p -> free_set ms M As p) \/
     (r <> 2 ^ 64 - 1 /\ r mod 2 ^ k = 0 /\ range_ok (ms_map ms) r size /\ (forall o, range r size o -> free_set ms M As o) /\
      forall j, (j < 3)%nat -> exists ms'' M' AL', ms_add_allocmap zfs_recover ms' r size (txg + Z.of_nat j) = Some ms'' /\
        ms_inv (cap := cap) mos txg ms'' M' AL' FR ws wss A As /\ ms_map ms'' = ms_map ms' /\
        ms_weight ms'' = ms_weight ms /\ ms_group ms'' = ms_group ms /\ ms_smo ms'' = ms_smo ms /\ ms_smo_syncing ms'' = ms_smo_syncing ms /\
        (forall i o, (i < 3)%nat -> group_set AL' txg i o <-> group_set AL txg i o \/ (i = j /\ range r size o)))).
Proof using HL.
  intros Hinv El Hsize Hal. pose proof Hinv as [Hm Hlog Hw Hsy Hcl Hun Hac]. pose proof (mm_picker _ _ _ _ Hm) as Hpk. rewrite El in Hpk.
  destruct Hpk as [Hops Hcur]. pose proof (mm_map _ _ _ _ Hm) as Wm. pose proof (sf_segs _ _ Wm) as [Hch _ _].
  assert (forall o, free_set ms M As o <-> covers M o) as Hfs by (intros o; unfold free_set; by rewrite El).
  destruct (alloc_spec zfs_recover (ms_map ms) M size tt Wm Hcur Hops) as (sm' & r & k & E & Hcur' & Hpk & Hk & Hdiv & Hbig & Hres);
    [lia|done|pose proof (mg_63 _ (mm_geom _ _ _ _ Hm)); lia|].
  unfold ms_alloc. rewrite E. cbn [mbind option_bind]. pose proof Hpk as (Gs & E1 & E2 & E3).
  exists (with_map ms sm'), r, k. split; [done|]. split; [done|]. split; [done|]. split; [done|]. split; [exact Gs|].
  split; [cbn [ms_map with_map]; congruence|]. split; [done|]. split; [done|]. split; [done|].
  destruct Hres as [(Hr & Ws & Hno)|(Hr & Hfit & Hrok & _ & L' & Ws & Hcov)]; [left|right].
  - split; [done|]. split.
    + eapply inv_update; try done.
      * split; cbn [ms_map ms_allocmap ms_freemap with_map]; try done; try apply Hm.
        -- apply (ms_geom_same (ms_map ms)); [done|apply Hm].
        -- apply (maps_geom ms); [done|apply Hm].
        -- apply (maps_geom ms); [done|apply Hm].
        -- rewrite E2. apply Hm.
        -- rewrite E1, El, E3. done.
      * cbn [ms_map with_map]. congruence.
      * cbn [ms_map with_map]. congruence.
      * eapply accounts_ext; [exact Hac|..]; try done. intros o. unfold free_set. cbn [ms_map with_map]. by rewrite E1, El.
    + intros o Ho Hall. apply (Hno o). apply (fits_covers _ M k size o Hch); [lia|]. split; [done|]. intros p Hp. apply Hfs, Hall, Hp.
  - assert (forall o, range r size o -> covers M o) as Hin by (intros o Ho; by apply (proj1 (fits_covers _ M k size r Hch ltac:(lia)) Hfit)).
    split; [done|]. split; [apply Hfit|]. split; [done|]. split; [intros o Ho; apply Hfs, Hin, Ho|]. intros j Hj.
    destruct (add_allocmap_spec mos txg ms M AL FR ws wss A As j r size sm' Hinv Hj Hrok) as (m & m' & Lm' & Em & Wm' & Sm & Cm & ->);
      [intros o Ho; apply Hfs, Hin, Ho|].
    eexists _, L', (<[txg_idx (txg + Z.of_nat j) := Lm']> AL). split; [done|].
    split; [exact (inv_alloc _ _ _ _ _ _ _ _ _ _ _ _ _ _ _ _ _ _ Hinv Hj El Hin Ws Hpk Hcur' Hcov Em Wm' Sm Cm)|]. repeat (split; [done|]).
    intros i o Hi. destruct (group_set_insert AL txg j Lm' (mm_lenA _ _ _ _ Hm) Hj) as [_ Egs]. rewrite Egs by done.
    unfold upd. destruct (decide (i = j)) as [->|]; [rewrite Cm|]; tauto.
Qed.

(** Claiming: a free range that is then the group's. *)
Lemma ms_claim_spec mos txg ms M AL FR ws wss A As j s size :
  ms_inv (cap := cap) mos txg ms M AL FR ws wss A As -> sm_loaded (ms_map ms) = true -> (j < 3)%nat -> range_ok (ms_map ms) s size ->
  (forall o, range s size o -> free_set ms M As o) ->
  exists ms' ms'' M' AL', ms_claim zfs_recover ms s size = Some ms' /\ ms_add_allocmap zfs_recover ms' s size (txg + Z.of_nat j) = Some ms'' /\
    ms_inv (cap := cap) mos txg ms'' M' AL' FR ws wss A As /\
    (forall i o, (i < 3)%nat -> group_set AL' txg i o <-> group_set AL txg i o \/ (i = j /\ range s size o)) /\ same_geom (ms_map ms) (ms_map ms'').
Proof using HL.
  intros Hinv El Hj Hr Hfree. pose proof Hinv as [Hm Hlog Hw Hsy Hcl Hun Hac]. pose proof (mm_picker _ _ _ _ Hm) as Hpk. rewrite El in Hpk.
  destruct Hpk as [Hops Hcur]. pose proof (mm_map _ _ _ _ Hm) as Wm.
  assert (forall o, range s size o -> covers M o) as Hin by (intros o Ho; specialize (Hfree o Ho); unfold free_set in Hfree; by rewrite El in Hfree).
  destruct (claim_spec zfs_recover (ms_map ms) M s size tt Wm Hops Hr Hin) as (sm' & L' & E & Ws & Ss & Hcov).
  unfold ms_claim. rewrite E. cbn [mbind option_bind].
  destruct (add_allocmap_spec mos txg ms M AL FR ws wss A As j s size sm' Hinv Hj Hr Hfree) as (m & m' & Lm' & Em & Wm' & Sm & Cm & Ea).
  eexists _, _, L', (<[txg_idx (txg + Z.of_nat j) := Lm']> AL). split; [done|]. split; [exact Ea|]. split.
  - eapply inv_alloc; try done; [by apply same_map_picker|by eapply cursors_same].
  - split; [|by apply same_map_geom]. intros i o Hi. destruct (group_set_insert AL txg j Lm' (mm_lenA _ _ _ _ Hm) Hj) as [_ Egs]. rewrite Egs by done.
    unfold upd. destruct (decide (i = j)) as [->|]; [rewrite Cm|]; tauto.
Qed.

(** Freeing in the future: the range must be allocated, as the group sees it,
    and freed by no group. *)
Lemma ms_free_later_spec mos txg ms M AL FR ws wss A As j s size :
  ms_inv (cap := cap) mos txg ms M AL FR ws wss A As -> (j < 3)%nat -> range_ok (ms_map ms) s size ->
  (forall o, range s size o -> A o \/ exists i, (i <= j)%nat /\ group_set AL txg i o) ->
  (forall i o, (i < 3)%nat -> range s size o -> ~ group_set FR txg i o) ->
  exists ms' FR', ms_free_later zfs_recover ms s size (txg + Z.of_nat j) = Some ms' /\
    ms_inv (cap := cap) mos txg ms' M AL FR' ws wss A As /\ ms_map ms' = ms_map ms /\ ms_weight ms' = ms_weight ms /\ ms_group ms' = ms_group ms /\
    ms_smo ms' = ms_smo ms /\ ms_smo_syncing ms' = ms_smo_syncing ms /\
    slot [] FR' (txg + 3) = slot [] FR (txg + 3) /\
    (forall i o, (i < 3)%nat -> group_set FR' txg i o <-> group_set FR txg i o \/ (i = j /\ range s size o)).
Proof using HL.
  intros Hinv Hj Hr Hin Hout. pose proof Hinv as [Hm Hlog Hw Hsy Hcl Hun Hac]. unfold ms_free_later.
  destruct (slot_maps ms _ _ (txg + Z.of_nat j) (mm_free _ _ _ _ Hm) (mm_lenF _ _ _ _ Hm)) as (m & Em & Wm & Gm). rewrite Em. cbn [mbind option_bind].
  destruct (add_spec zfs_recover m _ s size Wm (range_ok_geom _ _ _ _ Gm Hr)) as (m' & Lm' & -> & Wm' & Cm & Sm & _).
  { intros o Ho Hc. by eapply Hout. }
  cbn [mbind option_bind]. unfold free_allocd. cbn [ms_map with_maps].
  assert (forall x : option bool, (if sm_loaded (ms_map ms) then let* b := space_map_contains (ms_map ms) s size in
      if negb (b : bool) then Some true else x else Some true) = Some true) as Hchk.
  { intros x. destruct (sm_loaded (ms_map ms)) eqn:El; [|done].
    destruct (contains_spec (ms_map ms) M s size (mm_map _ _ _ _ Hm) Hr) as (c & -> & Hc). cbn [mbind option_bind].
    destruct c; [exfalso|done]. destruct Hr as [Hpos _ _ _ _]. assert (range s size s) as Hs by (unfold range; lia).
    assert (free_set ms M As s) as HMs by (unfold free_set; rewrite El; apply Hc; [done|lia]).
    destruct (Hin s Hs) as [HA|(i & Hi & Ha)]; [by eapply (ac_MA _ _ _ _ _ _ Hac)|].
    by destruct (ac_a _ _ _ _ _ _ Hac i s ltac:(lia) Ha). }
  rewrite Hchk. cbn [mbind option_bind negb]. destruct (group_set_insert FR txg j Lm' (mm_lenF _ _ _ _ Hm) Hj) as [Ecl Egs].
  eexists _, (<[txg_idx (txg + Z.of_nat j) := Lm']> FR). split; [done|]. split; [by eapply inv_free|]. repeat (split; [done|]).
  intros i o Hi. rewrite Egs by done. unfold upd. destruct (decide (i = j)) as [->|]; [rewrite Cm|]; unfold group_set, range; tauto.
Qed.

(** Giving back at once what the group allocated. *)
Lemma ms_free_now_spec mos txg ms M AL FR ws wss A As j s size :
  ms_inv (cap := cap) mos txg ms M AL FR ws wss A As -> sm_loaded (ms_map ms) = true -> (j < 3)%nat -> range_ok (ms_map ms) s size ->
  (forall o, range s size o -> group_set AL txg j o) -> (forall i o, (i < 3)%nat -> range s size o -> ~ group_set FR txg i o) ->
  exists ms' M' AL', ms_free_now zfs_recover ms s size (txg + Z.of_nat j) = Some ms' /\ ms_inv (cap := cap) mos txg ms' M' AL' FR ws wss A As /\
    (forall i o, (i < 3)%nat -> group_set AL' txg i o <-> group_set AL txg i o /\ ~ (i = j /\ range s size o)) /\
    ms_weight ms' = ms_weight ms /\ ms_group ms' = ms_group ms /\ same_map (ms_map ms) (ms_map ms') /\
    ms_smo ms' = ms_smo ms /\ ms_smo_syncing ms' = ms_smo_syncing ms.
Proof using HL.
  intros Hinv El Hj Hr Hin Hout. pose proof Hinv as [Hm Hlog Hw Hsy Hcl Hun Hac]. pose proof (mm_picker _ _ _ _ Hm) as Hpk. rewrite El in Hpk.
  destruct Hpk as [Hops Hcur]. pose proof (mm_map _ _ _ _ Hm) as Wm. unfold ms_free_now.
  destruct (slot_maps ms _ _ (txg + Z.of_nat j) (mm_alloc _ _ _ _ Hm) (mm_lenA _ _ _ _ Hm)) as (m & Em & Wma & Gm). rewrite Em. cbn [mbind option_bind].
  destruct (remove_spec zfs_recover m _ s size Wma (range_ok_geom _ _ _ _ Gm Hr) Hin) as (m' & Lm' & -> & Wm' & Cm & Sm & _).
  cbn [mbind option_bind ms_map with_maps].
  destruct (free_spec zfs_recover (ms_map ms) M s size tt Wm Hops Hr) as (sm' & L' & -> & Ws & Ss & Hcov).
  { intros o Ho HMo. destruct (ac_a _ _ _ _ _ _ Hac j o Hj (Hin o Ho)) as [Hn _]. apply Hn. unfold free_set. by rewrite El. }
  cbn [mbind option_bind]. eexists _, L', (<[txg_idx (txg + Z.of_nat j) := Lm']> AL). split; [done|]. split; [by eapply inv_free_now|].
  split; [|done]. intros i o Hi. destruct (group_set_insert AL txg j Lm' (mm_lenA _ _ _ _ Hm) Hj) as [_ Egs]. rewrite Egs by done.
  unfold upd. destruct (decide (i = j)) as [->|]; [rewrite Cm|]; unfold group_set, range; tauto.
Qed.
End alloc.
