(* ===== verification/MetaslabLife.v ===== *)
(** * The life of a metaslab

    The abstract specification of a metaslab is a set of blocks: each is
    allocated by a transaction group or on disk, and live, being freed by a
    group, or freed on disk.  Allocation returns space that no block has;
    freeing makes space reusable only when the group that freed it is done
    syncing.  The operations of [metaslab.c] on a metaslab, in any order a
    pool can call them, refine this specification, and after every sync the
    log of the metaslab's object stands for the blocks on disk. *)
From Stdlib Require Import ZArith Lia.
From stdpp Require Import base numbers list option gmap.
From S2P Require Import Prelude AvlSpec SpaceMap SpaceMapProof SpaceMapSync SpaceMapLog TxgList MetaslabFF Metaslab MetaslabProof MetaslabInv MetaslabSync MetaslabAlloc.

(** ** The specification *)

Inductive fstate :=
  | Live                  (* not freed *)
  | Freeing (txg : Z)     (* freed by a group that is not synced *)
  | Freed.                (* freed by the syncing group, not yet reusable *)

(** [b_alloc] is the group that allocated the block, until that is synced. *)
Record blk := mk_blk { b_off : Z; b_size : Z; b_alloc : option Z; b_free : fstate }.

Definition in_blk (b : blk) (o : Z) : Prop := range (b_off b) (b_size b) o.

(** The offsets of the blocks with [P]. *)
Definition with_blk (P : blk -> Prop) (B : list blk) (o : Z) : Prop := Exists (fun b => P b /\ in_blk b o) B.
Definition no_blk (B : list blk) (o : Z) : Prop := Forall (fun b => ~ in_blk b o) B.

(** No offset is in two blocks. *)
Fixpoint disjoint_blks (B : list blk) : Prop :=
  match B with [] => True | b :: B => (forall o, in_blk b o -> no_blk B o) /\ disjoint_blks B end.

(** Syncing the group [txg] puts its allocations and frees on disk. *)
Definition sync_blk (txg : Z) (b : blk) : blk :=
  mk_blk (b_off b) (b_size b) (if decide (b_alloc b = Some txg) then None else b_alloc b)
    (match b_free b with Freeing t => if decide (t = txg) then Freed else Freeing t | f => f end).

#[export] Instance fstate_eq_dec : EqDecision fstate.
Proof. solve_decision. Defined.

(** The operations on a metaslab, by the code that performs them. *)
Inductive ms_op {D : Type} :=
  | OLoad                            (* metaslab_activate: space_map_load *)
  | OAlloc (size txg : Z)            (* metaslab_group_alloc *)
  | OClaim (offset size txg : Z)     (* metaslab_claim_dva *)
  | OFree (i : nat) (txg : Z)        (* metaslab_free_dva of the ith block *)
  | ORollback (i : nat)              (* metaslab_free_dva, now *)
  | OSync (pass : Z)                 (* metaslab_sync *)
  | ODone                            (* metaslab_sync_done *)
  | OSkip                            (* the group had nothing here *)
  | OWeight (weight : Z)             (* metaslab_group_sort *)
  | OMos (mos : D).                  (* the rest of the pool writes to the DMU *)
Arguments ms_op : clear implicits.

(** A region from [lo] to [hi]; the state is the syncing group and the blocks. *)
Inductive abs_step {D : Type} (lo hi : Z) : ms_op D -> Z -> Z * list blk -> Z * list blk -> Prop :=
  | abs_load txg B err : abs_step lo hi OLoad err (txg, B) (txg, B)
  | abs_alloc txg B size t r : lo <= r -> r + size <= hi -> (forall j, 0 <= j -> size mod 2 ^ j = 0 -> r mod 2 ^ j = 0) ->
      (forall o, range r size o -> no_blk B o) ->
      abs_step lo hi (OAlloc size t) r (txg, B) (txg, mk_blk r size (Some t) Live :: B)
  | abs_full txg B size t k : size mod 2 ^ k = 0 -> (forall j, 0 <= j -> size mod 2 ^ j = 0 -> j <= k) ->
      (forall o, o mod 2 ^ k = 0 -> lo <= o -> o + size <= hi -> ~ forall p, range o size p -> no_blk B p) ->
      abs_step lo hi (OAlloc size t) (2 ^ 64 - 1) (txg, B) (txg, B)
  | abs_claim txg B offset size t : abs_step lo hi (OClaim offset size t) 0 (txg, B) (txg, mk_blk offset size (Some t) Live :: B)
  | abs_free txg B1 b B2 t :
      abs_step lo hi (OFree (length B1) t) 0 (txg, B1 ++ b :: B2) (txg, B1 ++ mk_blk (b_off b) (b_size b) (b_alloc b) (Freeing t) :: B2)
  | abs_rollback txg B1 b B2 : abs_step lo hi (ORollback (length B1)) 0 (txg, B1 ++ b :: B2) (txg, B1 ++ B2)
  | abs_sync txg B pass : abs_step lo hi (OSync pass) 0 (txg, B) (txg, sync_blk txg <$> B)
  | abs_done txg B : abs_step lo hi ODone 0 (txg, B) (txg + 1, filter (fun b => b_free b <> Freed) B)
  | abs_skip txg B : abs_step lo hi OSkip 0 (txg, B) (txg + 1, B)
  | abs_weight txg B weight : abs_step lo hi (OWeight weight) 0 (txg, B) (txg, B)
  | abs_mos txg B mos : abs_step lo hi (OMos mos) 0 (txg, B) (txg, B).

(** ** The implementation *)

Section life.
Context {T D : Type} `{HI : AvlIface T} {cap : nat} {HL : AvlLaws T cap}.
Context `{HD : ObjectStore D} {HDL : ObjectStoreLaws D} `{HM : MosStore D} {HML : MosLaws D}.
Context (zfs_recover : bool) (vd : vdev).
Implicit Types (ms : metaslab T) (mos : D) (B : list blk).

(** The calls an operation makes on the metaslab, with the block it is about;
    the result is the offset, the error, or 0. *)
Definition ms_step ms mos (txg : Z) (b : blk) (op : ms_op D) : option (metaslab T * D * Z) :=
  match op with
  | OLoad => let* (ms, err) := ms_load zfs_recover ms mos in Some (ms, mos, err)
  | OAlloc size t =>
      let* (ms, r) := ms_alloc zfs_recover ms size in
      if negb (r =? 2 ^ 64 - 1) then let* ms := ms_add_allocmap zfs_recover ms r size t in Some (ms, mos, r) else Some (ms, mos, r)
  | OClaim offset size t =>
      let* ms := ms_claim zfs_recover ms offset size in
      let* ms := ms_add_allocmap zfs_recover ms offset size t in Some (ms, mos, 0)
  | OFree _ t => let* ms := ms_free_later zfs_recover ms (b_off b) (b_size b) t in Some (ms, mos, 0)
  | ORollback _ => let* ms := ms_free_now zfs_recover ms (b_off b) (b_size b) (default 0 (b_alloc b)) in Some (ms, mos, 0)
  | OSync pass => let* (ms, mos) := metaslab_sync zfs_recover vd pass ms mos txg in Some (ms, mos, 0)
  | ODone => let* ms := sync_done_maps zfs_recover ms txg in Some (ms, mos, 0)
  | OSkip => Some (ms, mos, 0)
  | OWeight weight => Some (with_weight ms weight (ms_group ms), mos, 0)
  | OMos mos => Some (ms, mos, 0)
  end.

(** When the pool may call an operation, and the block it is about. *)
Definition in_flight (txg t : Z) : Prop := txg <= t <= txg + 2.
Definition no_block : blk := mk_blk 0 0 None Live.

Inductive may ms mos (txg : Z) B : ms_op D -> blk -> Prop :=
  | may_load : may ms mos txg B OLoad no_block
  | may_alloc size t : sm_loaded (ms_map ms) = true -> in_flight txg t -> 0 < size < 2 ^ 62 -> size mod 2 ^ sm_shift (ms_map ms) = 0 ->
      may ms mos txg B (OAlloc size t) no_block
  | may_claim offset size t : sm_loaded (ms_map ms) = true -> in_flight txg t -> range_ok (ms_map ms) offset size ->
      (forall o, range offset size o -> no_blk B o) -> may ms mos txg B (OClaim offset size t) no_block
  | may_free B1 b B2 t : B = B1 ++ b :: B2 -> b_free b = Live -> in_flight txg t -> (forall t0, b_alloc b = Some t0 -> t0 <= t) ->
      may ms mos txg B (OFree (length B1) t) b
  | may_rollback B1 b B2 t : B = B1 ++ b :: B2 -> b_free b = Live -> b_alloc b = Some t -> sm_loaded (ms_map ms) = true ->
      may ms mos txg B (ORollback (length B1)) b
  | may_sync pass : smo_objsize (ms_smo_syncing ms) < 2 ^ 62 -> mos_has mos (vdev_ms_array vd) -> may ms mos txg B (OSync pass) no_block
  | may_done : (forall b, b ∈ B -> b_alloc b <> Some txg /\ b_free b <> Freeing txg) -> may ms mos txg B ODone no_block
  | may_skip : (forall b, b ∈ B -> b_alloc b <> Some txg /\ b_free b <> Freeing txg /\ b_free b <> Freed) -> may ms mos txg B OSkip no_block
  | may_weight weight : may ms mos txg B (OWeight weight) no_block
  | may_mos mos' : (forall o, o = smo_object (ms_smo ms) \/ o = smo_object (ms_smo_syncing ms) -> mos_has mos o ->
        mos_has mos' o /\ os_content mos' o = os_content mos o) -> may ms mos txg B (OMos mos') no_block.

(** ** The blocks of a metaslab *)

Record blocks_ok (sm : ms_space_map T) (txg : Z) B : Prop := {
  bo_range : Forall (fun b => range_ok sm (b_off b) (b_size b)) B;
  bo_disjoint : disjoint_blks B;
  bo_alloc : Forall (fun b => forall t, b_alloc b = Some t -> in_flight txg t) B;
  bo_freeing : Forall (fun b => forall t, b_free b = Freeing t -> in_flight txg t /\ forall t0, b_alloc b = Some t0 -> t0 <= t) B;
  bo_freed : Forall (fun b => b_free b = Freed -> b_alloc b = None) B
}.

(** The maps and the log stand for the blocks. *)
Record refines mos (txg : Z) ms B (M : list space_seg) (AL FR : list (list space_seg)) (ws wss : list Z) (A As : Z -> Prop) : Prop := {
  rf_inv : ms_inv (cap := cap) mos txg ms M AL FR ws wss A As;
  rf_len : Z.of_nat (length ws) < 2 ^ 60;
  rf_blocks : blocks_ok (ms_map ms) txg B;
  rf_alloc j o : (j < 3)%nat -> group_set AL txg j o <-> with_blk (fun b => b_alloc b = Some (txg + Z.of_nat j)) B o;
  rf_free j o : (j < 3)%nat -> group_set FR txg j o <-> with_blk (fun b => b_free b = Freeing (txg + Z.of_nat j)) B o;
  rf_freed o : covers (slot [] FR (txg + 3)) o <-> with_blk (fun b => b_free b = Freed) B o;
  rf_disk o : A o <-> with_blk (fun b => b_alloc b = None /\ b_free b <> Freed) B o
}.

Definition life mos (txg : Z) ms B : Prop := exists M AL FR ws wss A As, refines mos txg ms B M AL FR ws wss A As.

(** *** Lists of blocks *)

Lemma with_blk_cons P b B o : with_blk P (b :: B) o <-> (P b /\ in_blk b o) \/ with_blk P B o.
Proof. apply Exists_cons. Qed.
Lemma with_blk_mid P B1 b B2 o : with_blk P (B1 ++ b :: B2) o <-> (P b /\ in_blk b o) \/ with_blk P (B1 ++ B2) o.
Proof. unfold with_blk. by rewrite <-Permutation_middle, Exists_cons. Qed.
Lemma with_blk_fmap P f B o : (forall b o, in_blk (f b) o <-> in_blk b o) -> with_blk P (f <$> B) o <-> with_blk (fun b => P (f b)) B o.
Proof.
  intros Hf. unfold with_blk. rewrite Exists_fmap.
  split; intros H; (eapply Exists_impl; [exact H|]); cbn; intros b [? ?]; (split; [done|]); by apply Hf.
Qed.
Lemma with_blk_ext (P Q : blk -> Prop) B o : (forall b, b ∈ B -> in_blk b o -> P b <-> Q b) -> with_blk P B o <-> with_blk Q B o.
Proof.
  intros HPQ. unfold with_blk. rewrite !Exists_exists. split; intros (b & Hb & HP & Ho); exists b; (split; [done|]); (split; [|done]); by apply (HPQ b Hb Ho).
Qed.
Lemma with_blk_filter P Q `{forall b, Decision (Q b)} B o : with_blk P (filter Q B) o <-> with_blk (fun b => P b /\ Q b) B o.
Proof.
  unfold with_blk. rewrite !Exists_exists. split; intros (b & Hb & HP & Ho); exists b; rewrite list_elem_of_filter in *; tauto.
Qed.
Lemma with_blk_in P B o : with_blk P B o <-> exists b, b ∈ B /\ P b /\ in_blk b o.
Proof. apply Exists_exists. Qed.

#[export] Instance with_blk_proper : Proper (pointwise_relation blk iff ==> eq ==> eq ==> iff) with_blk.
Proof. intros P Q HPQ B ? <- o ? <-. apply with_blk_ext. intros b _ _. apply HPQ. Qed.

#[export] Instance no_blk_proper : Proper ((≡ₚ) ==> eq ==> iff) no_blk.
Proof. intros B B' HB o ? <-. unfold no_blk. by rewrite HB. Qed.

#[export] Instance disjoint_blks_proper : Proper ((≡ₚ) ==> iff) disjoint_blks.
Proof.
  assert (forall B B', B ≡ₚ B' -> disjoint_blks B -> disjoint_blks B') as H.
  { induction 1 as [|x B B' Hp IH|x y B|B1 B2 B3 _ IH1 _ IH2]; cbn [disjoint_blks]; [done| |..].
    - intros [H1 H2]. split; [|auto]. intros o Ho. rewrite <-Hp. by apply H1.
    - intros (H1 & H2 & H3). split; [|split; [|done]].
      + intros o Ho. constructor; [|by apply H2]. intros Ho'. specialize (H1 o Ho'). by apply Forall_cons in H1 as [? _].
      + intros o Ho. specialize (H1 o Ho). by apply Forall_cons in H1 as [_ ?].
    - auto. }
  intros B B' Hp. split; apply H; by symmetry in Hp || done.
Qed.

Lemma disjoint_mid B1 b B2 : disjoint_blks (B1 ++ b :: B2) <-> (forall o, in_blk b o -> no_blk (B1 ++ B2) o) /\ disjoint_blks (B1 ++ B2).
Proof. by rewrite <-Permutation_middle. Qed.

Lemma disjoint_fmap f B : (forall b o, in_blk (f b) o <-> in_blk b o) -> disjoint_blks (f <$> B) <-> disjoint_blks B.
Proof.
  intros Hf. assert (forall B o, no_blk (f <$> B) o <-> no_blk B o) as Hn.
  { intros B' o. unfold no_blk. rewrite Forall_fmap.
    split; intros H; (eapply Forall_impl; [exact H|]); cbn; intros b Hn Ho; apply Hn; by apply Hf. }
  induction B as [|b B IH]; cbn [fmap list_fmap disjoint_blks]; [done|]. rewrite IH. setoid_rewrite Hn. setoid_rewrite Hf. done.
Qed.

Lemma disjoint_filter Q `{forall b, Decision (Q b)} B : disjoint_blks B -> disjoint_blks (filter Q B).
Proof.
  induction B as [|b B IH]; [done|]. cbn [disjoint_blks]. intros [H1 H2]. rewrite filter_cons. destruct (decide (Q b)); [|auto].
  split; [|auto]. intros o Ho. apply Forall_forall. intros b' [_ Hb']%list_elem_of_filter. specialize (H1 o Ho). unfold no_blk in H1.
  rewrite Forall_forall in H1. auto.
Qed.

Lemma blocks_unique sm txg B b b' o : blocks_ok sm txg B -> b ∈ B -> b' ∈ B -> in_blk b o -> in_blk b' o -> b = b'.
Proof.
  intros Hb Hin Hin' Ho Ho'. apply list_elem_of_split in Hin as (B1 & B2 & ->). pose proof (bo_disjoint _ _ _ Hb) as [Hd _]%disjoint_mid.
  specialize (Hd o Ho). unfold no_blk in Hd. rewrite Forall_forall in Hd. rewrite elem_of_app, elem_of_cons in Hin'.
  destruct Hin' as [?|[?|?]]; [|done|]; exfalso; (apply (Hd b'); [rewrite elem_of_app; tauto|done]).
Qed.

Lemma blocks_geom sm sm' txg B : same_geom sm sm' -> blocks_ok sm txg B -> blocks_ok sm' txg B.
Proof.
  intros Hg [H1 H2 H3 H4 H5]. split; try done. eapply Forall_impl; [exact H1|]. intros b. by apply range_ok_geom.
Qed.

Lemma blocks_cons sm txg B b : blocks_ok sm txg B -> range_ok sm (b_off b) (b_size b) -> (forall o, in_blk b o -> no_blk B o) ->
  (forall t, b_alloc b = Some t -> in_flight txg t) -> b_free b = Live -> blocks_ok sm txg (b :: B).
Proof.
  intros [H1 H2 H3 H4 H5] Hr Hd Ha Hf. split; try (constructor; [done|done]); try done; (constructor; [by rewrite Hf|done]).
Qed.

Lemma blocks_mid sm txg B1 b B2 : blocks_ok sm txg (B1 ++ b :: B2) -> blocks_ok sm txg (B1 ++ B2).
Proof.
  intros [H1 H2 H3 H4 H5]. rewrite <-Permutation_middle in H1, H3, H4, H5. apply disjoint_mid in H2 as [_ H2].
  apply Forall_cons in H1 as [_ H1], H3 as [_ H3], H4 as [_ H4], H5 as [_ H5]. done.
Qed.

Lemma blocks_change sm txg B1 b b' B2 : blocks_ok sm txg (B1 ++ b :: B2) -> b_off b' = b_off b -> b_size b' = b_size b ->
  (forall t, b_alloc b' = Some t -> in_flight txg t) ->
  (forall t, b_free b' = Freeing t -> in_flight txg t /\ forall t0, b_alloc b' = Some t0 -> t0 <= t) ->
  (b_free b' = Freed -> b_alloc b' = None) -> blocks_ok sm txg (B1 ++ b' :: B2).
Proof.
  intros Hb E1 E2 Ha Hf Hd. pose proof (blocks_mid _ _ _ _ _ Hb) as [M1 M2 M3 M4 M5]. destruct Hb as [H1 H2 _ _ _].
  rewrite <-Permutation_middle in H1. apply Forall_cons in H1 as [Hr _]. apply disjoint_mid in H2 as [H2 _].
  split; try (rewrite <-Permutation_middle; by constructor).
  - rewrite <-Permutation_middle. constructor; [by rewrite E1, E2|done].
  - apply disjoint_mid. split; [|done]. intros o Ho. apply H2. unfold in_blk in *. by rewrite <-E1, <-E2.
Qed.

(** ** The operations refine the specification *)

Lemma in_flight_group txg t : in_flight txg t <-> exists j, (j < 3)%nat /\ t = txg + Z.of_nat j.
Proof.
  unfold in_flight. split; [|intros (j & Hj & ->); lia]. intros Ht. exists (Z.to_nat (t - txg)). split; [lia|]. rewrite Z2Nat.id; lia.
Qed.

(** What is free is what no block has. *)
Lemma refines_free mos txg ms B M AL FR ws wss A As : refines mos txg ms B M AL FR ws wss A As ->
  forall o, free_set ms M As o <-> region (ms_map ms) o /\ no_blk B o.
Proof.
  intros [Hinv _ Hb Ra Rf Rd RA] o. destruct (mi_accounts _ _ _ _ _ _ _ _ _ _ Hinv) as [C1 C2 C3 C4 C5 _ _ _]. split.
  - intros Ho. split; [rewrite C1; by left|]. apply Forall_forall. intros b Hin Hbo.
    destruct (b_alloc b) as [t|] eqn:Ea.
    + pose proof (bo_alloc _ _ _ Hb) as Hal. rewrite Forall_forall in Hal. destruct (proj1 (in_flight_group _ _) (Hal b Hin t Ea)) as (j & Hj & ->).
      destruct (C5 j o Hj) as [Hn _]; [|done]. apply Ra; [done|]. apply with_blk_in. by exists b.
    + destruct (decide (b_free b = Freed)) as [Ef|Ef].
      * apply (C3 o Ho), Rd, with_blk_in. by exists b.
      * apply (C2 o Ho), RA, with_blk_in. by exists b.
  - intros [HR Hn]. apply C1 in HR. unfold no_blk in Hn. rewrite Forall_forall in Hn.
    destruct HR as [?|[Ho|[Ho|(j & Hj & Ho)]]]; [done|exfalso..].
    + apply RA, with_blk_in in Ho as (b & Hin & _ & Hbo). by apply (Hn b).
    + apply Rd, with_blk_in in Ho as (b & Hin & _ & Hbo). by apply (Hn b).
    + apply Ra, with_blk_in in Ho as (b & Hin & _ & Hbo); [|done]. by apply (Hn b).
Qed.

(** A new block of the group [j]. *)
Lemma refines_new mos txg ms ms' B M M' AL AL' FR ws wss A As s size j :
  refines mos txg ms B M AL FR ws wss A As -> (j < 3)%nat -> range_ok (ms_map ms) s size -> same_geom (ms_map ms) (ms_map ms') ->
  (forall o, range s size o -> no_blk B o) -> ms_inv (cap := cap) mos txg ms' M' AL' FR ws wss A As ->
  (forall i o, (i < 3)%nat -> group_set AL' txg i o <-> group_set AL txg i o \/ (i = j /\ range s size o)) ->
  refines mos txg ms' (mk_blk s size (Some (txg + Z.of_nat j)) Live :: B) M' AL' FR ws wss A As.
Proof.
  intros [Hinv Hlen Hb Ra Rf Rd RA] Hj Hr Hg Hno Hinv' HAL. split; try done.
  - apply (blocks_geom (ms_map ms)); [done|]. apply blocks_cons; try done. cbn. intros t [= <-]. apply in_flight_group. by exists j.
  - intros i o Hi. rewrite HAL, with_blk_cons, Ra by done. cbn [b_alloc]. unfold in_blk. cbn [b_off b_size].
    split; [intros [?|[-> ?]]; [by right|by left]|]. intros [[E ?]|?]; [right|by left]. split; [|done]. injection E. lia.
  - intros i o Hi. rewrite with_blk_cons, Rf by done. cbn [b_free]. naive_solver.
  - intros o. rewrite with_blk_cons, Rd. cbn [b_free]. naive_solver.
  - intros o. rewrite with_blk_cons, RA. cbn [b_alloc]. naive_solver.
Qed.

Lemma step_load mos txg ms B : life mos txg ms B ->
  exists ms' err, ms_load zfs_recover ms mos = Some (ms', err) /\ life mos txg ms' B /\ same_geom (ms_map ms) (ms_map ms') /\
    (err = 0 -> sm_loaded (ms_map ms') = true) /\ ms' = with_map ms (ms_map ms').
Proof using HL.
  intros (M & AL & FR & ws & wss & A & As & [Hinv Hlen Hb Ra Rf Rd RA]).
  destruct (load_inv zfs_recover mos txg ms M AL FR ws wss A As Hinv Hlen) as (sm' & err & M' & E & Hinv' & _ & Hok & Hg).
  unfold ms_load. rewrite E. cbn [mbind option_bind]. eexists _, err. split; [done|]. split; [|done]. exists M', AL, FR, ws, wss, A, As. split; try done.
  by apply (blocks_geom (ms_map ms)).
Qed.

Lemma step_alloc mos txg ms B size t : life mos txg ms B -> sm_loaded (ms_map ms) = true -> in_flight txg t ->
  0 < size < 2 ^ 62 -> size mod 2 ^ sm_shift (ms_map ms) = 0 ->
  exists ms' r B', ms_step ms mos txg no_block (OAlloc size t) = Some (ms', mos, r) /\
    abs_step (D := D) (sm_start (ms_map ms)) (sm_start (ms_map ms) + sm_size (ms_map ms)) (OAlloc size t) r (txg, B) (txg, B') /\ life mos txg ms' B' /\
    same_geom (ms_map ms) (ms_map ms') /\ sm_loaded (ms_map ms') = true.
Proof using HL.
  intros (M & AL & FR & ws & wss & A & As & Href) El (j & Hj & ->)%in_flight_group Hsize Hal. pose proof Href as [Hinv Hlen Hb Ra Rf Rd RA].
  pose proof (refines_free _ _ _ _ _ _ _ _ _ _ _ Href) as Hfree.
  destruct (ms_alloc_spec zfs_recover mos txg ms M AL FR ws wss A As size Hinv El Hsize Hal)
    as (ms1 & r & k & E & _ & _ & _ & Hg & El1 & Hk & Hdiv & Hbig & Hres). cbn [ms_step]. rewrite E. cbn [mbind option_bind].
  destruct Hres as [(-> & Hinv' & Hno)|(Hr & Hrk & Hrok & Hin & Hadd)].
  - rewrite Z.eqb_refl. cbn [negb]. exists ms1, (2 ^ 64 - 1), B. split; [done|]. split; [|split; [|done]].
    + eapply abs_full; [exact Hdiv|done|]. intros o Ho Hlo Hhi Hall. apply (Hno o Ho). intros p Hp. apply Hfree. split; [|by apply Hall].
      unfold region, range in *. lia.
    + exists M, AL, FR, ws, wss, A, As. split; try done. by apply (blocks_geom (ms_map ms)).
  - rewrite (proj2 (Z.eqb_neq _ _)) by done. cbn [negb]. destruct (Hadd j Hj) as (ms2 & M' & AL' & -> & Hinv' & Em & _ & _ & _ & _ & HAL). cbn [mbind option_bind].
    eexists ms2, r, _. split; [done|]. split; [|split].
    + apply abs_alloc; [apply Hrok|apply Hrok| |intros o Ho; by apply Hfree, Hin].
      intros i Hi Hdi. specialize (Hbig i Hi Hdi). apply Z.mod_divide; [apply Z.pow_nonzero; lia|].
      apply (Z.divide_trans _ (2 ^ k)); [|apply Z.mod_divide; [apply Z.pow_nonzero; lia|done]].
      exists (2 ^ (k - i)). rewrite <-Z.pow_add_r by lia. f_equal. lia.
    + exists M', AL', FR, ws, wss, A, As. eapply refines_new; try done; [by rewrite Em|]. intros o Ho. by apply Hfree, Hin.
    + split; [by rewrite Em|congruence].
Qed.

Lemma step_claim mos txg ms B offset size t : life mos txg ms B -> sm_loaded (ms_map ms) = true -> in_flight txg t ->
  range_ok (ms_map ms) offset size -> (forall o, range offset size o -> no_blk B o) ->
  exists ms', ms_step ms mos txg no_block (OClaim offset size t) = Some (ms', mos, 0) /\
    life mos txg ms' (mk_blk offset size (Some t) Live :: B) /\ same_geom (ms_map ms) (ms_map ms').
Proof using HL.
  intros (M & AL & FR & ws & wss & A & As & Href) El (j & Hj & ->)%in_flight_group Hr Hno. pose proof Href as [Hinv Hlen Hb Ra Rf Rd RA].
  destruct (ms_claim_spec zfs_recover mos txg ms M AL FR ws wss A As j offset size Hinv El Hj Hr) as (ms1 & ms2 & M' & AL' & E1 & E2 & Hinv' & HAL & Hg).
  { intros o Ho. apply (refines_free _ _ _ _ _ _ _ _ _ _ _ Href). split; [|by apply Hno]. destruct Hr. unfold region, range in *. lia. }
  cbn [ms_step]. rewrite E1. cbn [mbind option_bind]. rewrite E2. cbn [mbind option_bind]. eexists. split; [done|]. split; [|done].
  exists M', AL', FR, ws, wss, A, As. by eapply refines_new.
Qed.

Lemma blk_range mos txg ms B1 b B2 : life mos txg ms (B1 ++ b :: B2) -> range_ok (ms_map ms) (b_off b) (b_size b).
Proof.
  intros (M & AL & FR & ws & wss & A & As & Href). pose proof (bo_range _ _ _ (rf_blocks _ _ _ _ _ _ _ _ _ _ _ Href)) as H.
  rewrite <-Permutation_middle in H. by apply Forall_cons in H as [H _].
Qed.

(** A live block is being freed by no group. *)
Lemma live_not_freeing mos txg ms B1 b B2 M AL FR ws wss A As : refines mos txg ms (B1 ++ b :: B2) M AL FR ws wss A As -> b_free b = Live ->
  forall i o, (i < 3)%nat -> in_blk b o -> ~ group_set FR txg i o.
Proof.
  intros [_ _ Hb _ Rf _ _] Hlive i o Hi Ho Hf. apply Rf, with_blk_in in Hf as (b' & Hin & Ef & Ho'); [|done].
  assert (b = b') as <- by (eapply blocks_unique; [exact Hb| |exact Hin|exact Ho|exact Ho']; rewrite elem_of_app, elem_of_cons; tauto). congruence.
Qed.

Lemma step_free mos txg ms B1 b B2 t : life mos txg ms (B1 ++ b :: B2) -> b_free b = Live -> in_flight txg t ->
  (forall t0, b_alloc b = Some t0 -> t0 <= t) ->
  exists ms', ms_free_later zfs_recover ms (b_off b) (b_size b) t = Some ms' /\
    life mos txg ms' (B1 ++ mk_blk (b_off b) (b_size b) (b_alloc b) (Freeing t) :: B2) /\ ms_map ms' = ms_map ms.
Proof using HL.
  intros Hlife Hlive (j & Hj & ->)%in_flight_group Hbirth. pose proof (blk_range _ _ _ _ _ _ Hlife) as Hr.
  destruct Hlife as (M & AL & FR & ws & wss & A & As & Href). pose proof Href as [Hinv Hlen Hb Ra Rf Rd RA].
  assert (b ∈ B1 ++ b :: B2) as Hin by (rewrite elem_of_app, elem_of_cons; tauto).
  destruct (ms_free_later_spec zfs_recover mos txg ms M AL FR ws wss A As j (b_off b) (b_size b) Hinv Hj Hr)
    as (ms' & FR' & E & Hinv' & Em & _ & _ & _ & _ & Efd & HFR).
  - intros o Ho. destruct (b_alloc b) as [t0|] eqn:Ea.
    + right. pose proof (bo_alloc _ _ _ Hb) as Hal. rewrite Forall_forall in Hal. destruct (proj1 (in_flight_group _ _) (Hal b Hin t0 Ea)) as (i & Hi & ->).
      exists i. split; [specialize (Hbirth _ eq_refl); lia|]. apply Ra; [done|]. apply with_blk_in. by exists b.
    + left. apply RA, with_blk_in. exists b. split; [done|]. split; [|done]. split; [done|congruence].
  - intros i o Hi Ho. by eapply live_not_freeing.
  - exists ms'. split; [done|]. split; [|done]. exists M, AL, FR', ws, wss, A, As. set (b' := mk_blk _ _ _ _).
    split; try done.
    + rewrite Em. eapply blocks_change; try done.
      * pose proof (bo_alloc _ _ _ Hb) as Hal. rewrite Forall_forall in Hal. apply (Hal b Hin).
      * cbn. intros t [= <-]. split; [|done]. apply in_flight_group. by exists j.
    + intros i o Hi. rewrite Ra, !with_blk_mid by done. done.
    + intros i o Hi. rewrite HFR, Rf, !with_blk_mid by done. rewrite Hlive. cbn [b_free b']. unfold in_blk. cbn [b_off b_size b'].
      split; [intros [[[? _]|?]|[-> ?]]; [done|by right|by left]|]. intros [[[= E'] ?]|?]; [right; split; [lia|done]|left; by right].
    + intros o. rewrite Efd, Rd, !with_blk_mid, Hlive. cbn [b_free b']. naive_solver.
    + intros o. rewrite RA, !with_blk_mid, Hlive. cbn [b_free b_alloc b']. unfold in_blk. cbn [b_off b_size b']. naive_solver.
Qed.

Lemma step_rollback mos txg ms B1 b B2 t : life mos txg ms (B1 ++ b :: B2) -> b_free b = Live -> b_alloc b = Some t ->
  sm_loaded (ms_map ms) = true ->
  exists ms', ms_free_now zfs_recover ms (b_off b) (b_size b) t = Some ms' /\ life mos txg ms' (B1 ++ B2) /\ same_geom (ms_map ms) (ms_map ms') /\ sm_loaded (ms_map ms') = true.
Proof using HL.
  intros Hlife Hlive Ea El. pose proof (blk_range _ _ _ _ _ _ Hlife) as Hr.
  destruct Hlife as (M & AL & FR & ws & wss & A & As & Href). pose proof Href as [Hinv Hlen Hb Ra Rf Rd RA].
  assert (b ∈ B1 ++ b :: B2) as Hin by (rewrite elem_of_app, elem_of_cons; tauto).
  pose proof (bo_alloc _ _ _ Hb) as Hal. rewrite Forall_forall in Hal. destruct (proj1 (in_flight_group _ _) (Hal b Hin t Ea)) as (j & Hj & ->).
  destruct (ms_free_now_spec zfs_recover mos txg ms M AL FR ws wss A As j (b_off b) (b_size b) Hinv El Hj Hr)
    as (ms' & M' & AL' & E & Hinv' & HAL & _ & _ & Hg & _ & _).
  - intros o Ho. apply Ra; [done|]. apply with_blk_in. by exists b.
  - intros i o Hi Ho. by eapply live_not_freeing.
  - pose proof Hg as (_ & _ & _ & Hld & _). exists ms'. split; [done|]. split; [|split; [by apply same_map_geom|congruence]]. exists M', AL', FR, ws, wss, A, As.
    split; try done.
    + apply (blocks_geom (ms_map ms)); [by apply same_map_geom|]. by eapply blocks_mid.
    + intros i o Hi. rewrite HAL, Ra, with_blk_mid, Ea by done. split.
      * intros [[[[= E'] Ho]|?] Hn]; [|done]. destruct Hn. split; [lia|done].
      * intros Ho. split; [by right|]. intros [_ Hbo]. pose proof (bo_disjoint _ _ _ Hb) as [Hd _]%disjoint_mid. specialize (Hd o Hbo). unfold no_blk in Hd.
        rewrite Forall_forall in Hd. apply with_blk_in in Ho as (b' & Hb' & _ & Ho'). by apply (Hd b').
    + intros i o Hi. rewrite Rf, with_blk_mid, Hlive by done. naive_solver.
    + intros o. rewrite Rd, with_blk_mid, Hlive. naive_solver.
    + intros o. rewrite RA, with_blk_mid, Ea. naive_solver.
Qed.

(** *** Syncing *)

Lemma in_sync_blk txg b o : in_blk (sync_blk txg b) o <-> in_blk b o.
Proof. done. Qed.

Lemma sync_alloc txg b t : b_alloc (sync_blk txg b) = Some t <-> b_alloc b = Some t /\ t <> txg.
Proof. cbn. destruct (decide (b_alloc b = Some txg)) as [->|]; naive_solver. Qed.
Lemma sync_alloc_none txg b : b_alloc (sync_blk txg b) = None <-> b_alloc b = None \/ b_alloc b = Some txg.
Proof. cbn. destruct (decide (b_alloc b = Some txg)) as [->|]; naive_solver. Qed.
Lemma sync_freeing txg b t : b_free (sync_blk txg b) = Freeing t <-> b_free b = Freeing t /\ t <> txg.
Proof. cbn. destruct (b_free b) as [|u|]; try naive_solver. destruct (decide (u = txg)); naive_solver. Qed.
Lemma sync_freed txg b : b_free (sync_blk txg b) = Freed <-> b_free b = Freed \/ b_free b = Freeing txg.
Proof. cbn. destruct (b_free b) as [|u|]; try naive_solver. destruct (decide (u = txg)); naive_solver. Qed.

Lemma blocks_sync sm txg B : blocks_ok sm txg B -> blocks_ok sm txg (sync_blk txg <$> B).
Proof.
  intros [H1 H2 H3 H4 H5]. split; rewrite ?Forall_fmap.
  - exact H1.
  - by apply disjoint_fmap.
  - eapply Forall_impl; [exact H3|]. intros b Hb t [Ht _]%sync_alloc. by apply Hb.
  - eapply Forall_impl; [exact H4|]. intros b Hb t [Ht _]%sync_freeing. destruct (Hb t Ht) as [? Hle]. split; [done|].
    intros t0 [Ht0 _]%sync_alloc. by apply Hle.
  - rewrite Forall_forall in H4, H5 |- *. intros b Hin [Hf|Hf]%sync_freed; apply sync_alloc_none.
    + left. by apply (H5 b).
    + rewrite Forall_forall in H3. destruct (b_alloc b) as [t0|] eqn:Ea; [right|by left]. destruct (H4 b Hin txg Hf) as [_ Hle]. specialize (Hle t0 Ea).
      specialize (H3 b Hin t0 Ea). unfold in_flight in H3. f_equal. lia.
Qed.

Lemma step_sync mos txg ms B pass : life mos txg ms B -> smo_objsize (ms_smo_syncing ms) < 2 ^ 62 -> mos_has mos (vdev_ms_array vd) ->
  exists ms' mos', metaslab_sync zfs_recover vd pass ms mos txg = Some (ms', mos') /\ life mos' txg ms' (sync_blk txg <$> B) /\ ms_map ms' = ms_map ms /\
    smo_object (ms_smo_syncing ms') <> 0 /\ mos_bonus mos' (smo_object (ms_smo_syncing ms')) = Some (ms_smo_syncing ms') /\
    ms_smo ms' = ms_smo ms /\ ms_weight ms' = ms_weight ms /\ ms_group ms' = ms_group ms /\
    (smo_object (ms_smo_syncing ms) <> 0 -> smo_object (ms_smo_syncing ms') = smo_object (ms_smo_syncing ms)) /\
    (smo_object (ms_smo_syncing ms) = 0 -> ~ mos_has mos (smo_object (ms_smo_syncing ms'))) /\
    others_kept mos mos' (smo_object (ms_smo_syncing ms')) (vdev_ms_array vd).
Proof using HL HML.
  intros (M & AL & FR & ws & wss & A & As & [Hinv Hlen Hb Ra Rf Rd RA]) Hsz Harr.
  assert (Z.of_nat (length ws) < 2 ^ 59) as Hlen' by (rewrite (lo_size _ _ _ _ _ (mi_log _ _ _ _ _ _ _ _ _ _ Hinv)) in Hsz; lia).
  destruct (metaslab_sync_spec zfs_recover vd pass ms mos txg M AL FR ws wss A As Hinv Harr Hlen')
    as (ms' & mos' & Lfd & ws' & E & Hinv' & Hfd & Em & Esm & Ew & Eg & Hobj & Hold & Hnew & Hlw & Hbonus & Hoth).
  exists ms', mos'. split; [done|]. split; [|done]. pose proof (mi_maps _ _ _ _ _ _ _ _ _ _ Hinv) as Hm.
  assert (forall o, covers (slot [] AL txg) o <-> with_blk (fun b => b_alloc b = Some txg) B o) as Ra0.
  { intros o. specialize (Ra 0%nat o ltac:(lia)). unfold group_set in Ra. by rewrite !Z.add_0_r in Ra. }
  assert (forall o, covers (slot [] FR txg) o <-> with_blk (fun b => b_free b = Freeing txg) B o) as Rf0.
  { intros o. specialize (Rf 0%nat o ltac:(lia)). unfold group_set in Rf. by rewrite !Z.add_0_r in Rf. }
  eexists M, _, _, ws', wss, _, As. split; [exact Hinv'|lia|rewrite Em; by apply blocks_sync|..].
  - intros j o Hj. rewrite with_blk_fmap by done. setoid_rewrite sync_alloc. unfold group_set.
    pose proof (slot_insert [] AL txg [] 0 (Z.of_nat j) (mm_lenA _ _ _ _ Hm) ltac:(lia) ltac:(lia)) as Es. rewrite Z.add_0_r in Es. rewrite Es.
    destruct (decide (0 = Z.of_nat j)) as [Ej|Ej].
    + rewrite covers_nil, <-Ej. split; [done|]. intros (b & _ & [_ Hne] & _)%with_blk_in. lia.
    + change (group_set AL txg j o <-> with_blk (fun b => b_alloc b = Some (txg + Z.of_nat j) /\ txg + Z.of_nat j <> txg) B o).
      rewrite Ra by done. apply with_blk_ext. intros b _ _. split; [|tauto]. intros ?. split; [done|lia].
  - intros j o Hj. rewrite with_blk_fmap by done. setoid_rewrite sync_freeing. unfold group_set.
    rewrite slot_insert, decide_False by (rewrite ?length_insert, ?(mm_lenF _ _ _ _ Hm); lia).
    pose proof (slot_insert [] FR txg [] 0 (Z.of_nat j) (mm_lenF _ _ _ _ Hm) ltac:(lia) ltac:(lia)) as Es. rewrite Z.add_0_r in Es. rewrite Es.
    destruct (decide (0 = Z.of_nat j)) as [Ej|Ej].
    + rewrite covers_nil, <-Ej. split; [done|]. intros (b & _ & [_ Hne] & _)%with_blk_in. lia.
    + change (group_set FR txg j o <-> with_blk (fun b => b_free b = Freeing (txg + Z.of_nat j) /\ txg + Z.of_nat j <> txg) B o).
      rewrite Rf by done. apply with_blk_ext. intros b _ _. split; [|tauto]. intros ?. split; [done|lia].
  - intros o. rewrite slot_insert, decide_True by (rewrite ?length_insert, ?(mm_lenF _ _ _ _ Hm); lia). rewrite Hfd, with_blk_fmap by done.
    setoid_rewrite sync_freed. rewrite Rd, Rf0. unfold with_blk. rewrite !Exists_exists. naive_solver.
  - intros o. rewrite with_blk_fmap by done. setoid_rewrite sync_alloc_none. setoid_rewrite sync_freed. rewrite RA, Ra0, Rf0. rewrite !with_blk_in. split.
    + intros [Ho Hnf]. assert (exists b, b ∈ B /\ (b_alloc b = None \/ b_alloc b = Some txg) /\ b_free b <> Freed /\ in_blk b o) as (b & Hin & Ha & Hf & Hbo).
      { destruct Ho as [(b & Hin & [Ha Hf] & Hbo)|(b & Hin & Ha & Hbo)]; exists b; [tauto|]. split; [done|]. split; [by right|]. split; [|done].
        pose proof (bo_freed _ _ _ Hb) as Hfr. rewrite Forall_forall in Hfr. intros Hf. specialize (Hfr b Hin Hf). congruence. }
      exists b. split; [done|]. split; [|done]. split; [done|]. intros [?|Hf']; [done|]. apply Hnf. by exists b.
    + intros (b & Hin & [Ha Hf] & Hbo). split; [destruct Ha as [Ha|Ha]; [left|right]; exists b; tauto|].
      intros (b' & Hin' & Hf' & Hbo'). assert (b = b') as <- by (by eapply blocks_unique). tauto.
Qed.

(** *** The next group *)

Lemma covers_empty (sm : ms_space_map T) L : sm_wf (cap := cap) sm L -> (forall o, ~ covers L o) -> L = [].
Proof.
  intros Hwf Hn. destruct L as [|s L]; [done|]. destruct (Hn (ss_start s)). apply Exists_cons_hd.
  destruct (sf_segs _ _ Hwf) as [Hc _]. cbn in Hc. lia.
Qed.

(** The slots of a group that has nothing left to sync. *)
Lemma slots_synced mos txg ms B M AL FR ws wss A As : refines mos txg ms B M AL FR ws wss A As ->
  (forall b, b ∈ B -> b_alloc b <> Some txg /\ b_free b <> Freeing txg) -> slot [] AL txg = [] /\ slot [] FR txg = [].
Proof.
  intros [Hinv _ _ Ra Rf _ _] Hnone. pose proof (mi_maps _ _ _ _ _ _ _ _ _ _ Hinv) as Hm.
  destruct (slot_maps ms _ _ txg (mm_alloc _ _ _ _ Hm) (mm_lenA _ _ _ _ Hm)) as (ma & _ & Wa & _).
  destruct (slot_maps ms _ _ txg (mm_free _ _ _ _ Hm) (mm_lenF _ _ _ _ Hm)) as (mf & _ & Wf & _).
  specialize (Ra 0%nat). specialize (Rf 0%nat). unfold group_set in Ra, Rf. rewrite Z.add_0_r in Ra, Rf.
  split; (eapply covers_empty; [eassumption|]); intros o; [rewrite Ra by lia|rewrite Rf by lia]; intros (b & Hin & Hb & _)%with_blk_in; destruct (Hnone b Hin); done.
Qed.

Lemma blocks_next (sm : ms_space_map T) txg B : blocks_ok sm txg B -> (forall b, b ∈ B -> b_alloc b <> Some txg /\ b_free b <> Freeing txg) -> blocks_ok sm (txg + 1) B.
Proof.
  intros [H1 H2 H3 H4 H5] Hnone. rewrite Forall_forall in H3, H4. split; try done; rewrite Forall_forall; intros b Hin.
  - intros t Ht. specialize (H3 b Hin t Ht). assert (t <> txg) by (intros ->; destruct (Hnone b Hin); done). unfold in_flight in *. lia.
  - intros t Ht. destruct (H4 b Hin t Ht) as [Hf Hle]. split; [|done]. assert (t <> txg) by (intros ->; destruct (Hnone b Hin); done). unfold in_flight in *. lia.
Qed.

Lemma blocks_filter (sm : ms_space_map T) txg Q `{forall b, Decision (Q b)} B : blocks_ok sm txg B -> blocks_ok sm txg (filter Q B).
Proof.
  intros [H1 H2 H3 H4 H5]. rewrite Forall_forall in H1, H3, H4, H5.
  split; rewrite ?Forall_forall; try (by apply disjoint_filter); intros b [_ Hb]%list_elem_of_filter; eauto.
Qed.

(** The blocks of the next group's point of view: those of the last group in
    flight are new to it, and there are none. *)
Lemma refines_next mos txg ms ms' B B' M M' AL FR ws wss wss' A As As' :
  refines mos txg ms B M AL FR ws wss A As -> (forall b, b ∈ B -> b_alloc b <> Some txg /\ b_free b <> Freeing txg) ->
  B' = filter (fun b => b_free b <> Freed) B -> same_geom (ms_map ms) (ms_map ms') ->
  ms_inv (cap := cap) mos (txg + 1) ms' M' AL (<[txg_idx (txg + 3) := []]> FR) ws wss' A As' ->
  refines mos (txg + 1) ms' B' M' AL (<[txg_idx (txg + 3) := []]> FR) ws wss' A As'.
Proof.
  intros Href Hnone -> Hg Hinv'. pose proof (slots_synced _ _ _ _ _ _ _ _ _ _ _ Href Hnone) as [EA EF]. destruct Href as [Hinv Hlen Hb Ra Rf Rd RA].
  pose proof (mi_maps _ _ _ _ _ _ _ _ _ _ Hinv) as Hm.
  assert (forall b j, b ∈ B -> (j < 3)%nat -> b_alloc b = Some (txg + 1 + Z.of_nat j) -> (j < 2)%nat) as HA2.
  { intros b j Hin Hj Ea. pose proof (bo_alloc _ _ _ Hb) as Hal. rewrite Forall_forall in Hal. specialize (Hal b Hin _ Ea). unfold in_flight in Hal. lia. }
  assert (forall b j, b ∈ B -> (j < 3)%nat -> b_free b = Freeing (txg + 1 + Z.of_nat j) -> (j < 2)%nat) as HF2.
  { intros b j Hin Hj Ea. pose proof (bo_freeing _ _ _ Hb) as Hal. rewrite Forall_forall in Hal. destruct (Hal b Hin _ Ea) as [Hf _]. unfold in_flight in Hf. lia. }
  split; [exact Hinv'|done|apply (blocks_geom (ms_map ms)); [done|]; apply blocks_filter; by apply blocks_next|..].
  - intros j o Hj. rewrite with_blk_filter. unfold group_set. destruct (decide (j = 2%nat)) as [->|Hne].
    + replace (txg + 1 + Z.of_nat 2) with (txg + 3) by lia. rewrite (mi_clean _ _ _ _ _ _ _ _ _ _ Hinv), covers_nil. split; [done|].
      intros (b & Hin & [Ea _] & _)%with_blk_in. specialize (HA2 b 2%nat Hin ltac:(lia)). rewrite <-Z.add_assoc in HA2. specialize (HA2 Ea). lia.
    + specialize (Ra (S j) o ltac:(lia)). unfold group_set in Ra. replace (txg + 1 + Z.of_nat j) with (txg + Z.of_nat (S j)) by lia. rewrite Ra.
      apply with_blk_ext. intros b Hin _. split; [|tauto]. intros Ea. split; [done|]. intros Ef.
      pose proof (bo_freed _ _ _ Hb) as Hfr. rewrite Forall_forall in Hfr. specialize (Hfr b Hin Ef). congruence.
  - intros j o Hj. rewrite with_blk_filter. unfold group_set. replace (txg + 1 + Z.of_nat j) with (txg + Z.of_nat (S j)) by lia.
    pose proof (slot_insert [] FR txg [] 3 (Z.of_nat (S j)) (mm_lenF _ _ _ _ Hm) ltac:(lia) ltac:(lia)) as Es. rewrite Es.
    destruct (decide (3 = Z.of_nat (S j))) as [Ej|Ej].
    + rewrite covers_nil. split; [done|]. intros (b & Hin & [Ea _] & _)%with_blk_in. assert (j = 2%nat) as -> by lia.
      specialize (HF2 b 2%nat Hin ltac:(lia)). rewrite <-Z.add_assoc in HF2. specialize (HF2 Ea). lia.
    + specialize (Rf (S j) o ltac:(lia)). unfold group_set in Rf. rewrite Rf. apply with_blk_ext. intros b _ _. split; [|tauto]. intros ->. done.
  - intros o. replace (txg + 1 + 3) with (txg + 4) by lia. rewrite slot_wrap, with_blk_filter.
    pose proof (slot_insert [] FR txg [] 3 0 (mm_lenF _ _ _ _ Hm) ltac:(lia) ltac:(lia)) as Es. rewrite Z.add_0_r, decide_False in Es by lia.
    rewrite Es, EF, covers_nil. split; [done|]. by intros (b & _ & [? ?] & _)%with_blk_in.
  - intros o. rewrite RA, with_blk_filter. apply with_blk_ext. tauto.
Qed.

Lemma step_done mos txg ms B : life mos txg ms B -> (forall b, b ∈ B -> b_alloc b <> Some txg /\ b_free b <> Freeing txg) ->
  exists ms', sync_done_maps zfs_recover ms txg = Some ms' /\ life mos (txg + 1) ms' (filter (fun b => b_free b <> Freed) B) /\
    same_geom (ms_map ms) (ms_map ms') /\ ms_smo ms' = ms_smo_syncing ms /\ ms_smo_syncing ms' = ms_smo_syncing ms /\
    ms_weight ms' = ms_weight ms /\ ms_group ms' = ms_group ms /\ (is_active ms = true -> sm_loaded (ms_map ms') = sm_loaded (ms_map ms)).
Proof using HL HML.
  intros (M & AL & FR & ws & wss & A & As & Href) Hnone. destruct (slots_synced _ _ _ _ _ _ _ _ _ _ _ Href Hnone) as [EA EF].
  destruct (sync_done_maps_spec zfs_recover mos txg ms M AL FR ws wss A As (rf_inv _ _ _ _ _ _ _ _ _ _ _ Href) EA EF) as (ms' & M' & E & [Hinv' _ Hg [S1 S2] [W1 W2] Hld]).
  exists ms'. split; [done|]. split; [|done]. exists M', AL, (<[txg_idx (txg + 3) := []]> FR), ws, ws, A, A. exact (refines_next _ _ _ _ _ _ _ _ _ _ _ _ _ _ _ _ Href Hnone eq_refl Hg Hinv').
Qed.

Lemma filter_keep (Q : blk -> Prop) `{forall b, Decision (Q b)} B : (forall b, b ∈ B -> Q b) -> filter Q B = B.
Proof.
  induction B as [|b B IH]; intros HQ; [done|]. rewrite filter_cons_True by (apply HQ; left). f_equal. apply IH. intros b' Hb'. apply HQ. by right.
Qed.

Lemma step_skip mos txg ms B : life mos txg ms B ->
  (forall b, b ∈ B -> b_alloc b <> Some txg /\ b_free b <> Freeing txg /\ b_free b <> Freed) -> life mos (txg + 1) ms B.
Proof using HL HML.
  intros (M & AL & FR & ws & wss & A & As & Href) Hnone.
  assert (forall b, b ∈ B -> b_alloc b <> Some txg /\ b_free b <> Freeing txg) as Hnone' by (intros b Hb; by destruct (Hnone b Hb) as (? & ? & _)).
  assert (B = filter (fun b => b_free b <> Freed) B) as EB.
  { symmetry. apply filter_keep. intros b Hb. apply (Hnone b Hb). }
  destruct (slots_synced _ _ _ _ _ _ _ _ _ _ _ Href Hnone') as [EA EF]. pose proof Href as [[Hm Hlog Hw Hsy Hcl Hun Hac] _ _ _ _ Rd _].
  destruct (slot_maps ms _ _ (txg + 3) (mm_free _ _ _ _ Hm) (mm_lenF _ _ _ _ Hm)) as (mfd & _ & Wfd & _).
  assert (slot [] FR (txg + 3) = []) as Efd.
  { eapply covers_empty; [exact Wfd|]. intros o (b & Hin & Hf & _)%Rd%with_blk_in. by destruct (Hnone b Hin) as (_ & _ & ?). }
  assert (<[txg_idx (txg + 3) := []]> FR = FR) as EFR by (apply list_insert_id; by rewrite (slot_lookup [] FR _ (mm_lenF _ _ _ _ Hm)), Efd).
  exists M, AL, FR, ws, wss, A, As. rewrite <-EFR at 1. eapply refines_next; [exact Href|exact Hnone'|exact EB|done|]. rewrite EFR. split; try done.
  - replace (txg + 1 + 3) with (txg + 4) by lia. by rewrite slot_wrap.
  - pose proof (accounts_next _ _ _ AL FR txg (mm_lenF _ _ _ _ Hm) EA EF Hcl Hac) as Hac'. rewrite EFR, Efd in Hac'.
    eapply accounts_ext; [exact Hac'|..]; try done. intros o. cbv beta. rewrite covers_nil. tauto.
Qed.

Lemma step_mos mos mos' txg ms B : life mos txg ms B ->
  (forall o, o = smo_object (ms_smo ms) \/ o = smo_object (ms_smo_syncing ms) -> mos_has mos o -> mos_has mos' o /\ os_content mos' o = os_content mos o) ->
  life mos' txg ms B.
Proof.
  intros (M & AL & FR & ws & wss & A & As & [Hinv Hlen Hb Ra Rf Rd RA]) Hmos. exists M, AL, FR, ws, wss, A, As. split; try done.
  destruct Hinv as [Hm Hlog Hw Hsy Hcl Hun Hac].
  assert (forall smo u S, smo = ms_smo ms \/ smo = ms_smo_syncing ms -> log_ok mos (ms_map ms) smo u S -> log_ok mos' (ms_map ms) smo u S) as Hkeep.
  { intros smo u S Hsmo Hl. eapply log_ok_same; [exact Hl|done|]. intros Hne.
    destruct (Hmos (smo_object smo)) as [? ->]; [naive_solver|by apply (lo_has _ _ _ _ _ Hl)|]. split; [done|by apply (lo_prefix _ _ _ _ _ Hl)]. }
  split; try done.
  - apply Hkeep; [by right|done].
  - intros Hne. destruct (Hmos (smo_object (ms_smo_syncing ms))) as [_ ->]; [by right|by apply (lo_has _ _ _ _ _ Hlog)|by apply Hw].
  - intros El. destruct (Hsy El) as [Hl ?]. split; [apply Hkeep; [by left|done]|done].
Qed.

Lemma step_weight mos txg ms B w g : life mos txg ms B -> life mos txg (with_weight ms w g) B.
Proof.
  intros (M & AL & FR & ws & wss & A & As & [[Hm Hlog Hw Hsy Hcl Hun Hac] Hlen Hb Ra Rf Rd RA]). exists M, AL, FR, ws, wss, A, As. split; try done.
  split; try done. destruct Hm. by split.
Qed.

(** One operation: it runs, it does what the specification says, and the
    blocks it leaves are those of the metaslab. *)
Lemma step_refines mos txg ms B op b : life mos txg ms B -> may ms mos txg B op b ->
  exists ms' mos' r txg' B', ms_step ms mos txg b op = Some (ms', mos', r) /\
    abs_step (sm_start (ms_map ms)) (sm_start (ms_map ms) + sm_size (ms_map ms)) op r (txg, B) (txg', B') /\
    life mos' txg' ms' B' /\ same_geom (ms_map ms) (ms_map ms').
Proof using HL HML.
  intros Hlife Hmay. destruct Hmay as [|size t El Ht Hs Hal|offset size t El Ht Hr Hno|B1 b B2 t -> Hlive Ht Hb|B1 b B2 t -> Hlive Ea El|pass Hsz Harr|Hnone|Hnone|w|mos' Hmos];
    cbn [ms_step].
  - destruct (step_load mos txg ms B Hlife) as (ms' & err & -> & Hlife' & Hg & _). eexists ms', mos, err, txg, B. by repeat (split; [constructor || done|]).
  - destruct (step_alloc mos txg ms B size t Hlife El Ht Hs Hal) as (ms' & r & B' & E & Habs & Hlife' & Hg & _). by exists ms', mos, r, txg, B'.
  - destruct (step_claim mos txg ms B offset size t Hlife El Ht Hr Hno) as (ms' & E & Hlife' & Hg). cbn [ms_step] in E. rewrite E.
    eexists ms', mos, 0, txg, _. split; [done|]. split; [constructor|]. done.
  - destruct (step_free mos txg ms B1 b B2 t Hlife Hlive Ht Hb) as (ms' & -> & Hlife' & Em). eexists ms', mos, 0, txg, _. split; [done|]. split; [constructor|]. by rewrite Em.
  - rewrite Ea. destruct (step_rollback mos txg ms B1 b B2 t Hlife Hlive Ea El) as (ms' & E & Hlife' & Hg & _). change (default 0 (Some t)) with t. rewrite E.
    eexists ms', mos, 0, txg, _. split; [done|]. split; [constructor|]. done.
  - destruct (step_sync mos txg ms B pass Hlife Hsz Harr) as (ms' & mos' & -> & Hlife' & Em & _). eexists ms', mos', 0, txg, _. split; [done|]. split; [constructor|]. by rewrite Em.
  - destruct (step_done mos txg ms B Hlife Hnone) as (ms' & -> & Hlife' & Hg & _). eexists ms', mos, 0, _, _. split; [done|]. split; [constructor|]. done.
  - eexists ms, mos, 0, _, _. split; [done|]. split; [constructor|]. split; [by apply step_skip|done].
  - eexists _, mos, 0, _, _. split; [done|]. split; [constructor|]. split; [by apply step_weight|done].
  - eexists ms, mos', 0, _, _. split; [done|]. split; [constructor|]. split; [by eapply step_mos|done].
Qed.

(** ** Opening a metaslab *)

Context (new_root : T) (Hnew : os_abs new_root []).

Lemma create_wf start size shift : sm_geom (cap := cap) (space_map_create new_root start size shift : ms_space_map T) ->
  sm_wf (cap := cap) (space_map_create new_root start size shift : ms_space_map T) [].
Proof using Hnew.
  intros Hg. split; [done| |split; cbn; [done|destruct Hg; cbn in *; lia|constructor]|done]. exists []. split; [done|constructor].
Qed.

(** The metaslab [metaslab_init] makes for the descriptor [smo] of a log of the
    blocks [B], once [metaslab_sync_done] made its maps. *)
Definition opened (smo : space_map_obj) (start size shift : Z) : metaslab T :=
  sync_done_create new_root
    (mk_ms (mk_smo 0 0 0) smo (repeat (zero_map new_root) 4) (repeat (zero_map new_root) 4) (space_map_create new_root start size shift) 0 false).

Definition no_segs : list (list space_seg) := [[]; []; []; []].
Lemma slot_none t : slot [] no_segs t = [].
Proof. unfold slot. pose proof (txg_idx_lt t). unfold no_segs. by destruct (txg_idx t) as [|[|[|[|[]]]]]; try lia. Qed.
Lemma insert_none i : <[i := []]> no_segs = no_segs.
Proof. by destruct i as [|[|[|[|[]]]]]. Qed.

Lemma with_blk_dec B o : with_blk (fun _ => True) B o \/ ~ with_blk (fun _ => True) B o.
Proof.
  assert (Decision (with_blk (fun _ => True) B o)) as [?|?]; [|by left|by right].
  apply Exists_dec. intros b. unfold in_blk, range. apply _.
Qed.

(** A metaslab with nothing in flight. *)
Lemma accounts_rest (R A : Z -> Prop) : (forall o, A o -> R o) -> (forall o, A o \/ ~ A o) ->
  accounts R (fun o => R o /\ ~ A o) A (fun _ => False) (fun _ _ => False) (fun _ _ => False).
Proof. intros HA Hdec. split; try done; try tauto. intros o. specialize (HA o). specialize (Hdec o). naive_solver. Qed.

Lemma life_open mos txg smo start size shift ws B :
  let sm := space_map_create new_root start size shift : ms_space_map T in
  ms_geom sm -> sm_geom (cap := cap) sm ->
  log_ok mos sm smo ws (with_blk (fun _ => True) B) -> Z.of_nat (length ws) < 2 ^ 60 ->
  (smo_object smo <> 0 -> os_content mos (smo_object smo) = ws) ->
  Forall (fun b => range_ok sm (b_off b) (b_size b) /\ b_alloc b = None /\ b_free b = Live) B -> disjoint_blks B ->
  exists ms', sync_done_maps zfs_recover (opened smo start size shift) txg = Some ms' /\ life mos (txg + 1) ms' B /\
    sm_start (ms_map ms') = start /\ sm_size (ms_map ms') = size /\ sm_shift (ms_map ms') = shift.
Proof using Hnew HL HML.
  intros sm Hmg Hg Hlog Hlen Hwhole HB Hd. pose proof (create_wf start size shift Hg) as Hwf. fold sm in Hwf.
  assert (Forall2 (fun m L => sm_wf (cap := cap) m L /\ same_geom sm m) (repeat sm 4) no_segs) as H4.
  { cbn [repeat]. unfold no_segs. by repeat (apply Forall2_cons; split; [done|]). }
  assert (ms_maps (cap := cap) (opened smo start size shift) [] no_segs no_segs) as Hm by done.
  destruct (slot_maps _ _ _ (txg + 3) (mm_free _ _ _ _ Hm) eq_refl) as (fdm & Ef & Wf & Gf). rewrite slot_none in Wf.
  destruct (vacate_none_spec fdm [] sm Wf) as (fdm' & Ev & Wf' & Sf'). unfold sync_done_maps, space_map_load_wait.
  change (ms_map (opened smo start size shift)) with sm. change (sm_loading sm) with false. cbn [negb mbind option_bind]. rewrite txg_idx_clean, Ef.
  change (sm_loaded sm) with false. cbn [andb mbind option_bind]. rewrite Ev. cbn [mbind option_bind]. change (sm_loaded sm) with false. cbn [andb]. eexists. split; [done|]. split; [|done]. set (A := with_blk _ B) in *.
  assert (forall P o, (forall b, b ∈ B -> ~ P b) -> ~ with_blk P B o) as Hno by (intros P o HP (b & Hb & ? & _)%with_blk_in; by apply (HP b)).
  rewrite Forall_forall in HB.
  exists [], no_segs, no_segs, ws, ws, A, A. split; try done.
  - split; try done; try (intros; apply slot_none).
    + split; try done. rewrite <-(insert_none (txg_idx (txg + 3))). apply Forall2_insert; [exact H4|].
      split; [done|]. eapply same_geom_trans; [exact Gf|by apply same_map_geom].
    + split; [done|by right].
    + eapply accounts_ext; [apply (accounts_rest (region sm) A)|..]; try done.
      * intros o (b & Hb & _ & Ho)%with_blk_in. destruct (HB b Hb) as [[? ? ? _ _] _]. unfold in_blk, range, region in *. lia.
      * apply with_blk_dec.
      * intros o. by rewrite slot_none, covers_nil.
      * intros k o _. unfold group_set. by rewrite slot_none, covers_nil.
      * intros k o _. unfold group_set. by rewrite slot_none, covers_nil.
  - split; try done; apply Forall_forall; intros b Hb; destruct (HB b Hb) as (? & Ea & Efr); rewrite ?Ea, ?Efr; done.
  - intros j o Hj. unfold group_set. rewrite slot_none, covers_nil. split; [done|]. apply Hno. intros b Hb. destruct (HB b Hb) as (_ & -> & _). done.
  - intros j o Hj. unfold group_set. rewrite slot_none, covers_nil. split; [done|]. apply Hno. intros b Hb. destruct (HB b Hb) as (_ & _ & ->). done.
  - intros o. rewrite slot_none, covers_nil. split; [done|]. apply Hno. intros b Hb. destruct (HB b Hb) as (_ & _ & ->). done.
  - intros o. apply with_blk_ext. intros b Hb _. destruct (HB b Hb) as (_ & -> & ->). naive_solver.
Qed.
End life.
