(* ===== verification/MetaslabPool.v ===== *)
(** * Allocating from a metaslab group

    [metaslab_group_alloc], whole: the search of the group's tree, activation
    and passivation of metaslabs, and the retries.  It terminates, no
    assertion of it fails, and it returns space that no block has, or finds
    that no metaslab of the group will do; whatever metaslab it has changed is
    on the lists of what the transaction group has to sync. *)
From Stdlib Require Import ZArith Lia Sorted.
From stdpp Require Import base numbers list option gmap.
From S2P Require Import Prelude AvlOps AvlSpec SpaceMap SpaceMapProof SpaceMapSync SpaceMapLog TxgList MetaslabFF Metaslab MetaslabProof MetaslabInv MetaslabSync MetaslabGroup MetaslabAlloc MetaslabLife Blkptr.

(** ** Weights *)

Lemma ldiff_active w : is_u64 w -> Z.ldiff w METASLAB_ACTIVE_MASK = w mod 2 ^ 62.
Proof.
  intros Hw. replace (w mod 2 ^ 62) with (w - Z.land w METASLAB_ACTIVE_MASK) by (rewrite land_active by done; lia).
  rewrite Z.sub_nocarry_ldiff; (apply Z.bits_inj'; intros n _; rewrite ?Z.bits_0, ?Z.ldiff_spec, ?Z.land_spec); by destruct (Z.testbit w n), (Z.testbit METASLAB_ACTIVE_MASK n).
Qed.

Lemma land_secondary w : 0 <= w < 2 ^ 62 -> Z.land w METASLAB_WEIGHT_SECONDARY = 0.
Proof.
  intros Hw. apply Z.bits_inj'. intros n Hn. rewrite Z.land_spec, Z.bits_0. change METASLAB_WEIGHT_SECONDARY with (2 ^ 62).
  rewrite Z.pow2_bits_eqb by lia. destruct (Z.eqb_spec 62 n) as [<-|]; [|apply andb_false_r].
  rewrite (proj2 (Z.testbit_false w 62 ltac:(lia))); [done|]. by rewrite Z.div_small.
Qed.

Section pool.
Context {T TG D : Type} `{HI : AvlIface T} {cap : nat} {HL : AvlLaws T cap} `{HIG : AvlIface TG} {gcap : nat} {HLG : AvlLaws TG gcap}.
Context `{HD : ObjectStore D} {HDL : ObjectStoreLaws D} `{HM : MosStore D} {HML : MosLaws D}.
Context (zfs_recover : bool) (vd : vdev) (mos : D) (txg : Z).
Implicit Types (ms : metaslab T) (mg : group T TG) (B : list blk).

(** The weight of a metaslab: the activation, and a base that allows no
    allocation or at least that of the smallest block less one.  What is
    active is loaded, and its base is not below any block unless it is full, of
    blocks on disk. *)
Record weight_ok ms B : Prop := {
  wo_u64 : is_u64 (ms_weight ms);
  wo_base : ms_weight ms mod 2 ^ 62 = 0 \/ SPA_MINBLOCKSIZE - 1 <= ms_weight ms mod 2 ^ 62;
  wo_active : 2 ^ 62 <= ms_weight ms -> sm_loaded (ms_map ms) = true /\
    (SPA_MINBLOCKSIZE <= ms_weight ms mod 2 ^ 62 \/ (sm_space (ms_map ms) = 0 /\ Forall (fun b => b_alloc b = None) B))
}.

Record ms_ready ms B : Prop := {
  mr_life : life (cap := cap) mos txg ms B;
  mr_group : ms_group ms = true;
  mr_weight : weight_ok ms B;
  mr_shift : SPA_MINBLOCKSHIFT <= sm_shift (ms_map ms)
}.

Definition ready mg (Bs : Z -> list blk) : Prop := forall a ms, mg_ms mg !! a = Some ms -> ms_ready ms (Bs a).

(** Nothing of the transaction groups in flight and of the log changed. *)
Record same_flight ms ms' : Prop := {
  sfl_alloc : ms_allocmap ms' = ms_allocmap ms;
  sfl_free : ms_freemap ms' = ms_freemap ms;
  sfl_geom : same_geom (ms_map ms) (ms_map ms');
  sfl_smo : ms_smo ms' = ms_smo ms;
  sfl_syncing : ms_smo_syncing ms' = ms_smo_syncing ms
}.

(** From [mg], whose tree holds [l], to [mg'] by changing the metaslab [msp]. *)
Record moved mg (l : list Z) mg' (l' : list Z) (msp : Z) ms' : Prop := {
  mv_group : group_ok mg' l';
  mv_perm : l' ≡ₚ l;
  mv_ms : mg_ms mg' = <[msp := ms']> (mg_ms mg);
  mv_vd : mg_vd mg' = mg_vd mg
}.

Lemma ordered_keys mg mg' l : (forall a, a ∈ l -> is_Some (mg_ms mg' !! a) /\ ms_key mg' a = ms_key mg a) -> ordered mg l -> ordered mg' l.
Proof.
  intros He [H1 H2 H3]. split.
  - intros a Ha. by apply He.
  - clear -H2 He. induction H2 as [|a l Hl IH Ha]; [constructor|]. constructor; [apply IH; intros; apply He; by right|].
    rewrite Forall_forall in *. intros b Hb. destruct (He a) as [_ ->]; [by left|]. destruct (He b) as [_ ->]; [by right|]. auto.
  - intros a b Ha Hb. destruct (He a Ha) as [_ ->], (He b Hb) as [_ ->]. auto.
Qed.

(** A change of a metaslab that keeps its key. *)
Lemma group_ok_set mg l msp ms ms' : group_ok mg l -> mg_ms mg !! msp = Some ms -> key_of ms' = key_of ms -> group_ok (set_ms mg msp ms') l.
Proof.
  intros [Ht Ho Ha] E Ek. split; [done| |].
  - eapply ordered_keys; [|exact Ho]. intros a Hin. unfold ms_key. cbn. destruct (decide (a = msp)) as [->|Hne].
    + rewrite lookup_insert_eq, E. split; [by eexists|done].
    + rewrite lookup_insert_ne by done. split; [by apply (or_ms _ _ Ho)|done].
  - intros a. cbn. destruct (decide (a = msp)) as [->|Hne]; [intros _; apply Ha; by eexists|]. rewrite lookup_insert_ne by done. apply Ha.
Qed.

(** The activation in a weight. *)
Lemma lor_activation w aw : 0 <= w < 2 ^ 62 -> aw = METASLAB_WEIGHT_PRIMARY \/ aw = METASLAB_WEIGHT_SECONDARY ->
  Z.lor w aw = w + aw /\ is_u64 (w + aw) /\ (w + aw) mod 2 ^ 62 = w /\ 2 ^ 62 <= w + aw.
Proof.
  intros Hw Haw. assert (exists q, aw = q * 2 ^ 62 /\ 1 <= q <= 2) as (q & -> & Hq).
  { destruct Haw as [->| ->]; [by exists 2|by exists 1]. }
  rewrite Z.lor_comm, lor_fields, Z_mod_plus_full, Z.mod_small by lia. unfold is_u64. lia.
Qed.

Lemma passivate_spec mg l msp ms B size : group_ok mg l -> mg_ms mg !! msp = Some ms -> ms_ready ms B -> 0 <= size < 2 ^ 62 ->
  SPA_MINBLOCKSIZE <= size \/ sm_space (ms_map ms) = 0 -> Z.min (ms_weight ms) size = 0 \/ SPA_MINBLOCKSIZE - 1 <= Z.min (ms_weight ms) size ->
  exists mg' l', metaslab_passivate mg msp size = Some mg' /\ moved mg l mg' l' msp (with_weight ms (Z.min (ms_weight ms) size) true) /\
    ms_ready (with_weight ms (Z.min (ms_weight ms) size) true) B.
Proof using HLG HML.
  intros Hok E [Hlife Hg [W1 W2 W3] Hsh] Hs Has Hmin. unfold metaslab_passivate. rewrite E. cbn [mbind option_bind].
  replace ((SPA_MINBLOCKSIZE <=? size) || (sm_space (ms_map ms) =? 0)) with true
    by (symmetry; apply orb_true_iff; rewrite Z.leb_le, Z.eqb_eq; done).
  destruct (group_sort_spec mg l msp (Z.min (ms_weight ms) size) ms Hok E Hg ltac:(tauto)) as (tree & l' & -> & Hp & Hok'). cbn [mbind option_bind].
  cbn [mg_ms mg_with_tree set_ms]. rewrite lookup_insert_eq. cbn [mbind option_bind].
  set (w := Z.min (ms_weight ms) size) in *. assert (0 <= w < 2 ^ 62) as Hw by (unfold is_u64 in W1; lia).
  rewrite is_active_spec by (cbn; unfold is_u64; lia). cbn [ms_weight with_weight]. rewrite (proj2 (Z.leb_gt (2 ^ 62) w)) by lia. cbn [negb].
  eexists _, l'. split; [done|]. split; [done|]. split; [by apply step_weight|done| |done].
  split; cbn [ms_weight with_weight ms_map]; [unfold is_u64; lia|rewrite Z.mod_small by lia; lia|lia].
Qed.

Lemma activate_spec mg l msp ms B aw : group_ok mg l -> mg_ms mg !! msp = Some ms -> ms_ready ms B ->
  aw = METASLAB_WEIGHT_PRIMARY \/ aw = METASLAB_WEIGHT_SECONDARY -> 2 ^ 62 <= ms_weight ms \/ SPA_MINBLOCKSIZE <= ms_weight ms ->
  exists mg' l' ms' err, metaslab_activate zfs_recover mg mos msp aw = Some (mg', err) /\ moved mg l mg' l' msp ms' /\ ms_ready ms' B /\
    same_flight ms ms' /\
    ((err = 0 /\ sm_loaded (ms_map ms') = true /\ ms_weight ms <= ms_weight ms' /\ 2 ^ 62 <= ms_weight ms' /\
        (SPA_MINBLOCKSIZE <= ms_weight ms mod 2 ^ 62 -> SPA_MINBLOCKSIZE <= ms_weight ms' mod 2 ^ 62)) \/
     (err <> 0 /\ ms_weight ms' = 0)).
Proof using HLG HML HL.
  intros Hok E [Hlife Hg [W1 W2 W3] Hsh] Haw Hw. unfold metaslab_activate. rewrite E. cbn [mbind option_bind]. rewrite (is_active_spec ms W1).
  destruct (Z.leb_spec (2 ^ 62) (ms_weight ms)) as [Hact|Hin]; cbn [negb mbind option_bind Z.eqb].
  - rewrite E. cbn [mbind option_bind]. rewrite (proj1 (W3 Hact)), (is_active_spec ms W1), (proj2 (Z.leb_le _ _) Hact).
    exists mg, l, ms, 0. split; [done|]. split; [split; [done|done|by rewrite insert_id|done]|]. split; [done|]. split; [done|].
    left. split; [done|]. split; [by apply W3|]. split; [lia|]. done.
  - destruct Hw as [Hw|Hw]; [lia|]. assert (0 <= ms_weight ms < 2 ^ 62) as Hw2 by (unfold is_u64 in W1; lia).
    destruct (step_load zfs_recover mos txg ms B Hlife) as (ms1 & err & -> & Hlife1 & Hge & Hld & E1). cbn [mbind option_bind].
    assert (ms_weight ms1 = ms_weight ms /\ ms_group ms1 = true) as (Ew & Eg) by (by rewrite E1).
    assert (group_ok (set_ms mg msp ms1) l) as Hok1.
    { eapply group_ok_set; [done|exact E|]. unfold key_of. rewrite Ew. f_equal. by destruct Hge as (-> & _). }
    assert (mg_ms (set_ms mg msp ms1) !! msp = Some ms1) as Em by apply lookup_insert_eq.
    assert (forall w, same_flight ms (with_weight ms1 w true)) as Hsf by (intros w; split; [..|exact Hge| |]; by rewrite E1).
    assert (SPA_MINBLOCKSHIFT <= sm_shift (ms_map ms1)) as Hsh1 by (by destruct Hge as (_ & _ & ->)).
    destruct (Z.eqb_spec err 0) as [->|Herr]; cbn [negb].
    + rewrite Ew. destruct (lor_activation (ms_weight ms) aw Hw2 Haw) as (-> & L1 & L2 & L3).
      destruct (group_sort_spec _ l msp (ms_weight ms + aw) ms1 Hok1 Em Eg) as (tree & l' & -> & Hp & Hok'); [left; change SPA_MINBLOCKSIZE with (2 ^ 9); lia|].
      cbn [mbind option_bind negb Z.eqb mg_ms mg_with_tree set_ms]. rewrite lookup_insert_eq. cbn [mbind option_bind]. cbn [ms_map with_weight]. rewrite (Hld eq_refl).
      rewrite is_active_spec by done. cbn [ms_weight with_weight]. rewrite (proj2 (Z.leb_le _ _) L3).
      eexists _, l', _, 0. split; [done|]. split; [split; [exact Hok'|exact Hp|cbn; by rewrite insert_insert_eq|done]|].
      split; [split; [by apply step_weight|done| |done]|].
      { split; cbn [ms_weight with_weight ms_map]; [done|rewrite L2; lia|]. intros _. split; [by apply Hld|]. left. by rewrite L2. }
      split; [apply Hsf|]. left. split; [done|]. cbn [ms_weight with_weight ms_map]. split; [by apply Hld|]. rewrite L2. lia.
    + destruct (group_sort_spec _ l msp 0 ms1 Hok1 Em Eg ltac:(by right)) as (tree & l' & -> & Hp & Hok'). cbn [mbind option_bind].
      rewrite (proj2 (Z.eqb_neq err 0)) by done. cbn [negb]. eexists _, l', _, err. split; [done|].
      split; [split; [exact Hok'|exact Hp|cbn; by rewrite insert_insert_eq|done]|].
      split; [split; [by apply step_weight|done|split; cbn; [done|by left|lia]|done]|]. split; [apply Hsf|]. by right.
Qed.

(** A loaded map has space when, and where, no block is. *)
Lemma space_free ms B o : life (cap := cap) mos txg ms B -> sm_loaded (ms_map ms) = true -> region (ms_map ms) o -> no_blk B o ->
  sm_space (ms_map ms) <> 0.
Proof using HL.
  intros (M & AL & FR & ws & wss & A & As & Href) El Ho Hn Hz. pose proof (mm_map _ _ _ _ (mi_maps _ _ _ _ _ _ _ _ _ _ (rf_inv _ _ _ _ _ _ _ _ _ _ _ Href))) as Wm.
  pose proof (proj2 (refines_free _ _ _ _ _ _ _ _ _ _ _ Href o) (conj Ho Hn)) as Hf. unfold free_set in Hf. rewrite El in Hf.
  rewrite (wf_empty _ _ Wm Hz) in Hf. by apply covers_nil in Hf.
Qed.

Lemma space_unit ms B : life (cap := cap) mos txg ms B -> sm_loaded (ms_map ms) = true -> sm_space (ms_map ms) <> 0 ->
  exists o, o mod 2 ^ sm_shift (ms_map ms) = 0 /\ sm_start (ms_map ms) <= o /\ o + 2 ^ sm_shift (ms_map ms) <= sm_start (ms_map ms) + sm_size (ms_map ms) /\
    forall p, range o (2 ^ sm_shift (ms_map ms)) p -> no_blk B p.
Proof using HL.
  intros (M & AL & FR & ws & wss & A & As & Href) El Hz. pose proof (mm_map _ _ _ _ (mi_maps _ _ _ _ _ _ _ _ _ _ (rf_inv _ _ _ _ _ _ _ _ _ _ _ Href))) as Wm.
  pose proof (refines_free _ _ _ _ _ _ _ _ _ _ _ Href) as Hfree. unfold free_set in Hfree. rewrite El in Hfree.
  destruct M as [|s M]; [destruct Hz; apply (sf_space _ _ Wm)|].
  destruct (sf_segs _ _ Wm) as [Hc _ Hal]. cbn [chain] in Hc. apply Forall_cons in Hal as [[A1 A2] _]. destruct Hc as [Hc _].
  set (u := 2 ^ sm_shift (ms_map ms)) in *. assert (0 < u) as Hu by (apply Z.pow_pos_nonneg; [lia|apply (sf_geom _ _ Wm)]).
  assert (ss_start s + u <= ss_end s) as Hlen.
  { pose proof (Z.div_mod (ss_start s) u ltac:(lia)). pose proof (Z.div_mod (ss_end s) u ltac:(lia)).
    assert (ss_start s / u < ss_end s / u) by nia. nia. }
  assert (forall p, ss_start s <= p < ss_end s -> region (ms_map ms) p /\ no_blk B p) as Hin by (intros p Hp; apply Hfree, Exists_cons_hd; done).
  exists (ss_start s). split; [done|]. destruct (Hin (ss_start s) ltac:(lia)) as [[? _] _]. destruct (Hin (ss_end s - 1) ltac:(lia)) as [[_ ?] _].
  split; [done|]. split; [lia|]. intros p Hp. unfold range in Hp. apply Hin. lia.
Qed.

Lemma life_geom ms B : life (cap := cap) mos txg ms B -> ms_geom (ms_map ms).
Proof. intros (M & AL & FR & ws & wss & A & As & Href). apply (mm_geom _ _ _ _ (mi_maps _ _ _ _ _ _ _ _ _ _ (rf_inv _ _ _ _ _ _ _ _ _ _ _ Href))). Qed.

Lemma abs_alloc_inv lo hi size t r txg' B B' : abs_step (D := D) lo hi (OAlloc size t) r (txg, B) (txg', B') -> hi <= 2 ^ 63 -> 0 < size ->
  (r = 2 ^ 64 - 1 /\ B' = B /\ exists k, 0 <= k /\ size mod 2 ^ k = 0 /\
     forall o, o mod 2 ^ k = 0 -> lo <= o -> o + size <= hi -> ~ forall p, range o size p -> no_blk B p) \/
  (r <> 2 ^ 64 - 1 /\ B' = mk_blk r size (Some t) Live :: B /\ lo <= r /\ r + size <= hi /\
     (forall j, 0 <= j -> size mod 2 ^ j = 0 -> r mod 2 ^ j = 0) /\ forall o, range r size o -> no_blk B o).
Proof.
  intros Habs H63 Hs. inversion Habs as [| |? ? ? ? k H1 H2 H3| | | | | | | |]; subst; [right|left].
  - split; [lia|done].
  - split; [done|]. split; [done|]. exists k. split; [|done]. apply H2; [lia|]. apply Z.mod_1_r.
Qed.

(** Space of a metaslab that no block has. *)
Record found ms B (r size : Z) : Prop := {
  fd_range : range_ok (ms_map ms) r size;
  fd_align : forall j, 0 <= j -> size mod 2 ^ j = 0 -> r mod 2 ^ j = 0;
  fd_new : forall o, range r size o -> no_blk B o
}.

Definition added ms1 B (r size : Z) : Prop := forall t, in_flight txg t -> exists ms2 m,
  ms_add_allocmap zfs_recover ms1 r size t = Some ms2 /\ ms_ready ms2 (mk_blk r size (Some t) Live :: B) /\
  ms2 = with_maps ms1 (<[txg_idx t := m]> (ms_allocmap ms1)) (ms_freemap ms1).

Lemma ms_alloc_map ms size ms1 r : ms_alloc zfs_recover ms size = Some (ms1, r) -> ms1 = with_map ms (ms_map ms1).
Proof. unfold ms_alloc. destruct (space_map_alloc _ _ _ _) as [[sm o]|]; [|done]. by intros [= <- <-]. Qed.
Lemma add_allocmap_map ms r size t ms2 : ms_add_allocmap zfs_recover ms r size t = Some ms2 ->
  exists m, ms2 = with_maps ms (<[txg_idx t := m]> (ms_allocmap ms)) (ms_freemap ms).
Proof.
  unfold ms_add_allocmap. destruct (ms_allocmap ms !! txg_idx t) as [m|]; [|done]. cbn [mbind option_bind].
  destruct (space_map_add _ _ _ _) as [m'|]; [|done]. cbn [mbind option_bind]. intros [= <-]. by exists m'.
Qed.

Lemma alloc_ready ms B size : ms_ready ms B -> sm_loaded (ms_map ms) = true -> SPA_MINBLOCKSIZE <= size < 2 ^ 62 -> size mod 2 ^ sm_shift (ms_map ms) = 0 ->
  exists ms1 r, ms_alloc zfs_recover ms size = Some (ms1, r) /\ ms_weight ms1 = ms_weight ms /\ same_flight ms ms1 /\
    ((r = 2 ^ 64 - 1 /\ ms_ready ms1 B /\ (size = SPA_MINBLOCKSIZE -> sm_space (ms_map ms1) = 0)) \/
     (r <> 2 ^ 64 - 1 /\ found ms B r size /\ added ms1 B r size)).
Proof using HL HML vd.
  intros [Hlife Hg [W1 W2 W3] Hsh] El Hsz Hal. assert (0 < size < 2 ^ 62) as Hsz' by (change SPA_MINBLOCKSIZE with 512 in Hsz; lia).
  assert (exists ms1 r, ms_alloc zfs_recover ms size = Some (ms1, r)) as (ms1 & r & E).
  { destruct (step_alloc zfs_recover vd mos txg ms B size txg Hlife El ltac:(unfold in_flight; lia) Hsz' Hal) as (ms' & r & B' & Es & _).
    cbn [ms_step] in Es. destruct (ms_alloc _ _ _) as [[ms1 r1]|]; [by exists ms1, r1|done]. }
  exists ms1, r. pose proof (ms_alloc_map _ _ _ _ E) as E1. split; [done|].
  assert (ms_weight ms1 = ms_weight ms /\ ms_group ms1 = true) as [Ew Eg] by (by rewrite E1). split; [done|].
  assert (forall t, in_flight txg t -> exists ms' B', (if negb (r =? 2 ^ 64 - 1) then ms_add_allocmap zfs_recover ms1 r size t else Some ms1) = Some ms' /\
    abs_step (D := D) (sm_start (ms_map ms)) (sm_start (ms_map ms) + sm_size (ms_map ms)) (OAlloc size t) r (txg, B) (txg, B') /\
    life (cap := cap) mos txg ms' B' /\ same_geom (ms_map ms) (ms_map ms') /\ sm_loaded (ms_map ms') = true) as Hstep.
  { intros t Ht. destruct (step_alloc zfs_recover vd mos txg ms B size t Hlife El Ht Hsz' Hal) as (ms' & r' & B' & Es & Habs & Hl & Hge & Hld).
    cbn [ms_step] in Es. rewrite E in Es. cbn [mbind option_bind] in Es. exists ms', B'. destruct (negb (r =? 2 ^ 64 - 1)).
    - destruct (ms_add_allocmap _ _ _ _ _) as [ms2|]; [|done]. cbn [mbind option_bind] in Es. by simplify_eq.
    - by simplify_eq. }
  pose proof (life_geom ms B Hlife) as [_ _ H63].
  destruct (Z.eqb_spec r (2 ^ 64 - 1)) as [->|Hr]; cbn [negb] in Hstep.
  - destruct (Hstep txg ltac:(unfold in_flight; lia)) as (ms' & B' & [= <-] & Habs & Hl & Hge & El1). 
    destruct (abs_alloc_inv _ _ _ _ _ _ _ _ Habs H63 ltac:(lia)) as [(_ & -> & k & Hk0 & Hk & Hno)|[? _]]; [|done].
    assert (forall o, region (ms_map ms1) o <-> region (ms_map ms) o) as HR by (intros o; unfold region; by destruct Hge as (-> & -> & _)).
    split; [split; [..|exact Hge| |]; by rewrite E1|]. left. split; [done|]. split.
    + split; [done|done| |by destruct Hge as (_ & _ & ->)]. split; rewrite ?Ew; [done|done|]. intros Hact. split; [done|]. destruct (W3 Hact) as [_ [?|[Hz Hall]]]; [by left|right].
      split; [|done]. apply dec_stable. intros Hnz. destruct (space_unit ms1 B Hl El1 Hnz) as (o & _ & H1 & H2 & H3).
      assert (0 < 2 ^ sm_shift (ms_map ms1)) as Hu by (apply Z.pow_pos_nonneg; [lia|]; destruct Hge as (_ & _ & ->); unfold SPA_MINBLOCKSHIFT in Hsh; lia).
      apply (space_free ms B o Hlife El); [apply HR; unfold region; lia|apply H3; unfold range; lia|done].
    + intros ->. apply dec_stable. intros Hnz. destruct (space_unit ms1 B Hl El1 Hnz) as (o & H0 & H1 & H2 & H3). destruct Hge as (G1 & G2 & G3).
      rewrite G1, G2, G3 in *. set (sh := sm_shift (ms_map ms)) in *. change SPA_MINBLOCKSIZE with (2 ^ 9) in *. unfold SPA_MINBLOCKSHIFT in Hsh.
      assert (2 ^ sh <= 2 ^ 9) as Hle by (apply Z.divide_pos_le; [lia|]; apply Z.mod_divide; [apply Z.pow_nonzero; lia|done]).
      assert (sh = 9) as -> by (apply Z.pow_le_mono_r_iff in Hle; lia).
      apply (Hno o); [|lia|lia|done]. assert (2 ^ k <= 2 ^ 9) as Hle' by (apply Z.divide_pos_le; [lia|]; apply Z.mod_divide; [apply Z.pow_nonzero; lia|done]).
      apply Z.mod_divide; [apply Z.pow_nonzero; lia|]. apply (Z.divide_trans _ (2 ^ 9)); [apply Z.mod_divide; [apply Z.pow_nonzero; lia|done]|].
      by apply Z.mod_divide.
  - destruct (Hstep txg ltac:(unfold in_flight; lia)) as (ms' & B' & E2 & Habs & _ & Hge & _).
    destruct (abs_alloc_inv _ _ _ _ _ _ _ _ Habs H63 ltac:(lia)) as [(? & _)|(_ & _ & F1 & F2 & F3 & F4)]; [done|].
    destruct (add_allocmap_map _ _ _ _ _ E2) as (m0 & Em0). split; [split; [..|by rewrite Em0 in Hge| |]; by rewrite E1|].
    right. split; [done|].
    assert (r mod 2 ^ sm_shift (ms_map ms) = 0) as Hr0 by (apply F3; [unfold SPA_MINBLOCKSHIFT in Hsh; lia|done]).
    split; [split; [split; [lia|lia|lia|done|done]|done|done]|]. intros t Ht. destruct (Hstep t Ht) as (ms2 & B2 & E3 & Habs2 & Hl & Hge2 & Hld).
    destruct (abs_alloc_inv _ _ _ _ _ _ _ _ Habs2 H63 ltac:(lia)) as [(? & _)|(_ & -> & _)]; [done|].
    destruct (add_allocmap_map _ _ _ _ _ E3) as (m & Em). exists ms2, m. split; [done|]. split; [|done].
    split; [done|by rewrite Em| |by destruct Hge2 as (_ & _ & ->)]. assert (ms_weight ms2 = ms_weight ms) as Ew2 by (by rewrite Em).
    split; rewrite ?Ew2; [done|done|]. intros Hact. split; [done|]. left. destruct (W3 Hact) as [_ [?|[Hz _]]]; [done|exfalso].
    apply (space_free ms B r Hlife El); [unfold region; lia|apply F4; unfold range; lia|done].
Qed.

(** *** The search *)

Lemma group_search_spec mg l size w md dvas : group_ok mg l -> forall k l1 l2, l = l1 ++ l2 -> (length l2 < k)%nat ->
  exists r, group_search k mg size w md dvas (hd 0 l2) = Some r /\
    ((r = 0 /\ (w = METASLAB_WEIGHT_PRIMARY -> forall a ms, a ∈ l2 -> mg_ms mg !! a = Some ms -> ms_weight ms < size)) \/
     (r ∈ l2 /\ r <> 0 /\ exists ms, mg_ms mg !! r = Some ms /\ size <= ms_weight ms)).
Proof using HLG.
  intros Hok. pose proof Hok as [Ht [O1 O2 O3] Ha]. induction k as [|k IH]; intros l1 l2 El Hk; [lia|]. cbn [group_search].
  destruct l2 as [|a l2]; cbn [hd].
  { exists 0. split; [done|]. left. split; [done|]. intros _ a ms Ha'. by apply not_elem_of_nil in Ha'. }
  assert (a <> 0) as Hnz by (apply (abs_objects _ _ Ht); rewrite El, elem_of_app; right; left).
  rewrite (proj2 (Z.eqb_neq _ _) Hnz). destruct (O1 a) as [ms E]; [rewrite El, elem_of_app; right; left|]. rewrite E. cbn [mbind option_bind].
  destruct (Z.ltb_spec (ms_weight ms) size) as [Hlt|Hge].
  { exists 0. split; [done|]. left. split; [done|]. intros _ b msb Hb Eb. apply elem_of_cons in Hb as [->|Hb]; [congruence|].
    assert (before (ms_key mg a) (ms_key mg b)) as Hbef.
    { rewrite El in O2. clear -O2 Hb. induction l1 as [|x l1 IH]; cbn [app] in O2; apply StronglySorted_inv in O2 as [O2 Hx]; [|auto].
      rewrite Forall_forall in Hx. auto. }
    rewrite (key_lookup _ _ _ E), (key_lookup _ _ _ Eb) in Hbef. unfold before, key_of in Hbef. cbn [fst snd] in Hbef. lia. }
  destruct (Z.eqb_spec w METASLAB_WEIGHT_PRIMARY) as [->|Hw].
  { exists a. split; [done|]. right. split; [by left|]. split; [done|]. by exists ms. }
  destruct (forallb _ dvas).
  { exists a. split; [done|]. right. split; [by left|]. split; [done|]. by exists ms. }
  rewrite El in Ht. destruct (walk_law _ _ _ _ Ht) as [-> _]. cbn [mbind option_bind].
  destruct (IH (l1 ++ [a]) l2) as (r & Er & Hr); [by rewrite <-app_assoc|cbn [length] in Hk; lia|]. exists r. split; [done|].
  destruct Hr as [[-> _]|(Hin & Hr)]; [left; done|right]. split; [by right|done].
Qed.

(** *** Termination *)

(** How many rounds of the loop a metaslab can take. *)
Definition rank (size : Z) ms : nat :=
  if ms_weight ms <? size then 0 else if Z.land (ms_weight ms) METASLAB_WEIGHT_SECONDARY =? 0 then 1 else 2.
Definition rank_at mg (size a : Z) : nat := match mg_ms mg !! a with Some ms => rank size ms | None => 0 end.
Definition ranks mg (size : Z) (l : list Z) : nat := sum_list_with (rank_at mg size) l.

Lemma ranks_bound mg size l : (ranks mg size l <= 2 * length l)%nat.
Proof.
  induction l as [|a l IH]; cbn [ranks sum_list_with length] in *; [lia|]. unfold ranks in IH. unfold rank_at at 1, rank.
  destruct (mg_ms mg !! a); [|lia]. destruct (_ <? _); [lia|]. destruct (_ =? _); lia.
Qed.

Lemma ranks_moved mg mg' size l l' msp ms ms' : group_ok mg l -> mg_ms mg !! msp = Some ms -> moved mg l mg' l' msp ms' ->
  (rank size ms' < rank size ms)%nat -> (ranks mg' size l' < ranks mg size l)%nat.
Proof using HLG.
  intros [Ht Ho Ha] E [_ Hp Em _] Hr. destruct (abs_objects _ _ Ht) as [Hnd _].
  assert (msp ∈ l) as Hin by (apply Ha; by eexists). apply list_elem_of_split in Hin as (l1 & l2 & ->). rewrite <-Permutation_middle in Hnd, Hp.
  unfold ranks. rewrite Hp, <-(Permutation_middle l1 l2 msp). cbn [sum_list_with]. apply NoDup_cons in Hnd as [Hn _].
  assert (sum_list_with (rank_at mg' size) (l1 ++ l2) = sum_list_with (rank_at mg size) (l1 ++ l2)) as ->.
  { clear -Hn Em. induction (l1 ++ l2) as [|a l IH]; [done|]. apply not_elem_of_cons in Hn as [Hna Hn]. cbn [sum_list_with]. rewrite IH by done.
    f_equal. unfold rank_at. by rewrite Em, lookup_insert_ne. }
  unfold rank_at. rewrite Em, lookup_insert_eq, E. lia.
Qed.

(** *** The loop *)

Definition kept mg mg' : Prop := forall a, option_Forall2 same_flight (mg_ms mg !! a) (mg_ms mg' !! a).

Lemma same_flight_refl ms : same_flight ms ms.
Proof. done. Qed.
Lemma same_flight_trans ms1 ms2 ms3 : same_flight ms1 ms2 -> same_flight ms2 ms3 -> same_flight ms1 ms3.
Proof. intros [A1 F1 G1 S1 Y1] [A2 F2 G2 S2 Y2]. split; try congruence. by eapply same_geom_trans. Qed.
Lemma kept_refl mg : kept mg mg.
Proof. intros a. destruct (mg_ms mg !! a); constructor. done. Qed.
Lemma kept_trans mg1 mg2 mg3 : kept mg1 mg2 -> kept mg2 mg3 -> kept mg1 mg3.
Proof.
  intros H12 H23 a. specialize (H12 a). specialize (H23 a). destruct H12 as [x y Hxy|]; inversion H23; subst; constructor. by eapply same_flight_trans.
Qed.
Lemma kept_lookup mg mg' a ms' : kept mg mg' -> mg_ms mg' !! a = Some ms' -> exists ms, mg_ms mg !! a = Some ms /\ same_flight ms ms'.
Proof. intros Hk E. specialize (Hk a). rewrite E in Hk. inversion Hk; subst. by eexists. Qed.

Lemma kept_keys mg mg' a : kept mg mg' -> is_Some (mg_ms mg !! a) -> is_Some (mg_ms mg' !! a).
Proof. intros Hk [ms E]. specialize (Hk a). rewrite E in Hk. inversion Hk; subst. by eexists. Qed.
Lemma kept_set mg msp ms ms' : mg_ms mg !! msp = Some ms -> same_flight ms ms' -> kept mg (set_ms mg msp ms').
Proof.
  intros E Hs a. cbn. destruct (decide (a = msp)) as [->|Hne]; [rewrite E, lookup_insert_eq; by constructor|]. rewrite lookup_insert_ne by done. apply kept_refl.
Qed.
Lemma moved_kept mg l mg' l' msp ms ms' : mg_ms mg !! msp = Some ms -> moved mg l mg' l' msp ms' -> same_flight ms ms' -> kept mg mg'.
Proof. intros E Hm Hs a. rewrite (mv_ms _ _ _ _ _ _ Hm). by apply (kept_set mg msp ms ms'). Qed.
Lemma moved_ready mg l mg' l' msp ms' Bs : ready mg Bs -> moved mg l mg' l' msp ms' -> ms_ready ms' (Bs msp) -> ready mg' Bs.
Proof.
  intros Hr Hm Hms a ms. rewrite (mv_ms _ _ _ _ _ _ Hm). destruct (decide (a = msp)) as [->|Hne]; [rewrite lookup_insert_eq; by intros [= <-]|].
  rewrite lookup_insert_ne by done. apply Hr.
Qed.

(** A size in the units of every metaslab. *)
Definition sized mg (size : Z) : Prop := forall a ms, mg_ms mg !! a = Some ms -> size mod 2 ^ sm_shift (ms_map ms) = 0.
Lemma kept_sized mg mg' size : kept mg mg' -> sized mg size -> sized mg' size.
Proof.
  intros Hk Hs a ms' E. destruct (kept_lookup _ _ _ _ Hk E) as (ms & Em & [_ _ (_ & _ & ->) _ _]). by apply (Hs a).
Qed.

(** What the loop returns. *)
Record loop_done mg (l : list Z) (Bs : Z -> list blk) (size aw : Z) mg' (l' : list Z) (r : option (Z * Z)) : Prop := {
  ld_group : group_ok mg' l';
  ld_perm : l' ≡ₚ l;
  ld_vd : mg_vd mg' = mg_vd mg;
  ld_kept : kept mg mg';
  ld_ready : forall a ms, mg_ms mg' !! a = Some ms -> (forall off, r <> Some (a, off)) -> ms_ready ms (Bs a);
  ld_found : forall msp off, r = Some (msp, off) -> off <> 2 ^ 64 - 1 /\
    exists ms, mg_ms mg' !! msp = Some ms /\ found ms (Bs msp) off size /\ added ms (Bs msp) off size;
  ld_none : r = None -> aw = METASLAB_WEIGHT_PRIMARY -> forall a ms, mg_ms mg' !! a = Some ms -> ms_weight ms < size
}.

Lemma loop_done_trans mg l mg1 l1 Bs size aw mg' l' r : l1 ≡ₚ l -> mg_vd mg1 = mg_vd mg -> kept mg mg1 ->
  loop_done mg1 l1 Bs size aw mg' l' r -> loop_done mg l Bs size aw mg' l' r.
Proof. intros Hp Hv Hk [H1 H2 H3 H4 H5 H6 H7]. split; try done; [by rewrite H2|congruence|by eapply kept_trans]. Qed.

Lemma found_geom ms ms' B r size : same_geom (ms_map ms) (ms_map ms') -> found ms B r size -> found ms' B r size.
Proof. intros Hg [H1 H2 H3]. split; try done. by eapply range_ok_geom. Qed.

Lemma activation_weight_cases v dvas : activation_weight v dvas = METASLAB_WEIGHT_PRIMARY \/ activation_weight v dvas = METASLAB_WEIGHT_SECONDARY.
Proof. unfold activation_weight. destruct (existsb _ _); tauto. Qed.

Lemma rank_low size ms : ms_weight ms < size -> rank size ms = 0%nat.
Proof. intros H. unfold rank. by rewrite (proj2 (Z.ltb_lt _ _) H). Qed.

Lemma group_alloc_loop_spec size md dvas Bs : SPA_MINBLOCKSIZE <= size < 2 ^ 62 -> forall k mg l,
  group_ok mg l -> ready mg Bs -> sized mg size -> (ranks mg size l < k)%nat ->
  exists mg' l' r, group_alloc_loop zfs_recover k mg mos size md dvas = Some (mg', r) /\
    loop_done mg l Bs size (activation_weight (mg_vd mg) dvas) mg' l' r.
Proof using HLG HML HL vd.
  intros Hsz. induction k as [|k IH]; intros mg l Hok Hready Hsized Hk; [lia|]. cbn [group_alloc_loop]. set (aw := activation_weight (mg_vd mg) dvas).
  pose proof (activation_weight_cases (mg_vd mg) dvas) as Haw. fold aw in Haw. pose proof (go_tree _ _ Hok) as Ht.
  (* a round that changed one metaslab *)
  assert (forall msp ms mg1 l1 ms1, mg_ms mg !! msp = Some ms -> moved mg l mg1 l1 msp ms1 -> ms_ready ms1 (Bs msp) -> same_flight ms ms1 ->
    (rank size ms1 < rank size ms)%nat -> exists mg' l' r, group_alloc_loop zfs_recover k mg1 mos size md dvas = Some (mg', r) /\
      loop_done mg l Bs size aw mg' l' r) as Hround.
  { intros msp ms mg1 l1 ms1 E Hm Hr1 Hs Hrank. pose proof (moved_kept _ _ _ _ _ _ _ E Hm Hs) as Hkept.
    destruct (IH mg1 l1) as (mg' & l' & r & Er & Hd).
    - apply (mv_group _ _ _ _ _ _ Hm).
    - by eapply moved_ready.
    - by eapply kept_sized.
    - pose proof (ranks_moved mg mg1 size l l1 msp ms ms1 Hok E Hm Hrank). lia.
    - exists mg', l', r. split; [done|]. rewrite (mv_vd _ _ _ _ _ _ Hm) in Hd. eapply loop_done_trans; [apply Hm|apply Hm|exact Hkept|exact Hd]. }
  rewrite (first_law _ _ Ht). cbn [mbind option_bind].
  destruct (group_search_spec mg l size aw md dvas Hok (group_fuel mg) [] l eq_refl) as (msp & -> & Hres);
    [unfold group_fuel; rewrite (num_law _ _ Ht); lia|]. cbn [mbind option_bind].
  destruct Hres as [[-> Hnone]|(Hin & Hnz & ms & E & Hge)].
  { cbn [Z.eqb]. exists mg, l, None. split; [done|]. split; try done; [apply kept_refl|by eauto|].
    intros _ Hp a ms E. apply (Hnone Hp a ms); [|done]. apply (go_all _ _ Hok). by eexists. }
  rewrite (proj2 (Z.eqb_neq _ _) Hnz), E. cbn [mbind option_bind]. rewrite (proj2 (Z.ltb_ge _ _) Hge).
  pose proof (Hready msp ms E) as Hr. pose proof (mr_weight _ _ Hr) as [W1 W2 W3].
  assert (rank size ms <> 0%nat) as Hrank by (unfold rank; rewrite (proj2 (Z.ltb_ge _ _) Hge); by destruct (_ =? _)).
  assert (forall w, same_flight ms (with_weight ms w true)) as Hsw by done.
  destruct (negb (Z.land (ms_weight ms) METASLAB_WEIGHT_SECONDARY =? 0) && (aw =? METASLAB_WEIGHT_PRIMARY)) eqn:Esec.
  - apply andb_true_iff in Esec as [Esec%negb_true_iff%Z.eqb_neq _]. rewrite (ldiff_active _ W1).
    assert (2 ^ 62 <= ms_weight ms) as Hact by (apply Z.nlt_ge; intros Hlt; apply Esec, land_secondary; unfold is_u64 in W1; lia).
    pose proof (Z.mod_pos_bound (ms_weight ms) (2 ^ 62) ltac:(lia)) as Hb.
    assert (Z.min (ms_weight ms) (ms_weight ms mod 2 ^ 62) = ms_weight ms mod 2 ^ 62) as Emin by lia.
    destruct (passivate_spec mg l msp ms (Bs msp) (ms_weight ms mod 2 ^ 62) Hok E Hr) as (mg1 & l1 & -> & Hm & Hr1);
      [lia|destruct (W3 Hact) as [_ [?|[? _]]]; tauto|by rewrite Emin|]. cbn [mbind option_bind]. rewrite Emin in Hm, Hr1.
    apply (Hround msp ms mg1 l1 _ E Hm Hr1 (Hsw _)). unfold rank at 2. rewrite (proj2 (Z.ltb_ge _ _) Hge), (proj2 (Z.eqb_neq _ _) Esec).
    unfold rank. cbn [ms_weight with_weight]. rewrite (land_secondary _ Hb), Z.eqb_refl. destruct (_ <? _); lia.
  - destruct (activate_spec mg l msp ms (Bs msp) aw Hok E Hr Haw) as (mg1 & l1 & ms1 & err & -> & Hm & Hr1 & Hs1 & Hcase); [right; lia|].
    cbn [mbind option_bind]. destruct Hcase as [(-> & El & Hw1 & _ & _)|[Herr Hw1]].
    2:{ rewrite (proj2 (Z.eqb_neq _ _) Herr). cbn [negb]. apply (Hround msp ms mg1 l1 ms1 E Hm Hr1 Hs1).
        rewrite (rank_low size ms1); [lia|]. change SPA_MINBLOCKSIZE with 512 in Hsz. lia. }
    cbn [Z.eqb negb]. assert (mg_ms mg1 !! msp = Some ms1) as E1 by (rewrite (mv_ms _ _ _ _ _ _ Hm); apply lookup_insert_eq).
    rewrite E1. cbn [mbind option_bind].
    assert (size mod 2 ^ sm_shift (ms_map ms1) = 0) as Hal by (destruct Hs1 as [_ _ (_ & _ & ->) _ _]; by apply (Hsized msp)).
    destruct (alloc_ready ms1 (Bs msp) size Hr1 El Hsz Hal) as (ms2 & off & -> & Ew2 & Hs2 & Hres). cbn [mbind option_bind].
    pose proof (same_flight_trans _ _ _ Hs1 Hs2) as Hs. assert (key_of ms2 = key_of ms1) as Ek by (unfold key_of; rewrite Ew2; by destruct Hs2 as [_ _ (-> & _) _ _]).
    pose proof (group_ok_set mg1 l1 msp ms1 ms2 (mv_group _ _ _ _ _ _ Hm) E1 Ek) as Hok2.
    assert (mg_ms (set_ms mg1 msp ms2) = <[msp := ms2]> (mg_ms mg)) as Em2 by (cbn; rewrite (mv_ms _ _ _ _ _ _ Hm); apply insert_insert_eq).
    destruct Hres as [(-> & Hr2 & Hfull)|(Hoff & Hf & Hadd)].
    + rewrite Z.eqb_refl. cbn [negb]. change SPA_MINBLOCKSIZE with 512 in *. rewrite (u64_small (size - 1)) by (unfold is_u64; lia).
      assert (Z.min (ms_weight ms2) (size - 1) = size - 1) as Emin by lia.
      assert (mg_ms (set_ms mg1 msp ms2) !! msp = Some ms2) as E2 by apply lookup_insert_eq.
      destruct (passivate_spec (set_ms mg1 msp ms2) l1 msp ms2 (Bs msp) (size - 1) Hok2 E2 Hr2) as (mg3 & l3 & -> & Hm3 & Hr3);
        [lia|change SPA_MINBLOCKSIZE with 512; destruct (decide (size = 512)); [right; auto|left; lia]|change SPA_MINBLOCKSIZE with 512; lia|].
      cbn [mbind option_bind]. rewrite Emin in Hm3, Hr3.
      apply (Hround msp ms mg3 l3 (with_weight ms2 (size - 1) true) E); [|done|by destruct Hs|rewrite (rank_low size (with_weight _ _ _)); [lia|cbn; lia]].
      destruct Hm3 as [G3 P3 M3 V3], Hm as [_ P1 _ V1]. split; [done|by rewrite P3|rewrite M3, Em2; apply insert_insert_eq|rewrite V3; exact V1].
    + rewrite (proj2 (Z.eqb_neq _ _) Hoff). cbn [negb]. exists (set_ms mg1 msp ms2), l1, (Some (msp, off)). split; [done|].
      split; [exact Hok2|apply Hm|apply Hm| | | |done].
      * intros a. rewrite Em2. by apply (kept_set mg msp ms ms2).
      * intros a ms' Ea Hne. rewrite Em2, lookup_insert_ne in Ea by (intros ->; by apply (Hne off)). by apply Hready.
      * intros a o [= <- <-]. split; [done|]. exists ms2. split; [by rewrite Em2, lookup_insert_eq|]. split; [|done].
        eapply found_geom; [apply Hs2|done].
Qed.

(** ** What has to be synced *)

Implicit Types (cx : context T TG D) (lm lv : list (list Z)).

(** The group [t] has neither allocated from the metaslab nor freed in it. *)
Definition untouched ms (t : Z) : Prop :=
  sm_space <$> (ms_allocmap ms !! txg_idx t) = Some 0 /\ sm_space <$> (ms_freemap ms !! txg_idx t) = Some 0.

(** The metaslab and the vdev are on the lists of [t]. *)
Definition listed (v : vdev) lm lv (a t : Z) : Prop := a ∈ slot [] lm t /\ vdev_self v ∈ slot [] lv t.

(** [lm] are the dirty metaslabs of the vdev and [lv] the dirty vdevs of the
    pool, by transaction group: every metaslab a group in flight has changed
    is among them.  What the group being synced has synced is on the list of
    the group before it. *)
Record dirty_ok cx lm lv : Prop := {
  di_ms : txg_abs (vdev_ms_list (mg_vd (cx_mg cx))) lm;
  di_vd : txg_abs (cx_vdev_list cx) lv;
  di_nodes : forall a, is_Some (mg_ms (cx_mg cx) !! a) -> a ∈ dom (tl_nodes (vdev_ms_list (mg_vd (cx_mg cx))));
  di_id : vdev_self (mg_vd (cx_mg cx)) ∈ dom (tl_nodes (cx_vdev_list cx));
  di_dirty : forall a ms t, mg_ms (cx_mg cx) !! a = Some ms -> in_flight txg t -> ~ untouched ms t -> listed (mg_vd (cx_mg cx)) lm lv a t;
  di_freed : forall a ms, mg_ms (cx_mg cx) !! a = Some ms -> sm_space <$> (ms_freemap ms !! txg_idx (txg + 3)) <> Some 0 -> a ∈ slot [] lm (txg + 3);
  di_mem : forall a t, a ∈ slot [] lm t -> is_Some (mg_ms (cx_mg cx) !! a)
}.

Lemma add_slot tl ls p t : txg_abs tl ls -> p ∈ dom (tl_nodes tl) ->
  exists tl' b ls', txg_list_add tl p t = Some (tl', b) /\ dom (tl_nodes tl') = dom (tl_nodes tl) /\ txg_abs tl' ls' /\ p ∈ slot [] ls' t /\
    (forall t' q, q ∈ slot [] ls t' -> q ∈ slot [] ls' t') /\ (forall t' q, q ∈ slot [] ls' t' -> q ∈ slot [] ls t' \/ q = p) /\
    (forall t', txg_idx t' <> txg_idx t -> slot [] ls' t' = slot [] ls t').
Proof.
  intros Habs Hp. pose proof (slot_lookup [] ls t (ta_lists _ _ Habs)) as El.
  destruct (add_abs tl ls t p _ Habs El Hp) as (tl' & E & Ed & Habs'). eexists tl', _, _. split; [exact E|]. split; [done|]. split; [exact Habs'|].
  destruct (decide (p ∈ slot [] ls t)) as [Hin|Hin]; [split; [done|]; split; [done|]; split; [tauto|done]|]. unfold slot in *.
  assert (forall t', txg_idx t' = txg_idx t -> default [] (<[txg_idx t := p :: default [] (ls !! txg_idx t)]> ls !! txg_idx t') = p :: default [] (ls !! txg_idx t')) as Heq.
  { intros t' ->. by rewrite list_lookup_insert_eq by (rewrite (ta_lists _ _ Habs); apply txg_idx_lt). }
  split; [rewrite Heq by done; by left|]. split; [|split; [|intros t' Ht; by rewrite list_lookup_insert_ne]]; intros t' q; (destruct (decide (txg_idx t' = txg_idx t)) as [Et|Et]; [rewrite Heq by done|rewrite list_lookup_insert_ne by done; tauto]).
  - intros Hq. by right.
  - intros [->|Hq]%elem_of_cons; tauto.
Qed.

(** Nothing is lost from the list. *)
Record list_grown (tl tl' : txg_list) : Prop := {
  lg_nodes : dom (tl_nodes tl') = dom (tl_nodes tl);
  lg_lists : forall ls, txg_abs tl ls -> exists ls', txg_abs tl' ls' /\ forall t a, a ∈ slot [] ls t -> a ∈ slot [] ls' t
}.

Lemma list_grown_refl tl : list_grown tl tl.
Proof. split; [done|]. intros ls Hls. by exists ls. Qed.

Lemma list_grown_add tl p t tl' b : p ∈ dom (tl_nodes tl) -> txg_list_add tl p t = Some (tl', b) ->
  (exists ls, txg_abs tl ls) -> list_grown tl tl'.
Proof.
  intros Hp E [ls0 H0]. split.
  - destruct (add_slot tl ls0 p t H0 Hp) as (tl1 & b1 & ls' & E1 & Hd & _). rewrite E in E1. by injection E1 as <- <-.
  - intros ls Hls. destruct (add_slot tl ls p t Hls Hp) as (tl1 & b1 & ls' & E1 & _ & Habs & _ & Hsub & _). rewrite E in E1. injection E1 as <- <-. by exists ls'.
Qed.

(** [cx'] is [cx] with more on its lists. *)
Definition same_but_lists cx cx' : Prop :=
  list_grown (cx_vdev_list cx) (cx_vdev_list cx') /\ cx_root cx' = cx_root cx /\
  mg_metaslab_tree (cx_mg cx') = mg_metaslab_tree (cx_mg cx) /\ mg_ms (cx_mg cx') = mg_ms (cx_mg cx) /\ cx_mos cx' = cx_mos cx /\
  mg_vd (cx_mg cx') = with_ms_list (mg_vd (cx_mg cx)) (vdev_ms_list (mg_vd (cx_mg cx'))).

Lemma vdev_dirty_spec cx lm lv a t : dirty_ok cx lm lv -> is_Some (mg_ms (cx_mg cx) !! a) ->
  exists cx' lm' lv', vdev_dirty cx (Some a) t = Some cx' /\ dirty_ok cx' lm' lv' /\ same_but_lists cx cx' /\ listed (mg_vd (cx_mg cx)) lm' lv' a t.
Proof.
  intros [H1 H2 H3 H4 H5 H6 H7] Ha. unfold vdev_dirty.
  destruct (add_slot _ _ a t H1 (H3 a Ha)) as (tl1 & b1 & lm' & -> & D1 & A1 & I1 & S1 & R1 & _). cbn [mbind option_bind vdev_self with_ms_list].
  destruct (add_slot _ _ _ t H2 H4) as (tl2 & b2 & lv' & Ev & D2 & A2 & I2 & S2 & _). pose proof (list_grown_add _ _ _ _ _ H4 Ev ltac:(by exists lv)) as Hgr.
  rewrite Ev. cbn [mbind option_bind]. eexists _, lm', lv'. split; [done|]. split; [|done]. split; cbn; [done|done|intros x Hx; rewrite D1; auto|by rewrite D2|..].
  - intros x ms t' Ex Ht Hu. destruct (H5 x ms t' Ex Ht Hu) as [L1 L2]. split; [by apply S1|by apply S2].
  - intros x ms Ex Hf. by apply S1, (H6 x ms).
  - intros x t' [Hx| ->]%R1; [by apply (H7 x t')|done].
Qed.

(** [if (space of the group's map == 0) vdev_dirty(...)]. *)
Lemma dirty_if_spec cx lm lv a t (s : Z) ms : dirty_ok cx lm lv -> mg_ms (cx_mg cx) !! a = Some ms -> in_flight txg t -> (s <> 0 -> ~ untouched ms t) ->
  exists cx' lm' lv', (if s =? 0 then vdev_dirty cx (Some a) t else Some cx) = Some cx' /\ dirty_ok cx' lm' lv' /\ same_but_lists cx cx' /\
    listed (mg_vd (cx_mg cx)) lm' lv' a t.
Proof.
  intros Hd E Ht Hs. destruct (Z.eqb_spec s 0) as [_|Hne]; [apply (vdev_dirty_spec cx lm lv); [done|by eexists]|].
  exists cx, lm, lv. split; [done|]. split; [done|]. split; [|apply (di_dirty _ _ _ Hd a ms t); auto].
  split; [apply list_grown_refl|]. split; [done|]. split; [done|]. split; [done|]. split; [done|]. by destruct (mg_vd (cx_mg cx)).
Qed.

Lemma in_flight_idx t t' : in_flight txg t -> in_flight txg t' -> txg_idx t = txg_idx t' -> t = t'.
Proof.
  unfold in_flight. intros Ht Ht' E. pose proof (txg_idx_inj txg (t - txg) (t' - txg) ltac:(lia) ltac:(lia)) as Hi.
  replace (txg + (t - txg)) with t in Hi by lia. replace (txg + (t' - txg)) with t' in Hi by lia. specialize (Hi E). lia.
Qed.

(** Changing the maps of the group [t], once it is listed. *)
Lemma dirty_set cx lm lv a ms ms' t : dirty_ok cx lm lv -> mg_ms (cx_mg cx) !! a = Some ms -> in_flight txg t -> listed (mg_vd (cx_mg cx)) lm lv a t ->
  (forall t', txg_idx t' <> txg_idx t -> ms_allocmap ms' !! txg_idx t' = ms_allocmap ms !! txg_idx t' /\ ms_freemap ms' !! txg_idx t' = ms_freemap ms !! txg_idx t') ->
  dirty_ok (with_mg cx (set_ms (cx_mg cx) a ms')) lm lv.
Proof.
  intros [H1 H2 H3 H4 H5 H6 H7] E Ht Hl Hsame. split; cbn; try done.
  - intros x. destruct (decide (x = a)) as [->|Hne]; [intros _; apply H3; by eexists|]. rewrite lookup_insert_ne by done. apply H3.
  - intros x msx t' Ex Ht' Hu. destruct (decide (x = a)) as [->|Hne].
    + rewrite lookup_insert_eq in Ex. injection Ex as <-. destruct (decide (t' = t)) as [->|Hnt]; [done|]. apply (H5 a ms t' E Ht').
      destruct (Hsame t') as [Ea Ef]; [by intros Eq; apply Hnt, in_flight_idx|]. unfold untouched in *. by rewrite <-Ea, <-Ef.
    + rewrite lookup_insert_ne in Ex by done. by apply (H5 x msx t').
  - intros x msx Ex Hf. destruct (decide (x = a)) as [->|Hne].
    + rewrite lookup_insert_eq in Ex. injection Ex as <-. apply (H6 a ms E). destruct (Hsame (txg + 3)) as [_ Ef]; [|by rewrite <-Ef].
      intros Eq. unfold in_flight in Ht. replace t with (txg + (t - txg)) in Eq by lia. pose proof (txg_idx_inj txg 3 (t - txg) ltac:(lia) ltac:(lia) Eq). lia.
    + rewrite lookup_insert_ne in Ex by done. by apply (H6 x msx).
  - intros x t' Hx. destruct (decide (x = a)) as [->|Hne]; [rewrite lookup_insert_eq; by eexists|]. rewrite lookup_insert_ne by done. by apply (H7 x t').
Qed.

Lemma dirty_kept cx lm lv mg' : dirty_ok cx lm lv -> kept (cx_mg cx) mg' -> mg_vd mg' = mg_vd (cx_mg cx) -> dirty_ok (with_mg cx mg') lm lv.
Proof.
  intros [H1 H2 H3 H4 H5 H6 H7] Hk Hv. split; cbn; rewrite ?Hv; try done.
  - intros a [ms' E]. destruct (kept_lookup _ _ _ _ Hk E) as (ms & Em & _). apply H3. by eexists.
  - intros a ms' t E Ht Hu. destruct (kept_lookup _ _ _ _ Hk E) as (ms & Em & [Ea Ef _ _ _]). apply (H5 a ms t); [done|done|].
    unfold untouched in *. by rewrite <-Ea, <-Ef.
  - intros a ms' E Hf. destruct (kept_lookup _ _ _ _ Hk E) as (ms & Em & [_ Ef _ _ _]). apply (H6 a ms); [done|]. by rewrite <-Ef.
  - intros a t Ha. destruct (H7 a t Ha) as [ms E]. specialize (Hk a). rewrite E in Hk. inversion Hk; subst. by eexists.
Qed.

(** ** The whole allocation *)

Definition with_block (Bs : Z -> list blk) (msp : Z) (b : blk) (a : Z) : list blk := if decide (a = msp) then b :: Bs a else Bs a.

(** The metaslab [a] in the array of the vdev: its region is one of those of
    [2 ^ vdev_ms_shift] bytes that make up the vdev. *)
Record at_index (v : vdev) ms (a : Z) : Prop := {
  ai_shift : 0 <= vdev_ms_shift v;
  ai_start : sm_start (ms_map ms) mod 2 ^ vdev_ms_shift v = 0;
  ai_size : sm_size (ms_map ms) = 2 ^ vdev_ms_shift v;
  ai_ms : vdev_ms v !! Z.to_nat (Z.shiftr (sm_start (ms_map ms)) (vdev_ms_shift v)) = Some a
}.

(** The objects of the metaslabs' logs are their own, and the metaslabs at
    their places on the vdev. *)
Record logs_ok mg : Prop := {
  lg_array : mos_has mos (vdev_ms_array (mg_vd mg)) /\ vdev_ms_array (mg_vd mg) <> 0;
  lg_place : forall a ms, mg_ms mg !! a = Some ms -> ms_place (mg_vd mg) ms;
  lg_index : forall a ms, mg_ms mg !! a = Some ms -> at_index (mg_vd mg) ms a;
  lg_synced : forall a ms, mg_ms mg !! a = Some ms -> smo_object (ms_smo ms) = 0 \/ smo_object (ms_smo ms) = smo_object (ms_smo_syncing ms);
  lg_array_ne : forall a ms, mg_ms mg !! a = Some ms -> smo_object (ms_smo_syncing ms) <> vdev_ms_array (mg_vd mg);
  lg_own : forall a b ms ms', mg_ms mg !! a = Some ms -> mg_ms mg !! b = Some ms' -> a <> b -> smo_object (ms_smo_syncing ms) <> 0 ->
    smo_object (ms_smo_syncing ms) <> smo_object (ms_smo_syncing ms')
}.

Lemma at_index_geom v v' ms ms' a : at_index v ms a -> same_geom (ms_map ms) (ms_map ms') -> vdev_ms_shift v' = vdev_ms_shift v -> vdev_ms v' = vdev_ms v ->
  at_index v' ms' a.
Proof. intros [A1 A2 A3 A4] (G1 & G2 & G3) Es Em. split; by rewrite ?Es, ?Em, ?G1, ?G2. Qed.

(** Nothing of these changed. *)
Record same_logs mg mg' : Prop := {
  sl_vd : exists tl, mg_vd mg' = with_ms_list (mg_vd mg) tl;
  sl_ms : forall a ms', mg_ms mg' !! a = Some ms' -> exists ms, mg_ms mg !! a = Some ms /\
    ms_smo ms' = ms_smo ms /\ ms_smo_syncing ms' = ms_smo_syncing ms /\ same_geom (ms_map ms) (ms_map ms')
}.

Lemma ms_place_geom v tl ms ms' : same_geom (ms_map ms) (ms_map ms') -> ms_place v ms -> ms_place (with_ms_list v tl) ms'.
Proof. intros (G1 & G2 & G3) [P1 P2 P3 P4]. split; cbn; by rewrite ?G1, ?G2, ?G3. Qed.

Lemma same_logs_trans mg1 mg2 mg3 : same_logs mg1 mg2 -> same_logs mg2 mg3 -> same_logs mg1 mg3.
Proof.
  intros [[t1 V1] M1] [[t2 V2] M2]. split; [exists t2; rewrite V2, V1; reflexivity|]. intros a ms3 E3. destruct (M2 a ms3 E3) as (ms2 & E2 & A2 & B2 & G2).
  destruct (M1 a ms2 E2) as (ms1 & E1 & A1 & B1 & G1). exists ms1. split; [done|]. split; [congruence|]. split; [congruence|]. by eapply same_geom_trans.
Qed.

Lemma kept_logs mg mg' : kept mg mg' -> mg_vd mg' = mg_vd mg -> same_logs mg mg'.
Proof.
  intros Hk Ev. split; [exists (vdev_ms_list (mg_vd mg)); rewrite Ev; by destruct (mg_vd mg)|]. intros a ms' E. destruct (kept_lookup _ _ _ _ Hk E) as (ms & Em & [_ _ G S Y]). by exists ms.
Qed.

Lemma logs_ext mg mg' : same_logs mg mg' -> logs_ok mg -> logs_ok mg'.
Proof.
  intros [[tl Ev] Em] [L1 L2 LI L3 L4 L5]. split; rewrite ?Ev; cbn [vdev_ms_array with_ms_list].
  - done.
  - intros a ms' E. destruct (Em a ms' E) as (ms & E0 & _ & _ & G). eapply ms_place_geom; [exact G|by apply (L2 a)].
  - intros a ms' E. destruct (Em a ms' E) as (ms & E0 & _ & _ & G). by eapply at_index_geom; [apply (LI a ms E0)|..].
  - intros a ms' E. destruct (Em a ms' E) as (ms & E0 & -> & -> & _). by apply (L3 a).
  - intros a ms' E. destruct (Em a ms' E) as (ms & E0 & _ & -> & _). by apply (L4 a).
  - intros a b msa msb Ea Eb. destruct (Em a msa Ea) as (ms1 & E1 & _ & -> & _), (Em b msb Eb) as (ms2 & E2 & _ & -> & _). by apply (L5 a b).
Qed.

(** A pool the operations below keep: the tree of the group in order, every
    metaslab ready, what is to be synced listed, and the logs apart. *)
Record pool_ok cx (l : list Z) (Bs : Z -> list blk) : Prop := {
  po_group : group_ok (cx_mg cx) l;
  po_ready : ready (cx_mg cx) Bs;
  po_dirty : exists lm lv, dirty_ok cx lm lv;
  po_mos : cx_mos cx = mos;
  po_logs : logs_ok (cx_mg cx)
}.

(** What an operation on a group leaves to the others. *)
Record grown cx cx' : Prop := {
  gw_root : cx_root cx' = cx_root cx;
  gw_list : list_grown (cx_vdev_list cx) (cx_vdev_list cx');
  gw_logs : same_logs (cx_mg cx) (cx_mg cx');
  gw_keys : forall a, is_Some (mg_ms (cx_mg cx) !! a) -> is_Some (mg_ms (cx_mg cx') !! a)
}.

Lemma insert_keys {X} (m : gmap Z X) k x a : is_Some (m !! a) -> is_Some (<[k := x]> m !! a).
Proof. destruct (decide (a = k)) as [->|]; [rewrite lookup_insert_eq; by eexists|by rewrite lookup_insert_ne]. Qed.

(** What a group in flight has allocated from is loaded. *)
Lemma alloc_loaded ms B b t : life (cap := cap) mos txg ms B -> b ∈ B -> b_alloc b = Some t -> sm_loaded (ms_map ms) = true.
Proof using HL.
  intros (M & AL & FR & ws & wss & A & As & [Hinv _ Hb Ra _ _ _]) Hin Ea. destruct (sm_loaded (ms_map ms)) eqn:El; [done|exfalso].
  pose proof (bo_alloc _ _ _ Hb) as Hfl. rewrite Forall_forall in Hfl. destruct (proj1 (in_flight_group txg t) (Hfl b Hin t Ea)) as (j & Hj & ->).
  pose proof (bo_range _ _ _ Hb) as Hr. rewrite Forall_forall in Hr. destruct (Hr b Hin).
  assert (group_set AL txg j (b_off b)) as Hg by (apply (Ra j _ Hj), with_blk_in; exists b; unfold in_blk, range; split; [done|split; [done|lia]]).
  unfold group_set in Hg. rewrite (mi_unloaded _ _ _ _ _ _ _ _ _ _ Hinv El) in Hg. by apply covers_nil in Hg.
Qed.

(** From [ms] to [ms'] by a change of the maps of the group [t] and of the
    in-core map. *)
Record changed ms ms' (t : Z) : Prop := {
  ch_key : key_of ms' = key_of ms;
  ch_maps : forall t', txg_idx t' <> txg_idx t -> ms_allocmap ms' !! txg_idx t' = ms_allocmap ms !! txg_idx t' /\ ms_freemap ms' !! txg_idx t' = ms_freemap ms !! txg_idx t';
  ch_smo : ms_smo ms' = ms_smo ms /\ ms_smo_syncing ms' = ms_smo_syncing ms;
  ch_geom : same_geom (ms_map ms) (ms_map ms')
}.

Lemma same_logs_set mg msp ms ms' tl : mg_ms mg !! msp = Some ms -> ms_smo ms' = ms_smo ms /\ ms_smo_syncing ms' = ms_smo_syncing ms ->
  same_geom (ms_map ms) (ms_map ms') -> same_logs mg (set_ms (with_vd mg (with_ms_list (mg_vd mg) tl)) msp ms').
Proof.
  intros E [S1 S2] Hg. split; [by exists tl|]. intros a ms1. cbn. destruct (decide (a = msp)) as [->|Hne].
  - rewrite lookup_insert_eq. intros [= <-]. by exists ms.
  - rewrite lookup_insert_ne by done. intros E1. by exists ms1.
Qed.

Definition with_blocks (Bs : Z -> list blk) (msp : Z) (B : list blk) (a : Z) : list blk := if decide (a = msp) then B else Bs a.

(** A metaslab changed by the group [t], once the lists say so. *)
Lemma pool_set cx cx2 l Bs lm lv msp ms ms' B t : group_ok (cx_mg cx) l -> (forall a msa, a <> msp -> mg_ms (cx_mg cx) !! a = Some msa -> ms_ready msa (Bs a)) ->
  cx_mos cx = mos -> logs_ok (cx_mg cx) -> mg_ms (cx_mg cx) !! msp = Some ms -> in_flight txg t ->
  dirty_ok cx2 lm lv -> same_but_lists cx cx2 -> listed (mg_vd (cx_mg cx)) lm lv msp t -> changed ms ms' t -> ms_ready ms' B ->
  grown cx (with_mg cx2 (set_ms (cx_mg cx2) msp ms')) /\ pool_ok (with_mg cx2 (set_ms (cx_mg cx2) msp ms')) l (with_blocks Bs msp B).
Proof.
  intros Hok Hready Emos Hlogs E Ht Hd (Sg & Sr & St & Sm & So & Sv) Hl [C1 C2 C3 C4] Hr.
  assert (same_logs (cx_mg cx) (set_ms (cx_mg cx2) msp ms')) as Hsl.
  { destruct (same_logs_set (cx_mg cx) msp ms ms' (vdev_ms_list (mg_vd (cx_mg cx2))) E C3 C4) as [L1 L2]. split; [eexists; exact Sv|]. cbn. rewrite Sm. exact L2. }
  split; [split; [done|done|exact Hsl|]; intros a Ha; cbn; rewrite Sm; by apply insert_keys|]. split; cbn.
  - destruct (group_ok_set (cx_mg cx) l msp ms ms' Hok E C1) as [T1 T2 T3]. split; cbn in *; [by rewrite St| |by rewrite Sm].
    eapply ordered_ext; [|exact T2]. intros a _. cbn. by rewrite Sm.
  - intros a msa. cbn. rewrite Sm. unfold with_blocks. destruct (decide (a = msp)) as [->|Hne]; [rewrite lookup_insert_eq; by intros [= <-]|].
    rewrite lookup_insert_ne by done. by apply Hready.
  - exists lm, lv. eapply dirty_set; [exact Hd|by rewrite Sm|exact Ht|by rewrite Sv|exact C2].
  - by rewrite So.
  - by eapply logs_ext.
Qed.

Lemma grown_trans cx1 cx2 cx3 : grown cx1 cx2 -> grown cx2 cx3 -> grown cx1 cx3.
Proof.
  intros [R1 [N1 L1] S1 K1] [R2 [N2 L2] S2 K2]. split; [congruence| |by eapply same_logs_trans|auto]. split; [congruence|]. intros ls Hls.
  destruct (L1 ls Hls) as (ls1 & H1 & M1). destruct (L2 ls1 H1) as (ls2 & H2 & M2). exists ls2. auto.
Qed.

Lemma grown_kept cx mg' : kept (cx_mg cx) mg' -> mg_vd mg' = mg_vd (cx_mg cx) -> grown cx (with_mg cx mg').
Proof. intros Hk Hv. split; [done|apply list_grown_refl|by apply kept_logs|]. intros a. by apply kept_keys. Qed.

Lemma dirty_allocmap_spec cx lm lv msp ms t : dirty_ok cx lm lv -> mg_ms (cx_mg cx) !! msp = Some ms -> in_flight txg t -> is_Some (ms_allocmap ms !! txg_idx t) ->
  exists cx' lm' lv', dirty_allocmap cx msp t = Some cx' /\ dirty_ok cx' lm' lv' /\ same_but_lists cx cx' /\ listed (mg_vd (cx_mg cx)) lm' lv' msp t.
Proof.
  intros Hd E Ht [m Em]. unfold dirty_allocmap. rewrite E. cbn [mbind option_bind]. rewrite Em. cbn [mbind option_bind].
  apply (dirty_if_spec cx lm lv msp t (sm_space m) ms Hd E Ht). intros Hne [Hu _]. rewrite Em in Hu. cbn in Hu. congruence.
Qed.

Lemma pool_ok_ext cx l Bs Bs' : pool_ok cx l Bs -> (forall a, Bs' a = Bs a) -> pool_ok cx l Bs'.
Proof. intros [P1 P2 P3 P4 P5] HB. split; try done. intros a ms E. rewrite HB. by apply P2. Qed.

Lemma group_alloc_spec cx l Bs size t md dvas : pool_ok cx l Bs -> sized (cx_mg cx) size -> SPA_MINBLOCKSIZE <= size < 2 ^ 62 -> in_flight txg t ->
  exists cx' r l', metaslab_group_alloc zfs_recover cx size t md dvas = Some (cx', r) /\ l' ≡ₚ l /\ grown cx cx' /\
    ((r = 2 ^ 64 - 1 /\ pool_ok cx' l' Bs /\
      (activation_weight (mg_vd (cx_mg cx)) dvas = METASLAB_WEIGHT_PRIMARY -> forall a ms, mg_ms (cx_mg cx') !! a = Some ms -> ms_weight ms < size)) \/
     (r <> 2 ^ 64 - 1 /\ exists msp ms, mg_ms (cx_mg cx) !! msp = Some ms /\ found ms (Bs msp) r size /\
        pool_ok cx' l' (with_block Bs msp (mk_blk r size (Some t) Live)))).
Proof using HLG HML HL vd.
  intros [Hok Hready (lm & lv & Hdirty) Emos Hlogs] Hsized Hsz Ht. unfold metaslab_group_alloc. rewrite Emos.
  destruct (group_alloc_loop_spec size md dvas Bs Hsz (group_alloc_fuel (cx_mg cx)) (cx_mg cx) l Hok Hready Hsized) as (mg' & l' & r & -> & [G1 G2 G3 G4 G5 G6 G7]).
  { unfold group_alloc_fuel. rewrite (num_law _ _ (go_tree _ _ Hok)), Nat2Z.id. pose proof (ranks_bound (cx_mg cx) size l). lia. }
  cbn [mbind option_bind]. pose proof (dirty_kept cx lm lv mg' Hdirty G4 G3) as Hd1. pose proof (grown_kept cx mg' G4 G3) as Hgr.
  pose proof (logs_ext _ _ (gw_logs _ _ Hgr) Hlogs) as Hlogs1. destruct r as [[msp off]|].
  - destruct (G6 msp off eq_refl) as (Hoff & ms1 & E1 & Hf & Hadd). destruct (Hadd t Ht) as (ms2 & m & Eadd & Hr2 & Em2).
    destruct (dirty_allocmap_spec (with_mg cx mg') lm lv msp ms1 t Hd1 E1 Ht) as (cx2 & lm2 & lv2 & -> & Hd2 & Hsame & Hl).
    { unfold ms_add_allocmap in Eadd. destruct (ms_allocmap ms1 !! txg_idx t); [by eexists|done]. }
    destruct (pool_set (with_mg cx mg') cx2 l' Bs lm2 lv2 msp ms1 ms2 (mk_blk off size (Some t) Live :: Bs msp) t) as [Hg2 Hok2]; try done.
    { intros a msa Hne Ea. apply (G5 a msa Ea). by intros o [= <- _]. }
    { rewrite Em2. split; [done| |done|done]. intros t' Hne. cbn. by rewrite list_lookup_insert_ne. }
    destruct Hsame as (_ & _ & _ & Sm & _). cbn [mbind option_bind]. rewrite Sm. cbn [cx_mg with_mg]. rewrite E1. cbn [mbind option_bind]. rewrite Eadd. cbn [mbind option_bind].
    eexists _, off, l'. split; [done|]. split; [done|]. split; [by eapply grown_trans|]. right. split; [done|].
    destruct (kept_lookup _ _ _ _ G4 E1) as (ms & E0 & [_ _ Hg _ _]). exists msp, ms. split; [done|]. split; [eapply found_geom; [by apply same_geom_sym|done]|].
    eapply pool_ok_ext; [exact Hok2|]. intros a. unfold with_block, with_blocks. by destruct (decide (a = msp)) as [->|].
  - eexists _, (2 ^ 64 - 1), l'. split; [done|]. split; [done|]. split; [done|]. left. split; [done|]. split; [|by apply G7].
    split; [done|intros a ms E; by apply (G5 a ms E)|by exists lm, lv|done|done].
Qed.

(** Claiming space that no block has, of a metaslab that may be activated. *)
Lemma claim_at_spec cx l Bs msp ms off size t : pool_ok cx l Bs -> mg_ms (cx_mg cx) !! msp = Some ms -> 2 ^ 62 <= ms_weight ms \/ SPA_MINBLOCKSIZE <= ms_weight ms ->
  in_flight txg t -> range_ok (ms_map ms) off size -> (forall o, range off size o -> no_blk (Bs msp) o) ->
  exists cx' err l', metaslab_claim_at zfs_recover cx msp off size t = Some (cx', err) /\ l' ≡ₚ l /\ grown cx cx' /\
    ((err <> 0 /\ pool_ok cx' l' Bs) \/ (err = 0 /\ pool_ok cx' l' (with_block Bs msp (mk_blk off size (Some t) Live)))).
Proof using HLG HML HL vd.
  intros [Hok Hready (lm & lv & Hdirty) Emos Hlogs] E Hw Ht Hr Hno. unfold metaslab_claim_at. rewrite Emos.
  destruct (activate_spec (cx_mg cx) l msp ms (Bs msp) METASLAB_WEIGHT_SECONDARY Hok E (Hready msp ms E) ltac:(by right) Hw)
    as (mg1 & l1 & ms1 & err & -> & [M1 M2 M3 M4] & Hr1 & Hs1 & Hcase).
  assert (kept (cx_mg cx) mg1) as Hk by (intros a; rewrite M3; by apply (kept_set (cx_mg cx) msp ms ms1)).
  cbn [mbind option_bind]. pose proof (dirty_kept cx lm lv mg1 Hdirty Hk M4) as Hd1. pose proof (grown_kept cx mg1 Hk M4) as Hgr.
  pose proof (logs_ext _ _ (gw_logs _ _ Hgr) Hlogs) as Hlogs1. assert (mg_ms mg1 !! msp = Some ms1) as E1 by (rewrite M3; apply lookup_insert_eq).
  assert (forall a msa, a <> msp -> mg_ms mg1 !! a = Some msa -> ms_ready msa (Bs a)) as Hoth by (intros a msa Hne; rewrite M3, lookup_insert_ne by done; apply Hready).
  destruct Hcase as [(-> & El & _ & Hact & _)|[Herr _]]; cbn [Z.eqb negb].
  2:{ rewrite (proj2 (Z.eqb_neq _ _) Herr). cbn [negb]. eexists _, err, l1. split; [done|]. split; [done|]. split; [done|]. left. split; [done|].
      split; [done| |by exists lm, lv|done|done]. intros a msa. cbn. destruct (decide (a = msp)) as [->|]; [rewrite E1; by intros [= <-]|by apply Hoth]. }
  destruct Hr1 as [Hlife Hg1 [W1 W2 W3] Hsh1]. pose proof (sfl_geom _ _ Hs1) as Hge.
  destruct (step_claim zfs_recover vd mos txg ms1 (Bs msp) off size t Hlife El Ht (range_ok_geom _ _ _ _ Hge Hr) Hno) as (ms2 & Es & Hlife2 & Hge2).
  cbn [ms_step] in Es. unfold ms_claim in Es. destruct (space_map_claim _ _ _ _ _) as [sm|] eqn:Ec; [|done]. cbn [mbind option_bind] in Es.
  destruct (ms_add_allocmap _ _ _ _ _) as [ms2'|] eqn:Eadd; [|done]. cbn [mbind option_bind] in Es. injection Es as ->.
  destruct (add_allocmap_map _ _ _ _ _ Eadd) as (m & Em2).
  destruct (dirty_allocmap_spec (with_mg cx mg1) lm lv msp ms1 t Hd1 E1 Ht) as (cx2 & lm2 & lv2 & -> & Hd2 & Hsame & Hl).
  { unfold ms_add_allocmap in Eadd. cbn [ms_allocmap with_map] in Eadd. destruct (ms_allocmap ms1 !! txg_idx t); [by eexists|done]. }
  destruct (pool_set (with_mg cx mg1) cx2 l1 Bs lm2 lv2 msp ms1 ms2 (mk_blk off size (Some t) Live :: Bs msp) t) as [Hg2 Hok2]; try done.
  { split; [unfold key_of; destruct Hge2 as (-> & _); by rewrite Em2| |by rewrite Em2|done]. intros t' Hne. rewrite Em2. cbn. by rewrite list_lookup_insert_ne. }
  { assert (ms_weight ms2 = ms_weight ms1 /\ ms_group ms2 = ms_group ms1) as [Ew Eg] by (by rewrite Em2).
    split; [done|by rewrite Eg| |by destruct Hge2 as (_ & _ & ->)]. split; rewrite ?Ew; [done|done|]. intros _.
    assert (sm_loaded (ms_map ms2) = true) as El2 by (by apply (alloc_loaded ms2 _ (mk_blk off size (Some t) Live) t Hlife2 ltac:(by left))).
    split; [done|left]. destruct (W3 Hact) as [_ [?|[Hz _]]]; [done|exfalso]. destruct Hr. apply (space_free ms1 (Bs msp) off Hlife El); [|apply Hno; unfold range; lia|done].
    unfold region. destruct Hge as (-> & -> & _). lia. }
  destruct Hsame as (_ & _ & _ & Sm & _). cbn [mbind option_bind]. rewrite Sm. cbn [cx_mg with_mg]. rewrite E1. cbn [mbind option_bind].
  unfold ms_claim. rewrite Ec. cbn [mbind option_bind]. rewrite Eadd. cbn [mbind option_bind].
  eexists _, 0, l1. split; [done|]. split; [done|]. split; [by eapply grown_trans|]. right. split; [done|].
  eapply pool_ok_ext; [exact Hok2|]. intros a. unfold with_block, with_blocks. by destruct (decide (a = msp)) as [->|].
Qed.

Lemma free_later_map ms off size t ms' : ms_free_later zfs_recover ms off size t = Some ms' ->
  exists f m, ms_freemap ms !! txg_idx t = Some f /\ ms' = with_maps ms (ms_allocmap ms) (<[txg_idx t := m]> (ms_freemap ms)).
Proof.
  unfold ms_free_later. destruct (ms_freemap ms !! txg_idx t) as [f|]; [|done]. cbn [mbind option_bind].
  destruct (space_map_add _ _ _ _) as [m|]; [|done]. cbn [mbind option_bind]. destruct (free_allocd _ _ _ _) as [[]|]; [..|done]; cbn [mbind option_bind negb].
  - intros [= <-]. by exists f, m.
  - destruct zfs_recover; [|done]. intros [= <-]. by exists f, m.
Qed.

(** Freeing a block in a group of the future, by [metaslab_free_dva]. *)
Lemma free_at_spec cx l Bs msp B1 b B2 t : pool_ok cx l Bs -> is_Some (mg_ms (cx_mg cx) !! msp) -> Bs msp = B1 ++ b :: B2 -> b_free b = Live ->
  in_flight txg t -> (forall t0, b_alloc b = Some t0 -> t0 <= t) ->
  exists cx', metaslab_free_at zfs_recover cx msp (b_off b) (b_size b) t false = Some cx' /\ grown cx cx' /\
    pool_ok cx' l (with_blocks Bs msp (B1 ++ mk_blk (b_off b) (b_size b) (b_alloc b) (Freeing t) :: B2)).
Proof using HLG HML HL vd.
  intros [Hok Hready (lm & lv & Hdirty) Emos Hlogs] [ms E] EB Hlive Ht Hbirth. unfold metaslab_free_at. rewrite E. cbn [mbind option_bind].
  destruct (Hready msp ms E) as [Hlife Hg [U1 U2 U3] Hsh]. rewrite EB in Hlife, U3.
  destruct (step_free zfs_recover mos txg ms B1 b B2 t Hlife Hlive Ht Hbirth) as (ms' & Efree & Hlife' & Em).
  destruct (free_later_map _ _ _ _ _ Efree) as (f & m & Ef & E'). rewrite Ef. cbn [mbind option_bind].
  destruct (dirty_if_spec cx lm lv msp t (sm_space f) ms Hdirty E Ht) as (cx2 & lm2 & lv2 & -> & Hd2 & Hsame & Hl).
  { intros Hne [_ Hu]. rewrite Ef in Hu. cbn in Hu. congruence. }
  cbn [mbind option_bind]. rewrite Efree. cbn [mbind option_bind]. eexists. split; [done|].
  assert (ms_weight ms' = ms_weight ms /\ ms_group ms' = ms_group ms) as [Ew Eg] by (by rewrite E').
  eapply pool_set; try done.
  - intros a msa _. apply Hready.
  - split; [unfold key_of; by rewrite Ew, Em| |by rewrite E'|by rewrite Em]. intros t' Hne. rewrite E'. cbn. by rewrite list_lookup_insert_ne.
  - split; [done|by rewrite Eg| |by rewrite Em]. rewrite Forall_app, Forall_cons in U3. split; rewrite ?Ew, ?Em; [done|done|]. by rewrite Forall_app, Forall_cons.
Qed.
End pool.
