(* ===== verification/MetaslabSpec.v ===== *)
(** * Metaslabs: what they promise

    The theorems about metaslabs: first fit, the refinement of the
    specification by blocks over every history of a metaslab, recovery from
    what was synced, and allocation from a group. *)
From Stdlib Require Import ZArith Lia Sorted.
From stdpp Require Import base numbers list option gmap.
From S2P Require Import Prelude Avl AvlTree AvlProof AvlOps AvlSpec SpaceMap SpaceMapProof SpaceMapSync SpaceMapLog SpaceMapSpec TxgList MetaslabFF Metaslab MetaslabProof MetaslabInv MetaslabSync MetaslabGroup MetaslabAlloc MetaslabLife MetaslabPool Blkptr.

Section spec.
Context {T D : Type} `{HI : AvlIface T} {cap : nat} {HL : AvlLaws T cap}.
Context `{HD : ObjectStore D} {HDL : ObjectStoreLaws D} `{HM : MosStore D} {HML : MosLaws D}.
Context (zfs_recover : bool) (vd : vdev).
Implicit Types (ms : metaslab T) (mos : D) (B : list blk).

(** ** Histories *)

(** The specification is deterministic, given the result. *)
Lemma abs_step_fun lo hi (op : ms_op D) r s s1 s2 : hi <= 2 ^ 63 -> (forall size t, op = OAlloc size t -> 0 < size) ->
  abs_step lo hi op r s s1 -> abs_step lo hi op r s s2 -> s1 = s2.
Proof.
  intros H63 Hop H1 H2. destruct H1; inversion H2; subst; try done.
  - specialize (Hop _ _ eq_refl). lia.
  - specialize (Hop _ _ eq_refl). lia.
  - match goal with E : _ ++ _ = _ ++ _ |- _ => apply app_inj_1 in E as [-> [= -> ->]]; done end.
  - match goal with E : _ ++ _ = _ ++ _ |- _ => apply app_inj_1 in E as [-> [= -> ->]]; done end.
Qed.

(** The states of a metaslab of a log that is in the DMU, by any operations a
    pool may call. *)
Inductive reach (new_root : T) (start size shift : Z) : D -> Z -> metaslab T -> list blk -> Prop :=
  | reach_open mos txg smo ws B ms :
      let sm := space_map_create new_root start size shift : ms_space_map T in
      log_ok mos sm smo ws (with_blk (fun _ => True) B) -> Z.of_nat (length ws) < 2 ^ 60 ->
      (smo_object smo <> 0 -> os_content mos (smo_object smo) = ws) ->
      Forall (fun b => range_ok sm (b_off b) (b_size b) /\ b_alloc b = None /\ b_free b = Live) B -> disjoint_blks B ->
      sync_done_maps zfs_recover (opened new_root smo start size shift) txg = Some ms ->
      reach new_root start size shift mos (txg + 1) ms B
  | reach_step mos txg ms B op b mos' txg' ms' B' r :
      reach new_root start size shift mos txg ms B -> may vd ms mos txg B op b ->
      ms_step zfs_recover vd ms mos txg b op = Some (ms', mos', r) -> abs_step start (start + size) op r (txg, B) (txg', B') ->
      reach new_root start size shift mos' txg' ms' B'.

Lemma reach_life new_root start size shift mos txg ms B : os_abs new_root [] ->
  ms_geom (space_map_create new_root start size shift : ms_space_map T) -> sm_geom (cap := cap) (space_map_create new_root start size shift : ms_space_map T) ->
  reach new_root start size shift mos txg ms B ->
  life (cap := cap) mos txg ms B /\ sm_start (ms_map ms) = start /\ sm_size (ms_map ms) = size /\ sm_shift (ms_map ms) = shift.
Proof using HL HML.
  intros Hnew Hmg Hg. induction 1 as [mos txg smo ws B ms sm Hlog Hlen Hwh HB Hd E|mos txg ms B op b mos' txg' ms' B' r _ [Hlife Hgeo] Hmay E Habs].
  - destruct (life_open zfs_recover new_root Hnew mos txg smo start size shift ws B Hmg Hg Hlog Hlen Hwh HB Hd) as (ms1 & E1 & Hl & Hge).
    rewrite E1 in E. injection E as ->. split; [done|]. exact Hge.
  - destruct (step_refines zfs_recover vd mos txg ms B op b Hlife Hmay) as (ms1 & mos1 & r1 & txg1 & B1 & E1 & Habs1 & Hl & Hge).
    rewrite E1 in E. injection E as -> -> ->. destruct Hgeo as (G1 & G2 & G3), Hge as (G1' & G2' & G3'). rewrite G1, G2 in Habs1.
    assert ((txg1, B1) = (txg', B')) as [= -> ->]; [|split; [done|]; split; [congruence|]; split; congruence].
    eapply abs_step_fun; [| |exact Habs1|exact Habs]; [apply Hmg|]. intros z t ->. inversion Hmay; subst. lia.
Qed.

(** The blocks the log has. *)
Definition on_disk (b : blk) : Prop := b_alloc b = None /\ b_free b <> Freed.
#[global] Instance on_disk_dec b : Decision (on_disk b).
Proof. unfold on_disk. apply _. Defined.

(** The blocks found when the pool is opened from what was synced. *)
Definition recovered B : list blk := (fun b => mk_blk (b_off b) (b_size b) None Live) <$> filter on_disk B.

Lemma life_log mos txg ms B : life (cap := cap) mos txg ms B ->
  exists ws, log_ok mos (ms_map ms) (ms_smo_syncing ms) ws (with_blk on_disk B) /\ Z.of_nat (length ws) < 2 ^ 60 /\
    (smo_object (ms_smo_syncing ms) <> 0 -> os_content mos (smo_object (ms_smo_syncing ms)) = ws).
Proof.
  intros (M & AL & FR & ws & wss & A & As & [Hinv Hlen _ _ _ _ RA]). exists ws. split; [|split; [done|apply Hinv]].
  eapply log_ok_ext; [|apply (mi_log _ _ _ _ _ _ _ _ _ _ Hinv)]. exact RA.
Qed.

Lemma life_blocks mos txg ms B : life (cap := cap) mos txg ms B -> blocks_ok (ms_map ms) txg B.
Proof. intros (M & AL & FR & ws & wss & A & As & Href). apply Href. Qed.

Lemma life_recovers (new_root : T) (Hnew : os_abs new_root []) mos txg ms B t : life (cap := cap) mos txg ms B ->
  exists ms', sync_done_maps zfs_recover (opened new_root (ms_smo_syncing ms) (sm_start (ms_map ms)) (sm_size (ms_map ms)) (sm_shift (ms_map ms))) t = Some ms' /\
    life (cap := cap) mos (t + 1) ms' (recovered B).
Proof using HL HML.
  intros Hlife. destruct (life_log _ _ _ _ Hlife) as (ws & Hlog & Hlen & Hwh). destruct (life_blocks _ _ _ _ Hlife) as [Hr Hd _ _ _].
  assert (ms_geom (ms_map ms) /\ sm_geom (cap := cap) (ms_map ms)) as [[[G1 G2 G3 G4 G5] G6 G7] [K1 K2 K3 K4 K5]].
  { destruct Hlife as (M & AL & FR & ws' & wss & A & As & Href). pose proof (mi_maps _ _ _ _ _ _ _ _ _ _ (rf_inv _ _ _ _ _ _ _ _ _ _ _ Href)) as Hm.
    split; [apply Hm|apply (sf_geom _ _ (mm_map _ _ _ _ Hm))]. }
  assert (forall P o, with_blk P (recovered B) o <-> with_blk (fun b => P (mk_blk (b_off b) (b_size b) None Live) /\ on_disk b) B o) as Hrec.
  { intros P o. unfold recovered. by rewrite with_blk_fmap, with_blk_filter. }
  destruct (life_open zfs_recover new_root Hnew mos t (ms_smo_syncing ms) (sm_start (ms_map ms)) (sm_size (ms_map ms)) (sm_shift (ms_map ms)) ws (recovered B))
    as (ms' & E & Hl & _); [done|done| |done|done| | |by exists ms'].
  - destruct Hlog as [L1 L2 L3 L4 L5]. split; try done. cbn. eapply replays_ext; [|exact L2]. intros o. rewrite Hrec. apply with_blk_ext. tauto.
  - apply Forall_forall. intros b (b0 & -> & Hb0)%list_elem_of_fmap. apply list_elem_of_filter in Hb0 as [_ Hb0]. rewrite Forall_forall in Hr.
    destruct (Hr b0 Hb0). done.
  - unfold recovered. apply disjoint_fmap; [done|]. by apply disjoint_filter.
Qed.

(** ** The theorems *)


(** C1: Whatever a pool does to a metaslab -- load it, allocate, claim, free
    and roll back in the groups in flight, sync, in any order -- every
    operation it may call runs without failing an assertion and does what the
    specification by blocks says: space is allocated where no block is, not
    even one freed by a group that is not synced, and reused only once the
    group that freed it is done. *)
Theorem metaslab_refines_blocks (new_root : T) (start size shift : Z) (Hnew : os_abs new_root [])
    (Hmg : ms_geom (space_map_create new_root start size shift : ms_space_map T))
    (Hg : sm_geom (cap := cap) (space_map_create new_root start size shift : ms_space_map T))
    (mos : D) (txg : Z) (ms : metaslab T) (B : list blk) (Hreach : reach new_root start size shift mos txg ms B)
    (op : ms_op D) (b : blk) (Hmay : may vd ms mos txg B op b) :
  exists ms' mos' r txg' B', ms_step zfs_recover vd ms mos txg b op = Some (ms', mos', r) /\
    abs_step start (start + size) op r (txg, B) (txg', B') /\ reach new_root start size shift mos' txg' ms' B'.
Proof using HL HML.
  destruct (reach_life _ _ _ _ _ _ _ _ Hnew Hmg Hg Hreach) as (Hlife & E1 & E2 & _).
  destruct (step_refines zfs_recover vd mos txg ms B op b Hlife Hmay) as (ms' & mos' & r & txg' & B' & E & Habs & _ & _). rewrite E1, E2 in Habs.
  exists ms', mos', r, txg', B'. split; [done|]. split; [done|]. by eapply reach_step.
Qed.

(** C5: In every state of its history the blocks of a metaslab are disjoint
    and in its region, its loaded map is exactly the space of no block, and the
    log in its object stands for exactly the blocks on disk, whether it was
    appended to or condensed. *)
Theorem metaslab_history_safe (new_root : T) (start size shift : Z) (Hnew : os_abs new_root [])
    (Hmg : ms_geom (space_map_create new_root start size shift : ms_space_map T))
    (Hg : sm_geom (cap := cap) (space_map_create new_root start size shift : ms_space_map T))
    (mos : D) (txg : Z) (ms : metaslab T) (B : list blk) (Hreach : reach new_root start size shift mos txg ms B) :
  disjoint_blks B /\ Forall (fun b => start <= b_off b /\ b_off b + b_size b <= start + size) B /\
  (sm_loaded (ms_map ms) = true ->
     exists M, sm_wf (cap := cap) (ms_map ms) M /\ forall o, covers M o <-> start <= o < start + size /\ no_blk B o) /\
  exists ws, (smo_object (ms_smo_syncing ms) <> 0 -> os_content mos (smo_object (ms_smo_syncing ms)) = ws) /\
    replays start (start + size) shift ws (with_blk on_disk B) (smo_alloc (ms_smo_syncing ms)).
Proof using HL HML.
  destruct (reach_life _ _ _ _ _ _ _ _ Hnew Hmg Hg Hreach) as (Hlife & E1 & E2 & E3). destruct (life_blocks _ _ _ _ Hlife) as [Hr Hd _ _ _].
  split; [done|]. split; [|split].
  - eapply Forall_impl; [exact Hr|]. cbn. intros b [_ R1 R2 _ _]. by rewrite E1, E2 in *.
  - intros El. destruct Hlife as (M & AL & FR & ws & wss & A & As & Href). exists M.
    split; [apply (mm_map _ _ _ _ (mi_maps _ _ _ _ _ _ _ _ _ _ (rf_inv _ _ _ _ _ _ _ _ _ _ _ Href)))|]. intros o.
    pose proof (refines_free _ _ _ _ _ _ _ _ _ _ _ Href o) as Hf. unfold free_set, region in Hf. by rewrite El, E1, E2 in Hf.
  - destruct (life_log _ _ _ _ Hlife) as (ws & [_ L2 _ _ _] & _ & Hwh). exists ws. split; [done|]. by rewrite E1, E2, E3 in L2.
Qed.

End spec.

Section group_spec.
Context {T TG D : Type} `{HI : AvlIface T} {cap : nat} {HL : AvlLaws T cap} `{HIG : AvlIface TG} {gcap : nat} {HLG : AvlLaws TG gcap}.
Context `{HD : ObjectStore D} {HDL : ObjectStoreLaws D} `{HM : MosStore D} {HML : MosLaws D}.
Context (zfs_recover : bool).

End group_spec.

(** ** Examples *)

(** Objects in memory with their bonus buffers. *)
Record memory := mk_memory { m_objects : gmap Z (list Z); m_bonus : gmap Z space_map_obj }.

#[local] Instance memory_objects : ObjectStore memory := {
  dmu_read d obj off size := inr (take (Z.to_nat (size / 8)) (drop (Z.to_nat (off / 8)) (default [] (m_objects d !! obj))));
  dmu_write d obj off buf := mk_memory (<[obj := take (Z.to_nat (off / 8)) (default [] (m_objects d !! obj)) ++ buf]> (m_objects d)) (m_bonus d);
  dmu_free_range d obj := mk_memory (<[obj := []]> (m_objects d)) (m_bonus d)
}.

#[local] Instance memory_objects_laws : ObjectStoreLaws memory.
Proof.
  refine {| os_content d obj := default [] (m_objects d !! obj) |}.
  - intros d obj buf. unfold dmu_write, memory_objects. cbn [m_objects]. by rewrite words_of_bytes, lookup_insert_eq, firstn_all.
  - intros d obj i n _. right. unfold dmu_read, memory_objects. by rewrite !words_of_bytes.
  - intros d obj. unfold dmu_free_range, memory_objects. cbn [m_objects]. by rewrite lookup_insert_eq.
Defined.

Definition fresh_object (d : memory) : Z := fresh ({[0]} ∪ dom (m_objects d) : gset Z).
Lemma fresh_object_new d : fresh_object d <> 0 /\ m_objects d !! fresh_object d = None.
Proof.
  pose proof (is_fresh ({[0]} ∪ dom (m_objects d) : gset Z)) as Hf. fold (fresh_object d) in Hf.
  rewrite not_elem_of_union, not_elem_of_singleton, not_elem_of_dom in Hf. done.
Qed.

#[local] Instance memory_mos : MosStore memory := {
  dmu_object_alloc d := (fresh_object d, mk_memory (<[fresh_object d := []]> (m_objects d)) (m_bonus d));
  dmu_bonus_hold d obj := if decide (is_Some (m_objects d !! obj)) then 0 else 2;
  dmu_bonus_write d obj smo := mk_memory (m_objects d) (<[obj := smo]> (m_bonus d))
}.

#[local] Instance memory_mos_laws : MosLaws memory.
Proof.
  assert (forall (m : gmap Z (list Z)) k v o, is_Some (m !! o) -> is_Some (<[k := v]> m !! o)) as Hins.
  { intros m k v o Ho. destruct (decide (o = k)) as [->|]; [rewrite lookup_insert_eq; by eexists|by rewrite lookup_insert_ne]. }
  refine {| mos_has d o := is_Some (m_objects d !! o); mos_bonus d o := m_bonus d !! o |}.
  - intros d. destruct (fresh_object_new d) as [H1 H2]. eexists _, _. split; [done|]. cbn. split; [done|]. rewrite H2, lookup_insert_eq.
    split; [by intros [? ?]|]. split; [by eexists|]. split; [done|]. intros o Ho. rewrite lookup_insert_ne; [done|]. intros <-. rewrite H2 in Ho. by destruct Ho.
  - intros d obj off buf o Hne. cbn. by rewrite lookup_insert_ne.
  - intros d obj off buf o. apply Hins.
  - intros d obj o Hne. cbn. by rewrite lookup_insert_ne.
  - intros d obj o. apply Hins.
  - intros d obj Ho. cbn. by rewrite decide_True.
  - done.
  - done.
  - intros d obj smo _. cbn. apply lookup_insert_eq.
Defined.

#[local] Instance trees : AvlIface avl_tree := avl_iface free_word 4096 example_junk.
#[local] Instance tree_laws : AvlLaws avl_tree 100 := avl_laws free_word 4096 example_junk 100 example_ptr example_cap free_word_fresh.

Lemma empty_root : os_abs (AvlLaws := tree_laws) (avl_create ∅) [].
Proof.
  split; [|split; [done|split; [by apply not_elem_of_nil|cbn; lia]]].
  exists Leaf. split; [|done]. split; try done; [by exists false|constructor].
Qed.

(** A metaslab of 64 units of 512 bytes, as [metaslab_init] makes it for a new
    pool, and once it is loaded. *)
Definition ex_opened : metaslab avl_tree := opened (avl_create ∅) (mk_smo 0 0 0) 0 32768 9.
Definition ex_ms : metaslab avl_tree := default ex_opened (sync_done_maps false ex_opened 0).
Definition ex_mos : memory := mk_memory {[1 := []]} ∅.
Definition ex_loaded : metaslab avl_tree := match ms_load false ex_ms ex_mos with Some (ms, _) => ms | None => ex_ms end.
Definition ex_list : txg_list := txg_list_create (gset_to_gmap txg_node_zero {[8]}).
Definition ex_vdev : vdev := mk_vdev 8 0 9 (mk_vs 0 0 0) 1 15 1 [8] ex_list 512 true.

Lemma ex_ms_geom : ms_geom (space_map_create (avl_create ∅) 0 32768 9 : ms_space_map avl_tree).
Proof. by repeat split. Qed.
Lemma ex_sm_geom : sm_geom (cap := 100) (space_map_create (avl_create ∅) 0 32768 9 : ms_space_map avl_tree).
Proof. by repeat split. Qed.

Lemma ex_log : log_ok ex_mos (space_map_create (avl_create ∅) 0 32768 9 : ms_space_map avl_tree) (mk_smo 0 0 0) [] (with_blk (fun _ => True) []).
Proof. split; try done. apply replays_nil. by intros o ?%Exists_nil. Qed.

Lemma ex_reach : reach false ex_vdev (avl_create ∅) 0 32768 9 ex_mos 1 ex_ms [].
Proof. eapply (reach_open false ex_vdev (avl_create ∅) 0 32768 9 ex_mos 0 (mk_smo 0 0 0) []); [exact ex_log|done|done|constructor|done|vm_compute; reflexivity]. Qed.

Lemma ex_reach_loaded : reach false ex_vdev (avl_create ∅) 0 32768 9 ex_mos 1 ex_loaded [].
Proof.
  eapply (reach_step false ex_vdev (avl_create ∅) 0 32768 9 ex_mos 1 ex_ms [] OLoad no_block _ _ _ _ 0); [exact ex_reach|constructor|vm_compute; reflexivity|constructor].
Qed.

Lemma metaslab_refines_blocks_witness :
  exists ms' mos' r txg' B', ms_step false ex_vdev ex_loaded ex_mos 1 no_block (OAlloc 1024 2) = Some (ms', mos', r) /\
    abs_step (D := memory) 0 (0 + 32768) (OAlloc 1024 2) r (1, []) (txg', B') /\ reach false ex_vdev (avl_create ∅) 0 32768 9 mos' txg' ms' B'.
Proof.
  refine (metaslab_refines_blocks false ex_vdev (avl_create ∅) 0 32768 9 empty_root ex_ms_geom ex_sm_geom ex_mos 1 ex_loaded [] ex_reach_loaded (OAlloc 1024 2) no_block _).
  apply may_alloc; [vm_compute; reflexivity|unfold in_flight; lia|lia|vm_compute; reflexivity].
Defined.

(** A history with a block in it. *)
Definition ex_block : blk := mk_blk 0 1024 (Some 2) Live.
Definition ex_allocated : metaslab avl_tree :=
  match ms_step false ex_vdev ex_loaded ex_mos 1 no_block (OAlloc 1024 2) with Some (ms, _, _) => ms | None => ex_loaded end.

Lemma ex_reach_allocated : reach false ex_vdev (avl_create ∅) 0 32768 9 ex_mos 1 ex_allocated [ex_block].
Proof.
  eapply (reach_step false ex_vdev (avl_create ∅) 0 32768 9 ex_mos 1 ex_loaded [] (OAlloc 1024 2) no_block _ _ _ _ 0);
    [exact ex_reach_loaded| |vm_compute; reflexivity|].
  - apply may_alloc; [vm_compute; reflexivity|unfold in_flight; lia|lia|vm_compute; reflexivity].
  - apply abs_alloc; [lia|lia|intros; apply Zmod_0_l|constructor].
Qed.

Lemma metaslab_history_safe_witness :
  disjoint_blks [ex_block] /\ Forall (fun b => 0 <= b_off b /\ b_off b + b_size b <= 0 + 32768) [ex_block] /\
  (sm_loaded (ms_map ex_allocated) = true ->
     exists M, sm_wf (cap := 100) (ms_map ex_allocated) M /\ forall o, covers M o <-> 0 <= o < 0 + 32768 /\ no_blk [ex_block] o) /\
  exists ws, (smo_object (ms_smo_syncing ex_allocated) <> 0 -> os_content ex_mos (smo_object (ms_smo_syncing ex_allocated)) = ws) /\
    replays 0 (0 + 32768) 9 ws (with_blk on_disk [ex_block]) (smo_alloc (ms_smo_syncing ex_allocated)).
Proof.
  exact (metaslab_history_safe false ex_vdev (avl_create ∅) 0 32768 9 empty_root ex_ms_geom ex_sm_geom ex_mos 1 ex_allocated [ex_block] ex_reach_allocated).
Defined.

Lemma ex_life : life (cap := 100) ex_mos 1 ex_allocated [ex_block].
Proof. apply (reach_life false ex_vdev (avl_create ∅) 0 32768 9 ex_mos 1 ex_allocated [ex_block] empty_root ex_ms_geom ex_sm_geom ex_reach_allocated). Qed.


Lemma ex_loaded_life : life (cap := 100) ex_mos 1 ex_loaded [].
Proof. apply (reach_life false ex_vdev (avl_create ∅) 0 32768 9 ex_mos 1 ex_loaded [] empty_root ex_ms_geom ex_sm_geom ex_reach_loaded). Qed.

Lemma ex_loaded_wf : exists L, sm_wf (cap := 100) (ms_map ex_loaded) L /\ forall o, covers L o <-> 0 <= o < 32768.
Proof.
  destruct ex_loaded_life as (M & AL & FR & ws & wss & A & As & Href). exists M.
  split; [apply (mm_map _ _ _ _ (mi_maps _ _ _ _ _ _ _ _ _ _ (rf_inv _ _ _ _ _ _ _ _ _ _ _ Href)))|]. intros o.
  pose proof (refines_free _ _ _ _ _ _ _ _ _ _ _ Href o) as Hf. unfold free_set in Hf.
  replace (sm_loaded (ms_map ex_loaded)) with true in Hf by (vm_compute; reflexivity). rewrite Hf.
  change (region (ms_map ex_loaded) o) with (0 <= o < 0 + 32768). split; [tauto|]. intros Ho. split; [lia|constructor].
Qed.


(** A group of this one metaslab. *)
Definition ex_tree : avl_tree := snd (os_alloc (avl_create ∅)).
Definition ex_group : group avl_tree avl_tree :=
  let mg := mk_mg ex_tree {[8 := with_weight ex_loaded 65536 true]} ex_vdev in default mg (group_avl_add mg 8).
Definition ex_pool : context avl_tree avl_tree memory := mk_cx ex_group (mk_vs 0 0 0) ex_list ex_mos.

Lemma ex_group_ok : group_ok ex_group [8].
Proof.
  destruct (alloc_law (AvlLaws := tree_laws) (avl_create ∅) [] empty_root ltac:(cbn; lia)) as (a & s' & E & Hout & _ & _ & _).
  assert (a = 8) as -> by (pose proof (f_equal fst E) as E1; vm_compute in E1; congruence).
  assert (ex_tree = s') as Es by (unfold ex_tree; by rewrite E). rewrite <-Es in Hout.
  destruct (group_avl_add_spec (mk_mg ex_tree {[8 := with_weight ex_loaded 65536 true]} ex_vdev) [] 8 (with_weight ex_loaded 65536 true) Hout)
    as (tree & l' & E1 & Habs & Hp & Ho).
  - split; [intros a Ha; by apply not_elem_of_nil in Ha|constructor|intros a b Ha; by apply not_elem_of_nil in Ha].
  - cbn. apply lookup_insert_eq.
  - apply not_elem_of_nil.
  - intros a Ha. by apply not_elem_of_nil in Ha.
  - apply Permutation_singleton_r in Hp as ->. unfold ex_group. rewrite E1. cbn [from_option]. split; [exact Habs|eapply ordered_ext; [|exact Ho]; intros a _; reflexivity|].
    intros a [ms E2]. cbn in E2. apply lookup_singleton_Some in E2 as [<- _]. by left.
Qed.

Lemma ex_pool_ok : pool_ok (cap := 100) ex_mos 1 ex_pool [8] (fun _ => []).
Proof.
  assert (mg_ms (cx_mg ex_pool) = {[8 := with_weight ex_loaded 65536 true]}) as Ems by (vm_compute; reflexivity).
  assert (mg_vd (cx_mg ex_pool) = ex_vdev) as Evd by (vm_compute; reflexivity).
  split; [exact ex_group_ok| | |done|].
  - intros a ms E. rewrite Ems in E. apply lookup_singleton_Some in E as [<- <-]. split; [by apply step_weight, ex_loaded_life|done| |vm_compute; discriminate].
    split; cbn [ms_weight with_weight]; [unfold is_u64; lia|right; vm_compute; discriminate|lia].
  - exists (repeat [] 4), (repeat [] 4). split; rewrite ?Evd.
    + apply txg_create_abs. intros p ->%elem_of_singleton. done.
    + apply txg_create_abs. intros p ->%elem_of_singleton. done.
    + intros a [ms E]. rewrite Ems in E. apply lookup_singleton_Some in E as [<- _]. vm_compute. reflexivity.
    + vm_compute. reflexivity.
    + intros a ms t E Ht Hu. rewrite Ems in E. apply lookup_singleton_Some in E as [<- <-]. exfalso. apply Hu.
      unfold in_flight in Ht. assert (t = 1 \/ t = 2 \/ t = 3) as [->|[->| ->]] by lia; split; vm_compute; reflexivity.
    + intros a ms E Hf. rewrite Ems in E. apply lookup_singleton_Some in E as [<- <-]. by destruct Hf.
    + intros a t Ha. exfalso. unfold slot in Ha. pose proof (txg_idx_lt t). by destruct (txg_idx t) as [|[|[|[|[]]]]]; try lia; apply not_elem_of_nil in Ha.
  - split; rewrite ?Evd; [split; [by exists []|done]|..]; rewrite Ems.
    + intros a ms E. apply lookup_singleton_Some in E as [<- <-]. by repeat split.
    + intros a ms E. apply lookup_singleton_Some in E as [<- <-]. split; [done|vm_compute; reflexivity..].
    + intros a ms E. apply lookup_singleton_Some in E as [<- <-]. by left.
    + intros a ms E. apply lookup_singleton_Some in E as [<- <-]. done.
    + intros a b ms ms' Ea Eb Hne. apply lookup_singleton_Some in Ea as [<- _], Eb as [<- _]. done.
Qed.

