(* ===== verification/VdevSync.v ===== *)
(** * Syncing a vdev ([vdev.c])

    [vdev_sync] syncs the metaslabs that a transaction group has changed,
    from the list of the group to that of the group before it;
    [vdev_sync_done] then makes them available again.  Together they take a
    pool from one group to the next. *)
From Stdlib Require Import ZArith Lia.
From stdpp Require Import base numbers list option gmap.
From S2P Require Import Prelude Avl AvlOps AvlSpec SpaceMap SpaceMapProof SpaceMapSync SpaceMapLog TxgList MetaslabFF Metaslab MetaslabProof MetaslabInv MetaslabCount MetaslabSync MetaslabGroup MetaslabAlloc MetaslabLife MetaslabPool MetaslabSpec Blkptr.

Section vdev.
Context {T TG D : Type} `{HI : AvlIface T} `{HIG : AvlIface TG} `{HD : ObjectStore D} `{HM : MosStore D}.
Context (zfs_recover : bool) (new_root : T).
Implicit Types (cx : context T TG D).

(** Assignments. *)
Definition with_list cx (tl : txg_list) : context T TG D := with_mg cx (with_vd (cx_mg cx) (with_ms_list (mg_vd (cx_mg cx)) tl)).
Definition with_mos cx (mos : D) : context T TG D := mk_cx (cx_mg cx) (cx_root cx) (cx_vdev_list cx) mos.

(** [while ((msp = txg_list_remove(&vd->vdev_ms_list, txg)) != NULL)]. *)
Fixpoint sync_loop (k : nat) cx (pass txg : Z) : option (context T TG D) :=
  match k with
  | O => None
  | S k =>
      let* (tl, msp) := txg_list_remove (vdev_ms_list (mg_vd (cx_mg cx))) txg in
      let cx := with_list cx tl in
      if negb (msp =? 0) then
        let* ms := mg_ms (cx_mg cx) !! msp in
        let* (ms, mos) := metaslab_sync zfs_recover (mg_vd (cx_mg cx)) pass ms (cx_mos cx) txg in
        let cx := with_mos (with_mg cx (set_ms (cx_mg cx) msp ms)) mos in
        let* (tl, _) := txg_list_add (vdev_ms_list (mg_vd (cx_mg cx))) msp (TXG_CLEAN txg) in
        sync_loop k (with_list cx tl) pass txg
      else Some cx
  end.

(** No list has more entries than there are objects. *)
Definition list_fuel cx : nat := S (size (tl_nodes (vdev_ms_list (mg_vd (cx_mg cx))))).

(** [vdev_sync] of a vdev that has its array of metaslab objects and no dirty
    time logs to sync. *)
Definition vdev_sync_metaslabs cx (pass txg : Z) : option (context T TG D) :=
  let* cx := sync_loop (list_fuel cx) cx pass txg in
  let* (tl, _) := txg_list_add (cx_vdev_list cx) (vdev_self (mg_vd (cx_mg cx))) (TXG_CLEAN txg) in
  Some (mk_cx (cx_mg cx) (cx_root cx) tl (cx_mos cx)).

(** [while (msp = txg_list_remove(&vd->vdev_ms_list, TXG_CLEAN(txg)))]. *)
Fixpoint sync_done_loop (k : nat) cx (txg : Z) : option (context T TG D) :=
  match k with
  | O => None
  | S k =>
      let* (tl, msp) := txg_list_remove (vdev_ms_list (mg_vd (cx_mg cx))) (TXG_CLEAN txg) in
      let cx := with_list cx tl in
      if negb (msp =? 0) then
        let* cx := metaslab_sync_done zfs_recover new_root cx msp txg in sync_done_loop k cx txg
      else Some cx
  end.

Definition vdev_sync_done cx (txg : Z) : option (context T TG D) := sync_done_loop (list_fuel cx) cx txg.
End vdev.

Section sync.
Context {T TG D : Type} `{HI : AvlIface T} {cap : nat} {HL : AvlLaws T cap} `{HIG : AvlIface TG} {gcap : nat} {HLG : AvlLaws TG gcap}.
Context `{HD : ObjectStore D} {HDL : ObjectStoreLaws D} `{HM : MosStore D} {HML : MosLaws D}.
Context (zfs_recover : bool) (new_root : T) (txg : Z).
Implicit Types (ms : metaslab T) (mg : group T TG) (B : list blk) (cx : context T TG D) (lm lv : list (list Z)) (mos : D).

(** ** What the maps of a group say of the blocks *)

Lemma slot_space ms X LX t : Forall2 (fun m L => sm_wf (cap := cap) m L /\ same_geom (ms_map ms) m) X LX -> length LX = 4%nat ->
  sm_space <$> (X !! txg_idx t) = Some 0 <-> slot [] LX t = [].
Proof using HL.
  intros HF Hl. destruct (slot_maps ms X LX t HF Hl) as (m & -> & Hwf & _). cbn. split.
  - intros [= Hz]. exact (wf_empty _ _ Hwf Hz).
  - intros E. rewrite E in Hwf. by rewrite (sf_space _ _ Hwf).
Qed.

(** The bytes of a block. *)
Lemma blk_byte mos ms B b : life (cap := cap) mos txg ms B -> b ∈ B -> in_blk b (b_off b).
Proof.
  intros (M & AL & FR & ws & wss & A & As & Href) Hb. pose proof (bo_range _ _ _ (rf_blocks _ _ _ _ _ _ _ _ _ _ _ Href)) as Hr.
  rewrite Forall_forall in Hr. destruct (Hr b Hb). unfold in_blk, range. lia.
Qed.

Lemma covers_none (L : list space_seg) sm (P : blk -> Prop) B : sm_wf (cap := cap) (sm : ms_space_map T) L -> (forall b, b ∈ B -> in_blk b (b_off b)) ->
  (forall o, covers L o <-> with_blk P B o) -> L = [] <-> forall b, b ∈ B -> ~ P b.
Proof.
  intros Hwf Hb Hc. split.
  - intros -> b Hin HP. apply (covers_nil (b_off b)), Hc, with_blk_in. exists b. auto.
  - intros Hn. apply (covers_empty sm L Hwf). intros o (b & Hin & HP & _)%Hc%with_blk_in. by apply (Hn b).
Qed.

Lemma untouched_blocks mos ms B t : life (cap := cap) mos txg ms B -> in_flight txg t ->
  untouched ms t <-> forall b, b ∈ B -> b_alloc b <> Some t /\ b_free b <> Freeing t.
Proof using HL.
  intros Hlife (j & Hj & ->)%in_flight_group. pose proof (fun b => blk_byte mos ms B b Hlife) as Hb.
  destruct Hlife as (M & AL & FR & ws & wss & A & As & [Hinv _ _ Ra Rf _ _]). pose proof (mi_maps _ _ _ _ _ _ _ _ _ _ Hinv) as Hm.
  unfold untouched. rewrite (slot_space ms _ _ _ (mm_alloc _ _ _ _ Hm) (mm_lenA _ _ _ _ Hm)), (slot_space ms _ _ _ (mm_free _ _ _ _ Hm) (mm_lenF _ _ _ _ Hm)).
  destruct (slot_maps ms _ _ (txg + Z.of_nat j) (mm_alloc _ _ _ _ Hm) (mm_lenA _ _ _ _ Hm)) as (ma & _ & Wa & _).
  destruct (slot_maps ms _ _ (txg + Z.of_nat j) (mm_free _ _ _ _ Hm) (mm_lenF _ _ _ _ Hm)) as (mf & _ & Wf & _).
  rewrite (covers_none _ _ (fun b => b_alloc b = Some (txg + Z.of_nat j)) B Wa Hb (fun o => Ra j o Hj)).
  rewrite (covers_none _ _ (fun b => b_free b = Freeing (txg + Z.of_nat j)) B Wf Hb (fun o => Rf j o Hj)). naive_solver.
Qed.

Lemma freed_blocks mos ms B : life (cap := cap) mos txg ms B ->
  sm_space <$> (ms_freemap ms !! txg_idx (txg + 3)) = Some 0 <-> forall b, b ∈ B -> b_free b <> Freed.
Proof using HL.
  intros Hlife. pose proof (fun b => blk_byte mos ms B b Hlife) as Hb.
  destruct Hlife as (M & AL & FR & ws & wss & A & As & [Hinv _ _ _ _ Rd _]). pose proof (mi_maps _ _ _ _ _ _ _ _ _ _ Hinv) as Hm.
  rewrite (slot_space ms _ _ _ (mm_free _ _ _ _ Hm) (mm_lenF _ _ _ _ Hm)).
  destruct (slot_maps ms _ _ (txg + 3) (mm_free _ _ _ _ Hm) (mm_lenF _ _ _ _ Hm)) as (mf & _ & Wf & _).
  apply (covers_none _ _ (fun b => b_free b = Freed) B Wf Hb Rd).
Qed.

Lemma sync_blk_id B : (forall b, b ∈ B -> b_alloc b <> Some txg /\ b_free b <> Freeing txg) -> sync_blk txg <$> B = B.
Proof.
  induction B as [|b B IH]; intros Hn; [done|]. cbn [fmap list_fmap]. rewrite IH by (intros b' Hb'; apply Hn; by right). f_equal.
  destruct (Hn b ltac:(by left)) as [Ha Hf]. unfold sync_blk. rewrite decide_False by done. destruct b as [o s a [|t|]]; cbn in *; try done.
  rewrite decide_False by congruence. done.
Qed.

Lemma sync_blk_done B b : b ∈ sync_blk txg <$> B -> b_alloc b <> Some txg /\ b_free b <> Freeing txg.
Proof. intros (b0 & -> & _)%list_elem_of_fmap. rewrite sync_alloc, sync_freeing. naive_solver. Qed.

(** ** The lists *)

Lemma remove_slot tl ls t p rest : txg_abs tl ls -> slot [] ls t = p :: rest ->
  exists tl' ls', txg_list_remove tl t = Some (tl', p) /\ dom (tl_nodes tl') = dom (tl_nodes tl) /\ txg_abs tl' ls' /\ slot [] ls' t = rest /\
    forall t', txg_idx t' <> txg_idx t -> slot [] ls' t' = slot [] ls t'.
Proof.
  intros Habs E. pose proof (slot_lookup [] ls t (ta_lists _ _ Habs)) as El. rewrite E in El.
  destruct (remove_abs tl ls t _ Habs El) as (tl' & Er & Ed & Habs'). eexists tl', _. split; [exact Er|]. split; [done|]. split; [exact Habs'|]. unfold slot. split.
  - by rewrite list_lookup_insert_eq by (rewrite (ta_lists _ _ Habs); apply txg_idx_lt).
  - intros t' Hne. by rewrite list_lookup_insert_ne.
Qed.

Lemma remove_none tl ls t : txg_abs tl ls -> slot [] ls t = [] -> exists tl' ls', txg_list_remove tl t = Some (tl', 0) /\
  dom (tl_nodes tl') = dom (tl_nodes tl) /\ txg_abs tl' ls' /\ forall t', slot [] ls' t' = slot [] ls t'.
Proof.
  intros Habs E. pose proof (slot_lookup [] ls t (ta_lists _ _ Habs)) as El. rewrite E in El.
  destruct (remove_abs tl ls t _ Habs El) as (tl' & Er & Ed & Habs'). eexists tl', _. split; [exact Er|]. split; [done|]. split; [exact Habs'|].
  intros t'. cbn [tail]. by rewrite list_insert_id.
Qed.

Lemma slot_clean {X} (d : X) l : slot d l (TXG_CLEAN txg) = slot d l (txg + 3).
Proof. unfold slot. by rewrite txg_idx_clean. Qed.

Lemma clean_idx t : in_flight txg t -> txg_idx (txg + 3) <> txg_idx t.
Proof.
  unfold in_flight. intros Ht Eq. replace t with (txg + (t - txg)) in Eq by lia. pose proof (txg_idx_inj txg 3 (t - txg) ltac:(lia) ltac:(lia) Eq). lia.
Qed.

(** ** One metaslab *)

(** The object of the metaslab's log, before and after [metaslab_sync]. *)
Record new_log mos mos' ms ms' (array : Z) : Prop := {
  nl_ne : smo_object (ms_smo_syncing ms') <> 0;
  nl_old : smo_object (ms_smo_syncing ms) <> 0 -> smo_object (ms_smo_syncing ms') = smo_object (ms_smo_syncing ms);
  nl_new : smo_object (ms_smo_syncing ms) = 0 -> ~ mos_has mos (smo_object (ms_smo_syncing ms'));
  nl_kept : others_kept mos mos' (smo_object (ms_smo_syncing ms')) array;
  nl_smo : ms_smo ms' = ms_smo ms
}.

(** It is no object of another metaslab. *)
Lemma new_log_other mos mos' mg msp ms ms' a msa o : logs_ok mos mg -> mg_ms mg !! msp = Some ms -> mg_ms mg !! a = Some msa -> a <> msp ->
  new_log mos mos' ms ms' (vdev_ms_array (mg_vd mg)) -> o = smo_object (ms_smo msa) \/ o = smo_object (ms_smo_syncing msa) -> mos_has mos o \/ o = 0 ->
  o <> smo_object (ms_smo_syncing ms') /\ o <> vdev_ms_array (mg_vd mg).
Proof.
  intros [[L1 L1'] L2 LI L3 L4 L5] E Ea Hne [N1 N2 N3 N4 N5] Ho Hhas.
  assert (o = 0 \/ o = smo_object (ms_smo_syncing msa)) as Ho' by (destruct Ho as [->| ->]; [by apply (L3 a)|by right]).
  split; [|destruct Ho' as [->| ->]; [done|by apply (L4 a)]]. destruct Ho' as [->| ->]; [done|].
  destruct (decide (smo_object (ms_smo_syncing ms) = 0)) as [Ez|Hnz].
  - intros Eq. destruct Hhas as [Hhas|Hz]; [|congruence]. rewrite Eq in Hhas. by apply N3.
  - rewrite (N2 Hnz). intros Eq. by apply (L5 msp a ms msa E Ea).
Qed.

Lemma sync_other mos mos' mg msp ms ms' a msa Ba : logs_ok mos mg -> mg_ms mg !! msp = Some ms -> mg_ms mg !! a = Some msa -> a <> msp ->
  new_log mos mos' ms ms' (vdev_ms_array (mg_vd mg)) -> life (cap := cap) mos txg msa Ba -> life (cap := cap) mos' txg msa Ba.
Proof.
  intros Hlogs E Ea Hne Hnew Hlife. eapply step_mos; [exact Hlife|]. intros o Ho Hhas.
  destruct (new_log_other mos mos' mg msp ms ms' a msa o Hlogs E Ea Hne Hnew Ho ltac:(by left)) as [Hn1 Hn2].
  destruct (nl_kept _ _ _ _ _ Hnew o Hhas) as [? Hc]. split; [done|by apply Hc].
Qed.

Lemma sync_logs mos mos' mg msp ms ms' : logs_ok mos mg -> mg_ms mg !! msp = Some ms -> ms_map ms' = ms_map ms ->
  new_log mos mos' ms ms' (vdev_ms_array (mg_vd mg)) ->
  (forall a msa, mg_ms mg !! a = Some msa -> exists Ba, life (cap := cap) mos txg msa Ba) -> logs_ok mos' (set_ms mg msp ms').
Proof.
  intros Hlogs E Em Hnew Hlife. pose proof Hlogs as [[L1 L1'] L2 LI L3 L4 L5]. pose proof Hnew as [N1 N2 N3 N4 N5].
  assert (forall a msa, mg_ms mg !! a = Some msa -> a <> msp -> smo_object (ms_smo_syncing msa) <> smo_object (ms_smo_syncing ms')) as Hoth.
  { intros a msa Ea Hne. apply (new_log_other mos mos' mg msp ms ms' a msa _ Hlogs E Ea Hne Hnew); [by right|].
    destruct (Hlife a msa Ea) as (Ba & M & AL & FR & ws & wss & A & As & Href).
    destruct (decide (smo_object (ms_smo_syncing msa) = 0)) as [|Hnz]; [by right|left].
    by apply (lo_has _ _ _ _ _ (mi_log _ _ _ _ _ _ _ _ _ _ (rf_inv _ _ _ _ _ _ _ _ _ _ _ Href))). }
  assert (forall a msa, <[msp := ms']> (mg_ms mg) !! a = Some msa -> (a = msp /\ msa = ms') \/ (a <> msp /\ mg_ms mg !! a = Some msa)) as Hcase.
  { intros a msa. destruct (decide (a = msp)) as [->|Hne]; [rewrite lookup_insert_eq; intros [= <-]; by left|rewrite lookup_insert_ne by done; by right]. }
  split; cbn.
  - split; [|done]. by apply N4.
  - intros a msa [[-> ->]|[_ Ea]]%Hcase; [|by apply (L2 a)]. destruct (L2 msp ms E) as [P1 P2 P3 P4]. split; by rewrite Em.
  - intros a msa [[-> ->]|[_ Ea]]%Hcase; [|by apply LI]. eapply at_index_geom; [by apply (LI msp ms)|by rewrite Em|done|done].
  - intros a msa [[-> ->]|[_ Ea]]%Hcase; [|by apply (L3 a)]. rewrite N5. destruct (L3 msp ms E) as [?|Eq]; [by left|].
    destruct (decide (smo_object (ms_smo_syncing ms) = 0)) as [Ez|Hnz]; [left; congruence|right]. by rewrite (N2 Hnz).
  - intros a msa [[-> ->]|[_ Ea]]%Hcase; [|by apply (L4 a)]. destruct (decide (smo_object (ms_smo_syncing ms) = 0)) as [Ez|Hnz].
    + intros Eq. apply (N3 Ez). by rewrite Eq.
    + rewrite (N2 Hnz). by apply (L4 msp).
  - intros a b msa msb [[-> ->]|[Na Ea]]%Hcase [[-> ->]|[Nb Eb]]%Hcase Hne Hnz; [done|..].
    + intros Eq. by apply (Hoth b msb Eb Nb).
    + by apply (Hoth a msa Ea Na).
    + by apply (L5 a b msa msb).
Qed.

(** ** [vdev_sync] *)

(** [pool_ok] with its lists. *)
Record pool_at cx (l : list Z) (Bs : Z -> list blk) lm lv : Prop := {
  pa_group : group_ok (cx_mg cx) l;
  pa_ready : ready (cap := cap) (cx_mos cx) txg (cx_mg cx) Bs;
  pa_dirty : dirty_ok txg cx lm lv;
  pa_logs : logs_ok (cx_mos cx) (cx_mg cx)
}.

Lemma group_ok_same mg mg' l : group_ok mg l -> mg_metaslab_tree mg' = mg_metaslab_tree mg -> mg_ms mg' = mg_ms mg -> group_ok mg' l.
Proof. intros [T1 T2 T3] Et Em. split; [by rewrite Et| |by rewrite Em]. eapply ordered_ext; [|exact T2]. intros a _. by rewrite Em. Qed.

Lemma logs_ok_same mos mg mg' tl : logs_ok mos mg -> mg_vd mg' = with_ms_list (mg_vd mg) tl -> mg_ms mg' = mg_ms mg -> logs_ok mos mg'.
Proof.
  intros Hl Ev Em. eapply logs_ext; [|exact Hl]. split; [by exists tl|]. intros a ms E. rewrite Em in E. by exists ms.
Qed.

Lemma synced_weight ms ms' B : weight_ok ms B -> ms_weight ms' = ms_weight ms -> ms_map ms' = ms_map ms -> weight_ok ms' (sync_blk txg <$> B).
Proof.
  intros [W1 W2 W3] Ew Em. split; rewrite ?Ew, ?Em; [done|done|]. intros Hact. destruct (W3 Hact) as [? [?|[? Hall]]]; (split; [done|]); [by left|right].
  split; [done|]. rewrite Forall_fmap. eapply Forall_impl; [exact Hall|]. intros b Hb. apply sync_alloc_none. by left.
Qed.

(** The lists, once the metaslab is off the one of [txg] and on the one of the
    group before. *)
Lemma sync_dirty cx cx' lm lm1 lm2 lv msp rest Bs Bs' mos' : dirty_ok txg cx lm lv -> slot [] lm txg = msp :: rest ->
  slot [] lm1 txg = rest -> (forall t', txg_idx t' <> txg_idx txg -> slot [] lm1 t' = slot [] lm t') ->
  msp ∈ slot [] lm2 (txg + 3) -> (forall t' q, q ∈ slot [] lm1 t' -> q ∈ slot [] lm2 t') -> (forall t' q, q ∈ slot [] lm2 t' -> q ∈ slot [] lm1 t' \/ q = msp) ->
  txg_abs (vdev_ms_list (mg_vd (cx_mg cx'))) lm2 -> dom (tl_nodes (vdev_ms_list (mg_vd (cx_mg cx')))) = dom (tl_nodes (vdev_ms_list (mg_vd (cx_mg cx)))) ->
  cx_vdev_list cx' = cx_vdev_list cx -> vdev_self (mg_vd (cx_mg cx')) = vdev_self (mg_vd (cx_mg cx)) ->
  (forall a, a <> msp -> mg_ms (cx_mg cx') !! a = mg_ms (cx_mg cx) !! a) -> is_Some (mg_ms (cx_mg cx) !! msp) ->
  (forall a ms, mg_ms (cx_mg cx) !! a = Some ms -> life (cap := cap) (cx_mos cx) txg ms (Bs a)) ->
  (forall ms, mg_ms (cx_mg cx') !! msp = Some ms -> life (cap := cap) mos' txg ms Bs') -> Bs' = sync_blk txg <$> Bs msp -> is_Some (mg_ms (cx_mg cx') !! msp) ->
  dirty_ok txg cx' lm2 lv.
Proof using HL.
  intros [D1 D2 D3 D4 D5 D6 D7] El E1 Hs1 Hmsp H12 H21 Habs Hdom Elv Eid Hoth Hin Hlife Hlife' -> Hin'.
  assert (forall a t, in_flight txg t -> a <> msp -> a ∈ slot [] lm t -> a ∈ slot [] lm2 t) as Hkeep.
  { intros a t Ht Hne Ha. apply H12. destruct (decide (t = txg)) as [->|Hnt].
    - rewrite E1. rewrite El in Ha. by apply elem_of_cons in Ha as [?|?].
    - rewrite Hs1; [done|]. intros Eq. apply Hnt. apply (in_flight_idx txg t txg Ht); [unfold in_flight; lia|done]. }
  assert (txg_idx (txg + 3) <> txg_idx txg) as Hci by (apply clean_idx; unfold in_flight; lia).
  split; [done|by rewrite Elv|..].
  - intros a Ha. rewrite Hdom. apply D3. destruct (decide (a = msp)) as [->|Hne]; [done|]. by rewrite Hoth in Ha.
  - by rewrite Eid, Elv.
  - intros a ms t E Ht Hu. unfold listed. rewrite Eid. destruct (decide (a = msp)) as [->|Hne].
    + destruct Hin as [ms0 E0]. rewrite (untouched_blocks _ _ _ _ (Hlife' ms E) Ht) in Hu.
      assert (t <> txg) as Hnt by (intros ->; apply Hu; apply sync_blk_done).
      destruct (D5 msp ms0 t E0 Ht) as [L1 L2].
      { rewrite (untouched_blocks _ _ _ _ (Hlife msp ms0 E0) Ht). intros Hn. apply Hu. intros b (b0 & -> & Hb0)%list_elem_of_fmap.
        rewrite sync_alloc, sync_freeing. destruct (Hn b0 Hb0). naive_solver. }
      split; [|done]. apply H12. rewrite Hs1; [done|]. intros Eq. apply Hnt. apply (in_flight_idx txg t txg Ht); [unfold in_flight; lia|done].
    + rewrite Hoth in E by done. destruct (D5 a ms t E Ht Hu) as [L1 L2]. split; [by apply Hkeep|done].
  - intros a ms E Hf. destruct (decide (a = msp)) as [->|Hne]; [done|]. rewrite Hoth in E by done. apply H12. rewrite Hs1 by done. by apply (D6 a ms).
  - intros a t [Ha| ->]%H21; [|done]. assert (a ∈ slot [] lm t) as Ha'.
    { destruct (decide (txg_idx t = txg_idx txg)) as [Et|Et]; [|by rewrite <-Hs1]. unfold slot in *. rewrite Et in *. rewrite El. rewrite E1 in Ha. by right. }
    destruct (decide (a = msp)) as [->|Hne]; [done|]. rewrite Hoth by done. by apply (D7 a t).
Qed.

Lemma sync_iter cx l Bs lm lv pass msp rest : pool_at cx l Bs lm lv -> slot [] lm txg = msp :: rest ->
  (forall ms, mg_ms (cx_mg cx) !! msp = Some ms -> smo_objsize (ms_smo_syncing ms) < 2 ^ 62) ->
  exists cx' lm', (forall k, sync_loop zfs_recover (S k) cx pass txg = sync_loop zfs_recover k cx' pass txg) /\
    pool_at cx' l (fun a => if decide (a = msp) then sync_blk txg <$> Bs a else Bs a) lm' lv /\ slot [] lm' txg = rest /\
    (forall a, a <> msp -> mg_ms (cx_mg cx') !! a = mg_ms (cx_mg cx) !! a) /\ is_Some (mg_ms (cx_mg cx') !! msp).
Proof using HL HML HLG.
  intros [Hok Hready Hdirty Hlogs] El Hsz. pose proof Hdirty as [D1 D2 D3 D4 D5 D6 D7].
  destruct (D7 msp txg) as [ms E]; [rewrite El; by left|].
  destruct (remove_slot _ _ txg msp rest D1 El) as (tl1 & lm1 & Er & Ed1 & A1 & E1 & Hs1).
  pose proof (D3 msp ltac:(by eexists)) as Hnode. rewrite <-Ed1 in Hnode.
  assert (msp <> 0) as Hnz by (apply elem_of_dom in Hnode as [tn Hn]; by apply (tw_nodes _ (ta_wf _ _ A1) msp tn)).
  destruct (Hready msp ms E) as [Hlife Hg Hw Hsh].
  destruct (step_sync zfs_recover (with_ms_list (mg_vd (cx_mg cx)) tl1) (cx_mos cx) txg ms (Bs msp) pass Hlife (Hsz ms E) (proj1 (lg_array _ _ Hlogs)))
    as (ms' & mos' & Es & Hlife' & Em & N1 & _ & N5 & Ew & Eg & N2 & N3 & N4).
  assert (new_log (cx_mos cx) mos' ms ms' (vdev_ms_array (mg_vd (cx_mg cx)))) as Hnew by (by split).
  destruct (add_slot tl1 lm1 msp (TXG_CLEAN txg) A1 Hnode) as (tl2 & b & lm2 & Ea & Ed2 & A2 & I2 & S2 & R2 & U2). rewrite slot_clean in I2.
  set (cx1 := with_list cx tl1). set (cx2 := with_mos (with_mg cx1 (set_ms (cx_mg cx1) msp ms')) mos').
  exists (with_list cx2 tl2), lm2. split.
  { intros k. cbn [sync_loop]. rewrite Er. cbn [mbind option_bind]. rewrite (proj2 (Z.eqb_neq _ _) Hnz). cbn [negb]. fold cx1.
    change (mg_ms (cx_mg cx1)) with (mg_ms (cx_mg cx)). rewrite E. cbn [mbind option_bind]. change (cx_mos cx1) with (cx_mos cx).
    change (mg_vd (cx_mg cx1)) with (with_ms_list (mg_vd (cx_mg cx)) tl1). rewrite Es. cbn [mbind option_bind]. fold cx2.
    change (vdev_ms_list (mg_vd (cx_mg cx2))) with tl1. rewrite Ea. done. }
  assert (forall a, a <> msp -> mg_ms (cx_mg (with_list cx2 tl2)) !! a = mg_ms (cx_mg cx) !! a) as Hoth by (intros a Hne; cbn; by rewrite lookup_insert_ne).
  assert (mg_ms (cx_mg (with_list cx2 tl2)) !! msp = Some ms') as E' by apply lookup_insert_eq.
  split; [|split; [|split; [exact Hoth|by eexists]]].
  - split.
    + eapply (group_ok_same (set_ms (cx_mg cx) msp ms')); [|done|done]. eapply group_ok_set; [done|exact E|]. unfold key_of. by rewrite Ew, Em.
    + intros a msa Ha. destruct (decide (a = msp)) as [->|Hne].
      * rewrite E' in Ha. injection Ha as <-. split; [done|by rewrite Eg|by eapply synced_weight|by rewrite Em].
      * rewrite Hoth in Ha by done. destruct (Hready a msa Ha) as [Hl Hga Hwa Hsa]. split; [|done..]. by eapply (sync_other _ _ _ msp ms ms').
    + eapply (sync_dirty cx (with_list cx2 tl2) lm lm1 lm2 lv msp rest Bs _ mos' Hdirty El E1 Hs1 I2 S2 R2 A2); [cbn; congruence|done|done|exact Hoth|by eexists| | |done|by eexists].
      * intros a msa Ha. apply (Hready a msa Ha).
      * intros msa Ha. rewrite E' in Ha. by injection Ha as <-.
    + eapply (logs_ok_same _ (set_ms (cx_mg cx) msp ms')); [|reflexivity|done].
      eapply sync_logs; [exact Hlogs|exact E|exact Em|exact Hnew|]. intros a msa Ha. exists (Bs a). apply (Hready a msa Ha).
  - rewrite U2; [done|]. rewrite txg_idx_clean. intros Eq. symmetry in Eq. revert Eq. apply clean_idx. unfold in_flight. lia.
Qed.

Lemma pool_at_ext cx l Bs Bs' lm lv : pool_at cx l Bs lm lv -> (forall a, is_Some (mg_ms (cx_mg cx) !! a) -> Bs' a = Bs a) -> pool_at cx l Bs' lm lv.
Proof. intros [H1 H2 H3 H4] Hext. split; try done. intros a ms E. rewrite Hext by (by eexists). by apply H2. Qed.

Lemma sync_loop_spec l lv pass rest : forall k cx Bs lm, pool_at cx l Bs lm lv -> slot [] lm txg = rest -> NoDup rest -> (length rest < k)%nat ->
  (forall a ms, a ∈ rest -> mg_ms (cx_mg cx) !! a = Some ms -> smo_objsize (ms_smo_syncing ms) < 2 ^ 62) ->
  exists cx' lm', sync_loop zfs_recover k cx pass txg = Some cx' /\
    pool_at cx' l (fun a => if decide (a ∈ rest) then sync_blk txg <$> Bs a else Bs a) lm' lv /\ slot [] lm' txg = [].
Proof using HL HML HLG.
  induction rest as [|msp rest IH]; intros k cx Bs lm Hp El Hnd Hk Hsz; (destruct k as [|k]; [cbn in Hk; lia|]).
  - pose proof (pa_dirty _ _ _ _ _ Hp) as [D1 D2 D3 D4 D5 D6 D7]. destruct (remove_none _ _ txg D1 El) as (tl & lm' & Er & Ed & Habs & Hs).
    cbn [sync_loop]. rewrite Er. cbn [mbind option_bind Z.eqb negb]. exists (with_list cx tl), lm'. split; [done|]. split; [|by rewrite Hs].
    destruct Hp as [P1 P2 _ P4]. split.
    + by eapply group_ok_same.
    + intros a ms E. rewrite decide_False by apply not_elem_of_nil. by apply P2.
    + split; cbn; [done|done|by rewrite Ed|done|..].
      * intros a ms t E Ht Hu. destruct (D5 a ms t E Ht Hu) as [L1 L2]. split; [by rewrite Hs|done].
      * intros a ms E Hf. rewrite Hs. by apply (D6 a ms).
      * intros a t Ha. rewrite Hs in Ha. by apply (D7 a t).
    + by eapply logs_ok_same.
  - destruct (sync_iter cx l Bs lm lv pass msp rest Hp El) as (cx1 & lm1 & Es & Hp1 & El1 & Hoth & Hin); [intros ms E; apply (Hsz msp ms); [by left|done]|].
    apply NoDup_cons in Hnd as [Hn Hnd]. cbn [length] in Hk.
    destruct (IH k cx1 _ lm1 Hp1 El1 Hnd) as (cx2 & lm2 & E2 & Hp2 & El2); [lia| |].
    { intros a ms Ha E. apply (Hsz a ms); [by right|]. rewrite Hoth in E; [done|]. by intros ->. }
    exists cx2, lm2. split; [by rewrite Es|]. split; [|done]. eapply pool_at_ext; [exact Hp2|]. intros a _. cbn beta.
    destruct (decide (a = msp)) as [->|Hne].
    + rewrite decide_True by (by left). by rewrite decide_False by done.
    + destruct (decide (a ∈ rest)) as [Ha|Ha]; [by rewrite decide_True by (by right)|]. rewrite decide_False; [done|]. by intros [?|?]%elem_of_cons.
Qed.

Lemma list_bound tl ls t : txg_abs tl ls -> NoDup (slot [] ls t) /\ (length (slot [] ls t) <= size (tl_nodes tl))%nat.
Proof.
  intros Habs. pose proof (ta_holds _ _ Habs _ _ (slot_lookup [] ls t (ta_lists _ _ Habs))) as Hl. pose proof (hl_nodup _ _ _ Hl) as Hnd. split; [done|].
  rewrite <-size_dom, <-(size_list_to_set (C := gset Z)) by exact Hnd. apply subseteq_size. intros p Hp. apply elem_of_list_to_set in Hp. by eapply holds_dom.
Qed.

Lemma pool_at_ok cx l Bs : pool_ok (cap := cap) (cx_mos cx) txg cx l Bs <-> exists lm lv, pool_at cx l Bs lm lv.
Proof.
  split.
  - intros [P1 P2 (lm & lv & P3) _ P5]. by exists lm, lv.
  - intros (lm & lv & [P1 P2 P3 P4]). split; try done. by exists lm, lv.
Qed.

Lemma vdev_sync_spec cx l Bs pass : pool_ok (cap := cap) (cx_mos cx) txg cx l Bs ->
  (forall a ms, mg_ms (cx_mg cx) !! a = Some ms -> smo_objsize (ms_smo_syncing ms) < 2 ^ 62) ->
  exists cx', vdev_sync_metaslabs zfs_recover cx pass txg = Some cx' /\ pool_ok (cap := cap) (cx_mos cx') txg cx' l (fun a => sync_blk txg <$> Bs a).
Proof using HL HML HLG.
  intros (lm & lv & Hp)%pool_at_ok Hsz. pose proof (pa_dirty _ _ _ _ _ Hp) as Hd. destruct (list_bound _ _ txg (di_ms _ _ _ _ Hd)) as [Hnd Hlen].
  destruct (sync_loop_spec l lv pass _ (list_fuel cx) cx Bs lm Hp eq_refl Hnd) as (cx1 & lm1 & E1 & Hp1 & El1); [unfold list_fuel; lia|intros a ms _; apply Hsz|].
  unfold vdev_sync_metaslabs. rewrite E1. cbn [mbind option_bind]. pose proof (pa_dirty _ _ _ _ _ Hp1) as [D1 D2 D3 D4 D5 D6 D7].
  destruct (add_slot _ _ _ (TXG_CLEAN txg) D2 D4) as (tl & b & lv' & -> & Ed & Habs & _ & Hsub & _ & _). cbn [mbind option_bind]. eexists. split; [done|].
  apply pool_at_ok. exists lm1, lv'. destruct Hp1 as [P1 P2 _ P4]. split; cbn; [done| | |done].
  - intros a ms E. specialize (P2 a ms E). cbn beta in P2. destruct (decide (a ∈ slot [] lm txg)) as [Ha|Ha]; [done|].
    rewrite sync_blk_id; [done|]. assert (in_flight txg txg) as Ht by (unfold in_flight; lia).
    apply (untouched_blocks _ _ _ _ (mr_life _ _ _ _ P2) Ht). apply dec_stable. intros Hu. destruct (D5 a ms txg E Ht Hu) as [L1 _].
    rewrite El1 in L1. by apply not_elem_of_nil in L1.
  - split; cbn; [done|done|done|by rewrite Ed| |done|done]. intros a ms t E Ht Hu. destruct (D5 a ms t E Ht Hu) as [L1 L2]. split; [done|by apply Hsub].
Qed.
End sync.

Section done.
Context {T TG D : Type} `{HI : AvlIface T} {cap : nat} {HL : AvlLaws T cap} `{HIG : AvlIface TG} {gcap : nat} {HLG : AvlLaws TG gcap}.
Context `{HD : ObjectStore D} {HDL : ObjectStoreLaws D} `{HM : MosStore D} {HML : MosLaws D}.
Context (zfs_recover : bool) (new_root : T).
Implicit Types (ms : metaslab T) (mg : group T TG) (B : list blk) (cx : context T TG D) (lm lv : list (list Z)) (mos : D) (txg : Z).

(** ** Weighing a metaslab *)

(** A metaslab whose log has all of its region is full, of blocks on disk. *)
Lemma full_log mos txg ms B : life (cap := cap) mos txg ms B -> smo_alloc (ms_smo_syncing ms) = sm_size (ms_map ms) ->
  (sm_loaded (ms_map ms) = true -> sm_space (ms_map ms) = 0) /\ Forall (fun b => b_alloc b = None) B.
Proof using HL.
  intros Hlife Efull. destruct (life_log mos txg ms B Hlife) as (ws & [_ Hr _ _ _] & _ & _). pose proof (life_geom mos txg ms B Hlife) as [[G1 G2 G3 G4 G5] _ _].
  assert (0 <= sm_shift (ms_map ms)) as Hsh.
  { destruct Hlife as (M & AL & FR & ws' & wss & A & As & Href). apply (sf_geom _ _ (mm_map _ _ _ _ (mi_maps _ _ _ _ _ _ _ _ _ _ (rf_inv _ _ _ _ _ _ _ _ _ _ _ Href)))). }
  assert (sm_start (ms_map ms) + sm_size (ms_map ms) - sm_start (ms_map ms) = sm_size (ms_map ms)) as Esz by lia.
  destruct (replays_bound (sm_start (ms_map ms)) (sm_start (ms_map ms) + sm_size (ms_map ms)) _ Hsh ws _ _ ltac:(lia) ltac:(by rewrite Esz) Hr) as [_ Hall].
  specialize (Hall ltac:(lia)). split.
  - intros El. apply dec_stable. intros Hnz. destruct (space_unit mos txg ms B Hlife El Hnz) as (o & _ & O1 & O2 & O3).
    assert (0 < 2 ^ sm_shift (ms_map ms)) by (apply Z.pow_pos_nonneg; lia).
    destruct (proj1 (with_blk_in _ _ _) (Hall o ltac:(lia))) as (b & Hb & _ & Hbo). specialize (O3 o ltac:(unfold range; lia)).
    unfold no_blk in O3. rewrite Forall_forall in O3. by apply (O3 b).
  - pose proof (life_blocks mos txg ms B Hlife) as Hbl. apply Forall_forall. intros b Hb.
    pose proof (bo_range _ _ _ Hbl) as Hrg. rewrite Forall_forall in Hrg. destruct (Hrg b Hb) as [R1 R2 R3 _ _].
    destruct (proj1 (with_blk_in _ _ _) (Hall (b_off b) ltac:(lia))) as (b' & Hb' & [Ha _] & Hbo').
    rewrite (blocks_unique _ _ _ b b' (b_off b) Hbl Hb Hb' ltac:(unfold in_blk, range; lia) Hbo'). done.
Qed.

Lemma weigh_spec mos txg vd ms B : life (cap := cap) mos txg ms B -> ms_smo ms = ms_smo_syncing ms -> ms_place vd ms -> is_u64 (ms_weight ms) ->
  (2 ^ 62 <= ms_weight ms -> sm_loaded (ms_map ms) = true) ->
  exists w, metaslab_weight vd ms = Some w /\ weight_ok (with_weight ms w true) B /\ (SPA_MINBLOCKSIZE - 1 <= w \/ w = 0).
Proof using HL.
  intros Hlife Esmo Hpl Hu Hact. destruct (life_log mos txg ms B Hlife) as (ws & [_ Hr _ _ _] & _ & _). pose proof (life_geom mos txg ms B Hlife) as [[G1 G2 G3 G4 G5] _ _].
  assert (0 <= sm_shift (ms_map ms)) as Hsh by (pose proof (mp_shift _ _ Hpl) as H; unfold SPA_MINBLOCKSHIFT in H; lia).
  assert (sm_start (ms_map ms) + sm_size (ms_map ms) - sm_start (ms_map ms) = sm_size (ms_map ms)) as Esz by lia.
  destruct (replays_bound (sm_start (ms_map ms)) (sm_start (ms_map ms) + sm_size (ms_map ms)) _ Hsh ws _ _ ltac:(lia) ltac:(by rewrite Esz) Hr) as [Hb _]. rewrite Esz in Hb.
  destruct (metaslab_weight_spec vd ms Hpl Hu) as (base & E & Hsp & Hbase & Hz); [by rewrite Esmo| |].
  { rewrite Esmo, Zminus_mod, G5, (replays_units _ _ _ _ _ _ Hsh Hr). done. }
  pose proof (Z.mod_pos_bound (ms_weight ms) (2 ^ 62) ltac:(lia)) as Hm. pose proof (Z.div_mod (ms_weight ms) (2 ^ 62) ltac:(lia)) as Hdm.
  set (q := ms_weight ms / 2 ^ 62) in *. assert (0 <= q < 4) as Hq by (unfold q, is_u64 in *; split; [apply Z.div_pos; lia|apply Z.div_lt_upper_bound; lia]).
  assert (base + (ms_weight ms - ms_weight ms mod 2 ^ 62) = base + q * 2 ^ 62) as Ew by lia. rewrite Ew in E.
  exists (base + q * 2 ^ 62). split; [done|]. change SPA_MINBLOCKSIZE with 512 in *.
  split; [|destruct (decide (q = 0)) as [->|]; lia]. split; cbn [ms_weight with_weight ms_map].
  - unfold is_u64. lia.
  - rewrite Z_mod_plus_full, Z.mod_small by lia. change SPA_MINBLOCKSIZE with 512. lia.
  - intros Ha. assert (2 ^ 62 <= ms_weight ms) as Ha' by nia. split; [by apply Hact|]. rewrite Z_mod_plus_full, Z.mod_small by lia.
    change SPA_MINBLOCKSIZE with 512. destruct Hz as [Hz|]; [right|by left].
    destruct (full_log mos txg ms B Hlife) as [F1 F2]; [cbv zeta in Hsp; rewrite Esmo in Hsp; lia|]. split; [by apply F1, Hact|done].
Qed.

(** ** [metaslab_sync_done] *)

(** A change of the space allocated touches the statistics only. *)
Lemma space_update_spec cx d : vdev_ms_count (mg_vd (cx_mg cx)) <> 0 ->
  exists vs root, vdev_space_update cx 0 d true = Some (mk_cx (with_vd (cx_mg cx) (with_stats (mg_vd (cx_mg cx)) vs)) root (cx_vdev_list cx) (cx_mos cx)).
Proof.
  intros Hc. unfold vdev_space_update. cbn [Z.land Z.eqb]. rewrite (proj2 (Z.eqb_neq _ _) Hc). cbn [negb].
  destruct (negb (vdev_normal _)); by eexists _, _.
Qed.

Record done_one cx cx' (l l' : list Z) (msp : Z) ms ms' : Prop := {
  do_group : group_ok (cx_mg cx') l';
  do_perm : l' ≡ₚ l;
  do_ms : mg_ms (cx_mg cx') = <[msp := ms']> (mg_ms (cx_mg cx));
  do_smo : ms_smo ms' = ms_smo_syncing ms /\ ms_smo_syncing ms' = ms_smo_syncing ms;
  do_geom : same_geom (ms_map ms) (ms_map ms');
  do_rest : cx_mos cx' = cx_mos cx /\ cx_vdev_list cx' = cx_vdev_list cx;
  do_vd : exists vs, mg_vd (cx_mg cx') = with_stats (mg_vd (cx_mg cx)) vs
}.

Definition not_freed B : list blk := filter (fun b => b_free b <> Freed) B.

Lemma metaslab_sync_done_spec cx l txg msp ms B : group_ok (cx_mg cx) l -> mg_ms (cx_mg cx) !! msp = Some ms ->
  ms_ready (cap := cap) (cx_mos cx) txg ms B -> ms_place (mg_vd (cx_mg cx)) ms ->
  (forall b, b ∈ B -> b_alloc b <> Some txg /\ b_free b <> Freeing txg) ->
  exists cx' l' ms', metaslab_sync_done zfs_recover new_root cx msp txg = Some cx' /\ done_one cx cx' l l' msp ms ms' /\
    ms_ready (cap := cap) (cx_mos cx) (txg + 1) ms' (not_freed B).
Proof using HL HML HLG.
  intros Hok E [Hlife Hg [W1 W2 W3] Hsh] Hpl Hnone. unfold metaslab_sync_done. rewrite E. cbn [mbind option_bind].
  assert (untouched ms txg) as [U1 U2] by (apply (untouched_blocks txg _ _ _ _ Hlife); [unfold in_flight; lia|done]).
  destruct (ms_allocmap ms !! txg_idx txg) as [am|] eqn:Eam; [|done]. destruct (ms_freemap ms !! txg_idx txg) as [fm|] eqn:Efm; [|done].
  cbn in U1, U2. injection U1 as U1. injection U2 as U2.
  assert (exists fdm, ms_freemap ms !! txg_idx (TXG_CLEAN txg) = Some fdm /\ sm_size fdm <> 0) as (fdm & -> & Hfd).
  { pose proof (life_geom _ _ _ _ Hlife) as [[G1 _ _ _ _] _ _]. destruct Hlife as (M & AL & FR & ws & wss & A & As & Href).
    pose proof (mi_maps _ _ _ _ _ _ _ _ _ _ (rf_inv _ _ _ _ _ _ _ _ _ _ _ Href)) as Hm.
    destruct (slot_maps ms _ _ (TXG_CLEAN txg) (mm_free _ _ _ _ Hm) (mm_lenF _ _ _ _ Hm)) as (m & Em & _ & (_ & Gm & _)). exists m. split; [done|]. lia. }
  cbn [mbind option_bind]. rewrite (proj2 (Z.eqb_neq _ _) Hfd). cbn [mbind option_bind].
  destruct (space_update_spec cx (smo_alloc (ms_smo_syncing ms) - smo_alloc (ms_smo ms))) as (vs & root & ->); [pose proof (mp_index _ _ Hpl); lia|].
  cbn [mbind option_bind]. rewrite Eam. cbn [mbind option_bind]. rewrite U1. cbn [Z.eqb]. rewrite Efm. cbn [mbind option_bind]. rewrite U2. cbn [Z.eqb].
  destruct (step_done zfs_recover (cx_mos cx) txg ms B Hlife Hnone) as (ms1 & -> & Hlife1 & Hge & S1 & S2 & Ew & Eg & Hld). cbn [mbind option_bind cx_mg].
  set (mg1 := with_vd (cx_mg cx) (with_stats (mg_vd (cx_mg cx)) vs)).
  assert (ms_place (mg_vd mg1) ms1) as Hpl1 by (destruct Hge as (G1 & G2 & G3), Hpl as [P1 P2 P3 P4]; split; cbn; by rewrite ?G1, ?G2, ?G3).
  destruct (weigh_spec (cx_mos cx) (txg + 1) (mg_vd mg1) ms1 _ Hlife1) as (w & -> & Hw & Hwr); [congruence|done|by rewrite Ew| |].
  { rewrite Ew. intros Hact. rewrite Hld; [by apply W3|]. rewrite (is_active_spec ms W1). by apply Z.leb_le. }
  cbn [mbind option_bind]. assert (group_ok mg1 l) as Hok1 by (by eapply group_ok_same).
  assert (group_ok (set_ms mg1 msp ms1) l) as Hok2 by (eapply group_ok_set; [done|exact E|]; unfold key_of; rewrite Ew; by destruct Hge as (-> & _)).
  destruct (group_sort_spec (set_ms mg1 msp ms1) l msp w ms1 Hok2) as (tree & l' & -> & Hp & Hok3); [apply lookup_insert_eq|by rewrite Eg|done|].
  cbn [mbind option_bind]. eexists _, l', (with_weight ms1 w true). split; [done|]. split.
  - split; [exact Hok3|done|cbn; apply insert_insert_eq|done|done|done|by exists vs].
  - split; [by apply step_weight|done|done|cbn [ms_map with_weight]; by destruct Hge as (_ & _ & ->)].
Qed.

Lemma done_logs cx cx' l l' msp ms ms' mos : logs_ok mos (cx_mg cx) -> mg_ms (cx_mg cx) !! msp = Some ms -> done_one cx cx' l l' msp ms ms' ->
  logs_ok mos (cx_mg cx').
Proof.
  intros [L1 L2 LI L3 L4 L5] E [_ _ Em [S1 S2] (G1 & G2 & G3) _ [vs Ev]].
  assert (forall a msa, mg_ms (cx_mg cx') !! a = Some msa -> exists ms0, mg_ms (cx_mg cx) !! a = Some ms0 /\ ms_smo_syncing msa = ms_smo_syncing ms0 /\
    (ms_smo msa = ms_smo ms0 \/ ms_smo msa = ms_smo_syncing ms0) /\ same_geom (ms_map ms0) (ms_map msa)) as Hall.
  { intros a msa. rewrite Em. destruct (decide (a = msp)) as [->|Hne].
    - rewrite lookup_insert_eq. intros [= <-]. exists ms. split; [done|]. split; [done|]. split; [by right|done].
    - rewrite lookup_insert_ne by done. intros Ea. exists msa. split; [done|]. split; [done|]. split; [by left|done]. }
  split; rewrite ?Ev; cbn [vdev_ms_array with_stats].
  - done.
  - intros a msa Ea. destruct (Hall a msa Ea) as (ms0 & E0 & _ & _ & (K1 & K2 & K3)). destruct (L2 a ms0 E0) as [P1 P2 P3 P4]. split; cbn; by rewrite ?K1, ?K2, ?K3.
  - intros a msa Ea. destruct (Hall a msa Ea) as (ms0 & E0 & _ & _ & G). by eapply at_index_geom; [apply (LI a ms0 E0)|..].
  - intros a msa Ea. destruct (Hall a msa Ea) as (ms0 & E0 & -> & [->| ->] & _); [by apply (L3 a)|by right].
  - intros a msa Ea. destruct (Hall a msa Ea) as (ms0 & E0 & -> & _). by apply (L4 a).
  - intros a b msa msb Ea Eb. destruct (Hall a msa Ea) as (ms1 & E1 & -> & _), (Hall b msb Eb) as (ms2 & E2 & -> & _). by apply (L5 a b).
Qed.

(** ** [vdev_sync_done] *)

(** While [todo] is left on the list: those metaslabs are at the group [txg],
    the others at the next one. *)
Record done_at cx (l : list Z) (Bs : Z -> list blk) txg (todo : list Z) lm lv : Prop := {
  da_group : group_ok (cx_mg cx) l;
  da_todo : forall a ms, a ∈ todo -> mg_ms (cx_mg cx) !! a = Some ms -> ms_ready (cap := cap) (cx_mos cx) txg ms (Bs a);
  da_done : forall a ms, a ∉ todo -> mg_ms (cx_mg cx) !! a = Some ms -> ms_ready (cap := cap) (cx_mos cx) (txg + 1) ms (not_freed (Bs a));
  da_list : txg_abs (vdev_ms_list (mg_vd (cx_mg cx))) lm;
  da_left : slot [] lm (txg + 3) = todo;
  da_vlist : txg_abs (cx_vdev_list cx) lv;
  da_nodes : forall a, is_Some (mg_ms (cx_mg cx) !! a) -> a ∈ dom (tl_nodes (vdev_ms_list (mg_vd (cx_mg cx))));
  da_id : vdev_self (mg_vd (cx_mg cx)) ∈ dom (tl_nodes (cx_vdev_list cx));
  da_mem : forall a t, a ∈ slot [] lm t -> is_Some (mg_ms (cx_mg cx) !! a);
  da_dirty : forall a t b, is_Some (mg_ms (cx_mg cx) !! a) -> txg < t <= txg + 2 -> b ∈ Bs a -> b_alloc b = Some t \/ b_free b = Freeing t ->
    listed (mg_vd (cx_mg cx)) lm lv a t;
  da_logs : logs_ok (cx_mos cx) (cx_mg cx)
}.

Lemma done_iter cx l Bs txg msp rest lm lv : done_at cx l Bs txg (msp :: rest) lm lv -> NoDup (msp :: rest) ->
  (forall b, b ∈ Bs msp -> b_alloc b <> Some txg /\ b_free b <> Freeing txg) ->
  exists cx' l' lm', (forall k, sync_done_loop zfs_recover new_root (S k) cx txg = sync_done_loop zfs_recover new_root k cx' txg) /\
    l' ≡ₚ l /\ done_at cx' l' Bs txg rest lm' lv /\ forall a, is_Some (mg_ms (cx_mg cx') !! a) -> is_Some (mg_ms (cx_mg cx) !! a).
Proof using HL HML HLG.
  intros [A1 A2 A3 A4 A5 A6 A7 A8 A9 A10 A11] Hnd Hnone. apply NoDup_cons in Hnd as [Hn _].
  rewrite <-(slot_clean txg) in A5. destruct (remove_slot _ _ _ msp rest A4 A5) as (tl1 & lm1 & Er & Ed & Habs & El1 & Hs1).
  destruct (A9 msp (TXG_CLEAN txg)) as [ms E]; [rewrite A5; by left|]. pose proof (A7 msp ltac:(by eexists)) as Hnode.
  assert (msp <> 0) as Hnz by (apply elem_of_dom in Hnode as [tn Htn]; by apply (tw_nodes _ (ta_wf _ _ A4) msp tn)).
  set (cx1 := with_list cx tl1). assert (group_ok (cx_mg cx1) l) as Hok1 by (by eapply group_ok_same).
  assert (logs_ok (cx_mos cx) (cx_mg cx1)) as Hlogs1 by (by eapply logs_ok_same).
  destruct (metaslab_sync_done_spec cx1 l txg msp ms (Bs msp) Hok1 E (A2 msp ms ltac:(by left) E)) as (cx2 & l' & ms' & E2 & Hone & Hr); [by apply (lg_place _ _ Hlogs1 msp)|done|].
  exists cx2, l', lm1. split.
  { intros k. cbn [sync_done_loop]. rewrite Er. cbn [mbind option_bind]. rewrite (proj2 (Z.eqb_neq _ _) Hnz). cbn [negb]. fold cx1. by rewrite E2. }
  pose proof Hone as [O1 O2 O3 O4 O5 [O6 O7] [vs O8]]. split; [done|].
  assert (forall a, is_Some (mg_ms (cx_mg cx2) !! a) <-> is_Some (mg_ms (cx_mg cx) !! a)) as Hsome.
  { intros a. rewrite O3. destruct (decide (a = msp)) as [->|Hne]; [rewrite lookup_insert_eq, E; split; by eexists|by rewrite lookup_insert_ne]. }
  split; [|intros a; by apply Hsome]. rewrite slot_clean in El1. split; rewrite ?O6, ?O7, ?O8; try done.
  - intros a msa Ha. rewrite O3, lookup_insert_ne by (by intros ->). intros Ea. apply A2; [by right|done].
  - intros a msa Ha. rewrite O3. destruct (decide (a = msp)) as [->|Hne]; [rewrite lookup_insert_eq; by intros [= <-]|].
    rewrite lookup_insert_ne by done. apply A3. by intros [?|?]%elem_of_cons.
  - intros a Ha%Hsome. change (a ∈ dom (tl_nodes tl1)). rewrite Ed. by apply A7.
  - intros a t Ha. apply Hsome. destruct (decide (txg_idx t = txg_idx (TXG_CLEAN txg))) as [Et|Et].
    + apply (A9 a (TXG_CLEAN txg)). rewrite A5. right. unfold slot in *. rewrite Et, txg_idx_clean in Ha. by rewrite El1 in Ha.
    + rewrite Hs1 in Ha by done. by apply (A9 a t).
  - intros a t b Ha%Hsome Ht Hb Hd. destruct (A10 a t b Ha Ht Hb Hd) as [L1 L2]. split; [|exact L2]. rewrite Hs1; [done|].
    rewrite txg_idx_clean. intros Eq. apply (clean_idx txg t); [unfold in_flight; lia|done].
  - by eapply (done_logs cx1).
Qed.

Lemma done_loop_spec Bs txg lv rest : forall k cx l lm, done_at cx l Bs txg rest lm lv -> NoDup rest -> (length rest < k)%nat ->
  (forall a b, a ∈ rest -> b ∈ Bs a -> b_alloc b <> Some txg /\ b_free b <> Freeing txg) ->
  exists cx' l' lm', sync_done_loop zfs_recover new_root k cx txg = Some cx' /\ l' ≡ₚ l /\ done_at cx' l' Bs txg [] lm' lv /\
    forall a, is_Some (mg_ms (cx_mg cx') !! a) -> is_Some (mg_ms (cx_mg cx) !! a).
Proof using HL HML HLG.
  induction rest as [|msp rest IH]; intros k cx l lm Hat Hnd Hk Hnone; (destruct k as [|k]; [cbn in Hk; lia|]).
  - destruct Hat as [A1 A2 A3 A4 A5 A6 A7 A8 A9 A10 A11]. rewrite <-(slot_clean txg) in A5.
    destruct (remove_none _ _ _ A4 A5) as (tl & lm' & Er & Ed & Habs & Hs). cbn [sync_done_loop]. rewrite Er. cbn [mbind option_bind Z.eqb negb].
    exists (with_list cx tl), l, lm'. split; [done|]. split; [done|]. split; [|done]. split; cbn; try done.
    + by eapply group_ok_same.
    + by rewrite Hs, <-(slot_clean txg).
    + by rewrite Ed.
    + intros a t. rewrite Hs. apply A9.
    + intros a t b Ha Ht Hb Hd. unfold listed. rewrite Hs. by apply (A10 a t b).
    + by eapply logs_ok_same.
  - destruct (done_iter cx l Bs txg msp rest lm lv Hat Hnd) as (cx1 & l1 & lm1 & E1 & Hp1 & Hat1 & Hin1); [intros b; apply Hnone; by left|].
    apply NoDup_cons in Hnd as [_ Hnd]. cbn [length] in Hk.
    destruct (IH k cx1 l1 lm1 Hat1 Hnd) as (cx2 & l2 & lm2 & E2 & Hp2 & Hat2 & Hin2); [lia|intros a b Ha; apply Hnone; by right|].
    exists cx2, l2, lm2. split; [by rewrite E1|]. split; [by etrans|]. split; [done|]. intros a Ha. by apply Hin1, Hin2.
Qed.

Lemma not_freed_id B : (forall b, b ∈ B -> b_free b <> Freed) -> not_freed B = B.
Proof. apply filter_keep. Qed.

(** The metaslabs that are not on the list have nothing to be done. *)
Lemma done_start cx l Bs txg lm lv : pool_at txg (cap := cap) cx l Bs lm lv ->
  (forall a b, is_Some (mg_ms (cx_mg cx) !! a) -> b ∈ Bs a -> b_alloc b <> Some txg /\ b_free b <> Freeing txg) ->
  done_at cx l Bs txg (slot [] lm (txg + 3)) lm lv.
Proof using HL HML.
  intros [P1 P2 [D1 D2 D3 D4 D5 D6 D7] P4] Hnone. split; try done.
  - intros a ms _ E. by apply P2.
  - intros a ms Hn E. destruct (P2 a ms E) as [Hlife Hg Hw Hsh].
    assert (forall b, b ∈ Bs a -> b_free b <> Freed) as Hnf by (apply (freed_blocks _ _ _ _ Hlife); apply dec_stable; intros Hf; by apply Hn, (D6 a ms)).
    rewrite (not_freed_id _ Hnf). split; [|done..]. apply step_skip; [done|]. intros b Hb. destruct (Hnone a b ltac:(by eexists) Hb). auto.
  - intros a t b [ms E] Ht Hb Hd. assert (in_flight txg t) as Hfl by (unfold in_flight; lia). apply (D5 a ms t E Hfl).
    rewrite (untouched_blocks _ _ _ _ _ (mr_life _ _ _ _ (P2 a ms E)) Hfl). intros Hn. destruct (Hn b Hb). naive_solver.
Qed.

(** Once the list is empty, the pool is at the next group. *)
Lemma done_end cx l Bs txg lm lv : done_at cx l Bs txg [] lm lv ->
  (forall a b t, is_Some (mg_ms (cx_mg cx) !! a) -> b ∈ Bs a -> b_alloc b = Some t \/ b_free b = Freeing t -> in_flight txg t) ->
  pool_at (txg + 1) (cap := cap) cx l (fun a => not_freed (Bs a)) lm lv.
Proof using HL.
  intros [A1 A2 A3 A4 A5 A6 A7 A8 A9 A10 A11] Hfl. split; try done.
  - intros a ms E. apply A3; [apply not_elem_of_nil|done].
  - assert (forall a ms, mg_ms (cx_mg cx) !! a = Some ms -> life (cap := cap) (cx_mos cx) (txg + 1) ms (not_freed (Bs a))) as Hlife
      by (intros a ms E; apply (A3 a ms (not_elem_of_nil _) E)).
    split; try done.
    + intros a ms t E Ht Hu. unfold listed. apply dec_stable. intros Hn. apply Hu, (untouched_blocks _ _ _ _ _ (Hlife a ms E) Ht).
      intros b [_ Hb]%list_elem_of_filter. assert (is_Some (mg_ms (cx_mg cx) !! a)) as Ha by (by eexists). pose proof (fun Hr Hx => Hn (A10 a t b Ha Hr Hb Hx)) as Hd. unfold in_flight in *.
      split; intros Eb; (apply Hd; [|by auto]); pose proof (Hfl a b t Ha Hb ltac:(by auto)) as Hr; lia.
    + intros a ms E Hf. destruct Hf. apply (freed_blocks _ _ _ _ (Hlife a ms E)). intros b [Hb _]%list_elem_of_filter. done.
Qed.

Lemma flight_blocks mos txg ms B b t : life (cap := cap) mos txg ms B -> b ∈ B -> b_alloc b = Some t \/ b_free b = Freeing t -> in_flight txg t.
Proof.
  intros Hlife Hb Hd. destruct (life_blocks _ _ _ _ Hlife) as [_ _ Ha Hf _]. rewrite Forall_forall in Ha, Hf.
  destruct Hd as [Hd|Hd]; [by apply (Ha b)|by apply (Hf b)].
Qed.

Lemma vdev_sync_done_spec cx l Bs txg : pool_ok (cap := cap) (cx_mos cx) txg cx l Bs ->
  (forall a b, is_Some (mg_ms (cx_mg cx) !! a) -> b ∈ Bs a -> b_alloc b <> Some txg /\ b_free b <> Freeing txg) ->
  exists cx' l', vdev_sync_done zfs_recover new_root cx txg = Some cx' /\ l' ≡ₚ l /\
    pool_ok (cap := cap) (cx_mos cx') (txg + 1) cx' l' (fun a => not_freed (Bs a)).
Proof using HL HML HLG.
  intros (lm & lv & Hp)%pool_at_ok Hnone. pose proof (done_start cx l Bs txg lm lv Hp Hnone) as Hat.
  destruct (list_bound _ _ (txg + 3) (da_list _ _ _ _ _ _ _ Hat)) as [Hnd Hlen].
  destruct (done_loop_spec Bs txg lv _ (list_fuel cx) cx l lm Hat Hnd) as (cx' & l' & lm' & E & Hpm & Hat' & Hin); [unfold list_fuel; lia| |].
  { intros a b Ha. apply Hnone. by apply (da_mem _ _ _ _ _ _ _ Hat a (txg + 3)). }
  exists cx', l'. split; [done|]. split; [done|]. apply pool_at_ok. exists lm', lv. apply done_end; [done|].
  intros a b t Ha Hb Hd. destruct (Hin a Ha) as [ms E0]. eapply flight_blocks; [|exact Hb|exact Hd]. apply (pa_ready _ _ _ _ _ _ Hp a ms E0).
Qed.

(** ** Undoing an allocation *)

Lemma free_now_map ms off size t ms' : ms_free_now zfs_recover ms off size t = Some ms' ->
  exists m sm, ms' = with_map (with_maps ms (<[txg_idx t := m]> (ms_allocmap ms)) (ms_freemap ms)) sm.
Proof.
  unfold ms_free_now. destruct (ms_allocmap ms !! txg_idx t) as [f|]; [|done]. cbn [mbind option_bind].
  destruct (space_map_remove _ _ _ _) as [m|]; [|done]. cbn [mbind option_bind]. destruct (space_map_free _ _ _ _ _) as [sm|]; [|done].
  cbn [mbind option_bind]. intros [= <-]. by exists m, sm.
Qed.

(** Freeing a block at once, by [metaslab_free_dva]: its allocation in the same
    group is undone. *)
Lemma free_now_spec mos txg cx l Bs msp B1 b B2 t : pool_ok (cap := cap) mos txg cx l Bs -> is_Some (mg_ms (cx_mg cx) !! msp) -> Bs msp = B1 ++ b :: B2 ->
  b_free b = Live -> b_alloc b = Some t ->
  exists cx', metaslab_free_at zfs_recover cx msp (b_off b) (b_size b) t true = Some cx' /\ grown cx cx' /\
    pool_ok (cap := cap) mos txg cx' l (with_blocks Bs msp (B1 ++ B2)).
Proof using HLG HML HL.
  intros [Hok Hready (lm & lv & Hdirty) Emos Hlogs] [ms E] EB Hlive Ea. unfold metaslab_free_at. rewrite E. cbn [mbind option_bind].
  destruct (Hready msp ms E) as [Hlife Hg [U1 U2 U3] Hsh]. rewrite EB in Hlife, U3. assert (b ∈ B1 ++ b :: B2) as Hin by (rewrite elem_of_app, elem_of_cons; tauto).
  pose proof (alloc_loaded mos txg ms _ b t Hlife Hin Ea) as El.
  destruct (step_rollback zfs_recover mos txg ms B1 b B2 t Hlife Hlive Ea El) as (ms' & Efree & Hlife' & Hge & El').
  destruct (free_now_map _ _ _ _ _ Efree) as (m & sm & E'). rewrite Efree. cbn [mbind option_bind]. eexists. split; [done|].
  assert (in_flight txg t) as Ht by (apply (flight_blocks mos txg ms _ b t Hlife Hin); by left).
  assert (ms_weight ms' = ms_weight ms /\ ms_group ms' = ms_group ms) as [Ew Eg] by (by rewrite E').
  eapply pool_set; try done.
  - intros a msa _. apply Hready.
  - split; [apply list_grown_refl|]. split; [done|]. split; [done|]. split; [done|]. split; [done|]. by destruct (mg_vd (cx_mg cx)).
  - apply (di_dirty _ _ _ _ Hdirty msp ms t E Ht). rewrite (untouched_blocks _ _ _ _ _ Hlife Ht). intros Hn. by destruct (Hn b Hin).
  - split; [unfold key_of; destruct Hge as (-> & _); by rewrite Ew| |by rewrite E'|done]. intros t' Hne. rewrite E'. cbn. by rewrite list_lookup_insert_ne.
  - split; [done|by rewrite Eg| |by destruct Hge as (_ & _ & ->)]. split; rewrite ?Ew; [done|done|]. intros Hact.
    destruct (U3 Hact) as [_ [Hb|[_ Hall]]]; [split; [done|by left]|]. rewrite Forall_forall in Hall. specialize (Hall b Hin). congruence.
Qed.
End done.

Section history.
Context {T TG D : Type} `{HI : AvlIface T} {cap : nat} {HL : AvlLaws T cap} `{HIG : AvlIface TG} {gcap : nat} {HLG : AvlLaws TG gcap}.
Context `{HD : ObjectStore D} {HDL : ObjectStoreLaws D} `{HM : MosStore D} {HML : MosLaws D}.
Context (zfs_recover : bool) (new_root : T).
Implicit Types (cx : context T TG D) (Bs : Z -> list blk) (txg : Z).

(** ** The operations of a vdev *)

(** What the pool asks of a vdev: space for a block, to free a block of the
    metaslab [msp] in a group, to undo an allocation, to claim space that the
    intent log has used, and to sync the oldest group. *)
Inductive vd_op :=
  | VAlloc (size txg min_distance : Z) (dvas : list dva)
  | VFree (msp : Z) (b : blk) (txg : Z)
  | VUndo (msp : Z) (b : blk) (txg : Z)
  | VClaim (msp offset size txg : Z)
  | VSync (pass : Z).

Definition vd_step cx txg (op : vd_op) : option (context T TG D * Z) :=
  match op with
  | VAlloc size t min_distance dvas => metaslab_group_alloc zfs_recover cx size t min_distance dvas
  | VFree msp b t => let* cx := metaslab_free_at zfs_recover cx msp (b_off b) (b_size b) t false in Some (cx, 0)
  | VUndo msp b t => let* cx := metaslab_free_at zfs_recover cx msp (b_off b) (b_size b) t true in Some (cx, 0)
  | VClaim msp offset size t => metaslab_claim_at zfs_recover cx msp offset size t
  | VSync pass =>
      let* cx := vdev_sync_metaslabs zfs_recover cx pass txg in
      let* cx := vdev_sync_done zfs_recover new_root cx txg in Some (cx, 0)
  end.

(** When: the sizes are whole sectors, the groups are in flight, only a live
    block is freed, no earlier than it is allocated, and the logs have not
    outgrown their objects; what is claimed is free, in a metaslab that may be
    activated. *)
Inductive vd_may cx txg Bs : vd_op -> Prop :=
  | vm_alloc size t min_distance dvas : sized (cx_mg cx) size -> SPA_MINBLOCKSIZE <= size < 2 ^ 62 -> in_flight txg t ->
      vd_may cx txg Bs (VAlloc size t min_distance dvas)
  | vm_free msp b t : is_Some (mg_ms (cx_mg cx) !! msp) -> b ∈ Bs msp -> b_free b = Live -> in_flight txg t ->
      (forall t0, b_alloc b = Some t0 -> t0 <= t) -> vd_may cx txg Bs (VFree msp b t)
  | vm_undo msp b t : is_Some (mg_ms (cx_mg cx) !! msp) -> b ∈ Bs msp -> b_free b = Live -> b_alloc b = Some t -> vd_may cx txg Bs (VUndo msp b t)
  | vm_claim msp ms offset size t : mg_ms (cx_mg cx) !! msp = Some ms -> 2 ^ 62 <= ms_weight ms \/ SPA_MINBLOCKSIZE <= ms_weight ms -> in_flight txg t ->
      range_ok (ms_map ms) offset size -> (forall o, range offset size o -> no_blk (Bs msp) o) -> vd_may cx txg Bs (VClaim msp offset size t)
  | vm_sync pass : (forall a ms, mg_ms (cx_mg cx) !! a = Some ms -> smo_objsize (ms_smo_syncing ms) < 2 ^ 62) -> vd_may cx txg Bs (VSync pass).

(** What it does to the blocks of the metaslabs. *)
Inductive vd_abs cx txg Bs : vd_op -> Z -> Z -> (Z -> list blk) -> Prop :=
  | vb_alloc size t min_distance dvas msp ms r : mg_ms (cx_mg cx) !! msp = Some ms -> found ms (Bs msp) r size ->
      vd_abs cx txg Bs (VAlloc size t min_distance dvas) r txg (with_block Bs msp (mk_blk r size (Some t) Live))
  | vb_full size t min_distance dvas : vd_abs cx txg Bs (VAlloc size t min_distance dvas) (2 ^ 64 - 1) txg Bs
  | vb_free msp B1 b B2 t : Bs msp = B1 ++ b :: B2 ->
      vd_abs cx txg Bs (VFree msp b t) 0 txg (with_blocks Bs msp (B1 ++ mk_blk (b_off b) (b_size b) (b_alloc b) (Freeing t) :: B2))
  | vb_undo msp B1 b B2 t : Bs msp = B1 ++ b :: B2 -> vd_abs cx txg Bs (VUndo msp b t) 0 txg (with_blocks Bs msp (B1 ++ B2))
  | vb_claim msp offset size t : vd_abs cx txg Bs (VClaim msp offset size t) 0 txg (with_block Bs msp (mk_blk offset size (Some t) Live))
  | vb_claim_error msp offset size t error : error <> 0 -> vd_abs cx txg Bs (VClaim msp offset size t) error txg Bs
  | vb_sync pass : vd_abs cx txg Bs (VSync pass) 0 (txg + 1) (fun a => not_freed (sync_blk txg <$> Bs a)).

(** C2: Every operation the pool may ask of a vdev -- allocate, free, undo an
    allocation, claim, sync a transaction group and make its metaslabs available
    again, in any order -- runs to its end without failing an assertion, does
    to the blocks of the metaslabs what the specification says, and leaves a
    vdev of which the same holds: no space is given out that a block has,
    every metaslab a group has changed is on the list of that group when it is
    synced, and after the sync the space freed by that group, and no other, is
    free. *)
Theorem vdev_refines_blocks cx txg (l : list Z) Bs (op : vd_op) (Hpool : pool_ok (cap := cap) (cx_mos cx) txg cx l Bs) (Hmay : vd_may cx txg Bs op) :
  exists cx' r txg' l' Bs', vd_step cx txg op = Some (cx', r) /\ vd_abs cx txg Bs op r txg' Bs' /\ l' ≡ₚ l /\
    pool_ok (cap := cap) (cx_mos cx') txg' cx' l' Bs'.
Proof using HL HML HLG.
  destruct Hmay as [size t md dvas Hsized Hsz Ht|msp b t Hin Hb Hlive Ht Hbirth|msp b t Hin Hb Hlive Ha|msp ms off size t E Hw Ht Hr Hno|pass Hsz]; cbn [vd_step].
  - destruct (group_alloc_spec zfs_recover (mg_vd (cx_mg cx)) (cx_mos cx) txg cx l Bs size t md dvas Hpool Hsized Hsz Ht) as (cx' & r & l' & -> & Hp & _ & Hr).
    destruct Hr as [(-> & Hok & _)|(_ & msp & ms & E & Hf & Hok)]; pose proof (po_mos _ _ _ _ _ Hok) as Em; rewrite <-Em in Hok.
    + eexists _, _, txg, l', Bs. split; [done|]. by split; [constructor|].
    + eexists _, _, txg, l', _. split; [done|]. by split; [by econstructor|].
  - apply list_elem_of_split in Hb as (B1 & B2 & EB).
    destruct (free_at_spec zfs_recover (mg_vd (cx_mg cx)) (cx_mos cx) txg cx l Bs msp B1 b B2 t Hpool Hin EB Hlive Ht Hbirth) as (cx' & -> & _ & Hok).
    pose proof (po_mos _ _ _ _ _ Hok) as Em; rewrite <-Em in Hok. eexists _, _, txg, l, _. split; [done|]. by split; [by econstructor|].
  - apply list_elem_of_split in Hb as (B1 & B2 & EB).
    destruct (free_now_spec zfs_recover (cx_mos cx) txg cx l Bs msp B1 b B2 t Hpool Hin EB Hlive Ha) as (cx' & -> & _ & Hok).
    pose proof (po_mos _ _ _ _ _ Hok) as Em; rewrite <-Em in Hok. eexists _, _, txg, l, _. split; [done|]. by split; [by econstructor|].
  - destruct (claim_at_spec zfs_recover (mg_vd (cx_mg cx)) (cx_mos cx) txg cx l Bs msp ms off size t Hpool E Hw Ht Hr Hno) as (cx' & err & l' & -> & Hp & _ & Hres).
    destruct Hres as [[Herr Hok]|[-> Hok]]; pose proof (po_mos _ _ _ _ _ Hok) as Em; rewrite <-Em in Hok; eexists _, _, txg, l', _; (split; [done|]); by split; [by constructor|].
  - destruct (vdev_sync_spec zfs_recover txg cx l Bs pass Hpool Hsz) as (cx1 & -> & Hok1). cbn [mbind option_bind].
    destruct (vdev_sync_done_spec zfs_recover new_root cx1 l _ txg Hok1) as (cx2 & l' & -> & Hp & Hok2); [intros a b _; apply sync_blk_done|].
    eexists _, _, _, l', _. split; [done|]. by split; [constructor|].
Qed.
End history.

#[local] Existing Instances memory_objects memory_objects_laws memory_mos memory_mos_laws trees tree_laws.

Lemma vdev_refines_blocks_witness :
  exists cx' r txg' l' Bs', vd_step false (avl_create ∅) ex_pool 1 (VSync 1) = Some (cx', r) /\ vd_abs ex_pool 1 (fun _ => []) (VSync 1) r txg' Bs' /\
    l' ≡ₚ [8] /\ pool_ok (cap := 100) (cx_mos cx') txg' cx' l' Bs'.
Proof.
  refine (vdev_refines_blocks false (avl_create ∅) ex_pool 1 [8] (fun _ => []) (VSync 1) ex_pool_ok _). constructor.
  intros a ms E. assert (mg_ms (cx_mg ex_pool) = {[8 := with_weight ex_loaded 65536 true]}) as Ems by (vm_compute; reflexivity).
  rewrite Ems in E. apply lookup_singleton_Some in E as [<- <-]. vm_compute. reflexivity.
Defined.

(** A block that is allocated, synced, freed in the next group and synced
    again: the space in use, as the log of the metaslab counts it. *)
Definition ex_run (ops : list (Z * vd_op)) : option (list Z) :=
  let* cx := foldl (fun cx op => let* cx := cx in let* (cx, _) := vd_step false (avl_create ∅) cx (fst op) (snd op) in Some cx) (Some ex_pool) ops in
  Some ((fun ms => smo_alloc (ms_smo (snd ms))) <$> map_to_list (mg_ms (cx_mg cx))).

Example ex_run_synced : ex_run [(1, VAlloc 1536 1 0 []); (1, VSync 1)] = Some [1536].
Proof. vm_compute. reflexivity. Qed.
Example ex_run_freed : ex_run [(1, VAlloc 1536 1 0 []); (1, VSync 1); (2, VFree 8 (mk_blk 0 1536 None Live) 2); (2, VAlloc 512 3 0 []); (2, VSync 1)] = Some [0].
Proof. vm_compute. reflexivity. Qed.
