(* ===== verification/MetaslabClass.v ===== *)
(** * Metaslab classes and block pointers ([metaslab.c])

    The groups of the vdevs that serve one purpose form a class: a ring of
    groups with a rotor, at which the next allocation starts.  Allocation of a
    block chooses a group for each copy; freeing and claiming find the
    metaslab of each copy by its DVA. *)
From Stdlib Require Import ZArith Lia.
From stdpp Require Import base numbers list option gmap.
From S2P Require Import Prelude AvlSpec SpaceMap SpaceMapSync TxgList MetaslabFF Metaslab Blkptr Refcount RaidzMap.

Definition SPA_DVAS_PER_BP : Z := 3.
Definition SPA_VERSION_DITTO_BLOCKS : Z := 2.

Definition metaslab_aliquot : Z := Z.shiftl 512 10.
Definition metaslab_gang_bang : Z := SPA_MAXBLOCKSIZE + 1.

Definition DVA_IS_VALID (d : dva) : bool := negb (DVA_GET_ASIZE d =? 0).
Definition BP_DVAS (bp : blkptr) : list dva := [blk_dva0 bp; blk_dva1 bp; blk_dva2 bp].
Definition BP_GET_NDVAS (bp : blkptr) : Z :=
  Z.b2z (DVA_IS_VALID (blk_dva0 bp)) + Z.b2z (DVA_IS_VALID (blk_dva1 bp)) + Z.b2z (DVA_IS_VALID (blk_dva2 bp)).

(** ** Vdevs *)

Definition VDEV_STATE_DEGRADED : Z := 6.
Definition VDEV_STATE_HEALTHY : Z := 7.
Definition VDEV_AUX_IO_FAILURE : Z := 11.

(** [vdev_op_asize] of its operations: RAID-Z has its own. *)
Inductive vdev_ops := default_ops | raidz_ops (nparity : Z).
Inductive vdev_tree := vdev_node (vdev_op : vdev_ops) (vdev_child : list vdev_tree).

(** What allocation needs of a top-level vdev besides its metaslabs. *)
Record top_vdev := mk_top {
  vdev_state : Z;
  vs_aux : Z;
  vs_write_errors : Z;
  vdev_is_failing : bool;
  vdev_asize : Z;
  vdev_children : list vdev_tree;
  vdev_op : vdev_ops
}.

Definition vdev_is_dead (vd : top_vdev) : bool := (vdev_state vd <? VDEV_STATE_DEGRADED) && negb (vs_aux vd =? VDEV_AUX_IO_FAILURE).
Definition vdev_writeable (vd : top_vdev) : bool := negb (vdev_is_dead vd) && negb (vdev_is_failing vd).

(** [ashift] is that of the top-level vdev. *)
Fixpoint vdev_psize_to_asize (ashift : Z) (vd : vdev_tree) (psize : Z) : Z :=
  match vd with
  | vdev_node default_ops child =>
      fold_left (fun asize c => Z.max asize (vdev_psize_to_asize ashift c psize)) child (P2ROUNDUP psize (u64 (Z.shiftl 1 ashift)))
  | vdev_node (raidz_ops nparity) child => vdev_raidz_asize ashift (Z.of_nat (length child)) nparity psize
  end.

Section class.
Context {T TG D : Type} `{HIT : AvlIface T} `{HIG : AvlIface TG} `{HD : ObjectStore D} `{HM : MosStore D}.
Context (zfs_recover : bool).

(** ** Data *)

Record metaslab_class := mk_mc { mc_rotor : Z; mc_allocated : Z }.

(** A group, with its vdev, in the ring of its class. *)
Record metaslab_group := mk_group {
  mg_group : group T TG;
  mg_top : top_vdev;
  mg_aliquot : Z;
  mg_bias : Z;
  mg_class : Z;
  mg_prev : Z;
  mg_next : Z
}.

(** The pool: its classes and groups by address, the group of each child of the
    root vdev (0 while it has none), and what the groups share. *)
Record spa := mk_spa {
  spa_class : gmap Z metaslab_class;
  spa_group : gmap Z metaslab_group;
  spa_top : list Z;
  spa_root_stat : vdev_stat;
  spa_vdev_txg_list : txg_list;
  spa_meta_objset : D;
  spa_freeze_txg : Z;
  spa_version : Z
}.

Definition spa_get_alloc (p : spa) : Z := vs_alloc (spa_root_stat p).
Definition spa_get_space (p : spa) : Z := vs_space (spa_root_stat p).
Definition spa_max_replication (p : spa) : Z := if spa_version p <? SPA_VERSION_DITTO_BLOCKS then 1 else SPA_DVAS_PER_BP.

Definition set_group (p : spa) (mg : Z) (g : metaslab_group) : spa :=
  mk_spa (spa_class p) (<[mg := g]> (spa_group p)) (spa_top p) (spa_root_stat p) (spa_vdev_txg_list p) (spa_meta_objset p) (spa_freeze_txg p) (spa_version p).
Definition set_class (p : spa) (mc : Z) (c : metaslab_class) : spa :=
  mk_spa (<[mc := c]> (spa_class p)) (spa_group p) (spa_top p) (spa_root_stat p) (spa_vdev_txg_list p) (spa_meta_objset p) (spa_freeze_txg p) (spa_version p).

Definition with_links (g : metaslab_group) (prev next : Z) : metaslab_group :=
  mk_group (mg_group g) (mg_top g) (mg_aliquot g) (mg_bias g) (mg_class g) prev next.
Definition with_class (g : metaslab_group) (mc : Z) : metaslab_group :=
  mk_group (mg_group g) (mg_top g) (mg_aliquot g) (mg_bias g) mc (mg_prev g) (mg_next g).
Definition with_bias (g : metaslab_group) (bias : Z) : metaslab_group :=
  mk_group (mg_group g) (mg_top g) (mg_aliquot g) bias (mg_class g) (mg_prev g) (mg_next g).
Definition with_group (g : metaslab_group) (mg : group T TG) : metaslab_group :=
  mk_group mg (mg_top g) (mg_aliquot g) (mg_bias g) (mg_class g) (mg_prev g) (mg_next g).

(** The group [g] with what it shares, and back. *)
Definition group_context (p : spa) (g : metaslab_group) : context T TG D :=
  mk_cx (mg_group g) (spa_root_stat p) (spa_vdev_txg_list p) (spa_meta_objset p).
Definition put_context (p : spa) (mg : Z) (g : metaslab_group) (cx : context T TG D) : spa :=
  mk_spa (spa_class p) (<[mg := with_group g (cx_mg cx)]> (spa_group p)) (spa_top p) (cx_root cx) (cx_vdev_list cx) (cx_mos cx) (spa_freeze_txg p) (spa_version p).

(** ** Classes *)

(** [mc] is what [kmem_zalloc] returns. *)
Definition metaslab_class_create (p : spa) (mc : Z) : spa := set_class p mc (mk_mc 0 0).

Definition set_prev (p : spa) (mg prev : Z) : option spa := let* g := spa_group p !! mg in Some (set_group p mg (with_links g prev (mg_next g))).
Definition set_next (p : spa) (mg next : Z) : option spa := let* g := spa_group p !! mg in Some (set_group p mg (with_links g (mg_prev g) next)).

Definition metaslab_class_add (p : spa) (mc mg : Z) : option spa :=
  let* c := spa_class p !! mc in
  let* g := spa_group p !! mg in
  VERIFY mg_class g =? 0 in
  let mgprev := mc_rotor c in
  let* p :=
    if mgprev =? 0 then
      let* p := set_prev p mg mg in set_next p mg mg
    else
      let* gprev := spa_group p !! mgprev in
      let mgnext := mg_next gprev in
      let* p := set_prev p mg mgprev in
      let* p := set_next p mg mgnext in
      let* p := set_next p mgprev mg in
      set_prev p mgnext mg in
  let p := set_class p mc (mk_mc mg (mc_allocated c)) in
  let* g := spa_group p !! mg in Some (set_group p mg (with_class g mc)).

Definition metaslab_class_remove (p : spa) (mc mg : Z) : option spa :=
  let* c := spa_class p !! mc in
  let* g := spa_group p !! mg in
  VERIFY mg_class g =? mc in
  let mgprev := mg_prev g in
  let mgnext := mg_next g in
  let* p :=
    if mg =? mgnext then Some (set_class p mc (mk_mc 0 (mc_allocated c)))
    else
      let p := set_class p mc (mk_mc mgnext (mc_allocated c)) in
      let* p := set_next p mgprev mgnext in
      set_prev p mgnext mgprev in
  let* g := spa_group p !! mg in Some (set_group p mg (with_class (with_links g 0 0) 0)).

(** [mg] is what [kmem_zalloc] returns and [tree] what [avl_create] makes. *)
Definition metaslab_group_create (p : spa) (mc mg : Z) (tree : TG) (vd : vdev) (top : top_vdev) : option spa :=
  let aliquot := u64 (metaslab_aliquot * Z.max 1 (Z.of_nat (length (vdev_children top)))) in
  metaslab_class_add (set_group p mg (mk_group (mk_mg tree ∅ vd) top aliquot 0 0 0 0)) mc mg.

Definition metaslab_group_destroy (p : spa) (mg : Z) : option spa :=
  let* g := spa_group p !! mg in
  VERIFY os_numnodes (mg_metaslab_tree (mg_group g)) =? 0 in
  Some (mk_spa (spa_class p) (delete mg (spa_group p)) (spa_top p) (spa_root_stat p) (spa_vdev_txg_list p) (spa_meta_objset p) (spa_freeze_txg p) (spa_version p)).

(** [while ((mg = mc->mc_rotor) != NULL)]; a round removes a group. *)
Fixpoint class_destroy_loop (k : nat) (p : spa) (mc : Z) : option spa :=
  match k with
  | O => None
  | S k =>
      let* c := spa_class p !! mc in
      if mc_rotor c =? 0 then Some p
      else
        let* p' := metaslab_class_remove p mc (mc_rotor c) in
        let* p' := metaslab_group_destroy p' (mc_rotor c) in class_destroy_loop k p' mc
  end.

Definition metaslab_class_destroy (p : spa) (mc : Z) : option spa :=
  let* p := class_destroy_loop (S (size (spa_group p))) p mc in
  Some (mk_spa (delete mc (spa_class p)) (spa_group p) (spa_top p) (spa_root_stat p) (spa_vdev_txg_list p) (spa_meta_objset p) (spa_freeze_txg p) (spa_version p)).

(** ** One copy *)

(** The group of a top-level vdev: 0 when there is no such vdev, or it has no
    group and so no metaslabs. *)
Definition vdev_lookup_top (p : spa) (vdev : Z) : Z := default 0 (spa_top p !! Z.to_nat vdev).
Definition top_asize (g : metaslab_group) (psize : Z) : Z :=
  vdev_psize_to_asize (vdev_ashift (mg_vd (mg_group g))) (vdev_node (vdev_op (mg_top g)) (vdev_children (mg_top g))) psize.

(** How much of the pool is in use against how much of the vdev, of 1024. *)
Definition group_bias (p : spa) (g : metaslab_group) : option Z :=
  let vs := vdev_stats (mg_vd (mg_group g)) in
  let vs_all := u64 (vs_space vs + 1) in
  let spa_all := u64 (spa_get_space p + 1) in
  VERIFY negb (vs_all =? 0) && negb (spa_all =? 0) in
  let vu := s64 (u64 (Z.shiftl (vs_alloc vs) 10) / vs_all) in
  let su := s64 (u64 (Z.shiftl (spa_get_alloc p) 10) / spa_all) in
  Some (Z.quot (s64 (s64 (su - vu) * s64 (mg_aliquot g))) (1024 * 4)).

(** What follows the choice of a group: the bias, the rotor and the DVA. *)
Definition group_selected (p : spa) (mc mg : Z) (offset asize : Z) (d : dva) : option (spa * dva) :=
  let* c := spa_class p !! mc in
  let* g := spa_group p !! mg in
  let* g := if mc_allocated c =? 0 then let* bias := group_bias p g in Some (with_bias g bias) else Some g in
  let p := set_group p mg g in
  let allocated := u64 (mc_allocated c + asize) in
  let c := if u64 (mg_aliquot g + mg_bias g) <=? allocated then mk_mc (mg_next g) 0 else mk_mc (mc_rotor c) allocated in
  let d := DVA_SET_VDEV d (vdev_id (mg_vd (mg_group g))) in
  let d := DVA_SET_OFFSET d offset in
  let d := DVA_SET_GANG d 0 in
  Some (set_class p mc c, DVA_SET_ASIZE d asize).

(** The body of the loop for the group [mg], to [next]: [all_zero] and the DVA
    when there is one. *)
Definition alloc_from (p : spa) (mc psize : Z) (dvas : list dva) (d : nat) (txg mg dshift : Z) (all_zero : bool) : option (spa * bool * option dva) :=
  let* g := spa_group p !! mg in
  let vd := mg_vd (mg_group g) in
  if negb (vdev_writeable (mg_top g)) then Some (p, all_zero, None)
  else if ((0 <? vs_write_errors (mg_top g)) || (vdev_state (mg_top g) <? VDEV_STATE_HEALTHY)) && (d =? 0)%nat && (dshift =? 3) then Some (p, false, None)
  else
    VERIFY mg_class g =? mc in
    let distance := Z.shiftr (vdev_asize (mg_top g)) dshift in
    let near := distance <=? u64 (Z.shiftl 1 (vdev_ms_shift vd)) in
    let distance := if near then 0 else distance in
    let asize := top_asize g psize in
    VERIFY P2PHASE asize (u64 (Z.shiftl 1 (vdev_ashift vd))) =? 0 in
    let* (cx, offset) := metaslab_group_alloc zfs_recover (group_context p g) asize txg distance (take d dvas) in
    let p := put_context p mg g cx in
    if negb (offset =? 2 ^ 64 - 1) then
      let* dva := dvas !! d in
      let* (p, dva) := group_selected p mc mg offset asize dva in Some (p, all_zero && near, Some dva)
    else Some (p, all_zero && near, None).

(** From [top], with the next group of the round to try. *)
Fixpoint alloc_dva_loop (k : nat) (p : spa) (mc psize : Z) (dvas : list dva) (d : nat) (txg rotor mg dshift : Z) (all_zero : bool) : option (spa * list dva * Z) :=
  match k with
  | O => None
  | S k =>
      let* (p, all_zero, r) := alloc_from p mc psize dvas d txg mg dshift all_zero in
      match r with
      | Some dva => Some (p, <[d := dva]> dvas, 0)
      | None =>
          let* g := spa_group p !! mg in
          let p := set_class p mc (mk_mc (mg_next g) 0) in
          if negb (mg_next g =? rotor) then alloc_dva_loop k p mc psize dvas d txg rotor (mg_next g) dshift all_zero
          else if negb (all_zero : bool) then
            VERIFY dshift + 1 <? 64 in alloc_dva_loop k p mc psize dvas d txg rotor rotor (dshift + 1) true
          else Some (p, <[d := mk_dva 0 0]> dvas, ENOSPC)
      end
  end.

(** The rounds are at most 61, of no more than all groups. *)
Definition alloc_dva_fuel (p : spa) : nat := 61 * size (spa_group p).

(** [lbolt] is the clock. *)
Definition metaslab_alloc_dva (lbolt : Z) (p : spa) (mc psize : Z) (dvas : list dva) (d : nat) (hintdva : option (list dva)) (txg : Z) (hintdva_avoid : bool)
    : option (spa * list dva * Z) :=
  let* dva := dvas !! d in
  VERIFY negb (DVA_IS_VALID dva) in
  if (metaslab_gang_bang <=? psize) && (Z.land lbolt 3 =? 0) then Some (p, dvas, ENOSPC)
  else
    let* c := spa_class p !! mc in
    let* mg :=
      match hintdva, d with
      | Some hint, _ =>
          let* hint := hint !! d in
          let mg := vdev_lookup_top p (DVA_GET_VDEV hint) in
          if hintdva_avoid then let* g := spa_group p !! mg in Some (mg_next g) else Some mg
      | None, S d =>
          let* prev := dvas !! d in
          let* g := spa_group p !! vdev_lookup_top p (DVA_GET_VDEV prev) in Some (mg_next g)
      | None, O => Some (mc_rotor c)
      end in
    let* g := spa_group p !! mg in
    let mg := if negb (mg_class g =? mc) then mc_rotor c else mg in
    alloc_dva_loop (alloc_dva_fuel p) p mc psize dvas d txg mg mg 3 true.

(** The metaslab of the DVA and the size of the block: the group, 0 when the
    DVA is of no metaslab. *)
Definition dva_metaslab (p : spa) (d : dva) : option (Z * Z * Z) :=
  let mg := vdev_lookup_top p (DVA_GET_VDEV d) in
  if mg =? 0 then Some (0, 0, 0)
  else
    let* g := spa_group p !! mg in
    let vd := mg_vd (mg_group g) in
    let m := Z.shiftr (DVA_GET_OFFSET d) (vdev_ms_shift vd) in
    if vdev_ms_count vd <=? m then Some (0, 0, 0)
    else
      let* msp := vdev_ms vd !! Z.to_nat m in
      Some (mg, msp, if negb (DVA_GET_GANG d =? 0) then top_asize g SPA_GANGBLOCKSIZE else DVA_GET_ASIZE d).

Definition metaslab_free_dva (p : spa) (d : dva) (txg : Z) (now : bool) : option spa :=
  VERIFY DVA_IS_VALID d in
  if spa_freeze_txg p <? txg then Some p
  else
    let* (mg, msp, size) := dva_metaslab p d in
    VERIFY negb (mg =? 0) in
    let* g := spa_group p !! mg in
    let* cx := metaslab_free_at zfs_recover (group_context p g) msp (DVA_GET_OFFSET d) size txg now in
    Some (put_context p mg g cx).

Definition metaslab_claim_dva (p : spa) (d : dva) (txg : Z) : option (spa * Z) :=
  VERIFY DVA_IS_VALID d in
  let* (mg, msp, size) := dva_metaslab p d in
  if mg =? 0 then Some (p, ENXIO)
  else
    let* g := spa_group p !! mg in
    let* (cx, error) := metaslab_claim_at zfs_recover (group_context p g) msp (DVA_GET_OFFSET d) size txg in
    Some (put_context p mg g cx, error).

(** ** All copies *)

(** [for (d--; d >= 0; d--)]. *)
Fixpoint alloc_unwind (d : nat) (p : spa) (dvas : list dva) (txg : Z) : option (spa * list dva) :=
  match d with
  | O => Some (p, dvas)
  | S d =>
      let* dva := dvas !! d in
      let* p := metaslab_free_dva p dva txg true in
      alloc_unwind d p (<[d := mk_dva 0 0]> dvas) txg
  end.

(** The copies from [d] on, of which [k] are left; [clock] reads [lbolt]. *)
Fixpoint alloc_copies (clock : nat -> Z) (k : nat) (p : spa) (mc psize : Z) (dvas : list dva) (d : nat) (hintdva : option (list dva)) (txg : Z) (avoid : bool)
    : option (spa * list dva * Z) :=
  match k with
  | O => Some (p, dvas, 0)
  | S k =>
      let* (p, dvas, error) := metaslab_alloc_dva (clock d) p mc psize dvas d hintdva txg avoid in
      if negb (error =? 0) then
        let* (p, dvas) := alloc_unwind d p dvas txg in Some (p, dvas, error)
      else alloc_copies clock k p mc psize dvas (S d) hintdva txg avoid
  end.

Definition with_dvas (bp : blkptr) (dvas : list dva) : blkptr :=
  mk_bp (default (mk_dva 0 0) (dvas !! 0%nat)) (default (mk_dva 0 0) (dvas !! 1%nat)) (default (mk_dva 0 0) (dvas !! 2%nat))
    (blk_prop bp) (blk_pad bp) (blk_birth bp) (blk_fill bp) (blk_cksum bp).

Definition metaslab_alloc (clock : nat -> Z) (p : spa) (mc psize : Z) (bp : blkptr) (ndvas txg : Z) (hintbp : option blkptr) (hintbp_avoid : bool)
    : option (spa * blkptr * Z) :=
  let* c := spa_class p !! mc in
  if mc_rotor c =? 0 then Some (p, bp, ENOSPC)
  else
    VERIFY (0 <? ndvas) && (ndvas <=? spa_max_replication p) in
    VERIFY BP_GET_NDVAS bp =? 0 in
    VERIFY match hintbp with Some h => ndvas <=? BP_GET_NDVAS h | None => true end in
    let* (p, dvas, error) := alloc_copies clock (Z.to_nat ndvas) p mc psize (BP_DVAS bp) 0 (BP_DVAS <$> hintbp) txg hintbp_avoid in
    let bp := with_dvas bp dvas in
    if negb (error =? 0) then Some (p, bp, error)
    else VERIFY BP_GET_NDVAS bp =? ndvas in Some (p, bp, 0).

Definition metaslab_free (p : spa) (bp : blkptr) (txg : Z) (now : bool) : option spa :=
  VERIFY negb (BP_IS_HOLE bp) in
  foldM (fun p d => metaslab_free_dva p d txg now) p (take (Z.to_nat (BP_GET_NDVAS bp)) (BP_DVAS bp)).

Definition metaslab_claim (p : spa) (bp : blkptr) (txg : Z) : option (spa * Z) :=
  VERIFY negb (BP_IS_HOLE bp) in
  foldM (fun '(p, last_error) d =>
    let* (p, error) := metaslab_claim_dva p d txg in
    Some (p, if negb (error =? 0) then error else last_error)) (p, 0) (take (Z.to_nat (BP_GET_NDVAS bp)) (BP_DVAS bp)).
End class.

Arguments metaslab_group : clear implicits.
Arguments spa : clear implicits.
