(* ===== verification/MetaslabRing.v ===== *)
(** * The ring of a metaslab class

    The groups of a class are linked both ways in a ring.  Adding a group puts
    it behind the rotor and turns the rotor to it; removing one closes the gap
    and turns the rotor to the group that followed it. *)
From Stdlib Require Import ZArith Lia.
From stdpp Require Import base numbers list option gmap.
From S2P Require Import Prelude AvlSpec SpaceMap SpaceMapSync TxgList Metaslab MetaslabClass.

Section ring.
Context {T TG D : Type} `{HIG : AvlIface TG}.
Implicit Types (G : gmap Z (metaslab_group T TG)) (p : spa T TG D) (L l : list Z) (a b mc mg : Z).

Definition next_of G a : option Z := mg_next <$> G !! a.
Definition prev_of G a : option Z := mg_prev <$> G !! a.
Definition class_of G a : option Z := mg_class <$> G !! a.

Definition link G a b : Prop := next_of G a = Some b /\ prev_of G b = Some a.

(** Each is linked to the next one. *)
Fixpoint linked G l : Prop :=
  match l with
  | a :: (b :: _) as l' => link G a b /\ linked G l'
  | _ => True
  end.

(** The ring of the class [mc] from the first of [L] on. *)
Record ring G mc L : Prop := {
  rg_nodup : NoDup L;
  rg_links : linked G (L ++ take 1 L);
  rg_class : forall a, a ∈ L <-> class_of G a = Some mc
}.

Lemma linked_app G l1 a l2 : linked G (l1 ++ a :: l2) <-> linked G (l1 ++ [a]) /\ linked G (a :: l2).
Proof.
  induction l1 as [|x l1 IH]; [cbn; tauto|]. destruct l1 as [|y l1]; cbn [app linked] in *; [tauto|]. rewrite IH. tauto.
Qed.

Lemma linked_ext G G' l : NoDup l -> linked G l -> (forall a, a ∈ l -> last l <> Some a -> next_of G' a = next_of G a) ->
  (forall a, a ∈ l -> head l <> Some a -> prev_of G' a = prev_of G a) -> linked G' l.
Proof.
  induction l as [|a [|b l] IH]; intros Hnd Hl Hn Hp; [done..|]. cbn [linked] in *. destruct Hl as [[L1 L2] Hl]. apply NoDup_cons in Hnd as [Ha Hnd]. split.
  - split; [rewrite Hn; [done|by left|]|rewrite Hp; [done|right; by left|]].
    + rewrite last_cons_cons. intros E. apply last_Some_elem_of in E. done.
    + intros [= ->]. apply Ha. by left.
  - apply IH; [done|done|..].
    + intros x Hx Hlx. apply Hn; [by right|]. by rewrite last_cons_cons.
    + intros x Hx _. apply Hp; [by right|]. intros [= ->]. done.
Qed.

Lemma ring_next G mc a L : ring G mc (a :: L) -> next_of G a = Some (hd a L).
Proof. intros [_ Hl _]. destruct L as [|b L]; cbn in Hl; apply Hl. Qed.

Lemma ring_rotate G mc a L : ring G mc (a :: L) -> ring G mc (L ++ [a]).
Proof.
  intros [H1 H2 H3]. split.
  - by rewrite (Permutation_app_comm L [a]).
  - destruct L as [|b L]; [done|]. cbn [app take] in *. destruct H2 as [L1 L2]. change (linked G ((b :: L ++ [a]) ++ [b])).
    rewrite <-app_comm_cons, <-app_assoc. cbn [app]. change (linked G ((b :: L) ++ a :: [b])). apply linked_app. split; [exact L2|]. done.
  - intros x. rewrite <-H3, elem_of_app, !elem_of_cons, elem_of_nil. tauto.
Qed.

Lemma ring_app G mc L1 L2 : ring G mc (L1 ++ L2) -> ring G mc (L2 ++ L1).
Proof.
  revert L2. induction L1 as [|a L1 IH]; intros L2 Hr; [by rewrite app_nil_r|]. cbn [app] in Hr. apply ring_rotate in Hr.
  rewrite <-app_assoc in Hr. apply IH in Hr. by rewrite <-app_assoc in Hr.
Qed.

Lemma ring_from G mc a L : ring G mc L -> a ∈ L -> exists L', ring G mc (a :: L') /\ a :: L' ≡ₚ L.
Proof.
  intros Hr (L1 & L2 & ->)%list_elem_of_split. exists (L2 ++ L1). split; [by apply (ring_app _ _ L1 (a :: L2))|].
  change (a :: L2 ++ L1) with ((a :: L2) ++ L1). apply Permutation_app_comm.
Qed.

(** A ring only depends on its links and on which groups are of the class. *)
Lemma linked_eq G G' l : (forall a, a ∈ l -> next_of G' a = next_of G a /\ prev_of G' a = prev_of G a) -> linked G l -> linked G' l.
Proof.
  induction l as [|a [|b l] IH]; intros He Hl; [done..|]. cbn [linked] in *. destruct Hl as [[L1 L2] Hl].
  destruct (He a ltac:(by left)) as [En _], (He b ltac:(right; by left)) as [_ Ep]. split; [split; congruence|]. apply IH; [|done]. intros x Hx. apply He. by right.
Qed.

Lemma ring_ext G G' mc L : ring G mc L -> (forall a, a ∈ L -> next_of G' a = next_of G a /\ prev_of G' a = prev_of G a) ->
  (forall a, class_of G' a = Some mc <-> class_of G a = Some mc) -> ring G' mc L.
Proof.
  intros [H1 H2 H3] He Hc. split; [done| |intros a; rewrite Hc; apply H3]. eapply linked_eq; [|exact H2]. intros a Ha. apply He.
  apply elem_of_app in Ha as [?|Ha]; [done|]. by eapply elem_of_take in Ha as (? & ?%list_elem_of_lookup_2 & _).
Qed.

(** ** Changes of the links *)

Definition core (g : metaslab_group T TG) : group T TG * top_vdev * Z * Z := (mg_group g, mg_top g, mg_aliquot g, mg_bias g).

(** Only links and classes differ. *)
Record relinked p p' : Prop := {
  rl_core : forall a, core <$> spa_group p' !! a = core <$> spa_group p !! a;
  rl_top : spa_top p' = spa_top p;
  rl_root : spa_root_stat p' = spa_root_stat p;
  rl_list : spa_vdev_txg_list p' = spa_vdev_txg_list p;
  rl_mos : spa_meta_objset p' = spa_meta_objset p;
  rl_freeze : spa_freeze_txg p' = spa_freeze_txg p;
  rl_version : spa_version p' = spa_version p
}.

Lemma relinked_refl p : relinked p p.
Proof. done. Qed.
Lemma relinked_trans p1 p2 p3 : relinked p1 p2 -> relinked p2 p3 -> relinked p1 p3.
Proof. intros [] []. split; intros; congruence. Qed.
Lemma relinked_some p p' a : relinked p p' -> is_Some (spa_group p !! a) -> is_Some (spa_group p' !! a).
Proof. intros [Hc _ _ _ _ _ _] [g E]. specialize (Hc a). rewrite E in Hc. destruct (spa_group p' !! a); [by eexists|done]. Qed.
Lemma relinked_class p mc c : relinked p (set_class p mc c).
Proof. done. Qed.

Lemma set_group_core p mg g g' : spa_group p !! mg = Some g -> core g' = core g -> relinked p (set_group p mg g').
Proof.
  intros E Ec. split; try done. intros a. cbn. destruct (decide (a = mg)) as [->|Hne]; [rewrite lookup_insert_eq, E; cbn; by rewrite Ec|by rewrite lookup_insert_ne].
Qed.

(** One field of the group [mg] is set to [v]. *)
Definition upd (f : Z -> option Z) (mg v : Z) (a : Z) : option Z := if decide (a = mg) then Some v else f a.

Lemma fmap_insert_upd (f : metaslab_group T TG -> Z) G mg g a : f <$> <[mg := g]> G !! a = upd (fun x => f <$> G !! x) mg (f g) a.
Proof. unfold upd. destruct (decide (a = mg)) as [->|Hne]; [by rewrite lookup_insert_eq|by rewrite lookup_insert_ne]. Qed.
Lemma upd_id (f : Z -> option Z) mg v a : f mg = Some v -> upd f mg v a = f a.
Proof. unfold upd. by destruct (decide (a = mg)) as [->|]. Qed.

Lemma set_ring_prev p mg v : is_Some (spa_group p !! mg) -> exists p', set_prev p mg v = Some p' /\ relinked p p' /\ spa_class p' = spa_class p /\
  forall a, prev_of (spa_group p') a = upd (prev_of (spa_group p)) mg v a /\ next_of (spa_group p') a = next_of (spa_group p) a /\ class_of (spa_group p') a = class_of (spa_group p) a.
Proof.
  intros [g E]. unfold set_prev. rewrite E. cbn [mbind option_bind]. eexists. split; [done|]. split; [by eapply set_group_core|]. split; [done|].
  intros a. unfold prev_of, next_of, class_of. cbn [spa_group set_group]. rewrite !fmap_insert_upd. cbn [mg_prev mg_next mg_class with_links].
  split; [done|]. split; apply (upd_id (fun x => _ <$> spa_group p !! x)); by rewrite E.
Qed.
Lemma set_ring_next p mg v : is_Some (spa_group p !! mg) -> exists p', set_next p mg v = Some p' /\ relinked p p' /\ spa_class p' = spa_class p /\
  forall a, next_of (spa_group p') a = upd (next_of (spa_group p)) mg v a /\ prev_of (spa_group p') a = prev_of (spa_group p) a /\ class_of (spa_group p') a = class_of (spa_group p) a.
Proof.
  intros [g E]. unfold set_next. rewrite E. cbn [mbind option_bind]. eexists. split; [done|]. split; [by eapply set_group_core|]. split; [done|].
  intros a. unfold prev_of, next_of, class_of. cbn [spa_group set_group]. rewrite !fmap_insert_upd. cbn [mg_prev mg_next mg_class with_links].
  split; [done|]. split; apply (upd_id (fun x => _ <$> spa_group p !! x)); by rewrite E.
Qed.

(** The last assignments of [metaslab_class_add] and [metaslab_class_remove]. *)
Lemma set_ring_member p mg mc : is_Some (spa_group p !! mg) ->
  exists p', (let* g := spa_group p !! mg in Some (set_group p mg (with_class g mc))) = Some p' /\ relinked p p' /\ spa_class p' = spa_class p /\
    forall a, next_of (spa_group p') a = next_of (spa_group p) a /\ prev_of (spa_group p') a = prev_of (spa_group p) a /\
      class_of (spa_group p') a = upd (class_of (spa_group p)) mg mc a.
Proof.
  intros [g E]. rewrite E. cbn [mbind option_bind]. eexists. split; [done|]. split; [by eapply set_group_core|]. split; [done|].
  intros a. unfold prev_of, next_of, class_of. cbn [spa_group set_group]. rewrite !fmap_insert_upd. cbn [mg_prev mg_next mg_class with_class].
  split; [|split; [|done]]; apply (upd_id (fun x => _ <$> spa_group p !! x)); by rewrite E.
Qed.
Lemma set_left_spec p mg : is_Some (spa_group p !! mg) ->
  exists p', (let* g := spa_group p !! mg in Some (set_group p mg (with_class (with_links g 0 0) 0))) = Some p' /\ relinked p p' /\ spa_class p' = spa_class p /\
    forall a, next_of (spa_group p') a = upd (next_of (spa_group p)) mg 0 a /\ prev_of (spa_group p') a = upd (prev_of (spa_group p)) mg 0 a /\
      class_of (spa_group p') a = upd (class_of (spa_group p)) mg 0 a.
Proof.
  intros [g E]. rewrite E. cbn [mbind option_bind]. eexists. split; [done|]. split; [by eapply set_group_core|]. split; [done|].
  intros a. unfold prev_of, next_of, class_of. cbn [spa_group set_group]. by rewrite !fmap_insert_upd.
Qed.

(** The state of a class: empty, or a ring from its rotor. *)
Definition class_ring p mc (L : list Z) : Prop :=
  exists c, spa_class p !! mc = Some c /\ mc <> 0 /\ mc_rotor c = hd 0 L /\ 0 ∉ L /\ ring (spa_group p) mc L.

Lemma class_ring_ne p mc L : class_ring p mc L -> mc <> 0.
Proof. by intros (c & _ & Hmc & _). Qed.

Lemma ring_nil G mc : (forall a, class_of G a <> Some mc) -> ring G mc [].
Proof. intros Hn. split; [constructor|done|]. intros a. rewrite elem_of_nil. split; [done|]. intros E. by apply (Hn a). Qed.

Lemma class_some G a c : class_of G a = Some c -> is_Some (G !! a).
Proof. unfold class_of. destruct (G !! a); [by eexists|done]. Qed.

(** *** Adding a group *)

Lemma hd_in r L : hd r L ∈ r :: L.
Proof. destruct L; cbn; [by left|right; by left]. Qed.

Lemma ring_insert G G' mc mg r L : ring G mc (r :: L) -> mg ∉ r :: L ->
  (forall a, next_of G' a = upd (upd (next_of G) mg (hd r L)) r mg a /\ prev_of G' a = upd (upd (prev_of G) mg r) (hd r L) mg a /\ class_of G' a = upd (class_of G) mg mc a) ->
  ring G' mc (mg :: L ++ [r]).
Proof.
  intros Hr Hn He. pose proof (ring_rotate _ _ _ _ Hr) as [R1 _ R3]. pose proof (rg_links _ _ _ Hr) as R2.
  assert (mg ∉ L ++ [r]) as Hn' by (intros Hin; apply Hn; revert Hin; rewrite elem_of_app, !elem_of_cons, elem_of_nil; tauto).
  assert (mg <> r) as Hne by (intros ->; apply Hn; by left). split.
  - by apply NoDup_cons.
  - cbn [take app]. change (linked G' ((mg :: L ++ [r]) ++ [mg])). rewrite <-app_comm_cons, <-app_assoc. cbn [app].
    assert (linked G' (L ++ [r])) as Hl.
    { apply (linked_ext G); [done|..].
      - destruct L as [|b L]; [done|]. cbn [app take] in *. apply R2.
      - intros a Ha Hla. destruct (He a) as [-> _]. unfold upd. rewrite last_snoc in Hla. rewrite decide_False by congruence. rewrite decide_False; [done|]. by intros ->.
      - intros a Ha Hla. destruct (He a) as (_ & -> & _). unfold upd. rewrite decide_False, decide_False; [done|by intros ->|]. intros ->. apply Hla. by destruct L. }
    assert (link G' r mg) as Hrm.
    { split; [destruct (He r) as [-> _]; unfold upd; by rewrite decide_True|]. destruct (He mg) as (_ & -> & _). unfold upd.
      rewrite decide_False by (intros ->; apply Hn, hd_in). by rewrite decide_True. }
    assert (link G' mg (hd r L)) as Hmn.
    { split; [destruct (He mg) as [-> _]; unfold upd; rewrite decide_False by done; by rewrite decide_True|]. destruct (He (hd r L)) as (_ & -> & _). unfold upd. by rewrite decide_True. }
    destruct L as [|b L]; cbn [app linked hd] in *; [done|]. split; [done|]. apply (linked_app G' (b :: L) r [mg]). split; [exact Hl|]. done.
  - intros a. destruct (He a) as (_ & _ & ->). rewrite elem_of_cons, R3. unfold upd. destruct (decide (a = mg)) as [->|]; [tauto|]. tauto.
Qed.

Lemma ring_single G mc mg : next_of G mg = Some mg -> prev_of G mg = Some mg -> (forall a, a = mg <-> class_of G a = Some mc) -> ring G mc [mg].
Proof. intros H1 H2 H3. split; [apply NoDup_singleton|done|]. intros a. by rewrite list_elem_of_singleton. Qed.

(** The ring after the group is added. *)
Definition ring_add L mg : list Z := match L with [] => [mg] | r :: L => mg :: L ++ [r] end.

(** The assignments of [metaslab_class_add]. *)
Lemma class_add_run p mc mg c g : spa_class p !! mc = Some c -> spa_group p !! mg = Some g -> mg_class g = 0 ->
  (mc_rotor c <> 0 -> exists n, next_of (spa_group p) (mc_rotor c) = Some n /\ is_Some (spa_group p !! n)) ->
  exists p', metaslab_class_add p mc mg = Some p' /\ relinked p p' /\ spa_class p' = <[mc := mk_mc mg (mc_allocated c)]> (spa_class p) /\
    (forall a, class_of (spa_group p') a = upd (class_of (spa_group p)) mg mc a) /\
    forall a, let r := mc_rotor c in if decide (r = 0) then next_of (spa_group p') a = upd (next_of (spa_group p)) mg mg a /\ prev_of (spa_group p') a = upd (prev_of (spa_group p)) mg mg a
      else exists n, next_of (spa_group p) r = Some n /\ next_of (spa_group p') a = upd (upd (next_of (spa_group p)) mg n) r mg a /\
        prev_of (spa_group p') a = upd (upd (prev_of (spa_group p)) mg r) n mg a.
Proof.
  intros Ec Eg Hcl Hrot. unfold metaslab_class_add. rewrite Ec. cbn [mbind option_bind]. rewrite Eg. cbn [mbind option_bind]. rewrite Hcl, Z.eqb_refl.
  assert (is_Some (spa_group p !! mg)) as Hg by (by eexists). destruct (Z.eqb_spec (mc_rotor c) 0) as [Ez|Hnz].
  - destruct (set_ring_prev p mg mg Hg) as (p1 & -> & R1 & C1 & E1). cbn [mbind option_bind].
    destruct (set_ring_next p1 mg mg (relinked_some _ _ _ R1 Hg)) as (p2 & -> & R2 & C2 & E2). cbn [mbind option_bind].
    pose proof (relinked_trans _ _ _ R1 R2) as R12. pose (p3 := set_class p2 mc (mk_mc mg (mc_allocated c))). fold p3. pose proof (relinked_trans _ _ _ R12 (relinked_class p2 mc _) : relinked p p3) as R13.
    destruct (set_ring_member p3 mg mc (relinked_some _ _ _ R13 Hg)) as (p4 & -> & R4 & C4 & E4). exists p4. split; [done|].
    split; [by eapply relinked_trans|]. split; [rewrite C4; cbn; congruence|]. split; intros a; destruct (E1 a) as (P1 & N1 & K1), (E2 a) as (N2 & P2 & K2), (E4 a) as (N4 & P4 & K4).
    + rewrite K4. unfold upd. change (spa_group p3) with (spa_group p2). rewrite K2, K1. done.
    + cbn zeta. rewrite decide_True by done. rewrite N4, P4. change (spa_group p3) with (spa_group p2). rewrite N2, P2, P1. unfold upd. by rewrite N1.
  - destruct (Hrot Hnz) as (n & En & Hn). set (r := mc_rotor c) in *. assert (exists gr, spa_group p !! r = Some gr /\ mg_next gr = n) as (gr & Egr & Enr).
    { unfold next_of in En. destruct (spa_group p !! r) as [gr|]; [|done]. exists gr. split; [done|]. by injection En. }
    rewrite Egr. cbn [mbind option_bind]. rewrite Enr. destruct (set_ring_prev p mg r Hg) as (p1 & -> & R1 & C1 & E1). cbn [mbind option_bind].
    destruct (set_ring_next p1 mg n (relinked_some _ _ _ R1 Hg)) as (p2 & -> & R2 & C2 & E2). cbn [mbind option_bind]. pose proof (relinked_trans _ _ _ R1 R2) as R12.
    destruct (set_ring_next p2 r mg (relinked_some _ _ _ R12 ltac:(by eexists))) as (p3 & -> & R3 & C3 & E3). cbn [mbind option_bind]. pose proof (relinked_trans _ _ _ R12 R3) as R13.
    destruct (set_ring_prev p3 n mg (relinked_some _ _ _ R13 Hn)) as (p4 & -> & R4 & C4 & E4). cbn [mbind option_bind]. pose proof (relinked_trans _ _ _ R13 R4) as R14.
    pose (p5 := set_class p4 mc (mk_mc mg (mc_allocated c))). fold p5. pose proof (relinked_trans _ _ _ R14 (relinked_class p4 mc _) : relinked p p5) as R15.
    destruct (set_ring_member p5 mg mc (relinked_some _ _ _ R15 Hg)) as (p6 & -> & R6 & C6 & E6). exists p6. split; [done|].
    split; [by eapply relinked_trans|]. split; [rewrite C6; cbn; congruence|].
    split; intros a; destruct (E1 a) as (P1 & N1 & K1), (E2 a) as (N2 & P2 & K2), (E3 a) as (N3 & P3 & K3), (E4 a) as (P4 & N4 & K4), (E6 a) as (N6 & P6 & K6).
    + rewrite K6. unfold upd. change (spa_group p5) with (spa_group p4). rewrite K4, K3, K2, K1. done.
    + cbn zeta. rewrite decide_False by done. exists n. split; [done|]. rewrite N6, P6. change (spa_group p5) with (spa_group p4). rewrite N4, N3, P4. unfold upd. rewrite N2, P3, P2, P1.
      unfold upd. by rewrite N1.
Qed.

(** The classes that [mg] neither joins nor leaves are as they were. *)
Lemma class_ring_other p p' mc c mg L mc' L' : ring (spa_group p) mc L -> spa_class p' = <[mc := c]> (spa_class p) -> mc' <> mc ->
  (forall a, a ∉ mg :: L -> next_of (spa_group p') a = next_of (spa_group p) a /\ prev_of (spa_group p') a = prev_of (spa_group p) a) ->
  (forall a, a <> mg -> class_of (spa_group p') a = class_of (spa_group p) a) -> class_of (spa_group p) mg <> Some mc' -> class_of (spa_group p') mg <> Some mc' ->
  class_ring p mc' L' -> class_ring p' mc' L'.
Proof.
  intros Hr Ecl Hne He Hc H1 H2 (c' & Ec' & Hmc' & Er' & H0' & Hr'). exists c'. rewrite Ecl, lookup_insert_ne by done. do 4 (split; [done|]).
  eapply ring_ext; [exact Hr'| |].
  - intros a Ha. apply He. apply (rg_class _ _ _ Hr') in Ha. intros [->|Hin]%elem_of_cons; [done|]. apply (rg_class _ _ _ Hr) in Hin. congruence.
  - intros a. destruct (decide (a = mg)) as [->|Hna]; [tauto|]. by rewrite Hc.
Qed.

Lemma class_add_spec p mc mg L : class_ring p mc L -> mg <> 0 -> class_of (spa_group p) mg = Some 0 ->
  exists p', metaslab_class_add p mc mg = Some p' /\ relinked p p' /\ class_ring p' mc (ring_add L mg) /\
    forall mc' L', mc' <> mc -> class_ring p mc' L' -> class_ring p' mc' L'.
Proof.
  intros (c & Ec & Hmc & Er & H0 & Hr) Hmg Hcl. destruct (class_some _ _ _ Hcl) as [g Eg].
  assert (mg_class g = 0) as Hg0 by (unfold class_of in Hcl; rewrite Eg in Hcl; by injection Hcl).
  assert (mg ∉ L) as HnL by (intros Hin; apply (rg_class _ _ _ Hr) in Hin; congruence).
  destruct (class_add_run p mc mg c g Ec Eg Hg0) as (p' & E & R & C & K & N).
  { rewrite Er. destruct L as [|r L]; [done|]. intros _. exists (hd r L). split; [by apply ring_next with mc|].
    apply (class_some _ _ mc), (rg_class _ _ _ Hr), hd_in. }
  exists p'. split; [done|]. split; [done|].
  assert (forall a, a ∉ mg :: L -> next_of (spa_group p') a = next_of (spa_group p) a /\ prev_of (spa_group p') a = prev_of (spa_group p) a) as Hsame.
  { intros a Ha. specialize (N a). cbn zeta in N. rewrite Er in N. destruct L as [|r L]; cbn [hd] in N.
    - rewrite decide_True in N by done. destruct N as [-> ->]. unfold upd. rewrite !decide_False; [done|..]; intros ->; apply Ha; by left.
    - rewrite decide_False in N by (intros ->; apply H0; by left). destruct N as (n & En & -> & ->). rewrite (ring_next _ _ _ _ Hr) in En. injection En as <-.
      unfold upd. rewrite !decide_False; [done|..]; intros ->; apply Ha; [by left|right; apply hd_in|by left|right; by left]. }
  split.
  - exists (mk_mc mg (mc_allocated c)). rewrite C, lookup_insert_eq. split; [done|]. split; [done|]. split; [by destruct L|].
    split; [assert (0 <> mg) by congruence; destruct L as [|r L]; cbn [ring_add] in *; rewrite ?elem_of_cons, ?elem_of_app, ?elem_of_cons, ?elem_of_nil in *; tauto|].
    destruct L as [|r L]; cbn [ring_add hd] in *.
    + rewrite Er in N. apply ring_single.
      * destruct (N mg) as [-> _]. unfold upd. by rewrite decide_True.
      * destruct (N mg) as [_ ->]. unfold upd. by rewrite decide_True.
      * intros a. rewrite K. unfold upd. destruct (decide (a = mg)) as [->|Hne]; [done|]. split; [done|]. intros Ha%(rg_class _ _ _ Hr). by apply not_elem_of_nil in Ha.
    + apply (ring_insert (spa_group p)); [done|done|]. intros a. specialize (N a). cbn zeta in N. rewrite Er in N.
      rewrite decide_False in N by (intros ->; apply H0; by left). destruct N as (n & En & -> & ->). rewrite (ring_next _ _ _ _ Hr) in En. by injection En as <-.
  - intros mc' L' Hne Hr'. pose proof (class_ring_ne _ _ _ Hr') as Hmc'. eapply (class_ring_other p p' mc _ mg L mc' L' Hr C Hne Hsame); [| | |exact Hr'].
    + intros a Ha. rewrite K. unfold upd. by rewrite decide_False.
    + rewrite Hcl. congruence.
    + rewrite K. unfold upd. rewrite decide_True by done. congruence.
Qed.

(** *** Removing a group *)

(** The assignments of [metaslab_class_remove]. *)
Lemma class_remove_run p mc mg c g : spa_class p !! mc = Some c -> spa_group p !! mg = Some g -> mg_class g = mc ->
  is_Some (spa_group p !! mg_prev g) -> is_Some (spa_group p !! mg_next g) ->
  exists p', metaslab_class_remove p mc mg = Some p' /\ relinked p p' /\
    spa_class p' = <[mc := mk_mc (if decide (mg = mg_next g) then 0 else mg_next g) (mc_allocated c)]> (spa_class p) /\
    (forall a, class_of (spa_group p') a = upd (class_of (spa_group p)) mg 0 a) /\
    forall a, a <> mg -> if decide (mg = mg_next g) then next_of (spa_group p') a = next_of (spa_group p) a /\ prev_of (spa_group p') a = prev_of (spa_group p) a
      else next_of (spa_group p') a = upd (next_of (spa_group p)) (mg_prev g) (mg_next g) a /\ prev_of (spa_group p') a = upd (prev_of (spa_group p)) (mg_next g) (mg_prev g) a.
Proof.
  intros Ec Eg Hcl Hq Hn. unfold metaslab_class_remove. rewrite Ec. cbn [mbind option_bind]. rewrite Eg. cbn [mbind option_bind]. rewrite Hcl, Z.eqb_refl.
  assert (is_Some (spa_group p !! mg)) as Hg by (by eexists). destruct (Z.eqb_spec mg (mg_next g)) as [Ez|Hnz]; cbn [mbind option_bind].
  - rewrite !decide_True by done. pose (p1 := set_class p mc (mk_mc 0 (mc_allocated c))). fold p1.
    destruct (set_left_spec p1 mg Hg) as (p2 & -> & R2 & C2 & E2). exists p2. split; [done|]. split; [eapply relinked_trans; [apply relinked_class|exact R2]|].
    split; [by rewrite C2|]. split; intros a; destruct (E2 a) as (N2 & P2 & K2); [done|]. intros Hne. rewrite decide_True by done. rewrite N2, P2. unfold upd. by rewrite !decide_False.
  - rewrite !decide_False by done. pose (p1 := set_class p mc (mk_mc (mg_next g) (mc_allocated c))). fold p1.
    destruct (set_ring_next p1 (mg_prev g) (mg_next g) Hq) as (p2 & -> & R2 & C2 & E2). cbn [mbind option_bind].
    pose proof (relinked_trans p p1 p2 (relinked_class p mc _) R2) as R12.
    destruct (set_ring_prev p2 (mg_next g) (mg_prev g) (relinked_some _ _ _ R12 Hn)) as (p3 & -> & R3 & C3 & E3). cbn [mbind option_bind]. pose proof (relinked_trans _ _ _ R12 R3) as R13.
    destruct (set_left_spec p3 mg (relinked_some _ _ _ R13 Hg)) as (p4 & -> & R4 & C4 & E4). exists p4. split; [done|]. split; [by eapply relinked_trans|].
    split; [by rewrite C4, C3, C2|]. split; intros a; destruct (E2 a) as (N2 & P2 & K2), (E3 a) as (P3 & N3 & K3), (E4 a) as (N4 & P4 & K4).
    + rewrite K4. unfold upd. by rewrite K3, K2.
    + intros Hne. rewrite decide_False by done. rewrite N4, P4. unfold upd. rewrite !(decide_False (P := a = mg)) by done. rewrite N3, N2, P3. unfold upd. by rewrite P2.
Qed.

Lemma ring_prev G mc mg L q : ring G mc (mg :: L ++ [q]) -> prev_of G mg = Some q.
Proof.
  intros [_ Hl _]. cbn [take] in Hl. rewrite app_comm_cons, <-app_assoc in Hl. cbn [app] in Hl. change (linked G ((mg :: L) ++ q :: [mg])) in Hl.
  apply linked_app in Hl as [_ Hl]. apply Hl.
Qed.

Lemma ring_delete G G' mc mg n L q : ring G mc (mg :: n :: L) -> last (n :: L) = Some q -> mc <> 0 ->
  (forall a, a <> mg -> next_of G' a = upd (next_of G) q n a /\ prev_of G' a = upd (prev_of G) n q a) ->
  (forall a, class_of G' a = upd (class_of G) mg 0 a) -> ring G' mc (n :: L).
Proof.
  intros [R1 R2 R3] Hq Hmc He Hc. apply NoDup_cons in R1 as [Hmg Hnd]. apply last_Some in Hq as (L0 & Hq).
  assert (linked G (n :: L)) as Hl.
  { cbn [app take] in R2. destruct R2 as [_ R2]. change (linked G ((n :: L) ++ [mg])) in R2. rewrite Hq, <-app_assoc in R2. cbn [app] in R2. apply linked_app in R2 as [R2 _].
    by rewrite Hq. }
  assert (forall a, a ∈ n :: L -> a <> mg) as Hin by (by intros a Ha ->). assert (q ∈ n :: L) as Hqin by (rewrite Hq, elem_of_app; right; by left). split; [done|..].
  - cbn [take]. assert (linked G' (n :: L)) as Hl'.
    { apply (linked_ext G); [done|done|..]; intros a Ha Hla; destruct (He a (Hin a Ha)) as [N P]; rewrite ?N, ?P; unfold upd; rewrite decide_False; try done.
      - intros ->. apply Hla. by rewrite Hq, last_snoc.
      - intros ->. by apply Hla. }
    rewrite Hq in *. rewrite <-app_assoc. cbn [app]. apply linked_app. split; [done|]. cbn. split; [|done].
    destruct (He q (Hin q Hqin)) as [N _], (He n) as [_ P]; [apply Hin; rewrite <-Hq; by left|]. split; [rewrite N|rewrite P]; unfold upd; by rewrite decide_True.
  - intros a. rewrite Hc. unfold upd. destruct (decide (a = mg)) as [->|Hne]; [split; [done|congruence]|]. rewrite <-R3, (elem_of_cons _ a mg). tauto.
Qed.

Lemma class_remove_spec p mc mg L1 L2 : class_ring p mc (L1 ++ mg :: L2) ->
  exists p', metaslab_class_remove p mc mg = Some p' /\ relinked p p' /\ class_ring p' mc (L2 ++ L1) /\ class_of (spa_group p') mg = Some 0 /\
    forall mc' L', mc' <> mc -> class_ring p mc' L' -> class_ring p' mc' L'.
Proof.
  intros (c & Ec & Hmc & _ & H0 & Hr%ring_app). cbn [app] in Hr. assert (0 ∉ L2 ++ L1) as H0' by (rewrite elem_of_app, elem_of_cons in *; tauto).
  set (L := L2 ++ L1) in *. clearbody L. pose proof (ring_next _ _ _ _ Hr) as En.
  assert (exists q, last (mg :: L) = Some q /\ prev_of (spa_group p) mg = Some q) as (q & Hq & Ep).
  { destruct (last (mg :: L)) as [q|] eqn:Hq; [|by apply last_None in Hq]. exists q. split; [done|]. apply last_Some in Hq as ([|x L0] & Hq); cbn in Hq; injection Hq as -> ->.
    - apply (rg_links _ _ _ Hr).
    - by eapply ring_prev. }
  assert (exists g, spa_group p !! mg = Some g /\ mg_class g = mc /\ mg_next g = hd mg L /\ mg_prev g = q) as (g & Eg & Hcl & Eng & Epg).
  { pose proof (proj1 (rg_class _ _ _ Hr mg) ltac:(by left)) as Hc. unfold class_of, next_of, prev_of in *. destruct (spa_group p !! mg) as [g|]; [|done]. exists g.
    split; [done|]. split; [by injection Hc|]. split; [by injection En|by injection Ep]. }
  assert (forall a, a ∈ mg :: L -> is_Some (spa_group p !! a)) as Hin by (intros a Ha%(rg_class _ _ _ Hr); by eapply class_some).
  destruct (class_remove_run p mc mg c g Ec Eg Hcl) as (p' & E & R & C & K & N); [rewrite Epg; by apply Hin, last_Some_elem_of|rewrite Eng; apply Hin, hd_in|].
  exists p'. split; [done|]. split; [done|]. rewrite Eng, Epg in *. pose proof (rg_nodup _ _ _ Hr) as [Hmg _]%NoDup_cons. split; [|split].
  - exists (mk_mc (hd 0 L) (mc_allocated c)). rewrite C, lookup_insert_eq. split; [f_equal; f_equal|]. 
    { destruct L as [|n L]; cbn; [by rewrite decide_True|]. rewrite decide_False; [done|]. intros ->. apply Hmg. by left. }
    split; [done|]. split; [done|]. split; [done|]. destruct L as [|n L]; cbn [hd] in *.
    + apply ring_nil. intros a. rewrite K. unfold upd. destruct (decide (a = mg)) as [->|Hne]; [congruence|]. intros Ha%(rg_class _ _ _ Hr). by apply list_elem_of_singleton in Ha.
    + apply (ring_delete (spa_group p) _ mc mg n L q); [done|by rewrite last_cons_cons in Hq|done| |done]. intros a Ha. specialize (N a Ha).
      rewrite decide_False in N; [done|]. intros ->. apply Hmg. by left.
  - rewrite K. unfold upd. by rewrite decide_True.
  - intros mc' L' Hne Hr'. pose proof (class_ring_ne _ _ _ Hr') as Hmc'. eapply (class_ring_other p p' mc _ mg (mg :: L) mc' L' Hr C Hne); [| | | |exact Hr'].
    + intros a Ha. assert (a <> mg /\ a <> q /\ a <> hd mg L) as (H1 & H2 & H3).
      { split; [|split]; intros ->; apply Ha; [by left|right; by apply last_Some_elem_of|right; apply hd_in]. }
      specialize (N a H1). destruct (decide (mg = hd mg L)); [done|]. destruct N as [-> ->]. unfold upd. by rewrite !decide_False.
    + intros a Ha. rewrite K. unfold upd. by rewrite decide_False.
    + pose proof (proj1 (rg_class _ _ _ Hr mg) ltac:(by left)) as ->. congruence.
    + rewrite K. unfold upd. rewrite decide_True by done. congruence.
Qed.

(** *** Destroying a class *)

Lemma class_destroy_loop_spec mc L : forall p k, class_ring p mc L -> (length L < k)%nat ->
  (forall a g, a ∈ L -> spa_group p !! a = Some g -> os_numnodes (mg_metaslab_tree (mg_group g)) = 0) ->
  exists p', class_destroy_loop k p mc = Some p' /\ class_ring p' mc [] /\
    (forall a, core <$> spa_group p' !! a = if decide (a ∈ L) then None else core <$> spa_group p !! a) /\
    forall mc' L', mc' <> mc -> class_ring p mc' L' -> class_ring p' mc' L'.
Proof.
  induction L as [|mg L IH]; intros p k Hr Hk Hempty; (destruct k as [|k]; [cbn in Hk; lia|]); cbn [class_destroy_loop].
  - pose proof Hr as (c & Ec & _ & Er & _). rewrite Ec. cbn [mbind option_bind]. rewrite Er. cbn. exists p. split; [done|]. split; [done|]. split; [|done].
    intros a. by rewrite decide_False by apply not_elem_of_nil.
  - destruct (class_remove_spec p mc mg [] L Hr) as (p1 & E1 & R1 & Hr1 & K1 & O1). rewrite app_nil_r in Hr1. pose proof Hr as (c & Ec & _ & Er & _ & Hring). rewrite Ec. cbn [mbind option_bind hd] in *.
    rewrite Er. pose proof Hr as (_ & _ & _ & _ & H0 & _). destruct (Z.eqb_spec mg 0) as [->|Hnz]; [destruct H0; by left|]. rewrite E1. cbn [mbind option_bind].
    unfold metaslab_group_destroy. destruct (class_some _ _ _ K1) as [g1 Eg1]. rewrite Eg1. cbn [mbind option_bind].
    assert (exists g, spa_group p !! mg = Some g /\ mg_group g1 = mg_group g) as (g & Eg & Egg).
    { pose proof (rl_core _ _ R1 mg) as Hc. rewrite Eg1 in Hc. destruct (spa_group p !! mg) as [g|]; [|done]. exists g. split; [done|]. by injection Hc. }
    rewrite Egg, (Hempty mg g ltac:(by left) Eg). cbn [Z.eqb mbind option_bind]. set (p2 := mk_spa _ _ _ _ _ _ _ _). pose proof (rg_nodup _ _ _ Hring) as [Hmg Hnd]%NoDup_cons.
    assert (forall mc' L', mc' <> 0 -> mg ∉ L' -> class_ring p1 mc' L' -> class_ring p2 mc' L') as Hdel.
    { intros mc' L' Hmc' HmgL (c' & Ec' & Hc0 & Er' & H0' & Hr'). exists c'. do 4 (split; [done|]). eapply ring_ext; [exact Hr'| |]; unfold next_of, prev_of, class_of; cbn.
      - intros a Ha. rewrite lookup_delete_ne; [done|]. by intros ->.
      - intros a. destruct (decide (a = mg)) as [->|Hne]; [|by rewrite lookup_delete_ne]. unfold class_of in K1. rewrite lookup_delete_eq, K1. cbn. split; congruence. }
    destruct (IH p2 k) as (p3 & E3 & Hr3 & K3 & O3); [apply Hdel; [by eapply class_ring_ne|done|done]|cbn in Hk; lia| |].
    { intros a ga Ha Ea. cbn in Ea. rewrite lookup_delete_ne in Ea by (by intros <-). pose proof (rl_core _ _ R1 a) as Hc. rewrite Ea in Hc.
      destruct (spa_group p !! a) as [ga0|] eqn:Ea0; [|done]. assert (mg_group ga = mg_group ga0) as -> by (by injection Hc). apply (Hempty a ga0); [by right|done]. }
    exists p3. split; [done|]. split; [done|]. split.
    + intros a. rewrite K3. cbn. destruct (decide (a ∈ L)) as [Ha|Ha]; [by rewrite decide_True by (by right)|]. destruct (decide (a = mg)) as [->|Hne].
      * rewrite lookup_delete_eq, decide_True by (by left). done.
      * rewrite lookup_delete_ne by done. rewrite decide_False by (by intros [?|?]%elem_of_cons). apply (rl_core _ _ R1).
    + intros mc' L' Hne Hr'. apply O3; [done|]. apply Hdel; [by eapply class_ring_ne| |by apply O1]. intros Hin. destruct (O1 mc' L' Hne Hr') as (_ & _ & Hmc' & _ & _ & Hr1').
      apply (rg_class _ _ _ Hr1') in Hin. congruence.
Qed.

Lemma class_destroy_spec p mc L : class_ring p mc L -> (forall a g, a ∈ L -> spa_group p !! a = Some g -> os_numnodes (mg_metaslab_tree (mg_group g)) = 0) ->
  exists p', metaslab_class_destroy p mc = Some p' /\ spa_class p' !! mc = None /\ (forall a, core <$> spa_group p' !! a = if decide (a ∈ L) then None else core <$> spa_group p !! a) /\
    forall mc' L', mc' <> mc -> class_ring p mc' L' -> class_ring p' mc' L'.
Proof.
  intros Hr Hempty. unfold metaslab_class_destroy. destruct (class_destroy_loop_spec mc L p (S (size (spa_group p))) Hr) as (p' & -> & _ & Hc & Ho); [|done|].
  { pose proof Hr as (_ & _ & _ & _ & _ & Hring). rewrite <-size_dom, <-(size_list_to_set (C := gset Z)) by apply (rg_nodup _ _ _ Hring). apply Nat.lt_succ_r, subseteq_size.
    intros a Ha%elem_of_list_to_set%(rg_class _ _ _ Hring). apply elem_of_dom. by eapply class_some. }
  cbn [mbind option_bind]. eexists. split; [done|]. split; [apply lookup_delete_eq|]. split; [done|]. intros mc' L' Hne Hr'.
  destruct (Ho mc' L' Hne Hr') as (c & Ec & Hrest). exists c. cbn. by rewrite lookup_delete_ne.
Qed.
End ring.
