(* ===== verification/MetaslabDva.v ===== *)
(** * Allocating, freeing and claiming blocks

    [metaslab_alloc], [metaslab_free] and [metaslab_claim] over the groups of
    a pool.  Allocation of all copies of a block succeeds or leaves the pool
    as it was; each copy is space of some metaslab that no block has, and its
    DVA leads back to it. *)
From Stdlib Require Import ZArith Lia.
From stdpp Require Import base numbers list option gmap.
From S2P Require Import Prelude AvlOps AvlSpec SpaceMap SpaceMapProof SpaceMapSync SpaceMapLog TxgList MetaslabFF Metaslab MetaslabProof MetaslabInv MetaslabSync MetaslabGroup MetaslabAlloc MetaslabLife MetaslabPool MetaslabSpec VdevSync Blkptr Refcount RaidzMap MetaslabClass MetaslabRing.

(** ** DVAs *)

Lemma dva_fields d vdev offset asize : 0 <= vdev < 2 ^ 32 -> sectors 63 0 offset -> offset < 2 ^ 64 -> sectors 24 0 asize ->
  let d' := DVA_SET_ASIZE (DVA_SET_GANG (DVA_SET_OFFSET (DVA_SET_VDEV d vdev) offset) 0) asize in
  DVA_GET_VDEV d' = vdev /\ DVA_GET_OFFSET d' = offset /\ DVA_GET_ASIZE d' = asize /\ DVA_GET_GANG d' = 0.
Proof.
  intros Hv Ho Ho2 Ha. assert (asize < 2 ^ 64) as Ha2 by (destruct Ha as (? & -> & ?); lia).
  destruct (sectors_shift 24 0 asize) as [S3 S3']; [lia|lia|done|]. destruct (sectors_shift 63 0 offset) as [S4 S4']; [lia|lia|done|]. cbn zeta.
  unfold DVA_GET_VDEV, DVA_GET_ASIZE, DVA_GET_OFFSET, DVA_GET_GANG, DVA_SET_VDEV, DVA_SET_ASIZE, DVA_SET_OFFSET, DVA_SET_GANG, BF64_GET_SB, BF64_SET_SB.
  cbn [dva_word0 dva_word1]. bf_solve. repeat split; rewrite ?Z.mod_small by lia; auto.
Qed.

(** ** The size of a block on a vdev *)

(** RAID-Z vdevs have more children than parity. *)
Fixpoint tree_ok (vd : vdev_tree) : Prop :=
  match vd with
  | vdev_node default_ops child => (fix all (l : list vdev_tree) : Prop := match l with [] => True | c :: l => tree_ok c /\ all l end) child
  | vdev_node (raidz_ops nparity) child => 1 <= nparity <= 2 /\ nparity < Z.of_nat (length child) < 2 ^ 16
  end.

Definition asize_ok (ashift psize asize : Z) : Prop := psize <= asize <= 2 ^ 24 + 6 * 2 ^ ashift /\ asize mod 2 ^ ashift = 0.

Lemma raidz_asize_ok ashift cols nparity psize : 9 <= ashift <= 24 -> 1 <= nparity <= 2 -> nparity < cols < 2 ^ 16 -> 0 < psize <= 2 ^ 17 ->
  asize_ok ashift psize (vdev_raidz_asize ashift cols nparity psize).
Proof.
  intros Ha Hn Hc Hp. unfold vdev_raidz_asize. rewrite (u64_small (psize - 1)) by (unfold is_u64; lia). rewrite Z.shiftr_div_pow2 by lia.
  set (u := 2 ^ ashift). assert (512 <= u <= 2 ^ 24) as Hu by (unfold u; split; [change 512 with (2 ^ 9)|]; apply Z.pow_le_mono_r; lia).
  set (s := (psize - 1) / u + 1). assert (psize <= s * u <= psize + u - 1) as Hs by (unfold s; pose proof (Z.div_mod (psize - 1) u ltac:(lia)); pose proof (Z.mod_pos_bound (psize - 1) u ltac:(lia)); nia).
  assert (1 <= s <= 2 ^ 17) as Hs2 by (unfold s; pose proof (Z.div_pos (psize - 1) u ltac:(lia) ltac:(lia)); pose proof (Z.div_le_upper_bound (psize - 1) u (2 ^ 17 - 1) ltac:(lia) ltac:(nia)); lia).
  rewrite (u64_small s), (u64_small (s + cols - nparity - 1)), (u64_small (cols - nparity)) by (unfold is_u64; lia).
  set (q := (s + cols - nparity - 1) / (cols - nparity)).
  assert (0 <= q <= s) as Hq by (unfold q; split; [apply Z.div_pos; lia|]; apply Z.lt_succ_r, Z.div_lt_upper_bound; nia).
  rewrite (u64_small (nparity * q)), (u64_small (s + nparity * q)) by (unfold is_u64; nia). unfold roundup.
  set (x := s + nparity * q) in *. assert (s <= x <= 3 * s) as Hx by (unfold x; nia). rewrite (u64_small (x + (nparity + 1 - 1))) by (unfold is_u64; lia).
  set (r := (x + (nparity + 1 - 1)) / (nparity + 1) * (nparity + 1)). assert (x <= r <= x + nparity) as Hr.
  { unfold r. pose proof (Z.div_mod (x + (nparity + 1 - 1)) (nparity + 1) ltac:(lia)). pose proof (Z.mod_pos_bound (x + (nparity + 1 - 1)) (nparity + 1) ltac:(lia)). nia. }
  rewrite (u64_small r) by (unfold is_u64; lia). rewrite Z.shiftl_mul_pow2 by lia. fold u. rewrite u64_small by (unfold is_u64; nia).
  split; [nia|]. apply Z_mod_mult.
Qed.

Lemma roundup_asize_ok ashift psize : 9 <= ashift <= 24 -> 0 < psize <= 2 ^ 17 -> asize_ok ashift psize (P2ROUNDUP psize (u64 (Z.shiftl 1 ashift))).
Proof.
  intros Ha Hp. set (u := 2 ^ ashift). assert (512 <= u <= 2 ^ 24) as Hu by (unfold u; split; [change 512 with (2 ^ 9)|]; apply Z.pow_le_mono_r; lia).
  rewrite Z.shiftl_1_l, u64_pow2 by lia. rewrite P2ROUNDUP_spec; [|lia|unfold u in *; unfold is_u64; lia]. fold u. pose proof (Z.mod_pos_bound (- psize) u ltac:(lia)). split; [fold u; lia|].
  fold u. rewrite Z.add_mod_idemp_r by lia. by rewrite Z.add_opp_diag_r, Zmod_0_l.
Qed.

Lemma fold_max_ok (P : Z -> Prop) (f : vdev_tree -> Z) l x : P x -> Forall (fun c => P (f c)) l -> P (fold_left (fun a c => Z.max a (f c)) l x).
Proof.
  intros Hx Hl. revert x Hx. induction Hl as [|c l Hc Hl IH]; intros x Hx; [done|]. cbn. apply IH. by destruct (Z.max_spec x (f c)) as [[_ ->]|[_ ->]].
Qed.

Lemma tree_asize_ok ashift psize : 9 <= ashift <= 24 -> 0 < psize <= 2 ^ 17 -> forall vd, tree_ok vd -> asize_ok ashift psize (vdev_psize_to_asize ashift vd psize).
Proof.
  intros Ha Hp. fix IH 1. intros [[|nparity] child] Hok; cbn [vdev_psize_to_asize tree_ok] in *.
  - apply (fold_max_ok (asize_ok ashift psize) (fun c => vdev_psize_to_asize ashift c psize)); [by apply roundup_asize_ok|].
    induction child as [|c child IHc]; constructor; [apply IH, Hok|apply IHc, Hok].
  - destruct Hok. by apply raidz_asize_ok.
Qed.

Section dva.
Context {T TG D : Type} `{HI : AvlIface T} {cap : nat} {HL : AvlLaws T cap} `{HIG : AvlIface TG} {gcap : nat} {HLG : AvlLaws TG gcap}.
Context `{HD : ObjectStore D} {HDL : ObjectStoreLaws D} `{HM : MosStore D} {HML : MosLaws D}.
Context (zfs_recover : bool) (txg : Z).
Implicit Types (p : spa T TG D) (g : metaslab_group T TG) (ms : metaslab T) (Bs : Z -> Z -> list blk) (mg msp mc t : Z) (L : list Z).

(** ** The pool *)

(** A group and its vdev among those of the pool. *)
Record vdev_place p mg g : Prop := {
  vp_ne : mg <> 0;
  vp_top : spa_top p !! Z.to_nat (vdev_id (mg_vd (mg_group g))) = Some mg;
  vp_id : 0 <= vdev_id (mg_vd (mg_group g)) < 2 ^ 32;
  vp_ashift : 9 <= vdev_ashift (mg_vd (mg_group g)) <= 24;
  vp_shift a ms : mg_ms (mg_group g) !! a = Some ms -> sm_shift (ms_map ms) = vdev_ashift (mg_vd (mg_group g));
  vp_tree : tree_ok (vdev_node (vdev_op (mg_top g)) (vdev_children (mg_top g)));
  vp_asize : 0 <= vdev_asize (mg_top g) < 2 ^ 64;
  vp_mshift : 0 <= vdev_ms_shift (mg_vd (mg_group g)) < 64;
  vp_space : 0 <= vs_space (vdev_stats (mg_vd (mg_group g))) < 2 ^ 64 - 1
}.

(** Every group is one of a pool that works, the classes are rings with their
    rotors in them. *)
Record spa_ok p Bs : Prop := {
  so_pool mg g : spa_group p !! mg = Some g -> exists l, pool_ok (cap := cap) (spa_meta_objset p) txg (group_context p g) l (Bs mg);
  so_place mg g : spa_group p !! mg = Some g -> vdev_place p mg g;
  so_ring mc c : spa_class p !! mc = Some c -> (mc_rotor c = 0 /\ ring (spa_group p) mc []) \/ exists L, ring (spa_group p) mc (mc_rotor c :: L);
  so_class mg g : spa_group p !! mg = Some g -> is_Some (spa_class p !! mg_class g);
  so_space : 0 <= spa_get_space p < 2 ^ 64 - 1
}.

(** [g'] is [g] after allocations and frees. *)
Record same_group g g' : Prop := {
  sg_logs : same_logs (mg_group g) (mg_group g');
  sg_keys a : is_Some (mg_ms (mg_group g) !! a) -> is_Some (mg_ms (mg_group g') !! a);
  sg_top : mg_top g' = mg_top g;
  sg_class : mg_class g' = mg_class g;
  sg_next : mg_next g' = mg_next g;
  sg_prev : mg_prev g' = mg_prev g
}.

Record same_spa p p' : Prop := {
  sp_group mg : option_Forall2 same_group (spa_group p !! mg) (spa_group p' !! mg);
  sp_class mc : is_Some (spa_class p !! mc) <-> is_Some (spa_class p' !! mc);
  sp_top : spa_top p' = spa_top p;
  sp_root : spa_root_stat p' = spa_root_stat p;
  sp_freeze : spa_freeze_txg p' = spa_freeze_txg p;
  sp_version : spa_version p' = spa_version p
}.

Lemma same_logs_refl (mg : group T TG) : same_logs mg mg.
Proof. split; [exists (vdev_ms_list (mg_vd mg)); by destruct (mg_vd mg)|]. intros a ms E. by exists ms. Qed.
Lemma same_group_refl g : same_group g g.
Proof. split; try done. apply same_logs_refl. Qed.
Lemma same_group_trans g1 g2 g3 : same_group g1 g2 -> same_group g2 g3 -> same_group g1 g3.
Proof. intros [A1 A2 A3 A4 A5 A6] [B1 B2 B3 B4 B5 B6]. split; [by eapply same_logs_trans|auto|congruence..]. Qed.

Lemma same_spa_refl p : same_spa p p.
Proof. split; try done. intros mg. destruct (spa_group p !! mg) as [g|]; constructor. apply same_group_refl. Qed.
Lemma same_spa_trans p1 p2 p3 : same_spa p1 p2 -> same_spa p2 p3 -> same_spa p1 p3.
Proof.
  intros [A1 A2 A3 A4 A5 A6] [B1 B2 B3 B4 B5 B6]. split; [|intros mc; rewrite A2; apply B2|congruence..]. intros mg. specialize (A1 mg). specialize (B1 mg).
  destruct A1 as [g1 g2 Hg|]; inversion B1; subst; constructor. by eapply same_group_trans.
Qed.

Lemma same_spa_group p p' mg g' : same_spa p p' -> spa_group p' !! mg = Some g' -> exists g, spa_group p !! mg = Some g /\ same_group g g'.
Proof. intros Hs E. pose proof (sp_group _ _ Hs mg) as Hg. rewrite E in Hg. inversion Hg; subst. by eexists. Qed.
Lemma same_spa_group' p p' mg g : same_spa p p' -> spa_group p !! mg = Some g -> exists g', spa_group p' !! mg = Some g' /\ same_group g g'.
Proof. intros Hs E. pose proof (sp_group _ _ Hs mg) as Hg. rewrite E in Hg. inversion Hg; subst. by eexists. Qed.

Lemma vdev_place_same p p' mg g g' : vdev_place p mg g -> same_group g g' -> spa_top p' = spa_top p -> vdev_place p' mg g'.
Proof.
  intros [V1 V2 V3 V4 V5 V6 V7 V8 V9] [[[tl Ev] Em] _ Et _ _ _] Etop.
  split; rewrite ?Et, ?Etop, ?Ev; cbn [vdev_id vdev_ashift vdev_ms_shift vdev_stats with_ms_list]; try done.
  intros a ms' E. destruct (Em a ms' E) as (ms & E0 & _ & _ & (_ & _ & ->)). by apply (V5 a).
Qed.

Lemma ring_same p p' mc L : same_spa p p' -> ring (spa_group p) mc L -> ring (spa_group p') mc L.
Proof.
  intros Hs Hr. assert (forall a, next_of (spa_group p') a = next_of (spa_group p) a /\ prev_of (spa_group p') a = prev_of (spa_group p) a /\
    class_of (spa_group p') a = class_of (spa_group p) a) as He.
  { intros a. unfold next_of, prev_of, class_of. destruct (sp_group _ _ Hs a) as [g g' [_ _ _ K N P]|]; cbn; [by rewrite K, N, P|done]. }
  eapply ring_ext; [exact Hr| |]; intros a; [intros _|]; destruct (He a) as (? & ? & Hc); [done|by rewrite Hc].
Qed.

(** The operations on one group keep the rest of the pool. *)
Lemma pool_ok_list mos cx l (B : Z -> list blk) tl : pool_ok (cap := cap) mos txg cx l B -> list_grown (cx_vdev_list cx) tl ->
  pool_ok (cap := cap) mos txg (mk_cx (cx_mg cx) (cx_root cx) tl (cx_mos cx)) l B.
Proof.
  intros [P1 P2 (lm & lv & [D1 D2 D3 D4 D5 D6 D7]) P4 P5] [Hd Hg]. destruct (Hg lv D2) as (lv' & D2' & Hsub). split; try done. exists lm, lv'.
  split; cbn; try done; [by rewrite Hd|]. intros a ms t E Ht Hu. destruct (D5 a ms t E Ht Hu) as [H1 H2]. split; [done|by apply Hsub].
Qed.

Definition set_blocks Bs mg (B : Z -> list blk) (m : Z) : Z -> list blk := if decide (m = mg) then B else Bs m.

Lemma put_context_ok p Bs mg g cx l B : spa_ok p Bs -> spa_group p !! mg = Some g -> grown (group_context p g) cx ->
  pool_ok (cap := cap) (spa_meta_objset p) txg cx l B ->
  same_spa p (put_context p mg g cx) /\ spa_ok (put_context p mg g cx) (set_blocks Bs mg B).
Proof.
  intros [S1 S2 S3 SC S4] E [G1 G2 G3 G4] Hok. cbn [cx_mg cx_root group_context cx_vdev_list] in *. pose proof (po_mos _ _ _ _ _ Hok) as Em.
  assert (same_group g (with_group g (cx_mg cx))) as Hsg by (by split).
  assert (same_spa p (put_context p mg g cx)) as Hs.
  { split; cbn; try done. intros m. destruct (decide (m = mg)) as [->|Hne]; [rewrite E, lookup_insert_eq; by constructor|].
    rewrite lookup_insert_ne by done. destruct (spa_group p !! m); constructor. apply same_group_refl. }
  split; [done|]. split.
  - intros m gm Em'. cbn in Em'. unfold set_blocks. cbn [spa_meta_objset put_context]. destruct (decide (m = mg)) as [->|Hne].
    + rewrite lookup_insert_eq in Em'. injection Em' as <-. exists l. cbn. rewrite Em. by destruct cx.
    + rewrite lookup_insert_ne in Em' by done. destruct (S1 m gm Em') as (lm & Hm). exists lm. apply (pool_ok_list _ _ _ _ (cx_vdev_list cx)) in Hm; [|done].
      unfold group_context in *. cbn in *. by rewrite Em, G1.
  - intros m gm Em'. destruct (same_spa_group _ _ _ _ Hs Em') as (g0 & E0 & Hsg0). by eapply vdev_place_same; [apply S2|..].
  - intros mc c Ec. destruct (S3 mc c Ec) as [[Hz Hr]|[L Hr]]; [left|right; exists L]; [split; [done|]|]; by eapply ring_same.
  - intros m gm Em'. destruct (same_spa_group _ _ _ _ Hs Em') as (g0 & E0 & Hsg0). rewrite (sg_class _ _ Hsg0). by apply (SC m g0).
  - unfold spa_get_space. cbn. by rewrite G1.
Qed.

Lemma set_class_ok p Bs mc c L : spa_ok p Bs -> is_Some (spa_class p !! mc) -> ring (spa_group p) mc (mc_rotor c :: L) ->
  same_spa p (set_class p mc c) /\ spa_ok (set_class p mc c) Bs.
Proof.
  intros [S1 S2 S3 SC S4] Hc Hr. split.
  - split; try done; [intros mg; cbn; destruct (spa_group p !! mg); constructor; apply same_group_refl|]. intros mc'. cbn. destruct (decide (mc' = mc)) as [->|Hne].
    + rewrite lookup_insert_eq. split; [by eexists|done].
    + by rewrite lookup_insert_ne.
  - split; [exact S1|intros mg g E; by eapply vdev_place_same; [apply S2|apply same_group_refl|]| | |exact S4].
    2:{ intros mg g E. cbn. by apply insert_keys, (SC mg g). }
    intros mc' c' E. cbn in *. destruct (decide (mc' = mc)) as [->|Hne]; [|rewrite lookup_insert_ne in E by done; by apply S3].
    rewrite lookup_insert_eq in E. injection E as <-. right. by exists L.
Qed.

Lemma with_bias_ok p Bs mg g b : spa_ok p Bs -> spa_group p !! mg = Some g ->
  same_spa p (set_group p mg (with_bias g b)) /\ spa_ok (set_group p mg (with_bias g b)) Bs.
Proof.
  intros [S1 S2 S3 SC S4] E. assert (same_spa p (set_group p mg (with_bias g b))) as Hs.
  { split; try done. intros m. cbn. destruct (decide (m = mg)) as [->|Hne].
    - rewrite E, lookup_insert_eq. constructor. split; try done. apply same_logs_refl.
    - rewrite lookup_insert_ne by done. destruct (spa_group p !! m); constructor. apply same_group_refl. }
  split; [done|]. split; [| | | |exact S4].
  - intros m gm Em. cbn in *. destruct (decide (m = mg)) as [->|Hne]; [|rewrite lookup_insert_ne in Em by done; by apply S1].
    rewrite lookup_insert_eq in Em. injection Em as <-. by apply (S1 mg g).
  - intros m gm Em. destruct (same_spa_group _ _ _ _ Hs Em) as (g0 & E0 & Hsg0). by eapply vdev_place_same; [apply S2|..].
  - intros mc c Ec. destruct (S3 mc c Ec) as [[Hz Hr]|[L Hr]]; [left|right; exists L]; [split; [done|]|]; by eapply ring_same.
  - intros m gm Em. destruct (same_spa_group _ _ _ _ Hs Em) as (g0 & E0 & Hsg0). rewrite (sg_class _ _ Hsg0). by apply (SC m g0).
Qed.

(** ** DVAs and metaslabs *)

(** The DVA of [size] bytes at [offset] of the vdev of the group [mg]. *)
Record dva_names p (d : dva) mg (offset size : Z) : Prop := {
  dn_group : vdev_lookup_top p (DVA_GET_VDEV d) = mg;
  dn_offset : DVA_GET_OFFSET d = offset;
  dn_size : DVA_GET_ASIZE d = size;
  dn_gang : DVA_GET_GANG d = 0
}.

Lemma dva_names_same p p' d mg offset size : spa_top p' = spa_top p -> dva_names p d mg offset size -> dva_names p' d mg offset size.
Proof. intros Et [N1 N2 N3 N4]. split; try done. unfold vdev_lookup_top in *. by rewrite Et. Qed.

Lemma dva_valid p d mg offset size : dva_names p d mg offset size -> size <> 0 -> DVA_IS_VALID d = true.
Proof. intros [_ _ N3 _] Hs. unfold DVA_IS_VALID. rewrite N3. by apply negb_true_iff, Z.eqb_neq. Qed.

Lemma dva_metaslab_spec p Bs d mg g msp ms offset size : spa_ok p Bs -> spa_group p !! mg = Some g -> mg_ms (mg_group g) !! msp = Some ms ->
  range_ok (ms_map ms) offset size -> dva_names p d mg offset size -> dva_metaslab p d = Some (mg, msp, size).
Proof.
  intros Hok E Em [R1 R2 R3 _ _] [N1 N2 N3 N4]. destruct (so_pool _ _ Hok mg g E) as (l & Hp). pose proof (so_place _ _ Hok mg g E) as Hv.
  destruct (lg_index _ _ (po_logs _ _ _ _ _ Hp) msp ms Em) as [A1 A2 A3 A4]. pose proof (lg_place _ _ (po_logs _ _ _ _ _ Hp) msp ms Em) as [[P1 P1'] _ _ _].
  cbn [cx_mg group_context] in *. unfold dva_metaslab. rewrite N1. rewrite (proj2 (Z.eqb_neq _ _) (vp_ne _ _ _ Hv)), E. cbn [mbind option_bind]. rewrite N2.
  set (sh := vdev_ms_shift (mg_vd (mg_group g))) in *. assert (0 < 2 ^ sh) as Hsh by (apply Z.pow_pos_nonneg; lia).
  assert (Z.shiftr offset sh = Z.shiftr (sm_start (ms_map ms)) sh) as ->.
  { rewrite !Z.shiftr_div_pow2 by lia. pose proof (Z.div_mod (sm_start (ms_map ms)) (2 ^ sh) ltac:(lia)) as Hd. rewrite A2 in Hd. rewrite A3 in R3.
    symmetry. apply (Z.div_unique offset (2 ^ sh) _ (offset - sm_start (ms_map ms))); lia. }
  rewrite (proj2 (Z.leb_gt _ _)) by lia. rewrite A4. cbn [mbind option_bind]. rewrite N4, Z.eqb_refl. cbn [negb]. by rewrite N3.
Qed.

(** Space of the group [mg] as a DVA can name it. *)
Lemma found_sectors p Bs mg g msp ms B r size : spa_ok p Bs -> spa_group p !! mg = Some g -> mg_ms (mg_group g) !! msp = Some ms -> found ms B r size ->
  sectors 63 0 r /\ r < 2 ^ 64.
Proof.
  intros Hok E Em [[R1 R2 R3 R4 _] _ _]. destruct (so_pool _ _ Hok mg g E) as (l & Hp). pose proof (po_ready _ _ _ _ _ Hp msp ms Em) as [Hlife _ _ Hsh].
  destruct (life_geom _ _ _ _ Hlife) as [_ _ G3]. unfold SPA_MINBLOCKSHIFT in Hsh.
  assert (0 <= sm_start (ms_map ms)) as H0.
  { destruct Hlife as (M & AL & FR & ws & wss & A & As & Href). apply (sf_geom _ _ (mm_map _ _ _ _ (mi_maps _ _ _ _ _ _ _ _ _ _ (rf_inv _ _ _ _ _ _ _ _ _ _ _ Href)))). }
  assert (r mod 512 = 0) as Hr.
  { apply Z.mod_divide; [lia|]. apply (Z.divide_trans _ (2 ^ sm_shift (ms_map ms))); [|apply Z.mod_divide; [apply Z.pow_nonzero; lia|done]].
    exists (2 ^ (sm_shift (ms_map ms) - 9)). rewrite <-(Z.pow_add_r 2 _ 9) by lia. f_equal. lia. }
  split; [|lia]. exists (r / 512). pose proof (Z.div_mod r 512 ltac:(lia)). split; [lia|]. split; [apply Z.div_pos; lia|]. apply Z.div_lt_upper_bound; lia.
Qed.

Lemma top_asize_spec p Bs mg g psize : spa_ok p Bs -> spa_group p !! mg = Some g -> 0 < psize <= SPA_MAXBLOCKSIZE ->
  SPA_MINBLOCKSIZE <= top_asize g psize < 2 ^ 28 /\ top_asize g psize mod 2 ^ vdev_ashift (mg_vd (mg_group g)) = 0.
Proof.
  intros Hok E Hp. destruct (so_place _ _ Hok mg g E) as [_ _ _ V4 _ V6 _ _ _]. change SPA_MAXBLOCKSIZE with (2 ^ 17) in Hp.
  destruct (tree_asize_ok _ psize V4 Hp _ V6) as [[A1 A2] A3]. fold (top_asize g psize) in *. split; [|done]. set (a := vdev_ashift (mg_vd (mg_group g))) in *.
  assert (2 ^ 9 <= 2 ^ a <= 2 ^ 24) as Hu by (split; apply Z.pow_le_mono_r; lia). split; [|lia]. change SPA_MINBLOCKSIZE with (2 ^ 9).
  assert (2 ^ a <= top_asize g psize) by (apply Z.divide_pos_le; [lia|]; apply Z.mod_divide; [lia|done]). lia.
Qed.

(** ** Allocating a copy *)

Definition add_blk Bs mg msp (b : blk) : Z -> Z -> list blk := set_blocks Bs mg (with_block (Bs mg) msp b).

(** [d] names a new block of the group [t] in space that no block has. *)
Record placed p Bs (d : dva) mg msp (offset size : Z) : Prop := {
  pl_names : dva_names p d mg offset size;
  pl_size : size <> 0;
  pl_found : exists g ms, spa_group p !! mg = Some g /\ mg_ms (mg_group g) !! msp = Some ms /\ found ms (Bs mg msp) offset size
}.

Lemma placed_same p p' Bs d mg msp offset size : same_spa p p' -> placed p' Bs d mg msp offset size -> placed p Bs d mg msp offset size.
Proof.
  intros Hs [N1 N2 (g' & ms' & E & Em & Hf)]. destruct (same_spa_group _ _ _ _ Hs E) as (g & Eg & Hg). destruct (sl_ms _ _ (sg_logs _ _ Hg) msp ms' Em) as (ms & E0 & _ & _ & G).
  split; [by eapply dva_names_same; [symmetry; apply Hs|]|done|]. exists g, ms. split; [done|]. split; [done|]. eapply found_geom; [by apply same_geom_sym|done].
Qed.

Lemma group_bias_spec p Bs mg g : spa_ok p Bs -> spa_group p !! mg = Some g -> exists b, group_bias p g = Some b.
Proof.
  intros Hok E. pose proof (vp_space _ _ _ (so_place _ _ Hok mg g E)) as Hv. pose proof (so_space _ _ Hok) as Hp. unfold group_bias.
  rewrite !u64_small by (unfold is_u64; lia). rewrite !(proj2 (Z.eqb_neq _ _)) by lia. cbn [negb andb]. by eexists.
Qed.

Lemma group_selected_spec p Bs mc mg g L offset asize d : spa_ok p Bs -> spa_group p !! mg = Some g -> is_Some (spa_class p !! mc) -> ring (spa_group p) mc (mg :: L) ->
  sectors 63 0 offset -> offset < 2 ^ 64 -> sectors 24 0 asize ->
  exists p' d', group_selected p mc mg offset asize d = Some (p', d') /\ same_spa p p' /\ spa_ok p' Bs /\ dva_names p d' mg offset asize.
Proof.
  intros Hok E [c Ec] Hr Ho Ho2 Ha. unfold group_selected. rewrite Ec. cbn [mbind option_bind]. rewrite E. cbn [mbind option_bind].
  destruct (group_bias_spec p Bs mg g Hok E) as (b & Eb).
  assert (exists g', (if mc_allocated c =? 0 then let* bias := group_bias p g in Some (with_bias g bias) else Some g) = Some g' /\
    mg_next g' = mg_next g /\ mg_group g' = mg_group g /\ same_spa p (set_group p mg g') /\ spa_ok (set_group p mg g') Bs) as (g' & -> & En & Eg & Hs1 & Hok1).
  { destruct (mc_allocated c =? 0).
    - rewrite Eb. cbn [mbind option_bind]. eexists. split; [done|]. split; [done|]. split; [done|]. by apply with_bias_ok.
    - exists g. split; [done|]. split; [done|]. split; [done|]. assert (set_group p mg g = p) as -> by (unfold set_group; rewrite insert_id by done; by destruct p).
      split; [apply same_spa_refl|done]. }
  cbn [mbind option_bind]. rewrite Eg, En. pose proof (ring_same _ _ _ _ Hs1 Hr) as Hr1. set (c' := if _ <=? _ then _ else _).
  assert (exists L', ring (spa_group (set_group p mg g')) mc (mc_rotor c' :: L')) as [L' Hr'].
  { unfold c'. destruct (_ <=? _); cbn [mc_rotor].
    - pose proof (ring_next _ _ _ _ Hr) as Hn. unfold next_of in Hn. rewrite E in Hn. injection Hn as ->.
      destruct (ring_from _ _ (hd mg L) _ Hr1 (hd_in mg L)) as (L' & HL' & _). by exists L'.
    - destruct (so_ring _ _ Hok1 mc c Ec) as [[_ Hr0]|?]; [|done]. exfalso. apply (not_elem_of_nil mg), (rg_class _ _ _ Hr0), (rg_class _ _ _ Hr1). by left. }
  destruct (set_class_ok (set_group p mg g') Bs mc c' L' Hok1 ltac:(by eexists) Hr') as [Hs2 Hok2]. eexists _, _. split; [done|].
  split; [by eapply same_spa_trans|]. split; [done|]. pose proof (so_place _ _ Hok mg g E) as [_ V2 V3 _ _ _ _ _ _].
  destruct (dva_fields d _ offset asize V3 Ho Ho2 Ha) as (F1 & F2 & F3 & F4). split; [|done..]. unfold vdev_lookup_top. by rewrite F1, V2.
Qed.

(** Every metaslab of the group was tried, and none has space of the size. *)
Definition exhausted (psize : Z) p mg : Prop := forall g, spa_group p !! mg = Some g -> vdev_writeable (mg_top g) = true ->
  forall a ms, mg_ms (mg_group g) !! a = Some ms -> ms_weight ms < top_asize g psize.

Context (psize : Z) (Hpsize : 0 < psize <= SPA_MAXBLOCKSIZE) (t : Z) (Ht : in_flight txg t).

Lemma alloc_from_spec p Bs mc mg L dvas d d0 dshift az : spa_ok p Bs -> is_Some (spa_class p !! mc) -> ring (spa_group p) mc (mg :: L) -> dvas !! d = Some d0 -> 3 <= dshift <= 63 ->
  exists p' az' r, alloc_from zfs_recover p mc psize dvas d t mg dshift az = Some (p', az', r) /\ same_spa p p' /\
    match r with
    | Some d' => exists msp offset size, placed p Bs d' mg msp offset size /\ spa_ok p' (add_blk Bs mg msp (mk_blk offset size (Some t) Live))
    | None => spa_ok p' Bs /\ (forall m, m <> mg -> spa_group p' !! m = spa_group p !! m) /\ (dshift = 63 -> az' = az) /\
        (az' = true -> az = true /\ (d = 0%nat -> exhausted psize p' mg))
    end.
Proof using HL HML HLG Hpsize Ht.
  intros Hok Hc Hr Ed Hds. unfold alloc_from. pose proof (proj1 (rg_class _ _ _ Hr mg) ltac:(by left)) as Hcl. destruct (class_some _ _ _ Hcl) as [g E].
  unfold class_of in Hcl. rewrite E in *. injection Hcl as Hcl. cbn [mbind option_bind]. pose proof (so_place _ _ Hok mg g E) as [V1 V2 V3 V4 V5 V6 V7 V8 V9].
  destruct (vdev_writeable (mg_top g)) eqn:Ew; cbn [negb].
  2:{ exists p, az, None. split; [done|]. split; [apply same_spa_refl|]. split; [done|]. split; [done|]. split; [done|]. intros ->. split; [done|]. intros _ g' E'. rewrite E in E'.
      injection E' as <-. congruence. }
  destruct (((_ <? _) || _) && _ && _) eqn:Eerr.
  { exists p, false, None. split; [done|]. split; [apply same_spa_refl|]. split; [done|]. split; [done|]. split; [|done]. intros ->.
    apply andb_true_iff in Eerr as [_ Eerr]. done. }
  rewrite Hcl, Z.eqb_refl. set (vd := mg_vd (mg_group g)) in *. rewrite Z.shiftl_1_l, Z.shiftl_1_l, !u64_pow2 by lia.
  destruct (top_asize_spec p Bs mg g psize Hok E Hpsize) as [Has Hal]. fold vd in Hal. rewrite P2PHASE_mod, Hal, Z.eqb_refl by lia.
  set (dist := Z.shiftr (vdev_asize (mg_top g)) dshift). destruct (so_pool _ _ Hok mg g E) as (l & Hp). assert (dshift = 63 -> (dist <=? 2 ^ vdev_ms_shift vd) = true) as Hnear.
  { intros ->. apply Z.leb_le. unfold dist. rewrite Z.shiftr_div_pow2 by lia. assert (0 < 2 ^ vdev_ms_shift vd) by (apply Z.pow_pos_nonneg; lia).
    assert (vdev_asize (mg_top g) / 2 ^ 63 < 2) by (apply Z.div_lt_upper_bound; lia). lia. }
  set (near := dist <=? 2 ^ vdev_ms_shift vd) in *.
  destruct (group_alloc_spec zfs_recover vd (spa_meta_objset p) txg (group_context p g) l (Bs mg) (top_asize g psize) t (if near then 0 else dist) (take d dvas) Hp)
    as (cx & r & l' & -> & _ & Hgr & Hres).
  { intros a ms Ea. by rewrite (V5 a ms Ea). }
  { lia. }
  { done. }
  cbn [mbind option_bind]. destruct Hres as [(-> & Hok' & Hw)|(Hr' & msp & ms & Ems & Hf & Hok')]; destruct (put_context_ok p Bs mg g cx l' _ Hok E Hgr Hok') as [Hs1 Hok1].
  - rewrite Z.eqb_refl. cbn [negb]. eexists _, _, None. split; [done|]. split; [done|]. split; [|split; [|split]].
    + destruct Hok1 as [S1 S2 S3 SC S4]. split; try done. intros m gm Em. destruct (S1 m gm Em) as (lm & Hm). exists lm. eapply pool_ok_ext; [exact Hm|]. intros a. unfold set_blocks. by destruct (decide (m = mg)) as [->|].
    + intros m Hne. cbn. by rewrite lookup_insert_ne.
    + intros ->. by rewrite Hnear, andb_true_r.
    + intros [-> ->]%andb_true_iff. split; [done|]. intros ->. intros g' E' _ a ms Ea. cbn in E'. rewrite lookup_insert_eq in E'. injection E' as <-.
      assert (ms_weight ms < top_asize g psize) as Hlt by (apply (Hw eq_refl a ms Ea)).
      assert (top_asize (with_group g (cx_mg cx)) psize = top_asize g psize) as ->; [|done]. unfold top_asize. cbn. destruct (sl_vd _ _ (gw_logs _ _ Hgr)) as [tl ->]. done.
  - rewrite (proj2 (Z.eqb_neq _ _) Hr'). cbn [negb]. rewrite Ed. cbn [mbind option_bind]. destruct (found_sectors p Bs mg g msp ms _ r _ Hok E Ems Hf) as [Ho Ho2].
    assert (sectors 24 0 (top_asize g psize)) as Hsec.
    { change SPA_MINBLOCKSIZE with 512 in Has. assert (top_asize g psize mod 512 = 0) as H0.
      { apply Z.mod_divide; [lia|]. apply (Z.divide_trans _ (2 ^ vdev_ashift vd)); [|apply Z.mod_divide; [apply Z.pow_nonzero; lia|done]].
        exists (2 ^ (vdev_ashift vd - 9)). rewrite <-(Z.pow_add_r 2 _ 9) by lia. f_equal. lia. }
      exists (top_asize g psize / 512). pose proof (Z.div_mod (top_asize g psize) 512 ltac:(lia)). split; [lia|]. split; [apply Z.div_pos; lia|]. apply Z.div_lt_upper_bound; lia. }
    set (p1 := put_context p mg g cx) in *. destruct (same_spa_group' _ _ _ _ Hs1 E) as (g1 & E1 & _).
    destruct (group_selected_spec p1 _ mc mg g1 L r (top_asize g psize) d0 Hok1 E1 ltac:(by apply (sp_class _ _ Hs1)) (ring_same _ _ _ _ Hs1 Hr) Ho Ho2 Hsec)
      as (p2 & d' & -> & Hs2 & Hok2 & Hn). cbn [mbind option_bind].
    eexists _, _, (Some d'). split; [done|]. split; [by eapply same_spa_trans|]. exists msp, r, (top_asize g psize). split; [|exact Hok2].
    change SPA_MINBLOCKSIZE with 512 in Has. split; [by eapply dva_names_same; [|exact Hn]; symmetry; apply Hs1|lia|]. by exists g, ms.
Qed.

(** What a copy does: a block, or no space in any group of the ring. *)
Definition copy_result p p' Bs mc dvas (d : nat) (dvas' : list dva) (err : Z) : Prop :=
  (err = 0 /\ exists d' mg msp offset size, dvas' = <[d := d']> dvas /\ placed p Bs d' mg msp offset size /\
     spa_ok p' (add_blk Bs mg msp (mk_blk offset size (Some t) Live))) \/
  (err = ENOSPC /\ dvas' = <[d := mk_dva 0 0]> dvas /\ spa_ok p' Bs /\
     (d = 0%nat -> forall mg, class_of (spa_group p') mg = Some mc -> exhausted psize p' mg)).

Lemma copy_result_same p1 p2 p' Bs mc dvas d dvas' err : same_spa p1 p2 -> copy_result p2 p' Bs mc dvas d dvas' err -> copy_result p1 p' Bs mc dvas d dvas' err.
Proof.
  intros Hs [(? & d' & mg & msp & off & size & ? & Hpl & ?)|?]; [left|by right]. split; [done|]. exists d', mg, msp, off, size. split; [done|]. split; [by eapply placed_same|done].
Qed.

Lemma exhausted_eq p p' mg : spa_group p' !! mg = spa_group p !! mg -> exhausted psize p mg -> exhausted psize p' mg.
Proof. intros E H g. rewrite E. apply H. Qed.

Lemma alloc_dva_loop_spec mc dvas d d0 rotor L : dvas !! d = Some d0 -> forall k p Bs mg seen todo dshift az, spa_ok p Bs -> is_Some (spa_class p !! mc) ->
  ring (spa_group p) mc (rotor :: L) -> rotor :: L = seen ++ mg :: todo -> 3 <= dshift <= 63 -> (dshift = 63 -> az = true) ->
  (az = true -> d = 0%nat -> Forall (exhausted psize p) seen) -> (Z.to_nat (63 - dshift) * length (rotor :: L) + length (mg :: todo) <= k)%nat ->
  exists p' dvas' err, alloc_dva_loop zfs_recover k p mc psize dvas d t rotor mg dshift az = Some (p', dvas', err) /\ same_spa p p' /\ copy_result p p' Bs mc dvas d dvas' err.
Proof using HL HML HLG Hpsize Ht.
  intros Ed. induction k as [|k IH]; intros p Bs mg seen todo dshift az Hok Hc Hr El Hds H63 Hseen Hk; [cbn in Hk; lia|]. cbn [alloc_dva_loop].
  assert (ring (spa_group p) mc (mg :: todo ++ seen)) as Hrm by (rewrite El in Hr; by apply ring_app in Hr).
  destruct (alloc_from_spec p Bs mc mg _ dvas d d0 dshift az Hok Hc Hrm Ed Hds) as (p1 & az1 & r & -> & Hs1 & Hres). cbn [mbind option_bind]. destruct r as [d'|].
  { destruct Hres as (msp & off & size & Hpl & Hok1). eexists _, _, _. split; [done|]. split; [done|]. left. split; [done|]. by exists d', mg, msp, off, size. }
  destruct Hres as (Hok1 & Hoth & Haz & Hex). pose proof (ring_same _ _ _ _ Hs1 Hrm) as Hrm1. pose proof (ring_same _ _ _ _ Hs1 Hr) as Hr1.
  pose proof (ring_next _ _ _ _ Hrm1) as En. unfold next_of in En. destruct (spa_group p1 !! mg) as [g1|] eqn:E1; [|done]. cbn [mbind option_bind]. injection En as En.
  destruct (ring_from _ _ (mg_next g1) _ Hrm1) as (L' & HL' & _); [rewrite En; apply hd_in|].
  destruct (set_class_ok p1 Bs mc (mk_mc (mg_next g1) 0) L' Hok1 ltac:(by apply (sp_class _ _ Hs1)) HL') as [Hs2 Hok2]. set (p2 := set_class p1 mc _) in *.
  pose proof (same_spa_trans _ _ _ Hs1 Hs2) as Hs. assert (is_Some (spa_class p2 !! mc)) as Hc2 by (by apply (sp_class _ _ Hs)).
  assert (az1 = true -> d = 0%nat -> Forall (exhausted psize p2) (seen ++ [mg])) as Hseen2.
  { intros Ha Hd. destruct (Hex Ha) as [Ha0 He]. apply Forall_app. split; [|constructor; [by apply He|constructor]]. specialize (Hseen Ha0 Hd). rewrite Forall_forall in *.
    intros m Hm. apply (exhausted_eq p); [|by apply Hseen]. cbn. apply Hoth. intros ->. pose proof (rg_nodup _ _ _ Hrm) as Hnd. apply NoDup_cons in Hnd as [Hnd _]. apply Hnd, elem_of_app. by right. }
  pose proof (rg_nodup _ _ _ Hrm) as Hnd. destruct todo as [|b todo].
  - assert (mg_next g1 = rotor) as Ert by (rewrite En; destruct seen; cbn in *; by injection El). rewrite Ert, Z.eqb_refl. cbn [negb app] in *. destruct az1; cbn [negb].
    + eexists _, _, _. split; [done|]. split; [done|]. right. split; [done|]. split; [done|]. split; [done|]. intros Hd m Hm.
      specialize (Hseen2 eq_refl Hd). rewrite <-El in Hseen2. rewrite Forall_forall in Hseen2. apply Hseen2, (rg_class _ _ _ (ring_same _ _ _ _ Hs2 Hr1)). done.
    + assert (dshift <> 63) as Hne by (intros Eq; specialize (Haz Eq); specialize (H63 Eq); congruence). rewrite (proj2 (Z.ltb_lt _ _)) by lia.
      destruct (IH p2 Bs rotor [] L (dshift + 1) true) as (p' & dvas' & err & E & Hs' & Hres); [done|done|exact Hr1|done|lia|done|constructor| |].
      { cbn [length] in *. replace (Z.to_nat (63 - dshift)) with (S (Z.to_nat (63 - (dshift + 1)))) in Hk by lia. lia. }
      exists p', dvas', err. split; [done|]. split; [by eapply same_spa_trans|]. by eapply copy_result_same.
  - assert (mg_next g1 = b) as Eb by (by rewrite En). rewrite Eb. assert (b <> rotor) as Hbr.
    { intros ->. rewrite El in Hr. pose proof (rg_nodup _ _ _ Hr) as Hnd'. destruct seen as [|x seen]; cbn in *; injection El as -> El; apply NoDup_cons in Hnd' as [Hn _]; apply Hn; [by left|].
      rewrite elem_of_app, !elem_of_cons. tauto. }
    rewrite (proj2 (Z.eqb_neq _ _) Hbr). cbn [negb].
    destruct (IH p2 Bs b (seen ++ [mg]) todo dshift az1) as (p' & dvas' & err & E & Hs' & Hres);
      [done|done|exact Hr1|by rewrite <-app_assoc|done|intros Eq; rewrite (Haz Eq); by apply H63|done|cbn [length] in *; lia|].
    exists p', dvas', err. split; [done|]. split; [by eapply same_spa_trans|]. by eapply copy_result_same.
Qed.

(** A hint names a vdev that has a group. *)
Definition vdev_of p (d : dva) : Prop := is_Some (spa_group p !! vdev_lookup_top p (DVA_GET_VDEV d)).
Definition hint_ok p (hint : option (list dva)) (d : nat) : Prop := match hint with Some h => exists hd, h !! d = Some hd /\ vdev_of p hd | None => True end.
Definition prev_ok p (dvas : list dva) (d : nat) : Prop := match d with O => True | S d => exists pd, dvas !! d = Some pd /\ vdev_of p pd end.

(** The ring of its class holds the group that follows a group. *)
Lemma next_some p Bs mg g : spa_ok p Bs -> spa_group p !! mg = Some g -> is_Some (spa_group p !! mg_next g).
Proof.
  intros Hok E. destruct (so_class _ _ Hok mg g E) as [c Ec]. assert (class_of (spa_group p) mg = Some (mg_class g)) as Hcl by (unfold class_of; by rewrite E).
  destruct (so_ring _ _ Hok _ c Ec) as [[_ Hr]|[L Hr]].
  - apply (rg_class _ _ _ Hr) in Hcl. by apply not_elem_of_nil in Hcl.
  - destruct (ring_from _ _ mg _ Hr) as (L' & HL' & _); [by apply (rg_class _ _ _ Hr)|]. pose proof (ring_next _ _ _ _ HL') as En. unfold next_of in En. rewrite E in En. injection En as ->.
    eapply class_some, (rg_class _ _ _ HL'), hd_in.
Qed.

Lemma alloc_dva_spec lbolt p Bs mc dvas d d0 hint avoid : spa_ok p Bs -> is_Some (spa_class p !! mc) -> (exists mg, class_of (spa_group p) mg = Some mc) -> dvas !! d = Some d0 -> DVA_IS_VALID d0 = false -> hint_ok p hint d -> prev_ok p dvas d ->
  exists p' dvas' err, metaslab_alloc_dva zfs_recover lbolt p mc psize dvas d hint t avoid = Some (p', dvas', err) /\ same_spa p p' /\ copy_result p p' Bs mc dvas d dvas' err.
Proof using HL HML HLG Hpsize Ht.
  intros Hok [c Ec] [m0 Hm0] Ed Hinv Hhint Hprev. unfold metaslab_alloc_dva. rewrite Ed. cbn [mbind option_bind]. rewrite Hinv. cbn [negb].
  rewrite (proj2 (Z.leb_gt _ _)) by (unfold metaslab_gang_bang; lia). cbn [andb]. rewrite Ec. cbn [mbind option_bind].
  destruct (so_ring _ _ Hok mc c Ec) as [[_ Hr]|[L Hr]]; [apply (rg_class _ _ _ Hr) in Hm0; by apply not_elem_of_nil in Hm0|].
  assert (forall dv, vdev_of p dv -> exists mg g, vdev_lookup_top p (DVA_GET_VDEV dv) = mg /\ spa_group p !! mg = Some g /\ is_Some (spa_group p !! mg_next g)) as Hnext.
  { intros dv [g E]. exists (vdev_lookup_top p (DVA_GET_VDEV dv)), g. split; [done|]. split; [done|]. by eapply next_some. }
  match goal with |- context [mbind _ ?e] => assert (exists mg, e = Some mg /\ is_Some (spa_group p !! mg)) as (mg & -> & [g E]) end.
  { destruct hint as [h|].
    - destruct Hhint as (hd & -> & Hv). cbn [mbind option_bind]. destruct (Hnext hd Hv) as (mg & g & -> & E & Hn). destruct avoid; [|exists mg; split; [done|by eexists]].
      rewrite E. cbn [mbind option_bind]. by eexists.
    - destruct d as [|d]; [|].
      + exists (mc_rotor c). split; [done|]. eapply class_some, (rg_class _ _ _ Hr). by left.
      + destruct Hprev as (pd & -> & Hv). cbn [mbind option_bind]. destruct (Hnext pd Hv) as (mg & g & -> & E & Hn). rewrite E. cbn [mbind option_bind]. by eexists. }
  cbn [mbind option_bind]. rewrite E. cbn [mbind option_bind]. set (mg' := if negb _ then _ else _).
  assert (exists L', ring (spa_group p) mc (mg' :: L')) as [L' Hr'].
  { assert (mg' ∈ mc_rotor c :: L) as Hin.
    { unfold mg'. destruct (Z.eqb_spec (mg_class g) mc) as [Eq|]; cbn [negb]; [|by left]. apply (rg_class _ _ _ Hr). unfold class_of. rewrite E. cbn. by rewrite Eq. }
    destruct (ring_from _ _ mg' _ Hr Hin) as (L' & HL' & _). by exists L'. }
  apply (alloc_dva_loop_spec mc dvas d d0 mg' L' Ed _ p Bs mg' [] L' 3 true Hok ltac:(by eexists) Hr' eq_refl); [lia|done|constructor|].
  assert (length (mg' :: L') <= size (spa_group p))%nat as Hlen; [|unfold alloc_dva_fuel; change (Z.to_nat (63 - 3)) with 60%nat; lia].
  rewrite <-size_dom, <-(size_list_to_set (C := gset Z)) by apply (rg_nodup _ _ _ Hr'). apply subseteq_size.
  intros a Ha%elem_of_list_to_set%(rg_class _ _ _ Hr'). apply elem_of_dom. by eapply class_some.
Qed.

Lemma spa_ok_ext p Bs Bs' : spa_ok p Bs -> (forall mg msp, Bs' mg msp = Bs mg msp) -> spa_ok p Bs'.
Proof.
  intros [S1 S2 S3 SC S4] HB. split; try done. intros mg g E. destruct (S1 mg g E) as (l & Hp). exists l. by eapply pool_ok_ext.
Qed.

(** ** Freeing and claiming *)

(** The block [b] of the metaslab [msp] of the group [mg]. *)
Record block_at p Bs mg msp (b : blk) : Prop := {
  ba_ms : exists g ms, spa_group p !! mg = Some g /\ mg_ms (mg_group g) !! msp = Some ms;
  ba_in : b ∈ Bs mg msp
}.

Lemma block_range p Bs mg g msp ms b : spa_ok p Bs -> spa_group p !! mg = Some g -> mg_ms (mg_group g) !! msp = Some ms -> b ∈ Bs mg msp ->
  range_ok (ms_map ms) (b_off b) (b_size b).
Proof.
  intros Hok E Em Hb. destruct (so_pool _ _ Hok mg g E) as (l & Hp). destruct (po_ready _ _ _ _ _ Hp msp ms Em) as [Hlife _ _ _].
  pose proof (bo_range _ _ _ (life_blocks _ _ _ _ Hlife)) as Hr. rewrite Forall_forall in Hr. by apply Hr.
Qed.

Lemma free_dva_spec p Bs d mg msp B1 b B2 t' (now : bool) : spa_ok p Bs -> block_at p Bs mg msp b -> Bs mg msp = B1 ++ b :: B2 ->
  dva_names p d mg (b_off b) (b_size b) -> t' <= spa_freeze_txg p -> b_free b = Live ->
  (if now then b_alloc b = Some t' else in_flight txg t' /\ forall t0, b_alloc b = Some t0 -> t0 <= t') ->
  exists p', metaslab_free_dva zfs_recover p d t' now = Some p' /\ same_spa p p' /\
    spa_ok p' (set_blocks Bs mg (with_blocks (Bs mg) msp (B1 ++ (if now then [] else [mk_blk (b_off b) (b_size b) (b_alloc b) (Freeing t')]) ++ B2))).
Proof using HL HML HLG.
  intros Hok [(g & ms & E & Em) Hin] EB Hn Hfz Hlive Hcond. unfold metaslab_free_dva. pose proof (block_range p Bs mg g msp ms b Hok E Em Hin) as Hr.
  rewrite (dva_valid _ _ _ _ _ Hn) by (destruct Hr; lia). rewrite (proj2 (Z.ltb_ge _ _)) by lia.
  rewrite (dva_metaslab_spec p Bs d mg g msp ms _ _ Hok E Em Hr Hn). cbn [mbind option_bind]. rewrite (proj2 (Z.eqb_neq _ _) (vp_ne _ _ _ (so_place _ _ Hok mg g E))). cbn [negb].
  rewrite E. cbn [mbind option_bind]. rewrite (dn_offset _ _ _ _ _ Hn). destruct (so_pool _ _ Hok mg g E) as (l & Hp).
  assert (exists cx, metaslab_free_at zfs_recover (group_context p g) msp (b_off b) (b_size b) t' now = Some cx /\ grown (group_context p g) cx /\
    pool_ok (cap := cap) (spa_meta_objset p) txg cx l (with_blocks (Bs mg) msp (B1 ++ (if now then [] else [mk_blk (b_off b) (b_size b) (b_alloc b) (Freeing t')]) ++ B2)))
    as (cx & -> & Hgr & Hp').
  { destruct now.
    - apply (free_now_spec zfs_recover (spa_meta_objset p) txg (group_context p g) l (Bs mg) msp B1 b B2 t' Hp); [by eexists|done..].
    - destruct Hcond as [Ht' Hb]. apply (free_at_spec zfs_recover (mg_vd (mg_group g)) (spa_meta_objset p) txg (group_context p g) l (Bs mg) msp B1 b B2 t' Hp); [by eexists|done..]. }
  cbn [mbind option_bind]. destruct (put_context_ok p Bs mg g cx l _ Hok E Hgr Hp') as [Hs Hok']. by eexists.
Qed.

(** ** All copies *)

Record copy := mk_copy { cp_dva : dva; cp_mg : Z; cp_msp : Z; cp_off : Z; cp_size : Z }.
Definition cp_blk (c : copy) : blk := mk_blk (cp_off c) (cp_size c) (Some t) Live.

(** The blocks once the copies are added, one after the other. *)
Definition with_copies Bs (cs : list copy) : Z -> Z -> list blk := foldl (fun Bs c => add_blk Bs (cp_mg c) (cp_msp c) (cp_blk c)) Bs cs.

(** Each is in space that neither the blocks nor the copies before it have. *)
Fixpoint placed_all p Bs (cs : list copy) : Prop :=
  match cs with
  | [] => True
  | c :: cs => placed p Bs (cp_dva c) (cp_mg c) (cp_msp c) (cp_off c) (cp_size c) /\ placed_all p (add_blk Bs (cp_mg c) (cp_msp c) (cp_blk c)) cs
  end.

Lemma with_copies_snoc Bs cs c : with_copies Bs (cs ++ [c]) = add_blk (with_copies Bs cs) (cp_mg c) (cp_msp c) (cp_blk c).
Proof. unfold with_copies. by rewrite foldl_app. Qed.
Lemma placed_all_snoc p Bs cs c : placed_all p Bs (cs ++ [c]) <-> placed_all p Bs cs /\ placed p (with_copies Bs cs) (cp_dva c) (cp_mg c) (cp_msp c) (cp_off c) (cp_size c).
Proof. revert Bs. induction cs as [|c' cs IH]; intros Bs; cbn [app placed_all with_copies foldl]; [tauto|]. rewrite IH. unfold with_copies. tauto. Qed.

Lemma same_spa_ms p p' mg g msp ms : same_spa p p' -> spa_group p !! mg = Some g -> mg_ms (mg_group g) !! msp = Some ms ->
  exists g' ms', spa_group p' !! mg = Some g' /\ mg_ms (mg_group g') !! msp = Some ms'.
Proof.
  intros Hs E Em. destruct (same_spa_group' _ _ _ _ Hs E) as (g' & E' & Hg). destruct (sg_keys _ _ Hg msp ltac:(by eexists)) as [ms' Em']. by exists g', ms'.
Qed.

Definition no_dva : dva := mk_dva 0 0.

(** [for (d--; d >= 0; d--)] takes the copies back. *)
Lemma alloc_unwind_spec p0 Bs cs : forall p rest, placed_all p0 Bs cs -> same_spa p0 p -> spa_ok p (with_copies Bs cs) -> t <= spa_freeze_txg p0 ->
  exists p', alloc_unwind zfs_recover (length cs) p ((cp_dva <$> cs) ++ rest) t = Some (p', replicate (length cs) no_dva ++ rest) /\ same_spa p0 p' /\ spa_ok p' Bs.
Proof using HL HML HLG Hpsize.
  induction cs as [|c cs IH] using rev_ind; intros p rest Hpl Hs Hok Hfz; [by exists p|].
  apply placed_all_snoc in Hpl as [Hpl [Hn Hsz (g0 & ms0 & E0 & Em0 & _)]]. rewrite length_app. cbn [length]. rewrite Nat.add_comm. cbn [Nat.add alloc_unwind].
  rewrite fmap_app, <-app_assoc. cbn [fmap list_fmap app]. rewrite lookup_app_r, length_fmap, Nat.sub_diag by (by rewrite length_fmap). cbn [lookup list_lookup mbind option_bind].
  rewrite with_copies_snoc in Hok. destruct (same_spa_ms _ _ _ _ _ _ Hs E0 Em0) as (g & ms & E & Em).
  destruct (free_dva_spec p _ (cp_dva c) (cp_mg c) (cp_msp c) [] (cp_blk c) (with_copies Bs cs (cp_mg c) (cp_msp c)) t true Hok) as (p1 & -> & Hs1 & Hok1); try done.
  { split; [by exists g, ms|]. unfold add_blk, set_blocks, with_block. rewrite !decide_True by done. by left. }
  { unfold add_blk, set_blocks, with_block. by rewrite !decide_True. }
  { by eapply dva_names_same; [apply Hs|]. }
  { by rewrite (sp_freeze _ _ Hs). }
  cbn [mbind option_bind app] in *. rewrite insert_app_r_alt, length_fmap, Nat.sub_diag by (by rewrite length_fmap). cbn [insert list_insert].
  destruct (IH p1 (no_dva :: rest) Hpl ltac:(by eapply same_spa_trans)) as (p' & E' & Hs' & Hok'); [|done|].
  { eapply spa_ok_ext; [exact Hok1|]. intros m a. unfold add_blk, set_blocks, with_blocks, with_block. by repeat case_decide; subst. }
  exists p'. split; [|done]. etrans; [exact E'|]. f_equal. f_equal. change (S (length cs)) with (1 + length cs)%nat. rewrite Nat.add_comm, replicate_add, <-app_assoc. done.
Qed.

Lemma vdev_of_same p p' d : same_spa p p' -> vdev_of p d -> vdev_of p' d.
Proof.
  intros Hs [g E]. unfold vdev_of, vdev_lookup_top in *. rewrite (sp_top _ _ Hs). destruct (same_spa_group' _ _ _ _ Hs E) as (g' & E' & _). by eexists.
Qed.

Lemma alloc_copies_spec (clock : nat -> Z) p0 Bs mc hint avoid : is_Some (spa_class p0 !! mc) -> (exists mg, class_of (spa_group p0) mg = Some mc) -> t <= spa_freeze_txg p0 ->
  forall k cs p rest, placed_all p0 Bs cs -> same_spa p0 p -> spa_ok p (with_copies Bs cs) -> (k <= length rest)%nat -> Forall (fun d => DVA_IS_VALID d = false) rest ->
  (forall d, (d < length cs + k)%nat -> hint_ok p0 hint d) ->
  exists p' dvas err, alloc_copies zfs_recover clock k p mc psize ((cp_dva <$> cs) ++ rest) (length cs) hint t avoid = Some (p', dvas, err) /\ same_spa p0 p' /\
    ((err = 0 /\ exists cs', length cs' = k /\ placed_all p0 Bs (cs ++ cs') /\ spa_ok p' (with_copies Bs (cs ++ cs')) /\ dvas = (cp_dva <$> cs ++ cs') ++ drop k rest) \/
     (err = ENOSPC /\ spa_ok p' Bs /\ length dvas = (length cs + length rest)%nat /\ Forall (fun d => DVA_IS_VALID d = false) dvas)).
Proof using HL HML HLG Hpsize Ht.
  intros Hc Hm Hfz. induction k as [|k IH]; intros cs p rest Hpl Hs Hok Hk Hrest Hhint; cbn [alloc_copies].
  { eexists _, _, _. split; [done|]. split; [done|]. left. split; [done|]. exists []. rewrite app_nil_r. done. }
  destruct rest as [|d0 rest]; [cbn in Hk; lia|]. apply Forall_cons in Hrest as [Hd0 Hrest].
  assert (((cp_dva <$> cs) ++ d0 :: rest) !! length cs = Some d0) as Ed by (rewrite lookup_app_r, length_fmap, Nat.sub_diag by (by rewrite length_fmap); done).
  destruct (alloc_dva_spec (clock (length cs)) p (with_copies Bs cs) mc ((cp_dva <$> cs) ++ d0 :: rest) (length cs) d0 hint avoid Hok) as (p1 & dvas1 & err & -> & Hs1 & Hres); try done.
  { by apply (sp_class _ _ Hs). }
  { destruct Hm as [m Hm]. exists m. unfold class_of in *. pose proof (sp_group _ _ Hs m) as Hg. destruct Hg as [g g' Hg|]; [|done]. cbn in *. by rewrite (sg_class _ _ Hg). }
  { specialize (Hhint (length cs) ltac:(lia)). unfold hint_ok in *. destruct hint as [h|]; [|done]. destruct Hhint as (hd & ? & ?). exists hd. split; [done|]. by eapply vdev_of_same. }
  { destruct (length cs) as [|n] eqn:En; [done|]. cbn [prev_ok]. destruct (lookup_lt_is_Some_2 cs n ltac:(lia)) as [c Ec]. exists (cp_dva c).
    split; [rewrite lookup_app_l by (rewrite length_fmap; lia); by rewrite list_lookup_fmap, Ec|]. eapply vdev_of_same; [exact Hs|].
    assert (exists Bs', placed p0 Bs' (cp_dva c) (cp_mg c) (cp_msp c) (cp_off c) (cp_size c)) as (Bs' & [Hn _ (g & ms & E & _)]).
    { clear -Hpl Ec. revert Bs n Hpl Ec. induction cs as [|c' cs IH]; intros Bs [|n] Hpl Ec; try done; destruct Hpl as [H1 H2]; cbn in Ec; [injection Ec as ->; by exists Bs|by eapply IH]. }
    unfold vdev_of. rewrite (dn_group _ _ _ _ _ Hn). by eexists. }
  cbn [mbind option_bind]. pose proof (same_spa_trans _ _ _ Hs Hs1) as Hs2. destruct Hres as [(-> & d' & mg & msp & off & size & -> & Hp1 & Hok1)|(-> & -> & Hok1 & _)]; cbn [Z.eqb negb].
  - set (c := mk_copy d' mg msp off size). rewrite insert_app_r_alt, length_fmap, Nat.sub_diag by (by rewrite length_fmap). cbn [insert list_insert].
    assert ((cp_dva <$> cs) ++ d' :: rest = (cp_dva <$> cs ++ [c]) ++ rest) as -> by (by rewrite fmap_app, <-app_assoc). replace (S (length cs)) with (length (cs ++ [c])) by (rewrite length_app; cbn; lia).
    destruct (IH (cs ++ [c]) p1 rest) as (p' & dvas & err & E & Hs' & Hres); try done.
    { apply placed_all_snoc. split; [done|]. eapply placed_same; [exact Hs|exact Hp1]. }
    { by rewrite with_copies_snoc. }
    { cbn in Hk. lia. }
    { intros d Hd. apply Hhint. rewrite length_app in Hd. cbn in Hd. lia. }
    exists p', dvas, err. split; [done|]. split; [done|]. destruct Hres as [(-> & cs' & Hl & Hpl' & Hok' & ->)|(-> & Hok' & Hl & Hinv)].
    + left. split; [done|]. exists (c :: cs'). rewrite <-app_assoc in *. cbn [app length drop] in *. by rewrite Hl.
    + right. split; [done|]. split; [done|]. rewrite length_app in Hl. cbn in *. split; [lia|done].
  - rewrite insert_app_r_alt, length_fmap, Nat.sub_diag by (by rewrite length_fmap). cbn [insert list_insert].
    destruct (alloc_unwind_spec p0 Bs cs p1 (no_dva :: rest) Hpl Hs2 Hok1 Hfz) as (p' & E' & Hs' & Hok'). unfold no_dva in E'. rewrite E'. cbn [mbind option_bind].
    eexists _, _, _. split; [done|]. split; [done|]. right. split; [done|]. split; [done|]. rewrite length_app, length_replicate. cbn. split; [done|].
    apply Forall_app. split; [by apply Forall_replicate|]. by constructor.
Qed.
End dva.
