(* ===== verification/MetaslabDvaSpec.v ===== *)
(** * Blocks of a pool: what the metaslab layer promises

    The theorems about metaslab classes and about [metaslab_alloc],
    [metaslab_free] and [metaslab_claim_dva]. *)
From Stdlib Require Import ZArith Lia.
From stdpp Require Import base numbers list option gmap.
From S2P Require Import Prelude Avl AvlOps AvlSpec SpaceMap SpaceMapProof SpaceMapSync SpaceMapLog SpaceMapSpec TxgList MetaslabFF Metaslab MetaslabProof MetaslabInv MetaslabSync MetaslabGroup MetaslabAlloc MetaslabLife MetaslabPool MetaslabSpec VdevSync Blkptr Fletcher Refcount RaidzMap MetaslabClass MetaslabRing MetaslabDva.

Section class_spec.
Context {T TG D : Type} `{HIG : AvlIface TG}.

(** C9: The groups of a class form a ring from its rotor.  Adding a group
    puts it into the ring and turns the rotor to it; removing one closes the
    ring and turns the rotor to the group after it; destroying a class whose
    groups have no metaslabs removes all of its groups.  The rings of other
    classes and everything else of the groups stay as they were. *)
Theorem metaslab_class_ring (p : spa T TG D) (mc mg : Z) (L : list Z) (Hring : class_ring p mc L) :
  (mg <> 0 -> class_of (spa_group p) mg = Some 0 -> exists p', metaslab_class_add p mc mg = Some p' /\ relinked p p' /\
     class_ring p' mc (ring_add L mg) /\ forall mc' L', mc' <> mc -> class_ring p mc' L' -> class_ring p' mc' L') /\
  (forall L1 L2, L = L1 ++ mg :: L2 -> exists p', metaslab_class_remove p mc mg = Some p' /\ relinked p p' /\ class_ring p' mc (L2 ++ L1) /\
     class_of (spa_group p') mg = Some 0 /\ forall mc' L', mc' <> mc -> class_ring p mc' L' -> class_ring p' mc' L') /\
  ((forall a g, a ∈ L -> spa_group p !! a = Some g -> os_numnodes (mg_metaslab_tree (mg_group g)) = 0) ->
     exists p', metaslab_class_destroy p mc = Some p' /\ spa_class p' !! mc = None /\
       (forall a, core <$> spa_group p' !! a = if decide (a ∈ L) then None else core <$> spa_group p !! a) /\
       forall mc' L', mc' <> mc -> class_ring p mc' L' -> class_ring p' mc' L').
Proof.
  split; [by apply class_add_spec|]. split; [|by apply class_destroy_spec]. intros L1 L2 ->. by apply class_remove_spec.
Qed.
End class_spec.

Section dva_spec.
Context {T TG D : Type} `{HI : AvlIface T} {cap : nat} {HL : AvlLaws T cap} `{HIG : AvlIface TG} {gcap : nat} {HLG : AvlLaws TG gcap}.
Context `{HD : ObjectStore D} {HDL : ObjectStoreLaws D} `{HM : MosStore D} {HML : MosLaws D}.
Context (zfs_recover : bool) (txg : Z).
Implicit Types (p : spa T TG D) (Bs : Z -> Z -> list blk).

Lemma ndvas_zero bp : BP_GET_NDVAS bp = 0 <-> Forall (fun d => DVA_IS_VALID d = false) (BP_DVAS bp).
Proof.
  unfold BP_GET_NDVAS, BP_DVAS. rewrite !Forall_cons, Forall_nil. destruct (DVA_IS_VALID (blk_dva0 bp)), (DVA_IS_VALID (blk_dva1 bp)), (DVA_IS_VALID (blk_dva2 bp)); cbn; split; try lia; naive_solver.
Qed.

Lemma bp_dvas_with bp dvas : length dvas = 3%nat -> BP_DVAS (with_dvas bp dvas) = dvas.
Proof. by destruct dvas as [|? [|? [|? []]]]. Qed.

Lemma ndvas_split bp k l1 l2 : BP_DVAS bp = l1 ++ l2 -> length l1 = k -> Forall (fun d => DVA_IS_VALID d = true) l1 -> Forall (fun d => DVA_IS_VALID d = false) l2 ->
  BP_GET_NDVAS bp = Z.of_nat k.
Proof.
  unfold BP_DVAS, BP_GET_NDVAS. intros E <- H1 H2.
  destruct l1 as [|a [|b [|c l1]]]; cbn in E; [|injection E as -> E|injection E as -> -> E|injection E as -> -> -> E]; [subst l2; rewrite !Forall_cons in H2; destruct H2 as (-> & -> & -> & _)|..]; try done.
  - subst l2. rewrite !Forall_cons in *. by destruct H1 as (-> & _), H2 as (-> & -> & _).
  - subst l2. rewrite !Forall_cons in *. by destruct H1 as (-> & -> & _), H2 as (-> & _).
  - symmetry in E. apply app_nil in E as [-> _]. rewrite !Forall_cons in *. by destruct H1 as (-> & -> & -> & _).
Qed.

(** The hints of [metaslab_alloc] name vdevs of the pool. *)
Definition hints_ok p (hintbp : option blkptr) (ndvas : Z) : Prop :=
  match hintbp with
  | Some h => ndvas <= BP_GET_NDVAS h /\ forall d hd, (d < Z.to_nat ndvas)%nat -> BP_DVAS h !! d = Some hd -> vdev_of p hd
  | None => True
  end.

Lemma max_replication p : 1 <= spa_max_replication p <= 3.
Proof. unfold spa_max_replication, SPA_DVAS_PER_BP. destruct (_ <? _); lia. Qed.

Lemma copies_valid p Bs t cs : placed_all t p Bs cs -> Forall (fun d => DVA_IS_VALID d = true) (cp_dva <$> cs).
Proof.
  revert Bs. induction cs as [|c cs IH]; intros Bs; [constructor|]. intros [[Hn Hs _] Hcs]. constructor; [by eapply dva_valid|]. by eapply IH.
Qed.

(** C3: metaslab_alloc returns, without failing an assertion, and is all or
    nothing.  With 0 it has put as many DVAs as asked for into the block
    pointer, each naming space of some metaslab of the pool that no block and
    no earlier copy has, and these are now blocks of the transaction group.
    Otherwise it returns ENOSPC, no DVA is set, and the blocks of the pool are
    those it had before, although some copies may have been allocated on the
    way. *)
Theorem metaslab_alloc_correct (clock : nat -> Z) p Bs (mc psize : Z) (bp : blkptr) (ndvas t : Z) (hintbp : option blkptr) (avoid : bool)
    (Hok : spa_ok (cap := cap) txg p Bs) (Hclass : is_Some (spa_class p !! mc)) (Hpsize : 0 < psize <= SPA_MAXBLOCKSIZE) (Ht : in_flight txg t)
    (Hfreeze : t <= spa_freeze_txg p) (Hndvas : 0 < ndvas <= spa_max_replication p) (Hbp : BP_GET_NDVAS bp = 0) (Hhint : hints_ok p hintbp ndvas) :
  exists p' bp' error, metaslab_alloc zfs_recover clock p mc psize bp ndvas t hintbp avoid = Some (p', bp', error) /\ same_spa p p' /\
    ((error = 0 /\ BP_GET_NDVAS bp' = ndvas /\ exists cs, cp_dva <$> cs = take (Z.to_nat ndvas) (BP_DVAS bp') /\ placed_all t p Bs cs /\
        spa_ok (cap := cap) txg p' (with_copies t Bs cs)) \/
     (error = ENOSPC /\ BP_GET_NDVAS bp' = 0 /\ spa_ok (cap := cap) txg p' Bs)).
Proof using HL HML HLG.
  unfold metaslab_alloc. destruct Hclass as [c Ec]. rewrite Ec. cbn [mbind option_bind]. destruct (Z.eqb_spec (mc_rotor c) 0) as [Hz|Hnz].
  { exists p, bp, ENOSPC. split; [done|]. split; [apply same_spa_refl|]. by right. }
  pose proof (max_replication p) as Hmax. rewrite (proj2 (Z.ltb_lt _ _)), (proj2 (Z.leb_le ndvas (spa_max_replication p))), Hbp by lia. cbn [andb Z.eqb].
  replace (match hintbp with Some h => ndvas <=? BP_GET_NDVAS h | None => true end) with true by (destruct hintbp as [h|]; [symmetry; apply Z.leb_le, Hhint|done]).
  assert (exists mg, class_of (spa_group p) mg = Some mc) as Hm.
  { destruct (so_ring _ _ _ Hok mc c Ec) as [[? _]|[L Hr]]; [done|]. exists (mc_rotor c). apply (rg_class _ _ _ Hr). by left. }
  destruct (alloc_copies_spec zfs_recover txg psize Hpsize t Ht clock p Bs mc (BP_DVAS <$> hintbp) avoid ltac:(by eexists) Hm Hfreeze (Z.to_nat ndvas) [] p (BP_DVAS bp))
    as (p' & dvas & error & E & Hs & Hres); [done|apply same_spa_refl|done|cbn; lia|by apply ndvas_zero| |].
  { intros d Hd. cbn [length Nat.add] in Hd. unfold hint_ok. destruct hintbp as [h|]; [|done]. cbn [fmap option_fmap option_map].
    destruct (lookup_lt_is_Some_2 (BP_DVAS h) d ltac:(cbn; lia)) as [hd Ehd]. exists hd. split; [done|]. by apply (proj2 Hhint d hd). }
  cbn [fmap list_fmap app length] in E. rewrite E. cbn [mbind option_bind]. destruct Hres as [(-> & cs & Hl & Hpl & Hok' & ->)|(-> & Hok' & Hl & Hinv)]; cbn [app Z.eqb negb] in *.
  - set (bp' := with_dvas bp _). assert (BP_DVAS bp' = (cp_dva <$> cs) ++ drop (Z.to_nat ndvas) (BP_DVAS bp)) as Eb.
    { unfold bp'. apply bp_dvas_with. rewrite length_app, length_fmap, length_drop, Hl. cbn. lia. }
    assert (BP_GET_NDVAS bp' = ndvas) as Hn.
    { rewrite (ndvas_split bp' (Z.to_nat ndvas) _ _ Eb); [lia|by rewrite length_fmap|by eapply copies_valid|]. apply Forall_drop. by apply ndvas_zero. }
    rewrite Hn, Z.eqb_refl. eexists _, _, _. split; [done|]. split; [done|]. left. split; [done|]. split; [done|]. exists cs. split; [|done].
    rewrite Eb, take_app_length'; [done|]. by rewrite length_fmap.
  - eexists _, _, _. split; [done|]. split; [done|]. right. split; [done|]. split; [|done]. apply ndvas_zero. rewrite bp_dvas_with; [done|]. by rewrite Hl.
Qed.

(** The blocks once those named by the DVAs are freed in the group [t]: each is
    a live block of the pool, allocated in that very group when it is freed at
    once, and not after it otherwise. *)
Inductive frees p (t : Z) (now : bool) : (Z -> Z -> list blk) -> list dva -> (Z -> Z -> list blk) -> Prop :=
  | frees_nil Bs : frees p t now Bs [] Bs
  | frees_cons Bs d ds mg msp B1 b B2 Bs' : block_at p Bs mg msp b -> Bs mg msp = B1 ++ b :: B2 -> dva_names p d mg (b_off b) (b_size b) -> b_free b = Live ->
      (if now then b_alloc b = Some t else forall t0, b_alloc b = Some t0 -> t0 <= t) ->
      frees p t now (set_blocks Bs mg (with_blocks (Bs mg) msp (B1 ++ (if now then [] else [mk_blk (b_off b) (b_size b) (b_alloc b) (Freeing t)]) ++ B2))) ds Bs' ->
      frees p t now Bs (d :: ds) Bs'.

Lemma frees_spec p0 t now Bs ds Bs' : frees p0 t now Bs ds Bs' -> in_flight txg t -> t <= spa_freeze_txg p0 -> forall p, same_spa p0 p -> spa_ok (cap := cap) txg p Bs ->
  exists p', foldM (fun p d => metaslab_free_dva zfs_recover p d t now) p ds = Some p' /\ same_spa p0 p' /\ spa_ok (cap := cap) txg p' Bs'.
Proof using HL HML HLG.
  intros Hfr Ht Hfz. induction Hfr as [Bs|Bs d ds mg msp B1 b B2 Bs' [(g & ms & E & Em) Hin] EB Hn Hlive Hc _ IH]; intros p Hs Hok; cbn [foldM]; [by exists p|].
  destruct (same_spa_ms _ _ _ _ _ _ Hs E Em) as (g' & ms' & E' & Em').
  destruct (free_dva_spec zfs_recover txg p Bs d mg msp B1 b B2 t now Hok) as (p1 & -> & Hs1 & Hok1); [by split; [exists g', ms'|]|done|by eapply dva_names_same; [apply Hs|]| |done|by destruct now|].
  { by rewrite (sp_freeze _ _ Hs). }
  cbn [mbind option_bind]. apply IH; [by eapply same_spa_trans|done].
Qed.


End dva_spec.

(** ** Examples *)

#[local] Existing Instances memory_objects memory_objects_laws memory_mos memory_mos_laws trees tree_laws.

(** A pool of the vdev of [ex_pool] and a class of its own. *)
Definition ex_top : top_vdev := mk_top VDEV_STATE_HEALTHY 0 0 false 32768 [] default_ops.
Definition ex_spa0 : spa avl_tree avl_tree memory :=
  mk_spa {[32 := mk_mc 0 0]} {[16 := mk_group ex_group ex_top metaslab_aliquot 0 0 0 0]} [16] (mk_vs 0 0 0) ex_list ex_mos (2 ^ 64 - 1) 10.
Definition ex_spa : spa avl_tree avl_tree memory := default ex_spa0 (metaslab_class_add ex_spa0 32 16).
Definition ex_bp : blkptr := mk_bp (mk_dva 0 0) (mk_dva 0 0) (mk_dva 0 0) 0 [] 1 0 (mk_cksum 0 0 0 0).

Lemma ex_class : class_ring ex_spa0 32 [].
Proof.
  exists (mk_mc 0 0). split; [done|]. split; [done|]. split; [done|]. split; [apply not_elem_of_nil|]. apply ring_nil. intros a. unfold class_of, ex_spa0. cbn.
  destruct (decide (a = 16)) as [->|Hne]; [by rewrite lookup_singleton_eq|by rewrite lookup_singleton_ne].
Qed.

Lemma metaslab_class_ring_witness :
  16 <> 0 /\ class_of (spa_group ex_spa0) 16 = Some 0 /\ exists p', metaslab_class_add ex_spa0 32 16 = Some p' /\ class_ring p' 32 [16].
Proof.
  assert (class_of (spa_group ex_spa0) 16 = Some 0) as Hc by reflexivity. split; [done|]. split; [done|].
  destruct (proj1 (metaslab_class_ring ex_spa0 32 16 [] ex_class) ltac:(done) Hc) as (p' & E & _ & Hr & _). by exists p'.
Defined.

Lemma ex_spa_groups : exists g, spa_group ex_spa = {[16 := g]} /\ mg_group g = ex_group /\ mg_top g = ex_top /\ mg_class g = 32 /\ mg_next g = 16 /\ mg_prev g = 16.
Proof. eexists. split; [vm_compute; reflexivity|]. repeat split; vm_compute; reflexivity. Qed.

Lemma ex_spa_ok : spa_ok (cap := 100) 1 ex_spa (fun _ _ => []).
Proof.
  destruct ex_spa_groups as (g & Eg & E1 & E2 & E3 & E4 & E5). assert (forall mg g', spa_group ex_spa !! mg = Some g' -> mg = 16 /\ g' = g) as Hone.
  { intros mg g' E. rewrite Eg in E. by apply lookup_singleton_Some in E as [<- <-]. }
  assert (mg_vd ex_group = ex_vdev) as Ev by (vm_compute; reflexivity). assert (mg_ms ex_group = {[8 := with_weight ex_loaded 65536 true]}) as Ems by (vm_compute; reflexivity).
  assert (class_ring ex_spa 32 [16]) as (c & Ec & _ & Er & _ & Hr).
  { destruct (class_add_spec ex_spa0 32 16 [] ex_class) as (p' & E & _ & Hr & _); [done|done|]. unfold ex_spa. by rewrite E. }
  split.
  - intros mg g' E. destruct (Hone mg g' E) as [-> ->]. exists [8]. assert (group_context ex_spa g = ex_pool) as -> by (unfold group_context; rewrite E1; vm_compute; reflexivity). exact ex_pool_ok.
  - intros mg g' E. destruct (Hone mg g' E) as [-> ->]. split; rewrite ?E1, ?E2, ?Ev; [lia|vm_compute; reflexivity|cbn; lia|cbn; lia| |exact I|cbn; lia|cbn; lia|cbn; lia].
    intros a ms Ea. rewrite Ems in Ea. apply lookup_singleton_Some in Ea as [<- <-]. vm_compute. reflexivity.
  - intros mc c' Ec'. assert (mc = 32) as ->.
    { assert (exists x, spa_class ex_spa = {[32 := x]}) as [x Ex] by (eexists; vm_compute; reflexivity). rewrite Ex in Ec'. by apply lookup_singleton_Some in Ec' as [<- _]. }
    rewrite Ec in Ec'. injection Ec' as <-. right. exists []. rewrite Er. exact Hr.
  - intros mg g' E. destruct (Hone mg g' E) as [-> ->]. rewrite E3. eexists. exact Ec.
  - vm_compute. split; [discriminate|reflexivity].
Qed.

Lemma metaslab_alloc_correct_witness :
  exists p' bp' error, metaslab_alloc false (fun _ => 0) ex_spa 32 1000 ex_bp 2 2 None false = Some (p', bp', error) /\ same_spa ex_spa p' /\
    ((error = 0 /\ BP_GET_NDVAS bp' = 2 /\ exists cs, cp_dva <$> cs = take (Z.to_nat 2) (BP_DVAS bp') /\ placed_all 2 ex_spa (fun _ _ => []) cs /\
        spa_ok (cap := 100) 1 p' (with_copies 2 (fun _ _ => []) cs)) \/
     (error = ENOSPC /\ BP_GET_NDVAS bp' = 0 /\ spa_ok (cap := 100) 1 p' (fun _ _ => []))).
Proof.
  refine (metaslab_alloc_correct false 1 (fun _ => 0) ex_spa (fun _ _ => []) 32 1000 ex_bp 2 2 None false ex_spa_ok _ _ _ _ _ _ I);
    [vm_compute; by eexists|vm_compute; split; [done|discriminate]|unfold in_flight; lia|vm_compute; discriminate|vm_compute; split; [done|discriminate]|reflexivity].
Defined.

(** The pool with one block, allocated in the group 2. *)
Definition ex_dva : dva := match metaslab_alloc_dva false 0 ex_spa 32 1000 [mk_dva 0 0] 0 None 2 false with Some (_, [d], _) => d | _ => mk_dva 0 0 end.
Definition ex_spa1 : spa avl_tree avl_tree memory := match metaslab_alloc_dva false 0 ex_spa 32 1000 [mk_dva 0 0] 0 None 2 false with Some (p, _, _) => p | _ => ex_spa end.
Definition ex_bp1 : blkptr := with_dvas ex_bp [ex_dva].

Lemma some_triple {A B C} (a a' : A) (b b' : B) (c c' : C) : Some (a, b, c) = Some (a', b', c') -> a = a' /\ b = b' /\ c = c'.
Proof. by intros [= -> -> ->]. Qed.

Lemma ex_one_block : exists Bs, spa_ok (cap := 100) 1 ex_spa1 Bs /\ Bs 16 8 = [mk_blk 0 1024 (Some 2) Live] /\ dva_names ex_spa1 ex_dva 16 0 1024.
Proof.
  destruct (alloc_dva_spec false 1 1000 ltac:(vm_compute; split; [done|discriminate]) 2 ltac:(unfold in_flight; lia) 0 ex_spa (fun _ _ => []) 32 [mk_dva 0 0] 0 (mk_dva 0 0) None false ex_spa_ok)
    as (p' & dvas & err & E & Hs & Hres); [vm_compute; by eexists|exists 16; vm_compute; reflexivity|done|done|done|done|].
  assert (metaslab_alloc_dva false 0 ex_spa 32 1000 [mk_dva 0 0] 0 None 2 false = Some (ex_spa1, [ex_dva], 0)) as E' by (vm_compute; reflexivity).
  rewrite E' in E. apply some_triple in E as (<- & <- & <-). destruct Hres as [(_ & d' & mg & msp & off & size & Ed & [Hn _ (g & ms & Eg & Em & _)] & Hok)|(Herr & _)]; [|discriminate Herr].
  assert (ex_dva = d') as <- by (change (<[0%nat := d']> [mk_dva 0 0]) with [d'] in Ed; pose proof (f_equal (hd (mk_dva 0 0)) Ed) as E0; exact E0). pose proof Hn as [N1 N2 N3 _]. assert (mg = 16) as -> by (rewrite <-N1; vm_compute; reflexivity). assert (off = 0) as -> by (rewrite <-N2; vm_compute; reflexivity).
  assert (size = 1024) as -> by (rewrite <-N3; vm_compute; reflexivity). destruct ex_spa_groups as (g0 & Eg0 & E1 & _). rewrite Eg0, lookup_singleton_eq in Eg. injection Eg as <-.
  assert (mg_ms (mg_group g0) = {[8 := with_weight ex_loaded 65536 true]}) as Ems by (rewrite E1; vm_compute; reflexivity). rewrite Ems in Em. apply lookup_singleton_Some in Em as [<- _].
  eexists. split; [exact Hok|]. split; [done|]. by eapply dva_names_same; [|exact Hn]; apply Hs.
Qed.


