(* ===== verification/AvlHeap.v ===== *)
(** * AVL trees among other objects

    [AvlLaws] is the contract for clients whose objects are all in the tree.
    Clients that keep objects outside of it need to know that the operations
    leave those alone: [AvlHeapLaws] is that contract, with the set of the
    objects outside, and [avl.c] is an instance. *)
From Stdlib Require Import ZArith Lia.
From stdpp Require Import base numbers list option gmap.
From S2P Require Import Prelude Avl AvlTree AvlProof AvlOps AvlRemove AvlDestroy AvlSpec.

(** [oh_abs s l X]: the tree holds the objects [l] in this order, and the
    others are [X].  [oh_hole s l1 l2 w]: [w] is the index of the place between
    [l1] and [l2].  At most [cap] objects are allocated. *)
Class AvlHeapLaws (S : Type) `{AvlIface S} (cap : nat) := {
  oh_abs : S -> list Z -> gset Z -> Prop;
  oh_hole : S -> list Z -> list Z -> Z -> Prop;
  oh_objects s l X : oh_abs s l X -> NoDup l /\ forall a, a ∈ l -> a <> 0 /\ a ∉ X;
  oh_find s l X f : oh_abs s l X -> compares f l ->
    (exists a w, a ∈ l /\ f a = 0 /\ os_find s f = Some (a, w)) \/
    (exists l1 l2 w, l = l1 ++ l2 /\ (forall z, z ∈ l1 -> f z = 1) /\ (forall z, z ∈ l2 -> f z = -1) /\
       os_find s f = Some (0, w) /\ oh_hole s l1 l2 w);
  oh_nearest s l1 l2 w : oh_hole s l1 l2 w ->
    os_nearest s w true = Some (hd 0 l2) /\ os_nearest s w false = Some (hd 0 (rev l1));
  oh_alloc s l X : oh_abs s l X -> (length l + size X < cap)%nat ->
    exists a s', os_alloc s = (a, s') /\ oh_abs s' l ({[a]} ∪ X) /\ (a ∉ l) /\ (a ∉ X) /\ a <> 0;
  oh_free s l X a : oh_abs s l X -> a ∈ X -> oh_abs (os_free s a) l (X ∖ {[a]});
  oh_insert s l1 l2 X w a : oh_abs s (l1 ++ l2) X -> a ∈ X -> oh_hole s l1 l2 w ->
    exists s', os_insert s a w = Some s' /\ oh_abs s' (l1 ++ a :: l2) (X ∖ {[a]});
  oh_insert_here s l1 here l2 X a d : oh_abs s (l1 ++ here :: l2) X -> a ∈ X ->
    exists s', os_insert_here s a here d = Some s' /\ oh_abs s' (l1 ++ (if d then [here; a] else [a; here]) ++ l2) (X ∖ {[a]});
  oh_remove s l1 a l2 X : oh_abs s (l1 ++ a :: l2) X ->
    exists s', os_remove s a = Some s' /\ oh_abs s' (l1 ++ l2) ({[a]} ∪ X);
  oh_walk s l1 a l2 X : oh_abs s (l1 ++ a :: l2) X -> os_walk s a true = Some (hd 0 l2) /\ os_walk s a false = Some (hd 0 (rev l1));
  oh_num s l X : oh_abs s l X -> os_numnodes s = Z.of_nat (length l)
}.

Section instance.
Context (kmem_alloc : gset Z -> Z) (tmp : Z) (junk : avl_node) (cap : nat).
Context (Htmp : is_ptr tmp) (Hcap : Z.of_nat cap < 2 ^ 60).
Context (Halloc : forall X : gset Z, (size X <= cap)%nat -> (kmem_alloc X ∉ X) /\ is_ptr (kmem_alloc X)).

#[local] Instance iface : AvlIface avl_tree := avl_iface kmem_alloc tmp junk.

Record heap_abs (t : avl_tree) (l : list Z) (X : gset Z) : Prop := {
  ha_tree : exists T, is_tree t T /\ flat T = l;
  ha_dom : dom (heap t) = X ∪ list_to_set l;
  ha_apart : X ## list_to_set l;
  ha_tmp : tmp ∉ X ∪ list_to_set l;
  ha_cap : (length l + size X <= cap)%nat;
  ha_ptr : forall a, a ∈ X -> is_ptr a
}.

Lemma heap_objects t l X : heap_abs t l X -> NoDup l /\ (forall a, a ∈ l -> is_ptr a /\ is_Some (heap t !! a)) /\ (forall a, a ∈ X -> is_Some (heap t !! a)).
Proof.
  intros [(T & HT & <-) Hd Hx _ _ _]. destruct HT as [H1 [rc H2] H3 H4 H5]. split; [done|].
  split; [intros a Ha; by eapply rep_elem|]. intros a Ha. apply elem_of_dom. rewrite Hd. set_solver.
Qed.

(** An object moves between the tree and the others; the heap has the same
    objects. *)
Lemma heap_moved t t' T' l l' X X' : heap_abs t l X -> is_tree t' T' -> flat T' = l' -> dom (heap t') = dom (heap t) ->
  X' ∪ list_to_set l' = X ∪ list_to_set l -> X' ## list_to_set l' -> (length l' + size X' = length l + size X)%nat ->
  (forall a, a ∈ X' -> is_ptr a) -> heap_abs t' l' X'.
Proof.
  intros [_ Hd Hx Ht Hc Hp] HT Hf Ed Es Hx' Hn Hp'. split; [by exists T'| | | | |]; try done.
  - by rewrite Ed, Hd, Es.
  - by rewrite Es.
  - lia.
Qed.

Lemma heap_find t l X f : heap_abs t l X -> compares f l ->
  (exists a w, a ∈ l /\ f a = 0 /\ avl_find t f = Some (a, w)) \/
  (exists l1 l2 w, l = l1 ++ l2 /\ (forall z, z ∈ l1 -> f z = 1) /\ (forall z, z ∈ l2 -> f z = -1) /\
     avl_find t f = Some (0, w) /\ avl_hole t l1 l2 w).
Proof.
  intros [(T & HT & <-) _ _ _ _ _] Hc. destruct (avl_find_spec t T f HT Hc) as [(a & H1 & H2 & H3)|(ctx & rc & H1 & H2 & H3 & H4 & H5)].
  - left. by exists a, 0.
  - right. subst T. exists (before ctx), (after ctx), (hole_index ctx). split; [by rewrite flat_plug|].
    split; [done|]. split; [done|]. split; [done|]. by exists ctx, rc.
Qed.

Lemma heap_alloc t l X : heap_abs t l X -> (length l + size X < cap)%nat ->
  exists a t', avl_kmem_alloc kmem_alloc tmp junk t = (a, t') /\ heap_abs t' l ({[a]} ∪ X) /\ (a ∉ l) /\ (a ∉ X) /\ a <> 0.
Proof using All.
  intros [(T & HT & Hf) Hd Hx Ht Hc Hp] Hlt. unfold avl_kmem_alloc. set (a := kmem_alloc _).
  assert (NoDup l) as Hnd by (rewrite <-Hf; by destruct HT).
  destruct (Halloc ({[tmp]} ∪ dom (heap t))) as [Ha Hpa].
  { rewrite Hd, size_union by set_solver. rewrite size_singleton, size_union, size_list_to_set by done. lia. }
  fold a in Ha, Hpa. rewrite Hd in Ha. assert (a ∉ l) as Hal by set_solver. assert (a ∉ X) as HaX by set_solver.
  eexists a, _. split; [done|]. split; [|split; [done|split; [done|auto with avl]]]. split; cbn [heap with_heap].
  - exists T. split; [|done]. apply is_tree_other; [done|]. rewrite Hf. intros z Hz. apply lookup_insert_ne. by intros <-.
  - rewrite dom_insert_L, Hd. set_solver.
  - set_solver.
  - set_solver.
  - rewrite size_union, size_singleton by set_solver. lia.
  - set_solver.
Qed.

Lemma heap_free t l X a : heap_abs t l X -> a ∈ X -> heap_abs (avl_kmem_free t a) l (X ∖ {[a]}).
Proof.
  intros [(T & HT & <-) Hd Hx Ht Hc Hp] Ha. split; cbn [heap with_heap avl_kmem_free].
  - exists T. split; [|done]. apply is_tree_other; [done|]. intros z Hz. apply lookup_delete_ne. intros <-. set_solver.
  - rewrite dom_delete_L, Hd. set_solver.
  - set_solver.
  - set_solver.
  - rewrite size_difference, size_singleton by set_solver. lia.
  - set_solver.
Qed.

(** After an insertion of [a], which was outside. *)
Lemma heap_inserted t t' T' l l' X a : heap_abs t l X -> a ∈ X -> is_tree t' T' -> flat T' = l' -> l' ≡ₚ a :: l -> same_off (a :: l) (heap t) (heap t') ->
  heap_abs t' l' (X ∖ {[a]}).
Proof.
  intros Hh Ha HT Hf Hperm Hoff. destruct (heap_objects _ _ _ Hh) as (_ & Hl & HX). pose proof (ha_apart _ _ _ Hh) as Hx.
  eapply heap_moved; [exact Hh|exact HT|exact Hf| | | | |].
  - apply (same_off_dom _ _ _ Hoff). intros z [->|Hz]%elem_of_cons; [by apply HX|by apply Hl].
  - rewrite Hperm. cbn [list_to_set]. apply set_eq. intros z. destruct (decide (z = a)); set_solver.
  - rewrite Hperm. cbn [list_to_set]. set_solver.
  - rewrite Hperm, size_difference, size_singleton by set_solver. cbn [length].
    assert (size X <> 0%nat); [|lia]. intros E%size_empty_inv. set_solver.
  - intros z Hz. apply (ha_ptr _ _ _ Hh). set_solver.
Qed.

Lemma heap_insert t l1 l2 X w a : heap_abs t (l1 ++ l2) X -> a ∈ X -> avl_hole t l1 l2 w ->
  exists t', avl_insert t a w = Some t' /\ heap_abs t' (l1 ++ a :: l2) (X ∖ {[a]}).
Proof using All.
  intros Hh Ha (ctx & rc & HT & Hc & Hb & Haf & ->). destruct (heap_objects _ _ _ Hh) as (_ & _ & HX). destruct (HX a Ha) as [n Hn].
  assert (flat (plug ctx Leaf) = l1 ++ l2) as Hf by (rewrite flat_plug, Hb, Haf; done). pose proof (ha_apart _ _ _ Hh) as Hx. pose proof (ha_cap _ _ _ Hh) as Hcp.
  destruct (avl_insert_spec t (plug ctx Leaf) ctx rc a n HT) as (t' & T' & E & HT' & Hf' & Hoff); try done.
  { by apply (ha_ptr _ _ _ Hh). } { rewrite Hf. set_solver. } { rewrite Hf. lia. }
  exists t'. split; [done|]. rewrite Hb, Haf in Hf'. eapply heap_inserted; [exact Hh|done|done|done| |by rewrite <-Hf].
  by rewrite <-Permutation_middle.
Qed.

Lemma heap_insert_here t l1 here l2 X a d : heap_abs t (l1 ++ here :: l2) X -> a ∈ X ->
  exists t', avl_insert_here t a here d = Some t' /\ heap_abs t' (l1 ++ (if d then [here; a] else [a; here]) ++ l2) (X ∖ {[a]}).
Proof using All.
  intros Hh Ha. destruct (heap_objects _ _ _ Hh) as (_ & _ & HX). destruct (HX a Ha) as [n Hn]. destruct (ha_tree _ _ _ Hh) as (T & HT & Hf).
  pose proof (ha_apart _ _ _ Hh) as Hx. pose proof (ha_cap _ _ _ Hh) as Hcp.
  destruct (avl_insert_here_spec t T l1 here l2 a n d HT Hf) as (t' & T' & E & HT' & Hf' & Hoff); [by apply (ha_ptr _ _ _ Hh)|done| | |].
  { rewrite Hf. set_solver. } { rewrite Hf. lia. }
  exists t'. split; [done|]. eapply heap_inserted; [exact Hh|done|done|done| |by rewrite <-Hf].
  destruct d; cbn [app]; [|by rewrite <-Permutation_middle].
  rewrite <-Permutation_middle, (Permutation_middle _ _ a), <-!Permutation_middle, (Permutation_swap a). done.
Qed.

Lemma heap_remove t l1 a l2 X : heap_abs t (l1 ++ a :: l2) X ->
  exists t', avl_remove tmp t a = Some t' /\ heap_abs t' (l1 ++ l2) ({[a]} ∪ X).
Proof using All.
  intros Hh. destruct (heap_objects _ _ _ Hh) as (Hnd & Hl & HX). destruct (ha_tree _ _ _ Hh) as (T & HT & Hf).
  pose proof (ha_apart _ _ _ Hh) as Hx. pose proof (ha_tmp _ _ _ Hh) as Ht.
  destruct (avl_remove_spec t T l1 a l2 tmp HT Hf Htmp) as (t' & T' & E & HT' & Hf' & Hoff).
  { apply not_elem_of_dom. by rewrite (ha_dom _ _ _ Hh). }
  exists t'. split; [done|]. rewrite <-Permutation_middle in Hnd. apply NoDup_cons in Hnd as [N1 _].
  assert (a ∉ X) as HaX by (intros Ha; apply (Hx a Ha); set_solver).
  eapply heap_moved; [exact Hh|exact HT'|exact Hf'| | | | |].
  - apply (same_off_dom _ _ _ Hoff). rewrite Hf. intros z Hz. by apply Hl.
  - set_solver.
  - set_solver.
  - rewrite size_union, size_singleton, !length_app by set_solver. cbn [length]. lia.
  - intros z [->%elem_of_singleton|Hz]%elem_of_union; [apply Hl; set_solver|by apply (ha_ptr _ _ _ Hh)].
Qed.

Definition avl_heap_laws : @AvlHeapLaws avl_tree (avl_iface kmem_alloc tmp junk) cap.
Proof using All.
  change (@AvlHeapLaws avl_tree iface cap).
  refine {|
    oh_abs := heap_abs; oh_hole := avl_hole; oh_find := heap_find; oh_nearest := avl_nearest_law; oh_alloc := heap_alloc; oh_free := heap_free;
    oh_insert := heap_insert; oh_insert_here := heap_insert_here; oh_remove := heap_remove |}.
  - intros t l X Hh. destruct (heap_objects _ _ _ Hh) as (Hnd & Ho & _). split; [done|]. intros a Ha. destruct (Ho a Ha).
    split; [auto with avl|]. pose proof (ha_apart _ _ _ Hh). set_solver.
  - intros t l1 a l2 X [(T & HT & Hf) _ _ _ _ _]. by apply (avl_walk_sequence t T).
  - intros t l X [(T & HT & <-) _ _ _ _ _]. apply HT.
Defined.
End instance.
