(* ===== verification/Rlock.v ===== *)
(** * Range locks ([zfs_rlock.c])

    Readers and writers lock ranges of a file.  The locked ranges are the
    entries of a tree in the order of their offsets.  Where readers overlap the
    tree has proxies with reference counts, split at the ends of the ranges,
    and the locks themselves are only the callers' handles. *)
From Stdlib Require Import ZArith Lia.
From stdpp Require Import base numbers list option gmap.
From S2P Require Import Prelude AvlSpec.

Definition UINT64_MAX : Z := 2 ^ 64 - 1.
Definition ISP2 (x : Z) : bool := Z.land x (u64 (x - 1)) =? 0.

Inductive rl_type := RL_READER | RL_WRITER | RL_APPEND.

#[export] Instance rl_type_eq : EqDecision rl_type.
Proof. solve_decision. Defined.

Definition is_writer (t : rl_type) : bool := bool_decide (t = RL_WRITER).
Definition is_reader (t : rl_type) : bool := bool_decide (t = RL_READER).

Record rl := mk_rl {
  r_off : Z;
  r_len : Z;
  r_cnt : Z;
  r_type : rl_type;
  r_proxy : bool;
  r_write_wanted : bool;
  r_read_wanted : bool
}.

#[export] Instance rl_eq : EqDecision rl.
Proof. solve_decision. Defined.

Definition with_off (e : rl) (off len : Z) : rl := mk_rl off len (r_cnt e) (r_type e) (r_proxy e) (r_write_wanted e) (r_read_wanted e).
Definition with_cnt (e : rl) (cnt : Z) : rl := mk_rl (r_off e) (r_len e) cnt (r_type e) (r_proxy e) (r_write_wanted e) (r_read_wanted e).
Definition with_type (e : rl) (t : rl_type) : rl := mk_rl (r_off e) (r_len e) (r_cnt e) t (r_proxy e) (r_write_wanted e) (r_read_wanted e).
Definition with_wanted (e : rl) (ww rw : bool) : rl := mk_rl (r_off e) (r_len e) (r_cnt e) (r_type e) (r_proxy e) ww rw.
Definition r_end (e : rl) : Z := u64 (r_off e + r_len e).

Definition zfs_range_compare (rl1 rl2 : rl) : Z :=
  if r_off rl2 <? r_off rl1 then 1 else if r_off rl1 <? r_off rl2 then -1 else 0.

(** The condition variables of an entry: that of the writers, when [true], and
    that of the readers. *)
Definition kcondvar : Type := Z * bool.

Section rlock.
Context {T : Type} `{HI : AvlIface T}.

(** The locks of a file, and what append and growth need of it; [z_vnode] is
    false for a volume. *)
Record znode := mk_zp {
  z_range_avl : T;
  z_rl : gmap Z rl;
  z_vnode : bool;
  zp_size : Z;
  z_blksz : Z;
  z_max_blksz : Z
}.

Definition with_avl (zp : znode) (tree : T) : znode := mk_zp tree (z_rl zp) (z_vnode zp) (zp_size zp) (z_blksz zp) (z_max_blksz zp).
Definition set_rl (zp : znode) (a : Z) (e : rl) : znode :=
  mk_zp (z_range_avl zp) (<[a := e]> (z_rl zp)) (z_vnode zp) (zp_size zp) (z_blksz zp) (z_max_blksz zp).

(** [kmem_alloc] and the stores to the fields; [kmem_free]. *)
Definition new_rl (zp : znode) (e : rl) : Z * znode :=
  let '(a, tree) := os_alloc (z_range_avl zp) in (a, set_rl (with_avl zp tree) a e).
Definition free_rl (zp : znode) (a : Z) : znode :=
  mk_zp (os_free (z_range_avl zp) a) (delete a (z_rl zp)) (z_vnode zp) (zp_size zp) (z_blksz zp) (z_max_blksz zp).

(** ** The tree *)

Definition rl_compar (zp : znode) (e : rl) (a : Z) : Z :=
  match z_rl zp !! a with Some e' => zfs_range_compare e e' | None => 2 end.
Definition range_find (zp : znode) (e : rl) : option (Z * Z) := os_find (z_range_avl zp) (rl_compar zp e).
Definition range_insert (zp : znode) (a where_ : Z) : option znode :=
  let* tree := os_insert (z_range_avl zp) a where_ in Some (with_avl zp tree).

(** [avl_add(tree, a)]. *)
Definition range_add (zp : znode) (a : Z) : option znode :=
  let* e := z_rl zp !! a in
  let* (found, where_) := range_find zp e in
  VERIFY found =? 0 in range_insert zp a where_.
Definition range_remove (zp : znode) (a : Z) : option znode :=
  let* tree := os_remove (z_range_avl zp) a in Some (with_avl zp tree).
Definition AVL_NEXT (zp : znode) (a : Z) : option Z := os_walk (z_range_avl zp) a true.

(** ** Writers *)

(** [wait:] up to [cv_wait]. *)
Definition wait_writer (zp : znode) (a : Z) : option (znode * option kcondvar) :=
  let* e := z_rl zp !! a in
  Some ((if negb (r_write_wanted e) then set_rl zp a (with_wanted e true (r_read_wanted e)) else zp), Some (a, true)).
Definition wait_reader (zp : znode) (a : Z) : option (znode * option kcondvar) :=
  let* e := z_rl zp !! a in
  Some ((if negb (r_read_wanted e) then set_rl zp a (with_wanted e (r_write_wanted e) true) else zp), Some (a, false)).

(** The range a writer has to lock. *)
Definition writer_range (zp : znode) (n : rl) (len : Z) : rl :=
  if z_vnode zp then
    let n := if bool_decide (r_type n = RL_APPEND) then with_off n (zp_size zp) (r_len n) else n in
    let end_size := Z.max (zp_size zp) (u64 (r_off n + len)) in
    if (z_blksz zp <? end_size) && (negb (ISP2 (z_blksz zp)) || (z_blksz zp <? z_max_blksz zp)) then with_off n 0 UINT64_MAX else n
  else n.

(** One round of the loop, from the reset of the range on: the lock is taken,
    or the caller waits on the condition variable. *)
Definition zfs_range_lock_writer (zp : znode) (new off len : Z) : option (znode * option kcondvar) :=
  let* n := z_rl zp !! new in
  let n := writer_range zp (with_off n off len) len in
  let zp := set_rl zp new n in
  if os_numnodes (z_range_avl zp) =? 0 then
    let* zp := range_add (set_rl zp new (with_type n RL_WRITER)) new in Some (zp, None)
  else
    let* (found, where_) := range_find zp n in
    if negb (found =? 0) then wait_writer zp found
    else
      let* next := os_nearest (z_range_avl zp) where_ true in
      let* after := if next =? 0 then Some false else let* e := z_rl zp !! next in Some (r_off e <? r_end n) in
      if (after : bool) then wait_writer zp next
      else
        let* prev := os_nearest (z_range_avl zp) where_ false in
        let* before := if prev =? 0 then Some false else let* e := z_rl zp !! prev in Some (r_off n <? r_end e) in
        if (before : bool) then wait_writer zp prev
        else
          let* zp := range_insert (set_rl zp new (with_type n RL_WRITER)) new where_ in Some (zp, None).

(** ** Readers *)

Definition proxy_rl (off len cnt : Z) : rl := mk_rl off len cnt RL_READER true false false.

Definition zfs_range_proxify (zp : znode) (a : Z) : option (znode * Z) :=
  let* e := z_rl zp !! a in
  if r_proxy e then Some (zp, a)
  else
    VERIFY r_cnt e =? 1 in
    VERIFY negb (r_write_wanted e) in
    VERIFY negb (r_read_wanted e) in
    let* zp := range_remove zp a in
    let zp := set_rl zp a (with_cnt e 0) in
    let '(proxy, zp) := new_rl zp (proxy_rl (r_off e) (r_len e) 1) in
    let* zp := range_add zp proxy in Some (zp, proxy).

Definition zfs_range_split (zp : znode) (a off : Z) : option (znode * Z) :=
  let* e := z_rl zp !! a in
  VERIFY 1 <? r_len e in
  VERIFY r_off e <? off in
  VERIFY off <? r_end e in
  VERIFY negb (r_write_wanted e) in
  VERIFY negb (r_read_wanted e) in
  let '(rear, zp) := new_rl zp (proxy_rl off (u64 (r_off e + r_len e - off)) (r_cnt e)) in
  let* (zp, front) := zfs_range_proxify zp a in
  let* f := z_rl zp !! front in
  let zp := set_rl zp front (with_off f (r_off f) (u64 (off - r_off e))) in
  let* tree := os_insert_here (z_range_avl zp) rear front true in Some (with_avl zp tree, front).

Definition zfs_range_new_proxy (zp : znode) (off len : Z) : option znode :=
  VERIFY negb (len =? 0) in
  let '(a, zp) := new_rl zp (proxy_rl off len 1) in range_add zp a.

(** [a->r_cnt++]. *)
Definition bump (zp : znode) (a : Z) : option znode :=
  let* e := z_rl zp !! a in Some (set_rl zp a (with_cnt e (u32 (r_cnt e + 1)))).

(** The forward search and the remaining end range. *)
Fixpoint add_reader_loop (k : nat) (zp : znode) (off len prev next : Z) : option znode :=
  match k with
  | O => None
  | S k =>
      let remaining :=
        let* p := z_rl zp !! prev in zfs_range_new_proxy zp (r_end p) (u64 (off + len - r_end p)) in
      if next =? 0 then remaining
      else
        let* e := z_rl zp !! next in
        if u64 (off + len) <=? r_off e then remaining
        else
          let* zp :=
            if negb (prev =? 0) then
              let* p := z_rl zp !! prev in
              if r_end p <? r_off e then zfs_range_new_proxy zp (r_end p) (u64 (r_off e - r_end p)) else Some zp
            else Some zp in
          if u64 (off + len) =? r_end e then
            let* (zp, next) := zfs_range_proxify zp next in bump zp next
          else if u64 (off + len) <? r_end e then
            let* (zp, next) := zfs_range_split zp next (u64 (off + len)) in bump zp next
          else
            let* (zp, next) := zfs_range_proxify zp next in
            let* zp := bump zp next in
            let* next' := AVL_NEXT zp next in add_reader_loop k zp off len next next'
  end.

(** Every round moves to an entry further on. *)
Definition range_fuel (zp : znode) : nat := S (Z.to_nat (os_numnodes (z_range_avl zp))).

Definition zfs_range_add_reader (zp : znode) (new prev where_ : Z) : option znode :=
  let* n := z_rl zp !! new in
  let off := r_off n in
  let len := r_len n in
  let* (zp, prev) :=
    if prev =? 0 then Some (zp, 0)
    else
      let* p := z_rl zp !! prev in
      if r_end p <=? off then Some (zp, 0)
      else if negb (r_off p =? off) then
        let* (zp, front) := zfs_range_split zp prev off in
        let* rear := AVL_NEXT zp front in Some (zp, rear)
      else Some (zp, prev) in
  let* ok := if prev =? 0 then Some true else let* p := z_rl zp !! prev in Some (r_off p =? off) in
  VERIFY ok in
  let* next := if negb (prev =? 0) then Some prev else os_nearest (z_range_avl zp) where_ true in
  let* apart := if next =? 0 then Some true else let* e := z_rl zp !! next in Some (u64 (off + len) <=? r_off e) in
  if (apart : bool) then range_insert zp new where_
  else
    let* e := z_rl zp !! next in
    let* zp := if off <? r_off e then zfs_range_new_proxy zp off (u64 (r_off e - off)) else Some zp in
    let* n := z_rl zp !! new in
    add_reader_loop (range_fuel zp) (set_rl zp new (with_cnt n 0)) off len 0 next.

(** The search for writers from [next] on: the entry to wait for, if any. *)
Fixpoint reader_search (k : nat) (zp : znode) (off len next : Z) : option (option Z) :=
  match k with
  | O => None
  | S k =>
      if next =? 0 then Some None
      else
        let* e := z_rl zp !! next in
        if u64 (off + len) <=? r_off e then Some None
        else if is_writer (r_type e) || r_write_wanted e then Some (Some next)
        else if u64 (off + len) <=? r_end e then Some None
        else let* next := AVL_NEXT zp next in reader_search k zp off len next
  end.

(** What the range before, or at the same offset, asks for: to wait, to take
    the lock, or to search on. *)
Definition reader_prev (zp : znode) (off len prev : Z) : option (option (option Z)) :=
  if prev =? 0 then Some None
  else
    let* p := z_rl zp !! prev in
    if off <? r_end p then
      if is_writer (r_type p) || r_write_wanted p then Some (Some (Some prev))
      else if u64 (off + len) <? r_end p then Some (Some None) else Some None
    else Some None.

(** One round, from [retry:] on. *)
Definition zfs_range_lock_reader (zp : znode) (new : Z) : option (znode * option kcondvar) :=
  let* n := z_rl zp !! new in
  let off := r_off n in
  let len := r_len n in
  let* (found, where_) := range_find zp n in
  let* prev := if found =? 0 then os_nearest (z_range_avl zp) where_ false else Some found in
  let* first := reader_prev zp off len prev in
  let* blocker :=
    match first with
    | Some b => Some b
    | None =>
        let* next := if negb (prev =? 0) then AVL_NEXT zp prev else os_nearest (z_range_avl zp) where_ true in
        reader_search (range_fuel zp) zp off len next
    end in
  match blocker with
  | Some a => wait_reader zp a
  | None => let* zp := zfs_range_add_reader zp new prev where_ in Some (zp, None)
  end.

(** ** The interface *)

Definition zfs_range_lock (zp : znode) (off len : Z) (type : rl_type) : option (znode * Z * option kcondvar) :=
  let '(new, zp) := new_rl zp (mk_rl off len 1 type false false false) in
  let* (zp, cv) :=
    if is_reader type then
      if os_numnodes (z_range_avl zp) =? 0 then let* zp := range_add zp new in Some (zp, None)
      else zfs_range_lock_reader zp new
    else zfs_range_lock_writer zp new off len in
  Some (zp, new, cv).

(** The broadcasts to those who wait for the entry. *)
Definition broadcasts (a : Z) (e : rl) : list kcondvar :=
  (if r_write_wanted e then [(a, true)] else []) ++ (if r_read_wanted e then [(a, false)] else []).

Fixpoint unlock_reader_loop (k : nat) (zp : znode) (a len : Z) (bs : list kcondvar) : option (znode * list kcondvar) :=
  if len =? 0 then Some (zp, bs)
  else
    match k with
    | O => None
    | S k =>
        let* e := z_rl zp !! a in
        let len := u64 (len - r_len e) in
        let* next :=
          if negb (len =? 0) then
            let* next := AVL_NEXT zp a in
            VERIFY negb (next =? 0) in
            let* e' := z_rl zp !! next in
            VERIFY r_end e =? r_off e' in
            VERIFY negb (r_cnt e' =? 0) in
            VERIFY is_reader (r_type e') in Some next
          else Some 0 in
        let e := with_cnt e (u32 (r_cnt e - 1)) in
        let zp := set_rl zp a e in
        if r_cnt e =? 0 then
          let* zp := range_remove zp a in
          unlock_reader_loop k (free_rl zp a) next len (bs ++ broadcasts a e)
        else unlock_reader_loop k zp next len bs
    end.

Definition zfs_range_unlock_reader (zp : znode) (a : Z) : option (znode * list kcondvar) :=
  let* e := z_rl zp !! a in
  let* (zp, bs) :=
    if r_cnt e =? 1 then
      let* zp := range_remove zp a in Some (zp, broadcasts a e)
    else
      VERIFY r_cnt e =? 0 in
      VERIFY negb (r_write_wanted e) in
      VERIFY negb (r_read_wanted e) in
      let* (found, _) := range_find zp e in
      VERIFY negb (found =? 0) in
      let* f := z_rl zp !! found in
      VERIFY negb (r_cnt f =? 0) in
      VERIFY is_reader (r_type f) in
      unlock_reader_loop (range_fuel zp) zp found (r_len e) [] in
  Some (free_rl zp a, bs).

Definition zfs_range_unlock (zp : znode) (a : Z) : option (znode * list kcondvar) :=
  let* e := z_rl zp !! a in
  VERIFY is_writer (r_type e) || is_reader (r_type e) in
  VERIFY (r_cnt e =? 1) || (r_cnt e =? 0) in
  VERIFY negb (r_proxy e) in
  if is_writer (r_type e) then
    let* zp := range_remove zp a in Some (free_rl zp a, broadcasts a e)
  else zfs_range_unlock_reader zp a.

Definition zfs_range_reduce (zp : znode) (a off len : Z) : option (znode * list kcondvar) :=
  let* e := z_rl zp !! a in
  VERIFY os_numnodes (z_range_avl zp) =? 1 in
  VERIFY r_off e =? 0 in
  VERIFY is_writer (r_type e) in
  VERIFY negb (r_proxy e) in
  VERIFY r_len e =? UINT64_MAX in
  VERIFY r_cnt e =? 1 in
  Some (set_rl zp a (with_off e off len), broadcasts a e).
End rlock.

Arguments znode : clear implicits.
