(* ===== verification/RlockCover.v ===== *)
(** * Range locks: entries that cover ranges

    The entries of the tree are disjoint ranges with counts; the locks that are
    held are ranges.  [cover]: every held range is made up of entries, and the
    count of an entry is the number of held ranges it belongs to.  The
    elementary edits of the code keep it. *)
From Stdlib Require Import ZArith Lia Sorted.
From stdpp Require Import base numbers list option gmap sorting.
From S2P Require Import Prelude Rlock.

Definition fin (e : rl) : Z := r_off e + r_len e.
Definition valid (e : rl) : Prop := 0 <= r_off e /\ 0 < r_len e /\ fin e < 2 ^ 64.

Lemma r_end_valid e : valid e -> r_end e = fin e.
Proof. intros (H1 & H2 & H3). unfold r_end, fin in *. apply u64_small. unfold is_u64. lia. Qed.

(** In order, disjoint. *)
Definition chain (l : list rl) : Prop := StronglySorted (fun e e' => fin e <= r_off e') l /\ Forall valid l.

Lemma chain_nil : chain [].
Proof. split; constructor. Qed.

Lemma entries_app l1 l2 : chain (l1 ++ l2) <-> chain l1 /\ chain l2 /\ forall e e', e ∈ l1 -> e' ∈ l2 -> fin e <= r_off e'.
Proof. unfold chain. rewrite Forall_app, StronglySorted_app. naive_solver. Qed.

Lemma chain_cons e l : chain (e :: l) <-> valid e /\ chain l /\ forall e', e' ∈ l -> fin e <= r_off e'.
Proof.
  unfold chain. rewrite Forall_cons. split.
  - intros [H1 [H2 H3]]. apply StronglySorted_inv in H1 as [H1 H4]. rewrite Forall_forall in H4. naive_solver.
  - intros (H1 & [H2 H3] & H4). split; [|done]. constructor; [done|]. by apply Forall_forall.
Qed.

Lemma chain_mid l1 e l2 : chain (l1 ++ e :: l2) <->
  valid e /\ chain (l1 ++ l2) /\ (forall x, x ∈ l1 -> fin x <= r_off e) /\ (forall x, x ∈ l2 -> fin e <= r_off x).
Proof.
  rewrite !entries_app, chain_cons. setoid_rewrite elem_of_cons. split; [naive_solver|].
  intros (H1 & (H2 & H3 & H4) & H5 & H6). split; [done|]. split; [done|]. intros x y Hx [->|Hy]; auto.
Qed.

Lemma chain_valid l e : chain l -> e ∈ l -> valid e.
Proof. intros [_ H]. rewrite Forall_forall in H. apply H. Qed.

(** The place of an entry among the others. *)
Lemma chain_split l1 e l2 x : chain (l1 ++ e :: l2) -> x ∈ l1 ++ e :: l2 -> (x ∈ l1 /\ fin x <= r_off e) \/ x = e \/ (x ∈ l2 /\ fin e <= r_off x).
Proof. intros (_ & _ & H1 & H2)%chain_mid Hx. rewrite elem_of_app, elem_of_cons in Hx. naive_solver. Qed.

(** The entry that begins where [e] ends is the next. *)
Lemma chain_next l1 e l2 x : chain (l1 ++ e :: l2) -> x ∈ l1 ++ e :: l2 -> r_off x = fin e -> exists l2', l2 = x :: l2'.
Proof.
  intros Hc Hx Ho. pose proof (chain_valid _ _ Hc Hx) as (_ & Hx2 & _). pose proof (proj1 (chain_mid _ _ _) Hc) as ((_ & He2 & _) & _).
  unfold fin in *. destruct (chain_split _ _ _ _ Hc Hx) as [[_ H]|[->|[Hin H]]]; unfold fin in *; [lia..|].
  destruct l2 as [|y l2]; [by apply elem_of_nil in Hin|]. apply elem_of_cons in Hin as [->|Hin]; [eauto|].
  apply entries_app in Hc as (_ & (_ & (Hy & _ & Hyx)%chain_cons & Hey)%chain_cons & _).
  specialize (Hyx _ Hin). specialize (Hey y ltac:(by left)). destruct Hy as (_ & Hy & _). unfold fin in *. lia.
Qed.

(** The number of ranges a point belongs to. *)
Definition nlocks (R : list (Z * Z)) (o : Z) : Z := Z.of_nat (length (filter (fun r => r.1 <= o < r.2) R)).

Lemma nlocks_cons r R o : nlocks (r :: R) o = (if decide (r.1 <= o < r.2) then 1 else 0) + nlocks R o.
Proof. unfold nlocks. rewrite filter_cons. destruct (decide _); cbn [length]; lia. Qed.

Lemma nlocks_perm R R' o : R ≡ₚ R' -> nlocks R o = nlocks R' o.
Proof. intros Hp. unfold nlocks. by rewrite Hp. Qed.

Lemma nlocks_nonneg R o : 0 <= nlocks R o.
Proof. unfold nlocks. lia. Qed.

Lemma nlocks_bound R o : nlocks R o <= Z.of_nat (length R).
Proof. unfold nlocks. pose proof (length_filter (fun r : Z * Z => r.1 <= o < r.2) R). lia. Qed.

Lemma nlocks_ext R o o' : (forall r, r ∈ R -> r.1 <= o < r.2 <-> r.1 <= o' < r.2) -> nlocks R o = nlocks R o'.
Proof.
  intros H. unfold nlocks. do 2 f_equal. induction R as [|r R IH]; [done|]. rewrite !filter_cons.
  rewrite IH by (intros; apply H; by right). pose proof (H r ltac:(by left)). repeat destruct (decide _); try done; tauto.
Qed.

Lemma nlocks_zero R o : (forall r, r ∈ R -> ~ r.1 <= o < r.2) -> nlocks R o = 0.
Proof. intros H. unfold nlocks. by rewrite (filter_none _ R). Qed.

Lemma nlocks_pos R o r : r ∈ R -> r.1 <= o < r.2 -> 0 < nlocks R o.
Proof.
  intros Hr Ho. unfold nlocks. assert (r ∈ filter (fun r : Z * Z => r.1 <= o < r.2) R) as H by (by apply list_elem_of_filter).
  destruct (filter _ R); [by apply elem_of_nil in H|]. cbn [length]. lia.
Qed.

(** [lo] to [hi] is made up of entries. *)
Record tiled (l : list rl) (lo hi : Z) : Prop := {
  td_in : forall e, e ∈ l -> r_off e < hi -> lo < fin e -> lo < hi -> lo <= r_off e /\ fin e <= hi;
  td_all : forall o, lo <= o < hi -> exists e, e ∈ l /\ r_off e <= o < fin e
}.

Record cover (l : list rl) (R : list (Z * Z)) : Prop := {
  co_chain : chain l;
  co_tiled : forall r, r ∈ R -> tiled l r.1 r.2;
  co_cnt : forall e, e ∈ l -> r_cnt e = nlocks R (r_off e) /\ 0 < r_cnt e
}.

Lemma cover_perm l R R' : R ≡ₚ R' -> cover l R -> cover l R'.
Proof.
  intros Hp [H1 H2 H3]. split; [done| |].
  - intros r Hr. apply H2. by rewrite Hp.
  - intros e He. destruct (H3 e He) as [-> Hpos]. by rewrite <-(nlocks_perm _ _ _ Hp).
Qed.

Lemma cover_nil : cover [] [].
Proof. split; [apply chain_nil|..]; intros ? []%elem_of_nil. Qed.

(** An empty range counts for nothing. *)
Lemma cover_empty l R lo : cover l ((lo, lo) :: R) <-> cover l R.
Proof.
  assert (forall o, nlocks ((lo, lo) :: R) o = nlocks R o) as Hn by (intros o; rewrite nlocks_cons; cbn; case_decide; lia).
  split; intros [H1 H2 H3]; (split; [done| |intros e He; rewrite ?Hn in *; specialize (H3 e He); by rewrite ?Hn in *]).
  - intros r Hr. apply H2. by right.
  - intros r [->|Hr]%elem_of_cons; [|by apply H2]. split; cbn; lia.
Qed.

(** Entries of the same ranges and counts. *)
Definition same_ent (e e' : rl) : Prop := r_off e = r_off e' /\ r_len e = r_len e' /\ r_cnt e = r_cnt e'.

Lemma same_chain l1 e e' l2 : same_ent e e' -> chain (l1 ++ e :: l2) -> chain (l1 ++ e' :: l2).
Proof. intros (E1 & E2 & E3). rewrite !chain_mid. unfold valid, fin. by rewrite E1, E2. Qed.

Lemma cover_same l1 e e' l2 R : same_ent e e' -> cover (l1 ++ e :: l2) R -> cover (l1 ++ e' :: l2) R.
Proof.
  intros Hs [H1 H2 H3]. pose proof Hs as (E1 & E2 & E3). split; [by eapply same_chain| |].
  - intros r Hr. destruct (H2 r Hr) as [T1 T2]. setoid_rewrite elem_of_app in T1. setoid_rewrite elem_of_cons in T1. split.
    + intros x Hx. rewrite elem_of_app, elem_of_cons in Hx. destruct Hx as [Hx|[->|Hx]]; [by apply T1; left| |by apply T1; right; right].
      specialize (T1 e ltac:(by right; left)). unfold fin in *. by rewrite E1, E2 in T1.
    + intros o Ho. destruct (T2 o Ho) as (x & Hx & Hin). rewrite elem_of_app, elem_of_cons in Hx.
      destruct Hx as [Hx|[->|Hx]]; [exists x; set_solver| |exists x; set_solver]. exists e'. unfold fin in *. rewrite <-E1, <-E2. set_solver.
  - intros x Hx. rewrite elem_of_app, elem_of_cons in Hx. destruct Hx as [Hx|[->|Hx]]; [apply H3; set_solver| |apply H3; set_solver].
    rewrite <-E1, <-E3. apply H3. set_solver.
Qed.

(** The part of [e] from [lo] on, and the part before. *)
Lemma cover_split l1 e f g l2 R : cover (l1 ++ e :: l2) R -> r_off f = r_off e -> fin f = r_off g -> fin g = fin e -> 0 < r_len f -> 0 < r_len g ->
  r_cnt f = r_cnt e -> r_cnt g = r_cnt e -> cover (l1 ++ f :: g :: l2) R.
Proof.
  intros [H1 H2 H3] Ef Em Eg Hf Hg Cf Cg. pose proof (proj1 (chain_mid _ _ _) H1) as ((V1 & V2 & V3) & Hch & Hl1 & Hl2). unfold fin in *.
  assert (forall r, r ∈ R -> r.1 <= r_off g < r.2 <-> r.1 <= r_off e < r.2) as Hn.
  { intros r Hr. destruct (H2 r Hr) as [T1 _]. specialize (T1 e ltac:(set_solver)). unfold fin in T1. lia. }
  split.
  - apply chain_mid. unfold valid, fin. split; [lia|]. split.
    { apply chain_mid. unfold valid, fin. split; [lia|]. split; [done|]. split; [intros x Hx; specialize (Hl1 x Hx); lia|intros x Hx; specialize (Hl2 x Hx); lia]. }
    split; [intros x Hx; specialize (Hl1 x Hx); lia|]. intros x [->|Hx]%elem_of_cons; [lia|]. specialize (Hl2 x Hx). lia.
  - intros r Hr. destruct (H2 r Hr) as [T1 T2]. pose proof (T1 e ltac:(set_solver)) as Te. unfold fin in *. split; unfold fin.
    + intros x Hx. rewrite elem_of_app, !elem_of_cons in Hx. destruct Hx as [Hx|[->|[->|Hx]]]; [by apply T1; set_solver|lia|lia|by apply T1; set_solver].
    + intros o Ho. destruct (T2 o Ho) as (x & Hx & Hin). rewrite elem_of_app, elem_of_cons in Hx.
      destruct Hx as [Hx|[->|Hx]]; [exists x; set_solver| |exists x; set_solver].
      destruct (Z.lt_ge_cases o (r_off g)); [exists f|exists g]; (split; [set_solver|lia]).
  - intros x Hx. rewrite elem_of_app, !elem_of_cons in Hx. destruct (H3 e ltac:(set_solver)) as [C1 C2].
    destruct Hx as [Hx|[->|[->|Hx]]]; [apply H3; set_solver|by rewrite Ef, Cf| |apply H3; set_solver].
    rewrite Cg. split; [|done]. rewrite C1. symmetry. by apply nlocks_ext.
Qed.

(** The range being locked grows over the entry [e]. *)
Lemma cover_extend l1 e l2 R lo : cover (l1 ++ e :: l2) ((lo, r_off e) :: R) -> lo <= r_off e ->
  cover (l1 ++ with_cnt e (r_cnt e + 1) :: l2) ((lo, fin e) :: R).
Proof.
  intros [H1 H2 H3] Hlo. pose proof (proj1 (chain_mid _ _ _) H1) as (V & _). pose proof V as (V1 & V2 & V3). unfold fin in V3.
  assert (forall x, x ∈ l1 \/ x ∈ l2 -> x ∈ l1 ++ e :: l2 /\ (fin x <= r_off e \/ fin e <= r_off x)) as Hapart.
  { intros x Hx. pose proof (proj1 (chain_mid _ _ _) H1) as (_ & _ & A & B). split; [set_solver|]. destruct Hx; [left; by apply A|right; by apply B]. }
  split.
  - apply chain_mid. by apply chain_mid in H1.
  - intros r Hr. rewrite elem_of_cons in Hr. destruct Hr as [->|Hr].
    + destruct (H2 (lo, r_off e) ltac:(by left)) as [T1 T2]. cbn [fst snd] in *. split; cbn [fst snd].
      * intros x Hx. rewrite elem_of_app, elem_of_cons in Hx. intros A B C. destruct Hx as [Hx|[->|Hx]].
        -- destruct (Hapart x (or_introl Hx)) as [Hin [?|?]]; [|lia]. pose proof (chain_valid _ _ H1 Hin) as (? & ? & ?). specialize (T1 x Hin). unfold fin in *. lia.
        -- unfold fin in *. cbn. lia.
        -- destruct (Hapart x (or_intror Hx)) as [Hin [?|?]]; [|lia]. pose proof (chain_valid _ _ H1 Hin) as (? & ? & ?). specialize (T1 x Hin). unfold fin in *. lia.
      * intros o Ho. destruct (Z.lt_ge_cases o (r_off e)) as [Hlt|Hge].
        -- destruct (T2 o ltac:(lia)) as (x & Hx & Hin). rewrite elem_of_app, elem_of_cons in Hx. destruct Hx as [Hx|[->|Hx]]; [exists x; set_solver|lia|exists x; set_solver].
        -- exists (with_cnt e (r_cnt e + 1)). split; [set_solver|]. unfold fin in *. cbn. lia.
    + destruct (H2 r ltac:(by right)) as [T1 T2]. split.
      * intros x Hx. rewrite elem_of_app, elem_of_cons in Hx. destruct Hx as [Hx|[->|Hx]]; [apply T1; set_solver|apply (T1 e); set_solver|apply T1; set_solver].
      * intros o Ho. destruct (T2 o Ho) as (x & Hx & Hin). rewrite elem_of_app, elem_of_cons in Hx.
        destruct Hx as [Hx|[->|Hx]]; [exists x; set_solver| |exists x; set_solver]. exists (with_cnt e (r_cnt e + 1)). split; [set_solver|done].
  - intros x Hx. rewrite elem_of_app, elem_of_cons in Hx. rewrite nlocks_cons. cbn [fst snd].
    assert (x ∈ l1 \/ x ∈ l2 -> r_cnt x = (if decide (lo <= r_off x < fin e) then 1 else 0) + nlocks R (r_off x) /\ 0 < r_cnt x) as Ho.
    { intros Hx'. destruct (Hapart x Hx') as [Hin Hside]. destruct (H3 x Hin) as [-> Hp]. split; [|done]. rewrite nlocks_cons. cbn [fst snd].
      pose proof (chain_valid _ _ H1 Hin) as (? & ? & ?). unfold fin in *. repeat case_decide; lia. }
    destruct Hx as [Hx|[->|Hx]]; [by apply Ho; left| |by apply Ho; right].
    destruct (H3 e ltac:(set_solver)) as [Ce Cp]. rewrite nlocks_cons in Ce. cbn [fst snd r_cnt r_off with_cnt] in *.
    destruct (decide (lo <= r_off e < r_off e)); [lia|]. unfold fin. rewrite decide_True by lia. lia.
Qed.

(** The range being locked grows over a gap, which gets an entry of its own. *)
Lemma cover_gap l1 n l2 R lo : cover (l1 ++ l2) ((lo, r_off n) :: R) -> lo <= r_off n -> valid n -> r_cnt n = 1 ->
  (forall x, x ∈ l1 -> fin x <= r_off n) -> (forall x, x ∈ l2 -> fin n <= r_off x) -> cover (l1 ++ n :: l2) ((lo, fin n) :: R).
Proof.
  intros [H1 H2 H3] Hlo V Cn Hl1 Hl2. pose proof V as (V1 & V2 & V3).
  assert (forall x, x ∈ l1 ++ l2 -> fin x <= r_off n \/ fin n <= r_off x) as Hapart by (intros x [Hx|Hx]%elem_of_app; auto).
  assert (forall r, r ∈ R -> r.1 < r.2 -> r.2 <= r_off n \/ fin n <= r.1) as Hout.
  { intros r Hr Hne. destruct (Z.le_gt_cases r.2 (r_off n)); [by left|]. destruct (Z.le_gt_cases (fin n) r.1); [by right|]. exfalso.
    destruct (H2 r ltac:(by right)) as [_ T2]. destruct (T2 (Z.max r.1 (r_off n)) ltac:(lia)) as (x & Hx & Hin).
    specialize (Hapart x Hx). unfold fin in *. lia. }
  split.
  - by apply chain_mid.
  - intros r Hr. rewrite elem_of_cons in Hr. destruct Hr as [->|Hr].
    + destruct (H2 (lo, r_off n) ltac:(by left)) as [T1 T2]. cbn [fst snd] in *. split; cbn [fst snd].
      * intros x Hx A B C. assert (x = n \/ x ∈ l1 ++ l2) as [->|Hx'] by set_solver; [lia|]. pose proof (chain_valid _ _ H1 Hx') as (? & ? & ?).
        specialize (Hapart x Hx'). specialize (T1 x Hx'). unfold fin in *. lia.
      * intros o Ho. destruct (Z.lt_ge_cases o (r_off n)) as [Hlt|Hge]; [|exists n; set_solver].
        destruct (T2 o ltac:(lia)) as (x & Hx & Hin). exists x. set_solver.
    + destruct (H2 r ltac:(by right)) as [T1 T2]. split.
      * intros x Hx A B C. assert (x = n \/ x ∈ l1 ++ l2) as [->|Hx'] by set_solver; [|by apply T1]. specialize (Hout r Hr C). lia.
      * intros o Ho. destruct (T2 o Ho) as (x & Hx & Hin). exists x. set_solver.
  - intros x Hx. assert (x = n \/ x ∈ l1 ++ l2) as [->|Hx'] by set_solver; rewrite nlocks_cons; cbn [fst snd].
    + rewrite decide_True by (unfold fin; lia). rewrite nlocks_zero; [lia|]. intros r Hr A. specialize (Hout r Hr). unfold fin in *. lia.
    + destruct (H3 x Hx') as [-> Hp]. split; [|done]. rewrite nlocks_cons. cbn [fst snd]. specialize (Hapart x Hx').
      pose proof (chain_valid _ _ H1 Hx') as (? & ? & ?). unfold fin in *. repeat case_decide; lia.
Qed.

(** The range being unlocked shrinks by the entry [e]: its count goes down. *)
Lemma cover_shrink l1 e l2 R hi : cover (l1 ++ e :: l2) ((r_off e, hi) :: R) -> fin e <= hi -> 1 < r_cnt e ->
  cover (l1 ++ with_cnt e (r_cnt e - 1) :: l2) ((fin e, hi) :: R).
Proof.
  intros [H1 H2 H3] Hhi Hc. pose proof (proj1 (chain_mid _ _ _) H1) as ((V1 & V2 & V3) & _). unfold fin in V3.
  set (e' := with_cnt e (r_cnt e - 1)). assert (r_off e' = r_off e /\ fin e' = fin e) as [Eo Efin] by done.
  assert (forall x, x ∈ l1 ++ e' :: l2 -> x <> e' -> x ∈ l1 ++ e :: l2 /\ (fin x <= r_off e \/ fin e <= r_off x)) as Hapart.
  { intros x Hx Hne. pose proof (proj1 (chain_mid _ _ _) H1) as (_ & _ & A & B). assert (x ∈ l1 \/ x ∈ l2) as Hx' by set_solver.
    split; [set_solver|]. destruct Hx'; [left; by apply A|right; by apply B]. }
  assert (forall x, x ∈ l1 ++ e :: l2 -> exists x', x' ∈ l1 ++ e' :: l2 /\ r_off x' = r_off x /\ fin x' = fin x) as Hback.
  { intros x Hx. rewrite elem_of_app, elem_of_cons in Hx. destruct Hx as [Hx|[->|Hx]]; [exists x; set_solver|exists e'; set_solver|exists x; set_solver]. }
  split.
  - apply chain_mid. by apply chain_mid in H1.
  - intros r Hr. rewrite elem_of_cons in Hr. destruct Hr as [->|Hr].
    + destruct (H2 (r_off e, hi) ltac:(by left)) as [T1 T2]. cbn [fst snd] in *. split; cbn [fst snd].
      * intros x Hx A B C. destruct (decide (x = e')) as [->|Hne]; [lia|]. destruct (Hapart x Hx Hne) as [Hin Hs].
        specialize (T1 x Hin). pose proof (chain_valid _ _ H1 Hin) as (? & ? & ?). unfold fin in *. lia.
      * intros o Ho. destruct (T2 o) as (x & Hx & Hin); [unfold fin in *; lia|]. destruct (Hback x Hx) as (x' & Hx' & E1 & E2). exists x'. by rewrite E1, E2.
    + destruct (H2 r ltac:(by right)) as [T1 T2]. split.
      * intros x Hx. destruct (decide (x = e')) as [->|Hne]; [apply (T1 e); set_solver|]. apply T1. by apply Hapart.
      * intros o Ho. destruct (T2 o Ho) as (x & Hx & Hin). destruct (Hback x Hx) as (x' & Hx' & E1 & E2). exists x'. by rewrite E1, E2.
  - intros x Hx. rewrite nlocks_cons. cbn [fst snd]. destruct (decide (x = e')) as [->|Hne].
    + destruct (H3 e ltac:(set_solver)) as [Ce Cp]. rewrite nlocks_cons in Ce. cbn [fst snd] in Ce. rewrite decide_True in Ce by (unfold fin in *; lia).
      cbn [r_off r_cnt e' with_cnt]. rewrite decide_False by (unfold fin; lia). lia.
    + destruct (Hapart x Hx Hne) as [Hin Hs]. destruct (H3 x Hin) as [Cx Hp]. split; [|done]. rewrite Cx, nlocks_cons. cbn [fst snd].
      pose proof (chain_valid _ _ H1 Hin) as (? & ? & ?). unfold fin in *. repeat case_decide; lia.
Qed.

(** ... or it goes, when no other range has it. *)
Lemma cover_delete l1 e l2 R hi : cover (l1 ++ e :: l2) ((r_off e, hi) :: R) -> fin e <= hi -> r_cnt e = 1 -> cover (l1 ++ l2) ((fin e, hi) :: R).
Proof.
  intros [H1 H2 H3] Hhi Hc. pose proof (proj1 (chain_mid _ _ _) H1) as ((V1 & V2 & V3) & Hch & A1 & A2). unfold fin in V3.
  destruct (H3 e ltac:(set_solver)) as [Ce _]. rewrite nlocks_cons in Ce. cbn [fst snd] in Ce. rewrite decide_True in Ce by (unfold fin in *; lia).
  assert (forall x, x ∈ l1 ++ l2 -> x ∈ l1 ++ e :: l2 /\ (fin x <= r_off e \/ fin e <= r_off x)) as Hapart.
  { intros x [Hx|Hx]%elem_of_app; (split; [set_solver|auto]). }
  assert (forall r, r ∈ R -> ~ r.1 <= r_off e < r.2) as Hfree.
  { intros r Hr Ho. pose proof (nlocks_pos R (r_off e) r Hr Ho). lia. }
  split; [done| |].
  - intros r Hr. rewrite elem_of_cons in Hr. destruct Hr as [->|Hr].
    + destruct (H2 (r_off e, hi) ltac:(by left)) as [T1 T2]. cbn [fst snd] in *. split; cbn [fst snd].
      * intros x Hx A B C. destruct (Hapart x Hx) as [Hin Hs]. specialize (T1 x Hin). pose proof (chain_valid _ _ H1 Hin) as (? & ? & ?). unfold fin in *. lia.
      * intros o Ho. destruct (T2 o) as (x & Hx & Hin); [unfold fin in *; lia|]. exists x. split; [|done].
        rewrite elem_of_app, elem_of_cons in Hx. destruct Hx as [Hx|[->|Hx]]; [set_solver|lia|set_solver].
    + destruct (H2 r ltac:(by right)) as [T1 T2]. split.
      * intros x Hx. apply T1. by apply Hapart.
      * intros o Ho. destruct (T2 o Ho) as (x & Hx & Hin). exists x. split; [|done]. rewrite elem_of_app, elem_of_cons in Hx.
        destruct Hx as [Hx|[->|Hx]]; [set_solver| |set_solver]. destruct (Hfree r Hr). specialize (T1 e ltac:(set_solver)). lia.
  - intros x Hx. destruct (Hapart x Hx) as [Hin Hs]. destruct (H3 x Hin) as [Cx Hp]. split; [|done]. rewrite Cx, !nlocks_cons. cbn [fst snd].
    pose proof (chain_valid _ _ H1 Hin) as (? & ? & ?). unfold fin in *. repeat case_decide; lia.
Qed.

(** What is left of a range begins with an entry. *)
Lemma cover_head l lo hi R : cover l ((lo, hi) :: R) -> lo < hi -> exists e, e ∈ l /\ r_off e = lo /\ fin e <= hi /\ 0 < r_cnt e.
Proof.
  intros [H1 H2 H3] Hlt. destruct (H2 (lo, hi) ltac:(by left)) as [T1 T2]. cbn [fst snd] in *. destruct (T2 lo ltac:(lia)) as (e & He & Hin).
  exists e. destruct (T1 e He) as [A B]; [lia..|]. split; [done|]. split; [lia|]. split; [done|]. by apply H3.
Qed.
