(* ===== verification/RlockTree.v ===== *)
(** * Range locks: the entries in the tree

    What the helpers of [zfs_rlock.c] do to the sequence of entries: search,
    insertion, conversion to a proxy, split, proxies for gaps. *)
From Stdlib Require Import ZArith Lia Sorted.
From stdpp Require Import base numbers list option gmap sorting.
From S2P Require Import Prelude AvlOps AvlSpec AvlHeap Rlock RlockCover.

Section tree.
Context {T : Type} `{HI : AvlIface T} {cap : nat} {HL : AvlHeapLaws T cap}.
Implicit Types (zp : znode T) (es : list (Z * rl)) (X : gset Z).

(** The tree holds the entries [es], the other objects are [X]. *)
Record holds zp es X : Prop := {
  ho_abs : oh_abs (z_range_avl zp) es.*1 X;
  ho_rl : forall a e, (a, e) ∈ es -> z_rl zp !! a = Some e;
  ho_chain : chain es.*2
}.

(** All but the tree and its objects. *)
Definition same_file zp zp' : Prop :=
  z_vnode zp' = z_vnode zp /\ zp_size zp' = zp_size zp /\ z_blksz zp' = z_blksz zp /\ z_max_blksz zp' = z_max_blksz zp.

Lemma same_file_refl zp : same_file zp zp.
Proof. done. Qed.
Lemma same_file_trans zp1 zp2 zp3 : same_file zp1 zp2 -> same_file zp2 zp3 -> same_file zp1 zp3.
Proof. unfold same_file. intros (-> & -> & -> & ->). done. Qed.

Lemma fst_mid (l1 : list (Z * rl)) a e l2 : (l1 ++ (a, e) :: l2).*1 = l1.*1 ++ a :: l2.*1.
Proof. by rewrite fmap_app, fmap_cons. Qed.
Lemma snd_mid (l1 : list (Z * rl)) a e l2 : (l1 ++ (a, e) :: l2).*2 = l1.*2 ++ e :: l2.*2.
Proof. by rewrite fmap_app, fmap_cons. Qed.

Lemma holds_objects zp es X : holds zp es X -> NoDup es.*1 /\ forall a e, (a, e) ∈ es -> a <> 0 /\ (a ∉ X) /\ z_rl zp !! a = Some e /\ valid e.
Proof using HL.
  intros [H1 H2 H3]. destruct (oh_objects _ _ _ H1) as [Hnd Ho]. split; [done|]. intros a e Hae.
  destruct (Ho a) as [A B]; [by apply (list_elem_of_fmap_2 fst) in Hae|]. split; [done|]. split; [done|]. split; [by apply H2|].
  eapply chain_valid; [exact H3|]. by apply (list_elem_of_fmap_2 snd) in Hae.
Qed.

Lemma holds_num zp es X : holds zp es X -> os_numnodes (z_range_avl zp) = Z.of_nat (length es).
Proof using HL. intros [H _ _]. rewrite (oh_num _ _ _ H). by rewrite length_fmap. Qed.

(** The entry after, and the one before. *)
Lemma holds_next zp l1 a e l2 X : holds zp (l1 ++ (a, e) :: l2) X -> AVL_NEXT zp a = Some (hd 0 l2.*1).
Proof using HL. intros [H _ _]. rewrite fst_mid in H. by apply (oh_walk _ _ _ _ _ H). Qed.

(** Stores to objects outside the tree do not matter. *)
Lemma holds_set_out zp es X a e : holds zp es X -> a ∉ es.*1 -> holds (set_rl zp a e) es X.
Proof.
  intros [H1 H2 H3] Ha. split; [done| |done]. intros b f Hb. cbn. rewrite lookup_insert_ne; [by apply H2|].
  intros <-. by apply (list_elem_of_fmap_2 fst) in Hb.
Qed.

(** A store to an entry. *)
Lemma holds_set_in zp l1 a e e' l2 X : holds zp (l1 ++ (a, e) :: l2) X -> chain (l1.*2 ++ e' :: l2.*2) ->
  holds (set_rl zp a e') (l1 ++ (a, e') :: l2) X.
Proof using HL.
  intros Hh Hc. pose proof (proj1 (holds_objects _ _ _ Hh)) as Hnd. destruct Hh as [H1 H2 H3]. split.
  - rewrite fst_mid in *. done.
  - intros b f Hb. cbn. rewrite fst_mid in Hnd. apply NoDup_app in Hnd as (N1 & N2 & [N3 N4]%NoDup_cons).
    rewrite elem_of_app, elem_of_cons in Hb. destruct Hb as [Hb|[[= -> ->]|Hb]].
    + rewrite lookup_insert_ne; [apply H2; set_solver|]. intros <-. apply (N2 a); [by apply (list_elem_of_fmap_2 fst) in Hb|set_solver].
    + apply lookup_insert_eq.
    + rewrite lookup_insert_ne; [apply H2; set_solver|]. intros <-. apply N3. by apply (list_elem_of_fmap_2 fst) in Hb.
  - by rewrite snd_mid.
Qed.

(** ** Searching *)

Lemma range_compares zp es X n : holds zp es X -> compares (rl_compar zp n) es.*1.
Proof.
  intros [_ Hrl Hc].
  assert (forall a e, (a, e) ∈ es -> rl_compar zp n a = if r_off e <? r_off n then 1 else if r_off n <? r_off e then -1 else 0) as Hf.
  { intros a e Hae. unfold rl_compar. by rewrite (Hrl a e Hae). }
  clear Hrl. split.
  - intros a ((b & e) & -> & Hin)%list_elem_of_fmap. cbn [fst]. rewrite (Hf b e Hin). repeat case_match; lia.
  - induction es as [|(a & e) es IH]; [constructor|]. cbn [fmap list_fmap fst snd] in *. apply chain_cons in Hc as (Hv & Hc & Hlt).
    constructor; [apply IH; [done|]; intros; apply Hf; by right|]. apply Forall_forall.
    intros b ((b' & e') & -> & Hin)%list_elem_of_fmap. cbn [fst]. rewrite (Hf a e), (Hf b' e') by set_solver.
    specialize (Hlt e'). apply (list_elem_of_fmap_2 snd) in Hin. specialize (Hlt Hin). destruct Hv as (_ & Hv & _). unfold fin in Hlt.
    repeat case_match; lia.
Qed.

Lemma range_find_spec zp es X n : holds zp es X ->
  (exists l1 a e l2 w, es = l1 ++ (a, e) :: l2 /\ r_off e = r_off n /\ a <> 0 /\ range_find zp n = Some (a, w)) \/
  (exists l1 l2 w, es = l1 ++ l2 /\ (forall x, x ∈ l1.*2 -> r_off x < r_off n) /\ (forall x, x ∈ l2.*2 -> r_off n < r_off x) /\
     range_find zp n = Some (0, w) /\ oh_hole (z_range_avl zp) l1.*1 l2.*1 w).
Proof using HL.
  intros Hh. pose proof (range_compares _ _ _ n Hh) as Hc. pose proof (holds_objects _ _ _ Hh) as [_ Ho].
  unfold range_find. destruct (oh_find _ _ _ _ (ho_abs _ _ _ Hh) Hc) as [(a & w & Ha & Hf & E)|(l1 & l2 & w & El & H1 & H2 & E & Hhole)].
  - left. apply list_elem_of_fmap in Ha as ((b & e) & -> & Hin). cbn [fst] in *. destruct (Ho b e Hin) as (Hz & _ & Hrl & _).
    unfold rl_compar in Hf. rewrite Hrl in Hf. unfold zfs_range_compare in Hf.
    apply list_elem_of_split in Hin as (l1 & l2 & ->). exists l1, b, e, l2, w. split; [done|]. split; [|done]. repeat case_match; lia.
  - right. apply fmap_app_inv in El as (k1 & k2 & -> & -> & ->). exists k1, k2, w. split; [done|].
    split; [|split; [|done]]; intros x ((b & e) & -> & Hin)%list_elem_of_fmap; cbn [snd].
    + specialize (H1 b ltac:(by apply (list_elem_of_fmap_2 fst) in Hin)). destruct (Ho b e ltac:(set_solver)) as (_ & _ & Hrl & _).
      unfold rl_compar in H1. rewrite Hrl in H1. unfold zfs_range_compare in H1. repeat case_match; lia.
    + specialize (H2 b ltac:(by apply (list_elem_of_fmap_2 fst) in Hin)). destruct (Ho b e ltac:(set_solver)) as (_ & _ & Hrl & _).
      unfold rl_compar in H2. rewrite Hrl in H2. unfold zfs_range_compare in H2. repeat case_match; lia.
Qed.

(** ** Insertion and removal *)

Lemma range_insert_spec zp l1 l2 X a e w : holds zp (l1 ++ l2) X -> a ∈ X -> z_rl zp !! a = Some e -> oh_hole (z_range_avl zp) l1.*1 l2.*1 w ->
  chain (l1.*2 ++ e :: l2.*2) ->
  exists zp', range_insert zp a w = Some zp' /\ holds zp' (l1 ++ (a, e) :: l2) (X ∖ {[a]}) /\ z_rl zp' = z_rl zp /\ same_file zp zp'.
Proof using HL.
  intros [H1 H2 H3] Ha He Hw Hc. rewrite fmap_app in H1. destruct (oh_insert _ _ _ _ _ _ H1 Ha Hw) as (t & E & Habs).
  unfold range_insert. rewrite E. eexists. split; [done|]. split; [|done]. split; [by rewrite fst_mid| |by rewrite snd_mid].
  intros b f Hb. cbn. rewrite elem_of_app, elem_of_cons in Hb. destruct Hb as [Hb|[[= -> ->]|Hb]]; [apply H2; set_solver|done|apply H2; set_solver].
Qed.

Lemma range_add_spec zp l1 l2 X a e : holds zp (l1 ++ l2) X -> a ∈ X -> z_rl zp !! a = Some e -> chain (l1.*2 ++ e :: l2.*2) ->
  exists zp', range_add zp a = Some zp' /\ holds zp' (l1 ++ (a, e) :: l2) (X ∖ {[a]}) /\ z_rl zp' = z_rl zp /\ same_file zp zp'.
Proof using HL.
  intros Hh Ha He Hc. unfold range_add. rewrite He. cbn [mbind option_bind]. pose proof (proj1 (chain_mid _ _ _) Hc) as ((_ & Hv & _) & _ & Hl1 & Hl2).
  destruct (range_find_spec _ _ _ e Hh) as [(k1 & b & x & k2 & w & E & Hx & _)|(k1 & k2 & w & E & Hk1 & Hk2 & -> & Hw)].
  - exfalso. assert (x ∈ (l1 ++ l2).*2) as Hin by (rewrite E, snd_mid; set_solver). rewrite fmap_app in Hin.
    pose proof (chain_valid _ _ (ho_chain _ _ _ Hh) ltac:(rewrite fmap_app; exact Hin)) as (_ & Hvx & _).
    apply elem_of_app in Hin as [Hin|Hin]; [specialize (Hl1 x Hin)|specialize (Hl2 x Hin)]; unfold fin in *; lia.
  - cbn [mbind option_bind Z.eqb]. assert (k1 = l1 /\ k2 = l2) as [-> ->]; [|by apply range_insert_spec].
    assert (forall x, x ∈ l1.*2 -> r_off x < r_off e) as Hl1'.
    { intros x Hx. specialize (Hl1 x Hx). assert (valid x) as (_ & ? & _) by (eapply chain_valid; [apply Hh|]; rewrite fmap_app; set_solver). unfold fin in *. lia. }
    assert (forall x, x ∈ l2.*2 -> r_off e < r_off x) as Hl2' by (intros x Hx; specialize (Hl2 x Hx); unfold fin in *; lia).
    clear -E Hk1 Hk2 Hl1' Hl2'. revert k1 E Hk1. induction l1 as [|p l1 IH]; intros [|q k1] E Hk1; cbn [app fmap list_fmap] in *.
    + done.
    + subst l2. specialize (Hl2' q.2 ltac:(set_solver)). specialize (Hk1 q.2 ltac:(set_solver)). lia.
    + subst k2. specialize (Hl1' p.2 ltac:(set_solver)). specialize (Hk2 p.2 ltac:(set_solver)). lia.
    + injection E as -> E. destruct (IH ltac:(set_solver) k1 E ltac:(set_solver)) as [-> ->]. done.
Qed.

Lemma range_remove_spec zp l1 a e l2 X : holds zp (l1 ++ (a, e) :: l2) X ->
  exists zp', range_remove zp a = Some zp' /\ holds zp' (l1 ++ l2) ({[a]} ∪ X) /\ z_rl zp' = z_rl zp /\ same_file zp zp'.
Proof using HL.
  intros [H1 H2 H3]. rewrite fst_mid in H1. destruct (oh_remove _ _ _ _ _ H1) as (t & E & Habs). unfold range_remove. rewrite E.
  eexists. split; [done|]. split; [|done]. split; [by rewrite fmap_app| |].
  - intros b f Hb. cbn. apply H2. set_solver.
  - rewrite fmap_app. rewrite snd_mid in H3. by apply (chain_mid l1.*2 e l2.*2).
Qed.

Lemma new_rl_spec zp es X e : holds zp es X -> (length es + size X < cap)%nat ->
  exists a zp', new_rl zp e = (a, zp') /\ holds zp' es ({[a]} ∪ X) /\ (a ∉ es.*1) /\ (a ∉ X) /\ a <> 0 /\ z_rl zp' = <[a := e]> (z_rl zp) /\ same_file zp zp'.
Proof using HL.
  intros Hh Hr. destruct (oh_alloc _ _ _ (ho_abs _ _ _ Hh)) as (a & t & E & Habs & Hl & HX & Hz); [by rewrite length_fmap|].
  unfold new_rl. rewrite E. eexists _, _. split; [done|]. split; [|done]. apply holds_set_out; [|done]. destruct Hh as [_ H2 H3]. by split.
Qed.

Lemma free_rl_spec zp es X a : holds zp es X -> a ∈ X -> a ∉ es.*1 ->
  holds (free_rl zp a) es (X ∖ {[a]}) /\ z_rl (free_rl zp a) = delete a (z_rl zp) /\ same_file zp (free_rl zp a).
Proof using HL.
  intros [H1 H2 H3] Ha Hl. split; [|done]. split; [by apply oh_free| |done]. intros b f Hb. cbn. rewrite lookup_delete_ne; [by apply H2|].
  intros <-. by apply (list_elem_of_fmap_2 fst) in Hb.
Qed.

(** ** Proxies *)

Definition is_proxy (n : rl) : Prop := r_proxy n = true /\ r_type n = RL_READER /\ r_write_wanted n = false /\ r_read_wanted n = false.

(** A reader's entry [e] at [a] was replaced by the proxies [N]: [a] is one of
    them when it was a proxy, and is now out of the tree otherwise. *)
Record replaced zp zp' es X X' (a : Z) (e : rl) (N : list (Z * rl)) : Prop := {
  rp_rl : forall b, b <> a -> b ∉ N.*1 -> z_rl zp' !! b = z_rl zp !! b;
  rp_new : forall b n, (b, n) ∈ N -> is_proxy n /\ (b = a \/ ((b ∉ es.*1) /\ (b ∉ X)));
  rp_case : (r_proxy e = true /\ X' = X /\ a ∈ N.*1) \/ (r_proxy e = false /\ X' = {[a]} ∪ X /\ (a ∉ N.*1) /\ z_rl zp' !! a = Some (with_cnt e 0));
  rp_file : same_file zp zp'
}.

(** A reader's entry that nobody waits for. *)
Definition plain (e : rl) : Prop := r_type e = RL_READER /\ r_write_wanted e = false /\ r_read_wanted e = false /\ (r_proxy e = false -> r_cnt e = 1).

Lemma plain_proxy e : plain e -> r_proxy e = true -> is_proxy e.
Proof. unfold plain, is_proxy. tauto. Qed.

Lemma proxify_spec zp l1 a e l2 X : holds zp (l1 ++ (a, e) :: l2) X -> (length (l1 ++ (a, e) :: l2) + size X < cap)%nat -> plain e ->
  exists zp' p e' X', zfs_range_proxify zp a = Some (zp', p) /\ holds zp' (l1 ++ (p, e') :: l2) X' /\ same_ent e e' /\
    replaced zp zp' (l1 ++ (a, e) :: l2) X X' a e [(p, e')].
Proof using HL.
  intros Hh Hroom Hpl. pose proof (holds_objects _ _ _ Hh) as [Hnd Ho]. destruct (Ho a e ltac:(set_solver)) as (Hz & HaX & Ha & Hv).
  unfold zfs_range_proxify. rewrite Ha. cbn [mbind option_bind]. destruct (r_proxy e) eqn:Ep.
  - exists zp, a, e, X. split; [done|]. split; [done|]. split; [done|]. split; [done| |left; set_solver|done].
    intros b n [= -> ->]%list_elem_of_singleton. split; [by apply plain_proxy|by left].
  - destruct Hpl as (Ht & Hw & Hr & Hc). specialize (Hc Ep). rewrite Hc, Hw, Hr. cbn [Z.eqb Pos.eqb negb].
    destruct (range_remove_spec _ _ _ _ _ _ Hh) as (zp1 & -> & Hh1 & E1 & F1). cbn [mbind option_bind].
    rewrite fst_mid in Hnd. rewrite <-Permutation_middle in Hnd. apply NoDup_cons in Hnd as [Hal _]. rewrite <-fmap_app in Hal.
    pose proof (holds_set_out _ _ _ a (with_cnt e 0) Hh1 Hal) as Hh2.
    destruct (new_rl_spec _ _ _ (proxy_rl (r_off e) (r_len e) 1) Hh2) as (p & zp3 & E3 & Hh3 & P1 & P2 & P3 & E4 & F3).
    { rewrite size_union, size_singleton by set_solver. rewrite length_app in *. cbn [length] in Hroom. lia. }
    rewrite E3. assert (p <> a) as Hpa by set_solver.
    pose proof (ho_chain _ _ _ Hh) as Hch. rewrite snd_mid in Hch.
    assert (same_ent e (proxy_rl (r_off e) (r_len e) 1)) as Hse by done.
    destruct (range_add_spec zp3 l1 l2 _ p (proxy_rl (r_off e) (r_len e) 1) Hh3) as (zp4 & -> & Hh4 & E5 & F4).
    { set_solver. } { rewrite E4. apply lookup_insert_eq. } { by eapply same_chain. }
    cbn [mbind option_bind]. exists zp4, p, (proxy_rl (r_off e) (r_len e) 1), ({[a]} ∪ X). split; [done|].
    replace (({[p]} ∪ ({[a]} ∪ X)) ∖ {[p]}) with ({[a]} ∪ X) in Hh4 by set_solver. split; [done|]. split; [done|].
    split.
    + intros b Hb Hbp. cbn in Hbp. rewrite E5, E4, lookup_insert_ne by set_solver. cbn. rewrite lookup_insert_ne by done. by rewrite E1.
    + intros b n [= -> ->]%list_elem_of_singleton. split; [done|]. right. rewrite fst_mid. rewrite fmap_app in P1. set_solver.
    + right. split; [done|]. split; [done|]. cbn. split; [set_solver|]. rewrite E5, E4, lookup_insert_ne by done. cbn. by rewrite lookup_insert_eq.
    + eapply same_file_trans; [exact F1|]. eapply same_file_trans; [|exact F4]. eapply same_file_trans; [|exact F3]. done.
Qed.

Lemma new_proxy_spec zp l1 l2 X off len : holds zp (l1 ++ l2) X -> (length (l1 ++ l2) + size X < cap)%nat -> chain (l1.*2 ++ proxy_rl off len 1 :: l2.*2) ->
  exists zp' p, zfs_range_new_proxy zp off len = Some zp' /\ holds zp' (l1 ++ (p, proxy_rl off len 1) :: l2) X /\ (p ∉ (l1 ++ l2).*1) /\ (p ∉ X) /\
    z_rl zp' = <[p := proxy_rl off len 1]> (z_rl zp) /\ same_file zp zp'.
Proof using HL.
  intros Hh Hroom Hch. unfold zfs_range_new_proxy. pose proof (proj1 (chain_mid _ _ _) Hch) as ((_ & Hl & _) & _). cbn in Hl.
  rewrite (proj2 (Z.eqb_neq _ _)) by lia. cbn [negb].
  destruct (new_rl_spec _ _ _ (proxy_rl off len 1) Hh Hroom) as (p & zp1 & E1 & Hh1 & P1 & P2 & P3 & E2 & F1). rewrite E1.
  destruct (range_add_spec zp1 l1 l2 _ p (proxy_rl off len 1) Hh1) as (zp2 & -> & Hh2 & E3 & F2); [set_solver|rewrite E2; apply lookup_insert_eq|done|].
  exists zp2, p. split; [done|]. replace (({[p]} ∪ X) ∖ {[p]}) with X in Hh2 by set_solver. split; [done|]. split; [done|]. split; [done|].
  split; [by rewrite E3, E2|by eapply same_file_trans].
Qed.

Lemma split_spec zp l1 a e l2 X off : holds zp (l1 ++ (a, e) :: l2) X -> (length (l1 ++ (a, e) :: l2) + size X + 1 < cap)%nat -> plain e -> r_off e < off < fin e ->
  exists zp' front rear f X', zfs_range_split zp a off = Some (zp', front) /\
    let g := proxy_rl off (fin e - off) (r_cnt e) in
    holds zp' (l1 ++ (front, f) :: (rear, g) :: l2) X' /\ r_off f = r_off e /\ r_len f = off - r_off e /\ r_cnt f = r_cnt e /\
    replaced zp zp' (l1 ++ (a, e) :: l2) X X' a e [(front, f); (rear, g)].
Proof using HL.
  intros Hh Hroom Hpl Hoff. pose proof (holds_objects _ _ _ Hh) as [Hnd Ho]. destruct (Ho a e ltac:(set_solver)) as (Hz & HaX & Ha & Hv).
  pose proof Hv as (V1 & V2 & V3). pose proof Hpl as (Ht & Hw & Hr & Hc). unfold zfs_range_split. rewrite Ha. cbn [mbind option_bind].
  rewrite (r_end_valid _ Hv), Hw, Hr. unfold fin in Hoff, V3. rewrite !(proj2 (Z.ltb_lt _ _)) by (unfold fin; lia). cbn [negb].
  rewrite (u64_small (r_off e + r_len e - off)) by (unfold is_u64; lia).
  set (g := proxy_rl off (r_off e + r_len e - off) (r_cnt e)).
  destruct (new_rl_spec zp _ _ g Hh ltac:(lia)) as (rear & zp1 & -> & Hh1 & R1 & R2 & R3 & E1 & F1).
  destruct (proxify_spec zp1 l1 a e l2 _ Hh1) as (zp2 & front & f & X2 & -> & Hh2 & (S1 & S2 & S3) & [P1 P2 P3 P4]); [|done|].
  { rewrite size_union, size_singleton by set_solver. lia. }
  cbn [mbind option_bind]. destruct (holds_objects _ _ _ Hh2) as [_ Ho2]. destruct (Ho2 front f ltac:(set_solver)) as (_ & _ & -> & _). cbn [mbind option_bind].
  rewrite (u64_small (off - r_off e)) by (unfold is_u64; lia). set (f' := with_off f (r_off f) (off - r_off e)).
  destruct (P2 front f ltac:(set_solver)) as [Pf Hfresh].
  assert (rear <> a) as Hra by (rewrite fst_mid in R1; set_solver).
  assert (front <> rear) as Hfr by (intros ->; destruct Hfresh as [?|[? ?]]; [done|set_solver]).
  assert (z_rl zp2 !! rear = Some g) as Hrear. { rewrite P1; [by rewrite E1, lookup_insert_eq|done|cbn; set_solver]. }
  assert (chain (l1.*2 ++ f' :: g :: l2.*2)) as Hch'.
  { pose proof (ho_chain _ _ _ Hh) as Hch. rewrite snd_mid in Hch. apply chain_mid in Hch as (_ & Hch & C1 & C2). unfold fin in *.
    apply chain_mid. unfold valid, fin. cbn. split; [lia|]. split; [apply chain_mid; unfold valid, fin; cbn; split; [lia|]|].
    - split; [done|]. split; [intros x Hx; specialize (C1 x Hx); lia|intros x Hx; specialize (C2 x Hx); lia].
    - split; [intros x Hx; specialize (C1 x Hx); lia|]. intros x [->|Hx]%elem_of_cons; [cbn; lia|specialize (C2 x Hx); lia]. }
  assert (chain (l1.*2 ++ f' :: l2.*2)) as Hch1.
  { apply chain_mid in Hch' as (A & B & C & D). apply chain_mid in B as (_ & B & _ & _). apply chain_mid. split; [done|]. split; [done|]. split; [done|]. intros; apply D. set_solver. }
  pose proof (holds_set_in zp2 l1 front f f' l2 _ Hh2 Hch1) as Hh3. pose proof (ho_abs _ _ _ Hh3) as Habs. rewrite fst_mid in Habs.
  assert (rear ∈ X2) as HrX by (destruct P3 as [(_ & -> & _)|(_ & -> & _)]; set_solver).
  destruct (oh_insert_here _ _ _ _ _ rear true Habs HrX) as (t & E & Habs'). rewrite E. cbn [mbind option_bind].
  eexists _, front, rear, f', (X2 ∖ {[rear]}). split; [done|]. cbv zeta. unfold fin. fold g. split; [|split; [done|split; [done|split; [done|]]]].
  { split; [by rewrite fst_mid| |by rewrite snd_mid]. intros b n Hb. cbn. rewrite elem_of_app, !elem_of_cons in Hb.
    destruct Hb as [Hb|[[= -> ->]|[[= -> ->]|Hb]]]; [apply (ho_rl _ _ _ Hh3); set_solver|apply lookup_insert_eq|by rewrite lookup_insert_ne|apply (ho_rl _ _ _ Hh3); set_solver]. }
  split.
  - intros b Hb HbN. cbn in HbN. cbn. rewrite lookup_insert_ne by set_solver. rewrite P1; [|done|cbn; set_solver]. rewrite E1. apply lookup_insert_ne. set_solver.
  - intros b n Hb. rewrite !elem_of_cons in Hb. destruct Hb as [[= -> ->]|[[= -> ->]|[]%elem_of_nil]].
    + split; [by destruct Pf as (? & ? & ? & ?)|]. destruct Hfresh as [?|[? ?]]; [by left|right; set_solver].
    + split; [done|]. by right.
  - destruct P3 as [(A & -> & B)|(A & -> & B & C)]; cbn in B.
    + left. split; [done|]. split; [set_solver|]. cbn. set_solver.
    + right. split; [done|]. split; [set_solver|]. cbn. split; [set_solver|]. rewrite lookup_insert_ne by set_solver. done.
  - eapply same_file_trans; [exact F1|exact P4].
Qed.

(** [a->r_cnt++] of a proxy. *)
Lemma bump_spec zp l1 a e l2 X : holds zp (l1 ++ (a, e) :: l2) X -> is_proxy e -> 0 <= r_cnt e < 2 ^ 32 - 1 ->
  exists zp', bump zp a = Some zp' /\ holds zp' (l1 ++ (a, with_cnt e (r_cnt e + 1)) :: l2) X /\
    replaced zp zp' (l1 ++ (a, e) :: l2) X X a e [(a, with_cnt e (r_cnt e + 1))].
Proof using HL.
  intros Hh Hp Hc. pose proof (holds_objects _ _ _ Hh) as [Hnd Ho]. destruct (Ho a e ltac:(set_solver)) as (_ & _ & Ha & _).
  unfold bump. rewrite Ha. cbn [mbind option_bind]. unfold u32. rewrite Z.mod_small by lia. eexists. split; [done|]. split.
  - eapply holds_set_in; [exact Hh|]. pose proof (ho_chain _ _ _ Hh) as Hch. rewrite snd_mid in Hch. apply chain_mid. by apply chain_mid in Hch.
  - split; [|intros b n [= -> ->]%list_elem_of_singleton; split; [done|by left]|left|done].
    + intros b Hb _. cbn. by apply lookup_insert_ne.
    + split; [by destruct Hp|]. split; [done|]. cbn. set_solver.
Qed.
End tree.
