(* ===== verification/RlockProof.v ===== *)
(** * Range locks: the invariant and what each operation does to it

    [H] are the locks that are held, by their handles, and [W] the locks of
    those who wait.  [range_ok] relates them to the tree; [cover] the ranges of
    [H] to the entries. *)
From Stdlib Require Import ZArith Lia.
From stdpp Require Import base numbers list option gmap.
From S2P Require Import Prelude AvlSpec AvlHeap Rlock RlockCover RlockTree.

Section proof.
Context {T : Type} `{HI : AvlIface T} {cap : nat} {HL : AvlHeapLaws T cap}.
Implicit Types (zp : znode T) (es : list (Z * rl)) (H W : list Z).

(** The handles and requests that are not entries. *)
Definition outs es H W : gset Z := list_to_set (H ++ W) ∖ list_to_set es.*1.

(** An entry is a handle, or a proxy for readers; a reader waits at a reader's
    entry only behind a writer. *)
Record ent_ok H W (a : Z) (e : rl) : Prop := {
  en_type : r_type e <> RL_APPEND;
  en_own : r_proxy e = false -> a ∈ H /\ r_cnt e = 1;
  en_proxy : r_proxy e = true -> (a ∉ H) /\ (a ∉ W) /\ r_type e = RL_READER;
  en_wanted : r_type e = RL_READER -> r_read_wanted e = true -> r_write_wanted e = true
}.

(** A handle is an entry, or stands for a reader whose range proxies hold. *)
Definition handle_ok zp es (h : Z) : Prop :=
  exists r, z_rl zp !! h = Some r /\ r_proxy r = false /\ valid r /\
    (h ∈ es.*1 \/ (r_type r = RL_READER /\ r_cnt r = 0 /\ r_write_wanted r = false /\ r_read_wanted r = false)).

Record range_ok zp es H W : Prop := {
  ro_holds : holds (cap := cap) zp es (outs es H W);
  ro_nodup : NoDup (H ++ W);
  ro_ent : forall a e, (a, e) ∈ es -> ent_ok H W a e;
  ro_handle : forall h, h ∈ H -> handle_ok zp es h;
  ro_wait : forall w, w ∈ W -> is_Some (z_rl zp !! w)
}.

(** What an operation on behalf of another lock leaves as it was. *)
Record frame zp zp' H W : Prop := {
  fr_h : forall h r, h ∈ H -> z_rl zp !! h = Some r ->
    exists r', z_rl zp' !! h = Some r' /\ r_off r' = r_off r /\ r_len r' = r_len r /\ r_type r' = r_type r;
  fr_w : forall w, w ∈ W -> z_rl zp' !! w = z_rl zp !! w;
  fr_file : same_file zp zp'
}.

Definition wanted es (cv : kcondvar) : Prop := exists e, (cv.1, e) ∈ es /\ (if cv.2 then r_write_wanted e else r_read_wanted e) = true.
Definition keeps es es' : Prop := forall cv, wanted es cv -> wanted es' cv.

Definition hrange zp (h : Z) : Z * Z := match z_rl zp !! h with Some r => (r_off r, fin r) | None => (0, 0) end.

Lemma frame_refl zp H W : frame zp zp H W.
Proof. split; [naive_solver|done|done]. Qed.

Lemma frame_trans zp1 zp2 zp3 H W : frame zp1 zp2 H W -> frame zp2 zp3 H W -> frame zp1 zp3 H W.
Proof.
  intros [A1 A2 A3] [B1 B2 B3]. split; [|intros w Hw; by rewrite B2, A2|by eapply same_file_trans].
  intros h r Hh Hr. destruct (A1 h r Hh Hr) as (r' & Hr' & E1 & E2 & E3). destruct (B1 h r' Hh Hr') as (r2 & Hr2 & E4 & E5 & E6). exists r2. by rewrite E4, E5, E6.
Qed.

Lemma keeps_refl es : keeps es es.
Proof. by intros cv. Qed.
Lemma keeps_trans es1 es2 es3 : keeps es1 es2 -> keeps es2 es3 -> keeps es1 es3.
Proof. unfold keeps. auto. Qed.

Lemma hranges_frame zp zp' H W : frame zp zp' H W -> (forall h, h ∈ H -> is_Some (z_rl zp !! h)) -> hrange zp' <$> H = hrange zp <$> H.
Proof.
  intros [A _ _] Hs. apply list_fmap_ext. intros i h Hi. apply list_elem_of_lookup_2 in Hi. destruct (Hs h Hi) as [r Hr].
  destruct (A h r Hi Hr) as (r' & Hr' & E1 & E2 & _). unfold hrange, fin. rewrite Hr, Hr'. by rewrite E1, E2.
Qed.

Lemma handle_some zp es H W h : range_ok zp es H W -> h ∈ H -> is_Some (z_rl zp !! h).
Proof. intros Hok Hh. destruct (ro_handle _ _ _ _ Hok h Hh) as (r & Hr & _). eauto. Qed.

Lemma outs_size es H W : NoDup (H ++ W) -> (size (outs es H W) <= length H + length W)%nat.
Proof.
  intros Hnd. rewrite <-length_app, <-(size_list_to_set (C := gset Z) (H ++ W)) by done. apply subseteq_size. unfold outs. set_solver.
Qed.

Lemma elem_outs es H W b : b ∈ outs es H W <-> (b ∈ H \/ b ∈ W) /\ b ∉ es.*1.
Proof. unfold outs. rewrite elem_of_difference, !elem_of_list_to_set, elem_of_app. done. Qed.

(** A request is not an entry. *)
Lemma wait_out zp es H W w : range_ok zp es H W -> w ∈ W -> w ∉ es.*1.
Proof.
  intros Hok Hw ((b & e) & -> & Hin)%list_elem_of_fmap. destruct (ro_ent _ _ _ _ Hok _ _ Hin) as [_ A B _]. cbn in *.
  destruct (r_proxy e); [by destruct (B eq_refl) as (_ & ? & _)|]. destruct (A eq_refl) as [Hh _].
  pose proof (ro_nodup _ _ _ _ Hok) as (_ & Hd & _)%NoDup_app. by apply (Hd b).
Qed.

Lemma fst_in (a : Z) (e : rl) es : (a, e) ∈ es -> a ∈ es.*1.
Proof. intros H. by apply (list_elem_of_fmap_2 fst) in H. Qed.
Lemma snd_in (a : Z) (e : rl) es : (a, e) ∈ es -> e ∈ es.*2.
Proof. intros H. by apply (list_elem_of_fmap_2 snd) in H. Qed.

(** An address that is no entry and no object outside is of nobody. *)
Lemma fresh_out es H W b : b ∉ es.*1 -> b ∉ outs es H W -> (b ∉ H) /\ (b ∉ W).
Proof. rewrite elem_outs. tauto. Qed.

(** ** Replacing an entry by proxies *)

Lemma replaced_ok zp zp' l1 a e l2 H W N X' : range_ok zp (l1 ++ (a, e) :: l2) H W -> plain e -> holds (cap := cap) zp' (l1 ++ N ++ l2) X' ->
  replaced zp zp' (l1 ++ (a, e) :: l2) (outs (l1 ++ (a, e) :: l2) H W) X' a e N ->
  range_ok zp' (l1 ++ N ++ l2) H W /\ frame zp zp' H W /\ keeps (l1 ++ (a, e) :: l2) (l1 ++ N ++ l2).
Proof using HL.
  intros Hok (Ht & Hw & Hr & Hc) Hh' [P1 P2 P3 P4]. set (es := l1 ++ (a, e) :: l2) in *. pose proof (holds_objects _ _ _ (ro_holds _ _ _ _ Hok)) as [Hnd Ho].
  assert (a ∉ l1.*1 /\ a ∉ l2.*1) as [Ha1 Ha2].
  { unfold es in Hnd. rewrite fst_mid, <-Permutation_middle in Hnd. apply NoDup_cons in Hnd as [Hn _]. set_solver. }
  pose proof (ro_ent _ _ _ _ Hok a e ltac:(unfold es; set_solver)) as [_ Hown Hprx _].
  assert (forall b, b ∈ N.*1 -> (b ∉ H) /\ (b ∉ W)) as HN.
  { intros b ((b' & n) & -> & Hb)%list_elem_of_fmap. cbn. destruct (P2 b' n Hb) as [Hp [->|[F1 F2]]]; [|by eapply fresh_out].
    destruct P3 as [(Ep & _ & _)|(_ & _ & HaN & _)]; [|by apply fst_in in Hb]. by destruct (Hprx Ep) as (? & ? & _). }
  assert (es.*1 = l1.*1 ++ a :: l2.*1) as Ees by (unfold es; apply fst_mid).
  assert (X' = outs (l1 ++ N ++ l2) H W) as ->.
  { apply set_eq. intros b. rewrite elem_outs, !fmap_app, !elem_of_app. destruct P3 as [(Ep & -> & HaN)|(Ep & -> & HaN & _)].
    - destruct (Hprx Ep) as (A & B & _). rewrite elem_outs, Ees, elem_of_app, elem_of_cons. specialize (HN b). split; [naive_solver|]. intros [C D]. split; [done|]. intros [?|[->|?]]; tauto.
    - destruct (Hown Ep) as [A _]. rewrite elem_of_union, elem_of_singleton, elem_outs, Ees, elem_of_app, elem_of_cons. specialize (HN b). split.
      + intros [->|[C D]]; [|tauto]. split; [by left|]. tauto.
      + intros [C D]. destruct (decide (b = a)); [by left|]. right. split; [done|]. tauto. }
  assert (forall b, b ∈ H \/ b ∈ W -> b <> a -> z_rl zp' !! b = z_rl zp !! b) as Hsame.
  { intros b Hb Hne. apply P1; [done|]. intros HbN. destruct (HN b HbN). tauto. }
  assert (a ∉ W) as HaW. { intros Hin. apply (wait_out _ _ _ _ _ Hok Hin). rewrite Ees. set_solver. }
  pose proof (Ho a e ltac:(unfold es; set_solver)) as (_ & _ & Hae & _).
  assert (a ∈ H -> z_rl zp' !! a = Some (with_cnt e 0) /\ r_proxy e = false) as HaH.
  { intros Hin. destruct P3 as [(Ep & _)|(Ep & _ & _ & E)]; [|done]. by destruct (Hprx Ep) as (? & _). }
  split; [split; [done|by apply (ro_nodup _ _ _ _ Hok)|..]|split; [split|]].
  - intros b f Hb. rewrite !elem_of_app in Hb. destruct Hb as [Hb|[Hb|Hb]]; [apply (ro_ent _ _ _ _ Hok); unfold es; set_solver| |apply (ro_ent _ _ _ _ Hok); unfold es; set_solver].
    destruct (P2 b f Hb) as [(Q1 & Q2 & Q3 & Q4) _]. destruct (HN b (fst_in _ _ _ Hb)). split; [by rewrite Q2|by rewrite Q1|done|by rewrite Q4].
  - intros h Hh. destruct (decide (h = a)) as [->|Hne].
    + destruct (HaH Hh) as [E Ep]. exists (with_cnt e 0). split; [done|]. split; [done|]. split; [by apply (Ho a e); unfold es; set_solver|]. by right.
    + destruct (ro_handle _ _ _ _ Hok h Hh) as (r & E & Ep & Hvr & Hc'). exists r. split; [by rewrite Hsame by auto|]. split; [done|]. split; [done|].
      destruct Hc' as [Hin|?]; [left|by right]. rewrite Ees in Hin. rewrite !fmap_app. set_solver.
  - intros w Hw'. rewrite Hsame; [by apply (ro_wait _ _ _ _ Hok)|by right|by intros ->].
  - intros h r Hh Hr'. destruct (decide (h = a)) as [->|Hne].
    + destruct (HaH Hh) as [E Ep]. exists (with_cnt e 0). split; [done|]. rewrite Hae in Hr'. by injection Hr' as <-.
    + exists r. by rewrite Hsame by auto.
  - intros w Hw'. apply Hsame; [by right|by intros ->].
  - done.
  - intros [b k] (f & Hb & Hf). exists f. split; [|done]. cbn in *. unfold es in Hb. rewrite elem_of_app, elem_of_cons in Hb.
    destruct Hb as [Hb|[[= -> ->]|Hb]]; [set_solver|destruct k; congruence|set_solver].
Qed.

Lemma plain_ent H W a e : ent_ok H W a e -> r_type e = RL_READER -> r_write_wanted e = false -> plain e.
Proof.
  intros [_ A _ B] Ht Hw. split; [done|]. split; [done|]. split; [|naive_solver]. specialize (B Ht). destruct (r_read_wanted e); [|done]. rewrite B in Hw; done.
Qed.

Lemma proxy_plain e : is_proxy e -> plain e.
Proof. intros (A & B & C & D). repeat (split; [done|]). by rewrite A. Qed.

Lemma proxify_ok zp l1 a e l2 H W : range_ok zp (l1 ++ (a, e) :: l2) H W -> (length (l1 ++ (a, e) :: l2) + length H + length W < cap)%nat -> plain e ->
  exists zp' p e', zfs_range_proxify zp a = Some (zp', p) /\ range_ok zp' (l1 ++ (p, e') :: l2) H W /\ frame zp zp' H W /\
    keeps (l1 ++ (a, e) :: l2) (l1 ++ (p, e') :: l2) /\ same_ent e e' /\ is_proxy e'.
Proof using HL.
  intros Hok Hroom Hpl. pose proof (outs_size (l1 ++ (a, e) :: l2) _ _ (ro_nodup _ _ _ _ Hok)) as Hs.
  destruct (proxify_spec zp l1 a e l2 _ (ro_holds _ _ _ _ Hok) ltac:(lia) Hpl) as (zp' & p & e' & X' & E & Hh & Hse & Hrp).
  destruct (replaced_ok zp zp' l1 a e l2 H W [(p, e')] X' Hok Hpl Hh Hrp) as (H1 & H2 & H3). exists zp', p, e'.
  split; [done|]. split; [done|]. split; [done|]. split; [done|]. split; [done|]. apply (rp_new _ _ _ _ _ _ _ _ Hrp p). set_solver.
Qed.

Lemma bump_ok zp l1 a e l2 H W : range_ok zp (l1 ++ (a, e) :: l2) H W -> is_proxy e -> 0 <= r_cnt e < 2 ^ 32 - 1 ->
  exists zp', bump zp a = Some zp' /\ range_ok zp' (l1 ++ (a, with_cnt e (r_cnt e + 1)) :: l2) H W /\ frame zp zp' H W /\
    keeps (l1 ++ (a, e) :: l2) (l1 ++ (a, with_cnt e (r_cnt e + 1)) :: l2).
Proof using HL.
  intros Hok Hp Hc. destruct (bump_spec zp l1 a e l2 _ (ro_holds _ _ _ _ Hok) Hp Hc) as (zp' & E & Hh & Hrp).
  destruct (replaced_ok zp zp' l1 a e l2 H W [(a, with_cnt e (r_cnt e + 1))] _ Hok (proxy_plain _ Hp) Hh Hrp) as (H1 & H2 & H3). by exists zp'.
Qed.

Lemma split_ok zp l1 a e l2 H W off : range_ok zp (l1 ++ (a, e) :: l2) H W -> (length (l1 ++ (a, e) :: l2) + length H + length W + 1 < cap)%nat -> plain e ->
  r_off e < off < fin e ->
  exists zp' front rear f g, zfs_range_split zp a off = Some (zp', front) /\ range_ok zp' (l1 ++ (front, f) :: (rear, g) :: l2) H W /\ frame zp zp' H W /\
    keeps (l1 ++ (a, e) :: l2) (l1 ++ (front, f) :: (rear, g) :: l2) /\ is_proxy f /\ r_off g = off /\ r_off f = r_off e /\ fin f = off /\ is_proxy g /\ fin g = fin e /\
    forall R, cover (l1.*2 ++ e :: l2.*2) R -> cover (l1.*2 ++ f :: g :: l2.*2) R.
Proof using HL.
  intros Hok Hroom Hpl Hoff. pose proof (outs_size (l1 ++ (a, e) :: l2) _ _ (ro_nodup _ _ _ _ Hok)) as Hs.
  destruct (split_spec zp l1 a e l2 _ off (ro_holds _ _ _ _ Hok) ltac:(lia) Hpl Hoff) as (zp' & front & rear & f & X' & E & Hh & F1 & F2 & F3 & Hrp).
  cbv zeta in *. set (g := proxy_rl off (fin e - off) (r_cnt e)) in *.
  destruct (replaced_ok zp zp' l1 a e l2 H W [(front, f); (rear, g)] X' Hok Hpl Hh Hrp) as (H1 & H2 & H3). exists zp', front, rear, f, g.
  split; [done|]. split; [done|]. split; [done|]. split; [done|]. split; [apply (rp_new _ _ _ _ _ _ _ _ Hrp front); set_solver|]. split; [done|]. split; [done|].
  assert (fin f = off) as Ff by (unfold fin; rewrite F1, F2; lia). assert (fin g = fin e) as Fg by (unfold fin, g; cbn; unfold fin; lia).
  split; [done|]. split; [done|]. split; [done|]. intros R Hc. eapply cover_split; try done; cbn; lia.
Qed.

(** An insertion of a proxy for a gap. *)
Lemma new_proxy_ok zp l1 l2 H W off len : range_ok zp (l1 ++ l2) H W -> (length (l1 ++ l2) + length H + length W < cap)%nat ->
  chain (l1.*2 ++ proxy_rl off len 1 :: l2.*2) ->
  exists zp' p, zfs_range_new_proxy zp off len = Some zp' /\ range_ok zp' (l1 ++ (p, proxy_rl off len 1) :: l2) H W /\ frame zp zp' H W /\
    keeps (l1 ++ l2) (l1 ++ (p, proxy_rl off len 1) :: l2).
Proof using HL.
  intros Hok Hroom Hch. pose proof (outs_size (l1 ++ l2) _ _ (ro_nodup _ _ _ _ Hok)) as Hs.
  destruct (new_proxy_spec zp l1 l2 _ off len (ro_holds _ _ _ _ Hok) ltac:(lia) Hch) as (zp' & p & E & Hh & P1 & P2 & Erl & F).
  destruct (fresh_out _ _ _ _ P1 P2) as [PH PW]. exists zp', p. split; [done|].
  assert (forall b, b ∈ H \/ b ∈ W -> z_rl zp' !! b = z_rl zp !! b) as Hsame by (intros b Hb; rewrite Erl; apply lookup_insert_ne; intros <-; tauto).
  assert (outs (l1 ++ (p, proxy_rl off len 1) :: l2) H W = outs (l1 ++ l2) H W) as Eo.
  { apply set_eq. intros b. rewrite !elem_outs, fst_mid, fmap_app, !elem_of_app, elem_of_cons. split; [tauto|]. intros [A B]. split; [done|]. intros [?|[->|?]]; tauto. }
  split; [split; [by rewrite Eo|by apply (ro_nodup _ _ _ _ Hok)|..]|split; [split|]].
  - intros b f Hb. rewrite elem_of_app, elem_of_cons in Hb. destruct Hb as [Hb|[[= -> ->]|Hb]]; [apply (ro_ent _ _ _ _ Hok); set_solver|by split|apply (ro_ent _ _ _ _ Hok); set_solver].
  - intros h Hh'. destruct (ro_handle _ _ _ _ Hok h Hh') as (r & E' & Ep & Hvr & Hc). exists r. split; [by rewrite Hsame by auto|]. split; [done|]. split; [done|].
    destruct Hc as [Hin|?]; [left|by right]. rewrite fst_mid. rewrite fmap_app in Hin. set_solver.
  - intros w Hw. rewrite Hsame by auto. by apply (ro_wait _ _ _ _ Hok).
  - intros h r Hh' Hr. exists r. by rewrite Hsame by auto.
  - intros w Hw. apply Hsame. by right.
  - done.
  - intros [b k] (f & Hb & Hf). exists f. split; [|done]. cbn in *. set_solver.
Qed.

(** ** Adding a reader *)

(** The range being locked grows over the entry at [a]. *)
Lemma grow_ok zp l1 a e l2 H W R off : range_ok zp (l1 ++ (a, e) :: l2) H W -> (length (l1 ++ (a, e) :: l2) + length H + length W < cap)%nat -> plain e ->
  cover (l1.*2 ++ e :: l2.*2) ((off, r_off e) :: R) -> off <= r_off e -> Z.of_nat (length R) + 1 < 2 ^ 32 - 1 ->
  exists zp1 zp2 p e2, zfs_range_proxify zp a = Some (zp1, p) /\ bump zp1 p = Some zp2 /\ range_ok zp2 (l1 ++ (p, e2) :: l2) H W /\ frame zp zp2 H W /\
    keeps (l1 ++ (a, e) :: l2) (l1 ++ (p, e2) :: l2) /\ fin e2 = fin e /\ cover (l1.*2 ++ e2 :: l2.*2) ((off, fin e) :: R).
Proof using HL.
  intros Hok Hroom Hpl Hc Hoff HR. destruct (proxify_ok _ _ _ _ _ _ _ Hok Hroom Hpl) as (zp1 & p & e1 & E1 & Hok1 & F1 & K1 & Hse & Hp1).
  pose proof (cover_same _ _ _ _ _ Hse Hc) as Hc1. destruct Hse as (S1 & S2 & S3).
  destruct (co_cnt _ _ Hc1 e1 ltac:(set_solver)) as [Cn Cp]. pose proof (nlocks_bound ((off, r_off e) :: R) (r_off e1)) as Hb. cbn [length] in Hb.
  destruct (bump_ok _ _ _ _ _ _ _ Hok1 Hp1) as (zp2 & E2 & Hok2 & F2 & K2); [lia|].
  exists zp1, zp2, p, (with_cnt e1 (r_cnt e1 + 1)). split; [done|]. split; [done|]. split; [done|]. split; [by eapply frame_trans|]. split; [by eapply keeps_trans|].
  assert (fin e1 = fin e) as Ef by (unfold fin; by rewrite S1, S2). split; [done|]. rewrite <-Ef. apply cover_extend; [|by rewrite <-S1]. by rewrite <-S1.
Qed.

(** ... or over the part of it before [mid]. *)
Lemma grow_split_ok zp l1 a e l2 H W R off mid : range_ok zp (l1 ++ (a, e) :: l2) H W -> (length (l1 ++ (a, e) :: l2) + length H + length W + 1 < cap)%nat -> plain e ->
  cover (l1.*2 ++ e :: l2.*2) ((off, r_off e) :: R) -> off <= r_off e -> r_off e < mid < fin e -> Z.of_nat (length R) + 1 < 2 ^ 32 - 1 ->
  exists zp1 zp2 p es2, zfs_range_split zp a mid = Some (zp1, p) /\ bump zp1 p = Some zp2 /\ range_ok zp2 es2 H W /\ frame zp zp2 H W /\
    keeps (l1 ++ (a, e) :: l2) es2 /\ cover es2.*2 ((off, mid) :: R).
Proof using HL.
  intros Hok Hroom Hpl Hc Hoff Hmid HR.
  destruct (split_ok _ _ _ _ _ _ _ mid Hok Hroom Hpl Hmid) as (zp1 & p & q & f & g & E1 & Hok1 & F1 & K1 & Hp & G1 & G2 & G3 & _ & _ & Hcov).
  apply Hcov in Hc. destruct (co_cnt _ _ Hc f ltac:(set_solver)) as [Cn Cp]. pose proof (nlocks_bound ((off, r_off e) :: R) (r_off f)) as Hb. cbn [length] in Hb.
  destruct (bump_ok _ _ _ _ _ _ _ Hok1 Hp) as (zp2 & E2 & Hok2 & F2 & K2); [lia|].
  exists zp1, zp2, p, (l1 ++ (p, with_cnt f (r_cnt f + 1)) :: (q, g) :: l2). split; [done|]. split; [done|]. split; [done|]. split; [by eapply frame_trans|].
  split; [by eapply keeps_trans|]. rewrite snd_mid. cbn [fmap list_fmap snd]. rewrite <-G3. apply cover_extend; [|by rewrite G2]. by rewrite G2.
Qed.

(** The range being locked grows over a gap. *)
Lemma grow_gap_ok zp l1 l2 H W R off cur hi : range_ok zp (l1 ++ l2) H W -> (length (l1 ++ l2) + length H + length W < cap)%nat ->
  cover (l1 ++ l2).*2 ((off, cur) :: R) -> 0 <= off <= cur -> cur < hi -> hi < 2 ^ 64 ->
  (forall x, x ∈ l1.*2 -> fin x <= cur) -> (forall x, x ∈ l2.*2 -> hi <= r_off x) ->
  exists zp' p, zfs_range_new_proxy zp cur (u64 (hi - cur)) = Some zp' /\ range_ok zp' (l1 ++ (p, proxy_rl cur (hi - cur) 1) :: l2) H W /\ frame zp zp' H W /\
    keeps (l1 ++ l2) (l1 ++ (p, proxy_rl cur (hi - cur) 1) :: l2) /\ cover (l1 ++ (p, proxy_rl cur (hi - cur) 1) :: l2).*2 ((off, hi) :: R).
Proof using HL.
  intros Hok Hroom Hc Hoff Hhi H64 Hl1 Hl2. rewrite u64_small by (unfold is_u64; lia). set (n := proxy_rl cur (hi - cur) 1).
  assert (fin n = hi) as Fn by (unfold fin, n; cbn; lia). rewrite fmap_app in Hc.
  assert (cover (l1.*2 ++ n :: l2.*2) ((off, hi) :: R)) as Hc'.
  { rewrite <-Fn. apply cover_gap; [done|cbn; lia|unfold valid; rewrite Fn; cbn; lia|done|done|by rewrite Fn]. }
  destruct (new_proxy_ok zp l1 l2 H W cur (hi - cur) Hok Hroom (co_chain _ _ Hc')) as (zp' & p & E & Hok' & F & K).
  exists zp', p. split; [done|]. split; [done|]. split; [done|]. split; [done|]. by rewrite snd_mid.
Qed.

Lemma hd_cons_nz zp es H W l1 a e l2 : range_ok zp es H W -> es = l1 ++ (a, e) :: l2 -> a <> 0 /\ z_rl zp !! a = Some e /\ valid e.
Proof using HL.
  intros Hok ->. destruct (holds_objects _ _ _ (ro_holds _ _ _ _ Hok)) as [_ Ho]. destruct (Ho a e ltac:(set_solver)) as (? & _ & ? & ?). done.
Qed.

Lemma ok_chain zp es H W : range_ok zp es H W -> chain es.*2.
Proof. intros [Hh _ _ _ _]. apply Hh. Qed.

(** Up to the entry at [next]: the gap before it is filled. *)
Lemma gap_step zp l1 a e l2 prev cur H W R off : range_ok zp (l1 ++ (a, e) :: l2) H W -> (length (l1 ++ (a, e) :: l2) + length H + length W < cap)%nat ->
  cover (l1 ++ (a, e) :: l2).*2 ((off, cur) :: R) -> 0 <= off <= cur ->
  (prev = 0 /\ r_off e = cur) \/ (exists l1' p, l1 = l1' ++ [(prev, p)] /\ fin p = cur) ->
  exists zp' l1', (if negb (prev =? 0) then
      let* p := z_rl zp !! prev in
      if r_end p <? r_off e then zfs_range_new_proxy zp (r_end p) (u64 (r_off e - r_end p)) else Some zp
    else Some zp) = Some zp' /\ range_ok zp' (l1' ++ (a, e) :: l2) H W /\ frame zp zp' H W /\ keeps (l1 ++ (a, e) :: l2) (l1' ++ (a, e) :: l2) /\
    cover (l1'.*2 ++ e :: l2.*2) ((off, r_off e) :: R) /\ (length l1' <= length l1 + 1)%nat /\ cur <= r_off e.
Proof using HL.
  intros Hok Hroom Hc Hoff Hprev. pose proof (ok_chain _ _ _ _ Hok) as Hch. rewrite snd_mid in Hch. pose proof (proj1 (chain_mid _ _ _) Hch) as (Hv & _ & Hl1 & Hl2).
  destruct Hprev as [[-> Hcur]|(l1' & p & -> & Hp)].
  { exists zp, l1. cbn [Z.eqb negb]. split; [done|]. split; [done|]. split; [apply frame_refl|]. split; [apply keeps_refl|]. rewrite Hcur, <-snd_mid with (a := a). split; [done|]. lia. }
  destruct (hd_cons_nz _ _ _ _ l1' prev p ((a, e) :: l2) Hok) as (Hz & Erl & Hvp); [by rewrite <-app_assoc|].
  rewrite (proj2 (Z.eqb_neq _ _) Hz). cbn [negb]. rewrite Erl. cbn [mbind option_bind]. rewrite (r_end_valid _ Hvp), Hp.
  assert (cur <= r_off e) as Hle. { rewrite <-Hp. apply Hl1. rewrite fmap_app. set_solver. }
  destruct (Z.ltb_spec cur (r_off e)) as [Hlt|Hge].
  - destruct (grow_gap_ok zp (l1' ++ [(prev, p)]) ((a, e) :: l2) H W R off cur (r_off e) Hok Hroom Hc Hoff Hlt) as (zp' & q & -> & Hok' & F & K & Hc').
    { destruct Hv as (_ & ? & ?). unfold fin in *. lia. }
    { intros x Hx. rewrite fmap_app in Hch, Hx. cbn [fmap list_fmap snd] in *. apply elem_of_app in Hx as [Hx|Hx%list_elem_of_singleton]; [|by subst x; lia].
      rewrite <-app_assoc in Hch. apply chain_mid in Hch as ((_ & Hlp & _) & _ & A & _). specialize (A x Hx). unfold fin in *. lia. }
    { intros x Hx. cbn [fmap list_fmap snd] in Hx. apply elem_of_cons in Hx as [->|Hx]; [lia|]. specialize (Hl2 x Hx). destruct Hv as (_ & ? & _). unfold fin in *. lia. }
    exists zp', ((l1' ++ [(prev, p)]) ++ [(q, proxy_rl cur (r_off e - cur) 1)]). split; [done|]. rewrite <-(app_assoc (l1' ++ _)). split; [done|]. split; [done|]. split; [done|].
    split; [|split; [rewrite length_app; cbn [length]; lia|done]]. rewrite <-snd_mid with (a := a), <-(app_assoc (l1' ++ _)). done.
  - exists zp, (l1' ++ [(prev, p)]). split; [done|]. split; [done|]. split; [apply frame_refl|]. split; [apply keeps_refl|]. assert (r_off e = cur) as -> by lia. rewrite <-snd_mid with (a := a).
    split; [done|]. lia.
Qed.

(** The end range that is left. *)
Lemma rest_ok zp l1 l2 prev p cur H W R off len : range_ok zp (l1 ++ l2) H W -> (length (l1 ++ l2) + length H + length W < cap)%nat ->
  cover (l1 ++ l2).*2 ((off, cur) :: R) -> 0 <= off <= cur -> cur < off + len -> off + len < 2 ^ 64 -> (exists l1', l1 = l1' ++ [(prev, p)]) -> fin p = cur ->
  (forall x, x ∈ l2.*2 -> off + len <= r_off x) ->
  exists zp' es', (let* p := z_rl zp !! prev in zfs_range_new_proxy zp (r_end p) (u64 (off + len - r_end p))) = Some zp' /\ range_ok zp' es' H W /\ frame zp zp' H W /\
    keeps (l1 ++ l2) es' /\ cover es'.*2 ((off, off + len) :: R).
Proof using HL.
  intros Hok Hroom Hc Hoff Hcur H64 [l1' ->] Hp Hl2. pose proof (ok_chain _ _ _ _ Hok) as Hch. rewrite <-app_assoc in Hch. cbn [app] in Hch. rewrite snd_mid in Hch.
  apply chain_mid in Hch as ((_ & Hlp & _) & _ & A & _). destruct (hd_cons_nz _ _ _ _ l1' prev p l2 Hok) as (Hz & -> & Hvp); [by rewrite <-app_assoc|].
  cbn [mbind option_bind]. rewrite (r_end_valid _ Hvp), Hp.
  destruct (grow_gap_ok zp (l1' ++ [(prev, p)]) l2 H W R off cur (off + len) Hok Hroom Hc Hoff Hcur H64) as (zp' & q & E & Hok' & F & K & Hc'); [|done|eauto 10].
  intros x Hx. rewrite fmap_app in Hx. apply elem_of_app in Hx as [Hx|Hx%list_elem_of_singleton]; [specialize (A x Hx); unfold fin in *; lia|subst x; cbn; lia].
Qed.

Lemma add_reader_loop_spec H W R off len : 0 <= off -> off + len < 2 ^ 64 -> Z.of_nat (length R) + 1 < 2 ^ 32 - 1 ->
  forall k zp l1 l2 prev cur, range_ok zp (l1 ++ l2) H W -> cover (l1 ++ l2).*2 ((off, cur) :: R) -> off <= cur < off + len ->
  (prev = 0 /\ exists a e l2', l2 = (a, e) :: l2' /\ r_off e = cur) \/ (exists l1' p, l1 = l1' ++ [(prev, p)] /\ fin p = cur) ->
  (forall a e, (a, e) ∈ l2 -> r_off e < off + len -> r_type e = RL_READER /\ r_write_wanted e = false) ->
  (length l2 < k)%nat -> (length (l1 ++ l2) + length H + length W + length l2 + 1 < cap)%nat ->
  exists zp' es', add_reader_loop k zp off len prev (hd 0 l2.*1) = Some zp' /\ range_ok zp' es' H W /\ frame zp zp' H W /\ keeps (l1 ++ l2) es' /\
    cover es'.*2 ((off, off + len) :: R).
Proof using HL.
  intros Hoff H64 HR k. induction k as [|k IH]; intros zp l1 l2 prev cur Hok Hc Hcur Hprev Hplain Hk Hroom; [lia|]. cbn [add_reader_loop].
  destruct l2 as [|[a e] l2].
  { destruct Hprev as [[_ (? & ? & ? & ? & _)]|(l1' & p & -> & Hp)]; [done|]. cbn [hd fmap list_fmap Z.eqb].
    eapply rest_ok; [exact Hok|cbn [length] in *; lia|exact Hc|lia|lia|done|eauto|done|]. intros x Hx. by apply elem_of_nil in Hx. }
  cbn [hd fmap list_fmap fst]. destruct (hd_cons_nz _ _ _ _ l1 a e l2 Hok eq_refl) as (Hz & Ea & Hv). rewrite (proj2 (Z.eqb_neq _ _) Hz), Ea. cbn [mbind option_bind].
  rewrite (r_end_valid _ Hv). rewrite (u64_small (off + len)) by (unfold is_u64; lia).
  pose proof (ok_chain _ _ _ _ Hok) as Hch. rewrite snd_mid in Hch. pose proof (proj1 (chain_mid _ _ _) Hch) as (_ & _ & _ & Hl2). pose proof Hv as (_ & Hlen & _).
  destruct (Z.leb_spec (off + len) (r_off e)) as [Hpast|Hover].
  { destruct Hprev as [[_ (? & ? & ? & [= -> -> ->] & ?)]|(l1' & p & -> & Hp)]; [lia|].
    eapply rest_ok; [exact Hok|cbn [length] in *; lia|exact Hc|lia|lia|done|eauto|done|]. intros x Hx. cbn [fmap list_fmap snd] in Hx.
    apply elem_of_cons in Hx as [->|Hx]; [done|]. specialize (Hl2 x Hx). unfold fin in *. lia. }
  destruct (gap_step zp l1 a e l2 prev cur H W R off Hok) as (zp1 & k1 & -> & Hok1 & F1 & K1 & Hc1 & Hk1 & Hle); [lia|done|lia| |].
  { destruct Hprev as [[-> (? & ? & ? & [= -> -> ->] & ?)]|?]; [by left|by right]. }
  cbn [mbind option_bind]. destruct (Hplain a e ltac:(by left) Hover) as [Ht Hw].
  pose proof (plain_ent _ _ _ _ (ro_ent _ _ _ _ Hok1 a e ltac:(set_solver)) Ht Hw) as Hpl. rewrite length_app in Hroom. cbn [length] in *.
  destruct (Z.eqb_spec (off + len) (fin e)) as [Heq|Hne]; [|destruct (Z.ltb_spec (off + len) (fin e)) as [Hin|Hpast]].
  - destruct (grow_ok zp1 k1 a e l2 H W R off Hok1) as (zp2 & zp3 & p & e2 & -> & E & Hok3 & F3 & K3 & _ & Hc3); [rewrite length_app; cbn [length]; lia|done|done|lia|lia|].
    cbn [mbind option_bind]. rewrite E. eexists _, _. split; [done|]. split; [exact Hok3|]. split; [by eapply frame_trans|]. split; [by eapply keeps_trans|]. by rewrite snd_mid, Heq.
  - destruct (grow_split_ok zp1 k1 a e l2 H W R off (off + len) Hok1) as (zp2 & zp3 & p & es3 & -> & E & Hok3 & F3 & K3 & Hc3); [rewrite length_app; cbn [length]; lia|done|done|lia|lia|lia|].
    cbn [mbind option_bind]. rewrite E. eexists _, _. split; [done|]. split; [exact Hok3|]. split; [by eapply frame_trans|]. split; [by eapply keeps_trans|]. done.
  - destruct (grow_ok zp1 k1 a e l2 H W R off Hok1) as (zp2 & zp3 & p & e2 & -> & E & Hok3 & F3 & K3 & Hf & Hc3); [rewrite length_app; cbn [length]; lia|done|done|lia|lia|].
    cbn [mbind option_bind]. rewrite E. cbn [mbind option_bind]. rewrite (holds_next _ _ _ _ _ _ (ro_holds _ _ _ _ Hok3)). cbn [mbind option_bind].
    destruct (IH zp3 (k1 ++ [(p, e2)]) l2 p (fin e)) as (zp' & es' & E' & Hok' & F' & K' & Hc'); rewrite <-?app_assoc; cbn [app].
    + done.
    + by rewrite snd_mid.
    + unfold fin in *. lia.
    + right. exists k1, e2. done.
    + intros b f Hb. apply (Hplain b f). by right.
    + lia.
    + rewrite length_app. cbn [length]. lia.
    + exists zp', es'. rewrite <-app_assoc in K'. split; [done|]. split; [done|]. split; [eapply frame_trans; [exact F1|]; by eapply frame_trans|]. split; [eapply keeps_trans; [exact K1|]; by eapply keeps_trans|done].
Qed.
End proof.
