(* ===== verification/RlockReader.v ===== *)
(** * Range locks: readers

    A round of the reader's search waits for an entry in its range that is a
    writer's or that a writer waits for; without one the lock is added. *)
From Stdlib Require Import ZArith Lia.
From stdpp Require Import base numbers list option gmap.
From S2P Require Import Prelude AvlSpec AvlHeap Rlock RlockCover RlockTree RlockProof.

Section reader.
Context {T : Type} `{HI : AvlIface T} {cap : nat} {HL : AvlHeapLaws T cap}.
Implicit Types (zp : znode T) (es : list (Z * rl)) (H W : list Z).
#[local] Notation range_ok := (range_ok (cap := cap)).

Definition overlaps (e n : rl) : Prop := r_off e < fin n /\ r_off n < fin e.
Definition blocks (e : rl) : Prop := r_type e = RL_WRITER \/ r_write_wanted e = true.

(** A request as [zfs_range_lock] makes it. *)
Record request (n : rl) : Prop := {
  rq_valid : valid n;
  rq_cnt : r_cnt n = 1;
  rq_proxy : r_proxy n = false;
  rq_ww : r_write_wanted n = false;
  rq_rw : r_read_wanted n = false
}.

Lemma range_ok_perm zp es H H' W W' : H ≡ₚ H' -> W ≡ₚ W' -> range_ok zp es H W -> range_ok zp es H' W'.
Proof.
  intros PH PW [A B C D E]. assert (outs es H' W' = outs es H W) as Eo by (unfold outs; by rewrite PH, PW).
  split; [by rewrite Eo|by rewrite <-PH, <-PW| |intros h; rewrite <-PH; apply D|intros w; rewrite <-PW; apply E].
  intros a e Hae. destruct (C a e Hae) as [c1 c2 c3 c4]. split; [done|by rewrite <-PH|by rewrite <-PH, <-PW|done].
Qed.

(** A store to a request. *)
Lemma set_wait_ok zp es H W new r : range_ok zp es H (new :: W) -> range_ok (set_rl zp new r) es H (new :: W) /\ frame zp (set_rl zp new r) H W.
Proof.
  intros Hok. pose proof (wait_out _ _ _ _ new Hok ltac:(by left)) as Hout. pose proof Hok as [A B C D E].
  apply NoDup_app in B as (_ & B1 & [B2 _]%NoDup_cons). assert (forall h, h ∈ H -> h <> new) as Hne by (intros h Hh ->; apply (B1 _ Hh); by left).
  assert (forall w, w ∈ W -> w <> new) as Hnw by (by intros w Hw ->).
  split; [split; [by apply holds_set_out|apply Hok|done|..]|split; [| |done]].
  - intros h Hh. destruct (D h Hh) as (r' & E1 & E2). exists r'. split; [|done]. cbn. rewrite lookup_insert_ne; [done|by intros <-; apply (Hne new)].
  - intros w Hw. cbn. destruct (decide (w = new)) as [->|]; [rewrite lookup_insert_eq; eauto|rewrite lookup_insert_ne by done; by apply E].
  - intros h r' Hh Hr. exists r'. cbn. rewrite lookup_insert_ne; [done|by intros <-; apply (Hne new)].
  - intros w Hw. cbn. apply lookup_insert_ne. intros <-. by apply (Hnw new).
Qed.

(** A reader whose range the proxies hold is granted. *)
Lemma promote_ok zp es H W new r : range_ok zp es H (new :: W) -> z_rl zp !! new = Some r -> r_proxy r = false -> r_type r = RL_READER -> r_cnt r = 0 -> valid r ->
  r_write_wanted r = false -> r_read_wanted r = false -> range_ok zp es (new :: H) W.
Proof.
  intros Hok Er Q1 Q2 Q3 Q6 Q4 Q5. pose proof Hok as [A B C D E].
  assert (outs es (new :: H) W = outs es H (new :: W)) as Eo by (apply set_eq; intros b; rewrite !elem_outs, !elem_of_cons; tauto).
  split; [by rewrite Eo|cbn [app]; by rewrite <-Permutation_middle in B|..].
  - intros a e Hae. destruct (C a e Hae) as [c1 c2 c3 c4]. split; [done| | |done].
    + intros Hp. destruct (c2 Hp). split; [by right|done].
    + intros Hp. destruct (c3 Hp) as (c5 & c6 & c7). rewrite elem_of_cons in *. tauto.
  - intros h [->|Hh]%elem_of_cons; [|by apply D]. exists r. split; [done|]. split; [done|]. split; [done|]. by right.
  - intros w Hw. apply E. by right.
Qed.

(** A request that overlaps no entry becomes one. *)
Lemma insert_ok zp zp' l1 l2 H W new n : range_ok zp (l1 ++ l2) H (new :: W) -> request n -> r_type n <> RL_APPEND ->
  holds (cap := cap) zp' (l1 ++ (new, n) :: l2) (outs (l1 ++ l2) H (new :: W) ∖ {[new]}) -> z_rl zp' = <[new := n]> (z_rl zp) ->
  range_ok zp' (l1 ++ (new, n) :: l2) (new :: H) W /\ keeps (l1 ++ l2) (l1 ++ (new, n) :: l2).
Proof.
  intros Hok Hn Ht Hh Erl. pose proof (wait_out _ _ _ _ new Hok ltac:(by left)) as Hout. pose proof Hok as [A B C D E].
  pose proof B as (_ & B1 & [B2 _]%NoDup_cons)%NoDup_app. assert (forall b, b ∈ H \/ b ∈ W -> b <> new) as Hne.
  { intros b [Hb|Hb] ->; [apply (B1 _ Hb); by left|done]. }
  assert (outs (l1 ++ (new, n) :: l2) (new :: H) W = outs (l1 ++ l2) H (new :: W) ∖ {[new]}) as Eo.
  { apply set_eq. intros b. rewrite elem_of_difference, elem_of_singleton, !elem_outs, fst_mid, fmap_app, !elem_of_app, !elem_of_cons. tauto. }
  assert (forall b, b ∈ H \/ b ∈ W -> z_rl zp' !! b = z_rl zp !! b) as Hsame.
  { intros b Hb. rewrite Erl. apply lookup_insert_ne. intros <-. by apply (Hne new). }
  split; [split|].
  - by rewrite Eo.
  - cbn [app]. by rewrite <-Permutation_middle in B.
  - intros a e Hae. rewrite elem_of_app, elem_of_cons in Hae. assert ((a, e) = (new, n) \/ (a, e) ∈ l1 ++ l2) as [[= -> ->]|Hin] by set_solver.
    + destruct Hn as [N1 N2 N3 N4 N5]. split; [done|intros _; split; [by left|done]|by rewrite N3|by rewrite N5].
    + destruct (C a e Hin) as [c1 c2 c3 c4]. split; [done| | |done].
      * intros Hp. destruct (c2 Hp). split; [by right|done].
      * intros Hp. destruct (c3 Hp) as (c5 & c6 & c7). rewrite elem_of_cons in *. tauto.
  - intros h [->|Hh']%elem_of_cons.
    + exists n. split; [rewrite Erl; apply lookup_insert_eq|]. split; [apply Hn|]. split; [apply Hn|]. left. rewrite fst_mid. set_solver.
    + destruct (D h Hh') as (r & E1 & E2 & Hvr & E3). exists r. rewrite Hsame by auto. split; [done|]. split; [done|]. split; [done|]. destruct E3 as [Hin|?]; [left|by right].
      rewrite fst_mid. rewrite fmap_app in Hin. set_solver.
  - intros w Hw. rewrite Hsame by auto. apply E. by right.
  - intros [b k] (f & Hb & Hf). exists f. split; [|done]. cbn in *. set_solver.
Qed.

Lemma insert_frame zp zp' H W new n : NoDup (H ++ new :: W) -> z_rl zp' = <[new := n]> (z_rl zp) -> same_file zp zp' -> frame zp zp' H W.
Proof.
  intros (_ & B1 & [B2 _]%NoDup_cons)%NoDup_app Erl F. split; [| |done].
  - intros h r Hh Hr. exists r. rewrite Erl, lookup_insert_ne; [done|]. intros <-. apply (B1 _ Hh). by left.
  - intros w Hw. rewrite Erl. apply lookup_insert_ne. by intros <-.
Qed.

(** An empty range at the place where the request goes. *)
Lemma cover_insert (l1 l2 : list (Z * rl)) a n R : cover (l1 ++ l2).*2 R -> valid n -> r_cnt n = 1 ->
  (forall x, x ∈ l1.*2 -> fin x <= r_off n) -> (forall x, x ∈ l2.*2 -> fin n <= r_off x) -> cover (l1 ++ (a, n) :: l2).*2 ((r_off n, fin n) :: R).
Proof.
  intros Hc Hv Hn H1 H2. rewrite snd_mid. apply cover_gap; [|lia|done..]. rewrite <-fmap_app. by apply cover_empty.
Qed.

(** ** Waiting *)

Lemma update_ok zp l1 a e e' l2 H W : range_ok zp (l1 ++ (a, e) :: l2) H W -> r_off e' = r_off e -> r_len e' = r_len e -> (r_proxy e = false -> r_cnt e' = r_cnt e) -> r_type e' = r_type e -> r_proxy e' = r_proxy e ->
  (r_write_wanted e = true -> r_write_wanted e' = true) -> (r_read_wanted e = true -> r_read_wanted e' = true) ->
  (r_type e = RL_READER -> r_read_wanted e' = true -> r_write_wanted e' = true) ->
  range_ok (set_rl zp a e') (l1 ++ (a, e') :: l2) H W /\ frame zp (set_rl zp a e') H W /\ keeps (l1 ++ (a, e) :: l2) (l1 ++ (a, e') :: l2).
Proof using HL.
  intros Hok S1 S2 S3 Et Ep Hww Hrw Hw. pose proof (wait_out _ _ _ _ a Hok) as Hwo. pose proof Hok as [A B C D E].
  destruct (hd_cons_nz _ _ _ _ l1 a e l2 Hok eq_refl) as (_ & Ea & Hve). rewrite fst_mid in Hwo.
  assert (forall w, w ∈ W -> w <> a) as Hwa by (intros w Hw' ->; apply (Hwo Hw'); set_solver).
  assert (outs (l1 ++ (a, e') :: l2) H W = outs (l1 ++ (a, e) :: l2) H W) as Eo by (unfold outs; by rewrite !fst_mid).
  split; [split|split; [split|]].
  - rewrite Eo. eapply holds_set_in; [exact A|]. pose proof (ok_chain _ _ _ _ Hok) as Hch. rewrite snd_mid in Hch. apply chain_mid in Hch. apply chain_mid. unfold valid, fin in *. by rewrite S1, S2.
  - done.
  - intros b f Hb. rewrite elem_of_app, elem_of_cons in Hb. destruct Hb as [Hb|[[= -> ->]|Hb]]; [apply C; set_solver| |apply C; set_solver].
    destruct (C a e ltac:(set_solver)) as [c1 c2 c3 c4]. split; [by rewrite Et|intros Hp; rewrite Ep in Hp; rewrite S3 by done; by apply c2|by rewrite Ep, Et|by rewrite Et].
  - intros h Hh. destruct (D h Hh) as (r & E1 & E2 & Hvr & E3). destruct (decide (h = a)) as [->|Hne].
    + exists e'. cbn. rewrite lookup_insert_eq. rewrite Ea in E1. injection E1 as <-. split; [done|]. split; [by rewrite Ep|]. split; [unfold valid, fin in *; by rewrite S1, S2|]. left. rewrite fst_mid. set_solver.
    + exists r. cbn. rewrite lookup_insert_ne by done. split; [done|]. split; [done|]. split; [done|]. rewrite fst_mid in *. done.
  - intros w Hw'. cbn. rewrite lookup_insert_ne; [by apply E|]. intros <-. by apply (Hwa a).
  - intros h r Hh Hr. destruct (decide (h = a)) as [->|Hne].
    + exists e'. cbn. rewrite lookup_insert_eq. rewrite Ea in Hr. injection Hr as <-. done.
    + exists r. cbn. by rewrite lookup_insert_ne by done.
  - intros w Hw'. cbn. apply lookup_insert_ne. intros <-. by apply (Hwa a).
  - done.
  - intros [b k] (f & Hb & Hf). cbn in *. rewrite elem_of_app, elem_of_cons in Hb. destruct Hb as [Hb|[[= -> ->]|Hb]].
    + exists f. set_solver.
    + exists e'. split; [cbn; set_solver|]. cbn. destruct k; auto.
    + exists f. set_solver.
Qed.

Lemma set_rl_id zp a e : z_rl zp !! a = Some e -> set_rl zp a e = zp.
Proof. intros E. unfold set_rl. rewrite insert_id by done. by destruct zp. Qed.

(** The flag of the entry is set, and the thread waits there. *)
Lemma wait_reader_ok zp l1 a e l2 H W R : range_ok zp (l1 ++ (a, e) :: l2) H W -> blocks e -> cover (l1 ++ (a, e) :: l2).*2 R ->
  exists zp' es', wait_reader zp a = Some (zp', Some (a, false)) /\ range_ok zp' es' H W /\ frame zp zp' H W /\ keeps (l1 ++ (a, e) :: l2) es' /\ wanted es' (a, false) /\ cover es'.*2 R.
Proof using HL.
  intros Hok Hb Hc. destruct (hd_cons_nz _ _ _ _ l1 a e l2 Hok eq_refl) as (_ & Ea & _). unfold wait_reader. rewrite Ea. cbn [mbind option_bind].
  destruct (update_ok zp l1 a e (with_wanted e (r_write_wanted e) true) l2 H W Hok) as (Hok' & F & K); [done..| |]; [intros Ht _; destruct Hb; [congruence|done]|].
  exists (set_rl zp a (with_wanted e (r_write_wanted e) true)), (l1 ++ (a, with_wanted e (r_write_wanted e) true) :: l2). split.
  - destruct (r_read_wanted e) eqn:Er; [|done]. cbn [negb]. do 2 f_equal. symmetry. apply set_rl_id. rewrite Ea. f_equal. rewrite <-Er. by destruct e.
  - split; [done|]. split; [done|]. split; [done|]. split; [exists (with_wanted e (r_write_wanted e) true); split; [cbn; set_solver|done]|].
    rewrite snd_mid in *. eapply cover_same; [|exact Hc]. done.
Qed.

Lemma wait_writer_ok zp l1 a e l2 H W R : range_ok zp (l1 ++ (a, e) :: l2) H W -> cover (l1 ++ (a, e) :: l2).*2 R ->
  exists zp' es', wait_writer zp a = Some (zp', Some (a, true)) /\ range_ok zp' es' H W /\ frame zp zp' H W /\ keeps (l1 ++ (a, e) :: l2) es' /\ wanted es' (a, true) /\ cover es'.*2 R.
Proof using HL.
  intros Hok Hc. destruct (hd_cons_nz _ _ _ _ l1 a e l2 Hok eq_refl) as (_ & Ea & _). unfold wait_writer. rewrite Ea. cbn [mbind option_bind].
  destruct (update_ok zp l1 a e (with_wanted e true (r_read_wanted e)) l2 H W Hok) as (Hok' & F & K); [done..|].
  exists (set_rl zp a (with_wanted e true (r_read_wanted e))), (l1 ++ (a, with_wanted e true (r_read_wanted e)) :: l2). split.
  - destruct (r_write_wanted e) eqn:Er; [|done]. cbn [negb]. do 2 f_equal. symmetry. apply set_rl_id. rewrite Ea. f_equal. rewrite <-Er. by destruct e.
  - split; [done|]. split; [done|]. split; [done|]. split; [exists (with_wanted e true (r_read_wanted e)); split; [cbn; set_solver|done]|].
    rewrite snd_mid in *. eapply cover_same; [|exact Hc]. done.
Qed.

(** ** The lock is granted *)

(** [n] is the request [new], of range and type as granted. *)
Record granted zp zp' es es' H W (new : Z) (n : rl) (R : list (Z * Z)) : Prop := {
  gr_ok : range_ok zp' es' (new :: H) W;
  gr_frame : frame zp zp' H W;
  gr_keeps : keeps es es';
  gr_cover : cover es'.*2 ((r_off n, fin n) :: R);
  gr_new : exists r, z_rl zp' !! new = Some r /\ r_off r = r_off n /\ r_len r = r_len n /\ r_type r = r_type n
}.

(** Enough memory for the entries a lock may need. *)
Definition roomy es H W : Prop := (2 * length es + length H + length W + 4 < cap)%nat.

(** No entry in the range is a writer's, or wanted by one. *)
Definition open_to es (n : rl) : Prop := forall a e, (a, e) ∈ es -> overlaps e n -> r_type e = RL_READER /\ r_write_wanted e = false.

(** From the first entry in the range on. *)
Lemma add_from zp l1 a e l2 H W new n R : range_ok zp (l1 ++ (a, e) :: l2) H (new :: W) -> z_rl zp !! new = Some n -> request n -> r_type n = RL_READER ->
  cover (l1 ++ (a, e) :: l2).*2 ((r_off n, r_off e) :: R) -> r_off n <= r_off e < fin n ->
  (forall b f, (b, f) ∈ (a, e) :: l2 -> r_off f < fin n -> r_type f = RL_READER /\ r_write_wanted f = false) ->
  Z.of_nat (length R) + 1 < 2 ^ 32 - 1 -> (length (l1 ++ (a, e) :: l2) + length H + length W + 1 + length ((a, e) :: l2) + 1 < cap)%nat ->
  exists zp' es', (let* n := z_rl zp !! new in add_reader_loop (range_fuel zp) (set_rl zp new (with_cnt n 0)) (r_off n) (r_len n) 0 a) = Some zp' /\
    granted zp zp' (l1 ++ (a, e) :: l2) es' H W new n R.
Proof using HL.
  intros Hok En Hn Ht Hc Hoff Hpl HR Hroom. rewrite En. cbn [mbind option_bind]. destruct (set_wait_ok _ _ _ _ _ (with_cnt n 0) Hok) as [Hok1 F1].
  pose proof (rq_valid _ Hn) as (V1 & V2 & V3). unfold fin in *. unfold range_fuel. rewrite (holds_num _ _ _ (ro_holds _ _ _ _ Hok)), Nat2Z.id.
  destruct (add_reader_loop_spec H (new :: W) R (r_off n) (r_len n) V1 V3 HR (S (length (l1 ++ (a, e) :: l2))) (set_rl zp new (with_cnt n 0)) l1 ((a, e) :: l2) 0 (r_off e) Hok1 Hc Hoff)
    as (zp' & es' & E & Hok' & F' & K' & Hc').
  { left. split; [done|]. eauto. } { exact Hpl. } { rewrite length_app. lia. } { cbn [length] in *. lia. }
  cbn [hd fmap list_fmap fst] in E. exists zp', es'. split; [done|].
  pose proof (fr_w _ _ _ _ F' new ltac:(by left)) as Enew. cbn in Enew. rewrite lookup_insert_eq in Enew.
  split; [|..|done|].
  - eapply promote_ok; [exact Hok'|exact Enew|apply Hn|done|done|apply Hn|apply Hn|apply Hn].
  - eapply frame_trans; [exact F1|]. destruct F' as [A B C]. split; [done| |done]. intros w Hw. apply B. by right.
  - done.
  - exists (with_cnt n 0). done.
Qed.

(** The request goes where no entry is. *)
Lemma add_apart zp l1 l2 H W new n n' R w : range_ok zp (l1 ++ l2) H (new :: W) -> z_rl zp !! new = Some n' -> request n' -> r_type n' <> RL_APPEND ->
  n' = n -> cover (l1 ++ l2).*2 R -> oh_hole (z_range_avl zp) l1.*1 l2.*1 w ->
  (forall x, x ∈ l1.*2 -> fin x <= r_off n) -> (forall x, x ∈ l2.*2 -> fin n <= r_off x) ->
  exists zp' es', range_insert zp new w = Some zp' /\ granted zp zp' (l1 ++ l2) es' H W new n R.
Proof using HL.
  intros Hok En Hn Ht -> Hc Hw H1 H2. pose proof (cover_insert l1 l2 new n R Hc (rq_valid _ Hn) (rq_cnt _ Hn) H1 H2) as Hc'.
  pose proof (wait_out _ _ _ _ new Hok ltac:(by left)) as Hout.
  destruct (range_insert_spec zp l1 l2 _ new n w (ro_holds _ _ _ _ Hok)) as (zp' & E & Hh & Erl & F); [apply elem_outs; split; [right; by left|done]|done|done|by rewrite <-(snd_mid _ new); apply Hc'|].
  rewrite <-(insert_id (z_rl zp) new n) in Erl by done.
  destruct (insert_ok zp zp' l1 l2 H W new n Hok Hn Ht Hh Erl) as [Hok' K]. eexists _, _. split; [done|]. split; [exact Hok'| |done|done|].
  - eapply insert_frame; [apply Hok|done|done].
  - exists n. rewrite Erl. by rewrite lookup_insert_eq.
Qed.

Lemma add_reader_at zp l1 a e l2 H W new n R w : range_ok zp (l1 ++ (a, e) :: l2) H (new :: W) -> z_rl zp !! new = Some n -> request n -> r_type n = RL_READER ->
  cover (l1 ++ (a, e) :: l2).*2 R -> r_off e = r_off n -> open_to (l1 ++ (a, e) :: l2) n -> Z.of_nat (length R) + 1 < 2 ^ 32 - 1 -> roomy (l1 ++ (a, e) :: l2) H (new :: W) ->
  exists zp' es', zfs_range_add_reader zp new a w = Some zp' /\ granted zp zp' (l1 ++ (a, e) :: l2) es' H W new n R.
Proof using HL.
  intros Hok En Hn Ht Hc Eo Hopen HR Hroom. unfold zfs_range_add_reader. rewrite En. cbn [mbind option_bind].
  destruct (hd_cons_nz _ _ _ _ l1 a e l2 Hok eq_refl) as (Hz & Ea & Hv). pose proof (rq_valid _ Hn) as (V1 & V2 & V3). pose proof Hv as (_ & Hl & _).
  rewrite (proj2 (Z.eqb_neq _ _) Hz), Ea. cbn [mbind option_bind]. rewrite (r_end_valid _ Hv), (proj2 (Z.leb_gt _ _)) by (unfold fin; lia).
  rewrite Eo, Z.eqb_refl. cbn [negb mbind option_bind]. rewrite (proj2 (Z.eqb_neq _ _) Hz), Ea. cbn [negb mbind option_bind]. rewrite Eo, Z.eqb_refl.
  rewrite (proj2 (Z.eqb_neq _ _) Hz), Ea. cbn [negb mbind option_bind]. unfold fin in V3. rewrite u64_small by (unfold is_u64; lia). rewrite Eo, (proj2 (Z.leb_gt _ _)) by lia.
  rewrite Z.ltb_irrefl. cbn [mbind option_bind].
  pose proof (ok_chain _ _ _ _ Hok) as Hch. rewrite snd_mid in Hch. apply chain_mid in Hch as (_ & _ & _ & Hl2).
  destruct (add_from zp l1 a e l2 H W new n R Hok En Hn Ht) as (zp' & es' & E & Hg); [rewrite Eo; by apply cover_empty|unfold fin; lia| |done| |].
  - intros b f Hb Hf. apply (Hopen b f); [set_solver|]. split; [done|]. apply elem_of_cons in Hb as [[= -> ->]|Hb]; [unfold fin; lia|].
    specialize (Hl2 f (snd_in _ _ _ Hb)). destruct (holds_objects _ _ _ (ro_holds _ _ _ _ Hok)) as [_ Ho]. destruct (Ho b f ltac:(set_solver)) as (_ & _ & _ & _ & ? & _). unfold fin in *. lia.
  - unfold roomy in Hroom. rewrite length_app in *. cbn [length] in *. lia.
  - rewrite En in E. cbn [mbind option_bind] in E. rewrite En. cbn [mbind option_bind]. eauto.
Qed.

(** The entries before end before the range. *)
Lemma add_reader_clear zp l1 l2 H W new n R w prev : range_ok zp (l1 ++ l2) H (new :: W) -> z_rl zp !! new = Some n -> request n -> r_type n = RL_READER ->
  cover (l1 ++ l2).*2 R -> oh_hole (z_range_avl zp) l1.*1 l2.*1 w -> (forall x, x ∈ l1.*2 -> fin x <= r_off n) -> (forall x, x ∈ l2.*2 -> r_off n < r_off x) ->
  open_to (l1 ++ l2) n -> Z.of_nat (length R) + 1 < 2 ^ 32 - 1 -> roomy (l1 ++ l2) H (new :: W) ->
  prev = 0 \/ (exists p l1', l1 = l1' ++ [(prev, p)]) ->
  exists zp' es', zfs_range_add_reader zp new prev w = Some zp' /\ granted zp zp' (l1 ++ l2) es' H W new n R.
Proof using HL.
  intros Hok En Hn Ht Hc Hw Hl1 Hl2 Hopen HR Hroom Hprev. unfold zfs_range_add_reader. rewrite En. cbn [mbind option_bind].
  pose proof (rq_valid _ Hn) as (V1 & V2 & V3). unfold fin in V3.
  replace (if prev =? 0 then Some (zp, 0) else _) with (Some (zp, 0)).
  2:{ destruct Hprev as [->|(p & l1' & ->)]; [done|]. destruct (hd_cons_nz _ _ _ _ l1' prev p l2 Hok) as (Hz & Ea & Hv); [by rewrite <-app_assoc|].
      rewrite (proj2 (Z.eqb_neq _ _) Hz), Ea. cbn [mbind option_bind]. rewrite (r_end_valid _ Hv), (proj2 (Z.leb_le _ _)); [done|]. apply Hl1. rewrite fmap_app. set_solver. }
  cbn [mbind option_bind Z.eqb negb]. rewrite (proj1 (oh_nearest _ _ _ _ Hw)). cbn [mbind option_bind]. rewrite u64_small by (unfold is_u64; lia).
  destruct l2 as [|[a e] l2].
  { cbn [hd fmap list_fmap Z.eqb mbind option_bind]. eapply add_apart; try done. by rewrite Ht. intros x Hx. by apply elem_of_nil in Hx. }
  cbn [hd fmap list_fmap fst]. destruct (hd_cons_nz _ _ _ _ l1 a e l2 Hok eq_refl) as (Hz & Ea & Hv). rewrite (proj2 (Z.eqb_neq _ _) Hz), Ea. cbn [mbind option_bind].
  pose proof (ok_chain _ _ _ _ Hok) as Hch. rewrite snd_mid in Hch. pose proof (proj1 (chain_mid _ _ _) Hch) as (_ & _ & _ & Hnx). pose proof Hv as (_ & Hle & _).
  destruct (Z.leb_spec (r_off n + r_len n) (r_off e)) as [Hpast|Hover].
  { eapply add_apart; try done; [by rewrite Ht|]. intros x Hx. cbn [fmap list_fmap snd] in Hx. apply elem_of_cons in Hx as [->|Hx]; [done|]. specialize (Hnx x Hx). unfold fin in *. lia. }
  pose proof (Hl2 e ltac:(cbn; set_solver)) as Hgt. rewrite (proj2 (Z.ltb_lt _ _)) by done.
  unfold roomy in Hroom. rewrite length_app in Hroom. cbn [length] in Hroom.
  destruct (grow_gap_ok zp l1 ((a, e) :: l2) H (new :: W) R (r_off n) (r_off n) (r_off e) Hok) as (zp1 & q & -> & Hok1 & F1 & K1 & Hc1); [rewrite length_app; cbn [length]; lia|by apply cover_empty|lia|done| |done| |].
  { destruct Hv as (_ & _ & ?). unfold fin in *. lia. }
  { intros x Hx. cbn [fmap list_fmap snd] in Hx. apply elem_of_cons in Hx as [->|Hx]; [lia|]. specialize (Hnx x Hx). unfold fin in *. lia. }
  cbn [mbind option_bind]. set (g := proxy_rl (r_off n) (r_off e - r_off n) 1) in *. pose proof (fr_w _ _ _ _ F1 new ltac:(by left)) as Enew. rewrite En in Enew.
  destruct (add_from zp1 (l1 ++ [(q, g)]) a e l2 H W new n R) as (zp' & es' & E & Hg); rewrite <-?app_assoc; try done; cbn [app].
  - unfold fin. lia.
  - intros b f Hb Hf. apply (Hopen b f); [set_solver|]. split; [done|]. apply elem_of_cons in Hb as [[= -> ->]|Hb]; [unfold fin; lia|].
    specialize (Hnx f (snd_in _ _ _ Hb)). destruct (holds_objects _ _ _ (ro_holds _ _ _ _ Hok)) as [_ Ho]. destruct (Ho b f ltac:(set_solver)) as (_ & _ & _ & _ & ? & _). unfold fin in *. lia.
  - rewrite !length_app. cbn [length]. lia.
  - rewrite Enew in E |- *. cbn [mbind option_bind] in *. exists zp', es'. split; [done|]. rewrite <-app_assoc in Hg. destruct Hg as [G1 G2 G3 G4 G5]. split; [done| | |done|done].
    + eapply frame_trans; [|exact G2]. destruct F1 as [A B C]. split; [done| |done]. intros x Hx. apply B. by right.
    + eapply keeps_trans; [exact K1|exact G3].
Qed.

Lemma add_reader_split zp l1 b p l2 H W new n R w : range_ok zp ((l1 ++ [(b, p)]) ++ l2) H (new :: W) -> z_rl zp !! new = Some n -> request n -> r_type n = RL_READER ->
  cover ((l1 ++ [(b, p)]) ++ l2).*2 R -> r_off p < r_off n < fin p ->
  open_to ((l1 ++ [(b, p)]) ++ l2) n -> Z.of_nat (length R) + 1 < 2 ^ 32 - 1 -> roomy ((l1 ++ [(b, p)]) ++ l2) H (new :: W) ->
  exists zp' es', zfs_range_add_reader zp new b w = Some zp' /\ granted zp zp' ((l1 ++ [(b, p)]) ++ l2) es' H W new n R.
Proof using HL.
  rewrite <-app_assoc. cbn [app]. intros Hok En Hn Ht Hc Hp Hopen HR Hroom. unfold zfs_range_add_reader. rewrite En. cbn [mbind option_bind].
  pose proof (rq_valid _ Hn) as (V1 & V2 & V3). unfold fin in V3. destruct (hd_cons_nz _ _ _ _ l1 b p l2 Hok eq_refl) as (Hz & Ea & Hv).
  rewrite (proj2 (Z.eqb_neq _ _) Hz), Ea. cbn [mbind option_bind]. rewrite (r_end_valid _ Hv), (proj2 (Z.leb_gt _ _)) by lia.
  rewrite (proj2 (Z.eqb_neq (r_off p) _)) by lia. cbn [negb]. destruct (Hopen b p) as [Htp Hwp]; [set_solver|split; unfold fin in *; lia|].
  pose proof (plain_ent _ _ _ _ (ro_ent _ _ _ _ Hok b p ltac:(set_solver)) Htp Hwp) as Hpl. unfold roomy in Hroom. rewrite length_app in Hroom. cbn [length] in Hroom.
  destruct (split_ok zp l1 b p l2 H (new :: W) (r_off n) Hok) as (zp1 & front & rear & f & g & -> & Hok1 & F1 & K1 & Pf & G1 & G2 & G3 & Pg & G4 & Hcov); [rewrite length_app; cbn [length]; lia|done|done|].
  cbn [mbind option_bind]. rewrite (holds_next _ l1 _ _ _ _ (ro_holds _ _ _ _ Hok1)). cbn [mbind option_bind hd fmap list_fmap fst].
  destruct (hd_cons_nz _ _ _ _ (l1 ++ [(front, f)]) rear g l2 Hok1) as (Hzr & Er & Hvg); [by rewrite <-app_assoc|].
  pose proof (fr_w _ _ _ _ F1 new ltac:(by left)) as Enew. rewrite En in Enew.
  rewrite (proj2 (Z.eqb_neq _ _) Hzr), Er. cbn [mbind option_bind negb]. rewrite G1, Z.eqb_refl, (proj2 (Z.eqb_neq _ _) Hzr), Er. cbn [mbind option_bind]. rewrite u64_small by (unfold is_u64; lia).
  rewrite G1, (proj2 (Z.leb_gt _ _)) by lia. cbn [mbind option_bind]. rewrite Z.ltb_irrefl. cbn [mbind option_bind].
  pose proof (ok_chain _ _ _ _ Hok) as Hch. rewrite snd_mid in Hch. pose proof (proj1 (chain_mid _ _ _) Hch) as (_ & _ & _ & Hnx).
  rewrite snd_mid in Hc. apply Hcov in Hc. destruct (add_from zp1 (l1 ++ [(front, f)]) rear g l2 H W new n R) as (zp' & es' & E & Hg); rewrite <-?app_assoc; try done; cbn [app].
  - rewrite G1. apply cover_empty. rewrite snd_mid. done.
  - unfold fin. lia.
  - intros c x Hx Hf. apply elem_of_cons in Hx as [[= -> ->]|Hx]; [by destruct Pg as (_ & ? & ? & _)|]. apply (Hopen c x); [set_solver|]. split; [done|].
    specialize (Hnx x (snd_in _ _ _ Hx)). destruct (holds_objects _ _ _ (ro_holds _ _ _ _ Hok)) as [_ Ho]. destruct (Ho c x ltac:(set_solver)) as (_ & _ & _ & _ & ? & _). unfold fin in *. lia.
  - rewrite !length_app. cbn [length]. lia.
  - rewrite Enew in E |- *. cbn [mbind option_bind] in *. exists zp', es'. split; [done|]. rewrite <-app_assoc in Hg. destruct Hg as [Q1 Q2 Q3 Q4 Q5]. split; [done| | |done|done].
    + eapply frame_trans; [|exact Q2]. destruct F1 as [A B C]. split; [done| |done]. intros x Hx. apply B. by right.
    + eapply keeps_trans; [exact K1|exact Q3].
Qed.

(** ** The search for writers *)

Lemma is_writer_spec t : is_writer t = true <-> t = RL_WRITER.
Proof. unfold is_writer. by rewrite bool_decide_eq_true. Qed.
Lemma is_reader_spec t : is_reader t = true <-> t = RL_READER.
Proof. unfold is_reader. by rewrite bool_decide_eq_true. Qed.

(** An entry blocks a reader, or is a reader's that nobody wants to write. *)
Lemma blocks_dec H W a e : ent_ok H W a e ->
  (is_writer (r_type e) || r_write_wanted e = true /\ blocks e) \/ (is_writer (r_type e) || r_write_wanted e = false /\ r_type e = RL_READER /\ r_write_wanted e = false).
Proof.
  intros [Hna _ _ _]. unfold blocks. rewrite <-is_writer_spec. destruct (is_writer (r_type e)) eqn:Et; [left; auto|]. destruct (r_write_wanted e); [left; auto|right].
  split; [done|]. split; [|done]. destruct (r_type e); done.
Qed.

Lemma reader_search_spec zp H W n : valid n -> forall l2 l1 k, range_ok zp (l1 ++ l2) H W -> (length l2 < k)%nat ->
  (reader_search k zp (r_off n) (r_len n) (hd 0 l2.*1) = Some None /\ forall a e, (a, e) ∈ l2 -> r_off e < fin n -> r_type e = RL_READER /\ r_write_wanted e = false) \/
  (exists a e, (a, e) ∈ l2 /\ r_off e < fin n /\ blocks e /\ reader_search k zp (r_off n) (r_len n) (hd 0 l2.*1) = Some (Some a)).
Proof using HL.
  intros (V1 & V2 & V3). unfold fin in *. induction l2 as [|[a e] l2 IH]; intros l1 [|k] Hok Hk; cbn [length] in *; [lia| |lia|].
  { left. split; [done|]. intros a e Hin. by apply elem_of_nil in Hin. }
  cbn [reader_search hd fmap list_fmap fst]. destruct (hd_cons_nz _ _ _ _ l1 a e l2 Hok eq_refl) as (Hz & Ea & Hv). rewrite (proj2 (Z.eqb_neq _ _) Hz), Ea. cbn [mbind option_bind].
  rewrite u64_small by (unfold is_u64; lia). rewrite (r_end_valid _ Hv). pose proof (ok_chain _ _ _ _ Hok) as Hch. rewrite snd_mid in Hch.
  pose proof (proj1 (chain_mid _ _ _) Hch) as ((_ & Hle & _) & _ & _ & Hnx).
  destruct (Z.leb_spec (r_off n + r_len n) (r_off e)) as [Hpast|Hover].
  { left. split; [done|]. intros b f Hb Hf. apply elem_of_cons in Hb as [[= -> ->]|Hb]; [lia|]. specialize (Hnx f (snd_in _ _ _ Hb)). unfold fin in *. lia. }
  destruct (blocks_dec _ _ _ _ (ro_ent _ _ _ _ Hok a e ltac:(set_solver))) as [[-> Hb]|[-> Hb]]; [right; exists a, e; split; [by left|done]|].
  destruct (Z.leb_spec (r_off n + r_len n) (fin e)) as [Hend|Hon].
  { left. split; [done|]. intros b f Hb' Hf. apply elem_of_cons in Hb' as [[= -> ->]|Hb']; [done|]. specialize (Hnx f (snd_in _ _ _ Hb')). unfold fin in *. lia. }
  rewrite (holds_next _ _ _ _ _ _ (ro_holds _ _ _ _ Hok)). cbn [mbind option_bind].
  destruct (IH (l1 ++ [(a, e)]) k) as [[E Hall]|(b & f & Hb' & Hf & Hbl & E)]; [by rewrite <-app_assoc|lia|left|right].
  - split; [done|]. intros b f Hb' Hf. apply elem_of_cons in Hb' as [[= -> ->]|Hb']; [done|by apply (Hall b f)].
  - exists b, f. split; [by right|]. done.
Qed.

(** What a round of the search finds, in terms of all entries. *)
Definition search_result es (n : rl) (r : option Z) : Prop :=
  match r with
  | None => open_to es n
  | Some a => exists e, (a, e) ∈ es /\ overlaps e n /\ blocks e
  end.

(** From the entry [prev] on, which is the last to begin before the range, or
    begins with it; those before end before. *)
Lemma search_from zp l1 a e l2 H W n : range_ok zp (l1 ++ (a, e) :: l2) H W -> valid n -> r_off e <= r_off n -> (forall x, x ∈ l2.*2 -> r_off n < r_off x) ->
  exists r, (let* first := reader_prev zp (r_off n) (r_len n) a in
    match first with Some b => Some b | None => let* next := AVL_NEXT zp a in reader_search (range_fuel zp) zp (r_off n) (r_len n) next end) = Some r /\
    search_result (l1 ++ (a, e) :: l2) n r.
Proof using HL.
  intros Hok Hv Hle Hl2. destruct (hd_cons_nz _ _ _ _ l1 a e l2 Hok eq_refl) as (Hz & Ea & Hve). pose proof Hv as (V1 & V2 & V3).
  pose proof (ok_chain _ _ _ _ Hok) as Hch. rewrite snd_mid in Hch. pose proof (proj1 (chain_mid _ _ _) Hch) as ((_ & Hlen & _) & _ & Hpre & Hnx).
  assert (forall b f, (b, f) ∈ l1 -> ~ overlaps f n) as Hl1. { intros b f Hb [_ Ho]. specialize (Hpre f (snd_in _ _ _ Hb)). lia. }
  unfold reader_prev. rewrite (proj2 (Z.eqb_neq _ _) Hz), Ea. cbn [mbind option_bind]. rewrite (r_end_valid _ Hve). unfold fin in V3. rewrite u64_small by (unfold is_u64; lia).
  assert (forall r, (r_type e = RL_READER /\ r_write_wanted e = false \/ fin e <= r_off n) -> (let* next := AVL_NEXT zp a in reader_search (range_fuel zp) zp (r_off n) (r_len n) next) = Some r ->
    search_result (l1 ++ (a, e) :: l2) n r) as Hrest.
  { intros r He. rewrite (holds_next _ _ _ _ _ _ (ro_holds _ _ _ _ Hok)). cbn [mbind option_bind].
    destruct (reader_search_spec zp H W n Hv l2 (l1 ++ [(a, e)]) (range_fuel zp)) as [[E Hall]|(b & f & Hb & Hf & Hbl & E)]; [by rewrite <-app_assoc| |..].
    { unfold range_fuel. rewrite (holds_num _ _ _ (ro_holds _ _ _ _ Hok)), Nat2Z.id, length_app. cbn [length]. lia. }
    - rewrite E. intros [= <-]. intros b f Hb Ho. rewrite elem_of_app, elem_of_cons in Hb. destruct Hb as [Hb|[[= -> ->]|Hb]]; [by destruct (Hl1 b f Hb)| |].
      + destruct He as [?|He]; [done|]. destruct Ho as [_ Ho]. lia.
      + apply (Hall b f Hb). apply Ho.
    - rewrite E. intros [= <-]. exists f. split; [set_solver|]. split; [|done]. split; [done|]. specialize (Hl2 f (snd_in _ _ _ Hb)).
      destruct (holds_objects _ _ _ (ro_holds _ _ _ _ Hok)) as [_ Ho]. destruct (Ho b f ltac:(set_solver)) as (_ & _ & _ & _ & ? & _). unfold fin in *. lia. }
  assert (exists r, (let* next := AVL_NEXT zp a in reader_search (range_fuel zp) zp (r_off n) (r_len n) next) = Some r) as [r Er].
  { rewrite (holds_next _ _ _ _ _ _ (ro_holds _ _ _ _ Hok)). cbn [mbind option_bind].
    destruct (reader_search_spec zp H W n Hv l2 (l1 ++ [(a, e)]) (range_fuel zp)) as [[E _]|(b & f & _ & _ & _ & E)]; [by rewrite <-app_assoc| |eauto..].
    unfold range_fuel. rewrite (holds_num _ _ _ (ro_holds _ _ _ _ Hok)), Nat2Z.id, length_app. cbn [length]. lia. }
  destruct (Z.ltb_spec (r_off n) (fin e)) as [Hin|Hout]; cbn [mbind option_bind].
  - destruct (blocks_dec _ _ _ _ (ro_ent _ _ _ _ Hok a e ltac:(set_solver))) as [[-> Hb]|[-> Hb]].
    { exists (Some a). split; [done|]. exists e. split; [set_solver|]. split; [|done]. split; [unfold fin; lia|done]. }
    destruct (Z.ltb_spec (r_off n + r_len n) (fin e)) as [Hend|Hon]; cbn [mbind option_bind].
    + exists None. split; [done|]. intros b f Hb' Ho. rewrite elem_of_app, elem_of_cons in Hb'. destruct Hb' as [Hb'|[[= -> ->]|Hb']]; [by destruct (Hl1 b f Hb')|done|].
      specialize (Hnx f (snd_in _ _ _ Hb')). destruct Ho as [Ho _]. unfold fin in *. lia.
    + exists r. split; [done|]. apply Hrest; [by left|done].
  - exists r. split; [done|]. apply Hrest; [by right|done].
Qed.

(** The round waits. *)
Record waits zp zp' es es' H W (cv : kcondvar) (R : list (Z * Z)) : Prop := {
  wt_ok : range_ok zp' es' H W;
  wt_frame : frame zp zp' H W;
  wt_keeps : keeps es es';
  wt_cover : cover es'.*2 R;
  wt_wanted : wanted es' cv
}.

Lemma lock_reader_spec zp es H W new n R : range_ok zp es H (new :: W) -> z_rl zp !! new = Some n -> request n -> r_type n = RL_READER -> cover es.*2 R ->
  Z.of_nat (length R) + 1 < 2 ^ 32 - 1 -> roomy es H (new :: W) ->
  (exists zp' es', zfs_range_lock_reader zp new = Some (zp', None) /\ granted zp zp' es es' H W new n R /\ open_to es n) \/
  (exists zp' es' a e, zfs_range_lock_reader zp new = Some (zp', Some (a, false)) /\ waits zp zp' es es' H (new :: W) (a, false) R /\ (a, e) ∈ es /\ overlaps e n /\ blocks e).
Proof using HL.
  intros Hok En Hn Ht Hc HR Hroom. unfold zfs_range_lock_reader. rewrite En. cbn [mbind option_bind]. pose proof (rq_valid _ Hn) as Hv.
  assert (forall a e, (a, e) ∈ es -> overlaps e n -> blocks e -> exists zp' es', wait_reader zp a = Some (zp', Some (a, false)) /\ waits zp zp' es es' H (new :: W) (a, false) R) as Hwait.
  { intros a e Hin _ Hb. apply list_elem_of_split in Hin as (k1 & k2 & ->).
    destruct (wait_reader_ok zp k1 a e k2 H (new :: W) R Hok Hb Hc) as (zp' & es' & E & A & B & C & D & F). exists zp', es'. split; [done|]. by split. }
  assert (forall r add, search_result es n r -> (open_to es n -> exists zp' es', add = Some zp' /\ granted zp zp' es es' H W new n R) ->
    (exists zp' es', match r with Some a => wait_reader zp a | None => let* zp := add in Some (zp, None) end = Some (zp', None) /\ granted zp zp' es es' H W new n R /\ open_to es n) \/
    (exists zp' es' a e, match r with Some a => wait_reader zp a | None => let* zp := add in Some (zp, None) end = Some (zp', Some (a, false)) /\
       waits zp zp' es es' H (new :: W) (a, false) R /\ (a, e) ∈ es /\ overlaps e n /\ blocks e)) as Hdone.
  { intros [a|] add Hr Hadd; cbn in Hr.
    - destruct Hr as (e & Hin & Ho & Hb). destruct (Hwait a e Hin Ho Hb) as (zp' & es' & E & Hw). right. exists zp', es', a, e. done.
    - destruct (Hadd Hr) as (zp' & es' & -> & Hg). left. exists zp', es'. done. }
  destruct (range_find_spec _ _ _ n (ro_holds _ _ _ _ Hok)) as [(l1 & a & e & l2 & w & -> & Eo & Hz & ->)|(l1 & l2 & w & -> & Hl1 & Hl2 & -> & Hw)]; cbn [mbind option_bind].
  - rewrite (proj2 (Z.eqb_neq _ _) Hz). cbn [mbind option_bind]. rewrite (proj2 (Z.eqb_neq _ _) Hz). cbn [negb].
    destruct (search_from zp l1 a e l2 H (new :: W) n Hok Hv ltac:(lia)) as (r & E & Hr).
    { intros x Hx. pose proof (ok_chain _ _ _ _ Hok) as Hch. rewrite snd_mid in Hch. apply chain_mid in Hch as ((_ & ? & _) & _ & _ & Hnx). specialize (Hnx x Hx). unfold fin in *. lia. }
    destruct (reader_prev _ _ _ _) as [first|]; [|done]. cbn [mbind option_bind] in *. rewrite E. cbn [mbind option_bind]. apply Hdone; [done|]. intros Hopen. by apply add_reader_at.
  - cbn [Z.eqb]. rewrite (proj2 (oh_nearest _ _ _ _ Hw)). cbn [mbind option_bind].
    destruct l1 as [|[b p] l1 _] using rev_ind.
    + cbn [app hd rev fmap list_fmap]. unfold reader_prev. cbn [Z.eqb mbind option_bind negb]. rewrite (proj1 (oh_nearest _ _ _ _ Hw)). cbn [mbind option_bind].
      destruct (reader_search_spec zp H (new :: W) n Hv l2 [] (range_fuel zp) Hok) as [[E Hall]|(a & e & Hin & Hf & Hb & E)].
      { unfold range_fuel. rewrite (holds_num _ _ _ (ro_holds _ _ _ _ Hok)), Nat2Z.id. cbn [app]. lia. }
      * rewrite E. cbn [mbind option_bind]. apply (Hdone None); [intros b f Hb [Ho _]; by apply (Hall b f)|]. intros Hopen. eapply (add_reader_clear zp []); try done; [|by left].
        intros x Hx. by apply elem_of_nil in Hx.
      * rewrite E. cbn [mbind option_bind]. apply (Hdone (Some a) None); [|intros Hopen; exfalso].
        -- exists e. split; [done|]. split; [|done]. split; [done|]. specialize (Hl2 e (snd_in _ _ _ Hin)). destruct (holds_objects _ _ _ (ro_holds _ _ _ _ Hok)) as [_ Ho].
           destruct (Ho a e Hin) as (_ & _ & _ & _ & ? & _). unfold fin in *. lia.
        -- destruct (Hopen a e Hin) as [A B]; [|destruct Hb as [Hb|Hb]; congruence]. split; [done|]. specialize (Hl2 e (snd_in _ _ _ Hin)). destruct (holds_objects _ _ _ (ro_holds _ _ _ _ Hok)) as [_ Ho].
           destruct (Ho a e Hin) as (_ & _ & _ & _ & ? & _). unfold fin in *. lia.
    + rewrite fmap_app, rev_app_distr. cbn [fmap list_fmap fst rev app hd].
      assert (range_ok zp (l1 ++ (b, p) :: l2) H (new :: W)) as Hok1 by (by rewrite <-app_assoc in Hok).
      destruct (hd_cons_nz _ _ _ _ l1 b p l2 Hok1 eq_refl) as (Hz & Eb & Hvp). rewrite (proj2 (Z.eqb_neq _ _) Hz). cbn [negb].
      assert (r_off p < r_off n) as Hlt by (apply Hl1; rewrite fmap_app; set_solver).
      destruct (search_from zp l1 b p l2 H (new :: W) n Hok1 Hv ltac:(lia) Hl2) as (r & E & Hr). destruct (reader_prev _ _ _ _) as [first|]; [|done].
      cbn [mbind option_bind] in *. rewrite E. cbn [mbind option_bind]. apply Hdone; [by rewrite <-app_assoc|]. intros Hopen.
      destruct (Z.le_gt_cases (fin p) (r_off n)) as [Hle|Hgt].
      * eapply add_reader_clear; try done; [|right; eauto]. intros x Hx. rewrite fmap_app in Hx. apply elem_of_app in Hx as [Hx|Hx%list_elem_of_singleton]; [|by subst x].
        pose proof (ok_chain _ _ _ _ Hok1) as Hch. rewrite snd_mid in Hch. apply chain_mid in Hch as (_ & _ & Hpre & _). specialize (Hpre x Hx). lia.
      * by apply add_reader_split.
Qed.
End reader.
