(* ===== verification/RlockOps.v ===== *)
(** * Range locks: the operations

    Rounds of writers, whole calls of [zfs_range_lock], and [zfs_range_unlock]
    and [zfs_range_reduce]. *)
From Stdlib Require Import ZArith Lia.
From stdpp Require Import base numbers list option gmap.
From S2P Require Import Prelude AvlSpec AvlHeap Rlock RlockCover RlockTree RlockProof RlockReader.

Section ops.
Context {T : Type} `{HI : AvlIface T} {cap : nat} {HL : AvlHeapLaws T cap}.
Implicit Types (zp : znode T) (es : list (Z * rl)) (H W : list Z).
#[local] Notation range_ok := (range_ok (cap := cap)).
#[local] Notation granted := (granted (cap := cap)).
#[local] Notation waits := (waits (cap := cap)).
#[local] Notation roomy := (roomy (cap := cap)).

Lemma frame_weaken zp zp' H W new : frame zp zp' H (new :: W) -> frame zp zp' H W.
Proof. intros [A B C]. split; [done| |done]. intros w Hw. apply B. by right. Qed.

Lemma granted_from zp zp1 zp' es es' H W new n R : frame zp zp1 H W -> granted zp1 zp' es es' H W new n R -> granted zp zp' es es' H W new n R.
Proof. intros F [A B C D E]. split; [done|by eapply frame_trans|done..]. Qed.

(** A request that waits: what a new round starts with. *)
Definition pending (t : rl_type) (n : rl) : Prop := r_type n = t /\ r_cnt n = 1 /\ r_proxy n = false /\ r_write_wanted n = false /\ r_read_wanted n = false.

(** The outcome of a round for the request [new] of type [t]: the lock, of the
    range of [n], or the condition variable to wait on. *)
Definition outcome zp zp' es es' H W (new : Z) (t : rl_type) (n : rl) (R : list (Z * Z)) (cv : option kcondvar) : Prop :=
  match cv with
  | None => granted zp zp' es es' H W new n R
  | Some c => range_ok zp' es' H (new :: W) /\ frame zp zp' H W /\ keeps es es' /\ cover es'.*2 R /\ wanted es' c /\
      exists n', z_rl zp' !! new = Some n' /\ pending t n' /\ (t = RL_READER -> n' = n)
  end.

(** ** Writers *)

(** [off] and [len] of a request. *)
Definition range_valid (off len : Z) : Prop := 0 <= off /\ 0 < len /\ off + len < 2 ^ 64.
(** An append begins at the end of the file. *)
Definition append_valid zp (t : rl_type) (len : Z) : Prop := z_vnode zp = true -> t = RL_APPEND -> range_valid (zp_size zp) len.

Lemma writer_range_ok zp n0 off len : pending (r_type n0) n0 -> range_valid off len -> append_valid zp (r_type n0) len ->
  let n := writer_range zp (with_off n0 off len) len in valid n /\ pending (r_type n0) n.
Proof.
  intros (P1 & P2 & P3 & P4 & P5) Hr Ha n. unfold append_valid, range_valid in *. unfold valid, fin.
  assert (0 < UINT64_MAX < 2 ^ 64) as Hm by (unfold UINT64_MAX; lia). subst n. unfold writer_range. destruct (z_vnode zp); [|by split].
  destruct (bool_decide_reflect (r_type (with_off n0 off len) = RL_APPEND)) as [Ht|_]; cbn [with_off r_off r_len r_type] in *; case_match; cbn; (split; [try lia|done]).
  apply Ha; done.
Qed.

Lemma fin_type n t : fin (with_type n t) = fin n.
Proof. done. Qed.

(** The entry after the range, and the one before. *)
Lemma after_test zp l1 l2 H W m : range_ok zp (l1 ++ l2) H W -> valid m -> (forall x, x ∈ l2.*2 -> r_off m < r_off x) ->
  exists b, (if hd 0 l2.*1 =? 0 then Some false else let* e := z_rl zp !! hd 0 l2.*1 in Some (r_off e <? r_end m)) = Some b /\
    if b then exists e, (hd 0 l2.*1, e) ∈ l2 /\ overlaps e m else forall x, x ∈ l2.*2 -> fin m <= r_off x.
Proof using HL.
  intros Hok Hv Hl2. destruct l2 as [|[b f] l2]; [exists false; split; [done|]; intros x Hx; by apply elem_of_nil in Hx|].
  cbn [hd fmap list_fmap fst snd]. destruct (hd_cons_nz _ _ _ _ l1 b f l2 Hok eq_refl) as (Hbz & Eb & Hvf). rewrite (proj2 (Z.eqb_neq _ _) Hbz), Eb. cbn [mbind option_bind].
  rewrite (r_end_valid _ Hv). eexists. split; [done|]. destruct Hvf as (_ & Hlf & _). destruct (Z.ltb_spec (r_off f) (fin m)) as [Hlt|Hge].
  - exists f. split; [by left|]. split; [done|]. specialize (Hl2 f ltac:(cbn; set_solver)). unfold fin in *. lia.
  - pose proof (ok_chain _ _ _ _ Hok) as Hch. rewrite snd_mid in Hch. apply chain_mid in Hch as (_ & _ & _ & Hnx).
    intros x [->|Hx]%elem_of_cons; [done|]. specialize (Hnx x Hx). unfold fin in *. lia.
Qed.

Lemma before_test zp l1 l2 H W m : range_ok zp (l1 ++ l2) H W -> valid m -> (forall x, x ∈ l1.*2 -> r_off x < r_off m) ->
  exists b, (if hd 0 (rev l1.*1) =? 0 then Some false else let* e := z_rl zp !! hd 0 (rev l1.*1) in Some (r_off m <? r_end e)) = Some b /\
    if b then exists e, (hd 0 (rev l1.*1), e) ∈ l1 /\ overlaps e m else forall x, x ∈ l1.*2 -> fin x <= r_off m.
Proof using HL.
  intros Hok (_ & Hlm & _) Hl1. destruct l1 as [|[b f] l1 _] using rev_ind; [exists false; split; [done|]; intros x Hx; by apply elem_of_nil in Hx|].
  rewrite fmap_app, rev_app_distr. cbn [hd fmap list_fmap fst snd rev app].
  destruct (hd_cons_nz _ _ _ _ l1 b f l2 Hok) as (Hbz & Eb & Hvf); [by rewrite <-app_assoc|]. rewrite (proj2 (Z.eqb_neq _ _) Hbz), Eb. cbn [mbind option_bind].
  rewrite (r_end_valid _ Hvf). eexists. split; [done|]. destruct (Z.ltb_spec (r_off m) (fin f)) as [Hlt|Hge].
  - exists f. split; [set_solver|]. split; [|done]. specialize (Hl1 f ltac:(rewrite fmap_app; set_solver)). unfold fin in *. lia.
  - pose proof (ok_chain _ _ _ _ Hok) as Hch. rewrite <-app_assoc in Hch. cbn [app] in Hch. rewrite snd_mid in Hch. apply chain_mid in Hch as ((_ & Hlf & _) & _ & Hpre & _).
    rewrite fmap_app. intros x [Hx|Hx%list_elem_of_singleton]%elem_of_app; [specialize (Hpre x Hx); unfold fin in *; lia|by subst x].
Qed.

Lemma lock_writer_spec zp es H W new n0 off len R : range_ok zp es H (new :: W) -> z_rl zp !! new = Some n0 -> pending (r_type n0) n0 -> r_type n0 <> RL_READER ->
  range_valid off len -> append_valid zp (r_type n0) len -> cover es.*2 R ->
  let n := with_type (writer_range zp (with_off n0 off len) len) RL_WRITER in
  exists zp' es' cv, zfs_range_lock_writer zp new off len = Some (zp', cv) /\ outcome zp zp' es es' H W new (r_type n0) n R cv /\
    match cv with None => forall a e, (a, e) ∈ es -> ~ overlaps e n | Some c => c.2 = true /\ exists e, (c.1, e) ∈ es /\ overlaps e n end.
Proof using HL.
  intros Hok En Hp Htn Hr Ha Hc n. unfold zfs_range_lock_writer. rewrite En. cbn [mbind option_bind].
  destruct (writer_range_ok zp n0 off len Hp Hr Ha) as [Hv Hpn]. set (m := writer_range zp (with_off n0 off len) len) in *. cbv zeta.
  assert (request n) as Hn by (destruct Hpn as (P1 & P2 & P3 & P4 & P5); by split).
  destruct (set_wait_ok _ _ _ _ _ m Hok) as [Hok1 F1]. set (zp1 := set_rl zp new m) in *.
  destruct (set_wait_ok _ _ _ _ _ n Hok1) as [Hok2 F2]. pose proof (frame_trans _ _ _ _ _ F1 F2) as F12.
  assert (z_rl (set_rl zp1 new n) !! new = Some n) as Enew by (cbn; apply lookup_insert_eq).
  assert (forall a e, (a, e) ∈ es -> overlaps e n -> exists zp' es' cv, wait_writer zp1 a = Some (zp', cv) /\ outcome zp zp' es es' H W new (r_type n0) n R cv /\
    match cv with None => forall a e, (a, e) ∈ es -> ~ overlaps e n | Some c => c.2 = true /\ exists e, (c.1, e) ∈ es /\ overlaps e n end) as Hwait.
  { intros a e Hin Ho. pose proof Hin as (l1 & l2 & ->)%list_elem_of_split.
    destruct (wait_writer_ok zp1 l1 a e l2 H (new :: W) R Hok1 Hc) as (zp' & es' & -> & A & B & C & D & E). exists zp', es', (Some (a, true)). split; [done|].
    split; [|split; [done|]; by exists e]. split; [done|]. split; [eapply frame_trans; [exact F1|]; by eapply frame_weaken|]. split; [done|]. split; [done|]. split; [done|].
    exists m. split; [|split; [done|]]. { rewrite (fr_w _ _ _ _ B new) by (by left). cbn. apply lookup_insert_eq. } intros ?. by destruct Htn. }
  change (with_type m RL_WRITER) with n. change (z_range_avl zp1) with (z_range_avl zp) in *. rewrite (holds_num _ _ _ (ro_holds _ _ _ _ Hok)). destruct (Z.eqb_spec (Z.of_nat (length es)) 0) as [Hz|Hnz].
  { destruct es; [|cbn in Hz; lia].
    destruct (range_find_spec _ _ _ n (ro_holds _ _ _ _ Hok2)) as [(l1 & ? & ? & ? & ? & E & _)|(l1 & l2 & w & E & _ & _ & Ef & Hw)]; [by destruct l1|].
    destruct l1, l2; try done. unfold range_add. rewrite Enew. cbn [mbind option_bind]. rewrite Ef. cbn [mbind option_bind Z.eqb].
    destruct (add_apart (set_rl zp1 new n) [] [] H W new n n R w) as (zp' & es' & -> & Hg); try done; [intros x Hx; by apply elem_of_nil in Hx..|].
    exists zp', es', None. split; [done|]. split; [by eapply granted_from|]. intros a e Hin. by apply elem_of_nil in Hin. }
  destruct (range_find_spec _ _ _ m (ro_holds _ _ _ _ Hok1)) as [(l1 & a & e & l2 & w & -> & Eo & Haz & ->)|(l1 & l2 & w & -> & Hl1 & Hl2 & -> & Hw)]; cbn [mbind option_bind].
  { rewrite (proj2 (Z.eqb_neq _ _) Haz). cbn [negb]. apply (Hwait a e); [set_solver|]. destruct (hd_cons_nz _ _ _ _ l1 a e l2 Hok1 eq_refl) as (_ & _ & _ & ? & _). destruct Hv as (_ & ? & _).
    unfold overlaps. change (fin n) with (fin m). change (r_off n) with (r_off m). unfold fin. lia. }
  cbn [Z.eqb negb]. destruct (oh_nearest _ _ _ _ Hw) as [N1 N2]. change (z_range_avl zp1) with (z_range_avl zp) in *. rewrite N1. cbn [mbind option_bind].
  destruct (after_test zp1 l1 l2 H (new :: W) m Hok1 Hv Hl2) as (b & -> & Hb). cbn [mbind option_bind]. destruct b.
  { destruct Hb as (e & Hin & Ho). apply (Hwait _ e); [set_solver|done]. }
  rewrite N2. cbn [mbind option_bind]. destruct (before_test zp1 l1 l2 H (new :: W) m Hok1 Hv Hl1) as (b' & -> & Hb'). cbn [mbind option_bind]. destruct b'.
  { destruct Hb' as (e & Hin & Ho). apply (Hwait _ e); [set_solver|done]. }
  destruct (add_apart (set_rl zp1 new n) l1 l2 H W new n n R w) as (zp' & es' & -> & Hg); try done.
  exists zp', es', None. split; [done|]. split; [by eapply granted_from|]. intros a e [Hin|Hin]%elem_of_app [O1 O2]; change (fin n) with (fin m) in *; change (r_off n) with (r_off m) in *.
  - specialize (Hb' e (snd_in _ _ _ Hin)). lia.
  - specialize (Hb e (snd_in _ _ _ Hin)). lia.
Qed.

(** ** Rounds *)

(** What a round for a request of type [t] does: of the reader's search, or of
    the writer's. *)
Definition round zp (new : Z) (t : rl_type) (off len : Z) : option (znode T * option kcondvar) :=
  if is_reader t then zfs_range_lock_reader zp new else zfs_range_lock_writer zp new off len.

(** The lock the request [n0] asks for: all writers lock as [RL_WRITER], an
    append from the end of the file, and the whole file when its blocks grow. *)
Definition asked zp (t : rl_type) (n0 : rl) (off len : Z) : rl :=
  if is_reader t then n0 else with_type (writer_range zp (with_off n0 off len) len) RL_WRITER.

(** When the lock is granted, and for whom the request waits otherwise. *)
Definition admitted es (t : rl_type) (n : rl) (cv : option kcondvar) : Prop :=
  match cv with
  | None => forall a e, (a, e) ∈ es -> overlaps e n -> is_reader t = true /\ r_type e = RL_READER /\ r_write_wanted e = false
  | Some c => c.2 = negb (is_reader t) /\ exists e, (c.1, e) ∈ es /\ overlaps e n /\ (is_reader t = true -> blocks e)
  end.

Lemma round_spec zp es H W new n0 t off len R : range_ok zp es H (new :: W) -> z_rl zp !! new = Some n0 -> pending t n0 ->
  (t = RL_READER -> r_off n0 = off /\ r_len n0 = len) -> range_valid off len -> append_valid zp t len -> cover es.*2 R ->
  Z.of_nat (length R) + 1 < 2 ^ 32 - 1 -> roomy es H (new :: W) ->
  exists zp' es' cv, round zp new t off len = Some (zp', cv) /\ outcome zp zp' es es' H W new t (asked zp t n0 off len) R cv /\ admitted es t (asked zp t n0 off len) cv.
Proof using HL.
  intros Hok En Hp Hrd Hr Ha Hc HR Hroom. unfold round, asked. destruct (is_reader t) eqn:Et.
  - apply is_reader_spec in Et as ->. destruct (Hrd eq_refl) as [<- <-]. assert (request n0) as Hn by (destruct Hp as (_ & ? & ? & ? & ?); by split).
    destruct (lock_reader_spec zp es H W new n0 R Hok En Hn (proj1 Hp) Hc HR Hroom) as [(zp' & es' & E & Hg & Ho)|(zp' & es' & a & e & E & [W1 W2 W3 W4 W5] & Hin & Hov & Hb)].
    + exists zp', es', None. split; [done|]. split; [done|]. intros a e Hin Hov. split; [done|]. by apply (Ho a e).
    + exists zp', es', (Some (a, false)). split; [done|]. split; [|split; [done|]; exists e; done]. split; [done|]. split; [by eapply frame_weaken|]. split; [done|]. split; [done|].
      split; [done|]. exists n0. rewrite (fr_w _ _ _ _ W2 new) by (by left). done.
  - destruct Hp as [Ht Hp]. subst t. destruct (lock_writer_spec zp es H W new n0 off len R Hok En) as (zp' & es' & cv & E & Ho & Hadm); [done|by intros Q; rewrite Q in Et|done|done|done|].
    exists zp', es', cv. split; [done|]. split; [done|]. destruct cv as [c|]; cbn in *; rewrite Et; [|intros a e Hin Hov; by destruct (Hadm a e Hin)].
    destruct Hadm as (Ec & e & Hin & Hov). split; [done|]. by exists e.
Qed.

(** ** [zfs_range_lock] *)

Lemma alloc_ok zp es H W n : range_ok zp es H W -> (length es + length H + length W < cap)%nat ->
  exists new zp', new_rl zp n = (new, zp') /\ range_ok zp' es H (new :: W) /\ frame zp zp' H W /\ z_rl zp' !! new = Some n /\ new <> 0.
Proof using HL.
  intros Hok Hroom. pose proof (outs_size es _ _ (ro_nodup _ _ _ _ Hok)) as Hs.
  destruct (new_rl_spec zp es _ n (ro_holds _ _ _ _ Hok) ltac:(lia)) as (new & zp' & E & Hh & P1 & P2 & P3 & Erl & F). destruct (fresh_out _ _ _ _ P1 P2) as [PH PW].
  pose proof Hok as [A B C D G]. exists new, zp'. split; [done|].
  assert (forall b, b ∈ H \/ b ∈ W -> z_rl zp' !! b = z_rl zp !! b) as Hsame by (intros b Hb; rewrite Erl; apply lookup_insert_ne; intros <-; tauto).
  assert (outs es H (new :: W) = {[new]} ∪ outs es H W) as Eo.
  { apply set_eq. intros b. rewrite elem_of_union, elem_of_singleton, !elem_outs, elem_of_cons. split; [tauto|]. intros [->|?]; tauto. }
  split; [|split; [|split; [rewrite Erl; apply lookup_insert_eq|done]]].
  - split; [by rewrite Eo| | | |].
    + rewrite <-Permutation_middle. apply NoDup_cons. split; [set_solver|done].
    + intros a e Hae. destruct (C a e Hae) as [c1 c2 c3 c4]. split; [done|done| |done]. intros Hp. destruct (c3 Hp) as (c5 & c6 & c7). split; [done|]. split; [|done].
      rewrite elem_of_cons. intros [->|?]; [|done]. by apply P1, (fst_in _ e).
    + intros h Hh'. destruct (D h Hh') as (r & E1 & E2). exists r. by rewrite Hsame by auto.
    + intros w [->|Hw]%elem_of_cons; [rewrite Erl, lookup_insert_eq; eauto|]. rewrite Hsame by auto. by apply G.
  - split; [|intros w Hw; by rewrite Hsame by auto|done]. intros h r Hh' Hr. exists r. by rewrite Hsame by auto.
Qed.

Lemma writer_range_same zp zp' n len : same_file zp zp' -> writer_range zp' n len = writer_range zp n len.
Proof. intros (E1 & E2 & E3 & E4). unfold writer_range. by rewrite E1, E2, E3, E4. Qed.

Lemma asked_same zp zp' t n off len : same_file zp zp' -> asked zp' t n off len = asked zp t n off len.
Proof. intros F. unfold asked. by rewrite (writer_range_same _ _ _ _ F). Qed.

Lemma outcome_from zp zp1 zp' es es' H W new t n R cv : frame zp zp1 H W -> outcome zp1 zp' es es' H W new t n R cv -> outcome zp zp' es es' H W new t n R cv.
Proof.
  intros F. destruct cv as [c|]; cbn; [|by apply granted_from]. intros (A & B & C). split; [done|]. split; [by eapply frame_trans|done].
Qed.

Lemma range_lock_spec zp es H W t off len R : range_ok zp es H W -> range_valid off len -> append_valid zp t len -> cover es.*2 R ->
  Z.of_nat (length R) + 1 < 2 ^ 32 - 1 -> roomy es H (0 :: W) -> let n := asked zp t (mk_rl off len 1 t false false false) off len in
  exists zp' new es' cv, zfs_range_lock zp off len t = Some (zp', new, cv) /\ outcome zp zp' es es' H W new t n R cv /\ admitted es t n cv /\ new <> 0.
Proof using HL.
  intros Hok Hr Ha Hc HR Hroom n. unfold zfs_range_lock. unfold RlockReader.roomy in Hroom. cbn [length] in Hroom.
  destruct (alloc_ok zp es H W (mk_rl off len 1 t false false false) Hok ltac:(lia)) as (new & zp1 & -> & Hok1 & F1 & En & Hz).
  set (n0 := mk_rl off len 1 t false false false) in *.
  destruct (round_spec zp1 es H W new n0 t off len R Hok1 En) as (zp' & es' & cv & E & Ho & Hadm); [done|done|done| |done|done|unfold RlockReader.roomy; cbn [length]; lia|].
  { unfold append_valid in *. destruct (fr_file _ _ _ _ F1) as (-> & -> & _). done. }
  rewrite (asked_same _ _ _ _ _ _ (fr_file _ _ _ _ F1)) in Ho, Hadm. fold n in Ho, Hadm.
  unfold round in E. destruct (is_reader t) eqn:Et.
  2:{ rewrite E. cbn [mbind option_bind]. exists zp', new, es', cv. split; [done|]. split; [by eapply outcome_from|done]. }
  rewrite (holds_num _ _ _ (ro_holds _ _ _ _ Hok1)). destruct (Z.eqb_spec (Z.of_nat (length es)) 0) as [Hl|_].
  2:{ rewrite E. cbn [mbind option_bind]. exists zp', new, es', cv. split; [done|]. split; [by eapply outcome_from|done]. }
  destruct es; [|cbn in Hl; lia]. clear E Ho Hadm zp' es' cv. apply is_reader_spec in Et as ->.
  assert (request n0) as Hn by (unfold range_valid in Hr; split; unfold valid, fin; done).
  destruct (range_find_spec _ _ _ n0 (ro_holds _ _ _ _ Hok1)) as [(l1 & ? & ? & ? & ? & E & _)|(l1 & l2 & w & E & _ & _ & Ef & Hw)]; [by destruct l1|].
  destruct l1, l2; try done. unfold range_add. rewrite En. cbn [mbind option_bind]. rewrite Ef. cbn [mbind option_bind Z.eqb].
  destruct (add_apart zp1 [] [] H W new n0 n0 R w) as (zp' & es' & -> & Hg); try done; [intros x Hx; by apply elem_of_nil in Hx..|].
  cbn [mbind option_bind]. exists zp', new, es', None. split; [done|]. split; [by eapply granted_from|]. split; [|done]. intros a e Hin. by apply elem_of_nil in Hin.
Qed.
End ops.
