(* ===== verification/RlockUnlock.v ===== *)
(** * Range locks: unlocking *)
From Stdlib Require Import ZArith Lia.
From stdpp Require Import base numbers list option gmap.
From S2P Require Import Prelude AvlSpec AvlHeap Rlock RlockCover RlockTree RlockProof RlockReader RlockOps.

Section unlock.
Context {T : Type} `{HI : AvlIface T} {cap : nat} {HL : AvlHeapLaws T cap}.
Implicit Types (zp : znode T) (es : list (Z * rl)) (H W : list Z).
#[local] Notation range_ok := (range_ok (cap := cap)).

(** Those who wait for an entry that goes are woken. *)
Definition drops es es' (bs : list kcondvar) : Prop := forall cv, wanted es cv -> wanted es' cv \/ cv ∈ bs.

Lemma drops_keeps es es1 es2 bs : keeps es es1 -> drops es1 es2 bs -> drops es es2 bs.
Proof. intros K D cv Hw. auto. Qed.

Lemma drops_app es es1 es2 bs bs' : drops es es1 bs -> drops es1 es2 bs' -> drops es es2 (bs ++ bs').
Proof. intros D1 D2 cv Hw. rewrite elem_of_app. destruct (D1 cv Hw) as [Hw1|]; [|auto]. destruct (D2 cv Hw1); auto. Qed.

Lemma drops_entry (l1 : list (Z * rl)) a e l2 : drops (l1 ++ (a, e) :: l2) (l1 ++ l2) (broadcasts a e).
Proof.
  intros [b k] (f & Hin & Hf). cbn in *. rewrite elem_of_app, elem_of_cons in Hin. destruct Hin as [Hin|[[= -> ->]|Hin]].
  - left. exists f. set_solver.
  - right. unfold broadcasts. destruct k; rewrite Hf; set_solver.
  - left. exists f. set_solver.
Qed.

(** ** Entries and requests go *)

Lemma remove_ok zp l1 a e l2 H H' W : range_ok zp (l1 ++ (a, e) :: l2) H W -> (forall b, b ∈ H' <-> b ∈ H /\ b <> a) -> NoDup (H' ++ W) ->
  exists zp1, range_remove zp a = Some zp1 /\ range_ok (free_rl zp1 a) (l1 ++ l2) H' W /\ frame zp (free_rl zp1 a) H' W.
Proof using HL.
  intros Hok HH Hnd'. pose proof (wait_out _ _ _ _ a Hok) as Hwo. pose proof Hok as [A B C D E]. pose proof (proj1 (holds_objects _ _ _ A)) as Hnd. rewrite fst_mid in Hnd.
  assert (a ∉ l1.*1 ++ l2.*1) as Hal by (rewrite <-Permutation_middle in Hnd; by apply NoDup_cons in Hnd as [? _]).
  assert (a ∉ W) as HaW by (intros Hw; apply (Hwo Hw); rewrite fst_mid; set_solver).
  destruct (range_remove_spec _ _ _ _ _ _ A) as (zp1 & -> & Hh & Erl & F).
  destruct (free_rl_spec zp1 (l1 ++ l2) _ a Hh) as (Hh' & Erl' & F'); [set_solver|by rewrite fmap_app|]. exists zp1. split; [done|].
  assert (({[a]} ∪ outs (l1 ++ (a, e) :: l2) H W) ∖ {[a]} = outs (l1 ++ l2) H' W) as Eo.
  { apply set_eq. intros b. rewrite elem_of_difference, elem_of_union, elem_of_singleton, !elem_outs, HH, fst_mid, fmap_app, !elem_of_app, elem_of_cons.
    rewrite elem_of_app in Hal. split; [|intros [[[? ?]|?] ?]; [tauto|]]; [tauto|]. destruct (decide (b = a)) as [->|]; [done|tauto]. }
  rewrite Eo in Hh'. assert (forall b, b <> a -> z_rl (free_rl zp1 a) !! b = z_rl zp !! b) as Hsame by (intros b Hb; rewrite Erl', lookup_delete_ne, Erl; done).
  split; [split; [done|done|..]|split; [..|by eapply same_file_trans]].
  - intros b f Hb. assert (b <> a) as Hne by (intros ->; apply Hal; apply fst_in in Hb; by rewrite fmap_app in Hb). destruct (C b f ltac:(set_solver)) as [c1 c2 c3 c4].
    split; [done| | |done].
    + intros Hp. destruct (c2 Hp). split; [by apply HH|done].
    + intros Hp. destruct (c3 Hp) as (? & ? & ?). rewrite HH. tauto.
  - intros h [Hh1 Hh2]%HH. destruct (D h Hh1) as (r & E1 & E2 & E3 & E4). exists r. rewrite Hsame by done. split; [done|]. split; [done|]. split; [done|].
    destruct E4 as [Hin|?]; [left|by right]. rewrite fst_mid in Hin. rewrite fmap_app. set_solver.
  - intros w Hw. rewrite Hsame by (by intros ->). by apply E.
  - intros h r [Hh1 Hh2]%HH Hr. exists r. by rewrite Hsame by done.
  - intros w Hw. apply Hsame. by intros ->.
Qed.

Lemma free_wait_ok zp es H W h : range_ok zp es H (h :: W) -> range_ok (free_rl zp h) es H W /\ frame zp (free_rl zp h) H W.
Proof using HL.
  intros Hok. pose proof (wait_out _ _ _ _ h Hok ltac:(by left)) as Hout. pose proof Hok as [A B C D E].
  pose proof B as (N1 & N2 & [N3 N4]%NoDup_cons)%NoDup_app. destruct (free_rl_spec zp es _ h A) as (Hh & Erl & F); [apply elem_outs; split; [right; by left|done]|done|].
  assert (forall b, b ∈ H \/ b ∈ W -> b <> h) as Hne by (intros b [Hb|Hb] ->; [apply (N2 _ Hb); by left|done]).
  assert (forall b, b ∈ H \/ b ∈ W -> z_rl (free_rl zp h) !! b = z_rl zp !! b) as Hsame by (intros b Hb; rewrite Erl; apply lookup_delete_ne; intros <-; by apply (Hne h)).
  assert (outs es H (h :: W) ∖ {[h]} = outs es H W) as Eo.
  { apply set_eq. intros b. rewrite elem_of_difference, elem_of_singleton, !elem_outs, elem_of_cons. specialize (Hne b). tauto. }
  rewrite Eo in Hh. split; [split; [done| | | |]|split; [| |done]].
  - rewrite <-Permutation_middle in B. by apply NoDup_cons in B as [_ ?].
  - intros a e Hae. destruct (C a e Hae) as [c1 c2 c3 c4]. split; [done|done| |done]. intros Hp. destruct (c3 Hp) as (? & ? & ?). set_solver.
  - intros b Hb. destruct (D b Hb) as (r & E1 & E2). exists r. by rewrite Hsame by auto.
  - intros w Hw. rewrite Hsame by auto. apply E. by right.
  - intros b r Hb Hr. exists r. by rewrite Hsame by auto.
  - intros w Hw. apply Hsame. auto.
Qed.

(** A handle that is no entry, as the lock goes. *)
Lemma demote_ok zp es H W h : range_ok zp es (h :: H) W -> h ∉ es.*1 -> range_ok zp es H (h :: W).
Proof.
  intros [A B C D E] Hout. assert (outs es H (h :: W) = outs es (h :: H) W) as Eo by (apply set_eq; intros b; rewrite !elem_outs, !elem_of_cons; tauto).
  split; [by rewrite Eo|by rewrite <-Permutation_middle|..].
  - intros a e Hae. destruct (C a e Hae) as [c1 c2 c3 c4]. split; [done| | |done].
    + intros Hp. destruct (c2 Hp) as [Ha ?]. split; [|done]. apply elem_of_cons in Ha as [->|?]; [|done]. destruct Hout. by eapply fst_in.
    + intros Hp. destruct (c3 Hp) as (c5 & c6 & c7). rewrite elem_of_cons in *. tauto.
  - intros b Hb. apply D. by right.
  - intros w [->|Hw]%elem_of_cons; [|by apply E]. destruct (D h ltac:(by left)) as (r & Hr & _). eauto.
Qed.

(** ** Readers *)

(** A lock is counted where it is. *)
Lemma own_counted zp H h r o : h ∈ H -> z_rl zp !! h = Some r -> r_off r <= o < fin r -> 0 < nlocks (hrange zp <$> H) o.
Proof.
  intros Hh Hr Ho. apply (nlocks_pos _ _ (r_off r, fin r)); [|done]. replace (r_off r, fin r) with (hrange zp h) by (unfold hrange; by rewrite Hr). by apply list_elem_of_fmap_2.
Qed.

(** The entries of a range that is held by proxies are proxies: another lock
    would be counted. *)
Lemma tile_proxy zp l1 a e l2 H W hi : range_ok zp (l1 ++ (a, e) :: l2) H W -> cover (l1.*2 ++ e :: l2.*2) ((r_off e, hi) :: (hrange zp <$> H)) -> fin e <= hi ->
  r_proxy e = true /\ r_type e = RL_READER /\ 0 < r_cnt e <= Z.of_nat (length H) + 1.
Proof using HL.
  intros Hok Hc Hhi. destruct (hd_cons_nz _ _ _ _ l1 a e l2 Hok eq_refl) as (_ & Ea & Hv). destruct Hv as (_ & Hlen & _).
  destruct (ro_ent _ _ _ _ Hok a e ltac:(set_solver)) as [_ Hown Hprx _]. destruct (co_cnt _ _ Hc e ltac:(set_solver)) as [Cn Cp].
  pose proof (nlocks_bound ((r_off e, hi) :: (hrange zp <$> H)) (r_off e)) as Hb. cbn [length] in Hb. rewrite length_fmap in Hb.
  destruct (r_proxy e) eqn:Ep; [destruct (Hprx eq_refl) as (_ & _ & ?); split; [done|]; split; [done|lia]|]. exfalso. destruct (Hown eq_refl) as [Ha H1].
  rewrite nlocks_cons in Cn. cbn [fst snd] in Cn. rewrite decide_True in Cn by (unfold fin in *; lia).
  pose proof (own_counted zp H a e (r_off e) Ha Ea ltac:(unfold fin; lia)). lia.
Qed.

Lemma unlock_loop_spec H W : Z.of_nat (length H) + 1 < 2 ^ 32 -> forall k zp l1 l2 a lo hi bs, range_ok zp (l1 ++ l2) H W -> 0 <= lo <= hi -> hi < 2 ^ 64 ->
  cover (l1 ++ l2).*2 ((lo, hi) :: (hrange zp <$> H)) -> (lo < hi -> exists e l2', l2 = (a, e) :: l2' /\ r_off e = lo) -> (length l2 <= k)%nat ->
  exists zp' es' bs', unlock_reader_loop k zp a (hi - lo) bs = Some (zp', bs ++ bs') /\ range_ok zp' es' H W /\ frame zp zp' H W /\ cover es'.*2 (hrange zp' <$> H) /\
    drops (l1 ++ l2) es' bs'.
Proof using HL.
  intros HH k. induction k as [|k IH]; intros zp l1 l2 a lo hi bs Hok Hlo H64 Hc Hfirst Hk.
  { assert (lo = hi) as ->. { destruct (Z.eq_dec lo hi); [done|]. destruct (Hfirst ltac:(lia)) as (? & ? & -> & _). cbn in Hk. lia. }
    cbn [unlock_reader_loop]. rewrite Z.sub_diag. cbn [Z.eqb]. exists zp, (l1 ++ l2), []. rewrite app_nil_r. split; [done|]. split; [done|]. split; [apply frame_refl|].
    split; [by apply (cover_empty _ _ hi)|]. intros cv Hw. by left. }
  cbn [unlock_reader_loop]. destruct (Z.eqb_spec (hi - lo) 0) as [Hz|Hnz].
  { assert (lo = hi) as -> by lia. exists zp, (l1 ++ l2), []. rewrite app_nil_r. split; [done|]. split; [done|]. split; [apply frame_refl|].
    split; [by apply (cover_empty _ _ hi)|]. intros cv Hw. by left. }
  destruct (Hfirst ltac:(lia)) as (e & l2' & -> & Eo). subst lo. rewrite snd_mid in Hc. destruct (hd_cons_nz _ _ _ _ l1 a e l2' Hok eq_refl) as (Hz & Ea & Hv).
  assert (fin e <= hi) as Hhi. { destruct (co_tiled _ _ Hc (r_off e, hi) ltac:(by left)) as [T1 _]. cbn in T1. destruct Hv as (_ & ? & _). apply (T1 e); unfold fin in *; [set_solver|lia..]. }
  destruct (tile_proxy _ _ _ _ _ _ _ _ Hok Hc Hhi) as (Hp & Ht & Hcnt). rewrite Ea. cbn [mbind option_bind]. pose proof Hv as (V1 & V2 & V3).
  rewrite u64_small by (unfold is_u64, fin in *; lia). replace (hi - r_off e - r_len e) with (hi - fin e) by (unfold fin; lia). rewrite (r_end_valid _ Hv).
  set (next := if negb (hi - fin e =? 0) then _ else Some 0).
  assert (exists b, next = Some b /\ (fin e < hi -> exists f l3, l2' = (b, f) :: l3 /\ r_off f = fin e)) as (b & -> & Hb).
  { unfold next. destruct (Z.eqb_spec (hi - fin e) 0); [exists 0; split; [done|]; lia|]. cbn [negb]. rewrite (holds_next _ _ _ _ _ _ (ro_holds _ _ _ _ Hok)). cbn [mbind option_bind].
    destruct (co_tiled _ _ Hc (r_off e, hi) ltac:(by left)) as [T1 T2]. cbn [fst snd] in *. destruct (T2 (fin e)) as (f & Hf & Hin); [unfold fin in *; lia|].
    assert (r_off f = fin e) as Ef.
    { destruct (chain_split _ _ _ _ (co_chain _ _ Hc) Hf) as [[_ ?]|[->|[_ ?]]]; unfold fin in *; lia. }
    destruct (chain_next _ _ _ _ (co_chain _ _ Hc) Hf Ef) as (l3 & El). destruct l2' as [|[b f'] l2']; [done|]. cbn [fmap list_fmap snd] in El. injection El as -> _.
    cbn [hd fmap list_fmap fst]. destruct (hd_cons_nz _ _ _ _ (l1 ++ [(a, e)]) b f l2' Hok) as (Hbz & Eb & _); [by rewrite <-app_assoc|].
    rewrite (proj2 (Z.eqb_neq _ _) Hbz), Eb. cbn [negb mbind option_bind]. rewrite Ef, Z.eqb_refl. destruct (co_cnt _ _ Hc f Hf) as [Cn Cp].
    assert (r_type f = RL_READER) as Tf.
    { destruct (ro_ent _ _ _ _ Hok b f ltac:(set_solver)) as [_ Hown Hprx _]. destruct (r_proxy f) eqn:Epf; [by destruct (Hprx eq_refl) as (_ & _ & ?)|]. exfalso.
      destruct (Hown eq_refl) as [Hbin H1]. rewrite nlocks_cons in Cn. cbn [fst snd] in Cn. rewrite decide_True in Cn by (unfold fin in *; lia).
      pose proof (own_counted zp H b f (r_off f) Hbin Eb ltac:(unfold fin in *; lia)). lia. }
    rewrite (proj2 (Z.eqb_neq _ _)) by lia. cbn [negb]. rewrite (proj2 (is_reader_spec _) Tf). exists b. split; [done|]. intros _. by exists f, l2'. }
  cbn [mbind option_bind]. unfold u32. rewrite Z.mod_small by lia.
  destruct (update_ok zp l1 a e (with_cnt e (r_cnt e - 1)) l2' H W Hok) as (Hok1 & F1 & K1); try done; [by rewrite Hp|apply (ro_ent _ _ _ _ Hok a e); set_solver|].
  set (e' := with_cnt e (r_cnt e - 1)) in *. cbn [r_cnt e' with_cnt]. destruct (Z.eqb_spec (r_cnt e - 1) 0) as [H1|Hn1].
  - destruct (remove_ok (set_rl zp a e') l1 a e' l2' H H W Hok1) as (zp1 & -> & Hok2 & F2).
    { intros x. split; [|tauto]. intros Hx. split; [done|]. intros ->. destruct (ro_ent _ _ _ _ Hok a e ltac:(set_solver)) as [_ _ Hprx _]. by destruct (Hprx Hp) as (? & _). }
    { apply Hok. }
    cbn [mbind option_bind]. pose proof (cover_delete _ _ _ _ _ Hc Hhi ltac:(lia)) as Hc2. pose proof (frame_trans _ _ _ _ _ F1 F2) as F12.
    rewrite <-(hranges_frame _ _ _ _ F12) in Hc2 by (intros h Hh; by eapply handle_some).
    destruct (IH (free_rl zp1 a) l1 l2' b (fin e) hi (bs ++ broadcasts a e')) as (zp' & es' & bs' & E & Hok' & F' & Hc' & D'); [done|unfold fin in *; lia|done|by rewrite fmap_app|done|cbn in Hk; lia|].
    exists zp', es', (broadcasts a e' ++ bs'). rewrite app_assoc. split; [done|]. split; [done|]. split; [by eapply frame_trans|]. split; [done|].
    eapply drops_keeps; [exact K1|]. eapply drops_app; [apply drops_entry|exact D'].
  - pose proof (cover_shrink _ _ _ _ _ Hc Hhi ltac:(lia)) as Hc2. rewrite <-(hranges_frame _ _ _ _ F1) in Hc2 by (intros h Hh; by eapply handle_some).
    destruct (IH (set_rl zp a e') (l1 ++ [(a, e')]) l2' b (fin e) hi bs) as (zp' & es' & bs' & E & Hok' & F' & Hc' & D'); rewrite <-?app_assoc; cbn [app]; try done; [unfold fin in *; lia|by rewrite snd_mid|cbn in Hk; lia|].
    exists zp', es', bs'. split; [done|]. split; [done|]. split; [by eapply frame_trans|]. split; [done|]. rewrite <-app_assoc in D'. eapply drops_keeps; [exact K1|exact D'].
Qed.

Lemma unlock_spec zp es H W h : range_ok zp es (h :: H) W -> cover es.*2 (hrange zp <$> h :: H) -> Z.of_nat (length H) + 1 < 2 ^ 32 ->
  exists zp' es' bs, zfs_range_unlock zp h = Some (zp', bs) /\ range_ok zp' es' H W /\ frame zp zp' H W /\ cover es'.*2 (hrange zp' <$> H) /\ drops es es' bs.
Proof using HL.
  intros Hok Hc HH. destruct (ro_handle _ _ _ _ Hok h ltac:(by left)) as (r & Er & Ep & Hvr & Hcase). pose proof (ro_nodup _ _ _ _ Hok) as [Hn1 Hn2]%NoDup_cons.
  assert (hrange zp h = (r_off r, fin r)) as Ehr by (unfold hrange; by rewrite Er). rewrite fmap_cons, Ehr in Hc.
  unfold zfs_range_unlock, zfs_range_unlock_reader. rewrite Er. cbn [mbind option_bind]. destruct (decide (h ∈ es.*1)) as [Hin|Hout].
  - apply list_elem_of_fmap in Hin as ((b & e) & Eb & Hin). cbn in Eb. subst b. destruct (holds_objects _ _ _ (ro_holds _ _ _ _ Hok)) as [_ Ho].
    destruct (Ho h e Hin) as (_ & _ & Ee & _). rewrite Er in Ee. injection Ee as ->. destruct (ro_ent _ _ _ _ Hok h e Hin) as [Hta Hown _ _]. destruct (Hown Ep) as [_ Hcnt].
    apply list_elem_of_split in Hin as (l1 & l2 & ->). rewrite Hcnt, Ep. cbn [Z.eqb Pos.eqb orb negb].
    destruct (remove_ok zp l1 h e l2 (h :: H) H W Hok) as (zp1 & -> & Hok' & F'); [|done|].
    { intros b. rewrite elem_of_cons. split; [|tauto]. intros Hb. split; [by right|]. intros ->. set_solver. }
    cbn [mbind option_bind]. rewrite snd_mid in Hc. pose proof (cover_delete _ _ _ _ _ Hc ltac:(lia) Hcnt) as Hc'. apply (proj1 (cover_empty _ _ _)) in Hc'.
    rewrite <-(hranges_frame _ _ _ _ F') in Hc' by (intros b Hb; eapply handle_some; [exact Hok|by right]).
    exists (free_rl zp1 h), (l1 ++ l2), (broadcasts h e). split; [|split; [done|split; [done|split; [by rewrite fmap_app|apply drops_entry]]]].
    destruct (r_type e); [done|done|done].
  - destruct Hcase as [?|(Ht & Hcnt & Hw & Hr)]; [done|]. pose proof (demote_ok _ _ _ _ _ Hok Hout) as Hok1. rewrite Ht, Hcnt, Ep, Hw, Hr. cbn [Z.eqb orb negb is_writer is_reader bool_decide decide_rel decide].
    change (is_writer RL_READER) with false. change (is_reader RL_READER) with true. cbn [orb negb].
    pose proof Hvr as (V1 & V2 & V3). destruct (cover_head _ _ _ _ Hc ltac:(unfold fin in *; lia)) as (f & Hf & Ef & Hff & Hfc).
    destruct (range_find_spec _ _ _ r (ro_holds _ _ _ _ Hok)) as [(l1 & a & e & l2 & w & -> & Eo & Haz & ->)|(l1 & l2 & w & -> & Hl1 & Hl2 & _)].
    2:{ exfalso. rewrite fmap_app in Hf. apply elem_of_app in Hf as [Hf|Hf]; [specialize (Hl1 f Hf)|specialize (Hl2 f Hf)]; lia. }
    cbn [mbind option_bind]. rewrite (proj2 (Z.eqb_neq _ _) Haz). cbn [negb]. destruct (hd_cons_nz _ _ _ _ l1 a e l2 Hok1 eq_refl) as (_ & Ea & Hve). rewrite Ea. cbn [mbind option_bind].
    assert (fin e <= fin r) as Hle. { destruct (co_tiled _ _ Hc (r_off r, fin r) ltac:(by left)) as [T1 _]. cbn in T1. destruct Hve as (_ & ? & _). rewrite snd_mid in T1. apply (T1 e); unfold fin in *; [set_solver|lia..]. }
    assert (cover (l1.*2 ++ e :: l2.*2) ((r_off e, fin r) :: (hrange zp <$> H))) as Hc1 by (rewrite <-(snd_mid _ a), Eo; done).
    destruct (tile_proxy _ _ _ _ _ _ _ _ Hok1 Hc1 Hle) as (_ & Hte & Hce). rewrite (proj2 (Z.eqb_neq _ _)) by lia. cbn [negb]. rewrite (proj2 (is_reader_spec _) Hte).
    destruct (unlock_loop_spec H (h :: W) HH (range_fuel zp) zp l1 ((a, e) :: l2) a (r_off r) (fin r) [] Hok1) as (zp1 & es' & bs & E & Hok' & F' & Hc' & D'); [unfold fin; lia|done|done|intros _; eauto| |].
    { unfold range_fuel. rewrite (holds_num _ _ _ (ro_holds _ _ _ _ Hok)), Nat2Z.id, length_app. lia. }
    replace (fin r - r_off r) with (r_len r) in E by (unfold fin; lia). rewrite E. cbn [mbind option_bind app]. destruct (free_wait_ok _ _ _ _ _ Hok') as [Hok2 F2].
    exists (free_rl zp1 h), es', bs. split; [done|]. split; [done|]. split; [eapply frame_trans; [by eapply frame_weaken|done]|]. split; [|done].
    rewrite (hranges_frame _ _ _ _ F2); [done|]. intros b Hb. by eapply handle_some.
Qed.

(** ** Exclusion *)

(** Entries at the same point are the same. *)
Lemma entry_unique zp es H W a e b f o : range_ok zp es H W -> (a, e) ∈ es -> (b, f) ∈ es -> r_off e <= o < fin e -> r_off f <= o < fin f -> (a, e) = (b, f).
Proof.
  intros Hok Ha Hb He Hf. apply list_elem_of_split in Ha as (l1 & l2 & ->). pose proof (ok_chain _ _ _ _ Hok) as Hch. rewrite snd_mid in Hch. apply chain_mid in Hch as (_ & _ & Hpre & Hnx).
  rewrite elem_of_app, elem_of_cons in Hb. destruct Hb as [Hb|[Hb|Hb]]; [|done|]; apply snd_in in Hb; [specialize (Hpre f Hb)|specialize (Hnx f Hb)]; lia.
Qed.

(** The count of an entry is the number of locks at each of its points. *)
Lemma entry_count l R e o : cover l R -> e ∈ l -> r_off e <= o < fin e -> r_cnt e = nlocks R o.
Proof.
  intros Hc He Ho. rewrite (proj1 (co_cnt _ _ Hc e He)). apply nlocks_ext. intros r Hr. destruct (co_tiled _ _ Hc r Hr) as [T1 _]. specialize (T1 e He). unfold fin in *. lia.
Qed.

(** At a point of two locks both are readers'. *)
Lemma exclusion zp es H W h1 h2 r1 r2 o : range_ok zp es H W -> cover es.*2 (hrange zp <$> H) -> h1 ∈ H -> h2 ∈ H -> h1 <> h2 ->
  z_rl zp !! h1 = Some r1 -> z_rl zp !! h2 = Some r2 -> r_off r1 <= o < fin r1 -> r_off r2 <= o < fin r2 -> r_type r1 = RL_READER.
Proof using HL.
  intros Hok Hc H1 H2 Hne E1 E2 O1 O2. destruct (ro_handle _ _ _ _ Hok h1 H1) as (r & E & Ep & _ & Hcase). rewrite E1 in E. injection E as <-.
  destruct Hcase as [Hin|(? & _)]; [exfalso|done]. apply list_elem_of_fmap in Hin as ((b & e) & Eb & Hin). cbn in Eb. subst b.
  destruct (holds_objects _ _ _ (ro_holds _ _ _ _ Hok)) as [_ Ho]. destruct (Ho h1 e Hin) as (_ & _ & Ee & _). rewrite E1 in Ee. injection Ee as ->.
  destruct (ro_ent _ _ _ _ Hok h1 e Hin) as [_ Hown _ _]. destruct (Hown Ep) as [_ Hcnt]. rewrite (entry_count _ _ _ o Hc (snd_in _ _ _ Hin) O1) in Hcnt.
  pose proof H1 as (k1 & k2 & ->)%list_elem_of_split. rewrite elem_of_app, elem_of_cons in H2. assert (h2 ∈ k1 ++ k2) as H2' by set_solver.
  pose proof (own_counted zp (k1 ++ k2) h2 r2 o H2' E2 O2) as Hpos.
  assert (hrange zp h1 = (r_off e, fin e)) as Ehr by (unfold hrange; by rewrite E1).
  rewrite (nlocks_perm _ (hrange zp <$> h1 :: k1 ++ k2)) in Hcnt by (by rewrite Permutation_middle). rewrite fmap_cons, Ehr, nlocks_cons in Hcnt. cbn [fst snd] in Hcnt.
  rewrite decide_True in Hcnt by done. lia.
Qed.

(** ** [zfs_range_reduce] *)

Lemma reduce_spec zp es H W h e off len : range_ok zp es H W -> cover es.*2 (hrange zp <$> H) -> h ∈ H -> z_rl zp !! h = Some e -> r_type e = RL_WRITER ->
  r_off e = 0 -> r_len e = UINT64_MAX -> range_valid off len ->
  exists zp' bs, zfs_range_reduce zp h off len = Some (zp', bs) /\ zp' = set_rl zp h (with_off e off len) /\ H = [h] /\ es = [(h, e)] /\ range_ok zp' [(h, with_off e off len)] [h] W /\
    cover [with_off e off len] (hrange zp' <$> [h]) /\ drops es [] bs.
Proof using HL.
  intros Hok Hc Hh Ee Ht Eo El Hr. destruct (ro_handle _ _ _ _ Hok h Hh) as (r & E & Ep & Hv & Hcase). rewrite Ee in E. injection E as <-.
  assert (fin e = 2 ^ 64 - 1) as Fe by (unfold fin; by rewrite Eo, El). destruct Hcase as [Hin|(? & _)]; [|congruence].
  apply list_elem_of_fmap in Hin as ((b & e') & Eb & Hin). cbn in Eb. subst b. destruct (holds_objects _ _ _ (ro_holds _ _ _ _ Hok)) as [_ Ho].
  destruct (Ho h e' Hin) as (_ & _ & Ee' & _). rewrite Ee in Ee'. injection Ee' as <-. destruct (ro_ent _ _ _ _ Hok h e Hin) as [_ Hown _ Hwant]. destruct (Hown Ep) as [_ Hcnt].
  assert (es = [(h, e)]) as ->.
  { apply list_elem_of_split in Hin as (l1 & l2 & ->). pose proof (ok_chain _ _ _ _ Hok) as Hch. rewrite snd_mid in Hch. apply chain_mid in Hch as (_ & Hch & Hpre & Hnx).
    destruct l1 as [|[a x] l1]; [destruct l2 as [|[a x] l2]; [done|]|]; exfalso.
    - specialize (Hnx x ltac:(cbn; set_solver)). destruct (chain_valid _ x Hch ltac:(cbn; set_solver)) as (? & ? & ?). unfold fin in *. lia.
    - specialize (Hpre x ltac:(cbn; set_solver)). destruct (chain_valid _ x Hch ltac:(cbn; set_solver)) as (? & ? & ?). unfold fin in *. lia. }
  assert (H = [h]) as ->.
  { assert (forall h2, h2 ∈ H -> h2 = h) as Hall.
    { intros h2 Hh2. destruct (decide (h2 = h)) as [|Hne]; [done|exfalso]. destruct (ro_handle _ _ _ _ Hok h2 Hh2) as (r2 & E2 & _ & (? & ? & ?) & _).
      pose proof (exclusion zp _ _ _ h h2 e r2 (r_off r2) Hok Hc Hh Hh2 ltac:(done) Ee E2 ltac:(unfold fin in *; lia) ltac:(unfold fin in *; lia)). congruence. }
    pose proof (ro_nodup _ _ _ _ Hok) as (Hnd & _ & _)%NoDup_app. destruct H as [|x [|y H]]; [by apply elem_of_nil in Hh|by rewrite (Hall x ltac:(by left))|].
    apply NoDup_cons in Hnd as [Hxy _]. destruct Hxy. rewrite (Hall x ltac:(by left)), (Hall y ltac:(set_solver)). by left. }
  unfold zfs_range_reduce. rewrite Ee. cbn [mbind option_bind]. rewrite (holds_num _ _ _ (ro_holds _ _ _ _ Hok)), Eo, Ep, El, Hcnt, Ht. cbn [length].
  eexists _, _. split; [done|]. split; [done|]. split; [done|]. split; [done|]. set (e1 := with_off e off len).
  assert (valid e1) as Hv1 by (unfold range_valid in Hr; unfold valid, fin, e1; done).
  assert (hrange (set_rl zp h e1) h = (r_off e1, fin e1)) as Ehr by (unfold hrange; cbn; by rewrite lookup_insert_eq).
  split; [|split; [|apply (drops_entry [] h e [])]].
  - pose proof Hok as [A B C D G]. split; [| |..].
    + replace (outs [(h, e1)] [h] W) with (outs [(h, e)] [h] W) by done. apply (holds_set_in zp [] h e e1 []); [exact A|]. apply chain_cons. split; [done|]. split; [apply chain_nil|]. set_solver.
    + done.
    + intros a f [= -> ->]%list_elem_of_singleton. by destruct (C h e ltac:(by left)).
    + intros x ->%list_elem_of_singleton. exists e1. cbn. rewrite lookup_insert_eq. split; [done|]. split; [done|]. split; [done|]. left. by left.
    + intros w Hw. cbn. destruct (decide (w = h)) as [->|]; [rewrite lookup_insert_eq; eauto|rewrite lookup_insert_ne by done; by apply G].
  - cbn [fmap list_fmap]. rewrite Ehr. apply (cover_gap [] e1 [] []); [|lia|done|done|set_solver|set_solver]. apply cover_empty, cover_nil.
Qed.
End unlock.
