(* ===== verification/RlockSpec.v ===== *)
(** * Range locks: theorems

    Any number of threads lock, wait, unlock and reduce ranges of a file, in
    any order; what holds in every state they can reach. *)
From Stdlib Require Import ZArith Lia.
From stdpp Require Import base numbers list option gmap relations.
From S2P Require Import Prelude Avl AvlTree AvlProof AvlSpec AvlHeap SpaceMapSpec Rlock RlockCover RlockTree RlockProof RlockReader RlockOps RlockUnlock.

Section spec.
Context {T : Type} `{HI : AvlIface T} {cap : nat} {HL : AvlHeapLaws T cap}.
Implicit Types (zp : znode T) (es : list (Z * rl)).

(** ** Threads around a file *)

(** A thread in [zfs_range_lock]: its request, the type and range it was called
    with, and the condition variable it sleeps on, if it does. *)
Record waiter := mk_waiter { wt_new : Z; wt_type : rl_type; wt_off : Z; wt_len : Z; wt_cv : option kcondvar }.

Record sys := mk_sys { sy_zp : znode T; sy_held : list Z; sy_wait : list waiter }.

(** A range to lock; the file ends below [2 ^ 63]. *)
Definition request_ok (t : rl_type) (off len : Z) : Prop := range_valid off len /\ (t = RL_APPEND -> len <= 2 ^ 63).
Definition file_ok zp : Prop := 0 <= zp_size zp < 2 ^ 63.

Definition with_file zp (size blksz max_blksz : Z) : znode T := mk_zp (z_range_avl zp) (z_rl zp) (z_vnode zp) size blksz max_blksz.

(** Memory for the objects, and fewer locks than a counter can count. *)
Definition has_room (s : sys) : Prop :=
  2 * os_numnodes (z_range_avl (sy_zp s)) + Z.of_nat (length (sy_held s)) + Z.of_nat (length (sy_wait s)) + 5 < Z.of_nat cap /\
  Z.of_nat (length (sy_held s)) + 2 < 2 ^ 32 - 1.

Definition after_round zp (H : list Z) (ws : list waiter) (new : Z) (t : rl_type) (off len : Z) (cv : option kcondvar) : sys :=
  match cv with
  | None => mk_sys zp (new :: H) ws
  | Some c => mk_sys zp H (mk_waiter new t off len (Some c) :: ws)
  end.

Definition wake (bs : list kcondvar) (w : waiter) : waiter :=
  mk_waiter (wt_new w) (wt_type w) (wt_off w) (wt_len w)
    (match wt_cv w with Some c => if decide (c ∈ bs) then None else Some c | None => None end).

Inductive rstep (s : sys) : sys -> Prop :=
  | rs_lock off len t zp new cv : request_ok t off len -> has_room s -> zfs_range_lock (sy_zp s) off len t = Some (zp, new, cv) ->
      rstep s (after_round zp (sy_held s) (sy_wait s) new t off len cv)
  | rs_retry w ws zp cv : sy_wait s ≡ₚ w :: ws -> wt_cv w = None -> has_room s -> round (sy_zp s) (wt_new w) (wt_type w) (wt_off w) (wt_len w) = Some (zp, cv) ->
      rstep s (after_round zp (sy_held s) ws (wt_new w) (wt_type w) (wt_off w) (wt_len w) cv)
  | rs_unlock h H zp bs : sy_held s ≡ₚ h :: H -> zfs_range_unlock (sy_zp s) h = Some (zp, bs) -> rstep s (mk_sys zp H (wake bs <$> sy_wait s))
  | rs_reduce h e off len zp bs : h ∈ sy_held s -> z_rl (sy_zp s) !! h = Some e -> r_type e = RL_WRITER -> r_off e = 0 -> r_len e = UINT64_MAX -> range_valid off len ->
      zfs_range_reduce (sy_zp s) h off len = Some (zp, bs) -> rstep s (mk_sys zp (sy_held s) (wake bs <$> sy_wait s))
  | rs_file size blksz max_blksz : 0 <= size < 2 ^ 63 -> rstep s (mk_sys (with_file (sy_zp s) size blksz max_blksz) (sy_held s) (sy_wait s)).

(** A file without locks. *)
Definition unlocked zp : Prop := oh_abs (z_range_avl zp) [] ∅ /\ file_ok zp.
Definition reached zp (s : sys) : Prop := rtc rstep (mk_sys zp [] []) s.

(** ** The invariant *)

Record waiter_ok zp es (w : waiter) : Prop := {
  wo_new : exists n, z_rl zp !! wt_new w = Some n /\ pending (wt_type w) n /\ (wt_type w = RL_READER -> r_off n = wt_off w /\ r_len n = wt_len w);
  wo_request : request_ok (wt_type w) (wt_off w) (wt_len w);
  wo_wanted : forall c, wt_cv w = Some c -> wanted es c
}.

Record sys_ok (s : sys) es : Prop := {
  so_range : range_ok (cap := cap) (sy_zp s) es (sy_held s) (wt_new <$> sy_wait s);
  so_cover : cover es.*2 (hrange (sy_zp s) <$> sy_held s);
  so_wait : forall w, w ∈ sy_wait s -> waiter_ok (sy_zp s) es w;
  so_file : file_ok (sy_zp s);
  so_count : Z.of_nat (length (sy_held s)) < 2 ^ 32 - 1
}.

Lemma unlocked_ok zp : unlocked zp -> sys_ok (mk_sys zp [] []) [].
Proof.
  intros [Habs Hf]. split; cbn; [|apply cover_nil|set_solver|done|lia]. split; cbn; [|constructor|set_solver..].
  split; cbn; [by replace (outs [] [] []) with (∅ : gset Z) by (by apply set_eq)|set_solver|apply chain_nil].
Qed.

Lemma request_append zp t off len : request_ok t off len -> file_ok zp -> append_valid zp t len.
Proof. intros [(A & B & C) D] F _ Ht. specialize (D Ht). unfold file_ok in F. unfold range_valid. lia. Qed.

Lemma same_file_ok zp zp' : same_file zp zp' -> file_ok zp -> file_ok zp'.
Proof. intros (_ & E & _). unfold file_ok. by rewrite E. Qed.

Lemma waiters_frame zp zp' es es' H (ws : list waiter) w : frame zp zp' H (wt_new <$> ws) -> keeps es es' -> w ∈ ws -> waiter_ok zp es w -> waiter_ok zp' es' w.
Proof.
  intros F K Hw [A B C]. split; [|done|auto]. rewrite (fr_w _ _ _ _ F); [done|by apply list_elem_of_fmap_2].
Qed.

Lemma asked_reader zp t n off len : t = RL_READER -> asked zp t n off len = n.
Proof. by intros ->. Qed.

Lemma after_round_ok zp zp' es es' H ws new t off len n cv : (forall h, h ∈ H -> is_Some (z_rl zp !! h)) -> (forall w, w ∈ ws -> waiter_ok zp es w) -> request_ok t off len -> file_ok zp ->
  (t = RL_READER -> r_off n = off /\ r_len n = len) -> Z.of_nat (length H) + 2 < 2 ^ 32 - 1 -> outcome (cap := cap) zp zp' es es' H (wt_new <$> ws) new t n (hrange zp <$> H) cv ->
  sys_ok (after_round zp' H ws new t off len cv) es'.
Proof.
  intros Hs Hws Hr Hf Hn Hb Ho. destruct cv as [c|]; cbn in *.
  - destruct Ho as (A & F & K & Hc & Hw & n' & En & Hp & Hsame). split; cbn [sy_zp sy_held sy_wait]; [done|by rewrite (hranges_frame _ _ _ _ F)| |by eapply same_file_ok; [apply F|]|lia].
    intros w [->|Hin]%elem_of_cons; [|by eapply waiters_frame; [..|apply Hws]]. split; cbn; [|done|by intros ? [= <-]]. exists n'. split; [done|]. split; [done|]. intros Ht. rewrite (Hsame Ht). auto.
  - destruct Ho as [A F K Hc (r & Er & E1 & E2 & E3)]. split; cbn [sy_zp sy_held sy_wait]; [done| |intros w Hin; by eapply waiters_frame; [..|apply Hws]|by eapply same_file_ok; [apply F|]|cbn [length]; lia].
    rewrite fmap_cons, (hranges_frame _ _ _ _ F) by done. unfold hrange at 1. rewrite Er. unfold fin in *. by rewrite E1, E2.
Qed.

Lemma wake_new bs (ws : list waiter) : wt_new <$> (wake bs <$> ws) = wt_new <$> ws.
Proof. rewrite <-list_fmap_compose. by apply list_fmap_ext. Qed.

Lemma wake_ok zp zp' es es' bs H ws w : frame zp zp' H (wt_new <$> ws) -> drops es es' bs -> w ∈ wake bs <$> ws -> (forall w, w ∈ ws -> waiter_ok zp es w) -> waiter_ok zp' es' w.
Proof.
  intros F D (w0 & -> & Hin)%list_elem_of_fmap Hws. destruct (Hws w0 Hin) as [A B C]. split; cbn; [|done|].
  - rewrite (fr_w _ _ _ _ F); [done|by apply list_elem_of_fmap_2].
  - intros c. destruct (wt_cv w0) as [c0|] eqn:Ec; [|done]. destruct (decide (c0 ∈ bs)) as [|Hn]; [done|]. intros [= <-]. destruct (D c0 (C c0 eq_refl)); done.
Qed.

Lemma room_spec s es : sys_ok s es -> has_room s ->
  Z.of_nat (length (hrange (sy_zp s) <$> sy_held s)) + 1 < 2 ^ 32 - 1 /\ roomy (cap := cap) es (sy_held s) (0 :: (wt_new <$> sy_wait s)).
Proof using HL.
  intros [Hok _ _ _ _] [R1 R2]. rewrite (holds_num _ _ _ (ro_holds _ _ _ _ Hok)) in R1. rewrite length_fmap. split; [lia|]. unfold roomy. cbn [length]. rewrite length_fmap. lia.
Qed.

Lemma sys_ok_perm zp H H' ws ws' es : H ≡ₚ H' -> ws ≡ₚ ws' -> sys_ok (mk_sys zp H ws) es -> sys_ok (mk_sys zp H' ws') es.
Proof.
  intros PH PW [A B C D Hb]. split; cbn in *; [apply (range_ok_perm zp es H H' (wt_new <$> ws) (wt_new <$> ws')); [done|by apply fmap_Permutation|done]|eapply cover_perm; [|exact B]; by rewrite PH|intros w; rewrite <-PW; apply C|done|by rewrite <-PH].
Qed.

(** ** What each call does *)

Lemma lock_ok s es off len t : sys_ok s es -> request_ok t off len -> has_room s ->
  exists zp new cv es', zfs_range_lock (sy_zp s) off len t = Some (zp, new, cv) /\ sys_ok (after_round zp (sy_held s) (sy_wait s) new t off len cv) es' /\
    admitted es t (asked (sy_zp s) t (mk_rl off len 1 t false false false) off len) cv /\
    (cv = None -> exists r, let n := asked (sy_zp s) t (mk_rl off len 1 t false false false) off len in
       z_rl zp !! new = Some r /\ r_off r = r_off n /\ r_len r = r_len n /\ r_type r = r_type n).
Proof using HL.
  intros Hok Hr Hroom. destruct (room_spec s es Hok Hroom) as [R1 R2]. pose proof Hok as [A B C D _].
  destruct (range_lock_spec (sy_zp s) es (sy_held s) (wt_new <$> sy_wait s) t off len _ A (proj1 Hr) (request_append _ _ _ _ Hr D) B R1 R2) as (zp & new & es' & cv & E & Ho & Hadm & _).
  exists zp, new, cv, es'. split; [done|]. split; [|split; [done|]; intros ->; destruct (gr_new _ _ _ _ _ _ _ _ _ Ho) as (r & Hn); by exists r]. eapply after_round_ok; [|exact C|done|done| |apply Hroom|exact Ho]; [intros h Hh; by eapply handle_some|].
  by intros ->.
Qed.

Lemma retry_ok s es w ws : sys_ok s es -> sy_wait s ≡ₚ w :: ws -> has_room s ->
  exists zp cv es' n, round (sy_zp s) (wt_new w) (wt_type w) (wt_off w) (wt_len w) = Some (zp, cv) /\
    sys_ok (after_round zp (sy_held s) ws (wt_new w) (wt_type w) (wt_off w) (wt_len w) cv) es' /\ admitted es (wt_type w) (asked (sy_zp s) (wt_type w) n (wt_off w) (wt_len w)) cv.
Proof using HL.
  intros Hok Hp Hroom. destruct (room_spec s es Hok Hroom) as [R1 R2]. destruct s as [zp H ws0]. cbn in *. apply (sys_ok_perm _ H H _ (w :: ws)) in Hok; [|done|done].
  pose proof Hok as [A B C D _]. cbn in *. destruct (C w ltac:(by left)) as [(n & En & Hpn & Hrd) Hr _].
  destruct (round_spec zp es H (wt_new <$> ws) (wt_new w) n (wt_type w) (wt_off w) (wt_len w) _ A En Hpn Hrd (proj1 Hr) (request_append _ _ _ _ Hr D) B R1) as (zp' & es' & cv & E & Ho & Hadm).
  { unfold roomy in *. cbn [length] in *. rewrite length_fmap in *. apply Permutation_length in Hp. cbn in Hp. lia. }
  exists zp', cv, es', n. split; [done|]. split; [|done]. eapply after_round_ok; [| |done|done| |apply Hroom|exact Ho]; [intros h Hh; by eapply handle_some|intros w' Hw'; apply C; by right|].
  intros Ht. rewrite asked_reader by done. auto.
Qed.

Lemma unlock_ok s es h H : sys_ok s es -> sy_held s ≡ₚ h :: H ->
  exists zp bs es', zfs_range_unlock (sy_zp s) h = Some (zp, bs) /\ sys_ok (mk_sys zp H (wake bs <$> sy_wait s)) es'.
Proof using HL.
  intros Hok Hp. destruct s as [zp H0 ws]. cbn in *. apply (sys_ok_perm _ _ (h :: H) _ ws) in Hok; [|done|done]. destruct Hok as [A B C D Hn]. cbn in *.
  destruct (unlock_spec zp es H _ h A B ltac:(lia)) as (zp' & es' & bs & E & A' & F & B' & Dr).
  exists zp', bs, es'. split; [done|]. split; cbn; [by rewrite wake_new|done| |by eapply same_file_ok; [apply F|]|lia]. intros w Hw. by eapply wake_ok.
Qed.

Lemma reduce_ok s es h e off len : sys_ok s es -> h ∈ sy_held s -> z_rl (sy_zp s) !! h = Some e -> r_type e = RL_WRITER -> r_off e = 0 -> r_len e = UINT64_MAX -> range_valid off len ->
  exists zp bs es', zfs_range_reduce (sy_zp s) h off len = Some (zp, bs) /\ sys_ok (mk_sys zp (sy_held s) (wake bs <$> sy_wait s)) es'.
Proof using HL.
  intros [A B C D Hn] Hh Ee Ht Eo El Hr. destruct (reduce_spec (sy_zp s) es (sy_held s) _ h e off len A B Hh Ee Ht Eo El Hr) as (zp & bs & E & -> & EH & Ees & A' & B' & Dr).
  exists (set_rl (sy_zp s) h (with_off e off len)), bs, [(h, with_off e off len)]. split; [done|]. rewrite EH in *. split; cbn [sy_zp sy_held sy_wait]; [by rewrite wake_new|done| |done|done].
  intros w (w0 & -> & Hin)%list_elem_of_fmap. destruct (C w0 Hin) as [C1 C2 C3]. split; cbn; [|done|].
  - rewrite lookup_insert_ne; [done|]. intros ->. pose proof (ro_nodup _ _ _ _ A) as (_ & N & _)%NoDup_app. apply (N (wt_new w0)); [by left|by apply list_elem_of_fmap_2].
  - intros c. destruct (wt_cv w0) as [c0|] eqn:Ec; [|done]. destruct (decide (c0 ∈ bs)) as [|Hn']; [done|]. intros _. destruct (Dr c0 (C3 c0 eq_refl)) as [(? & []%elem_of_nil & _)|]; done.
Qed.

Lemma file_step_ok s es size blksz max_blksz : sys_ok s es -> 0 <= size < 2 ^ 63 -> sys_ok (mk_sys (with_file (sy_zp s) size blksz max_blksz) (sy_held s) (sy_wait s)) es.
Proof.
  intros [[[A1 A2 A3] A4 A5 A6 A7] B C D Hn] Hs. split; cbn; [|done| |done|done].
  - split; [by split|done|done|done|done].
  - intros w Hw. by destruct (C w Hw).
Qed.

Lemma rstep_ok s s' es : sys_ok s es -> rstep s s' -> exists es', sys_ok s' es'.
Proof using HL.
  intros Hok Hst. destruct Hst as [off len t zp new cv Hr Hroom E|w ws zp cv Hp Hcv Hroom E|h H zp bs Hp E|h e off len zp bs Hh Ee Ht Eo El Hr E|size blksz max_blksz Hs].
  - destruct (lock_ok s es off len t Hok Hr Hroom) as (zp' & new' & cv' & es' & E' & Hok' & _). rewrite E in E'. injection E' as -> -> ->. eauto.
  - destruct (retry_ok s es w ws Hok Hp Hroom) as (zp' & cv' & es' & n & E' & Hok' & _). rewrite E in E'. injection E' as -> ->. eauto.
  - destruct (unlock_ok s es h H Hok Hp) as (zp' & bs' & es' & E' & Hok'). rewrite E in E'. injection E' as -> ->. eauto.
  - destruct (reduce_ok s es h e off len Hok Hh Ee Ht Eo El Hr) as (zp' & bs' & es' & E' & Hok'). rewrite E in E'. injection E' as -> ->. eauto.
  - exists es. by apply file_step_ok.
Qed.

Lemma reached_ok zp s : unlocked zp -> reached zp s -> exists es, sys_ok s es.
Proof using HL.
  intros Hu Hr. assert (forall s0, rtc rstep s0 s -> (exists es, sys_ok s0 es) -> exists es, sys_ok s es) as Hgen.
  { clear. intros s0. induction 1 as [|s0 s1 s2 Hst _ IH]; [done|]. intros [es Hok]. apply IH. by eapply rstep_ok. }
  eapply Hgen; [exact Hr|]. exists []. by apply unlocked_ok.
Qed.

(** ** Locks and entries *)

Lemma nlocks_some R o : 0 < nlocks R o -> exists r, r ∈ R /\ r.1 <= o < r.2.
Proof.
  unfold nlocks. destruct (filter _ R) as [|r l] eqn:E; [cbn; lia|]. intros _. assert (r ∈ filter (fun r : Z * Z => r.1 <= o < r.2) R) as Hin by (rewrite E; by left).
  apply list_elem_of_filter in Hin as [? ?]. by exists r.
Qed.

Lemma counted_held zp es H W o : range_ok (cap := cap) zp es H W -> 0 < nlocks (hrange zp <$> H) o -> exists h r, h ∈ H /\ z_rl zp !! h = Some r /\ r_off r <= o < fin r.
Proof.
  intros Hok (q & (h & -> & Hh)%list_elem_of_fmap & Ho)%nlocks_some. destruct (handle_some _ _ _ _ h Hok Hh) as [r Er]. exists h, r. split; [done|]. split; [done|].
  unfold hrange in Ho. by rewrite Er in Ho.
Qed.

Lemma held_entry zp es H W h r o : range_ok (cap := cap) zp es H W -> cover es.*2 (hrange zp <$> H) -> h ∈ H -> z_rl zp !! h = Some r -> r_off r <= o < fin r ->
  exists a e, (a, e) ∈ es /\ r_off e <= o < fin e /\ r_off r <= r_off e /\ fin e <= fin r.
Proof.
  intros Hok Hc Hh Er Ho. assert (hrange zp h = (r_off r, fin r)) as Ehr by (unfold hrange; by rewrite Er).
  destruct (co_tiled _ _ Hc (hrange zp h) ltac:(by apply list_elem_of_fmap_2)) as [T1 T2]. rewrite Ehr in *. cbn [fst snd] in *. destruct (T2 o Ho) as (e & He & Hin).
  pose proof He as ((a & e') & -> & Hae)%list_elem_of_fmap. cbn in *. exists a, e'. split; [done|]. split; [done|]. apply T1; [done|lia..].
Qed.

Lemma entry_held zp es H W a e o : range_ok (cap := cap) zp es H W -> cover es.*2 (hrange zp <$> H) -> (a, e) ∈ es -> r_off e <= o < fin e ->
  exists h r, h ∈ H /\ z_rl zp !! h = Some r /\ r_off r <= o < fin r.
Proof.
  intros Hok Hc Hae Ho. eapply counted_held; [exact Hok|]. rewrite <-(entry_count _ _ _ o Hc (snd_in _ _ _ Hae) Ho). apply (co_cnt _ _ Hc e (snd_in _ _ _ Hae)).
Qed.

(** A writer's lock is an entry, and a writer's entry its lock. *)
Lemma writer_entry zp es H W h r : range_ok (cap := cap) zp es H W -> h ∈ H -> z_rl zp !! h = Some r -> r_type r = RL_WRITER -> (h, r) ∈ es.
Proof using HL.
  intros Hok Hh Er Ht. destruct (ro_handle _ _ _ _ Hok h Hh) as (r' & E & _ & _ & Hc). rewrite Er in E. injection E as <-. destruct Hc as [Hin|(? & _)]; [|congruence].
  apply list_elem_of_fmap in Hin as ((b & e) & Eb & Hin). cbn in Eb. subst b. destruct (holds_objects _ _ _ (ro_holds _ _ _ _ Hok)) as [_ Ho]. destruct (Ho h e Hin) as (_ & _ & Ee & _).
  rewrite Er in Ee. by injection Ee as ->.
Qed.

Lemma entry_writer zp es H W a e : range_ok (cap := cap) zp es H W -> (a, e) ∈ es -> r_type e = RL_WRITER -> a ∈ H /\ z_rl zp !! a = Some e.
Proof using HL.
  intros Hok Hae Ht. destruct (holds_objects _ _ _ (ro_holds _ _ _ _ Hok)) as [_ Ho]. destruct (Ho a e Hae) as (_ & _ & Ee & _). split; [|done].
  destruct (ro_ent _ _ _ _ Hok a e Hae) as [_ Hown Hprx _]. destruct (r_proxy e); [destruct (Hprx eq_refl) as (_ & _ & ?); congruence|by apply Hown].
Qed.

Lemma overlaps_point e n : valid e -> valid n -> overlaps e n <-> exists o, r_off e <= o < fin e /\ r_off n <= o < fin n.
Proof.
  intros (_ & A & _) (_ & B & _). unfold overlaps, fin in *. split; [|intros (o & ? & ?); lia]. intros [C D]. exists (Z.max (r_off e) (r_off n)). lia.
Qed.

Lemma handle_valid zp es H W h r : range_ok (cap := cap) zp es H W -> h ∈ H -> z_rl zp !! h = Some r -> valid r.
Proof. intros Hok Hh Er. destruct (ro_handle _ _ _ _ Hok h Hh) as (r' & E & _ & V & _). rewrite Er in E. by injection E as <-. Qed.

(** The range asked for meets an entry just when it meets a lock. *)
Lemma overlap_held zp es H W n : range_ok (cap := cap) zp es H W -> cover es.*2 (hrange zp <$> H) -> valid n ->
  (exists a e, (a, e) ∈ es /\ overlaps e n) <-> (exists h r, h ∈ H /\ z_rl zp !! h = Some r /\ overlaps r n).
Proof using HL.
  intros Hok Hc Hn. destruct (holds_objects _ _ _ (ro_holds _ _ _ _ Hok)) as [_ Ho]. split.
  - intros (a & e & Hae & Hov). destruct (Ho a e Hae) as (_ & _ & _ & Hv). apply overlaps_point in Hov as (o & O1 & O2); [|done|done].
    destruct (entry_held _ _ _ _ _ _ _ Hok Hc Hae O1) as (h & r & Hh & Er & O3). exists h, r. split; [done|]. split; [done|]. apply overlaps_point; [by eapply handle_valid|done|eauto].
  - intros (h & r & Hh & Er & Hov). apply overlaps_point in Hov as (o & O1 & O2); [|by eapply handle_valid|done].
    destruct (held_entry _ _ _ _ _ _ _ Hok Hc Hh Er O1) as (a & e & Hae & O3 & _). exists a, e. split; [done|]. destruct (Ho a e Hae) as (_ & _ & _ & Hv). apply overlaps_point; [done|done|eauto].
Qed.

Lemma asked_valid zp t off len : request_ok t off len -> file_ok zp -> valid (asked zp t (mk_rl off len 1 t false false false) off len).
Proof.
  intros Hr Hf. unfold asked. destruct (is_reader t); [destruct Hr as [(? & ? & ?) _]; unfold valid, fin; done|].
  destruct (writer_range_ok zp (mk_rl off len 1 t false false false) off len) as [Hv _]; [done|apply Hr|by eapply request_append|done].
Qed.

(** ** Theorems *)

(** C16: exclusion.  In every state threads can reach by any interleaving of
    locking, waiting, unlocking and reducing, locks that overlap are all
    readers'; the count of every entry of the tree is the number of locks at
    each of its points, and every point of a lock is in an entry; and every
    allowed call returns, with its assertions passed: unlocking any lock,
    locking any range, the next round of any waiting request, and reducing a
    lock on the whole file. *)
Theorem zfs_range_exclusion zp (s : sys) (Hu : unlocked zp) (Hr : reached zp s) :
  (forall h1 h2 r1 r2 o, h1 ∈ sy_held s -> h2 ∈ sy_held s -> h1 <> h2 -> z_rl (sy_zp s) !! h1 = Some r1 -> z_rl (sy_zp s) !! h2 = Some r2 ->
     r_off r1 <= o < fin r1 -> r_off r2 <= o < fin r2 -> r_type r1 = RL_READER /\ r_type r2 = RL_READER) /\
  (exists es, holds (cap := cap) (sy_zp s) es (outs es (sy_held s) (wt_new <$> sy_wait s)) /\
     (forall a e o, (a, e) ∈ es -> r_off e <= o < fin e -> r_cnt e = nlocks (hrange (sy_zp s) <$> sy_held s) o) /\
     (forall o, 0 < nlocks (hrange (sy_zp s) <$> sy_held s) o -> exists a e, (a, e) ∈ es /\ r_off e <= o < fin e)) /\
  (forall h, h ∈ sy_held s -> is_Some (zfs_range_unlock (sy_zp s) h)) /\
  (forall off len t, request_ok t off len -> has_room s -> is_Some (zfs_range_lock (sy_zp s) off len t)) /\
  (forall w, w ∈ sy_wait s -> has_room s -> is_Some (round (sy_zp s) (wt_new w) (wt_type w) (wt_off w) (wt_len w))) /\
  (forall h e off len, h ∈ sy_held s -> z_rl (sy_zp s) !! h = Some e -> r_type e = RL_WRITER -> r_off e = 0 -> r_len e = UINT64_MAX -> range_valid off len ->
     is_Some (zfs_range_reduce (sy_zp s) h off len)).
Proof using HL.
  destruct (reached_ok zp s Hu Hr) as [es Hok]. pose proof Hok as [A B C D _]. split; [|split; [|split; [|split; [|split]]]].
  - intros h1 h2 r1 r2 o H1 H2 Hne E1 E2 O1 O2. split; [exact (exclusion _ _ _ _ h1 h2 r1 r2 o A B H1 H2 Hne E1 E2 O1 O2)|exact (exclusion _ _ _ _ h2 h1 r2 r1 o A B H2 H1 (not_eq_sym Hne) E2 E1 O2 O1)].
  - exists es. split; [apply A|]. split; [intros a e o Hae Ho; eapply entry_count; [done|by eapply snd_in|done]|].
    intros o Hn. destruct (counted_held _ _ _ _ _ A Hn) as (h & r & Hh & Er & Ho). destruct (held_entry _ _ _ _ _ _ _ A B Hh Er Ho) as (a & e & Hae & He & _). eauto.
  - intros h (H1 & H2 & E)%list_elem_of_split. destruct (unlock_ok s es h (H1 ++ H2) Hok) as (zp' & bs & es' & -> & _); [|eauto]. by rewrite E, Permutation_middle.
  - intros off len t Hq Hroom. destruct (lock_ok s es off len t Hok Hq Hroom) as (zp' & new & cv & es' & -> & _). eauto.
  - intros w (W1 & W2 & E)%list_elem_of_split Hroom. destruct (retry_ok s es w (W1 ++ W2) Hok) as (zp' & cv & es' & n & -> & _); [|done|eauto]. by rewrite E, Permutation_middle.
  - intros h e off len Hh Ee Ht Eo El Hv. destruct (reduce_ok s es h e off len Hok Hh Ee Ht Eo El Hv) as (zp' & bs & es' & -> & _). eauto.
Qed.

(** C17: when a lock is granted.  A writer, or an append, gets its lock just
    when no lock overlaps the range it needs, which is the whole file when the
    blocks have to grow.  A reader that gets its lock overlaps no writer, and
    one that does not, although no writer overlaps, waits at an entry in its
    range for which a writer already waits.  The new lock has the range asked
    for. *)
Theorem zfs_range_lock_grants zp (s : sys) (off len : Z) (t : rl_type) (Hu : unlocked zp) (Hr : reached zp s) (Hq : request_ok t off len) (Hroom : has_room s) :
  exists zp' new cv, zfs_range_lock (sy_zp s) off len t = Some (zp', new, cv) /\
    let n := asked (sy_zp s) t (mk_rl off len 1 t false false false) off len in
    let meets h r := h ∈ sy_held s /\ z_rl (sy_zp s) !! h = Some r /\ overlaps r n in
    (cv = None -> exists r, z_rl zp' !! new = Some r /\ r_off r = r_off n /\ r_len r = r_len n /\ r_type r = r_type n) /\
    (t <> RL_READER -> cv = None <-> forall h r, ~ meets h r) /\
    (t = RL_READER -> cv = None -> forall h r, meets h r -> r_type r = RL_READER) /\
    (t = RL_READER -> forall c, cv = Some c -> (forall h r, meets h r -> r_type r <> RL_WRITER) ->
       exists e, z_rl (sy_zp s) !! c.1 = Some e /\ overlaps e n /\ r_write_wanted e = true).
Proof using HL.
  destruct (reached_ok zp s Hu Hr) as [es Hok]. pose proof Hok as [A B C D _]. destruct (lock_ok s es off len t Hok Hq Hroom) as (zp' & new & cv & es' & E & Hok' & Hadm & Hnew).
  exists zp', new, cv. split; [done|]. cbv zeta. set (n := asked (sy_zp s) t _ off len) in *. pose proof (asked_valid _ _ _ _ Hq D : valid n) as Hn.
  pose proof (overlap_held _ _ _ _ n A B Hn) as Hiff. split; [done|]. split; [|split].
  - intros Ht. assert (is_reader t = false) as Hrd by (destruct (is_reader t) eqn:E'; [by apply is_reader_spec in E'|done]). split.
    + intros -> h r (Hh & Er & Hov). destruct (proj2 Hiff) as (a & e & Hae & Hov'); [eauto|]. destruct (Hadm a e Hae Hov') as [? _]. congruence.
    + intros Hno. destruct cv as [c|]; [exfalso|done]. destruct Hadm as (_ & e & Hce & Hov & _). destruct (proj1 Hiff) as (h & r & Hm); [eauto|]. by apply (Hno h r).
  - intros -> -> h r (Hh & Er & Hov). destruct (r_type r) eqn:Et; [done| |].
    + destruct (Hadm h r) as (_ & ? & _); [by eapply writer_entry|done|congruence].
    + destruct (ro_handle _ _ _ _ A h Hh) as (r' & E' & Hp & _ & Hc). rewrite Er in E'. injection E' as <-. destruct Hc as [Hin|(? & _)]; [|congruence].
      apply list_elem_of_fmap in Hin as ((b & e) & Eb & Hin). cbn in Eb. subst b. destruct (holds_objects _ _ _ (ro_holds _ _ _ _ A)) as [_ Ho]. destruct (Ho h e Hin) as (_ & _ & Ee & _).
      rewrite Er in Ee. injection Ee as ->. by destruct (ro_ent _ _ _ _ A h e Hin) as [? _ _ _].
  - intros -> c -> Hno. destruct Hadm as (_ & e & Hce & Hov & Hb). destruct (holds_objects _ _ _ (ro_holds _ _ _ _ A)) as [_ Ho]. destruct (Ho _ _ Hce) as (_ & _ & Ee & _).
    exists e. split; [done|]. split; [done|]. destruct (Hb eq_refl) as [Hw|Hw]; [|done]. destruct (entry_writer _ _ _ _ _ _ A Hce Hw) as [Hin _]. by destruct (Hno _ _ (conj Hin (conj Ee Hov))).
Qed.

(** C18: no wake-up is lost.  A thread that sleeps does so at an entry of the
    tree, flagged as waited for, that lies within a lock somebody holds; so when
    no lock is held nobody sleeps, and the next round of every waiting request
    gets its lock. *)
Theorem zfs_range_progress zp (s : sys) (Hu : unlocked zp) (Hr : reached zp s) :
  (forall w c, w ∈ sy_wait s -> wt_cv w = Some c -> exists e h r, z_rl (sy_zp s) !! c.1 = Some e /\ (if c.2 then r_write_wanted e else r_read_wanted e) = true /\
     h ∈ sy_held s /\ z_rl (sy_zp s) !! h = Some r /\ r_off r <= r_off e /\ fin e <= fin r) /\
  (sy_held s = [] -> forall w, w ∈ sy_wait s -> wt_cv w = None /\
     (has_room s -> exists zp', round (sy_zp s) (wt_new w) (wt_type w) (wt_off w) (wt_len w) = Some (zp', None))).
Proof using HL.
  destruct (reached_ok zp s Hu Hr) as [es Hok]. pose proof Hok as [A B C D _].
  assert (forall w c, w ∈ sy_wait s -> wt_cv w = Some c -> exists e h r, z_rl (sy_zp s) !! c.1 = Some e /\ (if c.2 then r_write_wanted e else r_read_wanted e) = true /\
     h ∈ sy_held s /\ z_rl (sy_zp s) !! h = Some r /\ r_off r <= r_off e /\ fin e <= fin r) as Hsleep.
  { intros w c Hw Hc. destruct (wo_wanted _ _ _ (C w Hw) c Hc) as (e & Hce & Hf). destruct (holds_objects _ _ _ (ro_holds _ _ _ _ A)) as [_ Ho]. destruct (Ho _ _ Hce) as (_ & _ & Ee & Hv).
    destruct Hv as (? & ? & ?). destruct (entry_held _ _ _ _ _ _ (r_off e) A B Hce ltac:(unfold fin; lia)) as (h & r & Hh & Er & Hor).
    destruct (held_entry _ _ _ _ _ _ _ A B Hh Er Hor) as (a' & e' & Hae' & O1 & O2 & O3).
    pose proof (entry_unique _ _ _ _ _ _ _ _ (r_off e) A Hce Hae' ltac:(unfold fin; lia) O1) as Eq. injection Eq as _ <-. exists e, h, r. done. }
  split; [done|]. intros Hnil w Hw. split.
  - destruct (wt_cv w) as [c|] eqn:Ec; [exfalso|done]. destruct (Hsleep w c Hw Ec) as (_ & h & _ & _ & _ & Hh & _). rewrite Hnil in Hh. by apply elem_of_nil in Hh.
  - intros Hroom. pose proof Hw as (W1 & W2 & E)%list_elem_of_split. destruct (retry_ok s es w (W1 ++ W2) Hok) as (zp' & cv & es' & n & -> & _ & Hadm); [by rewrite E, Permutation_middle|done|].
    exists zp'. destruct cv as [c|]; [exfalso|done]. destruct Hadm as (_ & e & Hce & _). destruct (holds_objects _ _ _ (ro_holds _ _ _ _ A)) as [_ Ho]. destruct (Ho _ _ Hce) as (_ & _ & _ & ? & ? & ?).
    destruct (entry_held _ _ _ _ _ _ (r_off e) A B Hce ltac:(unfold fin; lia)) as (h & _ & Hh & _). rewrite Hnil in Hh. by apply elem_of_nil in Hh.
Qed.
End spec.

(** ** Examples *)

#[local] Instance lock_trees : AvlIface avl_tree := avl_iface free_word 4096 example_junk.
#[local] Instance lock_laws : AvlHeapLaws avl_tree 100 := avl_heap_laws free_word 4096 example_junk 100 example_ptr example_cap free_word_fresh.

(** A file of 128K blocks. *)
Definition ex_file : znode avl_tree := mk_zp (avl_create ∅) ∅ true 200000 131072 131072.

Definition lock_step (s : sys (T := avl_tree)) (off len : Z) (t : rl_type) : sys :=
  match zfs_range_lock (sy_zp s) off len t with
  | Some (zp, new, cv) => after_round zp (sy_held s) (sy_wait s) new t off len cv
  | None => s
  end.

(** Two readers that overlap, and a writer that wants a part of theirs. *)
Definition ex_one : sys := lock_step (mk_sys ex_file [] []) 0 10 RL_READER.
Definition ex_two : sys := lock_step ex_one 3 2 RL_READER.
Definition ex_three : sys := lock_step ex_two 4 10 RL_WRITER.

Lemma ex_unlocked : unlocked (cap := 100) ex_file.
Proof.
  split; [|split; cbn; lia]. cbn. split; cbn; [|done|done|done|rewrite size_empty; cbn; lia|set_solver]. exists Leaf. split; [|done]. split; try done; [by exists false|constructor].
Qed.

Lemma lock_step_spec (s : sys (T := avl_tree)) off len t : request_ok t off len -> has_room (cap := 100) s -> zfs_range_lock (sy_zp s) off len t <> None -> rstep (cap := 100) s (lock_step s off len t).
Proof.
  intros Hr Hroom Hn. unfold lock_step. destruct (zfs_range_lock (sy_zp s) off len t) as [[[zp new] cv]|] eqn:E; [|done]. by apply rs_lock with (zp := zp).
Qed.

Lemma ex_room s : (2 * os_numnodes (z_range_avl (sy_zp s)) + Z.of_nat (length (sy_held s)) + Z.of_nat (length (sy_wait s)) + 5 <? 100) &&
  (Z.of_nat (length (sy_held s)) + 2 <? 2 ^ 32 - 1) = true -> has_room (T := avl_tree) (cap := 100) s.
Proof. intros [A%Z.ltb_lt B%Z.ltb_lt]%andb_true_iff. by split. Qed.

Lemma ex_reached : reached (cap := 100) ex_file ex_three.
Proof.
  eapply rtc_l; [|eapply rtc_l; [|apply rtc_once]]; apply lock_step_spec; try (apply ex_room; vm_compute; reflexivity); try (vm_compute; discriminate);
    (split; [unfold range_valid; lia|done]).
Qed.

(** What is in the tree, in order. *)
Fixpoint entries_from (k : nat) (zp : znode avl_tree) (a : Z) : list (Z * Z * Z) :=
  match k, z_rl zp !! a with
  | S k, Some e => (r_off e, r_len e, r_cnt e) :: entries_from k zp (default 0 (AVL_NEXT zp a))
  | _, _ => []
  end.

Example ex_entries : entries_from 5 (sy_zp ex_three) (default 0 (os_first (z_range_avl (sy_zp ex_three)))) = [(0, 3, 1); (3, 2, 2); (5, 5, 1)].
Proof. vm_compute. reflexivity. Qed.

Lemma ex_held : sy_held ex_three = [16; 8].
Proof. vm_compute. reflexivity. Qed.
Lemma ex_wait : sy_wait ex_three = [mk_waiter 48 RL_WRITER 4 10 (Some (40, true))].
Proof. vm_compute. reflexivity. Qed.

Lemma zfs_range_exclusion_witness : unlocked (cap := 100) ex_file /\ reached (cap := 100) ex_file ex_three /\ 8 ∈ sy_held ex_three /\ is_Some (zfs_range_unlock (sy_zp ex_three) 8).
Proof.
  assert (8 ∈ sy_held ex_three) as H by (rewrite ex_held; set_solver). split; [exact ex_unlocked|]. split; [exact ex_reached|]. split; [exact H|].
  exact (proj1 (proj2 (proj2 (zfs_range_exclusion ex_file ex_three ex_unlocked ex_reached))) 8 H).
Defined.

Lemma zfs_range_lock_grants_witness : request_ok RL_READER 20 5 /\ has_room (cap := 100) ex_three /\ exists zp' new cv, zfs_range_lock (sy_zp ex_three) 20 5 RL_READER = Some (zp', new, cv).
Proof.
  assert (request_ok RL_READER 20 5) as Hq by (split; [unfold range_valid; lia|done]). assert (has_room (cap := 100) ex_three) as Hroom by (apply ex_room; vm_compute; reflexivity).
  split; [exact Hq|]. split; [exact Hroom|].
  destruct (zfs_range_lock_grants ex_file ex_three 20 5 RL_READER ex_unlocked ex_reached Hq Hroom) as (zp' & new & cv & E & _). exists zp', new, cv. exact E.
Defined.

Lemma zfs_range_progress_witness : exists w e h r, w ∈ sy_wait ex_three /\ wt_cv w = Some (40, true) /\ z_rl (sy_zp ex_three) !! 40 = Some e /\ r_write_wanted e = true /\
  h ∈ sy_held ex_three /\ z_rl (sy_zp ex_three) !! h = Some r /\ r_off r <= r_off e /\ fin e <= fin r.
Proof.
  assert (mk_waiter 48 RL_WRITER 4 10 (Some (40, true)) ∈ sy_wait ex_three) as Hw by (rewrite ex_wait; left).
  destruct (proj1 (zfs_range_progress ex_file ex_three ex_unlocked ex_reached) _ (40, true) Hw eq_refl) as (e & h & r & Hall).
  exists (mk_waiter 48 RL_WRITER 4 10 (Some (40, true))), e, h, r. split; [exact Hw|]. split; [reflexivity|exact Hall].
Defined.
