(* ===== verification/VdevState.v ===== *)
(** * The state of virtual devices ([vdev.c])

    A pool's devices form a tree of leaves, mirrors, RAID-Z groups and the root.
    When the state of a device changes, [vdev_set_state] has the states of all
    devices above it worked out again from their children. *)
From Stdlib Require Import ZArith Lia.
From stdpp Require Import base numbers list option gmap.
From S2P Require Import Prelude.

Module VdevState.

(** ** Data *)

Definition STATE_OFFLINE : Z := 2.
Definition STATE_REMOVED : Z := 3.
Definition STATE_CANT_OPEN : Z := 4.
Definition STATE_FAULTED : Z := 5.
Definition STATE_DEGRADED : Z := 6.
Definition STATE_HEALTHY : Z := 7.

Inductive vdev_aux := AUX_NONE | AUX_OPEN_FAILED | AUX_CORRUPT_DATA | AUX_NO_REPLICAS | AUX_BAD_GUID_SUM | AUX_TOO_SMALL | AUX_BAD_LABEL
  | AUX_VERSION_NEWER | AUX_VERSION_OLDER | AUX_SPARED | AUX_ERR_EXCEEDED | AUX_IO_FAILURE | AUX_BAD_LOG.

#[export] Instance vdev_aux_eq : EqDecision vdev_aux.
Proof. solve_decision. Defined.

Definition aux_is (a b : vdev_aux) : bool := bool_decide (a = b).

(** The operations of a device, as far as its state goes: replacing and spare
    devices have those of mirrors. *)
Inductive vdev_optype := op_root | op_mirror | op_raidz (vdev_nparity : Z) | op_leaf.

Definition vdev_op_leaf (o : vdev_optype) : bool := match o with op_leaf => true | _ => false end.

(** [vd_aux] is [vdev_stat.vs_aux], the reason for the state; [vd_tsd] is
    false when the device is closed; a parent of 0 is none. *)
Record vdev_t := mk_vdev {
  vd_ops : vdev_optype;
  vd_parent : Z;
  vd_child : list Z;
  vd_state : Z;
  vd_prevstate : Z;
  vd_aux : vdev_aux;
  vd_islog : bool;
  vd_removed : bool;
  vd_not_present : bool;
  vd_checkremove : bool;
  vd_forcefault : bool;
  vd_tsd : bool
}.

Inductive ereport_class := DEVICE_OPEN_FAILED | DEVICE_CORRUPT_DATA | DEVICE_NO_REPLICAS | DEVICE_BAD_GUID_SUM | DEVICE_TOO_SMALL | DEVICE_BAD_LABEL | DEVICE_UNKNOWN.

(** [zfs_ereport_post] and [zfs_post_remove]. *)
Inductive report := ereport (class : ereport_class) (vd save_state : Z) | post_remove (vd : Z).

Record pool := mk_pool {
  p_vdev : gmap Z vdev_t;
  p_root : Z;
  p_load_import : bool;
  p_import_faulted : bool;
  p_posts : list report
}.

Definition set_vdev (p : pool) (vd : Z) (d : vdev_t) : pool :=
  mk_pool (<[vd := d]> (p_vdev p)) (p_root p) (p_load_import p) (p_import_faulted p) (p_posts p).
Definition add_post (p : pool) (r : report) : pool :=
  mk_pool (p_vdev p) (p_root p) (p_load_import p) (p_import_faulted p) (p_posts p ++ [r]).

Definition with_state (d : vdev_t) (state : Z) (aux : vdev_aux) : vdev_t :=
  mk_vdev (vd_ops d) (vd_parent d) (vd_child d) state (vd_prevstate d) aux (vd_islog d) (vd_removed d) (vd_not_present d) (vd_checkremove d) (vd_forcefault d) (vd_tsd d).
Definition with_removed (d : vdev_t) (removed : bool) : vdev_t :=
  mk_vdev (vd_ops d) (vd_parent d) (vd_child d) (vd_state d) (vd_prevstate d) (vd_aux d) (vd_islog d) removed (vd_not_present d) (vd_checkremove d) (vd_forcefault d) (vd_tsd d).
Definition with_not_present (d : vdev_t) : vdev_t :=
  mk_vdev (vd_ops d) (vd_parent d) (vd_child d) (vd_state d) (vd_prevstate d) (vd_aux d) (vd_islog d) (vd_removed d) true (vd_checkremove d) (vd_forcefault d) (vd_tsd d).
Definition closed (d : vdev_t) : vdev_t :=
  mk_vdev (vd_ops d) (vd_parent d) (vd_child d) (vd_state d) (vd_prevstate d) (vd_aux d) (vd_islog d) (vd_removed d) (vd_not_present d) (vd_checkremove d) (vd_forcefault d) false.

(** ** Operations *)

Definition is_dead (d : vdev_t) : bool := (vd_state d <? STATE_DEGRADED) && negb (aux_is (vd_aux d) AUX_IO_FAILURE).
Definition readable (d : vdev_t) : bool := negb (is_dead d).

(** What [vdev_op_state_change] asks [vdev_set_state] for. *)
Definition too_many_errors (children : nat) (numerrors : Z) : option bool :=
  VERIFY numerrors <=? Z.of_nat children in Some (0 <? numerrors).
Definition vdev_root_state_change (children : nat) (faulted degraded : Z) : option (Z * vdev_aux) :=
  let* lost := too_many_errors children faulted in
  Some (if (lost : bool) then (STATE_CANT_OPEN, AUX_NO_REPLICAS) else if negb (degraded =? 0) then (STATE_DEGRADED, AUX_NONE) else (STATE_HEALTHY, AUX_NONE)).
Definition vdev_mirror_state_change (children : nat) (faulted degraded : Z) : Z * vdev_aux :=
  if faulted =? Z.of_nat children then (STATE_CANT_OPEN, AUX_NO_REPLICAS)
  else if negb (degraded + faulted =? 0) then (STATE_DEGRADED, AUX_NONE) else (STATE_HEALTHY, AUX_NONE).
Definition vdev_raidz_state_change (nparity faulted degraded : Z) : Z * vdev_aux :=
  if nparity <? faulted then (STATE_CANT_OPEN, AUX_NO_REPLICAS)
  else if negb (degraded + faulted =? 0) then (STATE_DEGRADED, AUX_NONE) else (STATE_HEALTHY, AUX_NONE).
Definition state_change (d : vdev_t) (faulted degraded : Z) : option (Z * vdev_aux) :=
  match vd_ops d with
  | op_root => vdev_root_state_change (length (vd_child d)) faulted degraded
  | op_mirror => Some (vdev_mirror_state_change (length (vd_child d)) faulted degraded)
  | op_raidz nparity => Some (vdev_raidz_state_change nparity faulted degraded)
  | op_leaf => None
  end.

(** The children that are lost, and those that are degraded, and those with
    corrupt data. *)
Definition count_child (root : bool) (n : Z * Z * Z) (c : vdev_t) : Z * Z * Z :=
  let '(faulted, degraded, corrupted) := n in
  let '(faulted, degraded) :=
    if (is_dead c && negb (readable c)) || aux_is (vd_aux c) AUX_IO_FAILURE then
      if vd_islog c && root then (faulted, degraded + 1) else (faulted + 1, degraded)
    else if vd_state c <=? STATE_DEGRADED then (faulted, degraded + 1) else (faulted, degraded) in
  (faulted, degraded, if aux_is (vd_aux c) AUX_CORRUPT_DATA then corrupted + 1 else corrupted).

Definition count_children (m : gmap Z vdev_t) (root : bool) (children : list Z) : option (Z * Z * Z) :=
  foldM (fun n c => let* d := m !! c in Some (count_child root n d)) (0, 0, 0) children.

Definition aux_class (aux : vdev_aux) : ereport_class :=
  match aux with
  | AUX_OPEN_FAILED => DEVICE_OPEN_FAILED
  | AUX_CORRUPT_DATA => DEVICE_CORRUPT_DATA
  | AUX_NO_REPLICAS => DEVICE_NO_REPLICAS
  | AUX_BAD_GUID_SUM => DEVICE_BAD_GUID_SUM
  | AUX_TOO_SMALL => DEVICE_TOO_SMALL
  | AUX_BAD_LABEL => DEVICE_BAD_LABEL
  | _ => DEVICE_UNKNOWN
  end.

(** What [vdev_set_state] does to the device itself when the state changes. *)
Definition apply_state (p : pool) (vd : Z) (d : vdev_t) (state : Z) (aux : vdev_aux) : pool :=
  let save_state := vd_state d in
  let d := with_state d state aux in
  let d := if negb (readable d) && vdev_op_leaf (vd_ops d) then closed d else d in
  if vd_removed d && (state =? STATE_CANT_OPEN) && (aux_is aux AUX_OPEN_FAILED || vd_checkremove d) then
    set_vdev p vd (with_state d STATE_REMOVED AUX_NONE)
  else if state =? STATE_REMOVED then set_vdev (add_post p (post_remove vd)) vd (with_removed d true)
  else if state =? STATE_CANT_OPEN then
    let d := if p_load_import p && negb (p_import_faulted p) && vdev_op_leaf (vd_ops d) then with_not_present d else d in
    let p :=
      if (negb (vd_prevstate d =? state) || vd_forcefault d) && negb (vd_not_present d) && negb (vd_checkremove d) && negb (vd =? p_root p) then
        add_post p (ereport (aux_class aux) vd save_state)
      else p in
    set_vdev p vd (with_removed d false)
  else set_vdev p vd (with_removed d false).

(** [vdev_propagate_state] and [vdev_set_state] call each other. *)
Fixpoint vdev_propagate_state (k : nat) (p : pool) (vd : Z) {struct k} : option pool :=
  match k with
  | O => None
  | S k =>
      let* d := p_vdev p !! vd in
      let* p :=
        if (0 <? Z.of_nat (length (vd_child d))) then
          let* (faulted, degraded, corrupted) := count_children (p_vdev p) (vd =? p_root p) (vd_child d) in
          let* (state, aux) := state_change d faulted degraded in
          let* p := vdev_set_state k p vd false state aux in
          if negb (corrupted =? 0) && (vd =? p_root p) then
            let* r := p_vdev p !! p_root p in
            if vd_state r =? STATE_CANT_OPEN then vdev_set_state k p (p_root p) false STATE_CANT_OPEN AUX_CORRUPT_DATA else Some p
          else Some p
        else Some p in
      if negb (vd_parent d =? 0) then vdev_propagate_state k p (vd_parent d) else Some p
  end
with vdev_set_state (k : nat) (p : pool) (vd : Z) (isopen : bool) (state : Z) (aux : vdev_aux) {struct k} : option pool :=
  match k with
  | O => None
  | S k =>
      let* d := p_vdev p !! vd in
      if state =? vd_state d then Some (set_vdev p vd (with_state d (vd_state d) aux))
      else
        let p := apply_state p vd d state aux in
        if negb isopen then vdev_propagate_state k p vd else Some p
  end.

(** Three calls for each device on the way up. *)
Definition state_fuel (p : pool) : nat := 3 * S (size (p_vdev p)) + 1.

End VdevState.

