(* ===== verification/VdevStateTree.v ===== *)
(** * The tree of virtual devices

    The shape of a pool's devices: parents and children agree, and from every
    device a path leads up to the root.  No state change touches the shape. *)
From Stdlib Require Import ZArith Lia.
From stdpp Require Import base numbers list option gmap.
From S2P Require Import Prelude VdevState.
Import VdevState.

Implicit Types (m : gmap Z vdev_t) (d : vdev_t) (v w root : Z).

(** [up m v l]: [l] are the devices from [v] up to the root. *)
Inductive up m : Z -> list Z -> Prop :=
  | up_top v d : m !! v = Some d -> vd_parent d = 0 -> up m v [v]
  | up_step v d l : m !! v = Some d -> vd_parent d <> 0 -> up m (vd_parent d) l -> up m v (v :: l).

Record vdev_ok root m v d : Prop := {
  ok_nonnull : v <> 0;
  ok_top : vd_parent d = 0 <-> v = root;
  ok_root : vd_ops d = op_root <-> v = root;
  ok_leaf : vdev_op_leaf (vd_ops d) = true <-> vd_child d = [];
  ok_removed : vdev_op_leaf (vd_ops d) = false -> vd_removed d = false;
  ok_parity : forall n, vd_ops d = op_raidz n -> 0 <= n;
  ok_child : forall c, c ∈ vd_child d -> exists dc, m !! c = Some dc /\ vd_parent dc = v;
  ok_up : exists l, up m v l
}.

(** A well-formed pool. *)
Definition tree_ok root m : Prop := forall v d, m !! v = Some d -> vdev_ok root m v d.

(** A change of everything but the shape. *)
Definition same_shape d d' : Prop :=
  vd_ops d' = vd_ops d /\ vd_parent d' = vd_parent d /\ vd_child d' = vd_child d /\
  (vdev_op_leaf (vd_ops d) = false -> vd_removed d = false -> vd_removed d' = false).

Lemma shape_state d s a : same_shape d (with_state d s a).
Proof. done. Qed.

Lemma up_inv m v l : up m v l -> exists l', l = v :: l'.
Proof. destruct 1; eauto. Qed.
Lemma up_lookup m v l : up m v l -> is_Some (m !! v).
Proof. destruct 1; eauto. Qed.

Lemma up_fun m v l l' : up m v l -> up m v l' -> l = l'.
Proof.
  intros H. revert l'. induction H as [v d Hd Hp|v d l Hd Hp _ IH]; intros l' H'; inversion H'; simplify_eq; try done.
  f_equal. by apply IH.
Qed.

(** The devices on the path have the rest of it as their own. *)
Lemma up_in m v l w : up m v l -> w ∈ l -> exists l', up m w l' /\ l' `suffix_of` l.
Proof.
  induction 1 as [v d Hd Hp|v d l Hd Hp Hl IH]; intros Hw.
  - apply list_elem_of_singleton in Hw as ->. exists [v]. split; [by eapply up_top|done].
  - apply elem_of_cons in Hw as [->|Hw]; [exists (v :: l); split; [by eapply up_step|done]|].
    destruct (IH Hw) as (l' & ? & ?). exists l'. split; [done|]. by apply suffix_cons_r.
Qed.

Lemma up_acyclic m v l : up m v (v :: l) -> v ∉ l.
Proof.
  intros H Hv. inversion H as [|? d ? Hd Hp Hl]; simplify_eq; [by apply not_elem_of_nil in Hv|].
  destruct (up_in _ _ _ _ Hl Hv) as (l' & Hl' & Hs%suffix_length).
  rewrite (up_fun _ _ _ _ Hl' H) in Hs. cbn in Hs. lia.
Qed.

Lemma up_nodup m v l : up m v l -> NoDup l.
Proof.
  induction 1 as [v d Hd Hp|v d l Hd Hp Hl IH]; [apply NoDup_singleton|].
  apply NoDup_cons. split; [|done]. eapply up_acyclic, up_step; eauto.
Qed.

(** A path is no longer than there are devices. *)
Lemma up_length m v l : up m v l -> (length l <= size m)%nat.
Proof.
  intros H. rewrite <- (size_dom m), <- (size_list_to_set (C := gset Z) l) by (by eapply up_nodup).
  apply subseteq_size. intros w Hw%elem_of_list_to_set. apply elem_of_dom.
  destruct (up_in _ _ _ _ H Hw) as (l' & Hl' & _). by eapply up_lookup.
Qed.

(** With a device, its parent is on the path. *)
Lemma up_closed m v l w d : up m v l -> w ∈ l -> m !! w = Some d -> vd_parent d <> 0 -> vd_parent d ∈ l.
Proof.
  intros H Hw Hd Hp. destruct (up_in _ _ _ _ H Hw) as (l' & Hl' & [k ->]).
  inversion Hl' as [|? d' l1 Hd' Hp' Hl1]; simplify_eq.
  destruct (up_inv _ _ _ Hl1) as [l2 ->]. set_solver.
Qed.

Lemma up_shape m x d d' v l : m !! x = Some d -> same_shape d d' -> up m v l -> up (<[x := d']> m) v l.
Proof.
  intros Hx (_ & Hpar & _). induction 1 as [v e He Hp|v e l He Hp Hl IH].
  - destruct (decide (v = x)) as [->|]; simplify_eq; [eapply (up_top _ _ d')|eapply (up_top _ _ e)]; simplify_map_eq; congruence.
  - destruct (decide (v = x)) as [->|]; simplify_eq.
    + eapply (up_step _ _ d'); [by simplify_map_eq| |]; by rewrite Hpar.
    + eapply (up_step _ _ e); [by simplify_map_eq|done|done].
Qed.

Lemma tree_shape root m x d d' : tree_ok root m -> m !! x = Some d -> same_shape d d' -> tree_ok root (<[x := d']> m).
Proof.
  intros Ht Hx Hs v e He. pose proof Hs as (Hops & Hpar & Hch & Hrem).
  assert (exists e0, m !! v = Some e0 /\ same_shape e0 e) as (e0 & He0 & Hops0 & Hpar0 & Hch0 & Hrem0).
  { destruct (decide (v = x)) as [->|]; simplify_map_eq; eauto. exists e. split; [done|]. by split_and!. }
  destruct (Ht v e0 He0) as [? ? ? ? ? ? Hc [l Hl]].
  split; rewrite ?Hops0, ?Hpar0, ?Hch0; try done; [auto| |].
  - intros c Hcin. destruct (Hc c Hcin) as (dc & Hdc & <-).
    destruct (decide (c = x)) as [->|]; simplify_map_eq; eauto.
  - exists l. by eapply up_shape.
Qed.

(** No device on the path above [v], nor [v], is a child of [v]. *)
Lemma child_not_up root m v d l c : tree_ok root m -> m !! v = Some d -> up m v l -> c ∈ vd_child d -> c ∉ l.
Proof.
  intros Ht Hd Hl Hc Hin. destruct (ok_child _ _ _ _ (Ht v d Hd) c Hc) as (dc & Hdc & Hp).
  pose proof (ok_nonnull _ _ _ _ (Ht v d Hd)) as Hv.
  assert (up m c (c :: l)) as Hcl by (eapply up_step; [done|by rewrite Hp|by rewrite Hp]).
  destruct (up_in _ _ _ _ Hl Hin) as (l' & Hl' & Hs%suffix_length).
  rewrite (up_fun _ _ _ _ Hl' Hcl) in Hs. cbn in Hs. lia.
Qed.

Lemma not_own_child root m v d : tree_ok root m -> m !! v = Some d -> v ∉ vd_child d.
Proof.
  intros Ht Hd Hc. destruct (ok_up _ _ _ _ (Ht v d Hd)) as [l Hl].
  apply (child_not_up _ _ _ _ _ _ Ht Hd Hl Hc). destruct (up_inv _ _ _ Hl) as [? ->]. by left.
Qed.
