(* ===== verification/VdevStateProof.v ===== *)
(** * Propagating a state change

    [vdev_propagate_state] settles every device from the given one up to the
    root: each gets the state that its children call for. *)
From Stdlib Require Import ZArith Lia.
From stdpp Require Import base numbers list option gmap.
From S2P Require Import Prelude VdevState VdevStateTree.
Import VdevState.

Implicit Types (m : gmap Z vdev_t) (d : vdev_t) (v w root : Z) (p : pool).

(** The state and the reason that the children of a device call for. *)
Definition derived root m v d : option (Z * vdev_aux) :=
  let* (faulted, degraded, corrupted) := count_children m (v =? root) (vd_child d) in
  let* (state, aux) := state_change d faulted degraded in
  Some (state, if negb (corrupted =? 0) && (v =? root) && (state =? STATE_CANT_OPEN) then AUX_CORRUPT_DATA else aux).

Definition consistent root m v : Prop :=
  forall d, m !! v = Some d -> vd_child d <> [] -> derived root m v d = Some (vd_state d, vd_aux d).

Definition pool_consistent p : Prop := forall v, consistent (p_root p) (p_vdev p) v.

Definition recompute root m v : gmap Z vdev_t :=
  match m !! v with
  | Some d =>
      if bool_decide (vd_child d = []) then m
      else match derived root m v d with Some (state, aux) => <[v := with_state d state aux]> m | None => m end
  | None => m
  end.
Definition settle root m (l : list Z) : gmap Z vdev_t := foldl (recompute root) m l.

(** ** Counting *)

Lemma count_ext m m' (root : bool) cs : (forall c, c ∈ cs -> m' !! c = m !! c) -> count_children m' root cs = count_children m root cs.
Proof.
  unfold count_children. generalize (0, 0, 0). induction cs as [|c cs IH]; intros n H; [done|].
  cbn [foldM]. rewrite (H c) by set_solver. destruct (m !! c); [|done]. cbn. apply IH. set_solver.
Qed.

Lemma derived_ext root m m' v d : (forall c, c ∈ vd_child d -> m' !! c = m !! c) -> derived root m' v d = derived root m v d.
Proof. intros H. unfold derived. by rewrite (count_ext m) by done. Qed.

Lemma derived_insert root m v d x d' : x ∉ vd_child d -> derived root (<[x := d']> m) v d = derived root m v d.
Proof. intros Hx. apply derived_ext. intros c Hc. rewrite lookup_insert_ne; [done|]. by intros ->. Qed.

Lemma derived_state root m v d s a : derived root m v (with_state d s a) = derived root m v d.
Proof. done. Qed.

(** A count over all children gives results: at most as many as there are
    children are lost. *)
Lemma count_total m (root : bool) cs : (forall c, c ∈ cs -> is_Some (m !! c)) -> forall f0 g0 c0,
  exists f g c, foldM (fun n c => let* d := m !! c in Some (count_child root n d)) (f0, g0, c0) cs = Some (f, g, c) /\
    f0 <= f <= f0 + Z.of_nat (length cs) /\ g0 <= g.
Proof.
  induction cs as [|x cs IH]; intros H f0 g0 c0; [exists f0, g0, c0; split; [done|cbn; lia]|].
  destruct (H x) as [d Hd]; [by left|]. cbn [foldM]. rewrite Hd. cbn [mbind option_bind].
  destruct (count_child root (f0, g0, c0) d) as [[f1 g1] c1] eqn:E.
  assert (f0 <= f1 <= f0 + 1 /\ g0 <= g1) by (unfold count_child in E; repeat case_match; simplify_eq; lia).
  destruct (IH ltac:(set_solver) f1 g1 c1) as (f & g & c & -> & ? & ?). exists f, g, c. split; [done|]. cbn [length]. lia.
Qed.

Lemma count_children_total root m v d : tree_ok root m -> m !! v = Some d -> exists f g c,
  count_children m (v =? root) (vd_child d) = Some (f, g, c) /\ 0 <= f <= Z.of_nat (length (vd_child d)) /\ 0 <= g.
Proof.
  intros Ht Hd. apply count_total. intros c Hc. destruct (ok_child _ _ _ _ (Ht v d Hd) c Hc) as (? & -> & _). eauto.
Qed.

Definition is_target (s : Z) : Prop := s = STATE_CANT_OPEN \/ s = STATE_DEGRADED \/ s = STATE_HEALTHY.

Lemma state_change_total d f g : vd_ops d <> op_leaf -> 0 <= f <= Z.of_nat (length (vd_child d)) ->
  exists s a, state_change d f g = Some (s, a) /\ is_target s.
Proof.
  intros Hl Hf. unfold state_change. destruct (vd_ops d) as [| |n|]; [| | |done].
  - unfold vdev_root_state_change, too_many_errors. rewrite (proj2 (Z.leb_le f _)) by lia. cbn [mbind option_bind].
    destruct (0 <? f); [|destruct (negb _)]; eexists _, _; split; try done; unfold is_target; tauto.
  - unfold vdev_mirror_state_change. destruct (f =? _); [|destruct (negb _)]; eexists _, _; split; try done; unfold is_target; tauto.
  - unfold vdev_raidz_state_change. destruct (n <? f); [|destruct (negb _)]; eexists _, _; split; try done; unfold is_target; tauto.
Qed.

Lemma interior_not_leaf root m v d : tree_ok root m -> m !! v = Some d -> vd_child d <> [] -> vd_ops d <> op_leaf /\ vdev_op_leaf (vd_ops d) = false.
Proof.
  intros Ht Hd Hc. pose proof (ok_leaf _ _ _ _ (Ht v d Hd)) as Hl. destruct (vd_ops d); cbn in *; try done. exfalso. by apply Hc, Hl.
Qed.

(** ** Settling *)

Lemma recompute_spec root m v d : tree_ok root m -> m !! v = Some d -> exists d', recompute root m v = <[v := d']> m /\ same_shape d d'.
Proof.
  intros Ht Hd. unfold recompute. rewrite Hd. case_bool_decide; [exists d; by rewrite insert_id|].
  destruct (derived root m v d) as [[s a]|]; [|exists d; by rewrite insert_id]. by exists (with_state d s a).
Qed.

Lemma recompute_consistent_id root m v : consistent root m v -> recompute root m v = m.
Proof.
  unfold recompute, consistent. destruct (m !! v) as [d|] eqn:E; [|done]. intros H. case_bool_decide; [done|].
  rewrite (H d eq_refl) by done. rewrite insert_id; [done|]. by destruct d.
Qed.

Lemma recompute_consistent root m v : tree_ok root m -> consistent root (recompute root m v) v.
Proof.
  intros Ht e. unfold recompute. destruct (m !! v) as [d|] eqn:Hd; [|by rewrite Hd].
  case_bool_decide as Hc; [rewrite Hd; by intros [= <-] ?|]. pose proof (interior_not_leaf _ _ _ _ Ht Hd Hc) as [Hl _].
  destruct (derived root m v d) as [[s a]|] eqn:E.
  - rewrite lookup_insert_eq. intros [= <-] _. rewrite derived_state, derived_insert by (by eapply not_own_child). exact E.
  - destruct (count_children_total _ _ _ _ Ht Hd) as (f & g & c & Hn & Hf & _). unfold derived in E. rewrite Hn in E. cbn in E.
    destruct (state_change_total d f g Hl Hf) as (s & a & Hs & _). by rewrite Hs in E.
Qed.

Lemma tree_recompute root m v d : tree_ok root m -> m !! v = Some d -> tree_ok root (recompute root m v).
Proof. intros Ht Hd. destruct (recompute_spec _ _ _ _ Ht Hd) as (d' & -> & Hs). by eapply tree_shape. Qed.

Lemma up_recompute root m v d w l : tree_ok root m -> m !! v = Some d -> up m w l -> up (recompute root m v) w l.
Proof. intros Ht Hd Hl. destruct (recompute_spec _ _ _ _ Ht Hd) as (d' & -> & Hs). by eapply up_shape. Qed.

Lemma recompute_other root m v w : w <> v -> recompute root m v !! w = m !! w.
Proof. intros. unfold recompute. repeat case_match; simplify_map_eq; done. Qed.

Lemma settle_other root l w : w ∉ l -> forall m, settle root m l !! w = m !! w.
Proof.
  induction l as [|v l IH]; intros Hw m; [done|]. cbn. unfold settle in IH. rewrite IH by set_solver.
  apply recompute_other. set_solver.
Qed.

(** The path of a device starts with it, and goes on with that of its parent. *)
Lemma up_tail m v d l : up m v (v :: l) -> m !! v = Some d -> vd_parent d = 0 /\ l = [] \/ vd_parent d <> 0 /\ up m (vd_parent d) l.
Proof. intros H Hd. inversion H; simplify_eq; eauto. Qed.

Lemma settle_ok root l : forall m v, tree_ok root m -> up m v l ->
  tree_ok root (settle root m l) /\ (forall w, w ∈ l -> consistent root (settle root m l) w) /\ (forall w k, up m w k -> up (settle root m l) w k).
Proof.
  induction l as [|x l IH]; intros m v Ht Hl; [inversion Hl|].
  destruct (up_inv _ _ _ Hl) as [? [= -> <-]]. destruct (up_lookup _ _ _ Hl) as [d Hd].
  pose proof (tree_recompute root m v d Ht Hd) as Ht1. change (settle root m (v :: l)) with (settle root (recompute root m v) l).
  assert (tree_ok root (settle root (recompute root m v) l) /\ (forall w, w ∈ l -> consistent root (settle root (recompute root m v) l) w) /\
    (forall w k, up m w k -> up (settle root (recompute root m v) l) w k)) as (Ht2 & Hc2 & Hup2).
  { destruct (up_tail _ _ _ _ Hl Hd) as [[_ ->]|[_ Hp]].
    - split_and!; [done|set_solver|]. intros. by eapply up_recompute.
    - destruct (IH _ _ Ht1 (up_recompute _ _ _ _ _ _ Ht Hd Hp)) as (? & ? & Hu). split_and!; [done..|].
      intros. by eapply Hu, up_recompute. }
  split_and!; [done| |done]. intros w [->|Hw]%elem_of_cons; [|by apply Hc2].
  intros e He Hne. rewrite settle_other in He by (by eapply up_acyclic).
  rewrite (derived_ext _ (recompute root m v)).
  - by apply (recompute_consistent root m v Ht).
  - intros c Hc. apply settle_other. destruct (recompute_spec root m v d Ht Hd) as (d' & E & _ & _ & Hch & _).
    rewrite E, lookup_insert_eq in He. simplify_eq. rewrite Hch in Hc.
    pose proof (child_not_up _ _ _ _ _ _ Ht Hd Hl Hc). set_solver.
Qed.

Lemma settle_id root m l : (forall w, w ∈ l -> consistent root m w) -> settle root m l = m.
Proof.
  induction l as [|v l IH]; intros H; [done|]. cbn. rewrite recompute_consistent_id by (apply H; by left).
  apply IH. intros w Hw. apply H. by right.
Qed.

(** ** The code settles the path *)

Definition same_pool p p' : Prop :=
  p_root p' = p_root p /\ p_load_import p' = p_load_import p /\ p_import_faulted p' = p_import_faulted p.

Definition settles (k : nat) p v (l : list Z) : Prop :=
  exists p', vdev_propagate_state k p v = Some p' /\ p_vdev p' = settle (p_root p) (p_vdev p) l /\ same_pool p p'.

(** The [vdev_propagate_state] of the parent, where there is one. *)
Definition propagate_parent (k : nat) p d : option pool :=
  if negb (vd_parent d =? 0) then vdev_propagate_state k p (vd_parent d) else Some p.

(** The end of the work on a device's own state: the root's special case. *)
Definition root_special (k : nat) p v (corrupted : Z) : option pool :=
  if negb (corrupted =? 0) && (v =? p_root p) then
    let* r := p_vdev p !! p_root p in
    if vd_state r =? STATE_CANT_OPEN then vdev_set_state k p (p_root p) false STATE_CANT_OPEN AUX_CORRUPT_DATA else Some p
  else Some p.

Lemma propagate_leaf k p v d : p_vdev p !! v = Some d -> vd_child d = [] -> vdev_propagate_state (S k) p v = propagate_parent k p d.
Proof. intros Hd Hc. cbn [vdev_propagate_state]. rewrite Hd. cbn [mbind option_bind]. by rewrite Hc. Qed.

Lemma propagate_interior k p v d f g c s a : p_vdev p !! v = Some d -> vd_child d <> [] ->
  count_children (p_vdev p) (v =? p_root p) (vd_child d) = Some (f, g, c) -> state_change d f g = Some (s, a) ->
  vdev_propagate_state (S k) p v =
    let* p := vdev_set_state k p v false s a in
    let* p := root_special k p v c in
    propagate_parent k p d.
Proof.
  intros Hd Hc Hn Hs. cbn [vdev_propagate_state]. rewrite Hd. cbn [mbind option_bind].
  destruct (vd_child d) eqn:E; [done|]. rewrite <- E in *.
  rewrite (proj2 (Z.ltb_lt 0 _)) by (rewrite E; cbn; lia). rewrite Hn. cbn [mbind option_bind]. rewrite Hs. cbn [mbind option_bind].
  unfold root_special, propagate_parent. by destruct (vdev_set_state k p v false s a).
Qed.

Lemma set_same k p v d s a : p_vdev p !! v = Some d -> vd_state d = s ->
  vdev_set_state (S k) p v false s a = Some (set_vdev p v (with_state d s a)).
Proof. intros Hd <-. cbn [vdev_set_state]. rewrite Hd. cbn [mbind option_bind]. by rewrite Z.eqb_refl. Qed.

Lemma set_differs k p v d s a : p_vdev p !! v = Some d -> s <> vd_state d ->
  vdev_set_state (S k) p v false s a = vdev_propagate_state k (apply_state p v d s a) v.
Proof. intros Hd Hs. cbn [vdev_set_state]. rewrite Hd. cbn [mbind option_bind]. by rewrite (proj2 (Z.eqb_neq _ _) Hs). Qed.

Lemma apply_interior p v d s a : vdev_op_leaf (vd_ops d) = false -> vd_removed d = false -> is_target s ->
  p_vdev (apply_state p v d s a) = <[v := with_state d s a]> (p_vdev p) /\ same_pool p (apply_state p v d s a).
Proof.
  intros Hl Hr Hs. unfold apply_state. cbn [with_state vd_ops]. rewrite Hl, andb_false_r. cbn [with_state vd_removed]. rewrite Hr.
  assert (with_removed (with_state d s a) false = with_state d s a) as E by (destruct d; cbn in *; by subst).
  assert ((s =? STATE_REMOVED) = false) as -> by (destruct Hs as [-> | [-> | ->]]; done).
  cbn [vd_prevstate vd_forcefault vd_not_present vd_checkremove with_state vd_ops andb orb negb]. rewrite Hl, ?andb_false_r.
  destruct (s =? STATE_CANT_OPEN); rewrite E; [|done]. by destruct (_ && _).
Qed.

Lemma parent_settles k p p2 v d l : tree_ok (p_root p) (p_vdev p) -> up (p_vdev p) v (v :: l) -> p_vdev p !! v = Some d ->
  same_pool p p2 -> p_vdev p2 = recompute (p_root p) (p_vdev p) v ->
  (forall p1, tree_ok (p_root p1) (p_vdev p1) -> up (p_vdev p1) (vd_parent d) l -> settles k p1 (vd_parent d) l) ->
  exists p', propagate_parent k p2 d = Some p' /\ p_vdev p' = settle (p_root p) (p_vdev p) (v :: l) /\ same_pool p p'.
Proof.
  intros Ht Hl Hd Hsp Hm IH. unfold propagate_parent. destruct (up_tail _ _ _ _ Hl Hd) as [[Hp0 ->]|[Hp Hup]]; [exists p2; by rewrite Hp0|].
  rewrite (proj2 (Z.eqb_neq _ _) Hp). cbn [negb]. pose proof Hsp as (Hr & Hs1 & Hs2).
  destruct (IH p2) as (p' & -> & Hp' & Hr' & ? & ?).
  - rewrite Hr, Hm. by eapply tree_recompute.
  - rewrite Hm. by eapply up_recompute.
  - exists p'. split_and!; [done| |]. { by rewrite Hp', Hr, Hm. } split_and!; congruence.
Qed.

(** The root's special case on a device that has just got its state. *)
Lemma root_special_spec k p v d c : p_vdev p !! v = Some d ->
  let a := if negb (c =? 0) && (v =? p_root p) && (vd_state d =? STATE_CANT_OPEN) then AUX_CORRUPT_DATA else vd_aux d in
  exists p', root_special (S k) p v c = Some p' /\ p_vdev p' = <[v := with_state d (vd_state d) a]> (p_vdev p) /\ same_pool p p'.
Proof.
  intros Hd. unfold root_special. assert (with_state d (vd_state d) (vd_aux d) = d) as E by (by destruct d).
  destruct (negb (c =? 0) && (v =? p_root p)) eqn:Hc; cbn [andb]; [|exists p; by rewrite E, insert_id].
  apply andb_true_iff in Hc as [_ Hv%Z.eqb_eq]. rewrite <- Hv, Hd. cbn [mbind option_bind].
  destruct (vd_state d =? STATE_CANT_OPEN) eqn:Hs; [|exists p; by rewrite E, insert_id].
  apply Z.eqb_eq in Hs. rewrite (set_same _ _ _ d) by done. eexists. split; [done|]. by rewrite Hs.
Qed.

(** [vdev_propagate_state] of a device that already has the state its
    children call for, and perhaps another reason. *)
Lemma propagate_same k p v d l : tree_ok (p_root p) (p_vdev p) -> up (p_vdev p) v (v :: l) -> p_vdev p !! v = Some d ->
  (vd_child d <> [] -> exists a, derived (p_root p) (p_vdev p) v d = Some (vd_state d, a)) ->
  (forall p1, tree_ok (p_root p1) (p_vdev p1) -> up (p_vdev p1) (vd_parent d) l -> settles (S k) p1 (vd_parent d) l) ->
  settles (S (S k)) p v (v :: l).
Proof.
  intros Ht Hl Hd Hs IH. unfold settles. destruct (decide (vd_child d = [])) as [Hc|Hc].
  { rewrite (propagate_leaf _ _ _ d) by done. eapply parent_settles; eauto; [done|].
    unfold recompute. by rewrite Hd, bool_decide_eq_true_2. }
  destruct (Hs Hc) as [a Ha]. pose proof (interior_not_leaf _ _ _ _ Ht Hd Hc) as [Hnl _].
  destruct (count_children_total _ _ _ _ Ht Hd) as (f & g & c & Hn & Hf & _).
  destruct (state_change_total d f g Hnl Hf) as (s & a0 & Hsc & _).
  pose proof Ha as Ha'. unfold derived in Ha'. rewrite Hn in Ha'. cbn [mbind option_bind] in Ha'. rewrite Hsc in Ha'. cbn in Ha'. simplify_eq.
  rewrite (propagate_interior _ _ _ d f g c _ a0) by done. rewrite (set_same _ _ _ d) by done. cbn [mbind option_bind].
  destruct (root_special_spec k (set_vdev p v (with_state d (vd_state d) a0)) v (with_state d (vd_state d) a0) c) as (p2 & -> & Hm & Hsp).
  { cbn. by rewrite lookup_insert_eq. }
  cbn [mbind option_bind]. eapply parent_settles; eauto. rewrite Hm. unfold recompute. rewrite Hd, bool_decide_eq_false_2, Ha by done.
  cbn. by rewrite insert_insert_eq.
Qed.

Lemma recompute_overwrite root m v d s a : tree_ok root m -> m !! v = Some d -> vd_child d <> [] ->
  recompute root (<[v := with_state d s a]> m) v = recompute root m v.
Proof.
  intros Ht Hd Hc. unfold recompute. rewrite lookup_insert_eq, Hd. cbn [with_state vd_child]. rewrite bool_decide_eq_false_2 by done.
  rewrite (derived_state root _ v d s a), derived_insert by (by eapply not_own_child).
  pose proof (recompute_consistent root m v Ht) as H. unfold recompute in H. rewrite Hd, bool_decide_eq_false_2 in H by done.
  destruct (derived root m v d) as [[s' a']|] eqn:E; [by rewrite insert_insert_eq|]. pose proof (H d Hd Hc). congruence.
Qed.

(** A settled path stays as it is when the parents are looked at again. *)
Lemma parent_again k p v d l : p_vdev p !! v = Some d -> tree_ok (p_root p) (p_vdev p) -> up (p_vdev p) v (v :: l) ->
  (forall w, w ∈ l -> consistent (p_root p) (p_vdev p) w) ->
  (forall p1, tree_ok (p_root p1) (p_vdev p1) -> up (p_vdev p1) (vd_parent d) l -> settles k p1 (vd_parent d) l) ->
  exists p', propagate_parent k p d = Some p' /\ p_vdev p' = p_vdev p /\ same_pool p p'.
Proof.
  intros Hd Ht Hl Hc IH. unfold propagate_parent. destruct (up_tail _ _ _ _ Hl Hd) as [[Hp0 ->]|[Hp Hup]]; [exists p; by rewrite Hp0|].
  rewrite (proj2 (Z.eqb_neq _ _) Hp). cbn [negb]. destruct (IH p Ht Hup) as (p' & -> & Hm & Hsp).
  exists p'. split_and!; [done| |done..]. by rewrite Hm, settle_id.
Qed.

Lemma same_pool_trans p1 p2 p3 : same_pool p1 p2 -> same_pool p2 p3 -> same_pool p1 p3.
Proof. unfold same_pool. intros (?&?&?) (?&?&?). split_and!; congruence. Qed.

(** A device whose state changes is looked at a second time, on the way back
    from [vdev_set_state]. *)
Lemma propagate_differs k p v d l s a : tree_ok (p_root p) (p_vdev p) -> up (p_vdev p) v (v :: l) -> p_vdev p !! v = Some d ->
  vd_child d <> [] -> derived (p_root p) (p_vdev p) v d = Some (s, a) -> s <> vd_state d ->
  (forall p1 k1, (S k <= k1)%nat -> tree_ok (p_root p1) (p_vdev p1) -> up (p_vdev p1) (vd_parent d) l -> settles k1 p1 (vd_parent d) l) ->
  settles (S (S (S (S k)))) p v (v :: l).
Proof.
  intros Ht Hl Hd Hc Ha Hne IH. pose proof (interior_not_leaf _ _ _ _ Ht Hd Hc) as [Hnl Hnl'].
  destruct (count_children_total _ _ _ _ Ht Hd) as (f & g & c & Hn & Hf & _).
  destruct (state_change_total d f g Hnl Hf) as (s0 & a0 & Hsc & Hst).
  pose proof Ha as Ha'. unfold derived in Ha'. rewrite Hn in Ha'. cbn [mbind option_bind] in Ha'. rewrite Hsc in Ha'. cbn [mbind option_bind] in Ha'. injection Ha' as -> Ea.
  unfold settles. rewrite (propagate_interior _ _ _ d f g c s a0) by done. rewrite (set_differs _ _ _ d) by done.
  destruct (apply_interior p v d s a0 Hnl' (ok_removed _ _ _ _ (Ht v d Hd) Hnl') Hst) as [Hm1 Hsp1].
  set (p1 := apply_state p v d s a0) in *. pose proof Hsp1 as (Hr1 & _).
  destruct (propagate_same k p1 v (with_state d s a0) l) as (p2 & -> & Hm2 & Hsp2); rewrite ?Hr1, ?Hm1.
  { by eapply tree_shape. } { by eapply up_shape. } { by rewrite lookup_insert_eq. }
  { intros _. exists a. rewrite derived_state, derived_insert by (by eapply not_own_child). done. }
  { intros. by apply IH. }
  rewrite Hr1, Hm1 in Hm2. cbn [settle foldl] in Hm2. rewrite recompute_overwrite in Hm2 by done.
  change (p_vdev p2 = settle (p_root p) (p_vdev p) (v :: l)) in Hm2.
  destruct (settle_ok _ _ _ _ Ht Hl) as (Ht2 & Hc2 & Hu2). pose proof (same_pool_trans _ _ _ Hsp1 Hsp2) as Hsp. pose proof Hsp as (Hr2 & _).
  assert (p_vdev p2 !! v = Some (with_state d s a)) as Hd2.
  { rewrite Hm2. cbn. pose proof (settle_other (p_root p) l v) as E. unfold settle in E. rewrite E by (by eapply up_acyclic).
    unfold recompute. rewrite Hd, bool_decide_eq_false_2, Ha by done. by rewrite lookup_insert_eq. }
  cbn [mbind option_bind].
  destruct (root_special_spec (S (S k)) p2 v _ c Hd2) as (p3 & -> & Hm3 & Hsp3).
  assert (p_vdev p3 = p_vdev p2) as E3.
  { rewrite Hm3. apply insert_id. rewrite Hd2. cbn. f_equal. rewrite Hr2. rewrite <- Ea. by destruct (negb _ && _ && _). }
  pose proof (same_pool_trans _ _ _ Hsp Hsp3) as Hsp'. pose proof Hsp' as (Hr3 & _). cbn [mbind option_bind].
  destruct (parent_again (S (S (S k))) p3 v (with_state d s a) l) as (p' & E & Hm' & Hspp); rewrite ?E3, ?Hr3, ?Hm2; auto.
  { by rewrite <- Hm2. } { intros w Hw. apply Hc2. by right. }
  exists p'. change (propagate_parent (S (S (S k))) p3 d) with (propagate_parent (S (S (S k))) p3 (with_state d s a)).
  split_and!; [done|congruence|]. by eapply same_pool_trans.
Qed.

(** Three calls for each device on the path are enough. *)
Lemma propagate_spec l : forall p v k, tree_ok (p_root p) (p_vdev p) -> up (p_vdev p) v l -> (3 * length l + 1 <= k)%nat -> settles k p v l.
Proof.
  induction l as [|x l IH]; intros p v k Ht Hl Hk; [inversion Hl|].
  destruct (up_inv _ _ _ Hl) as [? [= -> <-]]. destruct (up_lookup _ _ _ Hl) as [d Hd]. cbn [length] in Hk.
  destruct k as [|[|[|[|k]]]]; [lia..|].
  destruct (decide (vd_child d = [])) as [Hc|Hc]; [|destruct (derived (p_root p) (p_vdev p) v d) as [[s a]|] eqn:Ha;
    [destruct (decide (s = vd_state d)) as [->|Hs]|]].
  - eapply propagate_same; eauto; [done|]. intros. apply IH; [done..|lia].
  - eapply propagate_same; eauto. intros. apply IH; [done..|lia].
  - eapply propagate_differs; eauto. intros. apply IH; [done..|lia].
  - pose proof (recompute_consistent _ _ v Ht) as H. unfold recompute in H. rewrite Hd, bool_decide_eq_false_2, Ha in H by done.
    pose proof (H d Hd Hc). congruence.
Qed.
