(* ===== verification/VdevStateSpec.v ===== *)
(** * What the states of a pool mean

    After a device has changed its state, every device above it has the state
    that follows from the leaves below: it is lost when too many of them are,
    healthy when all of them are, and degraded otherwise. *)
From Stdlib Require Import ZArith Lia ZifyBool.
From stdpp Require Import base numbers list option gmap.
From S2P Require Import Prelude VdevState VdevStateTree VdevStateProof.
Import VdevState.

Implicit Types (m : gmap Z vdev_t) (d : vdev_t) (v w root : Z) (p : pool) (P : vdev_t -> bool).

(** ** The specification *)

(** A device that cannot be used, and one without any defect. *)
Definition faulty d : bool := (vd_state d <? STATE_DEGRADED) || aux_is (vd_aux d) AUX_IO_FAILURE.
Definition healthy d : bool := negb (faulty d) && (STATE_DEGRADED <? vd_state d).

Definition at_vdev m P v : bool := match m !! v with Some d => P d | None => false end.
Definition tally (f : Z -> bool) (cs : list Z) : Z := Z.of_nat (length (List.filter f cs)).

(** A mirror needs one of its children, a RAID-Z group all but as many as it
    has parity devices; the pool needs all top-level devices except logs. *)
Fixpoint lost (k : nat) m v : bool :=
  match k with
  | O => false
  | S k =>
      match m !! v with
      | Some d =>
          match vd_ops d with
          | op_leaf => faulty d
          | op_mirror => forallb (lost k m) (vd_child d)
          | op_raidz nparity => nparity <? tally (lost k m) (vd_child d)
          | op_root => existsb (fun c => lost k m c && negb (at_vdev m vd_islog c)) (vd_child d)
          end
      | None => false
      end
  end.

Fixpoint fine (k : nat) m v : bool :=
  match k with
  | O => false
  | S k =>
      match m !! v with
      | Some d => if vdev_op_leaf (vd_ops d) then healthy d else forallb (fine k m) (vd_child d)
      | None => false
      end
  end.

(** The state of a device as the leaves below have it. *)
Definition verdict m v : Z :=
  if lost (size m) m v then STATE_CANT_OPEN else if fine (size m) m v then STATE_HEALTHY else STATE_DEGRADED.

(** The devices above [v], and [v] itself. *)
Definition above p v w : Prop := exists l, up (p_vdev p) v l /\ w ∈ l.

(** What a leaf itself comes to: one that was removed stays so when it cannot
    be opened. *)
Definition leaf_result d (state : Z) (aux : vdev_aux) : Z * vdev_aux :=
  if vd_removed d && (state =? STATE_CANT_OPEN) && (aux_is aux AUX_OPEN_FAILED || vd_checkremove d) then (STATE_REMOVED, AUX_NONE) else (state, aux).

(** ** Counting children *)

Lemma counted_faulty d : (is_dead d && negb (readable d)) || aux_is (vd_aux d) AUX_IO_FAILURE = faulty d.
Proof.
  unfold readable, is_dead, faulty. destruct (vd_state d <? STATE_DEGRADED), (aux_is (vd_aux d) AUX_IO_FAILURE); done.
Qed.

Lemma tally_cons f c cs : tally f (c :: cs) = (if f c then 1 else 0) + tally f cs.
Proof. unfold tally. cbn. destruct (f c); cbn [length]; lia. Qed.

Lemma tally_ext f f' cs : (forall c, c ∈ cs -> f c = f' c) -> tally f cs = tally f' cs.
Proof.
  induction cs as [|c cs IH]; intros H; [done|]. rewrite !tally_cons, (H c) by (by left). rewrite IH; [done|]. intros. apply H. by right.
Qed.

Lemma tally_bounds f cs : 0 <= tally f cs <= Z.of_nat (length cs).
Proof. induction cs as [|c cs IH]; [done|]. rewrite tally_cons. cbn [length]. destruct (f c); lia. Qed.

Lemma existsb_tally f cs : existsb f cs = (0 <? tally f cs).
Proof.
  induction cs as [|c cs IH]; [done|]. rewrite tally_cons. cbn. rewrite IH. pose proof (tally_bounds f cs). destruct (f c); cbn [orb]; lia.
Qed.

Lemma forallb_tally f cs : forallb f cs = (tally f cs =? Z.of_nat (length cs)).
Proof.
  induction cs as [|c cs IH]; [done|]. rewrite tally_cons. cbn [forallb length]. rewrite IH. pose proof (tally_bounds f cs). destruct (f c); cbn [andb]; lia.
Qed.

Lemma forallb_tally_negb f cs : forallb f cs = (tally (fun c => negb (f c)) cs =? 0).
Proof.
  induction cs as [|c cs IH]; [done|]. rewrite tally_cons. cbn [forallb]. rewrite IH. pose proof (tally_bounds (fun c => negb (f c)) cs). destruct (f c); cbn [andb negb]; lia.
Qed.

(** The two counts of [vdev_propagate_state]: the first has the devices that
    are lost, both together those that have a defect. *)
Definition hurts (root : bool) d : bool := faulty d && negb (vd_islog d && root).

Lemma count_tally m (root : bool) cs : (forall c, c ∈ cs -> is_Some (m !! c)) -> forall f0 g0 c0,
  exists g c, foldM (fun n c => let* d := m !! c in Some (count_child root n d)) (f0, g0, c0) cs = Some (f0 + tally (at_vdev m (hurts root)) cs, g, c) /\
    g = g0 + tally (fun c => negb (at_vdev m healthy c)) cs - tally (at_vdev m (hurts root)) cs.
Proof.
  induction cs as [|x cs IH]; intros H f0 g0 c0; [exists g0, c0; unfold tally; cbn [List.filter length foldM]; split; [by rewrite Z.add_0_r|lia]|].
  destruct (H x) as [d Hd]; [by left|]. cbn [foldM]. rewrite Hd. cbn [mbind option_bind]. rewrite !tally_cons.
  destruct (count_child root (f0, g0, c0) d) as [[f1 g1] c1] eqn:E.
  assert (f1 = f0 + (if at_vdev m (hurts root) x then 1 else 0) /\
    g1 = g0 + (if negb (at_vdev m healthy x) then 1 else 0) - (if at_vdev m (hurts root) x then 1 else 0)) as [-> ->].
  { unfold count_child in E. rewrite counted_faulty in E. unfold at_vdev. rewrite Hd. unfold hurts, healthy.
    destruct (faulty d); cbn [andb negb].
    - destruct (vd_islog d && root); simplify_eq/=; lia.
    - destruct (vd_state d <=? STATE_DEGRADED) eqn:Es; simplify_eq/=; destruct (STATE_DEGRADED <? vd_state d) eqn:Et; cbn; lia. }
  destruct (IH ltac:(set_solver) (f0 + (if at_vdev m (hurts root) x then 1 else 0))
    (g0 + (if negb (at_vdev m healthy x) then 1 else 0) - (if at_vdev m (hurts root) x then 1 else 0)) c1) as (g & c & -> & ->).
  eexists _, c. split; [do 3 f_equal; lia|lia].
Qed.

(** ** Consistent states say what the leaves say *)

(** The state that a device's children call for, in terms of how many of them
    are lost and how many have a defect. *)
Definition called_for d (nlost nbad : Z) : Z :=
  if match vd_ops d with op_raidz n => n <? nlost | op_mirror => nlost =? Z.of_nat (length (vd_child d)) | _ => 0 <? nlost end then STATE_CANT_OPEN
  else if nbad =? 0 then STATE_HEALTHY else STATE_DEGRADED.

Lemma state_change_called d nl g : vd_ops d <> op_leaf -> 0 <= nl <= Z.of_nat (length (vd_child d)) -> 0 <= g ->
  exists a, state_change d nl g = Some (called_for d nl (nl + g), a) /\ a <> AUX_IO_FAILURE.
Proof.
  intros Hl Hn Hg. unfold state_change, called_for, vdev_root_state_change, too_many_errors, vdev_mirror_state_change, vdev_raidz_state_change.
  rewrite (proj2 (Z.leb_le nl _)) by lia. cbn [mbind option_bind].
  destruct (vd_ops d); try done; repeat case_match; try lia; by eexists.
Qed.

Lemma consistent_state root m v d : tree_ok root m -> consistent root m v -> m !! v = Some d -> vd_child d <> [] ->
  vd_state d = called_for d (tally (at_vdev m (hurts (v =? root))) (vd_child d)) (tally (fun c => negb (at_vdev m healthy c)) (vd_child d)) /\
  vd_aux d <> AUX_IO_FAILURE.
Proof.
  intros Ht Hcon Hd Hc. specialize (Hcon d Hd Hc). pose proof (interior_not_leaf _ _ _ _ Ht Hd Hc) as [Hl _].
  destruct (count_children_total _ _ _ _ Ht Hd) as (f & g & c & E & Hf & Hg). unfold derived in Hcon. rewrite E in Hcon. cbn [mbind option_bind] in Hcon.
  destruct (count_tally m (v =? root) (vd_child d)) with 0 0 0 as (g' & c' & E' & Hg').
  { intros x Hx. destruct (ok_child _ _ _ _ (Ht v d Hd) x Hx) as (? & -> & _). eauto. }
  unfold count_children in E. rewrite E in E'. injection E' as -> -> ->. rewrite Z.add_0_l in *.
  destruct (state_change_called d (tally (at_vdev m (hurts (v =? root))) (vd_child d)) g' Hl Hf Hg) as (a & Ea & Ha).
  rewrite Ea in Hcon. cbn [mbind option_bind] in Hcon. injection Hcon as <- <-. split; [f_equal; lia|by case_match].
Qed.

(** The three states of a device that has children. *)
Lemma called_faulty d nl nb : vd_state d = called_for d nl nb -> vd_aux d <> AUX_IO_FAILURE ->
  faulty d = match vd_ops d with op_raidz n => n <? nl | op_mirror => nl =? Z.of_nat (length (vd_child d)) | _ => 0 <? nl end.
Proof.
  intros Hs Ha. unfold faulty, aux_is. rewrite bool_decide_eq_false_2 by done. rewrite orb_false_r, Hs. unfold called_for. repeat case_match; done.
Qed.
Lemma called_healthy d nl nb : vd_state d = called_for d nl nb -> vd_aux d <> AUX_IO_FAILURE -> healthy d = negb (faulty d) && (nb =? 0).
Proof.
  intros Hs Ha. unfold healthy. rewrite (called_faulty d nl nb), Hs by done. unfold called_for. repeat case_match; done.
Qed.

Lemma hurts_log m c : at_vdev m (hurts true) c = at_vdev m faulty c && negb (at_vdev m vd_islog c).
Proof. unfold at_vdev, hurts. destruct (m !! c); [|done]. by rewrite andb_true_r. Qed.
Lemma hurts_any m c : at_vdev m (hurts false) c = at_vdev m faulty c.
Proof. unfold at_vdev, hurts. destruct (m !! c); [|done]. by rewrite andb_false_r, andb_true_r. Qed.

(** What hurts has a defect. *)
Lemma hurts_bad m (root : bool) cs : tally (at_vdev m (hurts root)) cs <= tally (fun c => negb (at_vdev m healthy c)) cs.
Proof.
  induction cs as [|c cs IH]; [done|]. rewrite !tally_cons.
  assert (at_vdev m (hurts root) c = true -> at_vdev m healthy c = false) as H.
  { unfold at_vdev, hurts, healthy. destruct (m !! c); [|done]. by intros [-> _]%andb_true_iff. }
  destruct (at_vdev m (hurts root) c); [rewrite H by done; cbn [negb]; lia|]. destruct (negb _); lia.
Qed.

(** A device is lost, or free of defects, as the leaves below it say.  The
    fuel reaches the leaves: no path is longer than there are devices. *)
Lemma verdict_spec root m : tree_ok root m -> (forall v, consistent root m v) -> forall k v d l,
  m !! v = Some d -> up m v l -> (size m < k + length l)%nat -> lost k m v = faulty d /\ fine k m v = healthy d.
Proof.
  intros Ht Hcon. induction k as [|k IH]; intros v d l Hd Hl Hk; [pose proof (up_length _ _ _ Hl); lia|].
  destruct (Ht v d Hd) as [Hnn _ Hroot Hleaf _ Hpar Hchild _]. cbn [lost fine]. rewrite Hd.
  destruct (decide (vd_child d = [])) as [E|Hc].
  { apply Hleaf in E. rewrite E. by destruct (vd_ops d). }
  assert (forall c, c ∈ vd_child d -> lost k m c = at_vdev m faulty c /\ fine k m c = at_vdev m healthy c) as Hch.
  { intros c Hin. destruct (Hchild c Hin) as (dc & Hdc & Hp). unfold at_vdev. rewrite Hdc. apply (IH c dc (c :: l)); [done| |cbn; lia].
    eapply up_step; [done|by rewrite Hp|by rewrite Hp]. }
  pose proof (interior_not_leaf _ _ _ _ Ht Hd Hc) as [_ ->].
  destruct (consistent_state _ _ _ _ Ht (Hcon v) Hd Hc) as [Hs Ha].
  rewrite (called_healthy _ _ _ Hs Ha), (called_faulty _ _ _ Hs Ha), (forallb_tally_negb (fine k m)), existsb_tally, forallb_tally.
  rewrite (tally_ext (fun c => negb (fine k m c)) (fun c => negb (at_vdev m healthy c))) by (intros c Hin; by rewrite (proj2 (Hch c Hin))).
  pose proof (hurts_bad m (v =? root) (vd_child d)) as Hle. pose proof (tally_bounds (at_vdev m (hurts (v =? root))) (vd_child d)) as Hb.
  assert (0 < length (vd_child d))%nat as Hlen by (destruct (vd_child d); [done|cbn; lia]).
  destruct (vd_ops d) as [| |n|] eqn:Eo; [| | |exfalso; by apply Hc, Hleaf].
  - assert ((v =? root) = true) as E by (by apply Z.eqb_eq, Hroot). rewrite E in *. split; [|lia].
    f_equal. apply tally_ext. intros c Hin. by rewrite hurts_log, (proj1 (Hch c Hin)).
  - assert ((v =? root) = false) as E by (apply Z.eqb_neq; intros E%Hroot; congruence). rewrite E in *. split; [|lia].
    f_equal. apply tally_ext. intros c Hin. by rewrite hurts_any, (proj1 (Hch c Hin)).
  - assert ((v =? root) = false) as E by (apply Z.eqb_neq; intros E%Hroot; congruence). rewrite E in *. specialize (Hpar n eq_refl). split; [|lia].
    f_equal. apply tally_ext. intros c Hin. by rewrite hurts_any, (proj1 (Hch c Hin)).
Qed.

(** ** Setting the state of a leaf *)

Lemma apply_leaf p v d s a : vd_ops d = op_leaf -> exists d',
  p_vdev (apply_state p v d s a) = <[v := d']> (p_vdev p) /\ same_pool p (apply_state p v d s a) /\ same_shape d d' /\
  (vd_state d', vd_aux d') = leaf_result d s a /\ vd_tsd d' = vd_tsd d && readable (with_state d s a).
Proof.
  intros Hl. unfold apply_state, leaf_result. cbn [with_state vd_ops]. rewrite Hl. cbn [vdev_op_leaf]. rewrite andb_true_r.
  assert (forall e : vdev_t, vd_ops e = op_leaf -> vd_parent e = vd_parent d -> vd_child e = vd_child d -> same_shape d e) as Hsh.
  { intros e ???. split_and!; try congruence. by rewrite Hl. }
  destruct (readable (with_state d s a)); cbn [negb]; cbn [vd_removed vd_checkremove with_state closed];
    repeat case_match; eexists; (split; [reflexivity|]); (split; [done|]); (split; [apply Hsh; done|]); cbn; rewrite ?andb_true_r, ?andb_false_r; done.
Qed.

Lemma settled_consistent root m v l d d' : tree_ok root m -> (forall w, consistent root m w) -> m !! v = Some d -> vd_child d = [] -> same_shape d d' ->
  up m v l -> forall w, consistent root (settle root (<[v := d']> m) l) w.
Proof.
  intros Ht Hcon Hd Hc Hs Hl w. pose proof (tree_shape _ _ _ _ _ Ht Hd Hs) as Ht'. pose proof (up_shape _ _ _ _ _ _ Hd Hs Hl) as Hl'.
  destruct (decide (w ∈ l)) as [Hw|Hw]; [by apply (settle_ok root l _ v)|].
  assert (v ∈ l) as Hv by (destruct (up_inv _ _ _ Hl) as [? ->]; by left).
  intros e He Hne. rewrite settle_other, lookup_insert_ne in He by set_solver. rewrite <- (Hcon w e He Hne). apply derived_ext.
  intros c Hin. destruct (ok_child _ _ _ _ (Ht w e He) c Hin) as (dc & Hdc & Hp). pose proof (ok_nonnull _ _ _ _ (Ht w e He)) as Hnn.
  assert (c ∉ l) as Hcl by (intros Hcl; apply Hw; rewrite <- Hp; apply (up_closed _ _ _ _ _ Hl Hcl Hdc); by rewrite Hp).
  rewrite settle_other, lookup_insert_ne by set_solver. done.
Qed.

(** C1: [vdev_set_state] of a leaf returns, although it and
    [vdev_propagate_state] call each other: three calls for each device above
    the leaf are enough.  The leaf gets the new state (a removed device that
    cannot be opened stays removed), and it is closed when it is not readable
    any more; the devices that are neither the leaf nor above it are untouched;
    and when the states of all devices agreed with those of their children
    before, they do so again afterwards. *)
Theorem vdev_set_state_consistent p v d state aux : tree_ok (p_root p) (p_vdev p) -> pool_consistent p ->
  p_vdev p !! v = Some d -> vd_ops d = op_leaf -> state <> vd_state d ->
  exists p' d', vdev_set_state (state_fuel p) p v false state aux = Some p' /\
    tree_ok (p_root p') (p_vdev p') /\ pool_consistent p' /\
    p_vdev p' !! v = Some d' /\ (vd_state d', vd_aux d') = leaf_result d state aux /\
    vd_tsd d' = vd_tsd d && readable (with_state d state aux) /\
    (forall w, ~ above p v w -> p_vdev p' !! w = p_vdev p !! w).
Proof.
  intros Ht Hcon Hd Hl Hs. destruct (apply_leaf p v d state aux Hl) as (d' & Hm1 & Hsp & Hsh & Hres & Htsd). pose proof Hsp as (Hr1 & _).
  destruct (ok_up _ _ _ _ (Ht v d Hd)) as [l Hup]. pose proof (up_shape _ _ _ _ _ _ Hd Hsh Hup) as Hup1.
  pose proof (tree_shape _ _ _ _ _ Ht Hd Hsh) as Ht1. pose proof (up_length _ _ _ Hup) as Hlen.
  assert (vd_child d = []) as Hc by (apply (ok_leaf _ _ _ _ (Ht v d Hd)); by rewrite Hl).
  unfold state_fuel. replace (3 * S (size (p_vdev p)) + 1)%nat with (S (3 * S (size (p_vdev p)))) by lia. rewrite (set_differs _ _ _ d) by done.
  destruct (propagate_spec l (apply_state p v d state aux) v (3 * S (size (p_vdev p)))) as (p' & -> & Hm' & Hr' & _);
    rewrite ?Hr1, ?Hm1; [done..|lia|]. rewrite Hr1, Hm1 in Hm'.
  destruct (settle_ok _ _ _ _ Ht1 Hup1) as (Ht2 & _ & _).
  destruct (up_inv _ _ _ Hup) as [l' ->]. exists p', d'. unfold pool_consistent. rewrite Hr', Hr1, Hm'. split_and!; [done|done| | |done|done|].
  - by eapply settled_consistent.
  - cbn. unfold recompute at 2. rewrite lookup_insert_eq. destruct Hsh as (_ & _ & -> & _). rewrite Hc, bool_decide_eq_true_2 by done.
    etransitivity; [apply settle_other; by eapply up_acyclic|]. by rewrite lookup_insert_eq.
  - intros w Hw. assert (w ∉ v :: l') as Hn by (intros Hin; apply Hw; by exists (v :: l')).
    rewrite settle_other by done. rewrite lookup_insert_ne; [done|]. intros ->. apply Hn. by left.
Qed.

(** C2: In a pool whose states agree, every device that has children is in
    the state its leaves account for: a mirror is lost when all its children
    are, a RAID-Z group when more than its parity devices are, the pool when
    a top-level device other than a log is; the device is healthy when
    everything below it is, and degraded otherwise. *)
Theorem vdev_state_verdict p v d : tree_ok (p_root p) (p_vdev p) -> pool_consistent p ->
  p_vdev p !! v = Some d -> vd_child d <> [] -> vd_state d = verdict (p_vdev p) v.
Proof.
  intros Ht Hcon Hd Hc. destruct (ok_up _ _ _ _ (Ht v d Hd)) as [l Hl].
  destruct (verdict_spec _ _ Ht Hcon (size (p_vdev p)) v d l Hd Hl) as [Hlost Hfine].
  { destruct (up_inv _ _ _ Hl) as [? ->]. cbn. lia. }
  unfold verdict. rewrite Hlost, Hfine. destruct (consistent_state _ _ _ _ Ht (Hcon v) Hd Hc) as [Hs Ha].
  rewrite (called_healthy _ _ _ Hs Ha), (called_faulty _ _ _ Hs Ha), Hs. unfold called_for. by repeat case_match.
Qed.

(** The header calls a device unusable when it is [CANT_OPEN] or below; one
    that is [FAULTED], which is above, is unusable as well. *)
Lemma faulted_unusable d : vd_state d = STATE_FAULTED -> vd_aux d <> AUX_IO_FAILURE -> STATE_CANT_OPEN < vd_state d /\ readable d = false.
Proof. intros Hs Ha. unfold readable, is_dead, aux_is. rewrite Hs, bool_decide_eq_false_2 by done. done. Qed.

(** ** A pool *)

Definition ex_vdev (ops : vdev_optype) (parent : Z) (child : list Z) (state : Z) (aux : vdev_aux) (islog : bool) : vdev_t :=
  mk_vdev ops parent child state 0 aux islog false false false false true.

(** A RAID-Z group of three, one of them lost, and a log that is lost, too. *)
Definition ex_pool : pool :=
  mk_pool (<[1 := ex_vdev op_root 0 [2; 3] STATE_DEGRADED AUX_NONE false]> (<[2 := ex_vdev (op_raidz 1) 1 [4; 5; 6] STATE_DEGRADED AUX_NONE false]>
    (<[3 := ex_vdev op_leaf 1 [] STATE_CANT_OPEN AUX_OPEN_FAILED true]> (<[4 := ex_vdev op_leaf 2 [] STATE_FAULTED AUX_ERR_EXCEEDED false]>
    (<[5 := ex_vdev op_leaf 2 [] STATE_HEALTHY AUX_NONE false]> {[6 := ex_vdev op_leaf 2 [] STATE_HEALTHY AUX_NONE false]})))))
    1 false false [].

Ltac ex_cases H :=
  repeat (apply lookup_insert_Some in H as [[<- <-]|[_ H]]; [|]); try (apply lookup_singleton_Some in H as [<- <-]).

Ltac ex_up := first [eapply up_top; reflexivity | eapply up_step; [reflexivity|discriminate|cbn; ex_up]].

Lemma ex_tree_ok : tree_ok (p_root ex_pool) (p_vdev ex_pool).
Proof.
  intros v d H. cbn [ex_pool p_vdev p_root] in *. ex_cases H; split; cbn; try done;
    try (intros n [= <-]; lia); try (eexists; ex_up);
    intros c Hc; repeat (apply elem_of_cons in Hc as [->|Hc]; [eexists; split; reflexivity|]); by apply not_elem_of_nil in Hc.
Defined.

Lemma ex_pool_consistent : pool_consistent ex_pool.
Proof.
  intros v d H. cbn [ex_pool p_vdev p_root] in *. ex_cases H; intros Hc; try (exfalso; by apply Hc); vm_compute; reflexivity.
Defined.

(** When another device of the group faults, the group and the pool are lost. *)
Lemma vdev_set_state_consistent_witness : exists p' d', vdev_set_state (state_fuel ex_pool) ex_pool 5 false STATE_FAULTED AUX_ERR_EXCEEDED = Some p' /\
  pool_consistent p' /\ p_vdev p' !! 5 = Some d' /\ vd_state d' = STATE_FAULTED /\ vd_tsd d' = false /\ p_vdev p' !! 6 = p_vdev ex_pool !! 6.
Proof.
  destruct (vdev_set_state_consistent ex_pool 5 (ex_vdev op_leaf 2 [] STATE_HEALTHY AUX_NONE false) STATE_FAULTED AUX_ERR_EXCEEDED
    ex_tree_ok ex_pool_consistent ltac:(reflexivity) ltac:(reflexivity) ltac:(discriminate)) as (p' & d' & E & _ & Hc & Hd & Hr & Ht & Ho).
  exists p', d'. split_and!; [done|done|done|by injection Hr|exact Ht|]. apply Ho. intros (l & Hl & Hin).
  assert (up (p_vdev ex_pool) 5 [5; 2; 1]) as Hl' by ex_up. rewrite (up_fun _ _ _ _ Hl Hl') in Hin. set_solver.
Defined.

Lemma vdev_state_verdict_witness : verdict (p_vdev ex_pool) 2 = STATE_DEGRADED /\ STATE_DEGRADED = verdict (p_vdev ex_pool) 1.
Proof.
  split; [vm_compute; reflexivity|].
  apply (vdev_state_verdict ex_pool 1 (ex_vdev op_root 0 [2; 3] STATE_DEGRADED AUX_NONE false) ex_tree_ok ex_pool_consistent); [reflexivity|discriminate].
Defined.

Example ex_two_lost :
  (let* p := vdev_set_state (state_fuel ex_pool) ex_pool 5 false STATE_FAULTED AUX_ERR_EXCEEDED in
  Some (vd_state <$> p_vdev p !! 2, vd_state <$> p_vdev p !! 1, p_posts p)) =
  Some (Some STATE_CANT_OPEN, Some STATE_CANT_OPEN, [ereport DEVICE_NO_REPLICAS 2 STATE_DEGRADED]).
Proof. vm_compute. reflexivity. Qed.
